(* ===== verification/_CoqProject ===== *)
-Q . S2P
Prelude.v
GoStd.v
Cache.v
CacheFacts.v
Counter.v
PgCache.v
Reserve.v
Crypto.v
Json.v
Bytes.v
GoTime.v
JsonEnc.v
Runes.v
JsonUtf8.v
Base64.v
Totp.v
Jwt.v
JwtFacts.v
JwtSign.v
DPoP.v
DPoPFacts.v
NetIP.v
Url.v
Sanitize.v
Aes.v
KeyStore.v
Argon2.v
ClientIP.v
IPAccess.v
Outbound.v
IpIntel.v
Oidc.v
Model.v
Middleware.v
MiddlewareFacts.v
TokenStore.v
TokenStoreFacts.v
RateLimit.v
UserStore.v
FactorStore.v
Rbac.v
AdminStore.v
PersonalStore.v
Effects.v
Random.v
StoreWp.v
Reasoning.v
Blob.v
BlobFacts.v
TokenService.v
Lockout.v
LockoutFacts.v
Session.v
Login.v
SecondFactor.v
BlobHandler.v
Erasure.v
Register.v
Password.v
Recover.v
Identity.v
IdentityFacts.v
ServiceDoc.v
Mint.v
ClientAuth.v
DocumentForm.v
DocumentPrivacy.v
DocumentStore.v
ErasureFacts.v
Admin.v
Race.v
SessionFacts.v
SessionLive.v
LoginFacts.v
OAuth.v
RegisterFacts.v
MfaFacts.v
PasswordFacts.v
SecondFactorFacts.v
AdminFacts.v
