(* ===== verification/Prelude.v ===== *)
(** * Vault42: a verification library

    Vault42 (src/) is an authentication server in Go: password and
    second-factor login, short-lived access tokens bound to a client key,
    rotating refresh tokens grouped in families, lockouts, rate limits, a
    gateway for administrators, a honeypot, and the storage and erasure of
    personal data.  This library models the code that decides who holds a
    session, who may act on an account and what becomes of its data, and
    proves what that code promises.

    ** The program and its model

    Foundations.
    - The standard library as the sources use it: [GoStd] (strings, numbers),
      [Bytes], [Base64] (and hexadecimal), [NetIP] (addresses and prefixes), [Json] (the
      decoder), [JsonEnc] (the encoder, with its round trip), [GoTime] (RFC 3339
      text of an instant, with its round trip).
    - internal/model/model.go: [Model], and the entity beside its table in each
      store file.
    - internal/crypto: [Crypto] (what is hashed and compared; the class
      [Primitives] is the parameter for SHA-256, HMAC, Argon2 and signing),
      [Aes] (AES-GCM framing, recovery.go's escrow records), [Argon2] (the PHC
      string, its bounds, the semaphore), [Totp], [DPoP] (proofs and key
      thumbprints), [Random] (random.go).
    - internal/jwt and internal/crypto/jwt.go: [Jwt], parsing and validation.

    Stores.
    - internal/cache: [Cache] (the interface as the class [CacheOps], memory.go),
      [Counter] (the fixed-window counter a limiter needs of a cache), [PgCache]
      (postgres.go), [Reserve] (single winners over any cache).
    - internal/repository/postgres: [TokenStore], [UserStore], [FactorStore],
      [AdminStore], [PersonalStore]: tables as lists and maps of rows, each SQL
      statement a function on them, atomic as its transaction and locks make it.

    Requests.
    - internal/middleware: [ClientIP], [RateLimit], [IPAccess], [Middleware]
      (authentication, DPoP, fingerprint, liveness, confirmation, and the route
      wrappers of internal/server/server.go).
    - internal/service/token.go, mfa.go: [TokenService].  internal/service/auth.go:
      [Lockout], [Session], [Login].  internal/handler/totp.go, backup_codes.go,
      mfa_helper.go: [SecondFactor].
    - internal/rbac, internal/adminapi: [Rbac], [Admin].
    - internal/service/erasure.go, handler/account.go: [Erasure];
      cmd/recover/main.go: [Recover].
    - internal/service/auth.go and internal/handler/auth.go (sign-up),
      internal/service/hibp.go: [Register].  internal/handler/password.go: [Password].

    Personal data.
    - internal/sanitize: [Sanitize].  internal/service/blob.go and its handler:
      [Blob], [BlobHandler].
    - internal/service/identity.go and its handler: [Identity] (profiles, consent
      and the compare-and-set writers).
    - internal/service/servicedoc.go and its handler: [ServiceDoc] (documents a
      service client keeps about a subject).
    - Unicode: [Runes] (decoding as Go's range loop does), [JsonUtf8] (the JSON
      reader and writer keep text valid UTF-8).

    Tokens for others, and others' tokens.
    - internal/jwt (signing): [JwtSign].  internal/service/mint.go and its handler:
      [Mint].  internal/handler/client.go: [ClientAuth].
    - internal/keystore with the triggers and policies of its migrations:
      [KeyStore] (a fleet of pods over one table of signing keys).
    - internal/outbound: [Outbound] (destinations, the dialer, redirects), over
      [Url].  internal/oauth2: [Oidc] (discovery, exchange, key sets, ID tokens,
      the three fixed providers).  internal/handler/oauth.go: [OAuth].
    - internal/ipintel: [IpIntel] (the range table, its format and its search).

    The theorems about a file [F] are in [F] itself or in [FFacts].

    ** How stateful code is modelled

    The services share a database, a cache, a clock, entropy and an audit trail
    with every other goroutine.  [Effects] makes a body a tree of atomic
    statements; a [choice] per statement says how much time passes, whether the
    call fails and on which side of its commit, what the entropy source
    returns, whether the password semaphore is full, whether the client hangs
    up.  [run] executes a program alone; [wp] quantifies over every choice;
    [pool_step] interleaves any number of programs with each other and with
    operators and reapers.  Errors are values of [res]; instants and durations
    are nanoseconds in Z; integers that can overflow are wrapped ([wrap64]).

    ** What the theorems show

    - [Race]: under every interleaving each family keeps at most one live row,
      so a stolen refresh token and its rightful copy never both continue.
    - [SessionFacts], [SessionLive]: a refresh that succeeds was entitled to, a
      replay burns its family, logout ends every session, roles in tokens are
      never administrative, and an entitled refresh does succeed.
    - [LoginFacts], [MfaFacts], [SecondFactorFacts]: a login that succeeds proved
      a password of an account in good standing; a failed login looks alike for
      every account state; challenges, codes and time steps are redeemed once; a
      change of factors ends the sessions.
    - [LockoutFacts]: five failures lock, and the throttle is its closed form.
    - [TokenService], [TokenStoreFacts], [UserStore]: rotation never extends a
      session, burned families stay burned, the session cap holds, erasure of an
      account row is final.
    - [JwtFacts], [DPoPFacts], [MiddlewareFacts]: what a validated token, an
      accepted proof and a request that passed the middleware vouch for.
    - [CacheFacts], [PgCache]: the caches refine the TTL map their interface
      promises and agree with each other; sweeps end and drain their backlog.
    - [RateLimit], [ClientIP], [IPAccess]: limits hold, a client cannot choose its
      address, the fence admits exactly what its lists say.
    - [Argon2], [Totp], [Aes]: hashes verify, codes are accepted exactly in
      their window, memory stays within budget, records open only in their row.
    - [AdminFacts]: a guarded admin route serves only an entitled session, the
      first account is created once, containment lands, tables keep their schema.
    - [Recover], [ErasureFacts]: an erasure that succeeds leaves no trace, one
      that fails leaves the account whole or a tombstone with an escrow record
      the offline tool reads back exactly, and a second run finishes the first.
    - [RegisterFacts], [PasswordFacts]: sign-up adds one unverified account and
      the public forms answer alike whatever accounts exist; a reset link wins
      once under any interleaving, and a finished reset ends every session.
    - [IdentityFacts]: a withdrawn consent stays withdrawn under any interleaving
      of forms that do not grant it, and a granted one keeps its record.
    - [BlobFacts], [DocumentStore]: quotas hold along every history, what is
      stored reads back, ciphertexts open only in their place.
    - [DocumentForm]: the structural walk accepts exactly the bounded documents
      and the canonical form is a fixed point with the same content.
    - [DocumentPrivacy]: no dialogue with the document endpoints depends on the
      private documents of other clients.
    - [Sanitize]: sanitised text is inert and a redirect stays on its origin.
    - [JwtSign], [Mint], [ClientAuth]: what is signed is read back claim for
      claim; a minted token stays within policy and no route takes it; a client
      gets its registered role and scopes or one answer for every failure.
    - [KeyStore]: by induction on the fleet's actions, pods trust only keys they
      imported, a revoked key never returns, and a retired one outlives the tokens
      it signed.
    - [Outbound], [Oidc]: exactly which addresses are refused, a fetch
      ends within ten requests and never lands inside the deployment, and a
      profile is believed only on an ID token signed for this login.
    - [OAuth]: a callback signs in only the account its profile is entitled
      to, keeps the second factor and leaves no identity when refused; the state
      opens its own flow only, the exchange code works once.
    - [IpIntel]: the decoder never reads past its input, and the searched table
      answers as a scan of the ranges it was written from.
    Three principles carry these: [StoreWp] (weakest preconditions of
    store calls), [Reasoning] (invariants of a pool from what each step
    guarantees, and two runs of one program over worlds that look alike to it).

    ** Bounds and fuel

    Most loops are structural.  [fmt_digits] takes a bit count as fuel and its
    round-trip lemma shows it suffices; the JSON reader takes twice the length
    of its input and [json_round_trip] shows that enough for every document the
    writer produces; reapers carry the source's own batch bounds;
    [SearchFirst] takes the length of the interval it halves, which
    [search_loop_ok] shows enough.

    ** What is not modelled

    Passkey ceremonies and the rest of the HTTP layer (request decoding, cookie
    attributes, routing, views); mail bodies; metrics, alerts and the audit log
    beyond the events the services emit; the Redis client; the cloud key service;
    configuration loading, seeding and the command line.
    Cryptography, compression, URL and mail-address parsing are parameters with
    their documented laws.  Migrations are modelled where they enforce a rule of
    the tables the stores use.
    Bytes are ASCII where the source folds or trims Unicode: [ToLower] and
    [TrimSpace] act on the ASCII range. *)
From stdpp Require Export base decidable gmap strings list sets numbers option.
From Stdlib Require Export ZArith Lia.

(** ** Notations of the development *)
Declare Scope vault_scope.
Delimit Scope vault_scope with vault.

(** ** Results: Go's [(T, error)] pair with a nil error or a nil value *)
Inductive res (E A : Type) : Type :=
| Ok (a : A)
| Err (e : E).
Arguments Ok {E A} a.
Arguments Err {E A} e.

#[export] Instance res_eq_dec {E A} `{EqDecision E} `{EqDecision A} : EqDecision (res E A).
Proof. solve_decision. Defined.

Definition is_ok {E A} (r : res E A) : bool :=
  match r with Ok _ => true | Err _ => false end.

(** [x <-? c ; k]: Go's [x, err := c; if err != nil { return err }]. *)
Notation "x <-? c ; k" :=
  (match c with Ok x => k | Err e => Err e end)
    (at level 60, c at next level, right associativity) : vault_scope.

(** ** Machine integers: Go's [int64] keeps 64 bits, two's complement *)
Definition int64_min : Z := (- 2 ^ 63)%Z.
Definition int64_max : Z := (2 ^ 63 - 1)%Z.
Definition uint64_max : Z := (2 ^ 64 - 1)%Z.
Definition wrap64 (z : Z) : Z := ((z + 2 ^ 63) mod 2 ^ 64 - 2 ^ 63)%Z.

Definition in_int64 (z : Z) : Prop := (int64_min ≤ z ≤ int64_max)%Z.

(** ** Durations and instants, in nanoseconds (Go's [time.Duration]) *)
Definition millisecond : Z := 1000000%Z.
Definition second : Z := 1000000000%Z.
Definition minute : Z := (60 * second)%Z.
Definition hour : Z := (60 * minute)%Z.

(** ** Proof automation *)
Create HintDb vault.
Create Rewrite HintDb vault.

(** Turn boolean tests in the hypotheses into the propositions they decide. *)
Ltac bool_hyps :=
  repeat match goal with
  | H : andb _ _ = true |- _ => apply andb_true_iff in H; destruct H
  | H : orb _ _ = false |- _ => apply orb_false_iff in H; destruct H
  | H : negb _ = true |- _ => apply negb_true_iff in H
  | H : negb _ = false |- _ => apply negb_false_iff in H
  | H : (_ <=? _)%Z = true |- _ => apply Z.leb_le in H
  | H : (_ <=? _)%Z = false |- _ => apply Z.leb_gt in H
  | H : (_ <? _)%Z = true |- _ => apply Z.ltb_lt in H
  | H : (_ <? _)%Z = false |- _ => apply Z.ltb_ge in H
  | H : (_ =? _)%Z = true |- _ => apply Z.eqb_eq in H
  | H : (_ =? _)%Z = false |- _ => apply Z.eqb_neq in H
  | H : bool_decide _ = true |- _ => apply bool_decide_eq_true in H
  | H : bool_decide _ = false |- _ => apply bool_decide_eq_false in H
  | H : (_ =? _)%nat = true |- _ => apply Nat.eqb_eq in H
  | H : (_ =? _)%nat = false |- _ => apply Nat.eqb_neq in H
  end.

(** Split every [if]/[match] scrutinee of the goal, keeping the equations. *)
Ltac inv_matches := simplify_eq/=; repeat (case_match; simplify_eq/=).
Ltac split_matches := inv_matches; bool_hyps.

(** Close a goal that is arithmetic once the tests are propositions. *)
Ltac crush := intros; simplify_eq/=; bool_hyps; try done; try lia; try congruence.

(** ** Reflexive transitive closure of a step relation *)
Section star.
Context {St : Type} (step : St → St → Prop).

Inductive star : St → St → Prop :=
| star_refl s : star s s
| star_step s1 s2 s3 : step s1 s2 → star s2 s3 → star s1 s3.

(** An invariant preserved by each step holds in every reachable state. *)
Lemma star_invariant (I : St → Prop) s s' :
  (∀ a b, I a → step a b → I b) → star s s' → I s → I s'.
Proof. intros Hp. induction 1; eauto. Qed.

(** A preorder respected by each step is respected by every run. *)
Lemma star_preorder (R : St → St → Prop) s s' :
  (∀ a, R a a) → (∀ a b c, R a b → R b c → R a c) →
  (∀ a b, step a b → R a b) → star s s' → R s s'.
Proof. intros Hr Ht Hs. induction 1; eauto. Qed.

Lemma star_trans s1 s2 s3 : star s1 s2 → star s2 s3 → star s1 s3.
Proof. induction 1; eauto using star. Qed.

Lemma star_one s1 s2 : step s1 s2 → star s1 s2.
Proof. eauto using star. Qed.
End star.

#[export] Hint Resolve star_refl star_one : vault.

(** ** Generic lemmas *)
Lemma wrap64_id z : in_int64 z → wrap64 z = z.
Proof.
  unfold in_int64, wrap64, int64_min, int64_max. intros [? ?].
  rewrite Z.mod_small by lia. lia.
Qed.

Lemma wrap64_range z : in_int64 (wrap64 z).
Proof.
  unfold in_int64, wrap64, int64_min, int64_max.
  pose proof (Z.mod_pos_bound (z + 2 ^ 63) (2 ^ 64)) as H. lia.
Qed.

Lemma fold_left_app_snoc {A B} (f : A → B → A) l x a :
  fold_left f (l ++ [x]) a = f (fold_left f l a) x.
Proof. by rewrite fold_left_app. Qed.
