(* ===== verification/GoStd.v ===== *)
(** * GoStd: what the modelled code uses of Go's standard library

    Executable models of the functions of [strconv], [fmt] and [strings] the
    components call, on byte strings, with the round trips the components
    rely on.  [ParseInt] follows strconv digit by digit, range errors
    included; [Sscanf_d] is [fmt.Sscanf(s, "%d", &n)] on ASCII input;
    [ToLower] and [TrimSpace] act on the ASCII range. *)
From S2P Require Import Prelude.
From Stdlib Require Import Ascii.
Open Scope string_scope.
Open Scope Z_scope.

(** ** Characters *)
Definition code (c : ascii) : Z := Z.of_N (N_of_ascii c).

Definition is_digit (c : ascii) : bool := (48 <=? code c) && (code c <=? 57).
Definition digit_val (c : ascii) : Z := code c - 48.

(** ASCII white space as [strings.TrimSpace] sees it. *)
Definition is_space (c : ascii) : bool :=
  bool_decide (code c ∈ [9; 10; 11; 12; 13; 32]).

Definition lower_ascii (c : ascii) : ascii :=
  if (65 <=? code c) && (code c <=? 90)
  then ascii_of_N (Z.to_N (code c + 32)) else c.

(** ** strings *)
Fixpoint ToLower (s : string) : string :=
  match s with
  | "" => ""
  | String c s' => String (lower_ascii c) (ToLower s')
  end.

Fixpoint TrimLeft (s : string) : string :=
  match s with
  | String c s' => if is_space c then TrimLeft s' else s
  | "" => ""
  end.

Fixpoint str_rev_app (s acc : string) : string :=
  match s with
  | "" => acc
  | String c s' => str_rev_app s' (String c acc)
  end.
Definition str_rev (s : string) : string := str_rev_app s "".

Definition TrimSpace (s : string) : string :=
  str_rev (TrimLeft (str_rev (TrimLeft s))).

(** ** strconv: numbers *)
Inductive numError := ErrSyntax | ErrRange.

#[export] Instance numError_eq_dec : EqDecision numError.
Proof. solve_decision. Defined.

(** The digit loop of [strconv.ParseUint(s, 10, 64)] from accumulator [n]. *)
Fixpoint ParseUint_loop (s : string) (n : Z) : Z * option numError :=
  match s with
  | "" => (n, None)
  | String c s' =>
      if is_digit c then
        let n1 := n * 10 + digit_val c in
        if uint64_max <? n1 then (uint64_max, Some ErrRange)
        else ParseUint_loop s' n1
      else (0, Some ErrSyntax)
  end.

Definition ParseUint (s : string) : Z * option numError :=
  match s with
  | "" => (0, Some ErrSyntax)
  | _ => ParseUint_loop s 0
  end.

(** [strconv.ParseInt(s, 10, 64)]: both the value and the error are returned,
    and an out-of-range input returns the clamped bound beside [ErrRange]. *)
Definition ParseInt (s : string) : Z * option numError :=
  let '(neg, body) :=
    match s with
    | String "+"%char s' => (false, s')
    | String "-"%char s' => (true, s')
    | _ => (false, s)
    end in
  match ParseUint body with
  | (_, Some ErrSyntax) => (0, Some ErrSyntax)
  | (un, _) =>
      if negb neg && (2 ^ 63 <=? un) then (2 ^ 63 - 1, Some ErrRange)
      else if neg && (2 ^ 63 <? un) then (- 2 ^ 63, Some ErrRange)
      else (if neg then - un else un, None)
  end.

(** [strconv.FormatInt(z, 10)] and [strconv.Itoa]. *)
Definition digit_char (d : Z) : ascii := ascii_of_N (Z.to_N (48 + d)).

(** The digit loop, least significant digit first, in front of [acc]; the fuel
    is a bit count, and a digit consumes more than one bit. *)
Fixpoint fmt_digits (fuel : nat) (n : Z) (acc : string) : string :=
  match fuel with
  | O => acc
  | S f =>
      let acc' := String (digit_char (n mod 10)) acc in
      if n / 10 =? 0 then acc' else fmt_digits f (n / 10) acc'
  end.

Definition FormatUint (n : Z) : string :=
  fmt_digits (S (Z.to_nat (Z.log2 n))) n "".

Definition FormatInt (z : Z) : string :=
  if z <? 0 then String "-"%char (FormatUint (- z)) else FormatUint z.

(** ** fmt: scanning an integer *)
Fixpoint skip_spaces (s : string) : string :=
  match s with
  | String c s' =>
      if is_space c && negb (code c =? 10) then skip_spaces s' else s
  | "" => ""
  end.

Fixpoint take_digits (s : string) : string :=
  match s with
  | String c s' => if is_digit c then String c (take_digits s') else ""
  | "" => ""
  end.

(** [fmt.Sscanf(s, "%d", &n)]: leading blanks, an optional sign, a run of
    digits; [None] is a scan error, which leaves [n] at its old value. *)
Definition Sscanf_d (s : string) : option Z :=
  let s1 := skip_spaces s in
  let tok :=
    match s1 with
    | String "+"%char s' => String "+"%char (take_digits s')
    | String "-"%char s' => String "-"%char (take_digits s')
    | _ => take_digits s1
    end in
  match ParseInt tok with
  | (n, None) => Some n
  | _ => None
  end.

(** ** Round trips *)
Fixpoint uint_digits (s : string) : Prop :=
  match s with
  | "" => True
  | String c s' => is_digit c = true ∧ uint_digits s'
  end.

(** The value of a digit string read from accumulator [n]. *)
Fixpoint digits_value (s : string) (n : Z) : Z :=
  match s with
  | "" => n
  | String c s' => digits_value s' (n * 10 + digit_val c)
  end.

Lemma digit_val_range c : is_digit c = true → 0 <= digit_val c <= 9.
Proof. unfold is_digit, digit_val. intros. bool_hyps. lia. Qed.

Lemma digits_value_ge s n : uint_digits s → 0 <= n → n <= digits_value s n.
Proof.
  revert n. induction s as [|c s IH]; simpl; intros n Hd Hn; [lia|].
  destruct Hd as [Hc Hd]. pose proof (digit_val_range _ Hc).
  specialize (IH (n * 10 + digit_val c) Hd). lia.
Qed.

(** On a digit string whose value fits, the loop computes the value. *)
Lemma ParseUint_loop_value s n :
  uint_digits s → 0 <= n → digits_value s n <= uint64_max →
  ParseUint_loop s n = (digits_value s n, None).
Proof.
  revert n. induction s as [|c s IH]; simpl; intros n Hd Hn Hle; [done|].
  destruct Hd as [Hc Hd]. pose proof (digit_val_range _ Hc).
  rewrite Hc.
  pose proof (digits_value_ge s (n * 10 + digit_val c) Hd).
  destruct (Z.ltb_spec uint64_max (n * 10 + digit_val c)); [lia|].
  apply IH; [done|lia|done].
Qed.

Lemma digit_char_spec d :
  0 <= d <= 9 → is_digit (digit_char d) = true ∧ digit_val (digit_char d) = d.
Proof.
  intros Hd. unfold is_digit, digit_val, code, digit_char.
  rewrite N_ascii_embedding by lia. rewrite Z2N.id by lia.
  split; [apply andb_true_intro; split; apply Z.leb_le; lia | lia].
Qed.

Lemma mod10_range n : 0 <= n mod 10 <= 9.
Proof. pose proof (Z.mod_pos_bound n 10). lia. Qed.

Lemma fmt_digits_digits fuel n acc :
  uint_digits acc → uint_digits (fmt_digits fuel n acc).
Proof.
  revert n acc. induction fuel as [|f IH]; intros n acc Ha; simpl; [done|].
  destruct (digit_char_spec _ (mod10_range n)) as [Hd _].
  case_match; [by split | apply IH; by split].
Qed.

Lemma fmt_digits_value fuel n acc :
  0 <= n < 2 ^ Z.of_nat fuel → (fuel ≠ 0)%nat →
  digits_value (fmt_digits fuel n acc) 0 = digits_value acc n.
Proof.
  revert n acc. induction fuel as [|f IH]; intros n acc Hn Hf; [done|].
  cbn [fmt_digits]. destruct (digit_char_spec _ (mod10_range n)) as [_ Hd].
  pose proof (Z.div_mod n 10 ltac:(lia)) as Hdm.
  rewrite Nat2Z.inj_succ, Z.pow_succ_r in Hn by lia.
  destruct (Z.eqb_spec (n / 10) 0) as [E|E].
  - cbn [digits_value]. rewrite Hd. f_equal. lia.
  - assert (Hlt : 0 <= n / 10 < 2 ^ Z.of_nat f).
    { split; [apply Z.div_pos; lia|]. apply Z.div_lt_upper_bound; lia. }
    rewrite IH; [|done|intros ->; change (2 ^ Z.of_nat 0) with 1 in *; lia].
    cbn [digits_value]. rewrite Hd. f_equal. lia.
Qed.

Lemma FormatUint_digits n : uint_digits (FormatUint n).
Proof. by apply fmt_digits_digits. Qed.

Lemma fuel_enough n : 0 <= n → n < 2 ^ Z.of_nat (S (Z.to_nat (Z.log2 n))).
Proof.
  intros Hn. pose proof (Z.log2_nonneg n).
  rewrite Nat2Z.inj_succ, Z2Nat.id by lia.
  destruct (Z.eq_dec n 0) as [->|]; [by vm_compute|].
  apply Z.log2_spec. lia.
Qed.

Lemma FormatUint_value n : 0 <= n → digits_value (FormatUint n) 0 = n.
Proof.
  intros Hn. unfold FormatUint. pose proof (fuel_enough n Hn).
  by rewrite fmt_digits_value.
Qed.

Lemma fmt_digits_nonempty fuel n acc : (fuel ≠ 0)%nat → fmt_digits fuel n acc ≠ "".
Proof.
  revert n acc. induction fuel as [|f IH]; intros n acc Hf; [done|].
  cbn [fmt_digits]. case_match; [done|].
  destruct f; [done|]. by apply IH.
Qed.

Lemma FormatUint_cons n : ∃ c s, FormatUint n = String c s.
Proof.
  destruct (FormatUint n) eqn:E; [|eauto].
  exfalso. by eapply (fmt_digits_nonempty (S (Z.to_nat (Z.log2 n))) n "").
Qed.

Lemma ParseUint_FormatUint n :
  0 <= n <= uint64_max → ParseUint (FormatUint n) = (n, None).
Proof.
  intros Hn. destruct (FormatUint_cons n) as (c & s & E).
  pose proof (FormatUint_digits n). pose proof (FormatUint_value n ltac:(lia)) as Hv.
  unfold ParseUint. rewrite E in *. rewrite ParseUint_loop_value; [|done|lia|lia].
  by rewrite Hv.
Qed.

Lemma digit_not_sign c : is_digit c = true → c ≠ "+"%char ∧ c ≠ "-"%char.
Proof. intros H. split; intros ->; by vm_compute in H. Qed.

(** Printing a non-negative counter and parsing it back gives the counter. *)
Lemma ParseInt_FormatInt z : 0 <= z <= int64_max → ParseInt (FormatInt z) = (z, None).
Proof.
  intros Hz. unfold int64_max in Hz. unfold FormatInt.
  destruct (Z.ltb_spec z 0); [lia|].
  destruct (FormatUint_cons z) as (c & s & E).
  pose proof (FormatUint_digits z) as Hd. rewrite E in Hd. destruct Hd as [Hc Hs].
  pose proof (digit_not_sign _ Hc) as [Hp Hm].
  pose proof (ParseUint_FormatUint z) as HP. unfold uint64_max in HP.
  specialize (HP ltac:(lia)). rewrite E in HP |- *. unfold ParseInt.
  assert (Hbody : match String c s with
    | String "+"%char s' => (false, s') | String "-"%char s' => (true, s')
    | _ => (false, String c s) end = (false, String c s)).
  { destruct c as [[] [] [] [] [] [] [] []]; by try done. }
  rewrite Hbody, HP. cbn.
  destruct (Z.leb_spec (2 ^ 63) z); [lia|done].
Qed.

Lemma take_digits_id s : uint_digits s → take_digits s = s.
Proof. induction s as [|c s IH]; simpl; [done|]. intros [-> ?]. by rewrite IH. Qed.

Lemma digit_not_space c : is_digit c = true → is_space c = false.
Proof.
  unfold is_digit, is_space. intros. bool_hyps. apply bool_decide_eq_false.
  intros Hin. repeat (apply elem_of_cons in Hin; destruct Hin as [Hin|Hin]; [lia|]).
  by apply elem_of_nil in Hin.
Qed.

Lemma Sscanf_FormatInt z : 0 <= z <= int64_max → Sscanf_d (FormatInt z) = Some z.
Proof.
  intros Hz. pose proof (ParseInt_FormatInt z Hz) as HP. unfold FormatInt in *.
  destruct (Z.ltb_spec z 0); [lia|].
  pose proof (FormatUint_digits z) as Hd.
  destruct (FormatUint_cons z) as (c & s & E). rewrite E in *.
  destruct Hd as [Hc Hs]. unfold Sscanf_d. cbn [skip_spaces].
  rewrite (digit_not_space _ Hc). cbn [andb].
  pose proof (digit_not_sign _ Hc) as [Hp Hm].
  assert (Htok : match String c s with
    | String "+"%char s' => String "+"%char (take_digits s')
    | String "-"%char s' => String "-"%char (take_digits s')
    | _ => take_digits (String c s) end = String c s).
  { destruct c as [[] [] [] [] [] [] [] []]; try done;
      by rewrite take_digits_id. }
  by rewrite Htok, HP.
Qed.

Lemma FormatInt_nonempty z : FormatInt z ≠ "".
Proof.
  unfold FormatInt. case_match; [done|].
  destruct (FormatUint_cons z) as (c & s & ->). done.
Qed.

(** The decimal rendering is injective on non-negative numbers. *)
Lemma FormatInt_inj a b :
  0 <= a → 0 <= b → FormatInt a = FormatInt b → a = b.
Proof.
  intros Ha Hb. unfold FormatInt.
  destruct (Z.ltb_spec a 0), (Z.ltb_spec b 0); try lia.
  intros E. rewrite <- (FormatUint_value a), <- (FormatUint_value b) by done.
  by rewrite E.
Qed.

Lemma string_app_assoc (a b c : string) : (a +:+ b) +:+ c = a +:+ (b +:+ c).
Proof.
  induction a as [|x a IH]; [done|].
  change (String x ((a +:+ b) +:+ c) = String x (a +:+ (b +:+ c))). by rewrite IH.
Qed.

Lemma string_app_cons x (a b : string) : String x a +:+ b = String x (a +:+ b).
Proof. done. Qed.

Lemma string_app_nil_l (a : string) : "" +:+ a = a.
Proof. done. Qed.

#[export] Hint Resolve FormatInt_nonempty : vault.
#[export] Hint Rewrite ParseInt_FormatInt Sscanf_FormatInt using lia : vault.

Lemma string_app_nil_r (a : string) : a +:+ "" = a.
Proof. induction a as [|x a IH]; [done|]. by rewrite string_app_cons, IH. Qed.

(** ** Reversal *)
Lemma str_rev_app_app s a b : str_rev_app s (a +:+ b) = str_rev_app s a +:+ b.
Proof. revert a. induction s as [|c s IH]; intros a; [done|]. cbn. by rewrite <- IH. Qed.
Lemma str_rev_cons c s : str_rev (String c s) = str_rev s +:+ String c "".
Proof. unfold str_rev. cbn. by rewrite <- (str_rev_app_app s "" (String c "")). Qed.
Lemma str_rev_snoc s c : str_rev (s +:+ String c "") = String c (str_rev s).
Proof.
  induction s as [|d s IH]; [done|]. rewrite string_app_cons, !str_rev_cons, IH. done.
Qed.
Lemma str_rev_involutive s : str_rev (str_rev s) = s.
Proof. induction s as [|c s IH]; [done|]. by rewrite str_rev_cons, str_rev_snoc, IH. Qed.

Lemma uint_digits_app a b : uint_digits (a +:+ b) ↔ uint_digits a ∧ uint_digits b.
Proof. induction a as [|c a IH]; [by cbn; tauto|]. rewrite string_app_cons. cbn. rewrite IH. tauto. Qed.
