(* ===== verification/Cache.v ===== *)
(** * Cache: the pluggable cache interface and its in-memory backend

    Models internal/cache/cache.go (the [Cache] interface and its error
    values) and internal/cache/memory.go (the TTL map with an entry cap that
    backs rate limiting, lockout and one-time tokens).

    The interface is the class [CacheOps]; the in-memory backend is its
    instance [memory_cache].  Each operation runs under the cache's lock, so it
    is a function from the instant [now] read under the lock and the state to a
    result and the next state.  [time.Time]'s zero value ("no expiry") is
    [None].  The log line printed at the cap is not modelled; the latch that
    limits it to one is. *)
From S2P Require Import Prelude GoStd.
From Stdlib Require Import Ascii.
Open Scope string_scope.
Open Scope Z_scope.

(** ** The interface *)
Inductive cacheErr :=
| ErrNotFound
| ErrCacheFull
| ErrCacheUnavailable.  (** any other backend error: timeout, refused connection *)

#[export] Instance cacheErr_eq_dec : EqDecision cacheErr.
Proof. solve_decision. Defined.

(** The operations of [cache.Cache], threading the backend state [C]. *)
Class CacheOps (C : Type) := {
  Get : Z → string → C → res cacheErr string * C;
  Set_ : Z → string → string → Z → C → res cacheErr unit * C;
  Delete : Z → string → C → res cacheErr unit * C;
  GetAndDelete : Z → string → C → res cacheErr string * C;
  SetIfNotExists : Z → string → string → Z → C → res cacheErr bool * C;
  Increment : Z → string → Z → C → res cacheErr Z * C;
  Exists_ : Z → string → C → res cacheErr bool * C;
}.

(** ** The in-memory backend *)
Module Memory.

Record memEntry := mkMemEntry { value : string; expiresAt : option Z }.

#[export] Instance memEntry_eq_dec : EqDecision memEntry.
Proof. solve_decision. Defined.

Definition memoryMaxEntries : Z := 200000.

Record MemoryCache := mkMemoryCache {
  data : gmap string memEntry;
  maxEntries : Z;
  atCap : bool;
  closed : bool;
}.

Definition newMemoryCacheWithCap (cap : Z) : MemoryCache :=
  mkMemoryCache ∅ cap false false.

Definition NewMemoryCache : MemoryCache := newMemoryCacheWithCap memoryMaxEntries.

Definition with_data (d : gmap string memEntry) (m : MemoryCache) : MemoryCache :=
  mkMemoryCache d (maxEntries m) (atCap m) (closed m).

(** [!e.expiresAt.IsZero() && time.Now().After(e.expiresAt)] *)
Definition expired (now : Z) (e : memEntry) : bool :=
  match expiresAt e with
  | None => false
  | Some t => t <? now
  end.

(** [e.expiresAt.IsZero() || time.Now().Before(e.expiresAt)] *)
Definition fresh (now : Z) (e : memEntry) : bool :=
  match expiresAt e with
  | None => true
  | Some t => now <? t
  end.

(** The expiry a write stamps: only a positive TTL sets one. *)
Definition ttl_expiry (now ttl : Z) : option Z :=
  if 0 <? ttl then Some (now + ttl) else None.

(** [admit] in the source: may a key be stored?  The second component carries the latch. *)
Definition may_admit (key : string) (m : MemoryCache) : bool * MemoryCache :=
  if (maxEntries m <=? 0) || (Z.of_nat (size (data m)) <? maxEntries m)
  then (true, m)
  else match data m !! key with
       | Some _ => (true, m)
       | None => (false, mkMemoryCache (data m) (maxEntries m) true (closed m))
       end.

Definition MGet (now : Z) (key : string) (m : MemoryCache)
  : res cacheErr string * MemoryCache :=
  match data m !! key with
  | None => (Err ErrNotFound, m)
  | Some e => if expired now e then (Err ErrNotFound, m) else (Ok (value e), m)
  end.

Definition MSet (now : Z) (key v : string) (ttl : Z) (m : MemoryCache)
  : res cacheErr unit * MemoryCache :=
  let exp := ttl_expiry now ttl in
  match may_admit key m with
  | (false, m') => (Err ErrCacheFull, m')
  | (true, m') => (Ok tt, with_data (<[key := mkMemEntry v exp]> (data m')) m')
  end.

Definition MDelete (now : Z) (key : string) (m : MemoryCache)
  : res cacheErr unit * MemoryCache :=
  (Ok tt, with_data (delete key (data m)) m).

Definition MGetAndDelete (now : Z) (key : string) (m : MemoryCache)
  : res cacheErr string * MemoryCache :=
  match data m !! key with
  | None => (Err ErrNotFound, m)
  | Some e =>
      if expired now e then (Err ErrNotFound, m)
      else (Ok (value e), with_data (delete key (data m)) m)
  end.

Definition MSetIfNotExists (now : Z) (key v : string) (ttl : Z) (m : MemoryCache)
  : res cacheErr bool * MemoryCache :=
  let exists_fresh :=
    match data m !! key with Some e => fresh now e | None => false end in
  if exists_fresh then (Ok false, m)
  else match may_admit key m with
       | (false, m') => (Err ErrCacheFull, m')
       | (true, m') =>
           (Ok true,
            with_data (<[key := mkMemEntry v (ttl_expiry now ttl)]> (data m')) m')
       end.

(** The counter is stored as a decimal string; a value that does not parse
    counts as what [strconv.ParseInt] returns beside its error. *)
Definition MIncrement (now : Z) (key : string) (ttl : Z) (m : MemoryCache)
  : res cacheErr Z * MemoryCache :=
  let '(count, exp) :=
    match data m !! key with
    | Some e => if fresh now e then ((ParseInt (value e)).1, expiresAt e)
                else (0, ttl_expiry now ttl)
    | None => (0, ttl_expiry now ttl)
    end in
  match may_admit key m with
  | (false, m') => (Err ErrCacheFull, m')
  | (true, m') =>
      let count' := wrap64 (count + 1) in
      (Ok count',
       with_data (<[key := mkMemEntry (FormatInt count') exp]> (data m')) m')
  end.

Definition MExists (now : Z) (key : string) (m : MemoryCache)
  : res cacheErr bool * MemoryCache :=
  match data m !! key with
  | None => (Ok false, m)
  | Some e => (Ok (negb (expired now e)), m)
  end.

Definition Close (m : MemoryCache) : MemoryCache :=
  mkMemoryCache (data m) (maxEntries m) (atCap m) true.

(** One tick of the [cleanup] goroutine: it returns once the cache is closed,
    and otherwise deletes every expired entry. *)
Definition cleanup (now : Z) (m : MemoryCache) : MemoryCache :=
  if closed m then m
  else with_data (filter (λ kv, expired now kv.2 = false) (data m)) m.
Arguments cleanup : simpl never.

(** Interaction with the cache as one step per operation, with its instant. *)
Inductive op :=
| OGet (key : string)
| OSet (key v : string) (ttl : Z)
| ODelete (key : string)
| OGetAndDelete (key : string)
| OSetIfNotExists (key v : string) (ttl : Z)
| OIncrement (key : string) (ttl : Z)
| OExists (key : string)
| OCleanup
| OClose.

Inductive answer :=
| AString (r : res cacheErr string)
| AUnit (r : res cacheErr unit)
| ABool (r : res cacheErr bool)
| ACount (r : res cacheErr Z)
| ANone.

Definition exec (now : Z) (o : op) (m : MemoryCache) : answer * MemoryCache :=
  match o with
  | OGet k => let '(r, m') := MGet now k m in (AString r, m')
  | OSet k v t => let '(r, m') := MSet now k v t m in (AUnit r, m')
  | ODelete k => let '(r, m') := MDelete now k m in (AUnit r, m')
  | OGetAndDelete k => let '(r, m') := MGetAndDelete now k m in (AString r, m')
  | OSetIfNotExists k v t => let '(r, m') := MSetIfNotExists now k v t m in (ABool r, m')
  | OIncrement k t => let '(r, m') := MIncrement now k t m in (ACount r, m')
  | OExists k => let '(r, m') := MExists now k m in (ABool r, m')
  | OCleanup => (ANone, cleanup now m)
  | OClose => (ANone, Close m)
  end.

(** A run: operations with the instants they execute at. *)
Fixpoint run (tr : list (Z * op)) (m : MemoryCache) : list answer * MemoryCache :=
  match tr with
  | [] => ([], m)
  | (now, o) :: tr' =>
      let '(a, m1) := exec now o m in
      let '(as_, m2) := run tr' m1 in (a :: as_, m2)
  end.

(** Which key an operation addresses. *)
Definition op_key (o : op) : option string :=
  match o with
  | OGet k | OSet k _ _ | ODelete k | OGetAndDelete k
  | OSetIfNotExists k _ _ | OIncrement k _ | OExists k => Some k
  | OCleanup | OClose => None
  end.

(** Operations that may create or replace an entry. *)
Definition op_writes (k : string) (o : op) : bool :=
  match o with
  | OSet k' _ _ | OSetIfNotExists k' _ _ | OIncrement k' _ => bool_decide (k = k')
  | _ => false
  end.

End Memory.

#[export] Instance memory_cache : CacheOps Memory.MemoryCache := {
  Get := Memory.MGet;
  Set_ := Memory.MSet;
  Delete := Memory.MDelete;
  GetAndDelete := Memory.MGetAndDelete;
  SetIfNotExists := Memory.MSetIfNotExists;
  Increment := Memory.MIncrement;
  Exists_ := Memory.MExists;
}.
