(* ===== verification/CacheFacts.v ===== *)
(** * CacheFacts: correctness of the in-memory cache

    The entry cap is never exceeded, counters count exactly inside their fixed
    window, one-time tokens are consumed once, [SetIfNotExists] has one winner
    per window, and the backend refines a map with expiry whose sweep and cap
    are invisible but for refused new keys. *)
From S2P Require Import Prelude GoStd Cache.
From Stdlib Require Import Ascii.
Import Memory.
Open Scope string_scope.
Open Scope Z_scope.

(** ** The abstract contract: a map with expiry, no cap and no sweep *)
Module Spec.

Definition TTLMap : Type := string → option memEntry.

Definition put (k : string) (e : option memEntry) (s : TTLMap) : TTLMap :=
  λ k', if decide (k = k') then e else s k'.

(** The entry a reader sees at [now]. *)
Definition live (now : Z) (o : option memEntry) : option memEntry :=
  match o with
  | Some e => if expired now e then None else Some e
  | None => None
  end.

(** The entry a conditional writer sees at [now]. *)
Definition live_for_write (now : Z) (o : option memEntry) : option memEntry :=
  match o with
  | Some e => if fresh now e then Some e else None
  | None => None
  end.

Definition read (now : Z) (k : string) (s : TTLMap) : res cacheErr string :=
  match live now (s k) with Some e => Ok (value e) | None => Err ErrNotFound end.

Definition spec_exec (now : Z) (o : op) (s : TTLMap) : answer * TTLMap :=
  match o with
  | OGet k => (AString (read now k s), s)
  | OSet k v t => (AUnit (Ok tt), put k (Some (mkMemEntry v (ttl_expiry now t))) s)
  | ODelete k => (AUnit (Ok tt), put k None s)
  | OGetAndDelete k =>
      (AString (read now k s),
       match live now (s k) with Some _ => put k None s | None => s end)
  | OSetIfNotExists k v t =>
      match live_for_write now (s k) with
      | Some _ => (ABool (Ok false), s)
      | None => (ABool (Ok true), put k (Some (mkMemEntry v (ttl_expiry now t))) s)
      end
  | OIncrement k t =>
      let '(count, exp) :=
        match live_for_write now (s k) with
        | Some e => ((ParseInt (value e)).1, expiresAt e)
        | None => (0, ttl_expiry now t)
        end in
      let count' := wrap64 (count + 1) in
      (ACount (Ok count'), put k (Some (mkMemEntry (FormatInt count') exp)) s)
  | OExists k => (ABool (Ok (bool_decide (is_Some (live now (s k))))), s)
  | OCleanup | OClose => (ANone, s)
  end.

(** What a refused write answers. *)
Definition refusal (o : op) : option answer :=
  match o with
  | OSet _ _ _ => Some (AUnit (Err ErrCacheFull))
  | OSetIfNotExists _ _ _ => Some (ABool (Err ErrCacheFull))
  | OIncrement _ _ => Some (ACount (Err ErrCacheFull))
  | _ => None
  end.

(** The backend and the contract agree on every entry not yet expired. *)
Definition R (now : Z) (m : MemoryCache) (s : TTLMap) : Prop :=
  ∀ k, live now (data m !! k) = live now (s k).

End Spec.
Import Spec.

(** The answers a run gave to the operations selected by [sel]. *)
Fixpoint select (sel : op → bool) (tr : list (Z * op)) (ans : list answer) : list answer :=
  match tr, ans with
  | (_, o) :: tr', a :: ans' => if sel o then a :: select sel tr' ans' else select sel tr' ans'
  | _, _ => []
  end.

Definition is_increment (k : string) (o : op) : bool :=
  match o with OIncrement k' _ => bool_decide (k = k') | _ => false end.
Definition is_get_and_delete (k : string) (o : op) : bool :=
  match o with OGetAndDelete k' => bool_decide (k = k') | _ => false end.
Definition is_setnx (k : string) (o : op) : bool :=
  match o with OSetIfNotExists k' _ _ => bool_decide (k = k') | _ => false end.
Definition is_read (k : string) (o : op) : bool :=
  match o with OGet k' | OExists k' => bool_decide (k = k') | _ => false end.

(** An operation that does not address [k]; the sweep and [Close] address none. *)
Definition off_key (k : string) (o : op) : bool :=
  match op_key o with Some k' => negb (bool_decide (k = k')) | None => true end.

(** ** Lemmas on the operations *)
Lemma admit_data key m ok m' : may_admit key m = (ok, m') → data m' = data m.
Proof. unfold may_admit. intros. by split_matches. Qed.

Lemma admit_maxEntries key m ok m' : may_admit key m = (ok, m') → maxEntries m' = maxEntries m.
Proof. unfold may_admit. intros. by split_matches. Qed.

Lemma admit_existing key m e : data m !! key = Some e → may_admit key m = (true, m).
Proof. unfold may_admit. intros ->. by case_match. Qed.

Lemma admit_refused key m m' : may_admit key m = (false, m') → data m !! key = None.
Proof. unfold may_admit. intros. by split_matches. Qed.

Lemma fresh_not_expired now e : fresh now e = true → expired now e = false.
Proof. unfold fresh, expired. case_match; [|done]. rewrite Z.ltb_lt, Z.ltb_ge. lia. Qed.

Lemma expired_mono now now' e : now ≤ now' → expired now e = true → expired now' e = true.
Proof. unfold expired. case_match; [|done]. rewrite !Z.ltb_lt. lia. Qed.

Lemma cleanup_lookup now m k :
  data (cleanup now m) !! k
  = if closed m then data m !! k else live now (data m !! k).
Proof.
  unfold cleanup. destruct (closed m); [done|]. cbn.
  destruct (data m !! k) as [e|] eqn:E; cbn.
  - destruct (expired now e) eqn:Ee.
    + apply map_lookup_filter_None_2. right. intros x Hx ?. simplify_eq/=. congruence.
    + by apply map_lookup_filter_Some_2.
  - apply map_lookup_filter_None_2. by left.
Qed.

(** An operation on another key leaves an unexpired entry alone. *)
Lemma exec_frame now o m k a m' :
  off_key k o = true → exec now o m = (a, m') →
  data m' !! k = data m !! k ∨
  (o = OCleanup ∧ data m' !! k = live now (data m !! k)).
Proof.
  unfold off_key, op_key.
  destruct o; cbn; intros Hk He;
    repeat match goal with
    | H : negb (bool_decide (_ = _)) = true |- _ =>
        apply negb_true_iff, bool_decide_eq_false in H
    end;
    unfold MGet, MSet, MDelete, MGetAndDelete, MSetIfNotExists, MIncrement, MExists in He;
    inv_matches;
    repeat match goal with H : may_admit _ _ = _ |- _ => apply admit_data in H; rewrite ?H end;
    rewrite ?lookup_insert_ne, ?lookup_delete_ne by done; auto.
  rewrite cleanup_lookup. destruct (closed m); auto.
Qed.

Lemma exec_frame_unexpired now o m k a m' e :
  off_key k o = true → exec now o m = (a, m') →
  data m !! k = Some e → expired now e = false → data m' !! k = Some e.
Proof.
  intros Hk He Hd Hx. destruct (exec_frame _ _ _ _ _ _ Hk He) as [->|[_ ->]]; [done|].
  rewrite Hd. cbn. by rewrite Hx.
Qed.

Lemma exec_read now o m k a m' :
  is_read k o = true → exec now o m = (a, m') → m' = m.
Proof.
  destruct o; cbn; intros; try done; unfold MGet, MExists in *;
    inv_matches; done.
Qed.

Lemma run_cons now o tr m :
  run ((now, o) :: tr) m =
  (let '(a, m1) := exec now o m in let '(as_, m2) := run tr m1 in (a :: as_, m2)).
Proof. done. Qed.

(** ** The entry cap *)
Definition within_cap (m : MemoryCache) : Prop :=
  0 < maxEntries m → Z.of_nat (size (data m)) ≤ maxEntries m.

Lemma insert_within_cap key e m m' :
  within_cap m → may_admit key m = (true, m') →
  within_cap (with_data (<[key := e]> (data m')) m').
Proof.
  unfold within_cap, may_admit. intros Hw Ha. cbn. intros Hpos.
  assert (Hs : size (<[key:=e]> (data m))
               = (size (data m) + (match data m !! key with Some _ => 0 | None => 1 end))%nat).
  { rewrite map_size_insert. destruct (data m !! key); cbn; unfold id; lia. }
  destruct ((maxEntries m <=? 0) || (Z.of_nat (size (data m)) <? maxEntries m)) eqn:E;
    [|destruct (data m !! key) eqn:E2]; simplify_eq.
  - rewrite Hs. apply orb_true_iff in E as [E|E]; bool_hyps; [lia|].
    destruct (data m' !! key); lia.
  - rewrite Hs. specialize (Hw Hpos). lia.
Qed.

Lemma size_filter_le (P : string * memEntry → Prop) `{∀ x, Decision (P x)} (m : gmap string memEntry) :
  (size (filter P m) ≤ size m)%nat.
Proof.
  rewrite <- !size_dom. apply subseteq_size.
  intros k. rewrite !elem_of_dom. intros [e [? ?]%map_lookup_filter_Some]. eauto.
Qed.

Lemma size_delete_le (k : string) (m : gmap string memEntry) : (size (delete k m) ≤ size m)%nat.
Proof. rewrite map_size_delete. case_match; cbn; unfold id; lia. Qed.

Lemma exec_within_cap now o m a m' :
  within_cap m → exec now o m = (a, m') → within_cap m' ∧ maxEntries m' = maxEntries m.
Proof.
  intros Hw He.
  assert (Hdel : ∀ k, within_cap (with_data (delete k (data m)) m)).
  { intros k Hp. cbn in *. pose proof (size_delete_le k (data m)). specialize (Hw Hp). lia. }
  assert (Hfull : ∀ k m', may_admit k m = (false, m') → within_cap m' ∧ maxEntries m' = maxEntries m).
  { intros k m1 Ha. pose proof (admit_data _ _ _ _ Ha) as Hd. pose proof (admit_maxEntries _ _ _ _ Ha) as Hm.
    split; [|done]. unfold within_cap in *. by rewrite Hd, Hm. }
  assert (Hins : ∀ k e m', may_admit k m = (true, m') →
    within_cap (with_data (<[k:=e]> (data m')) m') ∧
    maxEntries (with_data (<[k:=e]> (data m')) m') = maxEntries m).
  { intros k e m1 Ha. split; [by eapply insert_within_cap|]. cbn. by eapply admit_maxEntries. }
  destruct o; cbn in He;
    unfold MGet, MSet, MDelete, MGetAndDelete, MSetIfNotExists, MIncrement, MExists in He;
    inv_matches; eauto.
  unfold cleanup. case_match; [done|]. split; [|done]. intros Hp. cbn in *.
  specialize (Hw Hp). pose proof (size_filter_le (λ kv, expired now kv.2 = false) (data m)). lia.
Qed.

Lemma run_within_cap tr m ans m' :
  within_cap m → run tr m = (ans, m') → within_cap m' ∧ maxEntries m' = maxEntries m.
Proof.
  revert m ans. induction tr as [|[now o] tr IH]; intros m ans Hw Hr; [by simplify_eq/=|].
  rewrite run_cons in Hr. destruct (exec now o m) as [a m1] eqn:E.
  destruct (run tr m1) as [as_ m2] eqn:E2. simplify_eq.
  destruct (exec_within_cap _ _ _ _ _ Hw E) as [Hw1 Hm]. rewrite <- Hm. by eapply IH.
Qed.

(** ** Counters *)
(** The increments answered in a window count up by one from [n], and the
    entry keeps the expiry stamped by the first one. *)
Lemma increments_count tr k e n m ans m' :
  run tr m = (ans, m') →
  Forall (λ p, p.1 < e ∧
    (off_key k p.2 || is_read k p.2 || is_increment k p.2 = true)) tr →
  data m !! k = Some (mkMemEntry (FormatInt n) (Some e)) →
  0 ≤ n → n + Z.of_nat (length tr) ≤ int64_max →
  ∃ j, select (is_increment k) tr ans
       = (λ i, ACount (Ok (n + 1 + i))) <$> seqZ 0 (Z.of_nat j)
     ∧ (j = length (filter (λ p, is_increment k p.2 = true) tr))%nat
     ∧ data m' !! k = Some (mkMemEntry (FormatInt (n + Z.of_nat j)) (Some e)).
Proof.
  revert n m ans. induction tr as [|[now o] tr IH]; intros n m ans Hr HF Hd Hn Hmax.
  { simplify_eq/=. exists 0%nat. rewrite Z.add_0_r. done. }
  apply Forall_cons_1 in HF as [[Hlt Hop] HF]. cbn [fst snd] in *.
  rewrite run_cons in Hr. destruct (exec now o m) as [a m1] eqn:E.
  destruct (run tr m1) as [as_ m2] eqn:E2. simplify_eq. cbn [select].
  rewrite filter_cons. cbn [snd]. cbn [length] in Hmax.
  assert (Hx : expired now (mkMemEntry (FormatInt n) (Some e)) = false).
  { unfold expired. cbn. apply Z.ltb_ge. lia. }
  destruct (is_increment k o) eqn:Ei.
  - destruct o as [| | | | |k' t| | |]; cbn in Ei; try done.
    apply bool_decide_eq_true in Ei as <-. cbn in E. unfold MIncrement in E.
    rewrite Hd in E. unfold fresh in E. cbn in E.
    destruct (Z.ltb_spec now e); [|lia].
    rewrite (ParseInt_FormatInt n) in E by lia. cbn in E.
    rewrite (admit_existing _ _ _ Hd) in E. cbn in E.
    rewrite wrap64_id in E by (unfold in_int64, int64_min, int64_max in *; lia).
    simplify_eq.
    destruct (IH (n + 1) _ _ E2 HF) as (j & Hsel & Hj & Hd');
      [cbn; apply lookup_insert_eq | lia | lia |].
    exists (S j). rewrite decide_True by done. split_and!.
    + rewrite Hsel, Nat2Z.inj_succ, (seqZ_cons 0 (Z.succ (Z.of_nat j))) by lia.
      cbn [fmap list_fmap]. f_equal.
      * do 2 f_equal. lia.
      * replace (Z.pred (Z.succ (Z.of_nat j))) with (Z.of_nat j) by lia.
        rewrite <- (fmap_add_seqZ 1 0), <- list_fmap_compose.
        apply list_fmap_ext. intros i x _. cbn. do 2 f_equal. lia.
    + cbn. by rewrite Hj.
    + rewrite Hd'. do 3 f_equal. lia.
  - rewrite decide_False by congruence.
    apply (IH n m1); [done|done| |done|lia].
    destruct (off_key k o) eqn:Eo.
    + by eapply exec_frame_unexpired.
    + assert (is_read k o = true) as Hread by (rewrite orb_false_r in Hop; done).
      by rewrite (exec_read _ _ _ _ _ _ Hread E).
Qed.

(** ** One-time values *)
(** After an entry is gone, only a write brings it back. *)
Lemma exec_absent now o m k a m' :
  op_writes k o = false → exec now o m = (a, m') → data m !! k = None →
  data m' !! k = None ∧ (is_get_and_delete k o = true → a = AString (Err ErrNotFound)).
Proof.
  intros Hw He Hd. destruct (off_key k o) eqn:Ek.
  - split.
    + destruct (exec_frame _ _ _ _ _ _ Ek He) as [->|[_ ->]]; [done|]. by rewrite Hd.
    + destruct o; cbn in *; try done. intros ?. bool_hyps. by simplify_eq.
  - unfold off_key in Ek. destruct o; cbn in *; bool_hyps; simplify_eq; try done;
      unfold MGet, MDelete, MGetAndDelete, MExists in *; rewrite ?Hd in *; simplify_eq/=; try done.
    rewrite lookup_delete_eq. done.
Qed.

Lemma run_absent tr m k ans m' :
  Forall (λ p, op_writes k p.2 = false) tr → run tr m = (ans, m') → data m !! k = None →
  Forall (λ a, a = AString (Err ErrNotFound)) (select (is_get_and_delete k) tr ans).
Proof.
  revert m ans. induction tr as [|[now o] tr IH]; intros m ans HF Hr Hd.
  { simplify_eq/=. constructor. }
  apply Forall_cons_1 in HF as [Hw HF]. rewrite run_cons in Hr.
  destruct (exec now o m) as [a m1] eqn:E. destruct (run tr m1) as [as_ m2] eqn:E2.
  simplify_eq. cbn. destruct (exec_absent _ _ _ _ _ _ Hw E Hd) as [Hd1 Ha].
  destruct (is_get_and_delete k o) eqn:Eg; [constructor; [by apply Ha|]|]; by eapply IH.
Qed.

(** ** Reservations *)
Lemma setnx_held tr k e m ans m' :
  run tr m = (ans, m') →
  (∃ ent, data m !! k = Some ent ∧ expiresAt ent = Some e) →
  Forall (λ p, p.1 < e ∧ (off_key k p.2 || is_read k p.2 || is_setnx k p.2 = true)) tr →
  Forall (λ a, a = ABool (Ok false)) (select (is_setnx k) tr ans).
Proof.
  revert m ans. induction tr as [|[now o] tr IH]; intros m ans Hr [ent [Hd Hx]] HF.
  { simplify_eq/=. constructor. }
  apply Forall_cons_1 in HF as [[Hlt Hop] HF]. cbn [fst snd] in *. rewrite run_cons in Hr.
  destruct (exec now o m) as [a m1] eqn:E. destruct (run tr m1) as [as_ m2] eqn:E2.
  simplify_eq. cbn [select].
  assert (Hfr : fresh now ent = true) by (unfold fresh; rewrite Hx; by apply Z.ltb_lt).
  assert (Hm1 : data m1 !! k = Some ent ∧ (is_setnx k o = true → a = ABool (Ok false))).
  { destruct (off_key k o) eqn:Eo.
    - split; [eapply exec_frame_unexpired; eauto using fresh_not_expired|].
      destruct o; cbn in *; try done. intros. unfold off_key in Eo. cbn in Eo.
      bool_hyps. by simplify_eq.
    - destruct (is_read k o) eqn:Er; cbn in Hop.
      + rewrite (exec_read _ _ _ _ _ _ Er E). split; [done|]. by destruct o.
      + destruct o; cbn in Hop; try done. apply bool_decide_eq_true in Hop as <-.
        cbn in E. unfold MSetIfNotExists in E. rewrite Hd, Hfr in E. by simplify_eq. }
  destruct Hm1 as [Hd1 Ha].
  destruct (is_setnx k o) eqn:Es; [constructor; [by apply Ha|]|]; eapply IH; eauto.
Qed.

(** ** Refinement of the contract *)
Lemma live_live now now' o : now ≤ now' → live now' (live now o) = live now' o.
Proof.
  intros Hle. destruct o as [e|]; cbn; [|done].
  destruct (expired now e) eqn:E; [|done]. cbn. by rewrite (expired_mono _ _ _ Hle E).
Qed.

Lemma live_write_live now o : live_for_write now (live now o) = live_for_write now o.
Proof.
  destruct o as [e|]; cbn; [|done].
  destruct (expired now e) eqn:E; [|done]. cbn.
  destruct (fresh now e) eqn:F; [|done]. apply fresh_not_expired in F. congruence.
Qed.

Lemma R_mono now now' m s : now ≤ now' → R now m s → R now' m s.
Proof.
  intros Hle HR k. rewrite <- (live_live now now' (data m !! k)), <- (live_live now now' (s k)) by done.
  by rewrite (HR k).
Qed.

Lemma R_live_write now m s k :
  R now m s → live_for_write now (data m !! k) = live_for_write now (s k).
Proof.
  intros HR. rewrite <- live_write_live, <- (live_write_live now (s k)). by rewrite (HR k).
Qed.

Lemma R_put now m s k e :
  R now m s → R now (with_data (<[k := e]> (data m)) m) (put k (Some e) s).
Proof.
  intros HR k'. unfold put. cbn. rewrite lookup_insert.
  destruct (decide (k = k')); [done|apply HR].
Qed.

Lemma R_remove now m s k :
  R now m s → R now (with_data (delete k (data m)) m) (put k None s).
Proof.
  intros HR k'. unfold put. cbn. rewrite lookup_delete.
  destruct (decide (k = k')); [done|apply HR].
Qed.

Lemma R_data now m m' s : data m' = data m → R now m s → R now m' s.
Proof. unfold R. by intros ->. Qed.

Lemma R_with_data now m m' d s : R now (with_data d m) s → R now (with_data d m') s.
Proof. done. Qed.

Lemma R_cleanup now m s : R now m s → R now (cleanup now m) s.
Proof.
  intros HR k. rewrite cleanup_lookup. destruct (closed m); [apply HR|].
  rewrite <- (HR k). unfold live. by inv_matches.
Qed.

#[export] Hint Resolve R_put R_remove R_cleanup : vault.

Lemma R_read now k m s :
  R now m s → (MGet now k m).1 = read now k s.
Proof.
  intros HR. unfold MGet, read. rewrite <- (HR k). unfold live.
  by destruct (data m !! k); [case_match|].
Qed.

(** A key refused at the cap holds nothing a reader could see. *)
Lemma admit_refused_not_live now k m m' s :
  R now m s → may_admit k m = (false, m') → live now (s k) = None.
Proof. intros HR Ha. rewrite <- (HR k), (admit_refused _ _ _ Ha). done. Qed.

(** One operation: the backend either answers as the contract does or refuses
    a new key at the cap, leaving the contract's state as it was. *)
Definition refines_step (now : Z) (o : op) (s : TTLMap) (a : answer) (m' : MemoryCache) : Prop :=
  (∃ s', spec_exec now o s = (a, s') ∧ R now m' s') ∨
  (refusal o = Some a ∧ R now m' s ∧
   ∃ k, op_key o = Some k ∧ live now (s k) = None).

Lemma refuse_case now o k m m1 s a :
  R now m s → may_admit k m = (false, m1) → refusal o = Some a → op_key o = Some k →
  refines_step now o s a m1.
Proof.
  intros HR Ha Ho Hk. right. split_and!; [done| |].
  - eapply R_data; [|done]. by eapply admit_data.
  - exists k. split; [done|]. by eapply admit_refused_not_live.
Qed.

Lemma R_admitted_put now m m1 s k e :
  R now m s → may_admit k m = (true, m1) →
  R now (with_data (<[k:=e]> (data m1)) m1) (put k (Some e) s).
Proof.
  intros HR Ha. apply R_put. eapply R_data; [by eapply admit_data|done].
Qed.

Lemma spec_setnx now k v t s :
  spec_exec now (OSetIfNotExists k v t) s =
  match live_for_write now (s k) with
  | Some _ => (ABool (Ok false), s)
  | None => (ABool (Ok true), put k (Some (mkMemEntry v (ttl_expiry now t))) s)
  end.
Proof. done. Qed.

Lemma exec_refines now o m s a m' :
  R now m s → exec now o m = (a, m') → refines_step now o s a m'.
Proof.
  intros HR He. destruct o as [k|k v t|k|k|k v t|k t|k| |]; cbn in He.
  - left. exists s. pose proof (R_read now k m s HR) as Hg. destruct (MGet now k m) as [r m1] eqn:Eg.
    simplify_eq/=. split; [done|]. unfold MGet in Eg. by split_matches.
  - unfold MSet in He. destruct (may_admit k m) as [[] m1] eqn:Ea; simplify_eq.
    + left. eexists. split; [done|]. by eapply R_admitted_put.
    + by eapply refuse_case.
  - left. simplify_eq. eexists. split; [done|]. by apply R_remove.
  - left. cbn. unfold read. pose proof (HR k) as Hk. unfold MGetAndDelete in He. rewrite <- Hk.
    destruct (data m !! k) as [e|]; cbn in *; [|simplify_eq; by eexists].
    destruct (expired now e); simplify_eq; eexists; (split; [done|]); auto with vault.
  - unfold MSetIfNotExists in He. pose proof (R_live_write now m s k HR) as Hw.
    destruct (live_for_write now (data m !! k)) as [e|] eqn:El.
    + left. exists s. rewrite spec_setnx, <- Hw.
      unfold live_for_write in El. destruct (data m !! k) as [e0|]; [|done].
      destruct (fresh now e0); [|done]. by simplify_eq.
    + assert (match data m !! k with Some e => fresh now e | None => false end = false) as Hf.
      { unfold live_for_write in El. destruct (data m !! k); [|done]. by case_match. }
      rewrite Hf in He. destruct (may_admit k m) as [[] m1] eqn:Ea; simplify_eq.
      * left. eexists. rewrite spec_setnx, <- Hw. split; [done|]. by eapply R_admitted_put.
      * by eapply refuse_case.
  - unfold MIncrement in He. pose proof (R_live_write now m s k HR) as Hw.
    assert (Hpair : match data m !! k with
      | Some e => if fresh now e then ((ParseInt (value e)).1, expiresAt e) else (0, ttl_expiry now t)
      | None => (0, ttl_expiry now t) end
      = match live_for_write now (s k) with
        | Some e => ((ParseInt (value e)).1, expiresAt e) | None => (0, ttl_expiry now t) end).
    { rewrite <- Hw. unfold live_for_write.
      destruct (data m !! k) as [e0|]; [by destruct (fresh now e0)|done]. }
    rewrite Hpair in He. destruct (match live_for_write now (s k) with
        | Some e => ((ParseInt (value e)).1, expiresAt e) | None => (0, ttl_expiry now t) end)
      as [count exp] eqn:Ec.
    destruct (may_admit k m) as [[] m1] eqn:Ea; simplify_eq.
    + left. eexists. cbn. rewrite Ec. split; [done|]. by eapply R_admitted_put.
    + by eapply refuse_case.
  - left. exists s. cbn. pose proof (HR k) as Hk. rewrite <- Hk.
    unfold MExists in He. destruct (data m !! k) as [e|]; cbn in *; [|by simplify_eq].
    destruct (expired now e); by simplify_eq.
  - left. exists s. simplify_eq. split; [done|]. by apply R_cleanup.
  - left. exists s. by simplify_eq.
Qed.

(** ** Runs of the contract *)
(** Instants do not go back along a trace. *)
Fixpoint monotone (now : Z) (tr : list (Z * op)) : Prop :=
  match tr with
  | [] => True
  | (t, _) :: tr' => now ≤ t ∧ monotone t tr'
  end.

Inductive spec_run : list (Z * op) → TTLMap → list answer → TTLMap → Prop :=
| sr_nil s : spec_run [] s [] s
| sr_answer now o tr s a s1 ans s2 :
    spec_exec now o s = (a, s1) → spec_run tr s1 ans s2 →
    spec_run ((now, o) :: tr) s (a :: ans) s2
| sr_refuse now o k tr s a ans s2 :
    refusal o = Some a → op_key o = Some k → live now (s k) = None →
    spec_run tr s ans s2 → spec_run ((now, o) :: tr) s (a :: ans) s2.

Lemma run_refines now tr m s ans m' :
  monotone now tr → R now m s → run tr m = (ans, m') →
  ∃ s' t, now ≤ t ∧ spec_run tr s ans s' ∧ R t m' s'.
Proof.
  revert now m s ans. induction tr as [|[t o] tr IH]; intros now m s ans Hm HR Hr.
  { simplify_eq/=. exists s, now. eauto using spec_run with lia. }
  destruct Hm as [Hle Hm]. rewrite run_cons in Hr.
  destruct (exec t o m) as [a m1] eqn:E. destruct (run tr m1) as [as_ m2] eqn:E2. simplify_eq.
  apply (R_mono _ t) in HR; [|done].
  destruct (exec_refines _ _ _ _ _ _ HR E) as [(s1 & Hs & HR1)|(Hf & HR1 & k & Hk & Hl)].
  - destruct (IH _ _ _ _ Hm HR1 E2) as (s' & t' & ? & ? & ?).
    exists s', t'. split_and!; [lia|by econstructor|done].
  - destruct (IH _ _ _ _ Hm HR1 E2) as (s' & t' & ? & ? & ?).
    exists s', t'. split_and!; [lia|by eapply sr_refuse|done].
Qed.

(** How many of the answers won the reservation, or handed a value out. *)
Definition won (a : answer) : bool :=
  match a with ABool (Ok true) => true | _ => false end.
Definition handed_out (a : answer) : bool :=
  match a with AString (Ok _) => true | _ => false end.

Lemma no_winners (p : answer → bool) (x : answer) l :
  p x = false → Forall (λ a, a = x) l → length (filter (λ a, p a = true) l) = 0%nat.
Proof.
  intros Hp. induction 1 as [|a l -> _ IH]; [done|].
  rewrite filter_cons, decide_False by congruence. done.
Qed.

Lemma setnx_step now k v ttl m a m' :
  0 < ttl → exec now (OSetIfNotExists k v ttl) m = (a, m') →
  (won a = true ∧ data m' !! k = Some (mkMemEntry v (Some (now + ttl)))) ∨
  (won a = false ∧ data m' = data m).
Proof.
  intros Ht. cbn. unfold MSetIfNotExists, ttl_expiry. intros He.
  apply Z.ltb_lt in Ht. rewrite Ht in He.
  destruct (match data m !! k with Some e => fresh now e | None => false end);
    [simplify_eq; by right|].
  destruct (may_admit k m) as [[] m1] eqn:Ea; simplify_eq.
  - left. split; [done|]. cbn. by rewrite lookup_insert_eq.
  - right. split; [done|]. by eapply admit_data.
Qed.

(** ** Properties *)

(** The in-memory cache never holds more keys than its cap, whatever
    sequence of operations, sweeps and instants it goes through. *)
Theorem memory_cap_bounded tr cap ans m' :
  0 < cap → run tr (newMemoryCacheWithCap cap) = (ans, m') →
  Z.of_nat (size (data m')) ≤ cap.
Proof.
  intros Hc Hr. assert (H0 : within_cap (newMemoryCacheWithCap cap)).
  { intros _. cbn. rewrite map_size_empty. lia. }
  destruct (run_within_cap _ _ _ _ H0 Hr) as [Hw Hm].
  cbn in Hm. rewrite <- Hm. apply Hw. lia.
Qed.

Lemma memory_cap_bounded_witness :
  Z.of_nat (size (data (run [(0, OSet "a" "1" 0); (1, OIncrement "b" 5); (2, OSet "c" "x" 0)]
    (newMemoryCacheWithCap 2)).2)) ≤ 2.
Proof.
  apply (memory_cap_bounded [(0, OSet "a" "1" 0); (1, OIncrement "b" 5); (2, OSet "c" "x" 0)] 2
    (run [(0, OSet "a" "1" 0); (1, OIncrement "b" 5); (2, OSet "c" "x" 0)]
       (newMemoryCacheWithCap 2)).1); [lia|]. vm_compute. reflexivity.
Defined.

(** Fixed window: once a counter's first increment is admitted, the
    increments of its window answer 1, 2, 3, ... exactly, whatever happens to
    other keys in between (writes at the cap and sweeps included). *)
Theorem counter_fixed_window tr k ttl t0 m a ans m' :
  data m !! k = None → 0 < ttl →
  run ((t0, OIncrement k ttl) :: tr) m = (a :: ans, m') →
  a ≠ ACount (Err ErrCacheFull) →
  Forall (λ p, p.1 < t0 + ttl ∧
    (off_key k p.2 || is_read k p.2 || is_increment k p.2 = true)) tr →
  1 + Z.of_nat (length tr) ≤ int64_max →
  ∃ j, select (is_increment k) ((t0, OIncrement k ttl) :: tr) (a :: ans)
       = (λ i, ACount (Ok (1 + i))) <$> seqZ 0 (1 + Z.of_nat j)
     ∧ (j = length (filter (λ p, is_increment k p.2 = true) tr))%nat
     ∧ data m' !! k = Some (mkMemEntry (FormatInt (1 + Z.of_nat j)) (Some (t0 + ttl))).
Proof.
  intros Hd Ht Hr Ha HF Hmax. rewrite run_cons in Hr.
  destruct (exec t0 (OIncrement k ttl) m) as [a1 m1] eqn:E.
  destruct (run tr m1) as [as_ m2] eqn:E2. simplify_eq.
  cbn in E. unfold MIncrement, ttl_expiry in E. rewrite Hd in E.
  apply Z.ltb_lt in Ht. rewrite Ht in E.
  destruct (may_admit k m) as [[] m1'] eqn:Ead; simplify_eq.
  rewrite (admit_data _ _ _ _ Ead) in E2.
  destruct (increments_count tr k (t0 + ttl) 1 _ _ _ E2 HF) as (j & Hsel & Hj & Hd');
    [cbn; apply lookup_insert_eq | lia | lia |].
  exists j. split_and!; [|done|done].
  cbn [select is_increment]. rewrite bool_decide_true by done. rewrite Hsel.
  rewrite (seqZ_cons 0 (1 + Z.of_nat j)) by lia.
  cbn [fmap list_fmap]. f_equal.
  replace (Z.pred (1 + Z.of_nat j)) with (Z.of_nat j) by lia.
  rewrite <- (fmap_add_seqZ 1 0), <- list_fmap_compose.
  apply list_fmap_ext. intros i x _. cbn. do 2 f_equal. lia.
Qed.

Lemma counter_fixed_window_witness :
  let tr := [(3, OIncrement "k" 10); (4, OSet "z" "v" 0); (9, OIncrement "k" 10)] in
  let r := run ((0, OIncrement "k" 10) :: tr) (newMemoryCacheWithCap 5) in
  ∃ j, select (is_increment "k") ((0, OIncrement "k" 10) :: tr) r.1
       = (λ i, ACount (Ok (1 + i))) <$> seqZ 0 (1 + Z.of_nat j)
     ∧ (j = length (filter (λ p, is_increment "k" p.2 = true) tr))%nat
     ∧ data r.2 !! "k" = Some (mkMemEntry (FormatInt (1 + Z.of_nat j)) (Some (0 + 10))).
Proof.
  intros tr r.
  apply (counter_fixed_window tr "k" 10 0 (newMemoryCacheWithCap 5) (ACount (Ok 1)) (tail r.1)).
  - reflexivity.
  - lia.
  - vm_compute. reflexivity.
  - discriminate.
  - repeat constructor; vm_compute; reflexivity.
  - vm_compute. discriminate.
Defined.

(** One-time values: along any run that never writes a key again, at most
    one [GetAndDelete] of that key hands a value out; the rest answer
    [ErrNotFound]. *)
Theorem get_and_delete_once tr k m ans m' :
  Forall (λ p, op_writes k p.2 = false) tr → run tr m = (ans, m') →
  (length (filter (λ a, handed_out a = true) (select (is_get_and_delete k) tr ans)) ≤ 1)%nat.
Proof.
  revert m ans. induction tr as [|[now o] tr IH]; intros m ans HF Hr; [simplify_eq/=; lia|].
  apply Forall_cons_1 in HF as [Hw HF]. rewrite run_cons in Hr.
  destruct (exec now o m) as [a m1] eqn:E. destruct (run tr m1) as [as_ m2] eqn:E2.
  simplify_eq. cbn. destruct (is_get_and_delete k o) eqn:Eg; [|by eapply IH].
  rewrite filter_cons. destruct (decide (handed_out a = true)) as [Ha|]; [|by eapply IH].
  cbn. enough (length (filter (λ a, handed_out a = true) (select (is_get_and_delete k) tr as_)) = 0%nat)
    as -> by done.
  apply (no_winners _ (AString (Err ErrNotFound))); [done|].
  eapply run_absent; [done|done|].
  destruct o; cbn in Eg; try done. apply bool_decide_eq_true in Eg as <-.
  cbn in E. unfold MGetAndDelete in E. inv_matches. apply lookup_delete_eq.
Qed.

Lemma get_and_delete_once_witness :
  let tr := [(1, OGetAndDelete "t"); (2, OGetAndDelete "t"); (2, OSet "u" "w" 0)] in
  let m := (run [(0, OSet "t" "secret" 60)] (newMemoryCacheWithCap 5)).2 in
  (length (filter (λ a, handed_out a = true)
    (select (is_get_and_delete "t") tr (run tr m).1)) ≤ 1)%nat.
Proof.
  intros tr m. apply (get_and_delete_once tr "t" m (run tr m).1 (run tr m).2).
  - repeat constructor.
  - vm_compute. reflexivity.
Defined.

(** Reservations: among the [SetIfNotExists] calls on one key with one TTL
    whose instants lie within one TTL of the earliest, at most one is told it
    set the key (no deletion of the key intervening). *)
Theorem setnx_single_winner tr k ttl t0 m ans m' :
  0 < ttl → run tr m = (ans, m') →
  Forall (λ p, t0 ≤ p.1 < t0 + ttl ∧
    (off_key k p.2 || is_read k p.2 = true ∨ ∃ v, p.2 = OSetIfNotExists k v ttl)) tr →
  (length (filter (λ a, won a = true) (select (is_setnx k) tr ans)) ≤ 1)%nat.
Proof.
  intros Ht. revert m ans. induction tr as [|[now o] tr IH]; intros m ans Hr HF; [simplify_eq/=; lia|].
  apply Forall_cons_1 in HF as [[Hn Hop] HF]. cbn [fst snd] in *. rewrite run_cons in Hr.
  destruct (exec now o m) as [a m1] eqn:E. destruct (run tr m1) as [as_ m2] eqn:E2. simplify_eq.
  cbn [select]. destruct (is_setnx k o) eqn:Es; [|by eapply IH].
  destruct Hop as [Hop|[v ->]].
  { exfalso. destruct o; cbn in Es; try done. apply bool_decide_eq_true in Es as <-.
    unfold off_key in Hop. cbn in Hop. by rewrite bool_decide_true in Hop. }
  destruct (setnx_step _ _ _ _ _ _ _ Ht E) as [[Hw Hd]|[Hw Hd]]; rewrite filter_cons.
  - rewrite decide_True by done. cbn.
    enough (length (filter (λ a, won a = true) (select (is_setnx k) tr as_)) = 0%nat) as -> by done.
    apply (no_winners _ (ABool (Ok false))); [done|].
    eapply (setnx_held tr k (now + ttl)); [done|eauto|].
    eapply Forall_impl; [|exact HF].
    intros [t o'] [Hb [Ho|[v' Ho]]]; cbn [fst snd] in *; (split; [lia|]); [|subst o'].
    + by rewrite Ho.
    + unfold off_key. cbn. rewrite bool_decide_true by done. done.
  - rewrite decide_False by congruence. by eapply IH.
Qed.

Lemma setnx_single_winner_witness :
  let tr := [(5, OSetIfNotExists "j" "1" 10); (6, OSetIfNotExists "j" "2" 10); (9, OGet "j")] in
  (length (filter (λ a, won a = true)
    (select (is_setnx "j") tr (run tr (newMemoryCacheWithCap 3)).1)) ≤ 1)%nat.
Proof.
  intros tr.
  apply (setnx_single_winner tr "j" 10 5 (newMemoryCacheWithCap 3)
    (run tr (newMemoryCacheWithCap 3)).1 (run tr (newMemoryCacheWithCap 3)).2).
  - lia.
  - vm_compute. reflexivity.
  - repeat (apply Forall_cons_2;
      [split; [cbn; lia | first [left; reflexivity | right; eexists; reflexivity]]|]).
    apply Forall_nil_2.
Defined.



(** At the instant an entry expires, a reader still sees it while a conditional
    writer already replaces it: [Get] tests [After], [SetIfNotExists] tests
    [Before]. *)
Example expiry_instant :
  let m := (run [(0, OSet "k" "old" 10)] (newMemoryCacheWithCap 5)).2 in
  (exec 10 (OGet "k") m).1 = AString (Ok "old")
  ∧ (exec 10 (OSetIfNotExists "k" "new" 10) m).1 = ABool (Ok true).
Proof. vm_compute. done. Qed.
