(* ===== verification/Counter.v ===== *)
(** * Counter: what the guards rely on when they count in the cache

    The rate limiter and the account lockout keep their counters in whatever
    backend implements [cache.Cache].  [CounterCache] is the contract they are
    verified against: a TTL counter that starts at 1, is advanced by one, keeps
    the expiry of its first write, and reads back in decimal.  The in-memory
    backend discharges it ([memory_counter_cache]), refusals at its entry cap
    included. *)
From S2P Require Import Prelude GoStd Cache CacheFacts.
From Stdlib Require Import Ascii.
Open Scope string_scope.
Open Scope Z_scope.

(** What a key holds: nothing, a counter with an expiry, or something else. *)
Inductive slot_state :=
| SEmpty
| SCounter (n e : Z)
| SOther.

#[export] Instance slot_state_eq_dec : EqDecision slot_state.
Proof. solve_decision. Defined.

(** No live counter: an increment starts a new window. *)
Definition startable (now : Z) (s : slot_state) : Prop :=
  match s with SEmpty => True | SCounter _ e => e ≤ now | SOther => False end.

Class CounterCache (C : Type) `{CacheOps C} := {
  slot : C → string → slot_state;
  slot_get_counter c k n e now :
    slot c k = SCounter n e → now < e → Get now k c = (Ok (FormatInt n), c);
  slot_get_expired c k n e now :
    slot c k = SCounter n e → e < now → Get now k c = (Err ErrNotFound, c);
  slot_get_empty c k now :
    slot c k = SEmpty → Get now k c = (Err ErrNotFound, c);
  slot_incr_frame c k now ttl r c' k' :
    Increment now k ttl c = (r, c') → k' ≠ k → slot c' k' = slot c k';
  slot_incr_live c k n e now ttl :
    slot c k = SCounter n e → now < e → 0 ≤ n < int64_max →
    ∃ c', Increment now k ttl c = (Ok (n + 1), c') ∧ slot c' k = SCounter (n + 1) e;
  slot_incr_start c k now ttl :
    startable now (slot c k) → 0 < ttl →
    (∃ c', Increment now k ttl c = (Ok 1, c') ∧ slot c' k = SCounter 1 (now + ttl)) ∨
    (∃ c' e, Increment now k ttl c = (Err e, c') ∧ e ≠ ErrNotFound ∧ slot c' k = slot c k);
  slot_delete_frame c k now r c' k' :
    Delete now k c = (r, c') → k' ≠ k → slot c' k' = slot c k';
  slot_delete c k now :
    ∃ c', Delete now k c = (Ok tt, c') ∧ slot c' k = SEmpty;
  slot_get_frame c k now r c' k' :
    Get now k c = (r, c') → slot c' k' = slot c k';
}.

(** What other users of the cache may do to a key: leave it, or sweep it once
    it has expired; a key that holds no counter is not constrained. *)
Definition env_ok {C} `{CounterCache C} (k : string) (now : Z) (c c' : C) : Prop :=
  slot c' k = slot c k ∨
  (∃ n e, slot c k = SCounter n e ∧ e ≤ now ∧ slot c' k = SEmpty) ∨
  slot c k = SOther.

(** ** The in-memory backend honours the contract *)
Definition mem_slot (m : Memory.MemoryCache) (k : string) : slot_state :=
  match Memory.data m !! k with
  | None => SEmpty
  | Some e =>
      match Memory.expiresAt e, ParseInt (Memory.value e) with
      | Some t, (n, None) =>
          if (0 <=? n) && bool_decide (FormatInt n = Memory.value e)
          then SCounter n t else SOther
      | _, _ => SOther
      end
  end.

Lemma mem_slot_counter m k n e :
  mem_slot m k = SCounter n e →
  Memory.data m !! k = Some (Memory.mkMemEntry (FormatInt n) (Some e)) ∧ 0 ≤ n.
Proof.
  unfold mem_slot. destruct (Memory.data m !! k) as [[v x]|] eqn:E; [|done]. cbn.
  destruct x as [t|]; [|done]. destruct (ParseInt v) as [i [er|]]; [done|].
  destruct ((0 <=? i) && bool_decide (FormatInt i = v)) eqn:B; [|done].
  bool_hyps. intros. by simplify_eq.
Qed.

Lemma mem_slot_empty m k : mem_slot m k = SEmpty → Memory.data m !! k = None.
Proof. unfold mem_slot. intros. by inv_matches. Qed.

Lemma mem_slot_of m k n e :
  Memory.data m !! k = Some (Memory.mkMemEntry (FormatInt n) (Some e)) →
  0 ≤ n ≤ int64_max → mem_slot m k = SCounter n e.
Proof.
  intros Hd Hn. unfold mem_slot. rewrite Hd. cbn. rewrite ParseInt_FormatInt by done.
  rewrite bool_decide_true by done.
  destruct (Z.leb_spec 0 n); [done|lia].
Qed.

Lemma mem_slot_data m m' k :
  Memory.data m' !! k = Memory.data m !! k → mem_slot m' k = mem_slot m k.
Proof. unfold mem_slot. by intros ->. Qed.

Lemma mem_slot_insert_ne m m1 k k' e :
  Memory.data m1 = Memory.data m → k' ≠ k →
  mem_slot (Memory.with_data (<[k := e]> (Memory.data m1)) m1) k' = mem_slot m k'.
Proof. intros Hd Hk. apply mem_slot_data. cbn. by rewrite lookup_insert_ne, Hd. Qed.

(** A window starts from an absent or an expired entry. *)
Lemma mem_startable now m k :
  startable now (mem_slot m k) →
  match Memory.data m !! k with Some e => Memory.fresh now e = false | None => True end.
Proof.
  destruct (mem_slot m k) as [|n e|] eqn:E; cbn; [| |done]; intros Hs.
  - by rewrite (mem_slot_empty _ _ E).
  - apply mem_slot_counter in E as [-> _]. cbn. apply Z.ltb_ge. done.
Qed.

#[export] Program Instance memory_counter_cache : CounterCache Memory.MemoryCache := {
  slot := mem_slot
}.
Next Obligation.
  intros c k n e now Hs Hle. apply mem_slot_counter in Hs as [Hd _].
  cbn. unfold Memory.MGet. rewrite Hd. unfold Memory.expired. cbn.
  destruct (Z.ltb_spec e now); [lia|done].
Qed.
Next Obligation.
  intros c k n e now Hs Hlt. apply mem_slot_counter in Hs as [Hd _].
  cbn. unfold Memory.MGet. rewrite Hd. unfold Memory.expired. cbn.
  destruct (Z.ltb_spec e now); [done|lia].
Qed.
Next Obligation.
  intros c k now Hs. cbn. unfold Memory.MGet. by rewrite (mem_slot_empty _ _ Hs).
Qed.
Next Obligation.
  intros c k now ttl r c' k' He Hk. cbn in He. unfold Memory.MIncrement in He.
  destruct (match Memory.data c !! k with
    | Some e => if Memory.fresh now e then ((ParseInt (Memory.value e)).1, Memory.expiresAt e)
                else (0, Memory.ttl_expiry now ttl)
    | None => (0, Memory.ttl_expiry now ttl) end) as [n x].
  destruct (Memory.may_admit k c) as [[] m1] eqn:Ea; simplify_eq.
  - apply mem_slot_insert_ne; [by eapply admit_data|done].
  - apply mem_slot_data. by rewrite (admit_data _ _ _ _ Ea).
Qed.
Next Obligation.
  intros c k n e now ttl Hs Hlt Hn. apply mem_slot_counter in Hs as [Hd H0].
  cbn. unfold Memory.MIncrement. rewrite Hd. unfold Memory.fresh. cbn.
  destruct (Z.ltb_spec now e); [|lia]. rewrite ParseInt_FormatInt by lia. cbn.
  rewrite (admit_existing _ _ _ Hd).
  rewrite wrap64_id by (unfold in_int64, int64_min, int64_max in *; lia).
  eexists. split; [done|]. apply mem_slot_of; [cbn; apply lookup_insert_eq | lia].
Qed.
Next Obligation.
  intros c k now ttl Hs Ht. apply mem_startable in Hs.
  cbn. unfold Memory.MIncrement, Memory.ttl_expiry.
  destruct (Z.ltb_spec 0 ttl); [|lia].
  assert (Hp : match Memory.data c !! k with
    | Some e => if Memory.fresh now e then ((ParseInt (Memory.value e)).1, Memory.expiresAt e)
                else (0, Some (now + ttl))
    | None => (0, Some (now + ttl)) end = (0, Some (now + ttl))).
  { destruct (Memory.data c !! k); [by rewrite Hs|done]. }
  rewrite Hp. destruct (Memory.may_admit k c) as [[] m1] eqn:Ea.
  - left. eexists. change (wrap64 (0 + 1)) with 1. split; [done|].
    apply (mem_slot_of _ _ 1); [cbn; apply lookup_insert_eq | done].
  - right. exists m1, ErrCacheFull. split_and!; [done|done|].
    apply mem_slot_data. by rewrite (admit_data _ _ _ _ Ea).
Qed.
Next Obligation.
  intros c k now r c' k' He Hk. cbn in He. unfold Memory.MDelete in He. simplify_eq.
  apply mem_slot_data. cbn. by rewrite lookup_delete_ne.
Qed.
Next Obligation.
  intros c k now. eexists. split; [done|].
  unfold mem_slot. cbn. by rewrite lookup_delete_eq.
Qed.
Next Obligation.
  intros c k now r c' k' He. cbn in He. unfold Memory.MGet in He. by inv_matches.
Qed.

(** Operations on other keys, and the sweep, are environment steps. *)
Lemma exec_env_ok k now o m a m' :
  off_key k o = true → Memory.exec now o m = (a, m') → env_ok k now m m'.
Proof.
  intros Hk He. unfold env_ok. cbn.
  destruct (exec_frame _ _ _ _ _ _ Hk He) as [Hd|[_ Hd]].
  - left. by apply mem_slot_data.
  - destruct (Memory.data m !! k) as [e|] eqn:Ed; cbn in Hd.
    + destruct (Memory.expired now e) eqn:Ex; [|left; apply mem_slot_data; by rewrite Hd].
      destruct (mem_slot m k) as [|n t|] eqn:Es.
      * left. unfold mem_slot. by rewrite Hd.
      * right. left. exists n, t. apply mem_slot_counter in Es as [Hd' _].
        rewrite Ed in Hd'. simplify_eq. unfold Memory.expired in Ex. cbn in Ex. bool_hyps.
        split_and!; [done|lia|]. unfold mem_slot. by rewrite Hd.
      * by do 2 right.
    + left. apply mem_slot_data. by rewrite Hd.
Qed.
