(* ===== verification/PgCache.v ===== *)
(** * PgCache: the Postgres cache backend

    Models internal/cache/postgres.go: the table [auth.cache] as a map of rows,
    one definition per statement.  A statement runs atomically; one that fails
    is the business of the caller's fault model.  The expiry is stamped with
    the server's clock and compared with the database's, which the model takes
    to be one clock.  A value cast to bigint is decimal text.

    Theorems: the backend honours the counter contract, and it answers exactly
    as the in-memory one does, call by call, away from expiry instants. *)
From S2P Require Import Prelude GoStd Cache CacheFacts Counter.
From Stdlib Require Import Ascii.
From stdpp Require Import list.
Open Scope string_scope.
Open Scope Z_scope.

Module Pg.

Record pgRow := mkRow { value : string; expires_at : option Z }.

#[export] Instance pgRow_eq_dec : EqDecision pgRow.
Proof. solve_decision. Defined.

Record PostgresCache := mkPostgresCache {
  rows : gmap string pgRow;
  done : bool;
}.
Definition NewPostgresCache (table : gmap string pgRow) : PostgresCache := mkPostgresCache table false.
Definition with_rows (t : gmap string pgRow) (p : PostgresCache) : PostgresCache := mkPostgresCache t (done p).

(** [expires_at IS NOT NULL AND expires_at <= NOW()] *)
Definition lapsed (now : Z) (r : pgRow) : bool :=
  match expires_at r with Some t => t <=? now | None => false end.

(** [if ttl > 0 { t := time.Now().Add(ttl) }] *)
Definition stamp (now ttl : Z) : option Z := if 0 <? ttl then Some (now + ttl) else None.

(** A row the [WHERE key = $1 AND (expires_at IS NULL OR expires_at > NOW())]
    clause selects. *)
Definition selected (now : Z) (key : string) (p : PostgresCache) : option pgRow :=
  r ← rows p !! key; if lapsed now r then None else Some r.

Definition PGet (now : Z) (key : string) (p : PostgresCache) : res cacheErr string * PostgresCache :=
  match selected now key p with
  | None => (Err ErrNotFound, p)
  | Some r => (Ok (value r), p)
  end.

Definition PSet (now : Z) (key v : string) (ttl : Z) (p : PostgresCache) : res cacheErr unit * PostgresCache :=
  (Ok tt, with_rows (<[key := mkRow v (stamp now ttl)]> (rows p)) p).

Definition PDelete (now : Z) (key : string) (p : PostgresCache) : res cacheErr unit * PostgresCache :=
  (Ok tt, with_rows (delete key (rows p)) p).

Definition PGetAndDelete (now : Z) (key : string) (p : PostgresCache) : res cacheErr string * PostgresCache :=
  match selected now key p with
  | None => (Err ErrNotFound, p)
  | Some r => (Ok (value r), with_rows (delete key (rows p)) p)
  end.

(** The upsert whose conflict arm takes only a lapsed row. *)
Definition PSetIfNotExists (now : Z) (key v : string) (ttl : Z) (p : PostgresCache)
  : res cacheErr bool * PostgresCache :=
  let fresh := with_rows (<[key := mkRow v (stamp now ttl)]> (rows p)) p in
  match rows p !! key with
  | None => (Ok true, fresh)
  | Some r => if lapsed now r then (Ok true, fresh) else (Ok false, p)
  end.

(** [value::bigint]: an error on text that is no number or out of range. *)
Definition bigint (s : string) : option Z :=
  match ParseInt (TrimSpace s) with (n, None) => Some n | _ => None end.

Definition PIncrement (now : Z) (key : string) (ttl : Z) (p : PostgresCache) : res cacheErr Z * PostgresCache :=
  let first := with_rows (<[key := mkRow "1" (stamp now ttl)]> (rows p)) p in
  match rows p !! key with
  | None => (Ok 1, first)
  | Some r =>
      if lapsed now r then (Ok 1, first)
      else match bigint (value r) with
           | None => (Err ErrCacheUnavailable, p)
           | Some n =>
               if int64_max <? n + 1 then (Err ErrCacheUnavailable, p)
               else
                 let exp := match expires_at r with Some t => Some t | None => stamp now ttl end in
                 (Ok (n + 1), with_rows (<[key := mkRow (FormatInt (n + 1)) exp]> (rows p)) p)
           end
  end.

Definition PExists (now : Z) (key : string) (p : PostgresCache) : res cacheErr bool * PostgresCache :=
  match PGet now key p with
  | (Ok _, p') => (Ok true, p')
  | (Err ErrNotFound, p') => (Ok false, p')
  | (Err e, p') => (Err e, p')
  end.

Definition PClose (p : PostgresCache) : PostgresCache := mkPostgresCache (rows p) true.

Definition pgSweepBatch : nat := 2000.
Definition pgSweepMaxBatches : nat := 20.

(** The keys one batch deletes: up to [n] lapsed ones. *)
Definition lapsed_keys (now : Z) (n : nat) (t : gmap string pgRow) : list string :=
  take n (fst <$> filter (λ kr, lapsed now kr.2 = true) (map_to_list t)).
Definition delete_keys (ks : list string) (t : gmap string pgRow) : gmap string pgRow :=
  fold_right delete t ks.

(** The batch loop, ending early on a batch that did not fill; a closed cache
    sweeps nothing. *)
Fixpoint sweep_loop (batches batch : nat) (now : Z) (t : gmap string pgRow) : gmap string pgRow :=
  match batches with
  | O => t
  | S b =>
      let ks := lapsed_keys now batch t in
      let t' := delete_keys ks t in
      if (length ks <? batch)%nat then t' else sweep_loop b batch now t'
  end.
Definition reapExpired (now : Z) (p : PostgresCache) : PostgresCache :=
  if done p then p else with_rows (sweep_loop pgSweepMaxBatches pgSweepBatch now (rows p)) p.

(** The operations of a trace, on this backend. *)
Definition pexec (now : Z) (o : Memory.op) (p : PostgresCache) : Memory.answer * PostgresCache :=
  match o with
  | Memory.OGet k => let '(r, p') := PGet now k p in (Memory.AString r, p')
  | Memory.OSet k v t => let '(r, p') := PSet now k v t p in (Memory.AUnit r, p')
  | Memory.ODelete k => let '(r, p') := PDelete now k p in (Memory.AUnit r, p')
  | Memory.OGetAndDelete k => let '(r, p') := PGetAndDelete now k p in (Memory.AString r, p')
  | Memory.OSetIfNotExists k v t => let '(r, p') := PSetIfNotExists now k v t p in (Memory.ABool r, p')
  | Memory.OIncrement k t => let '(r, p') := PIncrement now k t p in (Memory.ACount r, p')
  | Memory.OExists k => let '(r, p') := PExists now k p in (Memory.ABool r, p')
  | Memory.OCleanup => (Memory.ANone, reapExpired now p)
  | Memory.OClose => (Memory.ANone, PClose p)
  end.
Fixpoint prun (tr : list (Z * Memory.op)) (p : PostgresCache) : list Memory.answer * PostgresCache :=
  match tr with
  | [] => ([], p)
  | (now, o) :: tr' =>
      let '(a, p1) := pexec now o p in
      let '(as_, p2) := prun tr' p1 in (a :: as_, p2)
  end.

End Pg.
Arguments Pg.sweep_loop : simpl never.

#[export] Instance postgres_cache : CacheOps Pg.PostgresCache := {
  Get := Pg.PGet;
  Set_ := Pg.PSet;
  Delete := Pg.PDelete;
  GetAndDelete := Pg.PGetAndDelete;
  SetIfNotExists := Pg.PSetIfNotExists;
  Increment := Pg.PIncrement;
  Exists_ := Pg.PExists;
}.

(** ** The counter contract *)
Section counters.
Import Pg.

Definition pg_slot (p : PostgresCache) (k : string) : slot_state :=
  match rows p !! k with
  | None => SEmpty
  | Some r =>
      match expires_at r, bigint (value r) with
      | Some t, Some n => if (0 <=? n) && bool_decide (FormatInt n = value r) then SCounter n t else SOther
      | _, _ => SOther
      end
  end.

Lemma digits_no_space s : uint_digits s → TrimLeft s = s.
Proof. destruct s as [|c s]; [done|]. intros [Hc _]. cbn. by rewrite (digit_not_space _ Hc). Qed.

Lemma uint_digits_rev s : uint_digits s → uint_digits (str_rev s).
Proof.
  induction s as [|c s IH]; [done|]. intros [Hc Hs]. rewrite str_rev_cons. apply uint_digits_app.
  split; [by apply IH|by split].
Qed.
Lemma TrimSpace_digits s : uint_digits s → TrimSpace s = s.
Proof.
  intros Hd. unfold TrimSpace. rewrite (digits_no_space s) by done.
  rewrite (digits_no_space (str_rev s)) by by apply uint_digits_rev. apply str_rev_involutive.
Qed.

Lemma bigint_FormatInt n : 0 ≤ n ≤ int64_max → bigint (FormatInt n) = Some n.
Proof.
  intros Hn. unfold bigint. rewrite TrimSpace_digits.
  - by rewrite ParseInt_FormatInt.
  - unfold FormatInt. destruct (Z.ltb_spec n 0); [lia|]. apply FormatUint_digits.
Qed.

Lemma pg_slot_counter p k n e :
  pg_slot p k = SCounter n e → rows p !! k = Some (mkRow (FormatInt n) (Some e)) ∧ 0 ≤ n.
Proof.
  unfold pg_slot. destruct (rows p !! k) as [[v x]|] eqn:Er; [|done]. cbn.
  destruct x as [t|]; [|done]. destruct (bigint v) as [m|]; [|done].
  destruct ((0 <=? m) && bool_decide (FormatInt m = v)) eqn:B; [|done].
  intros [= <- <-]. bool_hyps. split; [by subst|done].
Qed.
Lemma pg_slot_of p k n e :
  rows p !! k = Some (mkRow (FormatInt n) (Some e)) → 0 ≤ n ≤ int64_max → pg_slot p k = SCounter n e.
Proof.
  intros Hr Hn. unfold pg_slot. rewrite Hr. cbn. rewrite bigint_FormatInt by done.
  rewrite bool_decide_true by done. by rewrite (proj2 (Z.leb_le _ _)) by lia.
Qed.
Lemma pg_slot_empty p k : pg_slot p k = SEmpty → rows p !! k = None.
Proof. unfold pg_slot. intros. by inv_matches. Qed.
Lemma pg_slot_rows p p' k : rows p' !! k = rows p !! k → pg_slot p' k = pg_slot p k.
Proof. unfold pg_slot. by intros ->. Qed.

#[export] Program Instance postgres_counter_cache : CounterCache PostgresCache := { slot := pg_slot }.
Next Obligation.
  intros c k n e now Hs Hlt. apply pg_slot_counter in Hs as [Hr _]. cbn. unfold PGet, selected. rewrite Hr.
  cbn. unfold lapsed. cbn. by destruct (Z.leb_spec e now); [lia|].
Qed.
Next Obligation.
  intros c k n e now Hs Hlt. apply pg_slot_counter in Hs as [Hr _]. cbn. unfold PGet, selected. rewrite Hr.
  cbn. unfold lapsed. cbn. by destruct (Z.leb_spec e now); [|lia].
Qed.
Next Obligation.
  intros c k now Hs. apply pg_slot_empty in Hs. cbn. unfold PGet, selected. by rewrite Hs.
Qed.
Next Obligation.
  intros c k now ttl r c' k' He Hk. cbn in He. unfold PIncrement in He.
  apply pg_slot_rows. inv_matches; by rewrite ?lookup_insert_ne.
Qed.
Next Obligation.
  intros c k n e now ttl Hs Hlt Hn. apply pg_slot_counter in Hs as [Hr H0]. cbn. unfold PIncrement. rewrite Hr.
  unfold lapsed. cbn. destruct (Z.leb_spec e now); [lia|]. rewrite bigint_FormatInt by lia.
  destruct (Z.ltb_spec int64_max (n + 1)); [lia|]. eexists. split; [done|].
  apply pg_slot_of; [cbn; apply lookup_insert_eq|lia].
Qed.
Next Obligation.
  intros c k now ttl Hst Ht. left. cbn. unfold PIncrement, stamp. rewrite (proj2 (Z.ltb_lt _ _) Ht).
  assert (Hcase : match rows c !! k with Some r => lapsed now r = true | None => True end).
  { cbn in Hst. destruct (pg_slot c k) as [|n e|] eqn:Es; cbn in Hst; [|apply pg_slot_counter in Es as [-> _]|done].
    - by rewrite (pg_slot_empty _ _ Es).
    - unfold lapsed. cbn. by apply Z.leb_le. }
  destruct (rows c !! k); [rewrite Hcase|]; eexists; (split; [done|]);
    (apply (pg_slot_of _ _ 1); [cbn; apply lookup_insert_eq|done]).
Qed.
Next Obligation.
  intros c k now r c' k' He Hk. cbn in He. unfold PDelete in He. simplify_eq. apply pg_slot_rows. cbn.
  by rewrite lookup_delete_ne.
Qed.
Next Obligation.
  intros c k now. eexists. split; [done|]. unfold pg_slot. cbn. by rewrite lookup_delete_eq.
Qed.
Next Obligation. intros c k now r c' k' He. cbn in He. unfold PGet in He. by inv_matches. Qed.
End counters.

(** ** The two backends answer alike *)
Section agreement.
Import Memory.

Definition as_entry (r : Pg.pgRow) : memEntry := mkMemEntry (Pg.value r) (Pg.expires_at r).

(** An entry that has not reached its expiry. *)
Definition strict (now : Z) (o : option memEntry) : option memEntry :=
  e ← o; if fresh now e then Some e else None.

Definition same (now : Z) (m : MemoryCache) (p : Pg.PostgresCache) : Prop :=
  ∀ k, strict now (data m !! k) = strict now (as_entry <$> Pg.rows p !! k).

(** Text a counter holds. *)
Definition counter_text (v : string) : bool :=
  match ParseInt v with
  | (n, None) => (0 <=? n) && (n <? int64_max) && bool_decide (FormatInt n = v)
  | _ => false
  end.

(** A call away from the edges: not at the very instant its key expires, not
    refused at the entry cap, and counting only on keys that hold counters. *)
Definition smooth (now : Z) (o : op) (m : MemoryCache) : bool :=
  match op_key o with
  | None => true
  | Some k =>
      (negb (op_writes k o) || (may_admit k m).1) &&
      match data m !! k with
      | None => true
      | Some e =>
          negb (bool_decide (expiresAt e = Some now)) &&
          match o with
          | OIncrement _ _ => negb (fresh now e) || (bool_decide (is_Some (expiresAt e)) && counter_text (value e))
          | _ => true
          end
      end
  end.
Fixpoint smooth_run (tr : list (Z * op)) (m : MemoryCache) : bool :=
  match tr with
  | [] => true
  | (now, o) :: tr' => smooth now o m && smooth_run tr' (exec now o m).2
  end.

Lemma fresh_mono now now' e : now ≤ now' → fresh now' e = true → fresh now e = true.
Proof. unfold fresh. destruct (expiresAt e); [|done]. intros. bool_hyps. apply Z.ltb_lt. lia. Qed.
Lemma strict_strict now now' o : now ≤ now' → strict now' (strict now o) = strict now' o.
Proof.
  intros Hle. destruct o as [e|]; [|done]. cbn. destruct (fresh now e) eqn:E; [done|]. cbn.
  destruct (fresh now' e) eqn:E'; [|done]. by rewrite (fresh_mono now now' e Hle E') in E.
Qed.
Lemma same_mono now now' m p : now ≤ now' → same now m p → same now' m p.
Proof. intros Hle Hs k. rewrite <- (strict_strict now now'), Hs, strict_strict by done. done. Qed.

Lemma lapsed_fresh now r : Pg.lapsed now r = negb (fresh now (as_entry r)).
Proof.
  unfold Pg.lapsed, fresh. cbn. destruct (Pg.expires_at r) as [t|]; [|done].
  destruct (Z.leb_spec t now), (Z.ltb_spec now t); try lia; done.
Qed.
Lemma off_instant now e : expiresAt e ≠ Some now → expired now e = negb (fresh now e).
Proof.
  unfold expired, fresh. destruct (expiresAt e) as [t|]; [|done]. intros Hne.
  destruct (Z.ltb_spec t now), (Z.ltb_spec now t); try lia; try done. exfalso. apply Hne. f_equal. lia.
Qed.

Lemma same_insert now m m1 p k e r :
  same now m p → data m1 = data m → e = as_entry r →
  same now (with_data (<[k := e]> (data m1)) m1) (Pg.with_rows (<[k := r]> (Pg.rows p)) p).
Proof.
  intros Hs Hd -> k'. cbn. rewrite Hd. destruct (decide (k = k')) as [<-|Hk].
  - by rewrite !lookup_insert_eq.
  - rewrite !lookup_insert_ne by done. apply Hs.
Qed.
Lemma same_delete now m p k :
  same now m p → same now (with_data (delete k (data m)) m) (Pg.with_rows (delete k (Pg.rows p)) p).
Proof.
  intros Hs k'. cbn. destruct (decide (k = k')) as [<-|Hk].
  - by rewrite !lookup_delete_eq.
  - rewrite !lookup_delete_ne by done. apply Hs.
Qed.
Lemma same_data now m m' p : data m' = data m → same now m p → same now m' p.
Proof. intros Hd Hs k. rewrite Hd. apply Hs. Qed.

(** *** Sweeps remove only what neither backend shows *)
Lemma same_cleanup now m p : same now m p → same now (cleanup now m) p.
Proof.
  intros Hs k. rewrite <- Hs, cleanup_lookup. destruct (closed m); [done|].
  destruct (data m !! k) as [e|]; [|done]. cbn. destruct (expired now e) eqn:E; [|done]. cbn.
  destruct (fresh now e) eqn:F; [|done]. by rewrite (fresh_not_expired _ _ F) in E.
Qed.

Lemma delete_keys_lookup ks t k : Pg.delete_keys ks t !! k = if decide (k ∈ ks) then None else t !! k.
Proof.
  induction ks as [|a ks IH]; [done|]. cbn. fold (Pg.delete_keys ks t). destruct (decide (k = a)) as [->|Hk].
  - rewrite lookup_delete_eq, decide_True by left. done.
  - rewrite lookup_delete_ne by done. rewrite IH. repeat case_decide; set_solver.
Qed.
Lemma lapsed_keys_lapsed now n t k r : k ∈ Pg.lapsed_keys now n t → t !! k = Some r → Pg.lapsed now r = true.
Proof.
  unfold Pg.lapsed_keys. intros Hin Hr. apply elem_of_take in Hin as (i & Hi & _).
  apply list_elem_of_lookup_2, list_elem_of_fmap in Hi as ([k' r'] & -> & Hin).
  apply list_elem_of_filter in Hin as [Hl Hin]. apply elem_of_map_to_list in Hin. cbn in *. by simplify_eq.
Qed.
Lemma sweep_loop_S b n now t :
  Pg.sweep_loop (S b) n now t =
  (let ks := Pg.lapsed_keys now n t in let t' := Pg.delete_keys ks t in
   if (length ks <? n)%nat then t' else Pg.sweep_loop b n now t').
Proof. done. Qed.
Lemma sweep_strict b n now t k : strict now (as_entry <$> Pg.sweep_loop b n now t !! k) = strict now (as_entry <$> t !! k).
Proof.
  revert t. induction b as [|b IH]; intros t; [done|]. rewrite sweep_loop_S. cbv zeta.
  assert (Hone : strict now (as_entry <$> Pg.delete_keys (Pg.lapsed_keys now n t) t !! k) = strict now (as_entry <$> t !! k)).
  { rewrite delete_keys_lookup. case_decide as Hin; [|done]. destruct (t !! k) as [r|] eqn:Er; [|done].
    pose proof (lapsed_keys_lapsed _ _ _ _ _ Hin Er) as Hl. rewrite lapsed_fresh in Hl. bool_hyps.
    cbn. by rewrite Hl. }
  case_match; [done|]. by rewrite IH.
Qed.
Lemma same_sweep now m p : same now m p → same now m (Pg.reapExpired now p).
Proof.
  intros Hs k. unfold Pg.reapExpired. destruct (Pg.done p); [apply Hs|]. cbn. rewrite sweep_strict. apply Hs.
Qed.

(** *** One call *)
Lemma same_case now k m p :
  same now m p →
  (∃ e r, data m !! k = Some e ∧ Pg.rows p !! k = Some r ∧ e = as_entry r ∧ fresh now e = true) ∨
  (strict now (data m !! k) = None ∧ strict now (as_entry <$> Pg.rows p !! k) = None).
Proof.
  intros Hs. specialize (Hs k). destruct (data m !! k) as [e|] eqn:Ed; cbn in Hs |- *; [|by right].
  destruct (fresh now e) eqn:Ef; [|by right]. left. symmetry in Hs.
  destruct (Pg.rows p !! k) as [r|]; [|done]. cbn in Hs. destruct (fresh now (as_entry r)); [|done].
  simplify_eq. by exists (as_entry r), r.
Qed.

Lemma counter_text_value v : counter_text v = true → ∃ n, v = FormatInt n ∧ 0 ≤ n < int64_max.
Proof.
  unfold counter_text. destruct (ParseInt v) as [n [|]]; [done|]. intros. bool_hyps. by exists n.
Qed.

(** What the row of a dead or absent key lets the statements see. *)
Lemma dead_row now k p :
  strict now (as_entry <$> Pg.rows p !! k) = None →
  Pg.selected now k p = None ∧
  (∀ {A} (x : A) (y : Pg.pgRow → A),
     match Pg.rows p !! k with None => x | Some r => if Pg.lapsed now r then x else y r end = x).
Proof.
  unfold Pg.selected. destruct (Pg.rows p !! k) as [r|]; [|done]. cbn. rewrite lapsed_fresh.
  by destruct (fresh now (as_entry r)).
Qed.

(** The same for the entry, at an instant that is not its expiry. *)
Definition off (now : Z) (k : string) (m : MemoryCache) : Prop :=
  ∀ e, data m !! k = Some e → expiresAt e ≠ Some now.
Lemma dead_entry now k m :
  off now k m → strict now (data m !! k) = None →
  match data m !! k with Some e => expired now e = true ∧ fresh now e = false | None => True end.
Proof.
  intros Ho. destruct (data m !! k) as [e|] eqn:Ed; [|done]. cbn. specialize (Ho e Ed).
  rewrite off_instant by done. by destruct (fresh now e).
Qed.

Lemma smooth_spec now o k m :
  smooth now o m = true → op_key o = Some k →
  off now k m ∧ (op_writes k o = true → ∃ m1, may_admit k m = (true, m1) ∧ data m1 = data m) ∧
  (∀ ttl e, o = OIncrement k ttl → data m !! k = Some e → fresh now e = true →
     ∃ n x, e = mkMemEntry (FormatInt n) (Some x) ∧ 0 ≤ n < int64_max).
Proof.
  unfold smooth. intros Hsm Hk. rewrite Hk in Hsm. apply andb_true_iff in Hsm as [Hw Hd]. split_and!.
  - intros e He. rewrite He in Hd. bool_hyps. done.
  - intros Hop. rewrite Hop in Hw. cbn in Hw. destruct (may_admit k m) as [b m1] eqn:Ea. cbn in Hw. subst b.
    exists m1. split; [done|]. by eapply admit_data.
  - intros ttl e -> He Hf. rewrite He, Hf in Hd. bool_hyps. cbn in *. bool_hyps.
    destruct e as [v [x|]]; cbn in *; [|by destruct H0].
    apply counter_text_value in H1 as (n & -> & Hn). by exists n, x.
Qed.

Lemma agree_step now o m p :
  same now m p → smooth now o m = true →
  (exec now o m).1 = (Pg.pexec now o p).1 ∧ same now (exec now o m).2 (Pg.pexec now o p).2.
Proof.
  intros Hs Hsm. destruct (op_key o) as [k|] eqn:Hk.
  2: { destruct o; try done. cbn. split; [done|]. by apply same_sweep, same_cleanup. }
  destruct (smooth_spec _ _ _ _ Hsm Hk) as (Ho & Hw & Hc).
  destruct (same_case now k m p Hs) as [(e & r & Hd & Hr & He & Hf)|[Hm Hp]].
  - (* a live key *)
    pose proof (fresh_not_expired _ _ Hf) as Hx.
    assert (Hl : Pg.lapsed now r = false) by (rewrite lapsed_fresh, <- He, Hf; done).
    assert (Hsel : Pg.selected now k p = Some r) by (unfold Pg.selected; rewrite Hr; cbn; by rewrite Hl).
    destruct o as [k0|k0 v ttl|k0|k0|k0 v ttl|k0 ttl|k0| |]; cbn in Hk; simplify_eq; cbn [exec Pg.pexec].
    + unfold MGet, Pg.PGet. by rewrite Hd, Hx, Hsel.
    + unfold MSet, Pg.PSet. destruct Hw as (m1 & -> & Hd1); [by cbn; rewrite bool_decide_true|].
      split; [done|]. by apply (same_insert _ m).
    + split; [done|]. by apply same_delete.
    + unfold MGetAndDelete, Pg.PGetAndDelete. rewrite Hd, Hx, Hsel. split; [done|]. by apply same_delete.
    + unfold MSetIfNotExists, Pg.PSetIfNotExists. by rewrite Hd, Hf, Hr, Hl.
    + destruct (Hc ttl _ eq_refl Hd Hf) as (n & x & Hv & Hn). destruct r as [rv rx]. unfold as_entry in Hv.
      cbn in Hv. simplify_eq. unfold MIncrement, Pg.PIncrement. rewrite Hd, Hf, Hr, Hl. cbn.
      rewrite ParseInt_FormatInt, bigint_FormatInt by lia. cbn.
      destruct Hw as (m1 & -> & Hd1); [by cbn; rewrite bool_decide_true|].
      destruct (Z.ltb_spec int64_max (n + 1)); [lia|].
      rewrite wrap64_id by (unfold in_int64, int64_min, int64_max in *; lia). split; [done|]. by apply (same_insert _ m).
    + unfold MExists, Pg.PExists, Pg.PGet. by rewrite Hd, Hx, Hsel.
  - (* no live value on either side *)
    pose proof (dead_entry _ _ _ Ho Hm) as Hde. destruct (dead_row _ _ _ Hp) as [Hsel Hrow].
    destruct o as [k0|k0 v ttl|k0|k0|k0 v ttl|k0 ttl|k0| |]; cbn in Hk; simplify_eq; cbn [exec Pg.pexec].
    + unfold MGet, Pg.PGet. rewrite Hsel. destruct (data m !! k); [destruct Hde as [-> _]|]; done.
    + unfold MSet, Pg.PSet. destruct Hw as (m1 & -> & Hd1); [by cbn; rewrite bool_decide_true|].
      split; [done|]. by apply (same_insert _ m).
    + split; [done|]. by apply same_delete.
    + unfold MGetAndDelete, Pg.PGetAndDelete. rewrite Hsel. destruct (data m !! k); [destruct Hde as [-> _]|]; done.
    + unfold MSetIfNotExists, Pg.PSetIfNotExists. rewrite (Hrow _ _ (λ _, _)).
      destruct Hw as (m1 & -> & Hd1); [by cbn; rewrite bool_decide_true|].
      destruct (data m !! k); [destruct Hde as [_ ->]|]; (split; [done|]); by apply (same_insert _ m).
    + unfold MIncrement, Pg.PIncrement. cbv zeta. rewrite (Hrow _ _ (λ r, _)).
      destruct Hw as (m1 & -> & Hd1); [by cbn; rewrite bool_decide_true|].
      destruct (data m !! k); [destruct Hde as [_ ->]|]; cbn; (split; [done|]); by apply (same_insert _ m).
    + unfold MExists, Pg.PExists, Pg.PGet. rewrite Hsel. destruct (data m !! k); [destruct Hde as [-> _]|]; done.
Qed.

(** The backends are interchangeable: along any run with a non-decreasing
    clock, from stores that show the same values, the Postgres cache, sweeps
    included, gives the very answers the in-memory cache gives, and they still
    show the same values at the end.  The run stays away from the edges: no
    call at the very instant its key expires, no refusal at the entry cap, and
    increments only of counters. *)
Theorem backends_agree now tr m p :
  monotone now tr → same now m p → smooth_run tr m = true →
  (run tr m).1 = (Pg.prun tr p).1 ∧ ∃ t, now ≤ t ∧ same t (run tr m).2 (Pg.prun tr p).2.
Proof.
  revert now m p. induction tr as [|[t o] tr IH]; intros now m p Hmon Hs Hsm; [by split; [|exists now]|].
  destruct Hmon as [Ht Hmon]. cbn [smooth_run] in Hsm. apply andb_true_iff in Hsm as [Hsm Hrest].
  destruct (agree_step t o m p (same_mono _ _ _ _ Ht Hs) Hsm) as [Ha Hs1].
  rewrite run_cons. cbn [Pg.prun]. destruct (exec t o m) as [a m1], (Pg.pexec t o p) as [a' p1]. cbn [fst snd] in *.
  destruct (IH t m1 p1 Hmon Hs1 Hrest) as [Hans (t' & Hle & Hend)].
  destruct (run tr m1) as [as1 m2], (Pg.prun tr p1) as [as2 p2]. cbn [fst snd] in *.
  split; [congruence|]. exists t'. split; [lia|done].
Qed.
End agreement.

Lemma backends_agree_witness :
  let tr := [(1, Memory.OSet "a" "x" 3); (2, Memory.OIncrement "n" 10); (3, Memory.OIncrement "n" 10);
             (5, Memory.OGet "a"); (6, Memory.OCleanup); (7, Memory.OSetIfNotExists "a" "y" 5);
             (8, Memory.OGet "n"); (13, Memory.OIncrement "n" 10)] in
  let m := Memory.newMemoryCacheWithCap 10 in
  (Memory.run tr m).1 = (Pg.prun tr (Pg.NewPostgresCache ∅)).1
  ∧ ∃ t, 0 ≤ t ∧ same t (Memory.run tr m).2 (Pg.prun tr (Pg.NewPostgresCache ∅)).2.
Proof.
  intros tr m. apply (backends_agree 0 tr m (Pg.NewPostgresCache ∅)).
  - cbn. lia.
  - intros k. cbn. by rewrite !lookup_empty.
  - by vm_compute.
Defined.

(** Where they part: a counter without an expiry gains one in Postgres only,
    and text that is no number counts as zero in memory and is an error in
    Postgres. *)
Example edges :
  let tr := [(1, Memory.OSet "n" "4" 0); (2, Memory.OIncrement "n" 10); (20, Memory.OGet "n")] in
  let tr' := [(1, Memory.OSet "n" "x" 0); (2, Memory.OIncrement "n" 10)] in
  let m := Memory.newMemoryCacheWithCap 10 in let p := Pg.NewPostgresCache ∅ in
  (Memory.run tr m).1 = [Memory.AUnit (Ok tt); Memory.ACount (Ok 5); Memory.AString (Ok "5")] ∧
  (Pg.prun tr p).1 = [Memory.AUnit (Ok tt); Memory.ACount (Ok 5); Memory.AString (Err ErrNotFound)] ∧
  (Memory.run tr' m).1 = [Memory.AUnit (Ok tt); Memory.ACount (Ok 1)] ∧
  (Pg.prun tr' p).1 = [Memory.AUnit (Ok tt); Memory.ACount (Err ErrCacheUnavailable)].
Proof. by vm_compute. Qed.

(** ** The sweep *)
Section sweep.
Import Pg.

(** The rows a sweep at [now] is to delete. *)
Definition backlog (now : Z) (t : gmap string pgRow) : gmap string pgRow := filter (λ kr, lapsed now kr.2 = true) t.

Lemma backlog_keys now t :
  NoDup (fst <$> filter (λ kr, lapsed now kr.2 = true) (map_to_list t)) ∧
  length (fst <$> filter (λ kr, lapsed now kr.2 = true) (map_to_list t)) = size (backlog now t) ∧
  ∀ k, k ∈ (fst <$> filter (λ kr, lapsed now kr.2 = true) (map_to_list t)) → is_Some (backlog now t !! k).
Proof.
  assert (Hnd : NoDup (fst <$> filter (λ kr, lapsed now kr.2 = true) (map_to_list t))).
  { eapply sublist_NoDup; [apply (NoDup_fst_map_to_list t)|]. apply fmap_sublist, sublist_filter. }
  split_and!; [done| |].
  - unfold backlog. rewrite map_filter_alt. rewrite length_fmap.
    rewrite <-length_map_to_list. apply Permutation_length. symmetry. by apply map_to_list_to_map.
  - intros k (x & -> & [Hl Hx]%list_elem_of_filter)%list_elem_of_fmap. destruct x as [k r]. apply elem_of_map_to_list in Hx.
    exists r. by apply map_lookup_filter_Some.
Qed.

Lemma delete_keys_backlog now ks t : backlog now (delete_keys ks t) = delete_keys ks (backlog now t).
Proof.
  induction ks as [|j ks IH]; [done|]. change (backlog now (delete j (delete_keys ks t)) = delete j (delete_keys ks (backlog now t))).
  rewrite <-IH. apply map_filter_delete.
Qed.
Lemma delete_keys_size {ks} {t : gmap string pgRow} : NoDup ks → (∀ k, k ∈ ks → is_Some (t !! k)) →
  size (delete_keys ks t) = (size t - length ks)%nat.
Proof.
  induction 1 as [|j ks Hj Hks IH]; intros Hin; [cbn; lia|].
  change (delete_keys (j :: ks) t) with (delete j (delete_keys ks t)). rewrite map_size_delete_Some.
  - rewrite IH; [cbn; lia|]. intros k Hk. apply Hin. by constructor.
  - rewrite delete_keys_lookup, decide_False by done. apply Hin. constructor.
Qed.

(** One batch takes the batch size off the backlog, and nothing else. *)
Lemma batch_step now n t :
  size (backlog now (delete_keys (lapsed_keys now n t) t)) = (size (backlog now t) - n)%nat ∧
  length (lapsed_keys now n t) = (n `min` size (backlog now t))%nat ∧
  ∀ k r, t !! k = Some r → lapsed now r = false → delete_keys (lapsed_keys now n t) t !! k = Some r.
Proof.
  destruct (backlog_keys now t) as (Hnd & Hlen & Hin). unfold lapsed_keys. set (ks := fst <$> _) in *.
  assert (Hsub : ∀ k, k ∈ take n ks → k ∈ ks) by (intros k Hk; rewrite <-(take_drop n ks); set_solver).
  assert (Hl : length (take n ks) = (n `min` size (backlog now t))%nat) by (rewrite length_take, Hlen; done).
  split_and!; [|done|].
  - rewrite delete_keys_backlog, delete_keys_size; [lia| |].
    + eapply sublist_NoDup; [exact Hnd|apply sublist_take].
    + intros k Hk. by apply Hin, Hsub.
  - intros k r Hk Hr. rewrite delete_keys_lookup, decide_False; [done|]. intros Hk'. apply Hsub, Hin in Hk' as [r' Hr'].
    apply map_lookup_filter_Some in Hr' as [Hr'' Hl']. cbn in Hl'. congruence.
Qed.

Lemma sweep_loop_spec b n now t : (0 < n)%nat →
  size (backlog now (sweep_loop b n now t)) = (size (backlog now t) - b * n)%nat ∧
  ∀ k r, t !! k = Some r → lapsed now r = false → sweep_loop b n now t !! k = Some r.
Proof.
  intros Hn. revert t. induction b as [|b IH]; intros t; [split; [unfold sweep_loop; lia|done]|].
  unfold sweep_loop; fold sweep_loop. cbv zeta.
  destruct (batch_step now n t) as (Hs & Hl & Hk). destruct (Nat.ltb_spec (length (lapsed_keys now n t)) n) as [Hlt|Hge].
  - split; [|done]. rewrite Hs. lia.
  - destruct (IH (delete_keys (lapsed_keys now n t) t)) as [IHs IHk]. split; [rewrite IHs, Hs; lia|].
    intros k r Ht Hr. by apply IHk; [apply Hk|].
Qed.

End sweep.

Definition swept : Pg.PostgresCache :=
  Pg.mkPostgresCache {["old" := Pg.mkRow "1" (Some 5); "new" := Pg.mkRow "2" (Some 50)]} false.
