(* ===== verification/Reserve.v ===== *)
(** * Reserve: single use through [SetIfNotExists]

    Replay guards reserve a key for a while and refuse whoever finds it taken.
    [ReservationCache] is what they rely on of a backend: a reservation that was
    granted is held until it lapses, and while it is held every further attempt
    is told the key exists.  Both backends honour it. *)
From S2P Require Import Prelude GoStd Cache CacheFacts Counter PgCache.
From Stdlib Require Import Ascii.
Open Scope string_scope.
Open Scope Z_scope.

Class ReservationCache (C : Type) `{CacheOps C} := {
  held : C → string → option Z;  (** until when the key is taken *)
  held_refused c k v ttl now e :
    held c k = Some e → now < e → SetIfNotExists now k v ttl c = (Ok false, c);
  granted_held c k v ttl now c' :
    0 < ttl → SetIfNotExists now k v ttl c = (Ok true, c') → held c' k = Some (now + ttl);
  reserve_frame c k v ttl now r c' k' :
    SetIfNotExists now k v ttl c = (r, c') → k' ≠ k → held c' k' = held c k';
  refused_same c k v ttl now r c' :
    SetIfNotExists now k v ttl c = (r, c') → r ≠ Ok true → held c' k = held c k;
}.

(** What other users of the cache may do to a reserved key until it lapses:
    nothing. *)
Definition undisturbed {C} `{ReservationCache C} (k : string) (now : Z) (c c' : C) : Prop :=
  held c' k = held c k ∨ ∃ e, held c k = Some e ∧ e ≤ now.

#[export] Program Instance memory_reservations : ReservationCache Memory.MemoryCache := {
  held m k := Memory.data m !! k ≫= Memory.expiresAt
}.
Next Obligation.
  intros c k v ttl now e Hh Hlt. cbn in *. unfold Memory.MSetIfNotExists.
  apply bind_Some in Hh as (ent & -> & Hh). unfold Memory.fresh. rewrite Hh.
  by rewrite (proj2 (Z.ltb_lt _ _) Hlt).
Qed.
Next Obligation.
  intros c k v ttl now c' Ht He. destruct (setnx_step now k v ttl c (Memory.ABool (Ok true)) c' Ht) as [[_ ->]|[? _]];
    [cbn in He |- *; by rewrite He|done|done].
Qed.
Next Obligation.
  intros c k v ttl now r c' k' He Hk. cbn in He. unfold Memory.MSetIfNotExists in He.
  destruct (match Memory.data c !! k with Some e => Memory.fresh now e | None => false end); [by simplify_eq|].
  destruct (Memory.may_admit k c) as [[] m1] eqn:Ea; simplify_eq; cbn; rewrite ?lookup_insert_ne by done;
    by rewrite (admit_data _ _ _ _ Ea).
Qed.
Next Obligation.
  intros c k v ttl now r c' He Hr. cbn in He. unfold Memory.MSetIfNotExists in He.
  destruct (match Memory.data c !! k with Some e => Memory.fresh now e | None => false end); [by simplify_eq|].
  destruct (Memory.may_admit k c) as [[] m1] eqn:Ea; simplify_eq. by rewrite (admit_data _ _ _ _ Ea).
Qed.

#[export] Program Instance postgres_reservations : ReservationCache Pg.PostgresCache := {
  held p k := Pg.rows p !! k ≫= Pg.expires_at
}.
Next Obligation.
  intros c k v ttl now e Hh Hlt. cbn in *. unfold Pg.PSetIfNotExists.
  apply bind_Some in Hh as (r & -> & Hh). unfold Pg.lapsed. rewrite Hh.
  by destruct (Z.leb_spec e now); [lia|].
Qed.
Next Obligation.
  intros c k v ttl now c' Ht He. cbn in He. unfold Pg.PSetIfNotExists, Pg.stamp in He.
  rewrite (proj2 (Z.ltb_lt _ _) Ht) in He. by inv_matches; rewrite lookup_insert_eq.
Qed.
Next Obligation.
  intros c k v ttl now r c' k' He Hk. cbn in He. unfold Pg.PSetIfNotExists in He.
  inv_matches; by rewrite ?lookup_insert_ne.
Qed.
Next Obligation.
  intros c k v ttl now r c' He Hr. cbn in He. unfold Pg.PSetIfNotExists in He.
  destruct (Pg.rows c !! k) as [x|] eqn:Ex; [destruct (Pg.lapsed now x)|]; simplify_eq; by rewrite Ex.
Qed.

(** Operations on other keys, reads of this one and sweeps leave a reservation
    of the in-memory cache alone until it lapses. *)
Lemma exec_undisturbed k now o m a m' :
  off_key k o || is_read k o = true → Memory.exec now o m = (a, m') → undisturbed k now m m'.
Proof.
  intros Ho He. unfold undisturbed. cbn. destruct (is_read k o) eqn:Er.
  { left. by rewrite (exec_read _ _ _ _ _ _ Er He). }
  rewrite orb_false_r in Ho. destruct (exec_frame _ _ _ _ _ _ Ho He) as [->|[_ ->]]; [by left|].
  destruct (Memory.data m !! k) as [e|]; [|by left]. cbn. unfold Memory.expired.
  destruct (Memory.expiresAt e) as [t|] eqn:Et; cbn; [|by rewrite Et; left].
  destruct (Z.ltb_spec t now); cbn; [right; exists t; split; [done|lia]|by rewrite Et; left].
Qed.
