(* ===== verification/Crypto.v ===== *)
(** * Crypto: the primitives the services call, and the encodings around them

    Models internal/crypto/fingerprint.go, constant.go, hash.go, hmac.go and
    the claim types of jwt.go.  The hash, the MAC, the password hash and the
    signature are the standard library's and argon2's: they are the fields of
    the class [Primitives], with no law assumed of them.  What the repository
    builds around them, the length-prefixed preimage of a fingerprint and the
    length-checked comparison, is defined and proved here. *)
From S2P Require Import Prelude GoStd.
From Stdlib Require Import Ascii.
Open Scope string_scope.
Open Scope Z_scope.

(** ** Claims *)
(** [RegisteredClaims] and the vault fields; [NumericDate]s are in seconds and
    a nil pointer is [None]. *)
Record VaultClaims := mkClaims {
  Issuer : string;
  Audience : list string;
  Subject : string;
  CExpiresAt : option Z;
  NotBefore : option Z;
  IssuedAt : option Z;
  JTI : string;
  CRoles : list string;
  Scopes : list string;
  CClientID : string;
  CFingerprint : string;
  Confirmation : option string;  (** [cnf.jkt] *)
  TokenType : string;
  ACR : string;
  AMR : list string;
  AuthTime : Z;
  Factors : list string;
  MintedBy : string;
  CEmail : string;
}.

(** [NewNumericDate]: whole seconds, rounded down. *)
Definition NewNumericDate (t : Z) : Z := t / second.

(** ** What the standard library supplies *)
Class Primitives := {
  sha256_hex : string → string;              (** hex of SHA-256 *)
  sha256_b64url : string → string;           (** unpadded base64url of SHA-256 *)
  hmac_hex : string → string → string;       (** HMAC-SHA256, message then key *)
  argon2_verify : string → string → string → res unit bool;
    (** password, PHC string, pepper: parse and compare *)
  argon2_hash : string → string → string → string;
    (** salt, password, pepper: the PHC string *)
  SignToken : VaultClaims → string → res unit string;  (** claims and kid *)
}.

Section crypto.
Context `{Primitives}.

Definition SHA256Hex (s : string) : string := sha256_hex s.
Definition SHA256Base64URL (s : string) : string := sha256_b64url s.
Definition HMACSign (message key : string) : string := hmac_hex message key.

(** Lengths first, then bytes. *)
Definition SecureCompare (a b : string) : bool :=
  if Nat.eqb (String.length a) (String.length b) then bool_decide (a = b) else false.

Definition HMACVerify (message key signature : string) : bool :=
  SecureCompare (HMACSign message key) signature.

Definition CompareFingerprints (a b : string) : bool := SecureCompare a b.

Lemma SecureCompare_eq a b : SecureCompare a b = bool_decide (a = b).
Proof.
  unfold SecureCompare. destruct (Nat.eqb_spec (String.length a) (String.length b)); [done|].
  symmetry. apply bool_decide_eq_false. congruence.
Qed.
End crypto.

(** ** Device fingerprints *)
Record FingerprintInput := mkFingerprintInput {
  FIP : string;
  FUserAgent : string;
  AcceptLanguage : string;
  TLSFingerprint : string;
}.

(** [binary.BigEndian.PutUint32] of [uint32(n)]. *)
Definition byte_of (n : Z) : ascii := ascii_of_N (Z.to_N (n mod 256)).
Definition PutUint32 (n : Z) : string :=
  let u := n mod 2 ^ 32 in
  String (byte_of (Z.shiftr u 24)) (String (byte_of (Z.shiftr u 16))
    (String (byte_of (Z.shiftr u 8)) (String (byte_of u) ""))).

Definition writeLengthPrefixed (s : string) : string :=
  PutUint32 (Z.of_nat (String.length s)) +:+ s.

(** The bytes [ComputeFingerprint] feeds the hash. *)
Definition fingerprint_bytes (i : FingerprintInput) : string :=
  writeLengthPrefixed (FIP i) +:+ writeLengthPrefixed (FUserAgent i) +:+
  writeLengthPrefixed (AcceptLanguage i) +:+ writeLengthPrefixed (TLSFingerprint i).

Definition ComputeFingerprint `{Primitives} (i : FingerprintInput) : string :=
  sha256_hex (fingerprint_bytes i).

(** *** The length prefix separates the fields *)
Lemma byte_of_inj a b : byte_of a = byte_of b → a mod 256 = b mod 256.
Proof.
  unfold byte_of. intros E. apply (f_equal N_of_ascii) in E.
  pose proof (Z.mod_pos_bound a 256). pose proof (Z.mod_pos_bound b 256).
  rewrite !N_ascii_embedding in E by lia. lia.
Qed.

Lemma PutUint32_inj a b :
  0 ≤ a < 2 ^ 32 → 0 ≤ b < 2 ^ 32 → PutUint32 a = PutUint32 b → a = b.
Proof.
  unfold PutUint32. intros Ha Hb E. rewrite !Z.mod_small in E by done.
  rewrite !Z.shiftr_div_pow2 in E by lia.
  injection E as H3 H2 H1 H0.
  apply byte_of_inj in H0, H1, H2, H3.
  change (2 ^ 24) with 16777216 in *. change (2 ^ 16) with 65536 in *.
  change (2 ^ 8) with 256 in *. change (2 ^ 32) with 4294967296 in *.
  Z.div_mod_to_equations. lia.
Qed.

Lemma string_app_len_inj a b c d :
  String.length a = String.length c → a +:+ b = c +:+ d → a = c ∧ b = d.
Proof.
  revert c. induction a as [|x a IH]; intros [|y c]; try done.
  intros [= Hl] E. rewrite !string_app_cons in E. injection E as -> E.
  destruct (IH c Hl E) as [-> ->]. done.
Qed.

Definition short (s : string) : Prop := Z.of_nat (String.length s) < 2 ^ 32.

(** A length-prefixed field followed by anything determines both. *)
Lemma writeLengthPrefixed_inj s s' r r' :
  short s → short s' →
  writeLengthPrefixed s +:+ r = writeLengthPrefixed s' +:+ r' → s = s' ∧ r = r'.
Proof.
  unfold short, writeLengthPrefixed. intros Hs Hs' E. rewrite !string_app_assoc in E.
  apply string_app_len_inj in E as [Ep E]; [|done].
  apply PutUint32_inj in Ep; [|lia..].
  by apply string_app_len_inj in E; [|lia].
Qed.

(** Two different sets of device attributes never feed the hash the same
    bytes: no choice of separator inside a field lets one device's fingerprint
    be computed from another's attributes (fields below 4 GiB). *)
Theorem fingerprint_preimage_injective i j :
  short (FIP i) → short (FUserAgent i) → short (AcceptLanguage i) → short (TLSFingerprint i) →
  short (FIP j) → short (FUserAgent j) → short (AcceptLanguage j) → short (TLSFingerprint j) →
  fingerprint_bytes i = fingerprint_bytes j → i = j.
Proof.
  unfold fingerprint_bytes. intros ???????? E.
  apply writeLengthPrefixed_inj in E as [E1 E]; [|done..].
  apply writeLengthPrefixed_inj in E as [E2 E]; [|done..].
  apply writeLengthPrefixed_inj in E as [E3 E]; [|done..].
  rewrite <- (string_app_nil_r (writeLengthPrefixed (TLSFingerprint i))),
    <- (string_app_nil_r (writeLengthPrefixed (TLSFingerprint j))) in E.
  apply writeLengthPrefixed_inj in E as [E4 _]; [|done..].
  destruct i, j; cbn in *; congruence.
Qed.

Lemma fingerprint_preimage_injective_witness :
  fingerprint_bytes (mkFingerprintInput "10.0.0.1" "agent" "en" "")
  ≠ fingerprint_bytes (mkFingerprintInput "10.0.0.1" "agent|en" "" "").
Proof.
  intros E. apply fingerprint_preimage_injective in E; [discriminate E|by vm_compute..].
Defined.
