(* ===== verification/Json.v ===== *)
(** * Json: the part of encoding/json the token code uses

    The decoder over bytes: RFC 8259 values with Go's reading of them (escapes
    become UTF-8, a lone surrogate becomes U+FFFD, a number keeps its literal),
    and the lookups the token code makes: an exact key of a map, last member
    wins; a struct field by case-insensitive name.  Bytes above 0x7f inside
    strings are taken as the valid UTF-8 they are expected to be. *)
From S2P Require Import Prelude GoStd.
From stdpp Require Import list.
From Stdlib Require Import Ascii.
Open Scope string_scope.
Open Scope Z_scope.

Inductive json :=
| JNull
| JBool (b : bool)
| JNum (lit : string)
| JStr (s : string)
| JArr (l : list json)
| JObj (m : list (string * json)).

(** ** Lexical pieces *)
Definition json_space (c : ascii) : bool :=
  match code c with 32 | 9 | 10 | 13 => true | _ => false end.
Fixpoint skip_ws (s : string) : string :=
  match s with String c s' => if json_space c then skip_ws s' else s | "" => "" end.

(** [expect lit s]: the rest of [s] after the literal. *)
Fixpoint expect (lit s : string) : option string :=
  match lit, s with
  | "", _ => Some s
  | String a l', String b s' => if decide (a = b) then expect l' s' else None
  | _, "" => None
  end.

Definition hex_val (c : ascii) : option Z :=
  let n := code c in
  if is_digit c then Some (n - 48)
  else if (97 <=? n) && (n <=? 102) then Some (n - 87)
  else if (65 <=? n) && (n <=? 70) then Some (n - 55)
  else None.

(** Four hex digits. *)
Definition hex4 (s : string) : option (Z * string) :=
  match s with
  | String a (String b (String c (String d r))) =>
      x ← hex_val a; y ← hex_val b; z ← hex_val c; t ← hex_val d;
      Some (x * 4096 + y * 256 + z * 16 + t, r)
  | _ => None
  end.

Definition chr (n : Z) : ascii := ascii_of_N (Z.to_N n).

(** [utf8.AppendRune] *)
Definition utf8 (r : Z) : string :=
  if r <? 128 then String (chr r) ""
  else if r <? 2048 then String (chr (192 + r / 64)) (String (chr (128 + r mod 64)) "")
  else if r <? 65536 then
    String (chr (224 + r / 4096)) (String (chr (128 + r / 64 mod 64)) (String (chr (128 + r mod 64)) ""))
  else String (chr (240 + r / 262144)) (String (chr (128 + r / 4096 mod 64))
         (String (chr (128 + r / 64 mod 64)) (String (chr (128 + r mod 64)) ""))).

Definition surrogate (r : Z) : bool := (55296 <=? r) && (r <? 57344).

(** The character after a backslash, other than [u]. *)
Definition unescape (c : ascii) : option ascii :=
  match code c with
  | 34 => Some c | 92 => Some c | 47 => Some c
  | 98 => Some (chr 8) | 102 => Some (chr 12) | 110 => Some (chr 10)
  | 114 => Some (chr 13) | 116 => Some (chr 9)
  | _ => None
  end.

(** The body of a string literal, after its opening quote.  A high surrogate
    followed by an escaped low one is one rune; any other surrogate is U+FFFD. *)
Fixpoint string_body (fuel : nat) (s : string) : option (string * string) :=
  match fuel with
  | O => None
  | S f =>
      match s with
      | "" => None
      | String c r =>
          let n := code c in
          if n =? 34 then Some ("", r)
          else if n <? 32 then None
          else if negb (n =? 92) then '(b, k) ← string_body f r; Some (String c b, k)
          else match r with
               | "" => None
               | String e r' =>
                   if code e =? 117 then
                     '(x, r1) ← hex4 r';
                     let lone := '(b, k) ← string_body f r1; Some (utf8 65533 +:+ b, k) in
                     if negb (surrogate x) then '(b, k) ← string_body f r1; Some (utf8 x +:+ b, k)
                     else match expect "\u" r1 with
                          | Some r2 =>
                              '(y, r3) ← hex4 r2;
                              if (x <? 56320) && (56320 <=? y) && (y <? 57344) then
                                '(b, k) ← string_body f r3;
                                Some (utf8 ((x - 55296) * 1024 + (y - 56320) + 65536) +:+ b, k)
                              else lone
                          | None => lone
                          end
                   else ch ← unescape e; '(b, k) ← string_body f r'; Some (String ch b, k)
               end
      end
  end.

(** ** Numbers *)
(** Digits at the head of [s], and the rest. *)
Fixpoint digits (s : string) : string * string :=
  match s with
  | String c r => if is_digit c then let '(d, k) := digits r in (String c d, k) else ("", s)
  | "" => ("", "")
  end.

(** An integer part: 0, or digits that do not begin with 0. *)
Definition int_part (s : string) : option (string * string) :=
  match s with
  | String c r =>
      if code c =? 48 then Some ("0", r)
      else match digits s with ("", _) => None | p => Some p end
  | "" => None
  end.

Definition frac_part (s : string) : option (string * string) :=
  match s with
  | String c r =>
      if code c =? 46 then match digits r with ("", _) => None | (d, k) => Some (String c d, k) end
      else Some ("", s)
  | "" => Some ("", "")
  end.

Definition exp_part (s : string) : option (string * string) :=
  match s with
  | String c r =>
      if (code c =? 101) || (code c =? 69) then
        let '(sg, r') := match r with
                         | String d r1 => if (code d =? 43) || (code d =? 45) then (String d "", r1) else ("", r)
                         | "" => ("", "")
                         end in
        match digits r' with ("", _) => None | (d, k) => Some (String c (sg +:+ d), k) end
      else Some ("", s)
  | "" => Some ("", "")
  end.

(** A number literal at the head of [s]. *)
Definition number (s : string) : option (string * string) :=
  let '(sg, s1) := match s with
                   | String c r => if code c =? 45 then (String c "", r) else ("", s)
                   | "" => ("", "")
                   end in
  '(i, s2) ← int_part s1; '(fr, s3) ← frac_part s2; '(ex, s4) ← exp_part s3;
  Some (sg +:+ i +:+ fr +:+ ex, s4).

(** ** Values *)
Fixpoint value (fuel : nat) (s : string) : option (json * string) :=
  match fuel with
  | O => None
  | S f =>
      match skip_ws s with
      | "" => None
      | String c r =>
          let n := code c in
          if n =? 34 then '(b, k) ← string_body (String.length s) r; Some (JStr b, k)
          else if n =? 123 then
            match skip_ws r with
            | String c' r' => if code c' =? 125 then Some (JObj [], r')
                              else '(m, k) ← members f (String c' r'); Some (JObj m, k)
            | "" => None
            end
          else if n =? 91 then
            match skip_ws r with
            | String c' r' => if code c' =? 93 then Some (JArr [], r')
                              else '(l, k) ← elements f (String c' r'); Some (JArr l, k)
            | "" => None
            end
          else match expect "true" (String c r), expect "false" (String c r), expect "null" (String c r) with
               | Some k, _, _ => Some (JBool true, k)
               | _, Some k, _ => Some (JBool false, k)
               | _, _, Some k => Some (JNull, k)
               | _, _, _ => '(l, k) ← number (String c r); Some (JNum l, k)
               end
      end
  end
with members (fuel : nat) (s : string) : option (list (string * json) * string) :=
  match fuel with
  | O => None
  | S f =>
      match skip_ws s with
      | String c r =>
          if code c =? 34 then
            '(name, r1) ← string_body (String.length s) r;
            match skip_ws r1 with
            | String c1 r2 =>
                if code c1 =? 58 then
                  '(v, r3) ← value f r2;
                  match skip_ws r3 with
                  | String c2 r4 =>
                      if code c2 =? 44 then '(m, k) ← members f r4; Some ((name, v) :: m, k)
                      else if code c2 =? 125 then Some ([(name, v)], r4)
                      else None
                  | "" => None
                  end
                else None
            | "" => None
            end
          else None
      | "" => None
      end
  end
with elements (fuel : nat) (s : string) : option (list json * string) :=
  match fuel with
  | O => None
  | S f =>
      '(v, r) ← value f s;
      match skip_ws r with
      | String c r1 =>
          if code c =? 44 then '(l, k) ← elements f r1; Some (v :: l, k)
          else if code c =? 93 then Some ([v], r1)
          else None
      | "" => None
      end
  end.

(** [json.Unmarshal]: one value and only space after it.  Each call consumes a
    byte before it recurses, so the length of the input is fuel enough. *)
Definition json_parse (s : string) : option json :=
  '(v, k) ← value (S (2 * String.length s)) s;
  match skip_ws k with "" => Some v | _ => None end.

(** ** Lookups *)
(** A key of a [map[string]any]: exact, the last member wins. *)
Definition map_get (k : string) (m : list (string * json)) : option json :=
  snd <$> last (filter (λ p, p.1 = k) m).
(** The [alg], [kid] of a header: present and a string. *)
Definition get_string (k : string) (m : list (string * json)) : string :=
  match map_get k m with Some (JStr s) => s | _ => "" end.

(** Single quotes for double ones, to write documents in this file. *)
Fixpoint quoted (s : string) : string :=
  match s with
  | "" => ""
  | String c r => String (if code c =? 39 then chr 34 else c) (quoted r)
  end.

Example parses :
  json_parse (quoted "{ 'a' : [1, -2.5e3, true, null], 'b':{'c':'x\u0041\n'}}")
  = Some (JObj [("a", JArr [JNum "1"; JNum "-2.5e3"; JBool true; JNull]);
                ("b", JObj [("c", JStr (String "x" (String "A" (String (chr 10) ""))))])]).
Proof. by vm_compute. Qed.
Example refuses :
  json_parse (quoted "{'a':01}") = None ∧ json_parse "[1,]" = None ∧ json_parse "1 2" = None.
Proof. by vm_compute. Qed.
