(* ===== verification/Bytes.v ===== *)
(** * Bytes: characters as numbers and big-endian integers

    The byte/number conversions the encodings share, and the part of
    [math/big] the key code uses: [SetBytes] ([be_value]), [Bytes]
    ([be_bytes]), [FillBytes] ([be_fill]) and [BitLen] ([bit_len]). *)
From S2P Require Import Prelude GoStd Json.
From Stdlib Require Import Ascii.
Open Scope string_scope.
Open Scope Z_scope.

(** ** Characters *)
Lemma code_range c : 0 ≤ code c < 256.
Proof. unfold code. pose proof (N_ascii_bounded c). lia. Qed.
Lemma chr_code c : chr (code c) = c.
Proof. unfold chr, code. rewrite N2Z.id. apply ascii_N_embedding. Qed.
Lemma code_chr n : 0 ≤ n < 256 → code (chr n) = n.
Proof. intros Hn. unfold chr, code. rewrite N_ascii_embedding by lia. lia. Qed.

Ltac divmod := Z.to_euclidean_division_equations; lia.

Lemma string_len_ind (P : string → Prop) :
  (∀ s, (∀ s', (String.length s' < String.length s)%nat → P s') → P s) → ∀ s, P s.
Proof.
  intros Hstep s. remember (String.length s) as n eqn:Hn. revert s Hn.
  induction (lt_wf n) as [n _ IH]. intros s ->. apply Hstep. intros s' Hs'. by eapply IH.
Qed.

Lemma string_app_length (a b : string) : String.length (a +:+ b) = (String.length a + String.length b)%nat.
Proof. induction a as [|c a IH]; [done|]. rewrite string_app_cons. cbn. by rewrite IH. Qed.

(** [strings.Cut] and [strings.SplitN(s, sep, 2)] for a one-byte separator. *)
Fixpoint Cut (sep : Z) (s : string) : option (string * string) :=
  match s with
  | "" => None
  | String c r => if code c =? sep then Some ("", r)
                  else '(h, t) ← Cut sep r; Some (String c h, t)
  end.

Lemma Cut_some sep s h t :
  Cut sep s = Some (h, t) → s = h +:+ String (chr sep) t ∧ Cut sep h = None.
Proof.
  revert h t. induction s as [|c r IH]; intros h t; [done|]. cbn [Cut].
  destruct (Z.eqb_spec (code c) sep) as [E|E].
  - intros [= <- <-]. split; [|done]. by rewrite <- E, chr_code.
  - destruct (Cut sep r) as [[h' t']|]; [|done]. cbn. intros [= <- <-].
    destruct (IH h' t' eq_refl) as [-> Hn]. split; [done|]. cbn. apply Z.eqb_neq in E. by rewrite E, Hn.
Qed.
Lemma Cut_app sep h t :
  0 ≤ sep < 256 → Cut sep h = None → Cut sep (h +:+ String (chr sep) t) = Some (h, t).
Proof.
  intros Hs. induction h as [|c r IH].
  - intros _. rewrite string_app_nil_l. cbn. rewrite code_chr by done. by rewrite Z.eqb_refl.
  - rewrite string_app_cons. cbn [Cut]. destruct (code c =? sep); [done|].
    destruct (Cut sep r) as [[]|]; [done|]. intros _. by rewrite IH.
Qed.

Definition upper_ascii (c : ascii) : ascii :=
  if (97 <=? code c) && (code c <=? 122) then chr (code c - 32) else c.
(** [strings.ToUpper] of ASCII text. *)
Fixpoint ToUpper (s : string) : string :=
  match s with "" => "" | String c r => String (upper_ascii c) (ToUpper r) end.

(** ** Big-endian integers *)
Fixpoint be_acc (acc : Z) (s : string) : Z :=
  match s with "" => acc | String c r => be_acc (acc * 256 + code c) r end.
Definition be_value (s : string) : Z := be_acc 0 s.

Fixpoint be_fill (n : nat) (z : Z) : string :=
  match n with
  | O => ""
  | S n' => String (chr (z / 256 ^ Z.of_nat n' mod 256)) (be_fill n' z)
  end.

Definition bit_len (z : Z) : Z := if z =? 0 then 0 else Z.log2 z + 1.
Definition be_bytes (z : Z) : string := be_fill (Z.to_nat ((bit_len z + 7) / 8)) z.

Lemma be_fill_length n z : String.length (be_fill n z) = n.
Proof. induction n as [|n IH]; [done|]. cbn. by rewrite IH. Qed.

Lemma be_acc_fill n z acc : be_acc acc (be_fill n z) = acc * 256 ^ Z.of_nat n + z mod 256 ^ Z.of_nat n.
Proof.
  revert acc. induction n as [|n IH]; intros acc; cbn [be_acc be_fill].
  - cbn. rewrite Z.mod_1_r. lia.
  - rewrite IH, code_chr by (apply Z.mod_pos_bound; lia).
    rewrite Nat2Z.inj_succ, Z.pow_succ_r by lia. set (p := 256 ^ Z.of_nat n).
    assert (0 < p) by (apply Z.pow_pos_nonneg; lia).
    rewrite (Z.mul_comm 256 p), (Z.rem_mul_r z p 256) by lia. lia.
Qed.
Lemma be_value_fill n z : be_value (be_fill n z) = z mod 256 ^ Z.of_nat n.
Proof. apply be_acc_fill. Qed.

Lemma be_acc_range s acc : 0 ≤ acc → acc * 256 ^ Z.of_nat (String.length s) ≤ be_acc acc s
    < (acc + 1) * 256 ^ Z.of_nat (String.length s).
Proof.
  revert acc. induction s as [|c s IH]; intros acc Ha.
  - cbn. lia.
  - cbn [be_acc String.length]. rewrite Nat2Z.inj_succ, Z.pow_succ_r by lia.
    pose proof (code_range c). specialize (IH (acc * 256 + code c)). nia.
Qed.
Lemma be_value_range s : 0 ≤ be_value s < 256 ^ Z.of_nat (String.length s).
Proof. pose proof (be_acc_range s 0). unfold be_value. lia. Qed.

(** The bytes of a string are those of its value at its length. *)
Lemma be_fill_value s : be_fill (String.length s) (be_value s) = s.
Proof.
  assert (Hg : ∀ acc, 0 ≤ acc → be_fill (String.length s) (be_acc acc s) = s); [|by apply Hg].
  induction s as [|c s IH]; intros acc Ha; [done|]. cbn [String.length be_fill be_acc].
  pose proof (code_range c). rewrite IH by lia. f_equal.
  pose proof (be_acc_range s (acc * 256 + code c)) as Hr.
  set (p := 256 ^ Z.of_nat (String.length s)) in *. assert (0 < p) by (apply Z.pow_pos_nonneg; lia).
  assert (Hq : be_acc (acc * 256 + code c) s / p = acc * 256 + code c)
    by (symmetry; apply (Z.div_unique_pos _ _ _ (be_acc (acc * 256 + code c) s - p * (acc * 256 + code c))); nia).
  by rewrite Hq, Z.add_comm, Z_mod_plus_full, Z.mod_small, chr_code by lia.
Qed.

Lemma bit_len_bound z : 0 ≤ z → z < 256 ^ ((bit_len z + 7) / 8).
Proof.
  intros Hz. unfold bit_len. destruct (Z.eqb_spec z 0) as [->|Hne]; [done|].
  change 256 with (2 ^ 8). rewrite <- Z.pow_mul_r by (pose proof (Z.log2_nonneg z); divmod).
  destruct (Z.log2_spec z ltac:(lia)) as [_ Hlt].
  eapply Z.lt_le_trans; [exact Hlt|]. apply Z.pow_le_mono_r; [lia|]. divmod.
Qed.

Lemma be_value_bytes z : 0 ≤ z → be_value (be_bytes z) = z.
Proof.
  intros Hz. unfold be_bytes. rewrite be_value_fill.
  assert (0 ≤ (bit_len z + 7) / 8).
  { unfold bit_len. case_match; [done|]. pose proof (Z.log2_nonneg z). divmod. }
  rewrite Z2Nat.id by done. apply Z.mod_small. split; [done|]. by apply bit_len_bound.
Qed.

Lemma be_bytes_inj a b : 0 ≤ a → 0 ≤ b → be_bytes a = be_bytes b → a = b.
Proof. intros Ha Hb E. rewrite <- (be_value_bytes a), <- (be_value_bytes b) by done. by rewrite E. Qed.

Lemma be_fill_inj n a b :
  0 ≤ a < 256 ^ Z.of_nat n → 0 ≤ b < 256 ^ Z.of_nat n → be_fill n a = be_fill n b → a = b.
Proof.
  intros Ha Hb E. apply (f_equal be_value) in E. rewrite !be_value_fill, !Z.mod_small in E by done. done.
Qed.

(** [binary.BigEndian.Uint32] of the first four bytes. *)
Definition Uint32 (s : string) : Z := be_value s.

(** ** Slices *)
Fixpoint drop_str (n : nat) (s : string) : string :=
  match n, s with S n', String _ r => drop_str n' r | _, _ => s end.
Fixpoint take_str (n : nat) (s : string) : string :=
  match n, s with S n', String c r => String c (take_str n' r) | _, _ => "" end.

Lemma take_drop_app (a b : string) n :
  String.length a = n → take_str n (a +:+ b) = a ∧ drop_str n (a +:+ b) = b.
Proof.
  revert n. induction a as [|c a IH]; intros n Hn; cbn in Hn; subst n; [by destruct b|].
  rewrite string_app_cons. cbn. destruct (IH _ eq_refl) as [-> ->]. done.
Qed.

(** ** Six digits: [fmt.Sprintf("%06d", n)] *)
Fixpoint zeros (n : nat) : string := match n with O => "" | S n' => String "0"%char (zeros n') end.
Definition Sprintf06d (n : Z) : string :=
  let d := FormatInt n in zeros (6 - String.length d) +:+ d.

Lemma length_fmt fuel n acc (k : nat) :
  0 ≤ n < 10 ^ Z.of_nat (S k) → (String.length (fmt_digits fuel n acc) ≤ S k + String.length acc)%nat.
Proof.
  revert fuel n acc. induction k as [|k IH]; intros fuel n acc Hn; destruct fuel as [|fuel]; cbn [fmt_digits];
    try (cbn; lia).
  - rewrite Z.div_small by (cbn in Hn; lia). cbn. lia.
  - case_match; [cbn; lia|]. etrans; [apply IH|cbn; lia].
    split; [apply Z.div_pos; lia|]. apply Z.div_lt_upper_bound; [lia|].
    rewrite (Nat2Z.inj_succ (S k)), Z.pow_succ_r in Hn by lia. lia.
Qed.

Lemma length_zeros n : String.length (zeros n) = n.
Proof. induction n; cbn; congruence. Qed.
Lemma zeros_digits n s : uint_digits s → uint_digits (zeros n +:+ s).
Proof. intros Hs. induction n as [|n IH]; [done|]. cbn [zeros]. rewrite string_app_cons. by split. Qed.
Lemma zeros_value n s : digits_value (zeros n +:+ s) 0 = digits_value s 0.
Proof. induction n as [|n IH]; [done|]. cbn [zeros]. rewrite string_app_cons. cbn. done. Qed.

Definition six_digits (c : string) : Prop := String.length c = 6%nat ∧ uint_digits c.

Lemma Sprintf06d_spec v : 0 ≤ v < 1000000 → six_digits (Sprintf06d v) ∧ digits_value (Sprintf06d v) 0 = v.
Proof.
  intros Hr. unfold Sprintf06d, six_digits, FormatInt. cbn zeta. rewrite (proj2 (Z.ltb_ge v 0)) by lia.
  assert (Hl : (String.length (FormatUint v) ≤ 6)%nat).
  { unfold FormatUint. etrans; [apply (length_fmt _ _ _ 5); cbn; lia|cbn; lia]. }
  split_and!.
  - rewrite string_app_length, length_zeros. lia.
  - apply zeros_digits, FormatUint_digits.
  - rewrite zeros_value. apply FormatUint_value. lia.
Qed.
