(* ===== verification/GoTime.v ===== *)
(** * GoTime: instants as text

    The part of Go's package time the escrow uses: an instant, in nanoseconds
    since 1970 in UTC, rendered as RFC 3339 by [Time.MarshalJSON] and read back
    by [Time.UnmarshalJSON].  [civil_of_days] and [days_of_civil] are the
    proleptic Gregorian calendar, with years that begin in March. *)
From S2P Require Import Prelude GoStd Bytes.
From Stdlib Require Import Ascii.
Open Scope string_scope.
Open Scope Z_scope.

(** ** The calendar *)
(** Days since 0000-03-01, in and out of a cycle. *)
Definition era_days : Z := 146097.
Definition epoch_shift : Z := 719468.

(** Year of the cycle, month counted from March, day of the month, of a day of
    the cycle. *)
Definition cycle_civil (doe : Z) : Z * Z * Z :=
  let c := Z.min (doe / 36524) 3 in          (* centuries *)
  let r := doe - c * 36524 in
  let q := r / 1461 in                       (* spans of four years *)
  let r := r - q * 1461 in
  let y := Z.min (r / 365) 3 in
  let doy := r - y * 365 in
  let mp := (5 * doy + 2) / 153 in
  (100 * c + 4 * q + y, mp, doy - (153 * mp + 2) / 5 + 1).
Definition cycle_day (yoe mp d : Z) : Z :=
  yoe * 365 + yoe / 4 - yoe / 100 + ((153 * mp + 2) / 5 + d - 1).

Definition civil_of_days (z : Z) : Z * Z * Z :=
  let s := z + epoch_shift in
  let '(yoe, mp, d) := cycle_civil (s mod era_days) in
  let m := if mp <? 10 then mp + 3 else mp - 9 in
  (yoe + s / era_days * 400 + (if m <=? 2 then 1 else 0), m, d).
Definition days_of_civil (y m d : Z) : Z :=
  let y' := if m <=? 2 then y - 1 else y in
  y' / 400 * era_days + cycle_day (y' mod 400) (if 2 <? m then m - 3 else m + 9) d - epoch_shift.

Definition leap (y : Z) : bool := (y mod 4 =? 0) && (negb (y mod 100 =? 0) || (y mod 400 =? 0)).
Definition days_in (m y : Z) : Z :=
  if m =? 2 then (if leap y then 29 else 28)
  else if (m =? 4) || (m =? 6) || (m =? 9) || (m =? 11) then 30 else 31.

(** ** Decimal fields *)
Definition pad (n : nat) (z : Z) : string :=
  let d := FormatUint z in zeros (n - String.length d) +:+ d.

(** [parseUint(s, min, max)] on the first [n] bytes. *)
Fixpoint all_digits (s : string) : bool :=
  match s with "" => true | String c r => is_digit c && all_digits r end.
Definition field (n : nat) (lo hi : Z) (s : string) : option (Z * string) :=
  let f := take_str n s in
  if negb ((String.length f =? n)%nat && all_digits f) then None
  else let x := digits_value f 0 in
       if (x <? lo) || (hi <? x) then None else Some (x, drop_str n s).
Definition byte (c : ascii) (s : string) : option string :=
  match s with String b r => if decide (b = c) then Some r else None | "" => None end.

(** ** RFC 3339 *)
(** [.999999999]: nine digits less the zeros at the end, or nothing. *)
Fixpoint trim_zeros (s : string) : string :=
  match s with
  | "" => ""
  | String c r => match trim_zeros r with
                  | "" => if decide (c = "0"%char) then "" else String c ""
                  | t => String c t
                  end
  end.
Definition frac (ns : Z) : string :=
  match trim_zeros (pad 9 ns) with "" => "" | t => String "." t end.

(** [Time.MarshalJSON], less the quotes: an error outside the years 0 to 9999. *)
Definition FormatRFC3339 (t : Z) : option string :=
  let sec := t / second in
  let '(y, m, d) := civil_of_days (sec / 86400) in
  let tod := sec mod 86400 in
  if (y <? 0) || (9999 <? y) then None
  else Some (pad 4 y +:+ "-" +:+ pad 2 m +:+ "-" +:+ pad 2 d +:+ "T" +:+
             pad 2 (tod / 3600) +:+ ":" +:+ pad 2 (tod / 60 mod 60) +:+ ":" +:+ pad 2 (tod mod 60) +:+
             frac (t mod second) +:+ "Z").

(** Digits after the point: the first nine count, the rest are dropped. *)
Definition nanos (s : string) : Z * string :=
  match byte "." s with
  | Some r =>
      let ds := take_digits r in
      if decide (ds = "") then (0, s)
      else let kept := take_str 9 ds in
           (digits_value (kept +:+ zeros (9 - String.length kept)) 0, drop_str (String.length ds) r)
  | None => (0, s)
  end.

(** The zone: [Z], or an offset in hours and minutes. *)
Definition zone (s : string) : option Z :=
  if decide (s = "Z") then Some 0
  else match s with
       | String c r =>
           '(h, r1) ← field 2 0 23 r; r2 ← byte ":" r1; '(mi, r3) ← field 2 0 59 r2;
           if negb (bool_decide (r3 = "")) then None
           else if decide (c = "+"%char) then Some (h * 3600 + mi * 60)
           else if decide (c = "-"%char) then Some (- (h * 3600 + mi * 60))
           else None
       | "" => None
       end.

(** [parseStrictRFC3339]. *)
Definition ParseRFC3339 (s : string) : option Z :=
  '(y, s) ← field 4 0 9999 s; s ← byte "-" s;
  '(m, s) ← field 2 1 12 s; s ← byte "-" s;
  '(d, s) ← field 2 1 (days_in m y) s; s ← byte "T" s;
  '(hh, s) ← field 2 0 23 s; s ← byte ":" s;
  '(mi, s) ← field 2 0 59 s; s ← byte ":" s;
  '(ss, s) ← field 2 0 59 s;
  let '(ns, s) := nanos s in
  off ← zone s;
  Some ((days_of_civil y m d * 86400 + hh * 3600 + mi * 60 + ss - off) * second + ns).

Example rfc_leap : FormatRFC3339 1709209845120000000 = Some "2024-02-29T12:30:45.12Z".
Proof. by vm_compute. Qed.
Example rfc_offset : ParseRFC3339 "2024-02-29T13:30:45.12+01:00" = Some 1709209845120000000.
Proof. by vm_compute. Qed.
Example rfc_refuses : ParseRFC3339 "2023-02-29T00:00:00Z" = None ∧ ParseRFC3339 "2023-02-28T0:00:00Z" = None.
Proof. by vm_compute. Qed.

(** ** Facts *)
Ltac dlia := subst; Z.to_euclidean_division_equations; lia.

(** The parts of a day of the cycle. *)
Definition cycle_ok (yoe mp d : Z) : Prop :=
  0 ≤ yoe < 400 ∧ 0 ≤ mp < 12 ∧
  1 ≤ d ≤ days_in (if mp <? 10 then mp + 3 else mp - 9) (if mp <? 10 then yoe else yoe + 1).

(** Every month of a year that begins in March, from its day number. *)
Lemma month_ok doy y :
  0 ≤ doy ≤ 365 → (doy = 365 → leap y = true) →
  let mp := (5 * doy + 2) / 153 in
  0 ≤ mp < 12 ∧ 1 ≤ doy - (153 * mp + 2) / 5 + 1 ≤ days_in (if mp <? 10 then mp + 3 else mp - 9) y.
Proof.
  intros Hd Hl mp. assert (Hm : 0 ≤ mp < 12) by (unfold mp; dlia). split; [done|].
  assert (Hu : doy - (153 * mp + 2) / 5 + 1 ≤ (153 * (mp + 1) + 2) / 5 - (153 * mp + 2) / 5) by (unfold mp; dlia).
  split; [unfold mp; dlia|].
  assert (Hc : mp = 0 ∨ mp = 1 ∨ mp = 2 ∨ mp = 3 ∨ mp = 4 ∨ mp = 5 ∨ mp = 6 ∨ mp = 7 ∨ mp = 8 ∨ mp = 9 ∨ mp = 10 ∨ mp = 11) by lia.
  destruct (decide (mp = 11)) as [E|Hn].
  - rewrite E. change ((153 * 11 + 2) / 5) with 337. change (days_in _ _) with (if leap y then 29 else 28).
    assert (doy = 365 → leap y = true) by done. destruct (leap y); [lia|].
    assert (doy ≠ 365) by naive_solver. lia.
  - clearbody mp. revert Hu. clear -Hc Hn.
    repeat (destruct Hc as [->|Hc]; [by vm_compute (days_in _ _); dlia|]). by subst.
Qed.

Lemma cycle_spec doe yoe mp d :
  0 ≤ doe < era_days → cycle_civil doe = (yoe, mp, d) → cycle_ok yoe mp d ∧ cycle_day yoe mp d = doe.
Proof.
  unfold cycle_civil, era_days. set (c := Z.min _ 3). set (q := _ / 1461). set (y := Z.min _ 3).
  intros Hd [= <- <- <-]. set (doy := _ - y * 365).
  assert (Hc : 0 ≤ c ≤ 3 ∧ c * 36524 ≤ doe ∧ (c = 3 ∨ doe < (c + 1) * 36524)) by (unfold c; dlia).
  assert (Hq : 0 ≤ q ≤ 24 ∧ 0 ≤ doe - c * 36524 - q * 1461 < 1461) by (unfold q; dlia).
  assert (Hy : 0 ≤ y ≤ 3 ∧ 0 ≤ doy ≤ 365 ∧ (doy = 365 → y = 3)) by (unfold doy, y; dlia).
  assert (Hl : doy = 365 → leap (100 * c + 4 * q + y + 1) = true).
  { intros E. assert (y = 3) by naive_solver. unfold leap, doy in *.
    rewrite (proj2 (Z.eqb_eq _ 0)) by dlia. cbn.
    destruct (Z.eqb_spec ((100 * c + 4 * q + y + 1) mod 100) 0); [|done].
    rewrite (proj2 (Z.eqb_eq _ 0)); [done|]. dlia. }
  destruct (month_ok doy _ ltac:(lia) Hl) as [Hm Hday]. split; [split_and!; try lia|].
  - destruct (Z.ltb_spec ((5 * doy + 2) / 153) 10) as [Hlt|Hlt]; [|lia].
    etrans; [apply Hday|]. unfold days_in. rewrite (proj2 (Z.eqb_neq _ 2)) by lia. done.
  - unfold cycle_day. unfold doy. dlia.
Qed.

Lemma leap_cycle y k : leap (y + k * 400) = leap y.
Proof.
  unfold leap.
  replace (y + k * 400) with (y + (k * 100) * 4) by lia. rewrite Z_mod_plus_full.
  replace (y + k * 100 * 4) with (y + (k * 4) * 100) by lia. rewrite Z_mod_plus_full.
  replace (y + k * 4 * 100) with (y + k * 400) by lia. by rewrite Z_mod_plus_full.
Qed.
Lemma days_in_cycle m y k : days_in m (y + k * 400) = days_in m y.
Proof. unfold days_in. by rewrite leap_cycle. Qed.

(** Every day has one date, valid in its month. *)
Lemma civil_round z y m d :
  civil_of_days z = (y, m, d) → days_of_civil y m d = z ∧ 1 ≤ m ≤ 12 ∧ 1 ≤ d ≤ days_in m y.
Proof.
  unfold civil_of_days. set (s := z + epoch_shift).
  pose proof (Z.mod_pos_bound s era_days ltac:(done)) as Hr.
  destruct (cycle_civil (s mod era_days)) as [[yoe mp] d0] eqn:Ec.
  apply cycle_spec in Ec as [(Hyo & Hmo & Hdo) Ec]; [|done].
  intros [= <- <- <-]. pose proof (Z.div_mod s era_days ltac:(done)) as Hs.
  destruct (Z.ltb_spec mp 10) as [Hmp|Hmp].
  - rewrite (proj2 (Z.leb_gt (mp + 3) 2)) by lia. rewrite Z.add_0_r, days_in_cycle. split_and!; try lia.
    unfold days_of_civil. rewrite (proj2 (Z.leb_gt (mp + 3) 2)), (proj2 (Z.ltb_lt 2 (mp + 3))) by lia.
    rewrite Z_div_plus_full, Z.div_small, Z_mod_plus_full, Z.mod_small by lia.
    replace (mp + 3 - 3) with mp by lia. rewrite Ec. unfold s in *. lia.
  - rewrite (proj2 (Z.leb_le (mp - 9) 2)) by lia.
    replace (yoe + s / era_days * 400 + 1) with (yoe + 1 + s / era_days * 400) by lia.
    rewrite days_in_cycle. split_and!; try lia.
    unfold days_of_civil. rewrite (proj2 (Z.leb_le (mp - 9) 2)), (proj2 (Z.ltb_ge 2 (mp - 9))) by lia.
    replace (yoe + 1 + s / era_days * 400 - 1) with (yoe + s / era_days * 400) by lia.
    rewrite Z_div_plus_full, Z.div_small, Z_mod_plus_full, Z.mod_small by lia.
    replace (mp - 9 + 9) with mp by lia. rewrite Ec. unfold s in *. lia.
Qed.

Lemma pad_spec n z :
  0 ≤ z < 10 ^ Z.of_nat (S n) →
  String.length (pad (S n) z) = S n ∧ uint_digits (pad (S n) z) ∧ digits_value (pad (S n) z) 0 = z.
Proof.
  intros Hz. unfold pad. assert (Hl : (String.length (FormatUint z) ≤ S n)%nat).
  { unfold FormatUint. etrans; [by apply length_fmt|cbn; lia]. }
  split_and!.
  - rewrite string_app_length, length_zeros. lia.
  - apply zeros_digits, FormatUint_digits.
  - rewrite zeros_value. apply FormatUint_value. lia.
Qed.
Lemma all_digits_spec s : uint_digits s → all_digits s = true.
Proof. induction s as [|c s IH]; [done|]. intros [Hc Hs]. cbn. by rewrite Hc, IH. Qed.

Lemma field_pad n lo hi z r :
  0 ≤ z < 10 ^ Z.of_nat (S n) → lo ≤ z ≤ hi → field (S n) lo hi (pad (S n) z +:+ r) = Some (z, r).
Proof.
  intros Hz Hb. destruct (pad_spec n z Hz) as (Hl & Hd & Hv). unfold field.
  destruct (take_drop_app _ r _ Hl) as [-> ->].
  rewrite Hl, Nat.eqb_refl, all_digits_spec, Hv by done. cbn [andb negb].
  rewrite (proj2 (Z.ltb_ge z lo)), (proj2 (Z.ltb_ge hi z)) by lia. done.
Qed.

(** *** Fractions *)
Lemma trim_zeros_spec s : ∃ k, s = trim_zeros s +:+ zeros k.
Proof.
  induction s as [|c s [k IH]]; [by exists 0%nat|]. cbn [trim_zeros].
  destruct (trim_zeros s) as [|d t] eqn:Et.
  - rewrite string_app_nil_l in IH. subst s. case_decide as Hc; [subst; by exists (S k)|by exists k].
  - exists k. rewrite string_app_cons. by rewrite <-IH.
Qed.
Lemma take_digits_app a b : uint_digits a → take_digits b = "" → take_digits (a +:+ b) = a.
Proof.
  intros Ha Hb. induction a as [|c a IH]; [done|]. destruct Ha as [Hc Ha].
  rewrite string_app_cons. cbn. by rewrite Hc, IH.
Qed.
Lemma take_str_short n s : (String.length s ≤ n)%nat → take_str n s = s.
Proof. revert n. induction s as [|c s IH]; intros [|n] Hn; cbn in *; try done; try lia. rewrite IH; [done|lia]. Qed.

Lemma nanos_frac ns r : 0 ≤ ns < second → take_digits r = "" → byte "." r = None → nanos (frac ns +:+ r) = (ns, r).
Proof.
  intros Hns Hr Hdot. destruct (pad_spec 8 ns) as (Hl & Hd & Hv); [unfold second in Hns; lia|].
  unfold frac. destruct (trim_zeros_spec (pad 9 ns)) as [k Hk].
  destruct (trim_zeros (pad 9 ns)) as [|c t] eqn:Et.
  - rewrite string_app_nil_l in *. unfold nanos. rewrite Hdot. f_equal.
    rewrite <-Hv, Hk. rewrite <-(string_app_nil_r (zeros k)), zeros_value. done.
  - set (f := String c t) in *. unfold nanos.
    change (byte "." (String "." f +:+ r)) with (Some (f +:+ r)). cbn beta iota.
    rewrite Hk in Hl, Hd, Hv. rewrite uint_digits_app in Hd. destruct Hd as [Hf _].
    rewrite take_digits_app by done. rewrite decide_False by done.
    rewrite string_app_length, length_zeros in Hl.
    rewrite take_str_short by lia. replace (9 - String.length f)%nat with k by lia.
    destruct (take_drop_app f r _ eq_refl) as [_ ->]. by rewrite Hv.
Qed.

Lemma byte_app c r : byte c (String c "" +:+ r) = Some r.
Proof. rewrite string_app_cons. cbn. by rewrite decide_True. Qed.
Ltac read_byte := cbn beta iota zeta delta [mbind option_bind]; rewrite ?byte_app; cbn beta iota zeta delta [mbind option_bind].

(** What [MarshalJSON] writes, [UnmarshalJSON] reads back. *)
Lemma ParseRFC3339_Format t s : FormatRFC3339 t = Some s → ParseRFC3339 s = Some t.
Proof.
  unfold FormatRFC3339. destruct (civil_of_days (t / second / 86400)) as [[y m] d] eqn:Ec.
  destruct ((y <? 0) || (9999 <? y)) eqn:Ey; [done|]. bool_hyps. intros [= <-].
  apply civil_round in Ec as (Hdays & Hm & Hd).
  assert (Hdi : days_in m y ≤ 31) by (unfold days_in; repeat case_match; lia).
  set (sec := t / second) in *. set (tod := sec mod 86400).
  assert (Ht : 0 ≤ tod < 86400) by (unfold tod; dlia).
  assert (Hh : 0 ≤ tod / 3600 ≤ 23) by dlia. assert (Hmi : 0 ≤ tod / 60 mod 60 ≤ 59) by dlia.
  assert (Hs : 0 ≤ tod mod 60 ≤ 59) by dlia.
  unfold ParseRFC3339.
  rewrite (field_pad 3) by lia. read_byte. do 5 (rewrite (field_pad 1) by lia; read_byte).
  pose proof (Z.mod_pos_bound t second ltac:(done)) as Hns.
  rewrite nanos_frac by done. cbn [mbind option_bind]. unfold zone. rewrite decide_True by done. cbn [mbind option_bind].
  f_equal. rewrite Hdays. pose proof (Z.div_mod t second ltac:(done)).
  assert (Hsec : sec = sec / 86400 * 86400 + tod / 3600 * 3600 + tod / 60 mod 60 * 60 + tod mod 60) by (unfold tod; dlia).
  unfold sec in *. lia.
Qed.

(** Every instant of the years 0 to 9999 has a text. *)
Lemma FormatRFC3339_total t : 0 ≤ t < 253402300800 * second → is_Some (FormatRFC3339 t).
Proof.
  intros Ht. unfold FormatRFC3339. destruct (civil_of_days _) as [[y m] d] eqn:Ec.
  apply civil_round in Ec as (Hdays & Hm & Hd).
  assert (Hz : 0 ≤ t / second / 86400 < 2932897) by (unfold second in *; dlia).
  rewrite <-Hdays in Hz. clear Hdays Ht. unfold days_of_civil, cycle_day, epoch_shift, era_days in Hz.
  assert (Hdi : days_in m y ≤ 31) by (unfold days_in; repeat case_match; lia).
  assert (Hy : 0 ≤ y ≤ 9999).
  { destruct (Z.leb_spec m 2); destruct (Z.ltb_spec 2 m); dlia. }
  rewrite (proj2 (Z.ltb_ge y 0)), (proj2 (Z.ltb_ge 9999 y)) by lia. by eexists.
Qed.
