(* ===== verification/JsonEnc.v ===== *)
(** * JsonEnc: encoding/json, the writer

    [json.Marshal] of the values the program writes, compact and with Go's
    string escapes: quote, backslash and control characters, the characters
    HTML reserves, U+2028 and U+2029, and U+FFFD for bytes that are not UTF-8.
    [json_round_trip]: [Json.json_parse] reads back every value whose strings
    are UTF-8. *)
From S2P Require Import Prelude GoStd Bytes Json.
From Stdlib Require Import Ascii.
Open Scope string_scope.
Open Scope Z_scope.

(** ** Strings *)
Definition quote : ascii := chr 34.
Definition backslash : ascii := chr 92.
Definition hex_low (d : Z) : ascii := chr (if d <? 10 then 48 + d else 87 + d).

(** One byte below 128. *)
Definition escape (html : bool) (c : ascii) : string :=
  let n := code c in
  let short x := String backslash (String (chr x) "") in
  if (n =? 34) || (n =? 92) then String backslash (String c "")
  else if n =? 8 then short 98
  else if n =? 12 then short 102
  else if n =? 10 then short 110
  else if n =? 13 then short 114
  else if n =? 9 then short 116
  else if (n <? 32) || html && ((n =? 60) || (n =? 62) || (n =? 38))
  then String backslash (String (chr 117) (String (chr 48) (String (chr 48)
         (String (hex_low (n / 16)) (String (hex_low (n mod 16)) "")))))
  else String c "".

(** [utf8.DecodeRune]: the bytes of the rune at the head of [s], 0 when there is
    none, for a first byte of 128 or more. *)
Definition cont (lo hi : Z) (c : ascii) : bool := (lo <=? code c) && (code c <=? hi).
Definition rune_len (s : string) : nat :=
  match s with
  | String c (String c1 r) =>
      let n := code c in
      if (194 <=? n) && (n <=? 223) then (if cont 128 191 c1 then 2 else 0)%nat
      else match r with
      | String c2 r' =>
          if (224 <=? n) && (n <=? 239) then
            let lo := if n =? 224 then 160 else 128 in
            let hi := if n =? 237 then 159 else 191 in
            (if cont lo hi c1 && cont 128 191 c2 then 3 else 0)%nat
          else match r' with
          | String c3 _ =>
              if (240 <=? n) && (n <=? 244) then
                let lo := if n =? 240 then 144 else 128 in
                let hi := if n =? 244 then 143 else 191 in
                (if cont lo hi c1 && cont 128 191 c2 && cont 128 191 c3 then 4 else 0)%nat
              else 0%nat
          | "" => 0%nat
          end
      | "" => 0%nat
      end
  | _ => 0%nat
  end.

(** U+2028 and U+2029 are E2 80 A8 and E2 80 A9. *)
Definition line_separator (c c1 c2 : ascii) : bool :=
  (code c =? 226) && (code c1 =? 128) && ((code c2 =? 168) || (code c2 =? 169)).
Definition escape_separator (c2 : ascii) : string :=
  String backslash (String (chr 117) (String (chr 50) (String (chr 48) (String (chr 50)
    (String (chr (56 + (code c2 - 168))) ""))))).
Definition replacement : string :=
  String backslash (String (chr 117) (String (chr 102) (String (chr 102) (String (chr 102) (String (chr 100) ""))))).

Fixpoint appendString (html : bool) (s : string) : string :=
  match s with
  | "" => ""
  | String c r =>
      if code c <? 128 then escape html c +:+ appendString html r
      else match rune_len s, r with
           | 2%nat, String c1 r1 => String c (String c1 (appendString html r1))
           | 3%nat, String c1 (String c2 r2) =>
               (if line_separator c c1 c2 then escape_separator c2 else String c (String c1 (String c2 ""))) +:+ appendString html r2
           | 4%nat, String c1 (String c2 (String c3 r3)) => String c (String c1 (String c2 (String c3 (appendString html r3))))
           | _, _ => replacement +:+ appendString html r
           end
  end.

(** [utf8.ValidString]. *)
Fixpoint valid_utf8 (s : string) : bool :=
  match s with
  | "" => true
  | String c r =>
      if code c <? 128 then valid_utf8 r
      else match rune_len s, r with
           | 2%nat, String _ r1 => valid_utf8 r1
           | 3%nat, String _ (String _ r2) => valid_utf8 r2
           | 4%nat, String _ (String _ (String _ r3)) => valid_utf8 r3
           | _, _ => false
           end
  end.

Definition json_string (html : bool) (s : string) : string := String quote (appendString html s +:+ String quote "").

(** ** Values *)
Fixpoint commas (l : list string) : string :=
  match l with
  | [] => ""
  | x :: l' => x +:+ match l' with [] => "" | _ => "," +:+ commas l' end
  end.
Fixpoint encode (html : bool) (v : json) : string :=
  match v with
  | JNull => "null"
  | JBool true => "true"
  | JBool false => "false"
  | JNum l => l
  | JStr s => json_string html s
  | JArr l => "[" +:+ commas (map (encode html) l) +:+ "]"
  | JObj m => "{" +:+ commas (map (λ p, json_string html p.1 +:+ ":" +:+ encode html p.2) m) +:+ "}"
  end.

(** [json.Marshal] escapes HTML; an encoder may be told not to. *)
Definition Marshal : json → string := encode true.

Example marshal_escapes :
  Marshal (JObj [("a<b", JStr (String (chr 10) (String quote "x"))); ("n", JArr [JNum "2"; JNull])])
  = quoted "{'a\u003cb':'\n\" +:+ quoted "'x','n':[2,null]}".
Proof. by vm_compute. Qed.

(** ** The reader undoes the writer *)
(** *** Strings *)
Definition then_ (c : ascii) (r : option (string * string)) : option (string * string) :=
  '(b, k) ← r; Some (String c b, k).

Lemma body_escape html c f rest :
  code c < 128 → string_body (S f) (escape html c +:+ rest) = then_ c (string_body f rest).
Proof.
  intros Hc. destruct html, c as [[] [] [] [] [] [] [] []]; try (exfalso; by vm_compute in Hc);
    unfold then_; cbn -[string_body]; unfold escape; cbn -[string_body]; rewrite ?string_app_cons, ?string_app_nil_l; reflexivity.
Qed.
Lemma body_raw c f rest : 128 ≤ code c → string_body (S f) (String c rest) = then_ c (string_body f rest).
Proof.
  intros Hc. cbn [string_body]. rewrite (proj2 (Z.eqb_neq _ 34)), (proj2 (Z.ltb_ge _ 32)), (proj2 (Z.eqb_neq _ 92)) by lia.
  done.
Qed.
Lemma code_eq c n : 0 ≤ n < 256 → code c = n → c = chr n.
Proof. intros Hn <-. by rewrite chr_code. Qed.
Lemma body_u f s x rest :
  hex4 s = Some (x, rest) → surrogate x = false →
  string_body (S f) (String backslash (String (chr 117) s)) = ('(b, k) ← string_body f rest; Some (utf8 x +:+ b, k)).
Proof. intros Hx Hs. cbn [string_body]. change (code backslash) with 92. change (code (chr 117)) with 117. cbn -[hex4 utf8 string_body]. rewrite Hx. cbn -[utf8 string_body]. by rewrite Hs. Qed.
Lemma body_separator c c1 c2 f rest :
  line_separator c c1 c2 = true →
  string_body (S f) (escape_separator c2 +:+ rest) = then_ c (then_ c1 (then_ c2 (string_body f rest))).
Proof.
  unfold line_separator. rewrite !andb_true_iff, orb_true_iff, !Z.eqb_eq. intros [[H0 H1] H2].
  apply code_eq in H0 as ->, H1 as ->; [|lia..].
  assert (E2 : escape_separator c2 +:+ rest = String backslash (String (chr 117) (String (chr 50) (String (chr 48)
    (String (chr 50) (String (chr (56 + (code c2 - 168))) rest))))))
    by (unfold escape_separator; by rewrite !string_app_cons, string_app_nil_l).
  rewrite E2. clear E2.
  destruct H2 as [H2|H2]; apply code_eq in H2 as ->; try lia;
    (erewrite body_u by done; unfold then_; by destruct (string_body f rest) as [[b k]|]).
Qed.

Lemma rune_len_cases c r :
  128 ≤ code c →
  match rune_len (String c r), r with
  | 2%nat, String c1 _ => 128 ≤ code c1
  | 3%nat, String c1 (String c2 _) => 128 ≤ code c1 ∧ 128 ≤ code c2
  | 4%nat, String c1 (String c2 (String c3 _)) => 128 ≤ code c1 ∧ 128 ≤ code c2 ∧ 128 ≤ code c3
  | _, _ => True
  end.
Proof.
  intros Hc. destruct r as [|c1 [|c2 [|c3 r]]]; unfold rune_len, cont; repeat case_match; simplify_eq; bool_hyps; try done; lia.
Qed.

Lemma string_body_appendString html s f k :
  valid_utf8 s = true → (String.length (appendString html s) < f)%nat →
  string_body f (appendString html s +:+ String quote k) = Some (s, k).
Proof.
  revert f. induction s as [s IH] using string_len_ind. intros f Hv Hf.
  destruct s as [|c r]; [by destruct f; [inversion Hf|]|].
  cbn [appendString valid_utf8] in *. destruct f as [|f]; [inversion Hf|].
  destruct (Z.ltb_spec (code c) 128) as [Hc|Hc].
  - assert (escape html c ≠ "") by (unfold escape; by repeat case_match).
    rewrite string_app_assoc, body_escape, IH; try done; [cbn; lia|].
    rewrite string_app_length in Hf. destruct (escape html c); [done|cbn in Hf; lia].
  - pose proof (rune_len_cases c r Hc) as Hr.
    destruct (rune_len (String c r)) as [|[|[|[|[|n]]]]]; try done; destruct r as [|c1 r]; try done.
    + rewrite !string_app_cons. cbn in Hf. destruct f as [|f]; [lia|].
      rewrite !body_raw, IH; try done; [cbn|]; lia.
    + destruct r as [|c2 r]; [done|]. destruct Hr as [H1 H2]. rewrite string_app_length in Hf.
      destruct (line_separator c c1 c2) eqn:El.
      * rewrite string_app_assoc, (body_separator c c1 c2), IH; try done; [cbn; lia|cbn in Hf; lia].
      * rewrite !string_app_cons, string_app_nil_l. cbn in Hf. destruct f as [|[|f]]; [lia..|].
        rewrite !body_raw, IH; try done; [cbn|]; lia.
    + destruct r as [|c2 [|c3 r]]; try done. destruct Hr as (H1 & H2 & H3).
      rewrite !string_app_cons. cbn in Hf. destruct f as [|[|[|f]]]; [lia..|].
      rewrite !body_raw, IH; try done; [cbn|]; lia.
Qed.

(** *** Numbers: literals as the reader accepts them *)
Definition num_ok (l : string) : bool := bool_decide (number l = Some (l, "")).
(** What may follow a number: nothing, or a separator. *)
Definition stops (k : string) : Prop :=
  match k with "" => True | String c _ => code c = 44 ∨ code c = 93 ∨ code c = 125 end.
(** A scan goes on into [k] only as far as it did. *)
Definition more (k : string) (r : option (string * string)) : option (string * string) := '(l, t) ← r; Some (l, t +:+ k).

Lemma stops_digits k : stops k → digits k = ("", k).
Proof.
  destruct k as [|d k]; [done|]. cbn. unfold is_digit. intros Hk.
  by destruct (Z.leb_spec (code d) 57), (Z.leb_spec 48 (code d)); try lia.
Qed.
Lemma digits_more a k : stops k → digits (a +:+ k) = ((digits a).1, (digits a).2 +:+ k).
Proof.
  intros Hk. induction a as [|c a IH]; [rewrite string_app_nil_l; by apply stops_digits|].
  rewrite string_app_cons. cbn [digits]. destruct (is_digit c); [|done]. rewrite IH. by destruct (digits a).
Qed.
Lemma int_more a k : stops k → int_part (a +:+ k) = more k (int_part a).
Proof.
  intros Hk. destruct a as [|c a].
  - rewrite string_app_nil_l. unfold int_part. destruct k as [|d k]; [done|]. cbn in Hk.
    rewrite (proj2 (Z.eqb_neq _ 48)) by lia. by rewrite stops_digits.
  - rewrite string_app_cons. unfold int_part. destruct (code c =? 48); [done|]. rewrite <- string_app_cons, digits_more by done.
    destruct (digits (String c a)) as [[|] ?]; done.
Qed.
Lemma frac_more a k : stops k → frac_part (a +:+ k) = more k (frac_part a).
Proof.
  intros Hk. destruct a as [|c a].
  - rewrite string_app_nil_l. destruct k as [|d k]; [done|]. cbn in Hk. unfold frac_part. by rewrite (proj2 (Z.eqb_neq _ 46)) by lia.
  - rewrite string_app_cons. unfold frac_part. destruct (code c =? 46); [|done]. rewrite digits_more by done.
    destruct (digits a) as [[|] ?]; done.
Qed.
Lemma exp_more a k : stops k → exp_part (a +:+ k) = more k (exp_part a).
Proof.
  intros Hk. destruct a as [|c a].
  - rewrite string_app_nil_l. destruct k as [|d k]; [done|]. cbn in Hk. unfold exp_part.
    by rewrite (proj2 (Z.eqb_neq _ 101)), (proj2 (Z.eqb_neq _ 69)) by lia.
  - rewrite string_app_cons. unfold exp_part. destruct (_ || _); [|done].
    destruct a as [|d a].
    + rewrite string_app_nil_l. cbn [digits]. destruct k as [|e k]; [done|]. cbn in Hk.
      rewrite (proj2 (Z.eqb_neq (code e) 43)), (proj2 (Z.eqb_neq (code e) 45)) by lia. cbn [orb]. by rewrite stops_digits.
    + rewrite string_app_cons. destruct (_ || _); [|rewrite <- string_app_cons]; rewrite digits_more by done;
        (destruct (digits _) as [[|] ?]; done).
Qed.
Lemma number_more a k : stops k → number (a +:+ k) = more k (number a).
Proof.
  intros Hk. unfold number.
  assert (Hrest : ∀ sg s1, ('(i, s2) ← int_part (s1 +:+ k); '(fr, s3) ← frac_part s2; '(ex, s4) ← exp_part s3; Some (sg +:+ i +:+ fr +:+ ex, s4))
     = more k ('(i, s2) ← int_part s1; '(fr, s3) ← frac_part s2; '(ex, s4) ← exp_part s3; Some (sg +:+ i +:+ fr +:+ ex, s4))).
  { intros sg s1. rewrite int_more by done. destruct (int_part s1) as [[i s2]|]; [|done]. cbn [more mbind option_bind].
    rewrite frac_more by done. destruct (frac_part s2) as [[fr s3]|]; [|done]. cbn [more mbind option_bind].
    rewrite exp_more by done. by destruct (exp_part s3) as [[ex s4]|]. }
  destruct a as [|c a].
  - rewrite string_app_nil_l. destruct k as [|d k]; [done|]. cbn in Hk. rewrite (proj2 (Z.eqb_neq (code d) 45)) by lia.
    apply (Hrest "" "").
  - rewrite string_app_cons. destruct (code c =? 45); [apply Hrest|]. rewrite <- string_app_cons. apply Hrest.
Qed.
Lemma number_app l k : num_ok l = true → stops k → number (l +:+ k) = Some (l, k).
Proof. intros Hl Hk. apply bool_decide_eq_true in Hl. rewrite number_more, Hl by done. done. Qed.
(** A literal begins with a digit or a minus sign. *)
Lemma num_head l : num_ok l = true → ∃ c r, l = String c r ∧ (code c = 45 ∨ is_digit c = true).
Proof.
  intros Hl. apply bool_decide_eq_true in Hl. destruct l as [|c r]; [done|]. exists c, r. split; [done|].
  destruct (Z.eqb_spec (code c) 45) as [|Hc]; [by left|right]. unfold number in Hl. rewrite (proj2 (Z.eqb_neq _ _) Hc) in Hl.
  unfold int_part in Hl. destruct (Z.eqb_spec (code c) 48) as [E|]; [unfold is_digit; by rewrite E|].
  cbn [digits] in Hl. by destruct (is_digit c).
Qed.

(** *** Values *)
Lemma json_rect_list (P : json → Prop) :
  P JNull → (∀ b, P (JBool b)) → (∀ l, P (JNum l)) → (∀ s, P (JStr s)) →
  (∀ l, Forall P l → P (JArr l)) → (∀ m, Forall (λ p, P p.2) m → P (JObj m)) → ∀ v, P v.
Proof.
  intros Hn Hb Hl Hs Ha Ho. fix IH 1. intros [|b|l|s|l|m].
  - apply Hn.
  - apply Hb.
  - apply Hl.
  - apply Hs.
  - apply Ha. induction l as [|x l IHl]; constructor; [apply IH|apply IHl].
  - apply Ho. induction m as [|x m IHm]; constructor; [apply IH|apply IHm].
Qed.

(** UTF-8 strings and number literals throughout. *)
Fixpoint json_ok (v : json) : bool :=
  match v with
  | JNum l => num_ok l
  | JStr s => valid_utf8 s
  | JArr l => forallb json_ok l
  | JObj m => forallb (λ p, valid_utf8 p.1 && json_ok p.2) m
  | _ => true
  end.
(** Calls the reader nests for a value. *)
Fixpoint depth (v : json) : nat :=
  match v with
  | JArr l => S (foldr (λ x n, S (Nat.max (depth x) n)) 0%nat l)
  | JObj m => S (foldr (λ p n, S (Nat.max (depth p.2) n)) 0%nat m)
  | _ => 1%nat
  end.

(** Evaluate the tests on literal characters. *)
Ltac closed_bool t :=
  let b := eval vm_compute in t in
  lazymatch b with true => change t with true | false => change t with false end.
Ltac lex :=
  repeat (match goal with
  | |- context [json_space (Ascii ?a ?b ?c ?d ?e ?f ?g ?h)] => closed_bool (json_space (Ascii a b c d e f g h))
  | |- context [code ?c =? ?n] => closed_bool (code c =? n)
  end; cbv iota beta).

Definition parses_to (html : bool) (v : json) : Prop :=
  json_ok v = true → ∀ f k, (depth v ≤ f)%nat → stops k → value f (encode html v +:+ k) = Some (v, k).

Lemma json_string_value html s f k :
  valid_utf8 s = true → value (S f) (json_string html s +:+ k) = Some (JStr s, k).
Proof.
  intros Hs. unfold json_string. rewrite string_app_cons, string_app_assoc, string_app_cons, string_app_nil_l.
  cbn [value]. change (skip_ws (String quote ?r)) with (String quote r). cbn -[string_body String.length appendString].
  rewrite string_body_appendString; [done|done|]. cbn. rewrite string_app_length. lia.
Qed.

Lemma elements_parse html l f k :
  l ≠ [] → Forall (parses_to html) l → forallb json_ok l = true →
  (foldr (λ x n, S (Nat.max (depth x) n)) 0%nat l ≤ f)%nat →
  elements f (commas (map (encode html) l) +:+ "]" +:+ k) = Some (l, k).
Proof.
  revert f. induction l as [|x l IH]; intros f Hne Hall Hok Hf; [done|].
  inversion_clear Hall as [|? ? Hx Hl]. cbn [forallb] in Hok. apply andb_true_iff in Hok as [Hox Hol].
  cbn [foldr] in Hf. destruct f as [|f]; [lia|]. cbn [elements map commas]. rewrite string_app_assoc.
  destruct l as [|y l].
  - cbn [map]. rewrite string_app_nil_l, Hx; [done|done|lia|right; by left].
  - cbn [map]. rewrite string_app_assoc, Hx; [|done|lia|by left].
    cbn [mbind option_bind]. rewrite string_app_cons, string_app_nil_l. cbn [skip_ws]. lex.
    specialize (IH f). cbn [map] in IH. rewrite IH; [done|done|done|done|lia].
Qed.

Lemma members_parse html m f k :
  m ≠ [] → Forall (λ p, parses_to html p.2) m → forallb (λ p, valid_utf8 p.1 && json_ok p.2) m = true →
  (foldr (λ p n, S (Nat.max (depth p.2) n)) 0%nat m ≤ f)%nat →
  members f (commas (map (λ p, json_string html p.1 +:+ ":" +:+ encode html p.2) m) +:+ "}" +:+ k) = Some (m, k).
Proof.
  revert f. induction m as [|[n x] m IH]; intros f Hne Hall Hok Hf; [done|].
  inversion_clear Hall as [|? ? Hx Hm]. cbn [forallb fst snd] in Hok. rewrite !andb_true_iff in Hok.
  destruct Hok as [[Hn Hox] Hom]. cbn [foldr snd] in Hf. destruct f as [|f]; [lia|].
  cbn [members map commas fst snd]. unfold json_string at 1 2.
  rewrite !string_app_assoc, !string_app_cons, !string_app_assoc, !string_app_cons, !string_app_nil_l.
  change (skip_ws (String quote ?r)) with (String quote r). cbn -[string_body String.length appendString value members commas map encode].
  rewrite string_body_appendString; [|done|unfold json_string; rewrite !string_app_cons; cbn; rewrite !string_app_length; lia].
  cbn -[value members commas map encode]. cbn [snd] in Hx. lex.
  destruct m as [|y m].
  - cbn [map]. rewrite string_app_nil_l, Hx; [done|done|lia|right; by right].
  - cbn [map]. rewrite !string_app_cons, Hx; [|done|lia|by left].
    cbn [mbind option_bind skip_ws]. lex.
    specialize (IH f ltac:(done) Hm Hom ltac:(lia)).
    exact (f_equal (λ o, '(m', k') ← o; Some ((n, x) :: m', k')) IH).
Qed.

(** The first byte of a value: no blank and no closing bracket. *)
Definition opens (s : string) : Prop :=
  match s with "" => False | String c _ => json_space c = false ∧ code c ≠ 93 ∧ code c ≠ 125 end.
Lemma opens_app s k : opens s → opens (s +:+ k).
Proof. destruct s; [done|]. by rewrite string_app_cons. Qed.
Lemma digit_opens c r : code c = 45 ∨ is_digit c = true → opens (String c r).
Proof.
  intros [E|Hc]; [cbn; unfold json_space; by rewrite E|]. unfold is_digit in Hc. bool_hyps. cbn. unfold json_space. split_and!; [|lia..].
  assert (Hx : code c = 48 ∨ code c = 49 ∨ code c = 50 ∨ code c = 51 ∨ code c = 52 ∨ code c = 53 ∨ code c = 54 ∨
    code c = 55 ∨ code c = 56 ∨ code c = 57) by lia.
  repeat (destruct Hx as [->|Hx]; [done|]). by rewrite Hx.
Qed.
Lemma encode_opens html v : json_ok v = true → opens (encode html v).
Proof.
  destruct v as [|[]|l|s|l|m]; intros Hok; try (by vm_compute); try (by split_and!).
  cbn [json_ok] in Hok. apply num_head in Hok as (c & r & -> & Hc). by apply digit_opens.
Qed.
Lemma skip_opens s : opens s → skip_ws s = s.
Proof. destruct s as [|c s]; [done|]. intros (Hs & _). cbn. by rewrite Hs. Qed.
Lemma commas_opens s l k : opens s → opens (commas (s :: l) +:+ k).
Proof. intros Hs. cbn [commas]. by apply opens_app, opens_app. Qed.

Lemma encode_parses html v : parses_to html v.
Proof.
  induction v as [|b|l|s|l Hl|m Hm] using json_rect_list; intros Hok f k Hf Hk; (destruct f as [|f]; [cbn in Hf; lia|]).
  - done.
  - by destruct b.
  - cbn [json_ok encode] in *. pose proof (number_app l k Hok Hk) as Hnum.
    apply num_head in Hok as (c & r & -> & Hc).
    pose proof (skip_opens _ (digit_opens c (r +:+ k) Hc)) as Hsk. rewrite string_app_cons in *. cbn [value]. rewrite Hsk.
    assert (Hr : code c = 45 ∨ 48 ≤ code c ≤ 57) by (unfold is_digit in Hc; destruct Hc; bool_hyps; lia).
    rewrite (proj2 (Z.eqb_neq (code c) 34)), (proj2 (Z.eqb_neq (code c) 123)), (proj2 (Z.eqb_neq (code c) 91)) by lia.
    assert (Hx : ∀ a t, 57 < code a → expect (String a t) (String c (r +:+ k)) = None).
    { intros a t Ha. cbn. rewrite decide_False; [done|]. intros ->. lia. }
    rewrite !Hx by (by vm_compute). by rewrite Hnum.
  - by apply json_string_value.
  - cbn [json_ok encode depth] in *. rewrite !string_app_cons, !string_app_nil_l, string_app_assoc.
    cbn [value skip_ws]. lex. destruct l as [|x l]; [done|].
    pose proof (elements_parse html (x :: l) f k ltac:(done) Hl Hok ltac:(lia)) as E.
    assert (Ho : opens (commas (map (encode html) (x :: l)) +:+ "]" +:+ k)).
    { apply commas_opens, encode_opens. cbn in Hok. by apply andb_true_iff in Hok as []. }
    rewrite skip_opens by done. destruct (commas _ +:+ _) as [|c r]; [done|].
    destruct Ho as (_ & H93 & _). rewrite (proj2 (Z.eqb_neq _ _)) by done. by rewrite E.
  - cbn [json_ok encode depth] in *. rewrite !string_app_cons, !string_app_nil_l, string_app_assoc.
    cbn [value skip_ws]. lex. destruct m as [|x m]; [done|].
    pose proof (members_parse html (x :: m) f k ltac:(done) Hm Hok ltac:(lia)) as E.
    assert (Ho : opens (commas (map (λ p, json_string html p.1 +:+ ":" +:+ encode html p.2) (x :: m)) +:+ "}" +:+ k)).
    { apply commas_opens. by apply opens_app. }
    rewrite skip_opens by done. destruct (commas _ +:+ _) as [|c r]; [done|].
    destruct Ho as (_ & _ & H125). rewrite (proj2 (Z.eqb_neq _ _)) by done. by rewrite E.
Qed.

(** Nesting is bounded by the text, so the reader's fuel is enough. *)
Lemma commas_length {A} (g : A → string) (h : A → nat) (l : list A) :
  Forall (λ x, (1 ≤ h x ≤ 2 * String.length (g x))%nat) l →
  (foldr (λ x n, S (Nat.max (h x) n)) 0 l ≤ 2 * String.length (commas (map g l)) + 1)%nat.
Proof.
  induction 1 as [|x l Hx Hl IH]; [cbn; lia|]. cbn [foldr map commas]. rewrite string_app_length.
  destruct l as [|y l]; [cbn in *; lia|]. cbn [map] in *. rewrite string_app_length. cbn [String.length]. lia.
Qed.
Lemma depth_length html v : json_ok v = true → (1 ≤ depth v ≤ 2 * String.length (encode html v))%nat.
Proof.
  induction v as [|b|l|s|l Hl|m Hm] using json_rect_list; intros Hok.
  - cbn. lia.
  - destruct b; cbn; lia.
  - cbn [json_ok] in Hok. apply num_head in Hok as (c & r & -> & _). cbn. lia.
  - cbn. lia.
  - cbn [json_ok depth encode] in *. rewrite !string_app_length. cbn [String.length].
    pose proof (commas_length (encode html) depth l) as Hc. rewrite forallb_forall in Hok.
    ospecialize (Hc _); [|lia]. rewrite Forall_forall in Hl |- *. intros x Hx. apply Hl; [done|]. by apply Hok.
  - cbn [json_ok depth encode] in *. rewrite !string_app_length. cbn [String.length].
    pose proof (commas_length (λ p : string * json, json_string html p.1 +:+ ":" +:+ encode html p.2) (λ p, depth p.2) m) as Hc.
    rewrite forallb_forall in Hok. cbv beta in Hc.
    ospecialize (Hc _); [|lia]. rewrite Forall_forall in Hm |- *. intros x Hx.
    rewrite !string_app_length. specialize (Hm x Hx). specialize (Hok x Hx).
    apply andb_true_iff in Hok as [_ Hok]. specialize (Hm Hok). lia.
Qed.

(** [json.Unmarshal] of what was written. *)
Lemma encode_round_trip html v : json_ok v = true → json_parse (encode html v) = Some v.
Proof.
  intros Hok. unfold json_parse. pose proof (depth_length html v Hok).
  pose proof (encode_parses html v Hok (S (2 * String.length (encode html v))) "" ltac:(lia) I) as E.
  rewrite string_app_nil_r in E. rewrite E. done.
Qed.
Lemma json_round_trip v : json_ok v = true → json_parse (Marshal v) = Some v.
Proof. apply encode_round_trip. Qed.
