(* ===== verification/Runes.v ===== *)
(** * Runes: strings as Go ranges over them

    [runes] cuts a byte string into the UTF-8 sequences of its runes, an invalid
    byte being one U+FFFD, as [range], [[]rune] and [utf8.RuneCountInString]
    do; [of_runes] is the conversion back. *)
From S2P Require Import Prelude GoStd Bytes Json JsonEnc.
From stdpp Require Import list.
From Stdlib Require Import Ascii.
Open Scope string_scope.
Open Scope Z_scope.

Definition rune_error : string := String (chr 239) (String (chr 191) (String (chr 189) "")).
Fixpoint runes (s : string) : list string :=
  match s with
  | "" => []
  | String c r =>
      if code c <? 128 then String c "" :: runes r
      else match rune_len s, r with
           | 2%nat, String c1 r1 => String c (String c1 "") :: runes r1
           | 3%nat, String c1 (String c2 r2) => String c (String c1 (String c2 "")) :: runes r2
           | 4%nat, String c1 (String c2 (String c3 r3)) => String c (String c1 (String c2 (String c3 ""))) :: runes r3
           | _, _ => rune_error :: runes r
           end
  end.
Definition of_runes (l : list string) : string := foldr String.append "" l.
Definition RuneCount (s : string) : nat := length (runes s).

Fixpoint all_chars (p : ascii → bool) (s : string) : bool :=
  match s with "" => true | String c r => p c && all_chars p r end.

(** ** Facts *)
(** What the first step of [runes] does. *)
Lemma runes_cases s : s ≠ "" → ∃ x r, (runes s = x :: runes r) ∧ (String.length r < String.length s)%nat ∧
  ((∃ c, s = String c r ∧ code c < 128 ∧ x = String c "") ∨
   (s = x +:+ r ∧ (2 ≤ String.length x)%nat ∧ rune_len s = String.length x ∧ ∃ c x', x = String c x' ∧ 128 ≤ code c) ∨
   (∃ c, s = String c r ∧ 128 ≤ code c ∧ (rune_len s ∉ [2; 3; 4]%nat) ∧ x = rune_error)).
Proof.
  destruct s as [|c r]; [done|]. intros _. cbn [runes]. destruct (Z.ltb_spec (code c) 128).
  { eexists _, r. split_and!; [done|cbn; lia|]. left. by exists c. }
  destruct (rune_len (String c r)) as [|[|[|[|[|n]]]]] eqn:E;
    try (exists rune_error, r; split_and!; [done|cbn; lia|right; right; exists c; split_and!; [done|done|set_solver|done]]).
  all: destruct r as [|c1 r]; [by cbn in E|].
  - eexists _, r. split_and!; [done|cbn; lia|]. right. left. split_and!; [done|cbn; lia|done|]. by eexists _, _.
  - destruct r as [|c2 r]; [cbn in E; by repeat case_match|].
    eexists _, r. split_and!; [done|cbn; lia|]. right. left. split_and!; [done|cbn; lia|done|]. by eexists _, _.
  - destruct r as [|c2 r]; [cbn in E; by repeat case_match|]. destruct r as [|c3 r]; [cbn in E; by repeat case_match|].
    eexists _, r. split_and!; [done|cbn; lia|]. right. left. split_and!; [done|cbn; lia|done|]. by eexists _, _.
Qed.

(** A sequence [rune_len] accepts is accepted whatever follows. *)
Lemma rune_len_app x r r' : (2 ≤ String.length x)%nat → rune_len (x +:+ r) = String.length x → rune_len (x +:+ r') = String.length x.
Proof.
  intros H2. destruct x as [|c [|c1 [|c2 [|c3 [|c4 x]]]]]; try (cbn in H2; lia); rewrite ?string_app_cons, ?string_app_nil_l;
    cbn [rune_len String.length]; repeat case_match; simplify_eq/=; try done; intros; lia.
Qed.
Lemma runes_head x r : (2 ≤ String.length x)%nat → rune_len (x +:+ r) = String.length x →
  (∃ c x', x = String c x' ∧ 128 ≤ code c) → runes (x +:+ r) = x :: runes r.
Proof.
  intros H2 Hl (c & x' & -> & Hc). rewrite string_app_cons in *. cbn [runes].
  rewrite (proj2 (Z.ltb_ge _ _)) by done. rewrite Hl.
  destruct x' as [|c1 [|c2 [|c3 [|c4 x]]]]; cbn in H2; try lia; rewrite ?string_app_cons, ?string_app_nil_l; try done.
  exfalso. revert Hl. rewrite !string_app_cons. cbn [rune_len String.length]. repeat case_match; lia.
Qed.
Lemma runes_error r : runes (rune_error +:+ r) = rune_error :: runes r.
Proof. apply runes_head; [cbn; lia|done|]. by eexists _, _. Qed.

(** Runes cut from a string stay runes. *)
Definition rune (x : string) : Prop := ∀ r, runes (x +:+ r) = x :: runes r.
Lemma runes_rune s : Forall rune (runes s).
Proof.
  induction s as [s IH] using string_len_ind. destruct (decide (s = "")) as [->|Hs]; [constructor|].
  destruct (runes_cases s Hs) as (x & r & -> & Hlt & Hx). apply Forall_cons_2; [|by apply IH].
  destruct Hx as [(c & -> & Hc & ->)|[(-> & H2 & Hl & Hc)|(c & -> & Hc & Hl & ->)]]; intros r'.
  - rewrite string_app_cons, string_app_nil_l. cbn [runes]. by rewrite (proj2 (Z.ltb_lt _ _)).
  - apply runes_head; [done|by eapply rune_len_app|done].
  - apply runes_error.
Qed.
Lemma of_runes_app l r : Forall rune l → runes (of_runes l +:+ r) = (l ++ runes r)%list.
Proof.
  induction 1 as [|x l Hx Hl IH]; [done|]. cbn [of_runes foldr]. change (String.append x ?y) with (x +:+ y).
  rewrite string_app_assoc, Hx. cbn. f_equal. exact IH.
Qed.
Lemma runes_of_runes l : Forall rune l → runes (of_runes l) = l.
Proof. intros Hl. rewrite <- (string_app_nil_r (of_runes l)), of_runes_app by done. cbn. by rewrite app_nil_r. Qed.

(** Valid UTF-8 comes back whole. *)
Lemma of_runes_valid s : valid_utf8 s = true → of_runes (runes s) = s.
Proof.
  induction s as [s IH] using string_len_ind. intros Hv. destruct (decide (s = "")) as [->|Hs]; [done|].
  destruct (runes_cases s Hs) as (x & r & -> & Hlt & Hx). cbn [of_runes foldr].
  change (String.append x ?y) with (x +:+ y). fold (of_runes (runes r)).
  destruct Hx as [(c & -> & Hc & ->)|[(-> & H2 & Hl & (c & x' & -> & Hc))|(c & -> & Hc & Hl & ->)]].
  - rewrite IH; [done|done|]. revert Hv. cbn [valid_utf8]. by rewrite (proj2 (Z.ltb_lt _ _)).
  - rewrite IH; [done|done|]. revert Hv. rewrite string_app_cons in *. cbn [valid_utf8]. rewrite (proj2 (Z.ltb_ge _ _)), Hl by done.
    destruct x' as [|c1 [|c2 [|c3 [|c4 x]]]]; cbn in H2; try lia; rewrite ?string_app_cons, ?string_app_nil_l; done.
  - exfalso. revert Hv. cbn [valid_utf8]. rewrite (proj2 (Z.ltb_ge _ _)) by done.
    destruct (rune_len (String c r)) as [|[|[|[|[|n]]]]]; try done; set_solver.
Qed.

(** A test that lets every byte of 128 and more pass sees only the text. *)
Lemma all_chars_concat p a b : all_chars p (a +:+ b) = all_chars p a && all_chars p b.
Proof. induction a as [|c a IH]; [done|]. rewrite string_app_cons. cbn. by rewrite IH, andb_assoc. Qed.
Lemma all_chars_runes p s : (∀ c, 128 ≤ code c → p c = true) → all_chars p s = true →
  Forall (λ x, all_chars p x = true) (runes s).
Proof.
  intros Hp. induction s as [s IH] using string_len_ind. intros Hs. destruct (decide (s = "")) as [->|Hn]; [constructor|].
  destruct (runes_cases s Hn) as (x & r & -> & Hlt & Hx).
  assert (all_chars p x = true ∧ all_chars p r = true) as [Hx' Hr'].
  { destruct Hx as [(c & -> & Hc & ->)|[(-> & _)|(c & -> & Hc & Hl & ->)]].
    - cbn in *. apply andb_true_iff in Hs as [-> ->]. done.
    - rewrite all_chars_concat in Hs. by apply andb_true_iff in Hs.
    - cbn in Hs. apply andb_true_iff in Hs as [_ ->]. split; [|done]. cbn. by rewrite !Hp. }
  apply Forall_cons_2; [done|]. by apply IH.
Qed.
Lemma all_chars_of_runes p l : Forall (λ x, all_chars p x = true) l → all_chars p (of_runes l) = true.
Proof.
  induction 1 as [|x l Hx Hl IH]; [done|]. cbn [of_runes foldr]. change (String.append x ?y) with (x +:+ y).
  by rewrite all_chars_concat, Hx.
Qed.

(** An ASCII byte is a boundary. *)
Lemma rune_len_boundary a c b : code c < 128 → rune_len (a +:+ String c b) = rune_len a ∨ a = "".
Proof.
  intros Hc. assert (Hcont : ∀ lo hi, 128 ≤ lo → cont lo hi c = false).
  { intros lo hi Hlo. unfold cont. by rewrite (proj2 (Z.leb_gt _ _)) by lia. }
  destruct a as [|a0 [|a1 [|a2 [|a3 a]]]]; [by right|left..]; rewrite ?string_app_cons, ?string_app_nil_l; cbn [rune_len];
    repeat (case_match; rewrite ?Hcont in * by (repeat case_match; lia)); simplify_eq/=; try done;
    rewrite ?andb_false_r in *; cbn in *; congruence.
Qed.
Lemma runes_boundary a c b : code c < 128 → runes (a +:+ String c b) = (runes a ++ runes (String c b))%list.
Proof.
  intros Hc. induction a as [a IH] using string_len_ind. destruct (decide (a = "")) as [->|Ha]; [done|].
  destruct (runes_cases a Ha) as (x & r & -> & Hlt & Hx). cbn [app].
  destruct Hx as [(d & -> & Hd & ->)|[(-> & H2 & Hl & Hd)|(d & -> & Hd & Hl & ->)]].
  - rewrite string_app_cons. cbn [runes]. rewrite (proj2 (Z.ltb_lt _ _)) by done. f_equal. by apply IH.
  - rewrite string_app_assoc. rewrite runes_head; [|done|by eapply rune_len_app|done]. f_equal. by apply IH.
  - rewrite string_app_cons. cbn [runes]. rewrite (proj2 (Z.ltb_ge _ _)) by done.
    destruct (rune_len_boundary (String d r) c b Hc) as [E|E]; [|done]. rewrite string_app_cons in E. rewrite E.
    destruct (rune_len (String d r)) as [|[|[|[|[|n]]]]]; try (f_equal; by apply IH); set_solver.
Qed.

(** Whatever runes are put together are valid UTF-8. *)
Definition utf8_piece (x : string) : Prop := ∀ r, valid_utf8 (x +:+ r) = valid_utf8 r.
Lemma runes_pieces s : Forall utf8_piece (runes s).
Proof.
  induction s as [s IH] using string_len_ind. destruct (decide (s = "")) as [->|Hs]; [constructor|].
  destruct (runes_cases s Hs) as (x & r & -> & Hlt & Hx). apply Forall_cons_2; [|by apply IH]. intros r'.
  destruct Hx as [(c & -> & Hc & ->)|[(-> & H2 & Hl & c & x' & -> & Hc)|(c & -> & Hc & Hl & ->)]]; [| |done].
  - rewrite string_app_cons, string_app_nil_l. cbn [valid_utf8]. by rewrite (proj2 (Z.ltb_lt _ _)).
  - apply rune_len_app with (r' := r') in Hl; [|done]. rewrite string_app_cons in *. cbn [valid_utf8].
    rewrite (proj2 (Z.ltb_ge _ _)), Hl by done.
    destruct x' as [|c1 [|c2 [|c3 [|c4 x]]]]; cbn in H2; try lia; rewrite ?string_app_cons, ?string_app_nil_l; try done.
    exfalso. revert Hl. rewrite !string_app_cons. cbn [rune_len String.length]. repeat case_match; lia.
Qed.
Lemma of_runes_utf8 l : Forall utf8_piece l → valid_utf8 (of_runes l) = true.
Proof.
  induction 1 as [|x l Hx Hl IH]; [done|]. cbn [of_runes foldr]. change (String.append x ?y) with (x +:+ y). by rewrite Hx.
Qed.
