(* ===== verification/JsonUtf8.v ===== *)
(** * JsonUtf8: what the reader yields can be written

    Read from valid UTF-8, every string of a JSON value is valid UTF-8 and every
    number a literal of the grammar: [json_parse] yields only values the writer
    round-trips. *)
From S2P Require Import Prelude GoStd Bytes Json JsonEnc Runes.
From stdpp Require Import list.
From Stdlib Require Import Ascii.
Open Scope string_scope.
Open Scope Z_scope.

(** ** Runes as bytes *)
Lemma piece_ascii c : code c < 128 → utf8_piece (String c "").
Proof. intros Hc r. rewrite string_app_cons, string_app_nil_l. cbn [valid_utf8]. by rewrite (proj2 (Z.ltb_lt _ _)). Qed.
Lemma code_of_chr n : 0 ≤ n < 256 → code (chr n) = n.
Proof. apply code_chr. Qed.


(** Decide a comparison the context settles. *)
Ltac settle :=
  match goal with
  | |- context [?p <=? ?q] => first [rewrite (proj2 (Z.leb_le p q)) by lia | rewrite (proj2 (Z.leb_gt p q)) by lia]
  | |- context [?p <? ?q] => first [rewrite (proj2 (Z.ltb_lt p q)) by lia | rewrite (proj2 (Z.ltb_ge p q)) by lia]
  end.
Lemma utf8_piece_utf8 x : 0 ≤ x < 1114112 → surrogate x = false → utf8_piece (utf8 x).
Proof.
  intros Hx Hs r. unfold utf8. unfold surrogate in Hs.
  destruct (Z.ltb_spec x 128); [apply piece_ascii; rewrite code_of_chr; lia|].
  pose proof (Z.div_mod x 64 ltac:(lia)) as E6. pose proof (Z.mod_pos_bound x 64 ltac:(lia)) as B6.
  pose proof (Z.div_mod (x / 64) 64 ltac:(lia)) as E12. pose proof (Z.mod_pos_bound (x / 64) 64 ltac:(lia)) as B12.
  rewrite Z.div_div in E12 by lia. change (64 * 64) with 4096 in E12.
  pose proof (Z.div_mod (x / 4096) 64 ltac:(lia)) as E18. pose proof (Z.mod_pos_bound (x / 4096) 64 ltac:(lia)) as B18.
  rewrite Z.div_div in E18 by lia. change (4096 * 64) with 262144 in E18.
  destruct (Z.ltb_spec x 2048); [|destruct (Z.ltb_spec x 65536)]; rewrite !string_app_cons, string_app_nil_l; cbn [valid_utf8 rune_len]; unfold cont;
    rewrite !code_of_chr by lia.
  - by repeat settle.
  - destruct (Z.eqb_spec (224 + x / 4096) 224), (Z.eqb_spec (224 + x / 4096) 237); by repeat settle.
  - destruct (Z.eqb_spec (240 + x / 262144) 240), (Z.eqb_spec (240 + x / 262144) 244); by repeat settle.
Qed.
Lemma hex_val_range c x : hex_val c = Some x → 0 ≤ x < 16.
Proof. unfold hex_val, is_digit. pose proof (code_range c). repeat case_match; intros [= <-]; lia. Qed.
Lemma hex4_spec s x r : hex4 s = Some (x, r) → 0 ≤ x < 65536 ∧ ∃ t, s = t +:+ r ∧ all_chars (λ c, code c <? 128) t = true.
Proof.
  destruct s as [|a [|b [|c [|d s]]]]; try done. cbn.
  destruct (hex_val a) as [xa|] eqn:Ea, (hex_val b) as [xb|] eqn:Eb, (hex_val c) as [xc|] eqn:Ec, (hex_val d) as [xd|] eqn:Ed; try done.
  cbn. intros [= <- <-].
  pose proof (hex_val_range _ _ Ea). pose proof (hex_val_range _ _ Eb). pose proof (hex_val_range _ _ Ec). pose proof (hex_val_range _ _ Ed).
  split; [lia|]. exists (String a (String b (String c (String d "")))). split; [done|].
  assert (Ha : ∀ c y, hex_val c = Some y → (code c <? 128) = true).
  { intros c' y. unfold hex_val, is_digit. repeat case_match; intros [=]; apply Z.ltb_lt; lia. }
  cbn. by rewrite (Ha _ _ Ea), (Ha _ _ Eb), (Ha _ _ Ec), (Ha _ _ Ed).
Qed.

(** ** Text before and after *)
Lemma valid_ascii_app a r : all_chars (λ c, code c <? 128) a = true → valid_utf8 (a +:+ r) = valid_utf8 r.
Proof.
  induction a as [|c a IH]; [done|]. cbn [all_chars]. intros Ha. apply andb_true_iff in Ha as [Hc Ha].
  rewrite string_app_cons. cbn [valid_utf8]. by rewrite Hc, IH.
Qed.
Lemma valid_cons c r : code c < 128 → valid_utf8 (String c r) = valid_utf8 r.
Proof. intros Hc. cbn [valid_utf8]. by rewrite (proj2 (Z.ltb_lt _ _)). Qed.

(** The first rune of valid text. *)
Lemma valid_head s : valid_utf8 s = true → s ≠ "" →
  (∃ c r, s = String c r ∧ code c < 128 ∧ valid_utf8 r = true) ∨
  (∃ x r, s = x +:+ r ∧ valid_utf8 r = true ∧ utf8_piece x ∧ all_chars (λ c, 128 <=? code c) x = true ∧ x ≠ "").
Proof.
  intros Hv Hs. destruct (runes_cases s Hs) as (x & r & _ & _ & Hx). pose proof (runes_pieces s) as Hp.
  destruct Hx as [(c & -> & Hc & ->)|[(-> & H2 & Hl & c & x' & -> & Hc)|(c & -> & Hc & Hl & ->)]].
  - left. exists c, r. split_and!; [done|done|]. by rewrite valid_cons in Hv.
  - right. exists (String c x'), r.
    assert (Hpiece : utf8_piece (String c x')).
    { rewrite runes_head in Hp; [by apply Forall_cons in Hp as [? _]|done|done|by eexists _, _]. }
    split_and!; [done|by rewrite Hpiece in Hv|done| |done].
    rewrite string_app_cons in Hl. cbn [all_chars]. rewrite (proj2 (Z.leb_le _ _)) by done. cbn [andb].
    destruct x' as [|c1 [|c2 [|c3 [|c4 x']]]]; cbn [String.length] in H2, Hl; try lia;
      rewrite ?string_app_cons, ?string_app_nil_l in Hl; cbn [rune_len] in Hl; unfold cont in Hl; cbn [all_chars];
      repeat case_match; simplify_eq; rewrite ?andb_true_iff; split_and?; try lia; done.
  - exfalso. revert Hv. cbn [valid_utf8]. rewrite (proj2 (Z.ltb_ge _ _)) by done.
    destruct (rune_len (String c r)) as [|[|[|[|[|n]]]]]; try done; set_solver.
Qed.
(** Bytes of 128 and more are taken as they are. *)
Lemma string_body_raw x f r b k : all_chars (λ c, 128 <=? code c) x = true → string_body f (x +:+ r) = Some (b, k) →
  ∃ f' b', (f' ≤ f)%nat ∧ (x ≠ "" → f' < f)%nat ∧ string_body f' r = Some (b', k) ∧ b = x +:+ b'.
Proof.
  revert f b. induction x as [|c x IH]; intros f b Hx E; [exists f, b; by split_and!|].
  cbn [all_chars] in Hx. apply andb_true_iff in Hx as [Hc Hx]. rewrite string_app_cons in E. destruct f as [|f]; [done|].
  rewrite body_raw in E by lia. unfold then_ in E. destruct (string_body f (x +:+ r)) as [[b0 k0]|] eqn:E0; [|done].
  injection E as <- <-. destruct (IH f b0 Hx E0) as (f' & b' & Hf & _ & Ef & ->). exists f', b'.
  split_and!; [lia|lia|done|]. by rewrite string_app_cons.
Qed.

(** ** Strings *)
Definition good (r : option (string * string)) : Prop :=
  ∀ b k, r = Some (b, k) → valid_utf8 b = true ∧ valid_utf8 k = true.
Lemma good_prefix t r : utf8_piece t → good r → good ('(b, k) ← r; Some (t +:+ b, k)).
Proof.
  intros Ht Hr b k. destruct r as [[b0 k0]|]; [|done]. cbn. intros [= <- <-]. destruct (Hr b0 k0 eq_refl) as [Hb Hk].
  split; [|done]. by rewrite Ht.
Qed.
Lemma unescape_ascii e ch : unescape e = Some ch → code e < 128 ∧ code ch < 128.
Proof.
  unfold unescape. pose proof (code_range e). destruct (code e) as [|n|n] eqn:E; try done.
  repeat (destruct n as [n|n|]; try done); intros [= <-]; rewrite ?E; try (rewrite code_chr by lia); lia.
Qed.
Lemma expect_spec lit s r : expect lit s = Some r → s = lit +:+ r.
Proof.
  revert s. induction lit as [|a lit IH]; intros s; cbn; [by intros [= ->]|]. destruct s as [|b s]; [done|].
  case_decide; [|done]. intros E. subst. rewrite string_app_cons. by rewrite (IH _ E).
Qed.
Lemma string_body_good f s : valid_utf8 s = true → good (string_body f s).
Proof.
  revert s. induction (lt_wf f) as [f _ IH]. intros s Hv b k E.
  destruct f as [|f]; [done|]. destruct (decide (s = "")) as [->|Hs]; [done|].
  destruct (valid_head s Hv Hs) as [(c & r & -> & Hc & Hr)|(x & r & -> & Hr & Hx & Hc & Hn)].
  2: { destruct (string_body_raw x (S f) r b k Hc E) as (f' & b' & _ & Hf & E' & ->).
       destruct (IH f' (Hf Hn) r Hr b' k E') as [Hb Hk]. split; [by rewrite Hx|done]. }
  clear Hs Hv. revert b k E. change (good (string_body (S f) (String c r))). cbn [string_body].
  assert (Hgo : ∀ t r', utf8_piece t → valid_utf8 r' = true → good ('(b, k) ← string_body f r'; Some (t +:+ b, k))).
  { intros t r' Ht Hr'. apply good_prefix; [done|]. apply IH; [lia|done]. }
  destruct (code c =? 34); [intros b k [= <- <-]; done|]. destruct (code c <? 32); [done|].
  destruct (negb (code c =? 92)); [apply (Hgo (String c "")); [by apply piece_ascii|done]|].
  destruct r as [|e r']; [done|]. destruct (Z.eqb_spec (code e) 117) as [He|_].
  - rewrite valid_cons in Hr by lia. destruct (hex4 r') as [[x r1]|] eqn:Ex; [|done]. cbn [mbind option_bind].
    destruct (hex4_spec _ _ _ Ex) as (Hxr & t & -> & Ht). rewrite valid_ascii_app in Hr by done.
    assert (Hlone : good ('(b, k) ← string_body f r1; Some (utf8 65533 +:+ b, k))) by (apply Hgo; [by apply utf8_piece_utf8|done]).
    destruct (surrogate x) eqn:Es; cbn [negb]; [|apply Hgo; [apply utf8_piece_utf8; [lia|done]|done]].
    destruct (expect "\u" r1) as [r2|] eqn:E2; [|done]. apply expect_spec in E2. subst r1. rewrite valid_ascii_app in Hr by done.
    destruct (hex4 r2) as [[y r3]|] eqn:Ey; [|done]. cbn [mbind option_bind].
    destruct (hex4_spec _ _ _ Ey) as (Hyr & t2 & -> & Ht2). rewrite valid_ascii_app in Hr by done.
    destruct ((x <? 56320) && (56320 <=? y) && (y <? 57344)) eqn:Exy; [|done].
    unfold surrogate in Es. apply Hgo; [|done]. apply utf8_piece_utf8; [lia|]. unfold surrogate. lia.
  - destruct (unescape e) as [ch|] eqn:Eu; [|done]. cbn [mbind option_bind].
    destruct (unescape_ascii e ch Eu) as [He Hch]. rewrite valid_cons in Hr by done. by apply (Hgo (String ch "")); [apply piece_ascii|].
Qed.

(** ** Numbers *)
Definition no_digit (s : string) : bool := match s with String c _ => negb (is_digit c) | "" => true end.
Lemma digits_split s d k : digits s = (d, k) → s = d +:+ k ∧ all_chars is_digit d = true ∧ no_digit k = true.
Proof.
  revert d. induction s as [|c s IH]; intros d; cbn; [by intros [= <- <-]|]. destruct (is_digit c) eqn:Ec.
  - destruct (digits s) as [d0 k0]. intros [= <- <-]. destruct (IH d0 eq_refl) as (-> & Hd & Hk). cbn [all_chars]. by rewrite Ec.
  - intros [= <- <-]. cbn. by rewrite Ec.
Qed.
Lemma digits_join d k : all_chars is_digit d = true → no_digit k = true → digits (d +:+ k) = (d, k).
Proof.
  induction d as [|c d IH]; intros Hd Hk.
  - rewrite string_app_nil_l. destruct k as [|c k]; [done|]. cbn in *. by destruct (is_digit c).
  - cbn [all_chars] in Hd. apply andb_true_iff in Hd as [Hc Hd]. rewrite string_app_cons. cbn [digits]. by rewrite Hc, IH.
Qed.
(** A part of a literal, read again with what follows it there. *)
Lemma int_part_again s i k : int_part s = Some (i, k) → s = i +:+ k ∧ ∀ t, no_digit t = true → int_part (i +:+ t) = Some (i, t).
Proof.
  destruct s as [|c s]; [done|]. unfold int_part at 1. destruct (Z.eqb_spec (code c) 48) as [E|E].
  - intros [= <- <-]. split; [|done]. by rewrite (code_eq c 48 ltac:(lia) E).
  - destruct (digits (String c s)) as [d r] eqn:Ed. destruct (digits_split _ _ _ Ed) as (Es & Hd & Hr).
    destruct d as [|c' d]; [done|]. intros [= <- <-]. split; [done|]. intros t Ht. rewrite Es in *.
    rewrite string_app_cons in Es. injection Es as -> _. rewrite string_app_cons. unfold int_part.
    rewrite (proj2 (Z.eqb_neq _ _) E). rewrite <- string_app_cons. by rewrite digits_join.
Qed.
Definition exp_start (s : string) : bool := match s with String c _ => (code c =? 101) || (code c =? 69) | "" => true end.
Lemma frac_part_again s fr k : frac_part s = Some (fr, k) → s = fr +:+ k ∧
  (fr = "" ∨ ∃ c r, fr = String c r ∧ code c = 46) ∧ ∀ t, exp_start t = true → frac_part (fr +:+ t) = Some (fr, t).
Proof.
  assert (Ht : ∀ t, exp_start t = true → frac_part t = Some ("", t)).
  { intros [|c t]; [done|]. cbn. intros Hc. by rewrite (proj2 (Z.eqb_neq (code c) 46)) by lia. }
  destruct s as [|c s]; cbn; [by intros [= <- <-]; auto|]. destruct (Z.eqb_spec (code c) 46) as [E|E].
  - destruct (digits s) as [d r] eqn:Ed. destruct (digits_split _ _ _ Ed) as (-> & Hd & Hr). destruct d as [|c' d]; [done|].
    intros [= <- <-]. split; [done|]. split; [right; by eexists _, _|]. intros t Hs. rewrite string_app_cons. cbn [frac_part].
    rewrite (proj2 (Z.eqb_eq _ _) E). rewrite digits_join; [done|done|]. destruct t as [|c2 t]; [done|]. cbn in *. unfold is_digit. lia.
  - intros [= <- <-]. auto.
Qed.
Lemma exp_part_again s ex k : exp_part s = Some (ex, k) → s = ex +:+ k ∧ exp_start ex = true ∧ exp_part ex = Some (ex, "").
Proof.
  destruct s as [|c s]; cbn; [by intros [= <- <-]|]. destruct ((code c =? 101) || (code c =? 69)) eqn:Ec; [|by intros [= <- <-]].
  destruct (match s with String _ _ => _ | "" => _ end) as [sg r'] eqn:Es.
  destruct (digits r') as [d r] eqn:Ed. destruct (digits_split _ _ _ Ed) as (-> & Hd & Hr). destruct d as [|c' d]; [done|].
  intros [= <- <-]. pose proof (digits_join (String c' d) "" Hd eq_refl) as Hj. rewrite string_app_nil_r in Hj.
  destruct s as [|e s]; [injection Es as <- Es; by destruct d|].
  destruct ((code e =? 43) || (code e =? 45)) eqn:Ee; injection Es as <- Es; subst.
  - split; [by rewrite !string_app_cons|]. split; [done|]. rewrite string_app_cons, string_app_nil_l. cbn [exp_part].
    rewrite Ec, Ee, Hj. by rewrite string_app_cons, string_app_nil_l.
  - split; [by rewrite ?string_app_nil_l, ?string_app_cons|]. split; [done|]. rewrite string_app_nil_l. cbn [exp_part]. by rewrite Ec, Ee, Hj.
Qed.
Lemma number_literal s l k : number s = Some (l, k) → s = l +:+ k ∧ num_ok l = true.
Proof.
  assert (Hgo : ∀ s1 i s2 fr s3 ex s4, int_part s1 = Some (i, s2) → frac_part s2 = Some (fr, s3) → exp_part s3 = Some (ex, s4) →
    s1 = (i +:+ fr +:+ ex) +:+ s4 ∧ int_part (i +:+ fr +:+ ex) = Some (i, fr +:+ ex) ∧ frac_part (fr +:+ ex) = Some (fr, ex) ∧ exp_part ex = Some (ex, "")).
  { intros s1 i s2 fr s3 ex s4 Ei Ef Ee. destruct (int_part_again _ _ _ Ei) as [-> Hi]. destruct (frac_part_again _ _ _ Ef) as (-> & Hfr & Hf).
    destruct (exp_part_again _ _ _ Ee) as (-> & Hs & He). split; [by rewrite !string_app_assoc|]. split; [|by split; [apply Hf|]].
    apply Hi. destruct Hfr as [->|(c & r & -> & Hc)]; [|rewrite string_app_cons; cbn; unfold is_digit; lia].
    rewrite string_app_nil_l. destruct ex as [|c ex]; [done|]. cbn in *. unfold is_digit. lia. }
  unfold number. destruct s as [|c s]; [done|]. destruct (if code c =? 45 then _ else _) as [sg s1] eqn:Es.
  destruct (int_part s1) as [[i s2]|] eqn:Ei; [|done]. cbn [mbind option_bind].
  destruct (frac_part s2) as [[fr s3]|] eqn:Ef; [|done]. cbn [mbind option_bind].
  destruct (exp_part s3) as [[ex s4]|] eqn:Ee; [|done]. cbn [mbind option_bind]. intros [= <- <-].
  destruct (Hgo _ _ _ _ _ _ _ Ei Ef Ee) as (-> & Hi & Hf & He).
  assert (Hsg : String c s = sg +:+ ((i +:+ fr +:+ ex) +:+ s4) ∧
    (sg = "" ∧ (∀ c r, i +:+ fr +:+ ex = String c r → (code c =? 45) = false) ∨ ∃ c, sg = String c "" ∧ (code c =? 45) = true)).
  { destruct (code c =? 45) eqn:Ec; injection Es as <- Es.
    - rewrite Es. split; [done|]. right. by exists c.
    - split; [done|]. left. split; [done|]. intros c' r' E'. rewrite E' in Es. rewrite string_app_cons in Es. by injection Es as <- _. }
  destruct Hsg as [Hsp Hsg]. rewrite Hsp. split; [by rewrite !string_app_assoc|]. apply bool_decide_eq_true.
  destruct Hsg as [[-> Hc]|(c1 & -> & Hc)]; unfold number.
  - rewrite string_app_nil_l. destruct (i +:+ fr +:+ ex) as [|c1 r] eqn:El; [done|]. rewrite (Hc c1 r eq_refl).
    rewrite Hi. cbn [mbind option_bind]. rewrite Hf. cbn [mbind option_bind]. rewrite He. cbn [mbind option_bind]. by rewrite string_app_nil_l, El.
  - rewrite string_app_cons, string_app_nil_l. rewrite Hc.
    rewrite Hi. cbn [mbind option_bind]. rewrite Hf. cbn [mbind option_bind]. rewrite He. cbn [mbind option_bind].
    by rewrite string_app_cons, string_app_nil_l.
Qed.

(** ** Values *)
Lemma skip_ws_valid s : valid_utf8 s = true → valid_utf8 (skip_ws s) = true.
Proof.
  induction s as [|c s IH]; [done|]. cbn [skip_ws]. intros Hv. destruct (json_space c) eqn:Ec; [|done]. apply IH.
  rewrite valid_cons in Hv; [done|]. unfold json_space in Ec. pose proof (code_range c).
  destruct (code c) as [|n|n] eqn:E; try done. repeat (destruct n as [n|n|]; try done).
Qed.
Lemma valid_skip s c r : valid_utf8 s = true → skip_ws s = String c r → code c < 128 → valid_utf8 r = true.
Proof. intros Hv E Hc. apply skip_ws_valid in Hv. by rewrite E, valid_cons in Hv. Qed.
Definition asc (s : string) : bool := all_chars (λ c, code c <? 128) s.
Lemma asc_cons c s : asc (String c s) = (code c <? 128) && asc s.
Proof. done. Qed.
Lemma asc_app a b : asc (a +:+ b) = asc a && asc b.
Proof. apply all_chars_concat. Qed.
Lemma digits_asc s d k : digits s = (d, k) → asc d = true.
Proof.
  intros E. destruct (digits_split _ _ _ E) as (_ & Hd & _). clear E. revert Hd. unfold asc. induction d as [|c d IH]; [done|].
  cbn [all_chars]. rewrite !andb_true_iff. unfold is_digit at 1. intros [Hc Hd]. split; [lia|auto].
Qed.
Lemma number_asc s l k : number s = Some (l, k) → asc l = true.
Proof.
  unfold number. destruct (match s with String c r => _ | "" => _ end) as [sg s1] eqn:Es.
  assert (Hsg : asc sg = true).
  { destruct s as [|c s]; [by injection Es as <- _|]. destruct (Z.eqb_spec (code c) 45) as [E|]; injection Es as <- _; [|done]. cbn. by rewrite E. }
  destruct (int_part s1) as [[i s2]|] eqn:Ei; [|done]. cbn [mbind option_bind].
  assert (Hi : asc i = true).
  { revert Ei. unfold int_part. destruct s1; [done|]. destruct (_ =? 48); [by intros [= <- _]|]. destruct (digits _) as [[|] ?] eqn:E; [done|].
    intros [= <- _]. by eapply digits_asc. }
  destruct (frac_part s2) as [[fr s3]|] eqn:Ef; [|done]. cbn [mbind option_bind].
  assert (Hf : asc fr = true).
  { revert Ef. unfold frac_part. destruct s2 as [|c s2]; [by intros [= <- _]|]. destruct (Z.eqb_spec (code c) 46) as [Ec|]; [|by intros [= <- _]].
    destruct (digits s2) as [[|a s'] ?] eqn:E; [done|]. intros [= <- _]. change (((code c <? 128) && asc (String a s')) = true). rewrite Ec. by eapply digits_asc. }
  destruct (exp_part s3) as [[ex s4]|] eqn:Ee; [|done]. cbn [mbind option_bind]. intros [= <- _].
  assert (He : asc ex = true).
  { revert Ee. unfold exp_part. destruct s3 as [|c s3]; [by intros [= <- _]|]. destruct ((code c =? 101) || (code c =? 69)) eqn:Ec; [|by intros [= <- _]].
    destruct (match s3 with String _ _ => _ | "" => _ end) as [sg' r'] eqn:Es'. destruct (digits r') as [[|a s'] ?] eqn:E; [done|]. intros [= <- _].
    change (((code c <? 128) && asc (sg' +:+ String a s')) = true). rewrite (proj2 (Z.ltb_lt _ _)) by lia. rewrite asc_app, (digits_asc _ _ _ E), andb_true_r.
    destruct s3 as [|e s3]; [by injection Es' as <- _|]. destruct ((code e =? 43) || (code e =? 45)) eqn:Eo; injection Es' as <- _; [|done]. cbn. lia. }
  by rewrite !asc_app, Hsg, Hi, Hf, He.
Qed.

(** One induction for the three readers. *)
Definition reads_ok {A} (ok : A → bool) (r : option (A * string)) : Prop :=
  ∀ a k, r = Some (a, k) → ok a = true ∧ valid_utf8 k = true.
Lemma reads_bind {A B} (ok : A → bool) (ok' : B → bool) (r : option (A * string)) (f : A → string → option (B * string)) :
  reads_ok ok r → (∀ a k, ok a = true → valid_utf8 k = true → reads_ok ok' (f a k)) → reads_ok ok' ('(a, k) ← r; f a k).
Proof. intros Hr Hf b k. destruct r as [[a k0]|]; [|done]. cbn. destruct (Hr a k0 eq_refl). by apply Hf. Qed.
Lemma reads_ret {A} (ok : A → bool) a k : ok a = true → valid_utf8 k = true → reads_ok ok (Some (a, k)).
Proof. by intros Ha Hk ? ? [= <- <-]. Qed.
Definition member_okb (p : string * json) : bool := valid_utf8 p.1 && json_ok p.2.
Lemma string_reads f s : valid_utf8 s = true → reads_ok valid_utf8 (string_body f s).
Proof. intros Hv. exact (string_body_good f s Hv). Qed.

Lemma readers_ok f s : valid_utf8 s = true →
  reads_ok json_ok (value f s) ∧ reads_ok (forallb member_okb) (members f s) ∧ reads_ok (forallb json_ok) (Json.elements f s).
Proof.
  revert s. induction f as [|f IH]; intros s Hv; [done|].
  assert (Hlt : ∀ c n, (code c =? n) = true → n < 128 → code c < 128) by (intros; lia).
  split_and!.
  - cbn [value]. pose proof (skip_ws_valid s Hv) as Hs. destruct (skip_ws s) as [|c r]; [done|].
    destruct (code c =? 34) eqn:E34.
    { rewrite valid_cons in Hs by lia. eapply reads_bind; [by apply string_reads|]. intros a k Ha Hk. by apply reads_ret. }
    destruct (code c =? 123) eqn:E123.
    { rewrite valid_cons in Hs by lia. apply skip_ws_valid in Hs. destruct (skip_ws r) as [|c' r']; [done|].
      destruct (code c' =? 125) eqn:E125; [rewrite valid_cons in Hs by lia; by apply reads_ret|].
      eapply reads_bind; [by apply IH|]. intros a k Ha Hk. by apply reads_ret. }
    destruct (code c =? 91) eqn:E91.
    { rewrite valid_cons in Hs by lia. apply skip_ws_valid in Hs. destruct (skip_ws r) as [|c' r']; [done|].
      destruct (code c' =? 93) eqn:E93; [rewrite valid_cons in Hs by lia; by apply reads_ret|].
      eapply reads_bind; [by apply IH|]. intros a k Ha Hk. by apply reads_ret. }
    assert (Hlit : ∀ lit k, asc lit = true → expect lit (String c r) = Some k → valid_utf8 k = true).
    { intros lit k Hl E. apply expect_spec in E. rewrite E in Hs. by rewrite valid_ascii_app in Hs. }
    destruct (expect "true" (String c r)) as [k|] eqn:Et; [apply reads_ret; [done|by eapply Hlit; [|exact Et]]|].
    destruct (expect "false" (String c r)) as [k|] eqn:Ef; [apply reads_ret; [done|by eapply Hlit; [|exact Ef]]|].
    destruct (expect "null" (String c r)) as [k|] eqn:En; [apply reads_ret; [done|by eapply Hlit; [|exact En]]|].
    destruct (number (String c r)) as [[l k]|] eqn:El; [|done]. cbn [mbind option_bind].
    destruct (number_literal _ _ _ El) as [E Hl]. pose proof (number_asc _ _ _ El). apply reads_ret; [done|].
    rewrite E in Hs. by rewrite valid_ascii_app in Hs.
  - cbn [members]. pose proof (skip_ws_valid s Hv) as Hs. destruct (skip_ws s) as [|c r]; [done|].
    destruct (code c =? 34) eqn:E34; [|done]. rewrite valid_cons in Hs by lia.
    eapply reads_bind; [by apply string_reads|]. intros name r1 Hname Hr1. apply skip_ws_valid in Hr1.
    destruct (skip_ws r1) as [|c1 r2]; [done|]. destruct (code c1 =? 58) eqn:E58; [|done]. rewrite valid_cons in Hr1 by lia.
    eapply reads_bind; [by apply IH|]. intros v r3 Hval Hr3. apply skip_ws_valid in Hr3.
    assert (Hm : member_okb (name, v) = true) by (unfold member_okb; cbn; by rewrite Hname, Hval).
    destruct (skip_ws r3) as [|c2 r4]; [done|]. destruct (code c2 =? 44) eqn:E44; [|destruct (code c2 =? 125) eqn:E125; [|done]];
      rewrite valid_cons in Hr3 by lia.
    + eapply reads_bind; [by apply IH|]. intros m k Hms Hk. apply reads_ret; [|done]. cbn [forallb]. by rewrite Hm.
    + apply reads_ret; [|done]. cbn [forallb]. by rewrite Hm.
  - cbn [Json.elements]. eapply reads_bind; [by apply IH|]. intros v r Hval Hr. apply skip_ws_valid in Hr.
    destruct (skip_ws r) as [|c r1]; [done|]. destruct (code c =? 44) eqn:E44; [|destruct (code c =? 93) eqn:E93; [|done]];
      rewrite valid_cons in Hr by lia.
    + eapply reads_bind; [by apply IH|]. intros l k Hl Hk. apply reads_ret; [|done]. cbn [forallb]. by rewrite Hval.
    + apply reads_ret; [|done]. cbn [forallb]. by rewrite Hval.
Qed.
Lemma json_parse_ok s v : valid_utf8 s = true → json_parse s = Some v → json_ok v = true.
Proof.
  intros Hv. unfold json_parse. destruct (value _ s) as [[v' k]|] eqn:E; [|done]. cbn.
  destruct (proj1 (readers_ok _ s Hv) _ _ E) as [Hok _]. destruct (skip_ws k); [|done]. by intros [= <-].
Qed.

(** ** What the writer yields is text *)
Lemma piece_app a b : utf8_piece a → utf8_piece b → utf8_piece (a +:+ b).
Proof. intros Ha Hb r. by rewrite string_app_assoc, Ha. Qed.
Lemma piece_asc s : asc s = true → utf8_piece s.
Proof. intros Hs r. by apply valid_ascii_app. Qed.
Lemma piece_rune x r : (2 ≤ String.length x ≤ 4)%nat → (∃ c x', x = String c x' ∧ 128 ≤ code c) →
  rune_len (x +:+ r) = String.length x → utf8_piece x.
Proof.
  intros H2 (c & x' & -> & Hc) Hl r'. apply rune_len_app with (r' := r') in Hl; [|lia]. rewrite string_app_cons in *. cbn [valid_utf8].
  rewrite (proj2 (Z.ltb_ge _ _)), Hl by done.
  destruct x' as [|c1 [|c2 [|c3 [|c4 x]]]]; cbn [String.length] in H2; try lia; rewrite ?string_app_cons, ?string_app_nil_l; done.
Qed.
Lemma escape_asc html c : code c < 128 → asc (escape html c) = true.
Proof.
  intros Hc. unfold escape, hex_low. pose proof (code_range c).
  assert (Hq : ∀ x, code c / 16 = x → 0 ≤ x < 8) by (intros ? <-; split; [apply Z.div_pos; lia|apply Z.div_lt_upper_bound; lia]).
  specialize (Hq _ eq_refl). pose proof (Z.mod_pos_bound (code c) 16 ltac:(lia)).
  repeat case_match; rewrite !asc_cons; unfold backslash; rewrite ?code_chr by lia; cbn [asc all_chars]; lia.
Qed.
Lemma append_piece html s : utf8_piece (appendString html s).
Proof.
  induction s as [s IH] using string_len_ind. destruct s as [|c r]; [by intros ?|]. cbn [appendString].
  destruct (Z.ltb_spec (code c) 128) as [Hc|Hc].
  { apply piece_app; [by apply piece_asc, escape_asc|]. apply IH. cbn. lia. }
  assert (Herr : utf8_piece (replacement +:+ appendString html r)) by (apply piece_app; [by apply piece_asc|apply IH; cbn; lia]).
  destruct (rune_len (String c r)) as [|[|[|[|[|n]]]]] eqn:El; try done; destruct r as [|c1 r]; try done.
  - apply (piece_app (String c (String c1 ""))); [|apply IH; cbn; lia]. eapply (piece_rune _ r); [cbn; lia|by eexists _, _|exact El].
  - destruct r as [|c2 r]; [done|]. apply piece_app; [|apply IH; cbn; lia]. destruct (line_separator c c1 c2) eqn:Es.
    + apply piece_asc. unfold line_separator in Es. unfold escape_separator. rewrite !asc_cons. unfold backslash. rewrite !code_chr by lia. cbn [asc all_chars]. lia.
    + eapply (piece_rune _ r); [cbn; lia|by eexists _, _|exact El].
  - destruct r as [|c2 [|c3 r]]; try done. apply (piece_app (String c (String c1 (String c2 (String c3 ""))))); [|apply IH; cbn; lia].
    eapply (piece_rune _ r); [cbn; lia|by eexists _, _|exact El].
Qed.
Lemma json_string_piece html s : utf8_piece (json_string html s).
Proof. apply (piece_app (String quote "")); [by apply piece_asc|]. apply piece_app; [apply append_piece|by apply piece_asc]. Qed.
Lemma commas_piece {A} (g : A → string) l : Forall (λ x, utf8_piece (g x)) l → utf8_piece (commas (map g l)).
Proof.
  induction 1 as [|x l Hx Hl IH]; [by intros ?|]. cbn [map commas]. apply piece_app; [done|].
  destruct l as [|y l]; [by intros ?|]. cbn [map] in *. apply piece_app; [by apply piece_asc|exact IH].
Qed.
Lemma encode_piece html v : json_ok v = true → utf8_piece (JsonEnc.encode html v).
Proof.
  induction v as [|b|l|s|l Hl|m Hm] using json_rect_list; intros Hok; cbn [JsonEnc.encode].
  - by apply piece_asc.
  - destruct b; by apply piece_asc.
  - apply piece_asc. apply bool_decide_eq_true in Hok. by eapply number_asc.
  - apply json_string_piece.
  - apply piece_app; [by apply piece_asc|]. apply piece_app; [|by apply piece_asc]. apply commas_piece.
    rewrite Forall_forall in Hl |- *. intros x Hx. apply Hl; [done|]. cbn in Hok. rewrite forallb_forall in Hok. by apply Hok, list_elem_of_In.
  - apply piece_app; [by apply piece_asc|]. apply piece_app; [|by apply piece_asc]. apply commas_piece.
    rewrite Forall_forall in Hm |- *. intros x Hx. apply piece_app; [apply json_string_piece|]. apply piece_app; [by apply piece_asc|].
    apply Hm; [done|]. cbn in Hok. rewrite forallb_forall in Hok. specialize (Hok x). rewrite andb_true_iff in Hok. by apply Hok, list_elem_of_In.
Qed.
Lemma encode_utf8 html v : json_ok v = true → valid_utf8 (JsonEnc.encode html v) = true.
Proof. intros Hok. rewrite <- (string_app_nil_r (JsonEnc.encode html v)). by rewrite encode_piece. Qed.
