(* ===== verification/Base64.v ===== *)
(** * Base64: encoding/base64 without padding, and encoding/hex

    The raw encodings over an alphabet given by its two tables: [raw_encode],
    and [raw_decode] with the [Strict] switch (unused bits of a last group must
    be zero).  [DecodeString] of a non-strict encoding also skips line breaks. *)
From S2P Require Import Prelude GoStd Json Bytes.
From Stdlib Require Import Ascii.
Open Scope string_scope.
Open Scope Z_scope.

Fixpoint all_chars (p : ascii → bool) (s : string) : bool :=
  match s with "" => true | String c r => p c && all_chars p r end.

Section base64.
Context (enc : Z → ascii) (dec : ascii → option Z).

Fixpoint raw_encode (s : string) : string :=
  match s with
  | "" => ""
  | String a r =>
      match r with
      | "" => String (enc (code a / 4)) (String (enc (code a mod 4 * 16)) "")
      | String b r' =>
          match r' with
          | "" => String (enc (code a / 4)) (String (enc (code a mod 4 * 16 + code b / 16))
                    (String (enc (code b mod 16 * 4)) ""))
          | String c r'' =>
              String (enc (code a / 4)) (String (enc (code a mod 4 * 16 + code b / 16))
                (String (enc (code b mod 16 * 4 + code c / 64)) (String (enc (code c mod 64))
                   (raw_encode r''))))
          end
      end
  end.

Fixpoint raw_decode (strict : bool) (s : string) : option string :=
  match s with
  | "" => Some ""
  | String a r =>
      match r with
      | "" => None
      | String b r' =>
          match r' with
          | "" => x ← dec a; y ← dec b;
                  if strict && negb (y mod 16 =? 0) then None else Some (String (chr (x * 4 + y / 16)) "")
          | String c r'' =>
              match r'' with
              | "" => x ← dec a; y ← dec b; z ← dec c;
                      if strict && negb (z mod 4 =? 0) then None
                      else Some (String (chr (x * 4 + y / 16)) (String (chr (y mod 16 * 16 + z / 4)) ""))
              | String d r3 =>
                  x ← dec a; y ← dec b; z ← dec c; t ← dec d; k ← raw_decode strict r3;
                  Some (String (chr (x * 4 + y / 16)) (String (chr (y mod 16 * 16 + z / 4))
                          (String (chr (z mod 4 * 64 + t)) k)))
              end
          end
      end
  end.

Fixpoint drop_breaks (s : string) : string :=
  match s with
  | "" => ""
  | String c r => if (code c =? 10) || (code c =? 13) then drop_breaks r else String c (drop_breaks r)
  end.
(** [DecodeString] of a non-strict encoding. *)
Definition lax_decode (s : string) : option string := raw_decode false (drop_breaks s).

(** ** Round trips *)
Context (P : ascii → bool).
Context (dec_enc : ∀ n, 0 ≤ n < 64 → dec (enc n) = Some n ∧ P (enc n) = true).
Context (enc_dec : ∀ c n, dec c = Some n → 0 ≤ n < 64 ∧ enc n = c).

Lemma dec_enc_1 n : 0 ≤ n < 64 → dec (enc n) = Some n.
Proof. intros. by apply dec_enc. Qed.
Lemma dec_enc_2 n : 0 ≤ n < 64 → P (enc n) = true.
Proof. intros. by apply dec_enc. Qed.

Lemma raw_decode_encode strict s : raw_decode strict (raw_encode s) = Some s ∧ all_chars P (raw_encode s) = true.
Proof.
  induction s as [s IH] using string_len_ind.
  destruct s as [|a [|b [|c r]]]; cbn [raw_encode]; [done|..];
    repeat match goal with x : ascii |- _ => lazymatch goal with
      | _ : 0 ≤ code x < 256 |- _ => fail | _ => pose proof (code_range x) end end.
  - cbn [raw_decode all_chars]. rewrite !dec_enc_1, !dec_enc_2 by divmod. cbn.
    rewrite (proj2 (Z.eqb_eq _ _)), andb_false_r by divmod.
    assert (Ha : code a / 4 * 4 + code a mod 4 * 16 / 16 = code a) by divmod. by rewrite Ha, chr_code.
  - cbn [raw_decode all_chars]. rewrite !dec_enc_1, !dec_enc_2 by divmod. cbn.
    rewrite (proj2 (Z.eqb_eq _ _)), andb_false_r by divmod.
    assert (Ha : code a / 4 * 4 + (code a mod 4 * 16 + code b / 16) / 16 = code a) by divmod.
    assert (Hb : (code a mod 4 * 16 + code b / 16) mod 16 * 16 + code b mod 16 * 4 / 4 = code b) by divmod.
    by rewrite Ha, Hb, !chr_code.
  - destruct (IH r) as [Hd Hc]; [cbn; lia|]. cbn [raw_decode all_chars].
    rewrite !dec_enc_1, !dec_enc_2, Hd, Hc by divmod. cbn. split; [|done].
    assert (Ha : code a / 4 * 4 + (code a mod 4 * 16 + code b / 16) / 16 = code a) by divmod.
    assert (Hb : (code a mod 4 * 16 + code b / 16) mod 16 * 16 + (code b mod 16 * 4 + code c / 64) / 4 = code b) by divmod.
    assert (Hcc : (code b mod 16 * 4 + code c / 64) mod 4 * 64 + code c mod 64 = code c) by divmod.
    by rewrite Ha, Hb, Hcc, !chr_code.
Qed.

(** Reads back what a decoded group says of its characters. *)
Ltac dec_hyps :=
  repeat match goal with
  | H : dec ?c ≫= _ = Some _ |- _ => let x := fresh "x" in let E := fresh "E" in
      destruct (dec c) as [x|] eqn:E; [cbn in H|done]
  | H : dec ?c = Some ?x |- _ => apply enc_dec in H; destruct H as (? & <-)
  end.

(** The strict decoder accepts only what the encoder writes. *)
Lemma raw_encode_decode s b : raw_decode true s = Some b → raw_encode b = s.
Proof.
  revert b. induction s as [s IH] using string_len_ind. intros out Hd.
  destruct s as [|a [|b [|c [|d r]]]]; cbn [raw_decode] in Hd; try (by simplify_eq); dec_hyps.
  - destruct (Z.eqb_spec (x0 mod 16) 0); cbn in Hd; simplify_eq. cbn. rewrite !code_chr by divmod.
    repeat f_equal; divmod.
  - destruct (Z.eqb_spec (x1 mod 4) 0); cbn in Hd; simplify_eq. cbn. rewrite !code_chr by divmod.
    repeat f_equal; divmod.
  - destruct (raw_decode true r) as [k|] eqn:Ek; [|done]. cbn in Hd. simplify_eq. cbn [raw_encode].
    rewrite !code_chr by divmod. rewrite (IH r) by (done || cbn; lia). repeat f_equal; divmod.
Qed.

Lemma drop_breaks_id s :
  (∀ c, P c = true → (code c =? 10) || (code c =? 13) = false) → all_chars P s = true → drop_breaks s = s.
Proof.
  intros HP. induction s as [|c s IH]; [done|]. cbn. intros [Hc Hs]%andb_true_iff. by rewrite HP, IH.
Qed.
Lemma lax_decode_encode s :
  (∀ c, P c = true → (code c =? 10) || (code c =? 13) = false) → lax_decode (raw_encode s) = Some s.
Proof.
  intros HP. destruct (raw_decode_encode false s) as [Hd Hc]. unfold lax_decode. by rewrite (drop_breaks_id _ HP Hc).
Qed.
End base64.

(** * Hexadecimal: encoding/hex

    [EncodeToString] writes two lower-case digits per byte; [DecodeString]
    reads either case and refuses odd lengths and other characters. *)

Definition hex_digit (d : Z) : ascii := chr (if d <? 10 then 48 + d else 87 + d).
Definition hex_nibble (c : ascii) : option Z :=
  if (48 <=? code c) && (code c <=? 57) then Some (code c - 48)
  else if (97 <=? code c) && (code c <=? 102) then Some (code c - 87)
  else if (65 <=? code c) && (code c <=? 70) then Some (code c - 55) else None.
Fixpoint hex_encode (s : string) : string :=
  match s with "" => "" | String c r => String (hex_digit (code c / 16)) (String (hex_digit (code c mod 16)) (hex_encode r)) end.
Fixpoint hex_decode (s : string) : option string :=
  match s with
  | "" => Some ""
  | String a (String b r) => x ← hex_nibble a; y ← hex_nibble b; k ← hex_decode r; Some (String (chr (x * 16 + y)) k)
  | String _ "" => None
  end.

Lemma hex_val_digit d : 0 ≤ d < 16 → hex_nibble (hex_digit d) = Some d.
Proof.
  intros Hd. unfold hex_nibble, hex_digit. destruct (d <? 10) eqn:E; bool_hyps; rewrite code_chr by lia.
  - rewrite !(proj2 (Z.leb_le _ _)) by lia. cbn. f_equal. lia.
  - rewrite (proj2 (Z.leb_gt _ 57)) by lia. rewrite andb_false_r. rewrite !(proj2 (Z.leb_le _ _)) by lia. cbn. f_equal. lia.
Qed.
Lemma hex_round_trip s : hex_decode (hex_encode s) = Some s.
Proof.
  induction s as [|c s IH]; [done|]. cbn [hex_encode hex_decode]. pose proof (code_range c).
  rewrite !hex_val_digit by divmod. cbn [mbind option_bind]. rewrite IH. cbn [mbind option_bind].
  rewrite (Z.mul_comm _ 16), <-Z.div_mod, chr_code by lia. done.
Qed.
Lemma hex_encode_inj a b : hex_encode a = hex_encode b → a = b.
Proof. intros E. apply (f_equal hex_decode) in E. rewrite !hex_round_trip in E. by simplify_eq. Qed.
