(* ===== verification/Totp.v ===== *)
(** * Totp: one-time passwords of RFC 6238

    Models internal/crypto/totp.go: secrets in unpadded base32, HOTP by dynamic
    truncation of HMAC-SHA1 and the window [ValidateTOTPCode] accepts, with
    [isValidTOTPCode] of internal/handler/totp.go.  HMAC-SHA1 is a parameter;
    all that is used of it is that a sum is twenty bytes. *)
From S2P Require Import Prelude GoStd Crypto Json Bytes Base64.
From stdpp Require Import list.
From Stdlib Require Import Ascii.
Open Scope string_scope.
Open Scope Z_scope.

(** ** encoding/base32, standard alphabet, no padding *)
Definition b32_enc (d : Z) : ascii := chr (if d <? 26 then 65 + d else 24 + d).
Definition b32_dec (c : ascii) : option Z :=
  if (65 <=? code c) && (code c <=? 90) then Some (code c - 65)
  else if (50 <=? code c) && (code c <=? 55) then Some (code c - 24) else None.

(** [n] digits of a number, and the number of a run of digits. *)
Fixpoint fill32 (n : nat) (z : Z) : string :=
  match n with O => "" | S n' => String (b32_enc (z / 32 ^ Z.of_nat n' mod 32)) (fill32 n' z) end.
Fixpoint value32 (acc : Z) (s : string) : option Z :=
  match s with "" => Some acc | String c r => d ← b32_dec c; value32 (acc * 32 + d) r end.

(** Characters a last group of [n] bytes takes, and bytes a last group of [m]
    characters yields; 1, 3 and 6 characters yield nothing. *)
Definition chars_of (n : nat) : nat := nth n [0; 2; 4; 5; 7; 8]%nat 0%nat.
Definition bytes_of (m : nat) : nat := nth m [0; 0; 1; 0; 2; 3; 0; 4; 5]%nat 0%nat.

Definition encode_group (g : string) : string :=
  let n := String.length g in
  fill32 (chars_of n) (be_value g * 2 ^ (5 * Z.of_nat (chars_of n) - 8 * Z.of_nat n)).
Definition decode_group (g : string) : option string :=
  let m := String.length g in
  v ← value32 0 g; Some (be_fill (bytes_of m) (v / 2 ^ (5 * Z.of_nat m - 8 * Z.of_nat (bytes_of m)))).

(** Group after group; the fuel is the length of the input. *)
Fixpoint b32_encode_aux (fuel : nat) (s : string) : string :=
  match fuel, s with
  | S fuel', String _ _ => encode_group (take_str 5 s) +:+ b32_encode_aux fuel' (drop_str 5 s)
  | _, _ => ""
  end.
Definition b32_encode (s : string) : string := b32_encode_aux (String.length s) s.
Fixpoint b32_decode_aux (fuel : nat) (s : string) : option string :=
  match fuel, s with
  | S fuel', String _ _ => g ← decode_group (take_str 8 s); r ← b32_decode_aux fuel' (drop_str 8 s); Some (g +:+ r)
  | _, _ => Some ""
  end.
(** [DecodeString] skips line breaks. *)
Definition b32_decode (s : string) : option string :=
  let s := drop_breaks s in b32_decode_aux (String.length s) s.

(** ** Codes *)
Class HMACSHA1 := { hmac_sha1 : string → string → string (** key, message *) }.
Class HMACSHA1Size `{HMACSHA1} := { hmac_sha1_size k m : String.length (hmac_sha1 k m) = 20%nat }.

Definition totpPeriod : Z := 30.
Definition totpDigits : nat := 6.
Definition totpSkew : Z := 1.

(** [t.Unix()] of an instant in nanoseconds. *)
Definition Unix (t : Z) : Z := t / second.

Section totp.
Context `{HMACSHA1}.

(** [draw] is the outcome of reading twenty bytes of entropy. *)
Definition GenerateTOTPSecret (draw : option string) : option string := b ← draw; Some (b32_encode b).

Definition generateHOTP (key : string) (counter : Z) : string :=
  let sum := hmac_sha1 key (be_fill 8 counter) in
  let offset := Z.land (code (default (chr 0) (String.get (String.length sum - 1) sum))) 15 in
  let c := Z.land (Uint32 (take_str 4 (drop_str (Z.to_nat offset) sum))) (2 ^ 31 - 1) in
  Sprintf06d (c mod 1000000).

Inductive totpErr := ErrSecret | ErrNegativeTime.

Definition GenerateTOTPCode (secret : string) (t : Z) : res totpErr string :=
  match b32_decode (ToUpper secret) with
  | None => Err ErrSecret
  | Some key => if Unix t <? 0 then Err ErrNegativeTime else Ok (generateHOTP key (Unix t / totpPeriod))
  end.

(** The offsets from [-totpSkew] to [totpSkew], in that order; the first match
    is the step that was used. *)
Fixpoint match_step (key presented : string) (counter : Z) (offsets : list Z) : Z :=
  match offsets with
  | [] => -1
  | offset :: rest =>
      let step := counter + offset in
      if step <? 0 then match_step key presented counter rest
      else if SecureCompare (generateHOTP key step) presented then step
      else match_step key presented counter rest
  end.
(** [int64] division truncates. *)
Definition ValidateTOTPCode (secret presented : string) (t : Z) : res totpErr Z :=
  match b32_decode (ToUpper secret) with
  | None => Err ErrSecret
  | Some key => Ok (match_step key presented (Z.quot (Unix t) totpPeriod) [-totpSkew; 0; totpSkew])
  end.

Definition isValidTOTPCode (s : string) : bool :=
  (String.length s =? 6)%nat && all_chars (λ c, (48 <=? code c) && (code c <=? 57)) s.
End totp.

(** ** Base32 round trip *)
Lemma b32_dec_enc d : 0 ≤ d < 32 → b32_dec (b32_enc d) = Some d.
Proof.
  intros Hd. unfold b32_dec, b32_enc. destruct (d <? 26) eqn:E; bool_hyps; rewrite code_chr by lia.
  - rewrite !(proj2 (Z.leb_le _ _)) by lia. cbn. f_equal. lia.
  - rewrite (proj2 (Z.leb_gt 65 _)) by lia. rewrite !(proj2 (Z.leb_le _ _)) by lia. cbn. f_equal. lia.
Qed.
Lemma value32_fill n z acc : value32 acc (fill32 n z) = Some (acc * 32 ^ Z.of_nat n + z mod 32 ^ Z.of_nat n).
Proof.
  revert acc. induction n as [|n IH]; intros acc; cbn [value32 fill32].
  - cbn. rewrite Z.mod_1_r. f_equal. lia.
  - rewrite b32_dec_enc by (apply Z.mod_pos_bound; lia). cbn [mbind option_bind]. rewrite IH. f_equal.
    rewrite Nat2Z.inj_succ, Z.pow_succ_r by lia. set (p := 32 ^ Z.of_nat n).
    assert (0 < p) by (apply Z.pow_pos_nonneg; lia).
    rewrite (Z.mul_comm 32 p), (Z.rem_mul_r z p 32) by lia. lia.
Qed.
Lemma fill32_length n z : String.length (fill32 n z) = n.
Proof. induction n as [|n IH]; [done|]. cbn. by rewrite IH. Qed.

Lemma encode_group_length g : String.length (encode_group g) = chars_of (String.length g).
Proof. apply fill32_length. Qed.

Lemma decode_encode_group g : (1 ≤ String.length g ≤ 5)%nat → decode_group (encode_group g) = Some g.
Proof.
  intros Hg. unfold decode_group. rewrite encode_group_length. unfold encode_group.
  rewrite value32_fill. cbn [mbind option_bind]. f_equal.
  pose proof (be_value_range g) as Hr. etrans; [|apply be_fill_value].
  set (v := be_value g) in *.
  assert (Hn : (String.length g = 1 ∨ String.length g = 2 ∨ String.length g = 3 ∨ String.length g = 4 ∨ String.length g = 5)%nat) by lia.
  destruct Hn as [Hn|[Hn|[Hn|[Hn|Hn]]]]; rewrite Hn in *; cbn [chars_of bytes_of nth];
    (rewrite Z.mod_small by (cbn in *; lia)); f_equal; rewrite Z.mul_0_l, Z.add_0_l; by apply Z.div_mul.
Qed.

Lemma take_drop_str n s : take_str n s +:+ drop_str n s = s.
Proof. revert s. induction n as [|n IH]; intros [|c s]; try done. cbn [take_str drop_str]. by rewrite string_app_cons, IH. Qed.
Lemma take_str_length n s : String.length (take_str n s) = Nat.min n (String.length s).
Proof. revert s. induction n as [|n IH]; intros [|c s]; try done. cbn. by rewrite IH. Qed.
Lemma drop_str_length n s : String.length (drop_str n s) = (String.length s - n)%nat.
Proof. revert s. induction n as [|n IH]; intros [|c s]; try done. cbn. by rewrite IH. Qed.

Lemma take_str_all n s : (String.length s ≤ n)%nat → take_str n s = s.
Proof. revert s. induction n as [|n IH]; intros [|c s] Hs; cbn in *; try done; [lia|]. by rewrite IH by lia. Qed.
Lemma drop_str_all n s : (String.length s ≤ n)%nat → drop_str n s = "".
Proof. revert s. induction n as [|n IH]; intros [|c s] Hs; cbn in *; try done; [lia|]. by rewrite IH by lia. Qed.

Lemma b32_decode_nil f : b32_decode_aux f "" = Some "".
Proof. by destruct f. Qed.
Lemma b32_round_aux f s f' :
  (String.length s ≤ f)%nat → (String.length (b32_encode_aux f s) ≤ f')%nat →
  b32_decode_aux f' (b32_encode_aux f s) = Some s.
Proof.
  revert s f'. induction f as [|f IH]; intros s f' Hf Hf'.
  { destruct s; [|cbn in Hf; lia]. apply b32_decode_nil. }
  destruct s as [|c s]; [apply b32_decode_nil|]. cbn [b32_encode_aux] in *.
  set (t := String c s) in *. assert (Ht : (1 ≤ String.length t)%nat) by (cbn; lia).
  pose proof (take_str_length 5 t) as Hl. pose proof (drop_str_length 5 t) as Hd.
  pose proof (encode_group_length (take_str 5 t)) as Hg.
  assert (Hc : (2 ≤ chars_of (String.length (take_str 5 t)) ≤ 8)%nat).
  { assert (Hn : (1 ≤ String.length (take_str 5 t) ≤ 5)%nat) by lia.
    revert Hn. generalize (String.length (take_str 5 t)). intros n Hn. unfold chars_of.
    do 6 (destruct n as [|n]; [cbn; lia|]). lia. }
  rewrite string_app_length in Hf'.
  destruct (encode_group (take_str 5 t)) as [|x y] eqn:Ee; [rewrite <-Hg in Hc; cbn in Hc; lia|].
  destruct f' as [|f']; [cbn in Hf'; lia|]. cbn [b32_decode_aux]. rewrite string_app_cons.
  rewrite <-string_app_cons, <-Ee in *.
  destruct (decide (5 ≤ String.length t)%nat) as [H5|H5].
  - assert (H8 : String.length (encode_group (take_str 5 t)) = 8%nat) by (rewrite Hg, Hl, Nat.min_l by lia; done).
    destruct (take_drop_app _ (b32_encode_aux f (drop_str 5 t)) 8 H8) as [-> ->].
    rewrite decode_encode_group by lia. cbn [mbind option_bind].
    rewrite IH by lia. cbn [mbind option_bind]. by rewrite take_drop_str.
  - rewrite (drop_str_all 5 t), (take_str_all 5 t) in * by lia.
    replace (b32_encode_aux f "") with "" in * by (by destruct f). rewrite string_app_nil_r in *.
    rewrite take_str_all, drop_str_all by lia. rewrite decode_encode_group by lia. cbn [mbind option_bind].
    rewrite b32_decode_nil. cbn [mbind option_bind]. by rewrite string_app_nil_r.
Qed.

Definition b32_char (c : ascii) : bool := (65 <=? code c) && (code c <=? 90) || (50 <=? code c) && (code c <=? 55).
Lemma all_chars_app p a b : all_chars p (a +:+ b) = all_chars p a && all_chars p b.
Proof. induction a as [|c a IH]; [done|]. rewrite string_app_cons. cbn. by rewrite IH, andb_assoc. Qed.
Lemma fill32_chars n z : all_chars b32_char (fill32 n z) = true.
Proof.
  induction n as [|n IH]; [done|]. cbn [fill32 all_chars]. rewrite IH, andb_true_r.
  set (d := z / _ mod 32). assert (Hd : 0 ≤ d < 32) by (apply Z.mod_pos_bound; lia).
  unfold b32_char, b32_enc. destruct (d <? 26) eqn:E; bool_hyps; rewrite code_chr by lia.
  - by rewrite !(proj2 (Z.leb_le _ _)) by lia.
  - rewrite orb_comm. by rewrite !(proj2 (Z.leb_le _ _)) by lia.
Qed.
Lemma b32_encode_chars s : all_chars b32_char (b32_encode s) = true.
Proof.
  unfold b32_encode. generalize (String.length s). intros f. revert s.
  induction f as [|f IH]; intros [|c s]; try done. cbn [b32_encode_aux].
  rewrite all_chars_app, IH, andb_true_r. apply fill32_chars.
Qed.
(** Text of the alphabet has no line breaks and is in upper case. *)
Lemma b32_plain s : all_chars b32_char s = true → drop_breaks s = s ∧ ToUpper s = s.
Proof.
  induction s as [|c s IH]; [done|]. cbn [all_chars drop_breaks ToUpper]. intros [Hc Hs]%andb_prop.
  destruct (IH Hs) as [-> ->]. unfold b32_char in Hc. unfold upper_ascii.
  apply orb_prop in Hc. 
  destruct ((code c =? 10) || (code c =? 13)) eqn:E1; [destruct Hc; bool_hyps; lia|].
  destruct ((97 <=? code c) && (code c <=? 122)) eqn:E2; [destruct Hc; bool_hyps; lia|]. done.
Qed.
Lemma b32_round_trip b : b32_decode (ToUpper (b32_encode b)) = Some b.
Proof.
  destruct (b32_plain _ (b32_encode_chars b)) as [Hd ->]. unfold b32_decode. rewrite Hd.
  by apply b32_round_aux.
Qed.

Section totp_facts.
Context `{HMACSHA1}.

Lemma hotp_six_digits key n : six_digits (generateHOTP key n).
Proof. apply Sprintf06d_spec, Z.mod_pos_bound. lia. Qed.

Lemma six_digits_valid c : six_digits c → isValidTOTPCode c = true.
Proof.
  intros [Hl Hd]. unfold isValidTOTPCode. rewrite Hl. cbn [Nat.eqb andb]. clear Hl.
  induction c as [|x c IH]; [done|]. destruct Hd as [Hx Hd]. cbn [all_chars]. rewrite IH by done.
  unfold is_digit in Hx. by rewrite Hx.
Qed.

(** The first step of the window that matches, [-1] when none does. *)
Definition window_spec (key presented : string) (counter : Z) (offs : list Z) (step : Z) : Prop :=
  step = -1 ∧ (∀ o, o ∈ offs → 0 ≤ counter + o → generateHOTP key (counter + o) ≠ presented) ∨
  0 ≤ step ∧ generateHOTP key step = presented ∧ step - counter ∈ offs.
Lemma window_skip key presented counter o offs step :
  (0 ≤ counter + o → generateHOTP key (counter + o) ≠ presented) →
  window_spec key presented counter offs step → window_spec key presented counter (o :: offs) step.
Proof.
  intros Hno [[He Hall]|(H0 & He & Hin)]; [left|right].
  - split; [done|]. intros o' [->|Ho']%elem_of_cons; auto.
  - split_and!; [done|done|]. apply elem_of_cons. by right.
Qed.
Lemma match_step_spec key presented counter offs :
  window_spec key presented counter offs (match_step key presented counter offs).
Proof.
  induction offs as [|o offs IH]; cbn [match_step]; [left; split; [done|by intros o Ho%elem_of_nil]|].
  destruct (counter + o <? 0) eqn:En; bool_hyps; [apply window_skip; [lia|done]|].
  rewrite SecureCompare_eq. case_bool_decide as Ec; [|by apply window_skip].
  right. split_and!; [lia|done|]. replace (counter + o - counter) with o by lia. left.
Qed.

(** An accepted step is within one of the clock's. *)
Lemma validate_window secret c t step :
  0 ≤ t → ValidateTOTPCode secret c t = Ok step → 0 ≤ step → Z.abs (step - Unix t / totpPeriod) ≤ totpSkew.
Proof.
  intros Ht. unfold ValidateTOTPCode. destruct (b32_decode _) as [key|]; [|done]. intros E H0.
  assert (0 ≤ Unix t) by (by apply Z.div_pos). rewrite Z.quot_div_nonneg in E by (done || lia).
  set (n := Unix t / totpPeriod) in *.
  assert (step = match_step key c n [-totpSkew; 0; totpSkew]) as -> by congruence.
  destruct (match_step_spec key c n [-totpSkew; 0; totpSkew]) as [[Em _]|(_ & _ & Ho)]; [by rewrite Em in H0|].
  revert Ho. unfold totpSkew. rewrite !elem_of_cons, elem_of_nil. lia.
Qed.
(** The instants a step is acceptable at: ninety seconds. *)
Lemma window_instants step t :
  Z.abs (step - Unix t / totpPeriod) ≤ totpSkew → (step - 1) * totpPeriod * second ≤ t < (step + 2) * totpPeriod * second.
Proof. unfold Unix, totpPeriod, totpSkew, second. intros Hs. divmod. Qed.

(** Codes and the window: the code an authenticator shows for a secret the
    server issued is six digits and is accepted exactly while the clock is
    within one 30-second step of it; conversely an accepted code is the HOTP
    value of a step within one of the clock's, and that step is returned. *)
Theorem totp_window_exact b secret t :
  GenerateTOTPSecret (Some b) = Some secret → 0 ≤ t →
  (∀ t' c, 0 ≤ t' → GenerateTOTPCode secret t' = Ok c →
     isValidTOTPCode c = true ∧
     (Z.abs (Unix t' / totpPeriod - Unix t / totpPeriod) ≤ totpSkew →
      ∃ step, ValidateTOTPCode secret c t = Ok step ∧ 0 ≤ step)) ∧
  (∀ c step, ValidateTOTPCode secret c t = Ok step → 0 ≤ step →
     c = generateHOTP b step ∧ Z.abs (step - Unix t / totpPeriod) ≤ totpSkew ∧ six_digits c) ∧
  (∀ c, (∀ k, 0 ≤ k → Z.abs (k - Unix t / totpPeriod) ≤ totpSkew → c ≠ generateHOTP b k) →
     ValidateTOTPCode secret c t = Ok (-1)).
Proof.
  cbn [GenerateTOTPSecret mbind option_bind]. intros [= <-] Ht.
  unfold GenerateTOTPCode, ValidateTOTPCode. rewrite b32_round_trip.
  assert (Hu : 0 ≤ Unix t) by (by apply Z.div_pos).
  rewrite Z.quot_div_nonneg by (done || lia). set (n := Unix t / totpPeriod).
  assert (Hn : 0 ≤ n) by (by apply Z.div_pos).
  assert (Hw : ∀ o, o ∈ [-totpSkew; 0; totpSkew] ↔ Z.abs o ≤ totpSkew).
  { intros o. unfold totpSkew. rewrite !elem_of_cons, elem_of_nil. lia. }
  split_and!.
  - intros t' c Ht'. destruct (Unix t' <? 0); [done|]. intros [= <-].
    split; [apply six_digits_valid, hotp_six_digits|]. intros Hk. eexists. split; [done|].
    destruct (match_step_spec b (generateHOTP b (Unix t' / totpPeriod)) n [-totpSkew; 0; totpSkew])
      as [[_ Hall]|(H0 & _)]; [exfalso|done].
    apply (Hall (Unix t' / totpPeriod - n)); [by apply Hw| |]; rewrite Z.add_comm, Z.sub_add; [|done].
    apply Z.div_pos; [by apply Z.div_pos|done].
  - intros c step Es H0. assert (step = match_step b c n [-totpSkew; 0; totpSkew]) as -> by congruence. clear Es.
    destruct (match_step_spec b c n [-totpSkew; 0; totpSkew]) as [[E _]|(_ & Hc & Ho)]; [by rewrite E in H0|].
    apply Hw in Ho. split_and!; [done|done|rewrite <-Hc; apply hotp_six_digits..].
  - intros c Hno. destruct (match_step_spec b c n [-totpSkew; 0; totpSkew]) as [[-> _]|(H0 & Hc & Ho)]; [done|].
    exfalso. apply Hw in Ho. by eapply Hno.
Qed.
End totp_facts.

Module TotpDemo.
#[local] Instance hmac : HMACSHA1 := { hmac_sha1 k m := take_str 20 (k +:+ m +:+ zeros 20) }.
#[local] Instance size : HMACSHA1Size.
Proof.
  constructor. intros k m. cbn [hmac_sha1 hmac]. rewrite take_str_length, !string_app_length, length_zeros. lia.
Qed.
Definition seed : string := "12345678901234567890".
Lemma totp_window_exact_witness : ∃ secret c step,
  GenerateTOTPSecret (Some seed) = Some secret ∧ GenerateTOTPCode secret (59 * second) = Ok c ∧
  isValidTOTPCode c = true ∧ ValidateTOTPCode secret c (89 * second) = Ok step ∧ 0 ≤ step ∧
  Z.abs (step - Unix (89 * second) / totpPeriod) ≤ totpSkew.
Proof.
  destruct (GenerateTOTPSecret (Some seed)) as [secret|] eqn:Es; [|by vm_compute in Es].
  destruct (GenerateTOTPCode secret (59 * second)) as [c|] eqn:Ec; [|by injection Es as <-; vm_compute in Ec].
  destruct (totp_window_exact seed secret (89 * second) Es) as (H1 & H2 & _); [done|].
  destruct (H1 (59 * second) c ltac:(done) Ec) as [Hv Hs]. destruct Hs as (step & Hk & H0); [by vm_compute|].
  destruct (H2 c step Hk H0) as (_ & Hd & _). exists secret, c, step. by split_and!.
Defined.
End TotpDemo.
