(* ===== verification/Jwt.v ===== *)
(** * Jwt: splitting, decoding and validating tokens

    Models internal/jwt ([splitToken], the strict base64url of jwt.go,
    [refuseAmbiguousClaimNames], [validateClaims], [ParseWithClaims],
    [ParseUnverified]) and the access-token entry point of
    internal/crypto/jwt.go ([ParseAndValidate], [isValidKID],
    [encodeRSAExponent], [SerializeJWKS]).  Signature verification is a
    parameter: RSA and ECDSA are the standard library's. *)
From S2P Require Import Prelude GoStd Crypto Json Bytes Base64.
From stdpp Require Import list sorting.
From Stdlib Require Import Ascii.
Open Scope string_scope.
Open Scope Z_scope.

Inductive jwtErr :=
| ErrTokenMalformed | ErrTokenUnverifiable | ErrTokenSignatureInvalid
| ErrTokenExpired | ErrTokenNotValidYet | ErrTokenUsedBeforeIssued
| ErrTokenInvalidAudience | ErrTokenInvalidIssuer | ErrTokenRequiredClaimMissing
| ErrInvalidKeyType | ErrTooLarge.

#[export] Instance jwtErr_eq_dec : EqDecision jwtErr.
Proof. solve_decision. Defined.

(** ** base64url without padding, strict *)
Definition enc6 (n : Z) : ascii :=
  if n <? 26 then chr (65 + n)
  else if n <? 52 then chr (97 + (n - 26))
  else if n <? 62 then chr (48 + (n - 52))
  else if n =? 62 then chr 45 else chr 95.

Definition dec6 (c : ascii) : option Z :=
  let n := code c in
  if (65 <=? n) && (n <=? 90) then Some (n - 65)
  else if (97 <=? n) && (n <=? 122) then Some (n - 71)
  else if (48 <=? n) && (n <=? 57) then Some (n + 4)
  else if n =? 45 then Some 62 else if n =? 95 then Some 63 else None.

Definition encodeSegment (s : string) : string := raw_encode enc6 s.
(** [base64.RawURLEncoding.Strict().DecodeString] *)
Definition DecodeString (s : string) : option string := raw_decode dec6 true s.

(** The alphabet check that keeps the decoder from skipping line breaks. *)
Definition segment_char (c : ascii) : bool :=
  let n := code c in
  ((65 <=? n) && (n <=? 90)) || ((97 <=? n) && (n <=? 122)) || ((48 <=? n) && (n <=? 57)) ||
  (n =? 45) || (n =? 95).
Definition decodeSegment (seg : string) : option string :=
  if all_chars segment_char seg then DecodeString seg else None.

(** ** Splitting *)
(** [strings.Cut(s, ".")] *)
Fixpoint cut_dot (s : string) : option (string * string) :=
  match s with
  | "" => None
  | String c r => if code c =? 46 then Some ("", r)
                  else '(h, t) ← cut_dot r; Some (String c h, t)
  end.

Definition splitToken (raw : string) : option (string * string * string) :=
  '(h, remain) ← cut_dot raw;
  '(p, remain) ← cut_dot remain;
  match cut_dot remain with Some _ => None | None => Some (h, p, remain) end.

(** ** Claims from a payload *)
(** [refuseAmbiguousClaimNames]: no two top-level names that fold to one. *)
Definition refuseAmbiguousClaimNames (payload : string) : res jwtErr unit :=
  match json_parse payload with
  | None => Err ErrTokenMalformed
  | Some (JObj m) => if decide (NoDup ((λ p, ToLower p.1) <$> m)) then Ok tt else Err ErrTokenMalformed
  | Some _ => Ok tt
  end.

(** The value of a decimal literal as a fraction: [m * 10^e]. *)
Definition decimal (lit : string) : option (Z * Z) :=
  let '(neg, s1) := match lit with
                    | String c r => if code c =? 45 then (true, r) else (false, lit)
                    | "" => (false, "")
                    end in
  '(i, s2) ← int_part s1; '(fr, s3) ← frac_part s2; '(ex, s4) ← exp_part s3;
  match s4 with
  | "" =>
      let f := match fr with String _ d => d | "" => "" end in
      let e := match ex with
               | String _ (String c d) =>
                   if code c =? 45 then - digits_value d 0
                   else if code c =? 43 then digits_value d 0 else digits_value (String c d) 0
               | _ => 0
               end in
      let m := digits_value (i +:+ f) 0 in
      Some (if neg then - m else m, e - Z.of_nat (String.length f))
  | _ => None
  end.

Definition minNumericDate : Z := -62135596800.
Definition maxNumericDate : Z := 253402300799.

(** [NumericDate.UnmarshalJSON]: a number, or a string that spells one, inside
    the representable range; whole seconds, rounded down. *)
Definition NumericDate_of (v : json) : option Z :=
  lit ← (match v with JNum l => Some l | JStr s => Some s | _ => None end);
  '(m, e) ← decimal lit;
  let '(num, den) := if 0 <=? e then (m * 10 ^ e, 1) else (m, 10 ^ (- e)) in
  if (minNumericDate * den <=? num) && (num <=? maxNumericDate * den) then Some (num / den) else None.

Definition strings_of (v : json) : option (list string) :=
  match v with
  | JNull => Some []
  | JArr l => mapM (λ x, match x with JStr s => Some s | JNull => Some "" | _ => None end) l
  | _ => None
  end.

(** [ClaimStrings.UnmarshalJSON]; [null] leaves the field. *)
Definition ClaimStrings_of (old : list string) (v : json) : option (list string) :=
  match v with
  | JStr s => Some [s]
  | JArr l => mapM (λ x, match x with JStr s => Some s | _ => None end) l
  | JNull => Some old
  | _ => None
  end.

Definition string_of (old : string) (v : json) : option string :=
  match v with JStr s => Some s | JNull => Some old | _ => None end.
Definition date_of (v : json) : option (option Z) :=
  match v with JNull => Some None | _ => Some <$> NumericDate_of v end.
(** An [int64] field: an integer literal in range. *)
Definition int_of (old : Z) (v : json) : option Z :=
  match v with
  | JNum l => match ParseInt l with (n, None) => Some n | _ => None end
  | JNull => Some old
  | _ => None
  end.
Definition cnf_of (old : option string) (v : json) : option (option string) :=
  match v with
  | JNull => Some None
  | JObj m => Some <$> fold_left (λ acc p, j ← acc; if decide (ToLower p.1 = "jkt") then string_of j p.2 else Some j)
                         m (Some (default "" old))
  | _ => None
  end.

Definition zero_claims : VaultClaims := mkClaims "" [] "" None None None "" [] [] "" "" None "" "" [] 0 [] "" "".

(** One member of the payload into the field its folded name selects. *)
Definition set_claim (c : VaultClaims) (name : string) (v : json) : option VaultClaims :=
  let 'mkClaims iss aud sub exp nbf iat jti roles scopes client fpr cnf tty acr amr at_ factors minted email := c in
  let n := ToLower name in
  if decide (n = "iss") then x ← string_of iss v; Some (mkClaims x aud sub exp nbf iat jti roles scopes client fpr cnf tty acr amr at_ factors minted email)
  else if decide (n = "aud") then x ← ClaimStrings_of aud v; Some (mkClaims iss x sub exp nbf iat jti roles scopes client fpr cnf tty acr amr at_ factors minted email)
  else if decide (n = "sub") then x ← string_of sub v; Some (mkClaims iss aud x exp nbf iat jti roles scopes client fpr cnf tty acr amr at_ factors minted email)
  else if decide (n = "exp") then x ← date_of v; Some (mkClaims iss aud sub x nbf iat jti roles scopes client fpr cnf tty acr amr at_ factors minted email)
  else if decide (n = "nbf") then x ← date_of v; Some (mkClaims iss aud sub exp x iat jti roles scopes client fpr cnf tty acr amr at_ factors minted email)
  else if decide (n = "iat") then x ← date_of v; Some (mkClaims iss aud sub exp nbf x jti roles scopes client fpr cnf tty acr amr at_ factors minted email)
  else if decide (n = "jti") then x ← string_of jti v; Some (mkClaims iss aud sub exp nbf iat x roles scopes client fpr cnf tty acr amr at_ factors minted email)
  else if decide (n = "roles") then x ← strings_of v; Some (mkClaims iss aud sub exp nbf iat jti x scopes client fpr cnf tty acr amr at_ factors minted email)
  else if decide (n = "scopes") then x ← strings_of v; Some (mkClaims iss aud sub exp nbf iat jti roles x client fpr cnf tty acr amr at_ factors minted email)
  else if decide (n = "client_id") then x ← string_of client v; Some (mkClaims iss aud sub exp nbf iat jti roles scopes x fpr cnf tty acr amr at_ factors minted email)
  else if decide (n = "fingerprint") then x ← string_of fpr v; Some (mkClaims iss aud sub exp nbf iat jti roles scopes client x cnf tty acr amr at_ factors minted email)
  else if decide (n = "cnf") then x ← cnf_of cnf v; Some (mkClaims iss aud sub exp nbf iat jti roles scopes client fpr x tty acr amr at_ factors minted email)
  else if decide (n = "token_type") then x ← string_of tty v; Some (mkClaims iss aud sub exp nbf iat jti roles scopes client fpr cnf x acr amr at_ factors minted email)
  else if decide (n = "acr") then x ← string_of acr v; Some (mkClaims iss aud sub exp nbf iat jti roles scopes client fpr cnf tty x amr at_ factors minted email)
  else if decide (n = "amr") then x ← strings_of v; Some (mkClaims iss aud sub exp nbf iat jti roles scopes client fpr cnf tty acr x at_ factors minted email)
  else if decide (n = "auth_time") then x ← int_of at_ v; Some (mkClaims iss aud sub exp nbf iat jti roles scopes client fpr cnf tty acr amr x factors minted email)
  else if decide (n = "factors") then x ← strings_of v; Some (mkClaims iss aud sub exp nbf iat jti roles scopes client fpr cnf tty acr amr at_ x minted email)
  else if decide (n = "minted_by") then x ← string_of minted v; Some (mkClaims iss aud sub exp nbf iat jti roles scopes client fpr cnf tty acr amr at_ factors x email)
  else if decide (n = "email") then x ← string_of email v; Some (mkClaims iss aud sub exp nbf iat jti roles scopes client fpr cnf tty acr amr at_ factors minted x)
  else Some c.

(** [json.Unmarshal(payload, &VaultClaims{})]: a member of the wrong type is an
    error; [null] alone leaves the zero value. *)
Definition unmarshal_claims (payload : string) : option VaultClaims :=
  match json_parse payload with
  | Some (JObj m) => fold_left (λ acc p, c ← acc; set_claim c p.1 p.2) m (Some zero_claims)
  | Some JNull => Some zero_claims
  | _ => None
  end.

(** ** The claims interface *)
Class Claims (A : Type) := {
  unmarshal : string → option A;
  GetExpirationTime : A → option Z;
  GetIssuedAt : A → option Z;
  GetNotBefore : A → option Z;
  GetIssuer : A → string;
  GetAudience : A → list string;
}.
#[export] Instance vault_claims : Claims VaultClaims := {
  unmarshal := unmarshal_claims;
  GetExpirationTime := CExpiresAt;
  GetIssuedAt := IssuedAt;
  GetNotBefore := NotBefore;
  GetIssuer := Issuer;
  GetAudience := Audience;
}.

Record validationConfig := mkConfig {
  validMethods : list string;
  expectedIssuer : string;
  expectedAud : string;
  requireExp : bool;
  verifyIat : bool;
  skipValidation : bool;
}.

(** [now.Before(d.Time)], the claim in seconds and the clock in nanoseconds. *)
Definition before (now d : Z) : bool := now <? d * second.

(** Every failed check is collected; the empty list is a nil error. *)
Definition validateClaims {A} `{Claims A} (now : Z) (c : A) (cfg : validationConfig) : list jwtErr :=
  (match GetExpirationTime c with
   | None => if requireExp cfg then [ErrTokenRequiredClaimMissing] else []
   | Some e => if before now e then [] else [ErrTokenExpired]
   end ++
   match GetNotBefore c with
   | Some n => if before now n then [ErrTokenNotValidYet] else []
   | None => []
   end ++
   (if verifyIat cfg then
      match GetIssuedAt c with
      | Some i => if before now i then [ErrTokenUsedBeforeIssued] else []
      | None => []
      end else []) ++
   (if decide (expectedIssuer cfg = "") then []
    else if decide (GetIssuer c = expectedIssuer cfg) then [] else [ErrTokenInvalidIssuer]) ++
   (if decide (expectedAud cfg = "") then []
    else if decide (expectedAud cfg ∈ GetAudience c) then [] else [ErrTokenInvalidAudience]))%list.

(** ** Verification *)
(** [*rsa.PublicKey] and [*ecdsa.PublicKey], the latter with its curve. *)
Inductive publicKey := RSAKey (n e : Z) | ECKey (crv : string) (x y : Z).

(** [rsa.VerifyPKCS1v15] over the SHA-256 of the signing string and
    [ecdsa.VerifyASN1] over the same with a DER signature, on P-256. *)
Class Verifier := {
  rsa_verifies : string → string → Z → Z → bool;  (** signing string, signature, n, e *)
  ec_verifies : string → string → Z → Z → bool;   (** signing string, DER, x, y *)
}.

(** *** ES256 signatures *)
(** [asn1.Marshal] of a non-negative integer: a zero byte keeps the sign. *)
Definition der_int (z : Z) : string :=
  let b := be_bytes z in
  let c := match b with
           | "" => String (chr 0) ""
           | String h _ => if 128 <=? code h then String (chr 0) b else b
           end in
  String (chr 2) (String (chr (Z.of_nat (String.length c))) c).

(** [rawRSToDER]: two halves as a sequence of two integers. *)
Definition rawRSToDER (sig : string) : string :=
  let half := (String.length sig / 2)%nat in
  let r := be_value (String.substring 0 half sig) in
  let s := be_value (String.substring half (String.length sig - half) sig) in
  let body := der_int r +:+ der_int s in
  String (chr 48) (String (chr (Z.of_nat (String.length body))) body).

(** [isRawRS] on P-256: exactly two coordinates. *)
Definition isRawRS (sig : string) : bool := (String.length sig =? 64)%nat.

Definition VerifyES256 `{Verifier} (signing sig crv : string) (x y : Z) : res jwtErr unit :=
  if negb (bool_decide (crv = "P-256")) then Err ErrInvalidKeyType
  else
    let derSig := if isRawRS sig then rawRSToDER sig else sig in
    if ec_verifies signing derSig x y then Ok tt else Err ErrTokenSignatureInvalid.

Definition VerifyRS256 `{Verifier} (signing sig : string) (n e : Z) : res jwtErr unit :=
  if rsa_verifies signing sig n e then Ok tt else Err ErrTokenSignatureInvalid.

Section parse.
Context `{Verifier}.

(** The header of a token: [null] decodes to no members. *)
Definition unmarshal_header (b : string) : option (list (string * json)) :=
  match json_parse b with Some (JObj m) => Some m | Some JNull => Some [] | _ => None end.

(** The signature switch. *)
Definition verify_signature (alg signing sig : string) (key : publicKey) : res jwtErr unit :=
  if decide (alg = "RS256") then
    match key with
    | RSAKey n e => VerifyRS256 signing sig n e
    | _ => Err ErrInvalidKeyType
    end
  else if decide (alg = "ES256") then
    match key with
    | ECKey crv x y => VerifyES256 signing sig crv x y
    | _ => Err ErrInvalidKeyType
    end
  else Err ErrTokenUnverifiable.

Definition ParseWithClaims {A} `{Claims A} (now : Z) (tokenString : string)
    (keyFunc : option (list (string * json) → option publicKey)) (cfg : validationConfig)
  : res (list jwtErr) A :=
  match splitToken tokenString with
  | None => Err [ErrTokenMalformed]
  | Some (headerSeg, payloadSeg, sigSeg) =>
    match decodeSegment headerSeg ≫= unmarshal_header with
    | None => Err [ErrTokenMalformed]
    | Some header =>
      let alg := get_string "alg" header in
      if decide (alg = "") then Err [ErrTokenUnverifiable]
      else if negb (bool_decide (validMethods cfg = [])) && negb (bool_decide (alg ∈ validMethods cfg))
      then Err [ErrTokenSignatureInvalid]
      else
        match decodeSegment payloadSeg with
        | None => Err [ErrTokenMalformed]
        | Some claimsBytes =>
          match refuseAmbiguousClaimNames claimsBytes with
          | Err e => Err [e]
          | Ok _ =>
            match unmarshal claimsBytes with
            | None => Err [ErrTokenMalformed]
            | Some claims =>
              match decodeSegment sigSeg with
              | None => Err [ErrTokenMalformed]
              | Some sigBytes =>
                match keyFunc ≫= (λ f, f header) with
                | None => Err [ErrTokenUnverifiable]
                | Some key =>
                  match verify_signature alg (headerSeg +:+ "." +:+ payloadSeg) sigBytes key with
                  | Err e => Err [e]
                  | Ok _ =>
                    match (if skipValidation cfg then [] else validateClaims now claims cfg) with
                    | [] => Ok claims
                    | errs => Err errs
                    end
                  end
                end
              end
            end
          end
        end
    end
  end.

(** Header, claims and signature, none of them verified. *)
Definition ParseUnverified {A} `{Claims A} (tokenString : string)
  : res (list jwtErr) (list (string * json) * A * string) :=
  match splitToken tokenString with
  | None => Err [ErrTokenMalformed]
  | Some (headerSeg, payloadSeg, sigSeg) =>
    match decodeSegment headerSeg ≫= unmarshal_header with
    | None => Err [ErrTokenMalformed]
    | Some header =>
      match decodeSegment payloadSeg with
      | None => Err [ErrTokenMalformed]
      | Some claimsBytes =>
        match refuseAmbiguousClaimNames claimsBytes with
        | Err e => Err [e]
        | Ok _ =>
          match unmarshal claimsBytes with
          | None => Err [ErrTokenMalformed]
          | Some claims => Ok (header, claims, default "" (decodeSegment sigSeg))
          end
        end
      end
    end
  end.

(** ** Access tokens *)
Definition MaxJWTSize : Z := 8 * 1024.
Definition AllowedAlgorithm : string := "RS256".

Definition kid_char (c : ascii) : bool :=
  let n := code c in
  ((48 <=? n) && (n <=? 57)) || ((97 <=? n) && (n <=? 102)) || ((65 <=? n) && (n <=? 70)) || (n =? 45).
Definition isValidKID (kid : string) : bool :=
  negb (Nat.eqb (String.length kid) 0) && negb (64 <? String.length kid)%nat && all_chars kid_char kid.

(** The header checks in front of the caller's key lookup. *)
Definition guarded_key (keyFunc : list (string * json) → option publicKey) (header : list (string * json))
  : option publicKey :=
  if existsb (λ h, bool_decide (is_Some (map_get h header))) ["jku"; "x5u"; "x5c"; "jwk"] then None
  else if bool_decide (is_Some (map_get "crit" header)) then None
  else
    let kid := get_string "kid" header in
    if decide (kid = "") then None
    else if negb (isValidKID kid) then None
    else keyFunc header.

Definition access_config (issuer audience : string) : validationConfig :=
  mkConfig [AllowedAlgorithm] issuer audience true true false.

Definition ParseAndValidate (now : Z) (tokenString : string)
    (keyFunc : list (string * json) → option publicKey) (issuer audience : string)
  : res (list jwtErr) VaultClaims :=
  if MaxJWTSize <? Z.of_nat (String.length tokenString) then Err [ErrTooLarge]
  else ParseWithClaims now tokenString (Some (guarded_key keyFunc)) (access_config issuer audience).
End parse.

(** ** Published keys *)
Record JWK := mkJWK { KTY : string; Use : string; KID : string; ALG : string; N_ : string; E_ : string }.

(** The exponent in as few big-endian bytes as it needs, four at most. *)
Definition byte_at (e k : Z) : ascii := chr (Z.land (Z.shiftr e k) 255).
Definition encodeRSAExponent (e : Z) : string :=
  if e <? 256 then String (byte_at e 0) ""
  else if e <? 65536 then String (byte_at e 8) (String (byte_at e 0) "")
  else if e <? Z.shiftl 1 24 then String (byte_at e 16) (String (byte_at e 8) (String (byte_at e 0) ""))
  else String (byte_at e 24) (String (byte_at e 16) (String (byte_at e 8) (String (byte_at e 0) ""))).

Definition str_le (a b : string) : Prop := String.leb a b = true.
#[export] Instance str_le_dec a b : Decision (str_le a b).
Proof. unfold str_le. apply _. Defined.

(** One key per id, in the order of the ids; a key is its modulus bytes and its
    exponent. *)
Definition SerializeJWKS (keys : gmap string (string * Z)) : list JWK :=
  omap (λ kid, '(n, e) ← keys !! kid;
               Some (mkJWK "RSA" "sig" kid "RS256" (encodeSegment n) (encodeSegment (encodeRSAExponent e))))
    (merge_sort str_le (fst <$> map_to_list keys)).
