(* ===== verification/JwtFacts.v ===== *)
(** * JwtFacts: what an accepted token vouches for

    The segment encoding is canonical, so a token has one spelling; splitting
    is exact; and a token the access-token entry point accepts is signed by the
    looked-up RSA key over exactly its header and payload, carries no header
    that redirects key lookup, and is inside its validity for the configured
    issuer and audience. *)
From S2P Require Import Prelude GoStd Crypto Json Bytes Base64 Jwt.
From stdpp Require Import list.
From Stdlib Require Import Ascii.
Open Scope string_scope.
Open Scope Z_scope.

(** ** Characters *)
Lemma dec6_enc6 n : 0 ≤ n < 64 → dec6 (enc6 n) = Some n.
Proof.
  intros Hn. unfold enc6.
  repeat case_match; bool_hyps; unfold dec6; rewrite code_chr by lia; repeat case_match; bool_hyps; try lia;
    try (f_equal; lia); apply andb_false_iff in H as [?|?]; bool_hyps; lia.
Qed.

Lemma enc6_dec6 c n : dec6 c = Some n → 0 ≤ n < 64 ∧ enc6 n = c ∧ segment_char c = true.
Proof. destruct c as [[] [] [] [] [] [] [] []]; vm_compute; intros [= <-]; split_and!; done. Qed.
Lemma enc6_char n : 0 ≤ n < 64 → segment_char (enc6 n) = true.
Proof. intros Hn. by destruct (enc6_dec6 (enc6 n) n (dec6_enc6 n Hn)) as (_ & _ & ?). Qed.

(** ** The segment encoding is canonical *)
Lemma url_tables n : 0 ≤ n < 64 → dec6 (enc6 n) = Some n ∧ segment_char (enc6 n) = true.
Proof. intros. split; [by apply dec6_enc6|by apply enc6_char]. Qed.
Lemma decode_encode s : DecodeString (encodeSegment s) = Some s ∧ all_chars segment_char (encodeSegment s) = true.
Proof. apply raw_decode_encode, url_tables. Qed.
Lemma encode_decode s b : DecodeString s = Some b → encodeSegment b = s.
Proof. apply raw_encode_decode. intros c n Hd. by destruct (enc6_dec6 c n Hd) as (? & ? & _). Qed.

Lemma decodeSegment_iff s b : decodeSegment s = Some b ↔ s = encodeSegment b.
Proof.
  unfold decodeSegment. split.
  - case_match; [|done]. intros Hd. symmetry. by apply encode_decode.
  - intros ->. destruct (decode_encode b) as [Hd ->]. done.
Qed.

(** ** Splitting is exact *)
Fixpoint no_dot (s : string) : Prop :=
  match s with "" => True | String c r => code c ≠ 46 ∧ no_dot r end.

Lemma cut_dot_some s h t : cut_dot s = Some (h, t) → s = h +:+ "." +:+ t ∧ no_dot h.
Proof.
  revert h t. induction s as [|c r IH]; intros h t; [done|]. cbn [cut_dot].
  destruct (Z.eqb_spec (code c) 46) as [E|E].
  - intros [= <- <-]. split; [|done]. rewrite string_app_nil_l. rewrite <- (chr_code c), E. done.
  - destruct (cut_dot r) as [[h' t']|]; [|done]. cbn. intros [= <- <-].
    destruct (IH h' t' eq_refl) as [-> ?]. by rewrite string_app_cons.
Qed.
Lemma cut_dot_none s : cut_dot s = None ↔ no_dot s.
Proof.
  induction s as [|c r IH]; [done|]. cbn. destruct (Z.eqb_spec (code c) 46) as [E|E]; [naive_solver|].
  destruct (cut_dot r) as [[]|]; cbn; naive_solver.
Qed.
Lemma cut_dot_app h t : no_dot h → cut_dot (h +:+ "." +:+ t) = Some (h, t).
Proof.
  induction h as [|c r IH]; [done|]. cbn [no_dot]. intros [Hc Hr]. rewrite string_app_cons. cbn [cut_dot].
  rewrite (proj2 (Z.eqb_neq _ _) Hc), IH by done. done.
Qed.

Lemma splitToken_iff raw h p s :
  splitToken raw = Some (h, p, s) ↔ raw = h +:+ "." +:+ p +:+ "." +:+ s ∧ no_dot h ∧ no_dot p ∧ no_dot s.
Proof.
  unfold splitToken. split.
  - destruct (cut_dot raw) as [[h' r1]|] eqn:E1; [|done]. cbn.
    destruct (cut_dot r1) as [[p' r2]|] eqn:E2; [|done]. cbn.
    destruct (cut_dot r2) eqn:E3; [done|]. intros [= <- <- <-].
    apply cut_dot_some in E1 as [-> ?], E2 as [-> ?]. by apply cut_dot_none in E3.
  - intros (-> & Hh & Hp & Hs). rewrite cut_dot_app by done. cbn. rewrite cut_dot_app by done. cbn.
    apply cut_dot_none in Hs. by rewrite Hs.
Qed.

(** ** Claim checks *)
Section claims.
Context {A : Type} `{Claims A}.

(** No error is returned exactly when every check passes. *)
Lemma validateClaims_nil now (c : A) cfg :
  validateClaims now c cfg = [] ↔
  (GetExpirationTime c = None ∧ requireExp cfg = false ∨
   ∃ e, GetExpirationTime c = Some e ∧ now < e * second) ∧
  (∀ n, GetNotBefore c = Some n → n * second ≤ now) ∧
  (verifyIat cfg = true → ∀ i, GetIssuedAt c = Some i → i * second ≤ now) ∧
  (expectedIssuer cfg ≠ "" → GetIssuer c = expectedIssuer cfg) ∧
  (expectedAud cfg ≠ "" → expectedAud cfg ∈ GetAudience c).
Proof.
  unfold validateClaims, before. rewrite !app_nil. split.
  - intros (He & Hn & Hi & Hs & Ha). split_and!.
    + destruct (GetExpirationTime c) as [e|]; [right; exists e|left]; repeat case_match; bool_hyps; naive_solver.
    + intros n En. rewrite En in Hn. destruct (Z.ltb_spec now (n * second)); [done|lia].
    + intros Hv i Ei. rewrite Hv, Ei in Hi. destruct (Z.ltb_spec now (i * second)); [done|lia].
    + intros Hne. destruct (decide (expectedIssuer cfg = "")); [done|]. destruct (decide (GetIssuer c = expectedIssuer cfg)); done.
    + intros Hne. destruct (decide (expectedAud cfg = "")); [done|]. destruct (decide (expectedAud cfg ∈ GetAudience c)); done.
  - intros (He & Hn & Hi & Hs & Ha). split_and!.
    + destruct He as [[-> ->]|(e & -> & Hlt)]; [done|]. by rewrite (proj2 (Z.ltb_lt _ _) Hlt).
    + destruct (GetNotBefore c) as [n|]; [|done]. by rewrite (proj2 (Z.ltb_ge _ _) (Hn n eq_refl)).
    + destruct (verifyIat cfg); [|done]. destruct (GetIssuedAt c) as [i|]; [|done].
      by rewrite (proj2 (Z.ltb_ge _ _) (Hi eq_refl i eq_refl)).
    + case_decide; [done|]. by rewrite decide_True by auto.
    + case_decide; [done|]. by rewrite decide_True by auto.
Qed.
End claims.

Section accept.
Context `{Verifier}.

(** Everything a successful parse checked. *)
Lemma ParseWithClaims_ok {A} `{Claims A} now tok kf cfg (c : A) :
  ParseWithClaims now tok kf cfg = Ok c →
  ∃ h p s header payload sig key,
    tok = h +:+ "." +:+ p +:+ "." +:+ s ∧
    (∃ hb, h = encodeSegment hb ∧ unmarshal_header hb = Some header) ∧ p = encodeSegment payload ∧
    s = encodeSegment sig ∧ unmarshal payload = Some c ∧ refuseAmbiguousClaimNames payload = Ok tt ∧
    (validMethods cfg ≠ [] → get_string "alg" header ∈ validMethods cfg) ∧
    (∃ f, kf = Some f ∧ f header = Some key) ∧
    verify_signature (get_string "alg" header) (h +:+ "." +:+ p) sig key = Ok tt ∧
    (skipValidation cfg = false → validateClaims now c cfg = []).
Proof.
  unfold ParseWithClaims. destruct (splitToken tok) as [[[h p] s]|] eqn:Es; [|done].
  apply splitToken_iff in Es as (-> & _).
  destruct (decodeSegment h) as [hb|] eqn:Eh; [|done]. cbn. destruct (unmarshal_header hb) as [header|] eqn:Eu; [|done].
  case_decide; [done|]. destruct (_ && _) eqn:Em; [done|].
  destruct (decodeSegment p) as [payload|] eqn:Ep; [|done].
  destruct (refuseAmbiguousClaimNames payload) as [[]|] eqn:Er; [|done].
  destruct (unmarshal payload) as [c'|] eqn:Ec; [|done]. destruct (decodeSegment s) as [sig|] eqn:Eg; [|done].
  destruct kf as [f|]; [|done]. cbn. destruct (f header) as [key|] eqn:Ef; [|done].
  destruct (verify_signature _ _ _ _) as [[]|] eqn:Ev; [|done].
  destruct (if skipValidation cfg then [] else validateClaims now c' cfg) eqn:Eva; [|done]. intros [= ->].
  apply decodeSegment_iff in Eh, Ep, Eg. exists h, p, s, header, payload, sig, key. split_and!; try done.
  - by exists hb.
  - intros Hne. apply andb_false_iff in Em as [Em|Em]; apply negb_false_iff, bool_decide_eq_true in Em; done.
  - by exists f.
  - intros Hsk. by rewrite Hsk in Eva.
Qed.

(** A header that cannot steer key lookup. *)
Definition plain_header (header : list (string * json)) : Prop :=
  (∀ k, k ∈ ["jku"; "x5u"; "x5c"; "jwk"; "crit"] → map_get k header = None) ∧
  isValidKID (get_string "kid" header) = true.

Lemma guarded_key_ok kf header key :
  guarded_key kf header = Some key → plain_header header ∧ kf header = Some key.
Proof.
  unfold guarded_key, plain_header. cbn [existsb].
  destruct (map_get "jku" header) eqn:E1; [done|]. destruct (map_get "x5u" header) eqn:E2; [done|].
  destruct (map_get "x5c" header) eqn:E3; [done|]. destruct (map_get "jwk" header) eqn:E4; [done|]. cbn.
  destruct (map_get "crit" header) eqn:E5; [done|]. cbn. case_decide; [done|].
  destruct (isValidKID _) eqn:Ek; [|done]. cbn. intros Hk. split_and!; [|done|done].
  intros k Hin. set_unfold in Hin. naive_solver.
Qed.

(** C21. An accepted access token is authentic and current: it is at most 8 KiB
    of exactly three canonically encoded segments; its algorithm is RS256, its
    kid well formed, and no header points key lookup or an extension elsewhere;
    the RSA key looked up for it verified its signature over exactly the header
    and payload as sent; and its claims, read from that payload, are unexpired
    and already valid, issued by the configured issuer for the configured
    audience. *)
Theorem accepted_token_is_authentic now tok kf iss aud c :
  ParseAndValidate now tok kf iss aud = Ok c →
  Z.of_nat (String.length tok) ≤ MaxJWTSize ∧
  ∃ hb payload sig header n e,
    tok = encodeSegment hb +:+ "." +:+ encodeSegment payload +:+ "." +:+ encodeSegment sig ∧
    unmarshal_header hb = Some header ∧ get_string "alg" header = "RS256" ∧ plain_header header ∧
    kf header = Some (RSAKey n e) ∧
    rsa_verifies (encodeSegment hb +:+ "." +:+ encodeSegment payload) sig n e = true ∧
    unmarshal_claims payload = Some c ∧
    (∃ x, CExpiresAt c = Some x ∧ now < x * second) ∧
    (∀ b, NotBefore c = Some b → b * second ≤ now) ∧ (∀ i, IssuedAt c = Some i → i * second ≤ now) ∧
    (iss ≠ "" → Issuer c = iss) ∧ (aud ≠ "" → aud ∈ Audience c).
Proof.
  unfold ParseAndValidate. destruct (Z.ltb_spec MaxJWTSize (Z.of_nat (String.length tok))) as [|Hlen]; [done|].
  intros Hok%ParseWithClaims_ok. destruct Hok as (h & p & s & header & payload & sig & key & -> & (hb & -> & Hh)
    & -> & -> & Hc & _ & Hm & (f & [= <-] & Hk) & Hv & Hval).
  split; [done|]. apply guarded_key_ok in Hk as [Hplain Hk]. specialize (Hm ltac:(done)).
  apply list_elem_of_singleton in Hm. specialize (Hval eq_refl).
  apply validateClaims_nil in Hval as (He & Hn & Hi & Hs & Ha). rewrite Hm in Hv. unfold verify_signature in Hv.
  cbn in Hv. destruct key as [n e|]; [|done]. unfold VerifyRS256 in Hv. destruct (rsa_verifies _ _ n e) eqn:Er; [|done].
  exists hb, payload, sig, header, n, e. split_and!; try done; auto.
  destruct He as [[_ ?]|?]; done.
Qed.

(** A token has one spelling: a segment decodes to some bytes exactly when
    it is their encoding, and a token splits exactly when it is three dot-free
    segments joined by dots; so no change to the text of a token, padding,
    stray bits, line breaks or extra segments, leaves its bytes the same. *)
Theorem token_has_one_spelling seg b raw h p s :
  (decodeSegment seg = Some b ↔ seg = encodeSegment b) ∧
  (splitToken raw = Some (h, p, s) ↔
     raw = h +:+ "." +:+ p +:+ "." +:+ s ∧ no_dot h ∧ no_dot p ∧ no_dot s).
Proof. split; [apply decodeSegment_iff|apply splitToken_iff]. Qed.
End accept.

(** ** A concrete token *)
Module JwtDemo.
#[export] Instance verifier : Verifier := {
  rsa_verifies signing sig n e := bool_decide (sig = "signed by " +:+ FormatInt n);
  ec_verifies _ _ _ _ := false
}.
Definition header : string := quoted "{'alg':'RS256','kid':'ab12-cd','typ':'JWT'}".
Definition payload : string :=
  quoted "{'iss':'iss','sub':'alice','aud':['aud'],'exp':1900,'nbf':1000,'iat':1000,'jti':'j1','roles':['user']}".
Definition token : string :=
  encodeSegment header +:+ "." +:+ encodeSegment payload +:+ "." +:+ encodeSegment "signed by 77".
Definition keys (h : list (string * json)) : option publicKey :=
  if decide (get_string "kid" h = "ab12-cd") then Some (RSAKey 77 65537) else None.
Definition parsed (now : Z) : res (list jwtErr) VaultClaims := ParseAndValidate now token keys "iss" "aud".
End JwtDemo.

Lemma accepted_token_is_authentic_witness :
  ∃ c, JwtDemo.parsed (1500 * second) = Ok c ∧ Subject c = "alice" ∧ Issuer c = "iss" ∧
    ∃ e, CExpiresAt c = Some e ∧ 1500 * second < e * second.
Proof.
  destruct (JwtDemo.parsed (1500 * second)) as [c|] eqn:E; [|by vm_compute in E].
  pose proof (accepted_token_is_authentic (H := JwtDemo.verifier) (1500 * second) JwtDemo.token JwtDemo.keys
    "iss" "aud" c E) as (_ & hb & payload & sig & header & n & e & _ & _ & _ & _ & _ & _ & _ & He & _ & _ & Hi & _).
  exists c. split_and!; [done|by vm_compute in E; simplify_eq|by apply Hi|exact He].
Defined.

(** Expired, and with the payload tampered with: refused. *)
Example late_and_forged :
  JwtDemo.parsed (1900 * second) = Err [ErrTokenExpired] ∧
  ParseAndValidate (H := JwtDemo.verifier) (1500 * second)
    (encodeSegment JwtDemo.header +:+ "." +:+ encodeSegment JwtDemo.payload +:+ "." +:+ encodeSegment "none")
    JwtDemo.keys "iss" "aud" = Err [ErrTokenSignatureInvalid] ∧
  refuseAmbiguousClaimNames (quoted "{'exp':0,'eXP':9999999999}") = Err ErrTokenMalformed.
Proof. by vm_compute. Qed.

(** The published exponent reads back. *)
Lemma encodeRSAExponent_value e : 0 ≤ e < 2 ^ 32 →
  e = fold_left (λ acc c, acc * 256 + code c) (String.list_ascii_of_string (encodeRSAExponent e)) 0.
Proof.
  intros He.
  assert (Hb : ∀ k, 0 ≤ k → code (byte_at e k) = e / 2 ^ k mod 256).
  { intros k Hk. unfold byte_at. rewrite code_chr.
    - rewrite (Z.land_ones _ 8), Z.shiftr_div_pow2 by lia. done.
    - rewrite (Z.land_ones _ 8) by lia. apply Z.mod_pos_bound. lia. }
  unfold encodeRSAExponent. change (Z.shiftl 1 24) with 16777216.
  repeat case_match; bool_hyps; cbn; rewrite ?Hb by lia; cbn; divmod.
Qed.
