(* ===== verification/JwtSign.v ===== *)
(** * JwtSign: issuing tokens, and reading back what was issued

    Models the issuing side of internal/jwt ([SignRS256], [SignRS256Bytes], the
    [MarshalJSON] methods of types.go) and of internal/crypto/jwt.go
    ([SignToken]).  [issued_token_is_read_back]: what the server signs, its own
    parser accepts exactly while the claims hold, and returns unchanged. *)
From S2P Require Import Prelude GoStd Crypto Json JsonEnc Bytes Base64 Jwt JwtFacts.
From stdpp Require Import list gmap.
From Stdlib Require Import Ascii.
Open Scope string_scope.
Open Scope Z_scope.

(** ** RSA keys
    [rsa.SignPKCS1v15] may fail; a key knows its public half. *)
Class Signer := {
  privateKey : Type;
  rsa_sign : string → privateKey → option string;  (** signing string, key *)
  public_half : privateKey → Z * Z;
}.
(** What a signature is for: the public half verifies it. *)
Class SignerLaws `{Signer} `{Verifier} := {
  signature_verifies s k sig : rsa_sign s k = Some sig → rsa_verifies s sig (public_half k).1 (public_half k).2 = true;
}.

(** ** Claims as JSON
    Every member is [omitempty]: the zero value is left out. *)
Definition str_claim (k v : string) : list (string * json) := if decide (v = "") then [] else [(k, JStr v)].
Definition list_claim (k : string) (l : list string) : list (string * json) :=
  match l with [] => [] | _ => [(k, JArr (JStr <$> l))] end.
(** [NumericDate.MarshalJSON]: whole seconds. *)
Definition date_claim (k : string) (d : option Z) : list (string * json) :=
  match d with None => [] | Some t => [(k, JNum (FormatInt t))] end.
Definition int_claim (k : string) (n : Z) : list (string * json) := if n =? 0 then [] else [(k, JNum (FormatInt n))].
Definition cnf_claim (c : option string) : list (string * json) :=
  match c with None => [] | Some jkt => [("cnf", JObj (str_claim "jkt" jkt))] end.
(** The members in the order of the fields, the embedded ones first. *)
Definition claim_members (c : VaultClaims) : list (list (string * json)) :=
  [ str_claim "iss" (Issuer c); str_claim "sub" (Subject c); list_claim "aud" (Audience c);
    date_claim "exp" (CExpiresAt c); date_claim "nbf" (NotBefore c); date_claim "iat" (IssuedAt c);
    str_claim "jti" (JTI c); list_claim "roles" (CRoles c); list_claim "scopes" (Scopes c);
    str_claim "client_id" (CClientID c); str_claim "fingerprint" (CFingerprint c); cnf_claim (Confirmation c);
    str_claim "token_type" (TokenType c); str_claim "minted_by" (MintedBy c); str_claim "acr" (ACR c);
    list_claim "amr" (AMR c); int_claim "auth_time" (AuthTime c); list_claim "factors" (Factors c);
    str_claim "email" (CEmail c) ].
Definition claims_json (c : VaultClaims) : json := JObj (concat (claim_members c)).
(** A Go map is written in the order of its keys. *)
Definition header_json (kid : string) : json := JObj [("alg", JStr "RS256"); ("kid", JStr kid); ("typ", JStr "JWT")].

Section sign.
Context `{Signer}.

Definition SignRS256Bytes (signingString : string) (key : option privateKey) : res jwtErr string :=
  match key with
  | None => Err ErrInvalidKeyType
  | Some k => match rsa_sign signingString k with Some sig => Ok sig | None => Err ErrTokenSignatureInvalid end
  end.
Definition SignRS256 (claims : VaultClaims) (key : option privateKey) (kid : string) : res jwtErr string :=
  let signingString := encodeSegment (Marshal (header_json kid)) +:+ "." +:+ encodeSegment (Marshal (claims_json claims)) in
  match SignRS256Bytes signingString key with
  | Err e => Err e
  | Ok sig => Ok (signingString +:+ "." +:+ encodeSegment sig)
  end.
End sign.

(** ** Numbers *)
Lemma fmt_digits_head fuel n acc : 0 < n < 2 ^ Z.of_nat fuel →
  ∃ c s, fmt_digits fuel n acc = String c s ∧ is_digit c = true ∧ code c ≠ 48.
Proof.
  revert n acc. induction fuel as [|f IH]; intros n acc Hn; [change (2 ^ Z.of_nat 0) with 1 in Hn; lia|].
  cbn [fmt_digits]. destruct (digit_char_spec _ (mod10_range n)) as [Hd Hv].
  rewrite Nat2Z.inj_succ, Z.pow_succ_r in Hn by lia. pose proof (Z.div_mod n 10 ltac:(lia)).
  destruct (Z.eqb_spec (n / 10) 0) as [E|E].
  - do 2 eexists. split_and!; [done|done|]. unfold digit_val in Hv. lia.
  - apply IH. split; [pose proof (Z.div_pos n 10); lia|apply Z.div_lt_upper_bound; lia].
Qed.
Lemma digits_all s : uint_digits s → digits s = (s, "").
Proof. induction s as [|c s IH]; [done|]. intros [Hc Hs]. cbn [digits]. by rewrite Hc, IH. Qed.
Lemma int_part_FormatUint n : 0 ≤ n → int_part (FormatUint n) = Some (FormatUint n, "").
Proof.
  intros Hn. destruct (Z.eq_dec n 0) as [->|]; [done|]. pose proof (FormatUint_digits n) as Hd.
  destruct (fmt_digits_head (S (Z.to_nat (Z.log2 n))) n "") as (c & s & E & _ & Hc); [pose proof (fuel_enough n Hn); lia|].
  change (FormatUint n = String c s) in E. rewrite E in *. cbn [int_part].
  by rewrite (proj2 (Z.eqb_neq _ _) Hc), digits_all by done.
Qed.
Lemma FormatInt_pos n : 0 ≤ n → FormatInt n = FormatUint n.
Proof. intros Hn. unfold FormatInt. by rewrite (proj2 (Z.ltb_ge n 0)) by lia. Qed.
Lemma FormatUint_sign n : ∃ c s, FormatUint n = String c s ∧ (code c =? 45) = false.
Proof.
  destruct (FormatUint_cons n) as (c & s & E). exists c, s. split; [done|]. pose proof (FormatUint_digits n) as Hd.
  rewrite E in Hd. destruct Hd as [Hc _]. apply andb_true_iff in Hc as [Hc%Z.leb_le _]. apply Z.eqb_neq. lia.
Qed.
Lemma num_ok_FormatInt n : 0 ≤ n → num_ok (FormatInt n) = true.
Proof.
  intros Hn. rewrite FormatInt_pos by done. unfold num_ok, number. apply bool_decide_eq_true.
  destruct (FormatUint_sign n) as (c & s & E & Hc). pose proof (int_part_FormatUint n Hn) as Hi.
  rewrite E in *. rewrite Hc, Hi. cbn. by rewrite !string_app_nil_r.
Qed.
Lemma decimal_FormatInt n : 0 ≤ n → decimal (FormatInt n) = Some (n, 0).
Proof.
  intros Hn. rewrite FormatInt_pos by done. unfold decimal. destruct (FormatUint_sign n) as (c & s & E & Hc).
  pose proof (int_part_FormatUint n Hn) as Hi. pose proof (FormatUint_value n Hn) as Hv.
  rewrite E in *. rewrite Hc, Hi. cbn [mbind option_bind frac_part exp_part]. by rewrite string_app_nil_r, Hv.
Qed.
Lemma date_of_FormatInt n : 0 ≤ n ≤ maxNumericDate → date_of (JNum (FormatInt n)) = Some (Some n).
Proof.
  intros Hn. unfold date_of, NumericDate_of. cbn [mbind option_bind]. rewrite decimal_FormatInt by lia. cbn [mbind option_bind].
  change (0 <=? 0) with true. cbv iota beta. unfold minNumericDate, maxNumericDate in *.
  rewrite (proj2 (Z.leb_le _ _)), (proj2 (Z.leb_le _ _)) by lia. cbn. by rewrite Z.div_1_r, Z.mul_1_r.
Qed.

(** ** Reading the claims back *)
Definition dated (d : option Z) : bool := from_option (λ t, (0 <=? t) && (t <=? maxNumericDate)) true d.
(** Claims that survive their encoding: text in UTF-8, instants a token may name. *)
Definition claims_ok (c : VaultClaims) : bool :=
  forallb valid_utf8 [Issuer c; Subject c; JTI c; CClientID c; CFingerprint c; TokenType c; MintedBy c; ACR c; CEmail c] &&
  forallb (forallb valid_utf8) [Audience c; CRoles c; Scopes c; AMR c; Factors c] &&
  forallb dated [CExpiresAt c; NotBefore c; IssuedAt c] &&
  from_option valid_utf8 true (Confirmation c) && (0 <=? AuthTime c) && (AuthTime c <=? int64_max).

Abbreviation filled m old := (fold_left (λ acc p, c ← acc; set_claim c p.1 p.2) m (Some old)).

Lemma pass_one k v old new rest : set_claim old k v = Some new → filled ((k, v) :: rest) old = filled rest new.
Proof. intros E. cbn [fold_left mbind option_bind fst snd]. by rewrite E. Qed.
Lemma pass_str k v old new rest :
  set_claim old k (JStr v) = Some new → (v = "" → old = new) → filled (str_claim k v ++ rest) old = filled rest new.
Proof. intros E Hz. unfold str_claim. case_decide as Hv; [by rewrite (Hz Hv)|]. by apply pass_one. Qed.
Lemma pass_list k l old new rest :
  set_claim old k (JArr (JStr <$> l)) = Some new → (l = [] → old = new) → filled (list_claim k l ++ rest) old = filled rest new.
Proof. intros E Hz. destruct l as [|x l]; [by rewrite (Hz eq_refl)|]. by apply pass_one. Qed.
Lemma pass_date k d old new rest : dated d = true →
  (∀ v, date_of v = Some d → set_claim old k v = Some new) → (d = None → old = new) →
  filled (date_claim k d ++ rest) old = filled rest new.
Proof.
  intros Hd E Hz. destruct d as [t|]; [|by rewrite (Hz eq_refl)]. cbn in Hd. bool_hyps.
  apply pass_one, E. by apply date_of_FormatInt.
Qed.
Lemma pass_int k n old new rest : 0 ≤ n ≤ int64_max →
  (∀ v, int_of 0 v = Some n → set_claim old k v = Some new) → (n = 0 → old = new) →
  filled (int_claim k n ++ rest) old = filled rest new.
Proof.
  intros Hn E Hz. unfold int_claim. destruct (Z.eqb_spec n 0) as [->|]; [by rewrite (Hz eq_refl)|].
  apply pass_one, E. unfold int_of. by rewrite ParseInt_FormatInt.
Qed.
Lemma pass_cnf d old new rest :
  (∀ v, cnf_of None v = Some d → set_claim old "cnf" v = Some new) → (d = None → old = new) →
  filled (cnf_claim d ++ rest) old = filled rest new.
Proof.
  intros E Hz. destruct d as [jkt|]; [|by rewrite (Hz eq_refl)]. apply pass_one, E. unfold str_claim.
  case_decide as Hj; [by rewrite Hj|done].
Qed.

Lemma strings_of_JStr l : strings_of (JArr (JStr <$> l)) = Some l.
Proof. cbn. induction l as [|x l IH]; [done|]. cbn. by rewrite IH. Qed.
Lemma ClaimStrings_of_JStr old l : ClaimStrings_of old (JArr (JStr <$> l)) = Some l.
Proof. cbn. induction l as [|x l IH]; [done|]. cbn. by rewrite IH. Qed.

(** Select the field of a literal claim name. *)
Ltac claim_name :=
  unfold set_claim; repeat first [rewrite decide_True by reflexivity | rewrite decide_False by discriminate].
Ltac pass_claim :=
  (eapply pass_str || (eapply pass_list) || (eapply pass_date; [done|..]) || (eapply pass_int; [done|..]) || eapply pass_cnf);
  [ intros; claim_name; rewrite ?strings_of_JStr, ?ClaimStrings_of_JStr;
    try match goal with E : _ = Some _ |- _ => rewrite E end; reflexivity
  | by intros -> ].

Lemma filled_claims c : claims_ok c = true → filled (concat (claim_members c)) zero_claims = Some c.
Proof.
  destruct c as [iss aud sub exp nbf iat jti roles scopes client fpr cnf tty acr amr at_ factors minted email].
  intros Hc. cbn [concat claim_members Issuer Audience Subject CExpiresAt NotBefore IssuedAt JTI CRoles Scopes CClientID
    CFingerprint Confirmation TokenType ACR AMR AuthTime Factors MintedBy CEmail] in *. unfold claims_ok in Hc.
  rewrite !andb_true_iff in Hc. destruct Hc as [[[[[_ _] Hd] _] Hlo] Hhi]. cbn in Hd, Hlo, Hhi. bool_hyps.
  assert (Hat : 0 ≤ at_ ≤ int64_max) by done. unfold zero_claims.
  do 19 (etrans; [pass_claim|]). done.
Qed.

Lemma concat_ok (ms : list (list (string * json))) : json_ok (JObj (concat ms)) = forallb (λ m, json_ok (JObj m)) ms.
Proof. induction ms as [|m ms IH]; [done|]. cbn [concat forallb]. rewrite <- IH. cbn. by rewrite forallb_app. Qed.
Lemma str_claim_ok k v : valid_utf8 k = true → valid_utf8 v = true → json_ok (JObj (str_claim k v)) = true.
Proof. intros Hk Hv. unfold str_claim. case_decide; [done|]. cbn. by rewrite Hk, Hv. Qed.
Lemma list_claim_ok k l : valid_utf8 k = true → forallb valid_utf8 l = true → json_ok (JObj (list_claim k l)) = true.
Proof.
  intros Hk Hl. destruct l as [|x l]; [done|]. cbn [list_claim json_ok forallb fst snd]. rewrite Hk, andb_true_r. cbn [andb].
  rewrite forallb_forall in *. intros v (y & -> & Hy%list_elem_of_In)%list_elem_of_In%list_elem_of_fmap. by apply Hl.
Qed.
Lemma date_claim_ok k d : valid_utf8 k = true → dated d = true → json_ok (JObj (date_claim k d)) = true.
Proof.
  intros Hk Hd. destruct d as [t|]; [|done]. cbn in Hd. bool_hyps. cbn. by rewrite Hk, num_ok_FormatInt.
Qed.
Lemma claims_json_ok c : claims_ok c = true → json_ok (claims_json c) = true.
Proof.
  intros Hc. unfold claims_json. rewrite concat_ok. unfold claims_ok in Hc. rewrite !andb_true_iff in Hc.
  destruct Hc as [[[[[Hs Hl] Hd] Hj] Hlo] Hhi]. rewrite forallb_forall in Hs, Hl, Hd. setoid_rewrite <- list_elem_of_In in Hs.
  setoid_rewrite <- list_elem_of_In in Hl. setoid_rewrite <- list_elem_of_In in Hd.
  unfold claim_members. cbn [forallb].
  rewrite !str_claim_ok, !list_claim_ok, !date_claim_ok; try done; try (apply Hs; set_solver); try (apply Hl; set_solver);
    try (apply Hd; set_solver).
  rewrite !andb_true_l, andb_true_r. apply andb_true_iff. split.
  - destruct (Confirmation c) as [jkt|]; [|done]. cbn [cnf_claim json_ok forallb fst snd].
    rewrite andb_true_r. by apply (str_claim_ok "jkt").
  - unfold int_claim. case_match; [done|]. cbn. rewrite num_ok_FormatInt; [done|by apply Z.leb_le].
Qed.

(** No name is written twice. *)
Definition claim_names : list string :=
  ["iss"; "sub"; "aud"; "exp"; "nbf"; "iat"; "jti"; "roles"; "scopes"; "client_id"; "fingerprint"; "cnf"; "token_type";
   "minted_by"; "acr"; "amr"; "auth_time"; "factors"; "email"].
Lemma claim_names_sublist c : (concat (claim_members c)).*1 `sublist_of` claim_names.
Proof.
  assert (Hs : ∀ k v, (str_claim k v).*1 `sublist_of` [k]) by (intros; unfold str_claim; case_decide; [apply sublist_nil_l|done]).
  assert (Hl : ∀ k l, (list_claim k l).*1 `sublist_of` [k]) by (intros k []; [apply sublist_nil_l|done]).
  assert (Hd : ∀ k d, (date_claim k d).*1 `sublist_of` [k]) by (intros k []; [done|apply sublist_nil_l]).
  assert (Hi : ∀ k n, (int_claim k n).*1 `sublist_of` [k]) by (intros; unfold int_claim; case_match; [apply sublist_nil_l|done]).
  assert (Hc : ∀ d, (cnf_claim d).*1 `sublist_of` ["cnf"]) by (intros []; [done|apply sublist_nil_l]).
  unfold claim_members, claim_names. cbn [concat]. rewrite !fmap_app.
  repeat match goal with |- (?a ++ ?b)%list `sublist_of` ?k :: ?l => change (k :: l) with ([k] ++ l)%list; apply sublist_app; [done|] end.
  apply sublist_nil_l.
Qed.
Lemma claims_unambiguous c : claims_ok c = true → refuseAmbiguousClaimNames (Marshal (claims_json c)) = Ok tt.
Proof.
  intros Hc. unfold refuseAmbiguousClaimNames. rewrite json_round_trip by by apply claims_json_ok. cbn [claims_json].
  rewrite decide_True; [done|].
  change (NoDup (ToLower ∘ fst <$> concat (claim_members c))). rewrite list_fmap_compose.
  eapply sublist_NoDup, fmap_sublist, claim_names_sublist.
  apply (bool_decide_unpack _). by vm_compute.
Qed.

(** ** The theorem *)
Lemma kid_ascii kid : all_chars kid_char kid = true → valid_utf8 kid = true.
Proof.
  induction kid as [|c r IH]; [done|]. cbn [all_chars valid_utf8]. intros [Hc Hr]%andb_true_iff.
  rewrite (proj2 (Z.ltb_lt (code c) 128)); [by apply IH|].
  unfold kid_char in Hc. rewrite !orb_true_iff, !andb_true_iff, !Z.leb_le, Z.eqb_eq in Hc. lia.
Qed.
Lemma segment_no_dot s : no_dot (encodeSegment s).
Proof.
  destruct (JwtFacts.decode_encode s) as [_ Hs]. revert Hs. induction (encodeSegment s) as [|c r IH]; [done|].
  cbn [all_chars no_dot]. intros [Hc Hr]%andb_true_iff. split; [|by apply IH]. intros E.
  unfold segment_char in Hc. rewrite E in Hc. by vm_compute in Hc.
Qed.

(** ** Whatever key is looked up *)
Section shape.
Context `{Signer} `{Verifier}.

Lemma SignRS256_shape claims k kid tok : SignRS256 claims (Some k) kid = Ok tok →
  ∃ sig, let h := encodeSegment (Marshal (header_json kid)) in let p := encodeSegment (Marshal (claims_json claims)) in
    rsa_sign (h +:+ "." +:+ p) k = Some sig ∧ tok = h +:+ "." +:+ p +:+ "." +:+ encodeSegment sig.
Proof.
  unfold SignRS256, SignRS256Bytes. cbv zeta. destruct (rsa_sign _ k) as [sig|] eqn:E; [|done].
  intros Ht. exists sig. split; [done|]. rewrite !string_app_assoc in Ht. congruence.
Qed.
Lemma encodeSegment_inj a b : encodeSegment a = encodeSegment b → a = b.
Proof.
  intros E. assert (Hd : ∀ s, decodeSegment (encodeSegment s) = Some s) by (intros; by apply decodeSegment_iff).
  pose proof (Hd a) as Ha. rewrite E, Hd in Ha. congruence.
Qed.

(** A parse of an issued token that succeeds returns the claims it was issued
    with, and they are in force. *)
Lemma parsed_claims_are_signed now claims k kid tok keyFunc iss aud c :
  claims_ok claims = true → SignRS256 claims (Some k) kid = Ok tok → ParseAndValidate now tok keyFunc iss aud = Ok c →
  c = claims ∧ validateClaims now claims (access_config iss aud) = [].
Proof.
  intros Hc (sig & _ & Ht)%SignRS256_shape. unfold ParseAndValidate. destruct (MaxJWTSize <? _); [done|].
  intros (h & p & s & hdr & payload & sg & key & Htok & (hb & -> & _) & -> & -> & Hu & _ & _ & _ & _ & Hv)%ParseWithClaims_ok.
  assert (E : encodeSegment payload = encodeSegment (Marshal (claims_json claims))).
  { pose proof (proj2 (splitToken_iff tok _ _ _) (conj Htok (conj (segment_no_dot _) (conj (segment_no_dot _) (segment_no_dot _))))) as E1.
    pose proof (proj2 (splitToken_iff tok _ _ _) (conj Ht (conj (segment_no_dot _) (conj (segment_no_dot _) (segment_no_dot _))))) as E2.
    congruence. }
  apply encodeSegment_inj in E as ->. cbn [unmarshal vault_claims] in Hu. unfold unmarshal_claims in Hu.
  rewrite json_round_trip in Hu by by apply claims_json_ok. unfold claims_json in Hu. rewrite filled_claims in Hu by done.
  injection Hu as <-. split; [done|]. by apply Hv.
Qed.
End shape.

Section read_back.
Context `{SignerLaws}.

Lemma SignRS256_ok claims k kid tok : SignRS256 claims (Some k) kid = Ok tok →
  ∃ sig, let h := encodeSegment (Marshal (header_json kid)) in let p := encodeSegment (Marshal (claims_json claims)) in
    tok = h +:+ "." +:+ p +:+ "." +:+ encodeSegment sig ∧ rsa_verifies (h +:+ "." +:+ p) sig (public_half k).1 (public_half k).2 = true.
Proof.
  intros (sig & Hs & ->)%SignRS256_shape. exists sig. split; [done|]. by apply signature_verifies.
Qed.

(** C6. What SignToken signs, ParseAndValidate answers with the very claims that
    were signed while they are in force, and with exactly the checks that fail
    otherwise: the encoding loses nothing and adds nothing. *)
Theorem issued_token_is_read_back now claims k kid tok keyFunc iss aud :
  claims_ok claims = true → isValidKID kid = true → SignRS256 claims (Some k) kid = Ok tok →
  Z.of_nat (String.length tok) ≤ MaxJWTSize →
  keyFunc [("alg", JStr "RS256"); ("kid", JStr kid); ("typ", JStr "JWT")] = Some (RSAKey (public_half k).1 (public_half k).2) →
  ParseAndValidate now tok keyFunc iss aud =
    match validateClaims now claims (access_config iss aud) with [] => Ok claims | errs => Err errs end.
Proof.
  intros Hc Hkid Hs Hlen Hkey. apply SignRS256_ok in Hs as (sig & -> & Hsig).
  unfold ParseAndValidate. rewrite (proj2 (Z.ltb_ge _ _) Hlen). unfold ParseWithClaims.
  
  rewrite (proj2 (splitToken_iff _ _ _ _) (conj eq_refl (conj (segment_no_dot _) (conj (segment_no_dot _) (segment_no_dot _))))).
  assert (Hd : ∀ s, decodeSegment (encodeSegment s) = Some s) by (intros; by apply decodeSegment_iff).
  rewrite !Hd. cbn [mbind option_bind]. unfold unmarshal_header.
  assert (Hku : valid_utf8 kid = true) by (apply kid_ascii; unfold isValidKID in Hkid; rewrite !andb_true_iff in Hkid; tauto).
  rewrite json_round_trip by (cbn; by rewrite Hku). unfold header_json.
  change (get_string "alg" _) with "RS256". cbn [decide negb validMethods access_config]. rewrite decide_False by done.
  rewrite bool_decide_eq_false_2, bool_decide_eq_true_2 by (done || by left). cbn [negb andb].
  rewrite claims_unambiguous by done. cbn [unmarshal vault_claims]. unfold unmarshal_claims.
  rewrite json_round_trip by by apply claims_json_ok. unfold claims_json. rewrite filled_claims by done.
  assert (Hg : guarded_key keyFunc [("alg", JStr "RS256"); ("kid", JStr kid); ("typ", JStr "JWT")]
    = Some (RSAKey (public_half k).1 (public_half k).2)).
  { unfold guarded_key. cbn [existsb]. rewrite !bool_decide_eq_false_2 by (by intros [? [=]]). cbn [orb].
    change (get_string "kid" _) with kid. unfold isValidKID in Hkid. rewrite decide_False by (by intros ->).
    unfold isValidKID. by rewrite Hkid. }
  rewrite Hg. unfold verify_signature. rewrite decide_True by done. unfold VerifyRS256.
  unfold header_json, claims_json in Hsig. by rewrite Hsig.
Qed.
End read_back.

(** ** A signed token *)
Module SignDemo.
#[export] Instance signer : Signer := {
  privateKey := Z; rsa_sign s k := Some (FormatInt (Z.of_nat (String.length s)) +:+ "/" +:+ FormatInt k); public_half k := (k, 65537) }.
#[export] Instance verifier : Verifier := {
  rsa_verifies s sig n e := bool_decide (sig = FormatInt (Z.of_nat (String.length s)) +:+ "/" +:+ FormatInt n); ec_verifies _ _ _ _ := false }.
#[export] Instance laws : SignerLaws.
Proof. constructor. cbn. intros s k sig [= <-]. by apply bool_decide_eq_true. Qed.
Definition claims : VaultClaims :=
  mkClaims "https://vault" ["https://vault"] "alice" (Some 1900) (Some 1000) (Some 1000) "j1" ["user"] ["read"; "write"] "" "f0"
    (Some "thumb") "Bearer" "urn:vault42:aal:2" ["pwd"; "otp"; "mfa"] 1000 [] "" "".
Definition keys (h : list (string * json)) : option publicKey :=
  if decide (get_string "kid" h = "ab12-cd") then Some (RSAKey 77 65537) else None.
Definition token : string := Eval vm_compute in match SignRS256 claims (Some 77) "ab12-cd" with Ok t => t | Err _ => "" end.

Lemma issued_token_is_read_back_witness :
  ParseAndValidate (1500 * second) token keys "https://vault" "https://vault" = Ok claims ∧
  ParseAndValidate (1900 * second) token keys "https://vault" "https://vault" = Err [ErrTokenExpired].
Proof.
  split.
  - refine (issued_token_is_read_back (1500 * second) claims 77 "ab12-cd" token keys
      "https://vault" "https://vault" _ _ _ _ _); by vm_compute.
  - refine (issued_token_is_read_back (1900 * second) claims 77 "ab12-cd" token keys
      "https://vault" "https://vault" _ _ _ _ _); by vm_compute.
Defined.
End SignDemo.
