(* ===== verification/DPoP.v ===== *)
(** * DPoP: proofs of possession

    Models internal/crypto/dpop.go and dpop_jose.go: the key a proof carries in
    its header ([parseJWKHeader]), the RFC 7638 thumbprint of it, and the
    sequence of checks of [ValidateDPoPProof].  Keys are numbers; a P-256 point
    is checked against the curve equation.  Hashing and signature verification
    are parameters. *)
From S2P Require Import Prelude GoStd Crypto Json Bytes Base64 Jwt.
From stdpp Require Import list sorting.
From Stdlib Require Import Ascii.
Open Scope string_scope.
Open Scope Z_scope.

Definition DPoPMaxAge : Z := 5 * minute.
Definition DPoPMaxSize : Z := 4 * 1024.

(** ** Claims *)
Record DPoPClaims := mkDPoPClaims {
  DIssuer : string;
  DSubject : string;
  DAudience : list string;
  DExpiresAt : option Z;
  DNotBefore : option Z;
  DIssuedAt : option Z;
  DID : string;
  HTM : string;
  HTU : string;
  ATH : string;
}.
Definition zero_dpop : DPoPClaims := mkDPoPClaims "" "" [] None None None "" "" "" "".

Definition set_dpop_claim (c : DPoPClaims) (name : string) (v : json) : option DPoPClaims :=
  let 'mkDPoPClaims iss sub aud exp nbf iat jti htm htu ath := c in
  let n := ToLower name in
  if decide (n = "iss") then x ← string_of iss v; Some (mkDPoPClaims x sub aud exp nbf iat jti htm htu ath)
  else if decide (n = "sub") then x ← string_of sub v; Some (mkDPoPClaims iss x aud exp nbf iat jti htm htu ath)
  else if decide (n = "aud") then x ← ClaimStrings_of aud v; Some (mkDPoPClaims iss sub x exp nbf iat jti htm htu ath)
  else if decide (n = "exp") then x ← date_of v; Some (mkDPoPClaims iss sub aud x nbf iat jti htm htu ath)
  else if decide (n = "nbf") then x ← date_of v; Some (mkDPoPClaims iss sub aud exp x iat jti htm htu ath)
  else if decide (n = "iat") then x ← date_of v; Some (mkDPoPClaims iss sub aud exp nbf x jti htm htu ath)
  else if decide (n = "jti") then x ← string_of jti v; Some (mkDPoPClaims iss sub aud exp nbf iat x htm htu ath)
  else if decide (n = "htm") then x ← string_of htm v; Some (mkDPoPClaims iss sub aud exp nbf iat jti x htu ath)
  else if decide (n = "htu") then x ← string_of htu v; Some (mkDPoPClaims iss sub aud exp nbf iat jti htm x ath)
  else if decide (n = "ath") then x ← string_of ath v; Some (mkDPoPClaims iss sub aud exp nbf iat jti htm htu x)
  else Some c.

Definition unmarshal_dpop (payload : string) : option DPoPClaims :=
  match json_parse payload with
  | Some (JObj m) => fold_left (λ acc p, c ← acc; set_dpop_claim c p.1 p.2) m (Some zero_dpop)
  | Some JNull => Some zero_dpop
  | _ => None
  end.

#[export] Instance dpop_claims : Claims DPoPClaims := {
  unmarshal := unmarshal_dpop;
  GetExpirationTime := DExpiresAt;
  GetIssuedAt := DIssuedAt;
  GetNotBefore := DNotBefore;
  GetIssuer := DIssuer;
  GetAudience := DAudience;
}.

(** ** Header rules *)
Definition dpopPrivateJWKMembers : list string := ["d"; "p"; "q"; "dp"; "dq"; "qi"; "oth"; "k"].

Definition has (k : string) (m : list (string * json)) : bool := bool_decide (is_Some (map_get k m)).

Definition rejectDPoPJOSEHeaders (header : list (string * json)) : bool := has "kid" header || has "crit" header.

(** The first private member, in the order of the list. *)
Definition jwkPrivateMember (jwk : list (string * json)) : option string :=
  snd <$> list_find (λ m, has m jwk = true) dpopPrivateJWKMembers.

(** ** The key in the header *)
Record jwkFields := mkJwkFields { jKTY : string; jN : string; jE : string; jCRV : string; jX : string; jY : string }.

Definition set_jwk (j : jwkFields) (name : string) (v : json) : option jwkFields :=
  let 'mkJwkFields kty n e crv x y := j in
  let f := ToLower name in
  if decide (f = "kty") then s ← string_of kty v; Some (mkJwkFields s n e crv x y)
  else if decide (f = "n") then s ← string_of n v; Some (mkJwkFields kty s e crv x y)
  else if decide (f = "e") then s ← string_of e v; Some (mkJwkFields kty n s crv x y)
  else if decide (f = "crv") then s ← string_of crv v; Some (mkJwkFields kty n e s x y)
  else if decide (f = "x") then s ← string_of x v; Some (mkJwkFields kty n e crv s y)
  else if decide (f = "y") then s ← string_of y v; Some (mkJwkFields kty n e crv x s)
  else Some j.

(** Marshalling the map writes its keys in order, one value each; unmarshalling
    reads them in that order. *)
Definition jwk_sorted (m : list (string * json)) : list (string * json) :=
  omap (λ k, pair k <$> map_get k m) (merge_sort str_le (remove_dups (fst <$> m))).
Definition jwk_fields (m : list (string * json)) : option jwkFields :=
  fold_left (λ acc p, j ← acc; set_jwk j p.1 p.2) (jwk_sorted m) (Some (mkJwkFields "" "" "" "" "" "")).

(** [base64.RawURLEncoding.DecodeString] *)
Definition RawURLDecode (s : string) : option string := lax_decode dec6 s.

Definition MinRSAModulusBits : Z := 2048.
Definition MaxRSAModulusBits : Z := 4096.

(** The P-256 curve: [y^2 = x^3 - 3x + b] over the field of [p256_p]. *)
Definition p256_p : Z := 2 ^ 256 - 2 ^ 224 + 2 ^ 192 + 2 ^ 96 - 1.
Definition p256_b : Z := 0x5ac635d8aa3a93e7b3ebbd55769886bc651d06b0cc53b0f63bce3c3e27d2604b.
(** [ecdsa.ParseUncompressedPublicKey]: reduced coordinates on the curve. *)
Definition on_p256 (x y : Z) : bool :=
  (x <? p256_p) && (y <? p256_p) && ((y * y - (x * x * x - 3 * x + p256_b)) mod p256_p =? 0).

Definition rsa_key (nBytes eBytes : string) : option publicKey :=
  let n := be_value nBytes in
  let e := be_value eBytes in
  if bit_len n <? MinRSAModulusBits then None
  else if MaxRSAModulusBits <? bit_len n then None
  else if (int64_max <? e) || (e <? 3) || (2 ^ 31 - 1 <? e) then None
  else Some (RSAKey n e).

Definition ec_key (xBytes yBytes : string) : option publicKey :=
  let x := be_value xBytes in
  let y := be_value yBytes in
  if (256 <? bit_len x) || (256 <? bit_len y) then None
  else if on_p256 x y then Some (ECKey "P-256" x y) else None.

Definition parseJWKHeader (jwkRaw : json) : option publicKey :=
  match jwkRaw with
  | JObj jwkMap =>
      if bool_decide (is_Some (jwkPrivateMember jwkMap)) then None
      else
        jwk ← jwk_fields jwkMap;
        if decide (jKTY jwk = "RSA") then
          nBytes ← RawURLDecode (jN jwk); eBytes ← RawURLDecode (jE jwk); rsa_key nBytes eBytes
        else if decide (jKTY jwk = "EC") then
          if negb (bool_decide (jCRV jwk = "P-256")) then None
          else xBytes ← RawURLDecode (jX jwk); yBytes ← RawURLDecode (jY jwk); ec_key xBytes yBytes
        else None
  | _ => None
  end.

(** ** Thumbprints *)
(** The RFC 7638 members in order.  P-256 is the one curve [parseJWKHeader]
    lets through; the coordinates of a point are 32 bytes each. *)
Definition thumbprintInput (key : publicKey) : option string :=
  match key with
  | RSAKey n e =>
      Some (quoted "{'e':'" +:+ encodeSegment (encodeRSAExponent e) +:+
            quoted "','kty':'RSA','n':'" +:+ encodeSegment (be_bytes n) +:+ quoted "'}")
  | ECKey crv x y =>
      if decide (crv = "P-256" ∧ on_p256 x y = true) then
        Some (quoted "{'crv':'" +:+ crv +:+ quoted "','kty':'EC','x':'" +:+ encodeSegment (be_fill 32 x) +:+
              quoted "','y':'" +:+ encodeSegment (be_fill 32 y) +:+ quoted "'}")
      else None
  end.

Inductive dpopErr :=
| DErrSize | DErrParse | DErrTyp | DErrHeader | DErrNoJWK | DErrJWK | DErrVerify
| DErrHTM | DErrHTU | DErrNoIAT | DErrAge | DErrNoJTI | DErrATH | DErrThumbprint.

#[export] Instance dpopErr_eq_dec : EqDecision dpopErr.
Proof. solve_decision. Defined.

Section proof.
Context `{Primitives} `{Verifier}.

Definition ComputeJWKThumbprint (key : publicKey) : option string := SHA256Base64URL <$> thumbprintInput key.

Definition dpop_config : validationConfig := mkConfig ["RS256"; "ES256"] "" "" false false false.

(** The claim checks after the signature; [now] is the reading of the clock
    the age is measured at. *)
Definition check_claims (now : Z) (claims : DPoPClaims) (httpMethod httpURI accessTokenHash : string)
  : res dpopErr unit :=
  if negb (bool_decide (HTM claims = httpMethod)) then Err DErrHTM
  else if negb (bool_decide (HTU claims = httpURI)) then Err DErrHTU
  else match DIssuedAt claims with
       | None => Err DErrNoIAT
       | Some iat =>
           let age := now - iat * second in
           if (DPoPMaxAge <? age) || (age <? - DPoPMaxAge) then Err DErrAge
           else if bool_decide (DID claims = "") then Err DErrNoJTI
           else if negb (bool_decide (accessTokenHash = "")) && negb (SecureCompare (ATH claims) accessTokenHash)
                then Err DErrATH
           else Ok tt
       end.

(** The thumbprint of the proof's key and its jti. *)
Definition ValidateDPoPProof (now : Z) (proofString httpMethod httpURI accessTokenHash : string)
  : res dpopErr (string * string) :=
  if DPoPMaxSize <? Z.of_nat (String.length proofString) then Err DErrSize
  else
    match ParseUnverified (A := DPoPClaims) proofString with
    | Err _ => Err DErrParse
    | Ok (header, _, _) =>
      if negb (bool_decide (get_string "typ" header = "dpop+jwt")) then Err DErrTyp
      else if rejectDPoPJOSEHeaders header then Err DErrHeader
      else
        match map_get "jwk" header with
        | None => Err DErrNoJWK
        | Some jwkRaw =>
          match parseJWKHeader jwkRaw with
          | None => Err DErrJWK
          | Some pubKey =>
            match ParseWithClaims now proofString (Some (λ _, Some pubKey)) dpop_config with
            | Err _ => Err DErrVerify
            | Ok claims =>
              match check_claims now claims httpMethod httpURI accessTokenHash with
              | Err e => Err e
              | Ok _ =>
                match ComputeJWKThumbprint pubKey with
                | None => Err DErrThumbprint
                | Some thumbprint => Ok (thumbprint, DID claims)
                end
              end
            end
          end
        end
    end.
End proof.

(** The generator of P-256 is on the curve, and its mirror image; no other
    ordinate is. *)
Example generator :
  let gx := 0x6b17d1f2e12c4247f8bce6e563a440f277037d812deb33a0f4a13945d898c296 in
  let gy := 0x4fe342e2fe1a7f9b8ee7eb4a7c0f9e162bce33576b315ececbb6406837bf51f5 in
  on_p256 gx gy = true ∧ on_p256 gx (p256_p - gy) = true ∧ on_p256 gx (gy + 1) = false.
Proof. by vm_compute. Qed.
