(* ===== verification/DPoPFacts.v ===== *)
(** * DPoPFacts: what an accepted proof establishes

    A thumbprint names one key; a key taken from a proof's header is a public
    key of the accepted sizes; and an accepted proof was signed by the key it
    carries, for this method, address and moment, and for this access token. *)
From S2P Require Import Prelude GoStd Crypto Json Bytes Base64 Jwt JwtFacts JwtSign DPoP.
From stdpp Require Import list.
From Stdlib Require Import Ascii.
Open Scope string_scope.
Open Scope Z_scope.

(** ** Keys *)
(** The keys [parseJWKHeader] lets through. *)
Definition sound_key (key : publicKey) : Prop :=
  match key with
  | RSAKey n e => 2 ^ 2047 ≤ n < 2 ^ 4096 ∧ 3 ≤ e < 2 ^ 31
  | ECKey crv x y => crv = "P-256" ∧ 0 ≤ x ∧ 0 ≤ y ∧ on_p256 x y = true
  end.

Lemma bit_len_lower z k : 0 ≤ z → 1 ≤ k → k ≤ bit_len z → 2 ^ (k - 1) ≤ z.
Proof.
  unfold bit_len. intros Hz Hk. destruct (Z.eqb_spec z 0); [lia|]. intros Hl.
  destruct (Z.log2_spec z) as [Hlo _]; [lia|]. etrans; [|exact Hlo]. apply Z.pow_le_mono_r; lia.
Qed.
Lemma bit_len_upper z k : 0 ≤ z → 0 ≤ k → bit_len z ≤ k → z < 2 ^ k.
Proof.
  unfold bit_len. intros Hz Hk. destruct (Z.eqb_spec z 0) as [->|].
  - intros _. apply Z.pow_pos_nonneg; lia.
  - intros Hl. destruct (Z.log2_spec z) as [_ Hhi]; [lia|]. eapply Z.lt_le_trans; [exact Hhi|].
    apply Z.pow_le_mono_r; lia.
Qed.

Lemma rsa_key_sound nb eb key : rsa_key nb eb = Some key → sound_key key.
Proof.
  unfold rsa_key, MinRSAModulusBits, MaxRSAModulusBits. pose proof (be_value_range nb) as [Hn _].
  intros Hk. repeat case_match; simplify_eq. bool_hyps. cbn. split; [split|lia].
  - apply (bit_len_lower _ 2048); lia.
  - apply (bit_len_upper _ 4096); lia.
Qed.
Lemma ec_key_sound xb yb key : ec_key xb yb = Some key → sound_key key.
Proof.
  unfold ec_key. intros Hk. repeat case_match; simplify_eq. cbn [sound_key].
  pose proof (be_value_range xb). pose proof (be_value_range yb). split_and!; try done; lia.
Qed.

Lemma has_None k m : has k m = false → map_get k m = None.
Proof.
  unfold has. intros Hh. apply bool_decide_eq_false in Hh. by apply eq_None_not_Some.
Qed.
Lemma no_private m : jwkPrivateMember m = None → ∀ k, k ∈ dpopPrivateJWKMembers → map_get k m = None.
Proof.
  unfold jwkPrivateMember. intros Hf k Hk. apply fmap_None, list_find_None in Hf.
  rewrite Forall_forall in Hf. apply has_None. specialize (Hf k Hk). by destruct (has k m).
Qed.

(** A header key is public material of an accepted shape. *)
Lemma parseJWKHeader_sound jwk key :
  parseJWKHeader jwk = Some key →
  sound_key key ∧ ∃ m, jwk = JObj m ∧ ∀ k, k ∈ dpopPrivateJWKMembers → map_get k m = None.
Proof.
  unfold parseJWKHeader. destruct jwk as [| | | | |m]; try done.
  destruct (jwkPrivateMember m) eqn:Ep; [done|]. rewrite bool_decide_false by (by intros []).
  intros Hk. split; [|exists m; split; [done|by apply no_private]].
  apply bind_Some in Hk as (j & _ & Hk). repeat case_decide; try done.
  - apply bind_Some in Hk as (nb & _ & Hk). apply bind_Some in Hk as (eb & _ & Hk). by eapply rsa_key_sound.
  - case_match; [done|]. apply bind_Some in Hk as (xb & _ & Hk). apply bind_Some in Hk as (yb & _ & Hk).
    by eapply ec_key_sound.
Qed.

(** ** Thumbprints *)
Definition not_quote (c : ascii) : bool := negb (code c =? 34).

Lemma segment_not_quote s : all_chars segment_char s = true → all_chars not_quote s = true.
Proof.
  induction s as [|c s IH]; [done|]. cbn. intros [Hc Hs]%andb_true_iff. rewrite IH by done.
  rewrite andb_true_r. unfold not_quote. destruct (Z.eqb_spec (code c) 34) as [E|]; [|done].
  unfold segment_char in Hc. by rewrite E in Hc.
Qed.
Lemma encode_not_quote s : all_chars not_quote (encodeSegment s) = true.
Proof. apply segment_not_quote, decode_encode. Qed.

Lemma quote_split a b r r' :
  all_chars not_quote a = true → all_chars not_quote b = true →
  a +:+ String (chr 34) r = b +:+ String (chr 34) r' → a = b ∧ r = r'.
Proof.
  revert b. induction a as [|c a IH]; intros [|d b] Ha Hb E; cbn in Ha, Hb; rewrite ?string_app_nil_l, ?string_app_cons in E.
  - by simplify_eq.
  - injection E as <- _. done.
  - injection E as -> _. done.
  - apply andb_true_iff in Ha as [_ Ha], Hb as [_ Hb]. injection E as -> E.
    destruct (IH b Ha Hb E) as [-> ->]. done.
Qed.

Lemma be_value_exponent e : 0 ≤ e < 2 ^ 32 → be_value (encodeRSAExponent e) = e.
Proof.
  intros He. rewrite (encodeRSAExponent_value e He) at 2. unfold be_value. generalize 0.
  induction (encodeRSAExponent e) as [|c s IH]; intros z; [done|]. cbn. apply IH.
Qed.

Lemma on_p256_range x y : on_p256 x y = true → x < 256 ^ Z.of_nat 32 ∧ y < 256 ^ Z.of_nat 32.
Proof.
  unfold on_p256. intros. bool_hyps. assert (p256_p < 256 ^ Z.of_nat 32) by (by vm_compute). lia.
Qed.

(** The text of a point determines its coordinates. *)
Lemma ec_text a b c d :
  all_chars not_quote a = true → all_chars not_quote b = true →
  all_chars not_quote c = true → all_chars not_quote d = true →
  quoted "{'crv':'" +:+ "P-256" +:+ quoted "','kty':'EC','x':'" +:+ a +:+ quoted "','y':'" +:+ b +:+ quoted "'}" =
  quoted "{'crv':'" +:+ "P-256" +:+ quoted "','kty':'EC','x':'" +:+ c +:+ quoted "','y':'" +:+ d +:+ quoted "'}" →
  a = c ∧ b = d.
Proof.
  intros ???? E. injection E as E. apply quote_split in E as [-> E]; [|done..]. injection E as E.
  by apply quote_split in E as [-> _].
Qed.

(** A thumbprint is of one key: two keys accepted from proof headers whose
    RFC 7638 texts, the bytes that are hashed, are equal are the same key, RSA
    or EC alike; so a session bound to a thumbprint is bound to one key. *)
Theorem thumbprint_names_one_key k1 k2 t :
  sound_key k1 → sound_key k2 → thumbprintInput k1 = Some t → thumbprintInput k2 = Some t → k1 = k2.
Proof.
  intros H1 H2 E1 E2. rewrite <- E2 in E1. clear E2 t.
  destruct k1 as [n1 e1|c1 x1 y1], k2 as [n2 e2|c2 x2 y2]; cbn [thumbprintInput] in E1.
  - injection E1 as E. destruct H1 as [[? ?] ?], H2 as [[? ?] ?].
    assert (0 < 2 ^ 2047) by (by apply Z.pow_pos_nonneg).
    apply quote_split in E as [Ee E]; [|apply encode_not_quote..]. injection E as E.
    apply quote_split in E as [En _]; [|apply encode_not_quote..].
    apply encodeSegment_inj in Ee, En. apply (f_equal be_value) in Ee, En.
    rewrite !be_value_exponent in Ee by lia. rewrite !be_value_bytes in En by lia. congruence.
  - case_decide; done.
  - case_decide; done.
  - destruct H1 as (-> & ? & ? & Ho1), H2 as (-> & ? & ? & Ho2). rewrite !decide_True in E1 by done.
    destruct (on_p256_range _ _ Ho1), (on_p256_range _ _ Ho2).
    apply (inj Some), ec_text in E1 as [Ex Ey]; [|apply encode_not_quote..].
    apply encodeSegment_inj, be_fill_inj in Ex, Ey; [congruence|lia..].
Qed.

(** ** Accepted proofs *)
Section accept.
Context `{Primitives} `{Verifier}.

(** The claims a token's payload spells, unverified. *)
Definition proof_claims (proof : string) : option DPoPClaims :=
  '(_, p, _) ← splitToken proof; b ← decodeSegment p; unmarshal_dpop b.
Definition proof_header (proof : string) : option (list (string * json)) :=
  '(h, _, _) ← splitToken proof; b ← decodeSegment h; unmarshal_header b.

Lemma ParseUnverified_header proof hdr c sig :
  ParseUnverified (A := DPoPClaims) proof = Ok (hdr, c, sig) → proof_header proof = Some hdr.
Proof.
  unfold ParseUnverified, proof_header. destruct (splitToken proof) as [[[h p] s]|]; [|done]. cbn.
  destruct (decodeSegment h) as [hb|]; [|done]. cbn. destruct (unmarshal_header hb) as [hd|]; [|done].
  intros Hok. by inv_matches.
Qed.

Lemma spelled hb payload sig :
  splitToken (encodeSegment hb +:+ "." +:+ encodeSegment payload +:+ "." +:+ encodeSegment sig)
  = Some (encodeSegment hb, encodeSegment payload, encodeSegment sig).
Proof.
  assert (Hnd : ∀ s, no_dot (encodeSegment s)).
  { intros s. destruct (decode_encode s) as [_ Hc]. induction (encodeSegment s) as [|c r IH]; [done|].
    cbn in Hc |- *. apply andb_true_iff in Hc as [Hc Hr]. split; [|by apply IH].
    intros E. unfold segment_char in Hc. by rewrite E in Hc. }
  by apply splitToken_iff.
Qed.

Lemma check_claims_ok now claims m uri ath :
  check_claims now claims m uri ath = Ok tt →
  HTM claims = m ∧ HTU claims = uri ∧ DID claims ≠ "" ∧ (ath ≠ "" → ATH claims = ath) ∧
  ∃ iat, DIssuedAt claims = Some iat ∧ - DPoPMaxAge ≤ now - iat * second ≤ DPoPMaxAge.
Proof.
  unfold check_claims. rewrite SecureCompare_eq. intros Hok. repeat case_match; try done. bool_hyps.
  split_and!; try done; [|eexists; split; [done|lia]].
  intros Hne. match goal with E : _ && _ = false |- _ => apply andb_false_iff in E as [E|E]; bool_hyps; done end.
Qed.

Lemma ValidateDPoPProof_inv now proof m uri ath tp jti :
  ValidateDPoPProof now proof m uri ath = Ok (tp, jti) →
  Z.of_nat (String.length proof) ≤ DPoPMaxSize ∧
  ∃ hdr jwk key claims input,
    proof_header proof = Some hdr ∧ get_string "typ" hdr = "dpop+jwt" ∧ rejectDPoPJOSEHeaders hdr = false ∧
    map_get "jwk" hdr = Some jwk ∧ parseJWKHeader jwk = Some key ∧
    ParseWithClaims now proof (Some (λ _, Some key)) dpop_config = Ok claims ∧
    check_claims now claims m uri ath = Ok tt ∧ thumbprintInput key = Some input ∧
    tp = SHA256Base64URL input ∧ jti = DID claims.
Proof.
  unfold ValidateDPoPProof, ComputeJWKThumbprint. destruct (Z.ltb_spec DPoPMaxSize (Z.of_nat (String.length proof))); [done|].
  destruct (ParseUnverified proof) as [[[hdr c0] s0]|] eqn:Eu; [|done].
  destruct (decide (get_string "typ" hdr = "dpop+jwt")) as [Et|Et];
    [rewrite bool_decide_true by done|by rewrite bool_decide_false]. cbn [negb].
  destruct (rejectDPoPJOSEHeaders hdr) eqn:Er; [done|]. destruct (map_get "jwk" hdr) as [jwk|] eqn:Ej; [|done].
  destruct (parseJWKHeader jwk) as [key|] eqn:Ek; [|done].
  destruct (ParseWithClaims _ _ _ _) as [claims|] eqn:Ep; [|done].
  destruct (check_claims _ _ _ _ _) as [[]|] eqn:Ec; [|done].
  destruct (thumbprintInput key) as [input|] eqn:Ei; [|done]. cbn. intros [= <- <-].
  split; [done|]. exists hdr, jwk, key, claims, input. split_and!; try done. by eapply ParseUnverified_header.
Qed.

(** What a validated proof says, as a function of its text. *)
Lemma validated_claims now proof m uri ath tp jti :
  ValidateDPoPProof now proof m uri ath = Ok (tp, jti) →
  ∃ claims iat, proof_claims proof = Some claims ∧ DID claims = jti ∧ jti ≠ "" ∧ DIssuedAt claims = Some iat ∧
    - DPoPMaxAge ≤ now - iat * second ≤ DPoPMaxAge.
Proof.
  intros (_ & hdr & jwk & key & claims & input & _ & _ & _ & _ & _ & Hp & Hc & _ & _ & ->)%ValidateDPoPProof_inv.
  apply check_claims_ok in Hc as (_ & _ & Hj & _ & iat & Hi & Hr).
  apply ParseWithClaims_ok in Hp as (h & p & s & hd & payload & sig & k & -> & (hb & -> & _) & -> & -> & Hu & _).
  exists claims, iat. split_and!; try done; try lia. unfold proof_claims. rewrite spelled. cbn.
  by rewrite (proj2 (decodeSegment_iff _ payload) eq_refl).
Qed.

(** An accepted proof demonstrates possession, here and now: it is at most
    4 KiB and typed dpop+jwt, names no kid and no critical extension, carries
    in its header a public key of accepted size with no private member, whose
    signature over exactly the header and payload as sent verified; and its
    claims name this method and address, were issued within five minutes of
    now, carry an identifier, and commit to the presented access token.  The
    thumbprint returned is that key's. *)
Theorem accepted_proof_demonstrates_possession now proof m uri ath tp jti :
  ValidateDPoPProof now proof m uri ath = Ok (tp, jti) →
  Z.of_nat (String.length proof) ≤ DPoPMaxSize ∧
  ∃ hb payload sig hdr members key claims input,
    proof = encodeSegment hb +:+ "." +:+ encodeSegment payload +:+ "." +:+ encodeSegment sig ∧
    unmarshal_header hb = Some hdr ∧ get_string "typ" hdr = "dpop+jwt" ∧
    map_get "kid" hdr = None ∧ map_get "crit" hdr = None ∧
    map_get "jwk" hdr = Some (JObj members) ∧ parseJWKHeader (JObj members) = Some key ∧ sound_key key ∧
    (∀ k, k ∈ dpopPrivateJWKMembers → map_get k members = None) ∧
    verify_signature (get_string "alg" hdr) (encodeSegment hb +:+ "." +:+ encodeSegment payload) sig key = Ok tt ∧
    unmarshal_dpop payload = Some claims ∧ HTM claims = m ∧ HTU claims = uri ∧
    (∃ iat, DIssuedAt claims = Some iat ∧ - DPoPMaxAge ≤ now - iat * second ≤ DPoPMaxAge) ∧
    (∀ e, DExpiresAt claims = Some e → now < e * second) ∧
    DID claims = jti ∧ jti ≠ "" ∧ (ath ≠ "" → ATH claims = ath) ∧
    thumbprintInput key = Some input ∧ tp = SHA256Base64URL input.
Proof.
  intros (Hlen & hdr & jwk & key & claims & input & Hh & Ht & Hr & Hj & Hk & Hp & Hc & Hi & -> & ->)%ValidateDPoPProof_inv.
  split; [done|]. apply check_claims_ok in Hc as (? & ? & ? & ? & ?).
  destruct (parseJWKHeader_sound _ _ Hk) as (Hs & members & -> & Hpriv).
  apply ParseWithClaims_ok in Hp as (h & p & s & hd & payload & sig & k & -> & (hb & -> & Huh) & -> & -> & Hu & _ & _
    & (f & [= <-] & [= <-]) & Hv & Hval).
  unfold proof_header in Hh. rewrite spelled in Hh. cbn in Hh.
  rewrite (proj2 (decodeSegment_iff _ hb) eq_refl) in Hh. cbn in Hh. rewrite Huh in Hh. injection Hh as ->.
  unfold rejectDPoPJOSEHeaders in Hr. apply orb_false_iff in Hr as [Hr1 Hr2].
  exists hb, payload, sig, hdr, members, key, claims, input. split_and!; try done; try by apply has_None.
  intros e He. specialize (Hval eq_refl). apply validateClaims_nil in Hval as ([[Hn _]|(x & Hx & Hlt)] & _).
  - cbn in Hn. congruence.
  - cbn in Hx. congruence.
Qed.
End accept.

(** ** A concrete proof *)
Module DPoPDemo.
Definition gx : Z := 0x6b17d1f2e12c4247f8bce6e563a440f277037d812deb33a0f4a13945d898c296.
Definition gy : Z := 0x4fe342e2fe1a7f9b8ee7eb4a7c0f9e162bce33576b315ececbb6406837bf51f5.
Definition point : publicKey := ECKey "P-256" gx gy.
Definition mirror : publicKey := ECKey "P-256" gx (p256_p - gy).
#[export] Instance prims : Primitives := {|
  sha256_hex s := "#" +:+ s;
  sha256_b64url s := "~" +:+ s;
  hmac_hex m k := m +:+ "/" +:+ k;
  argon2_verify pw h p := Ok (bool_decide ("$" +:+ pw = h));
  argon2_hash salt pw p := "$" +:+ pw;
  SignToken c k := Ok ""
|}.
#[export] Instance verifier : Verifier := {
  rsa_verifies signing sig n e := bool_decide (sig = "signed by " +:+ FormatInt n);
  ec_verifies signing sig x y := bool_decide (sig = "signed by point" ∧ x = gx)
}.
Definition hdr : string :=
  quoted "{'alg':'ES256','typ':'dpop+jwt','jwk':{'kty':'EC','crv':'P-256','x':'" +:+ encodeSegment (be_fill 32 gx) +:+
  quoted "','y':'" +:+ encodeSegment (be_fill 32 gy) +:+ quoted "'}}".
Definition payload : string :=
  quoted "{'jti':'j1','htm':'POST','htu':'https://v/auth/x','iat':1000,'ath':'~tok'}".
Definition proof : string :=
  encodeSegment hdr +:+ "." +:+ encodeSegment payload +:+ "." +:+ encodeSegment "signed by point".
Definition check (now : Z) (ath : string) : res dpopErr (string * string) :=
  ValidateDPoPProof now proof "POST" "https://v/auth/x" ath.
(** The proof with a header of its own. *)
Definition with_header (h : string) : string :=
  encodeSegment h +:+ "." +:+ encodeSegment payload +:+ "." +:+ encodeSegment "signed by point".
End DPoPDemo.
#[local] Existing Instance DPoPDemo.prims.
#[local] Existing Instance DPoPDemo.verifier.

Lemma accepted_proof_demonstrates_possession_witness :
  ∃ tp jti, DPoPDemo.check (1100 * second) "~tok" = Ok (tp, jti) ∧ jti ≠ "" ∧
    Z.of_nat (String.length DPoPDemo.proof) ≤ DPoPMaxSize.
Proof.
  unfold DPoPDemo.check. destruct (ValidateDPoPProof _ _ _ _ _) as [[tp jti]|] eqn:E; [|by vm_compute in E].
  exists tp, jti.
  pose proof (accepted_proof_demonstrates_possession (1100 * second) DPoPDemo.proof "POST" "https://v/auth/x" "~tok" tp jti E)
    as (Hl & ? & ? & ? & ? & ? & ? & ? & ? & _ & _ & _ & _ & _ & _ & _ & _ & _ & _ & _ & _ & _ & _ & _ & _ & Hj & _).
  split_and!; [done|exact Hj|exact Hl].
Defined.

Lemma thumbprint_names_one_key_witness :
  thumbprintInput DPoPDemo.point ≠ thumbprintInput DPoPDemo.mirror.
Proof.
  intros E. assert (Hk : DPoPDemo.point = DPoPDemo.mirror).
  { apply (thumbprint_names_one_key _ _ (default "" (thumbprintInput DPoPDemo.point))).
    - cbn [sound_key DPoPDemo.point]. split_and!; [reflexivity|discriminate|discriminate|vm_cast_no_check (eq_refl true)].
    - cbn [sound_key DPoPDemo.mirror]. split_and!; [reflexivity|discriminate|by vm_compute|vm_cast_no_check (eq_refl true)].
    - by vm_compute.
    - transitivity (thumbprintInput DPoPDemo.point); [symmetry; exact E|by vm_compute]. }
  apply (f_equal (λ k, match k with ECKey _ _ y => bool_decide (y = DPoPDemo.gy) | _ => false end)) in Hk.
  by vm_compute in Hk.
Defined.

(** Too old, for another token, with a key id, with private material: refused. *)
Example refused_proofs :
  DPoPDemo.check (1301 * second) "" = Err DErrAge ∧ DPoPDemo.check (1100 * second) "~other" = Err DErrATH ∧
  ValidateDPoPProof (1100 * second) DPoPDemo.proof "GET" "https://v/auth/x" "" = Err DErrHTM ∧
  ValidateDPoPProof (1100 * second)
    (DPoPDemo.with_header (quoted "{'alg':'ES256','typ':'dpop+jwt','kid':'1','jwk':{'kty':'EC'}}")) "POST" "u" "" = Err DErrHeader ∧
  ValidateDPoPProof (1100 * second)
    (DPoPDemo.with_header (quoted "{'alg':'ES256','typ':'dpop+jwt','jwk':{'kty':'EC','d':'AA'}}")) "POST" "u" "" = Err DErrJWK.
Proof. by vm_compute. Qed.
