(* ===== verification/NetIP.v ===== *)
(** * NetIP: what the address code uses of Go's net package

    [ParseIP], [IP.String], [SplitHostPort], [ParseCIDR] and
    [IPNet.Contains].  An address is its 16-byte value as a number below
    2^128; an IPv4 address is the mapped one, as [net.ParseIP] returns it. *)
From S2P Require Import Prelude GoStd Json Bytes.
From stdpp Require Import list.
From Stdlib Require Import Ascii.
Open Scope string_scope.
Open Scope Z_scope.

(** ** Byte searches *)
Fixpoint index_of (b : Z) (s : string) : option nat :=
  match s with
  | "" => None
  | String c r => if code c =? b then Some 0%nat else S <$> index_of b r
  end.
Definition contains (b : Z) (s : string) : bool := bool_decide (is_Some (index_of b s)).
Definition last_index_of (b : Z) (s : string) : option nat :=
  (λ i, (String.length s - 1 - i)%nat) <$> index_of b (str_rev s).

(** [strings.Split(s, sep)] for a one-byte separator. *)
Fixpoint Split (sep : Z) (s : string) : list string :=
  match s with
  | "" => [""]
  | String c r =>
      if code c =? sep then "" :: Split sep r
      else match Split sep r with x :: l => String c x :: l | [] => [String c ""] end
  end.
Fixpoint JoinStrings (sep : string) (l : list string) : string :=
  match l with [] => "" | [x] => x | x :: l' => x +:+ sep +:+ JoinStrings sep l' end.

(** ** IPv4 *)
(** One decimal octet without leading zeros. *)
Definition octet (s : string) : option Z :=
  if (String.length s =? 0)%nat || (3 <? String.length s)%nat then None
  else if negb (bool_decide (take_digits s = s)) then None
  else
    let v := digits_value s 0 in
    if (255 <? v) then None
    else match s with
         | String c (String _ _) => if code c =? 48 then None else Some v
         | _ => Some v
         end.
Definition parseIPv4 (s : string) : option Z :=
  match Split 46 s with
  | [a; b; c; d] =>
      x ← octet a; y ← octet b; z ← octet c; t ← octet d;
      Some (x * 2 ^ 24 + y * 2 ^ 16 + z * 2 ^ 8 + t)
  | _ => None
  end.

(** ** IPv6 *)
(** A group of at most four hex digits at the head, its value and the rest. *)
Fixpoint hex_group (n : nat) (s : string) (acc : Z) : Z * string :=
  match n, s with
  | S n', String c r => match hex_val c with
                        | Some v => hex_group n' r (acc * 16 + v)
                        | None => (acc, s)
                        end
  | _, _ => (acc, s)
  end.

(** The group loop: [groups] are the 16-bit words parsed so far, newest first,
    [ellipsis] how many there were when [::] was seen.  It runs at most eight
    times, the words an address has. *)
Fixpoint v6_loop (n : nat) (s : string) (groups : list Z) (ellipsis : option nat)
  : option (list Z * option nat) :=
  match n with
  | O => match s with "" => Some (groups, ellipsis) | _ => None end
  | S n' =>
      let '(acc, rest) := hex_group 4 s 0 in
      if (String.length rest =? String.length s)%nat then None
      else match rest with
           | "" => Some (acc :: groups, ellipsis)
           | String c r =>
               if code c =? 46 then
                 if bool_decide (ellipsis = None) && negb (length groups =? 6)%nat then None
                 else if (6 <? length groups)%nat then None
                 else v ← parseIPv4 s; Some (v mod 2 ^ 16 :: v / 2 ^ 16 :: groups, ellipsis)
               else if negb (code c =? 58) then None
               else match r with
                    | "" => None
                    | String c2 r2 =>
                        if code c2 =? 58 then
                          if bool_decide (is_Some ellipsis) then None
                          else match r2 with
                               | "" => Some (acc :: groups, Some (S (length groups)))
                               | _ => v6_loop n' r2 (acc :: groups) (Some (S (length groups)))
                               end
                        else v6_loop n' r (acc :: groups) ellipsis
                    end
           end
  end.

Definition words_value (l : list Z) : Z := fold_left (λ acc w, acc * 2 ^ 16 + w) l 0.

Definition parseIPv6 (s : string) : option Z :=
  let '(s1, e) := match s with
                  | String a (String b r) => if (code a =? 58) && (code b =? 58) then (r, Some 0%nat) else (s, None)
                  | _ => (s, None)
                  end in
  if bool_decide (is_Some e) && bool_decide (s1 = "") then Some 0
  else
    '(groups, ellipsis) ← v6_loop 8 s1 [] e;
    let l := reverse groups in
    if (length l <? 8)%nat then
      i ← ellipsis;
      Some (words_value (take i l ++ repeat 0 (8 - length l) ++ drop i l))
    else if bool_decide (is_Some ellipsis) then None else Some (words_value l).

(** [net.ParseIP]: a zone is refused. *)
Definition v4mapped : Z := 65535 * 2 ^ 32.
Fixpoint first_of (s : string) : option Z :=
  match s with
  | "" => None
  | String c r => let n := code c in if (n =? 46) || (n =? 58) || (n =? 37) then Some n else first_of r
  end.
Definition ParseIP (s : string) : option Z :=
  match first_of s with
  | Some 46 => (λ v, v4mapped + v) <$> parseIPv4 s
  | Some 58 => if contains 37 s then None else parseIPv6 s
  | _ => None
  end.

(** ** Text form *)
Definition is4 (ip : Z) : bool := ip / 2 ^ 32 =? 65535.
Definition string4 (v : Z) : string :=
  FormatInt (v / 2 ^ 24) +:+ "." +:+ FormatInt (v / 2 ^ 16 mod 256) +:+ "." +:+
  FormatInt (v / 2 ^ 8 mod 256) +:+ "." +:+ FormatInt (v mod 256).

Definition word (ip : Z) (i : nat) : Z := ip / 2 ^ (16 * (7 - Z.of_nat i)) mod 2 ^ 16.
Definition hex_char (d : Z) : ascii := if d <? 10 then chr (48 + d) else chr (87 + d).
Definition hex_word (w : Z) : string :=
  let all := [w / 4096 mod 16; w / 256 mod 16; w / 16 mod 16; w mod 16] in
  let digs := match all with
              | [0; 0; 0; d] => [d] | [0; 0; c; d] => [c; d] | [0; b; c; d] => [b; c; d] | _ => all
              end in
  String.string_of_list_ascii (hex_char <$> digs).

(** The length of the run of zero words at the head. *)
Fixpoint zero_run (l : list Z) : nat := match l with 0 :: r => S (zero_run r) | _ => O end.
(** The first longest run of at least two zero words: its start and length. *)
Fixpoint longest_run (i : nat) (l : list Z) (best : nat * nat) : nat * nat :=
  match l with
  | [] => best
  | _ :: r => longest_run (S i) r (if (Nat.max 1 best.2 <? zero_run l)%nat then (i, zero_run l) else best)
  end.
Definition string6 (ip : Z) : string :=
  let ws := word ip <$> seq 0 8 in
  let '(i, n) := longest_run 0 ws (0%nat, 0%nat) in
  if (n =? 0)%nat then JoinStrings ":" (hex_word <$> ws)
  else JoinStrings ":" (hex_word <$> take i ws) +:+ "::" +:+ JoinStrings ":" (hex_word <$> drop (i + n) ws).
Definition ip_string (ip : Z) : string := if is4 ip then string4 (ip mod 2 ^ 32) else string6 ip.

(** ** Hosts and networks *)
Definition SplitHostPort (hostport : string) : option (string * string) :=
  i ← last_index_of 58 hostport;
  match hostport with
  | String c _ =>
      if code c =? 91 then
        e ← index_of 93 hostport;
        if negb (S e =? i)%nat then None
        else if contains 91 (drop_str 1 hostport) || contains 93 (drop_str (S e) hostport) then None
        else Some (take_str (e - 1) (drop_str 1 hostport), drop_str (S i) hostport)
      else
        let host := take_str i hostport in
        if contains 58 host || contains 91 hostport || contains 93 hostport then None
        else Some (host, drop_str (S i) hostport)
  | "" => None
  end.

Record IPNet := mkIPNet { netIP : Z; netBits : Z; netWide : bool (** a 128-bit mask *) }.

Definition mask_to (bits width v : Z) : Z := v / 2 ^ (width - bits) * 2 ^ (width - bits).

Definition ParseCIDR (s : string) : option IPNet :=
  i ← index_of 47 s;
  let addr := take_str i s in
  let m := drop_str (S i) s in
  ip ← ParseIP addr;
  let wide := contains 58 addr in
  if (String.length m =? 0)%nat || negb (bool_decide (take_digits m = m)) then None
  else
    let n := digits_value m 0 in
    if (if wide then 128 else 32) <? n then None
    else Some (mkIPNet (if wide then mask_to n 128 ip else v4mapped + mask_to n 32 (ip mod 2 ^ 32)) n wide).

(** IPv4 is compared with IPv4 and IPv6 with IPv6. *)
Definition Contains (n : IPNet) (ip : Z) : bool :=
  if is4 (netIP n) then
    let b := if netWide n then netBits n - 96 else netBits n in
    is4 ip && (mask_to b 32 (ip mod 2 ^ 32) =? mask_to b 32 (netIP n mod 2 ^ 32))
  else negb (is4 ip) && (mask_to (netBits n) 128 ip =? mask_to (netBits n) 128 (netIP n)).

Example addresses :
  ParseIP "10.0.0.1" = Some (v4mapped + 167772161) ∧ ParseIP "010.0.0.1" = None ∧ ParseIP "1.2.3" = None ∧
  ParseIP "::ffff:10.0.0.1" = ParseIP "10.0.0.1" ∧ (ip_string <$> ParseIP "::ffff:a00:1") = Some "10.0.0.1" ∧
  (ip_string <$> ParseIP "2001:DB8:0:0:1:0:0:1") = Some "2001:db8::1:0:0:1" ∧
  (ip_string <$> ParseIP "::") = Some "::" ∧ (ip_string <$> ParseIP "0:0:0:0:0:0:0:1") = Some "::1" ∧
  (ip_string <$> ParseIP "1:2:3:4:5:6:7::") = Some "1:2:3:4:5:6:7:0" ∧
  ParseIP "1::2::3" = None ∧ ParseIP "fe80::1%eth0" = None ∧ ParseIP "1:2:3:4:5:6:7:8:9" = None ∧
  ParseIP "12345::" = None ∧ ParseIP ":1:2:3:4:5:6:7" = None.
Proof. by vm_compute. Qed.
Example hosts :
  SplitHostPort "10.0.0.1:443" = Some ("10.0.0.1", "443") ∧ SplitHostPort "[::1]:8080" = Some ("::1", "8080") ∧
  SplitHostPort "::1" = None ∧ SplitHostPort "10.0.0.1" = None ∧ SplitHostPort "[::1]" = None.
Proof. by vm_compute. Qed.
Example networks :
  ((λ n, Contains n <$> ParseIP "10.1.2.3") <$> ParseCIDR "10.0.0.0/8") = Some (Some true) ∧
  ((λ n, Contains n <$> ParseIP "11.1.2.3") <$> ParseCIDR "10.0.0.0/8") = Some (Some false) ∧
  ((λ n, Contains n <$> ParseIP "10.1.2.3") <$> ParseCIDR "::/0") = Some (Some false) ∧
  ((λ n, Contains n <$> ParseIP "fd00::7") <$> ParseCIDR "fc00::/7") = Some (Some true).
Proof. by vm_compute. Qed.
