(* ===== verification/Url.v ===== *)
(** * Url: the parts of net/url the server uses

    Query escaping and the encoding of a form, and what is observed of a parsed
    URL.  The parser itself is a parameter. *)
From S2P Require Import Prelude GoStd Json Bytes.
From stdpp Require Import list strings.
From Stdlib Require Import Ascii.
Open Scope string_scope.
Open Scope Z_scope.

(** [url.QueryEscape] *)
Definition unescaped (c : ascii) : bool :=
  let n := code c in
  (97 <=? n) && (n <=? 122) || (65 <=? n) && (n <=? 90) || (48 <=? n) && (n <=? 57) ||
  (n =? 45) || (n =? 95) || (n =? 46) || (n =? 126).
Definition hex_up (d : Z) : ascii := chr (if d <? 10 then 48 + d else 55 + d).
Fixpoint QueryEscape (s : string) : string :=
  match s with
  | "" => ""
  | String c r =>
      (if unescaped c then String c ""
       else if code c =? 32 then "+"
       else String (chr 37) (String (hex_up (code c / 16)) (String (hex_up (code c mod 16)) ""))) +:+ QueryEscape r
  end.

(** [url.Values.Encode], the keys in order. *)
Fixpoint Encode (form : list (string * string)) : string :=
  match form with
  | [] => ""
  | [(k, v)] => QueryEscape k +:+ "=" +:+ QueryEscape v
  | (k, v) :: rest => QueryEscape k +:+ "=" +:+ QueryEscape v +:+ "&" +:+ Encode rest
  end.

(** ** Parsed URLs *)
Record URL := mkURL {
  Scheme : string; Host : string; Hostname : string;
  canonicalAddr : string;  (** the host and port net/http dials *)
}.
Class URLParser := {
  url_Parse : string → option URL;
  set_query : string → list (string * string) → string;  (** parse, [q.Set] each pair, print *)
}.
