(* ===== verification/Sanitize.v ===== *)
(** * Sanitize: user-supplied text, locales, redirects, avatars and addresses

    Models internal/sanitize/sanitize.go.  The grammar of [mail.ParseAddress] is
    a parameter: the address it finds in a string. *)
From S2P Require Import Prelude GoStd Bytes Json JsonEnc NetIP Runes.
From stdpp Require Import list.
From Stdlib Require Import Ascii.
Open Scope string_scope.
Open Scope Z_scope.

(** ** Text *)
Definition htmlReplace (c : ascii) : string :=
  let n := code c in
  if n =? 60 then "&lt;" else if n =? 62 then "&gt;" else if n =? 34 then "&quot;" else if n =? 39 then "&#39;" else String c "".
Fixpoint htmlReplacer (s : string) : string :=
  match s with "" => "" | String c r => htmlReplace c +:+ htmlReplacer r end.
(** The text before the last [&] and the text from it on. *)
Fixpoint last_amp (s : string) : option (string * string) :=
  match s with
  | "" => None
  | String c r =>
      match last_amp r with
      | Some (a, b) => Some (String c a, b)
      | None => if code c =? 38 then Some ("", s) else None
      end
  end.
Definition has_byte (n : Z) (s : string) : bool := negb (all_chars (λ c, negb (code c =? n)) s).
Definition String_ (s : string) (maxLen : nat) : string :=
  let s := htmlReplacer (TrimSpace s) in
  if (maxLen <? RuneCount s)%nat then
    let s := of_runes (take maxLen (runes s)) in
    match last_amp s with
    | Some (a, b) => if has_byte 59 b then s else a
    | None => s
    end
  else s.

Definition locale_char (c : ascii) : bool :=
  let n := code c in (97 <=? n) && (n <=? 122) || (65 <=? n) && (n <=? 90) || (n =? 45) || (n =? 95).
Definition Locale_ (locale : string) : string :=
  let locale := TrimSpace locale in
  if decide (locale = "") then "en"
  else if (10 <? String.length locale)%nat then "en"
  else if all_chars locale_char locale then ToLower locale else "en".

(** ** Redirects *)
Fixpoint HasPrefix (s p : string) : bool :=
  match p, s with
  | "", _ => true
  | String a p', String b s' => bool_decide (a = b) && HasPrefix s' p'
  | _, "" => false
  end.
Fixpoint Contains (s p : string) : bool :=
  HasPrefix s p || match s with "" => false | String _ r => Contains r p end.
(** C0 and DEL; C1 is C2 80 to C2 9F; U+2028 and U+2029 are E2 80 A8 and A9. *)
Definition isURLControl (r : string) : bool :=
  match r with
  | String c "" => (code c <? 32) || (code c =? 127)
  | String c (String c1 "") => (code c =? 194) && (128 <=? code c1) && (code c1 <=? 159)
  | String c (String c1 (String c2 "")) => line_separator c c1 c2
  | _ => false
  end.
(** The path component: what precedes the first [?] or [#]. *)
Fixpoint path_of (s : string) : string :=
  match s with
  | "" => ""
  | String c r => if (code c =? 63) || (code c =? 35) then "" else String c (path_of r)
  end.
Definition dot_segment (s : string) : bool := bool_decide (s = ".") || bool_decide (s = "..").
Definition hasDotSegment (path : string) : bool := existsb dot_segment (Split 47 (path_of path)).
Definition RedirectPath (path : string) : string :=
  if decide (path = "") then ""
  else if (256 <? String.length path)%nat then ""
  else if negb (HasPrefix path "/") || HasPrefix path "//" then ""
  else if has_byte 92 path || Contains path "://" then ""
  else if negb (valid_utf8 path) || existsb isURLControl (runes path) then ""
  else if hasDotSegment path then ""
  else path.

(** ** Avatars and addresses *)
Definition avatarURLColumn : nat := 1024.
Definition AvatarURL_ (rawURL : string) : string :=
  let rawURL := TrimSpace rawURL in
  if decide (rawURL = "") then ""
  else if negb (HasPrefix rawURL "https://") then ""
  else if (avatarURLColumn <? String.length rawURL)%nat then ""
  else rawURL.

Class MailParser := { ParseAddress : string → option string (** [addr.Address] *) }.
Definition tombstoneEmailDomain : string := "deleted.invalid".
(** [email[at+1:]] for the last [@]. *)
Fixpoint after_last_at (s : string) : option string :=
  match s with
  | "" => None
  | String c r => match after_last_at r with Some d => Some d | None => if code c =? 64 then Some r else None end
  end.

Section addresses.
Context `{MailParser}.
Definition Email_ (email : string) : bool :=
  if (254 <? String.length email)%nat then false
  else match ParseAddress email with
       | None => false
       | Some a =>
           if decide (a = email) then
             match after_last_at email with
             | Some d => negb (bool_decide (ToLower d = ToLower tombstoneEmailDomain))
             | None => true
             end
           else false
       end.
Definition TrustedEmail (raw : string) : option string :=
  let trimmed := TrimSpace raw in
  if negb (all_chars (λ c, code c <? 128) trimmed) then None
  else let folded := ToLower trimmed in if Email_ folded then Some folded else None.
End addresses.

(** ** Text is inert *)
Definition inert (c : ascii) : bool := negb (bool_decide (code c ∈ [60; 62; 34; 39])).
Lemma inert_high c : 128 ≤ code c → inert c = true.
Proof. intros Hc. unfold inert. rewrite bool_decide_eq_false_2; [done|]. set_unfold. lia. Qed.
Lemma htmlReplacer_inert s : all_chars inert (htmlReplacer s) = true.
Proof.
  induction s as [|c s IH]; [done|]. cbn [htmlReplacer]. rewrite all_chars_concat, IH, andb_true_r. unfold htmlReplace.
  destruct (Z.eqb_spec (code c) 60); [by vm_compute|]. destruct (Z.eqb_spec (code c) 62); [by vm_compute|].
  destruct (Z.eqb_spec (code c) 34); [by vm_compute|]. destruct (Z.eqb_spec (code c) 39); [by vm_compute|].
  cbn. rewrite andb_true_r. unfold inert. rewrite bool_decide_eq_false_2; [done|]. set_unfold. lia.
Qed.
Lemma last_amp_split s a b : last_amp s = Some (a, b) → s = a +:+ b ∧ ∃ b', b = String (chr 38) b'.
Proof.
  revert a b. induction s as [|c s IH]; intros a b; [done|]. cbn [last_amp]. destruct (last_amp s) as [[a' b']|].
  - intros [= <- <-]. destruct (IH a' b' eq_refl) as [-> Hb]. split; [done|exact Hb].
  - destruct (Z.eqb_spec (code c) 38) as [E|]; [|done]. intros [= <- <-]. split; [done|].
    exists s. f_equal. by rewrite <- E, chr_code.
Qed.

(** Sanitised text holds none of the characters HTML gives meaning to in
    text and attributes, and no more runes than asked for, whatever bytes came in. *)
Theorem sanitized_text_is_inert s maxLen :
  all_chars inert (String_ s maxLen) = true ∧ (RuneCount (String_ s maxLen) ≤ maxLen)%nat.
Proof.
  unfold String_. set (t := htmlReplacer (TrimSpace s)). assert (Ht : all_chars inert t = true) by apply htmlReplacer_inert.
  destruct (Nat.ltb_spec maxLen (RuneCount t)) as [Hlt|Hle]; [|done].
  set (u := of_runes (take maxLen (runes t))).
  assert (Hu : all_chars inert u = true).
  { apply all_chars_of_runes, Forall_take, all_chars_runes; [apply inert_high|done]. }
  assert (Hn : (RuneCount u ≤ maxLen)%nat).
  { unfold RuneCount, u. rewrite runes_of_runes by (apply Forall_take, runes_rune). rewrite length_take. lia. }
  destruct (last_amp u) as [[a b]|] eqn:E; [|done]. destruct (has_byte 59 b); [done|].
  apply last_amp_split in E as [Eu [b' ->]]. rewrite Eu, all_chars_concat in Hu. apply andb_true_iff in Hu as [Ha _].
  split; [done|]. unfold RuneCount in *. rewrite Eu, runes_boundary, length_app in Hn by (by vm_compute). lia.
Qed.

(** ** Redirects stay on the origin *)
(** A consumer that normalises: tab, CR and LF are dropped, backslashes become
    slashes, and dot segments are resolved in the path. *)
Definition dropped (c : ascii) : bool := bool_decide (code c ∈ [9; 10; 13]).
Fixpoint clean (s : string) : string :=
  match s with
  | "" => ""
  | String c r => if dropped c then clean r else String (if code c =? 92 then chr 47 else c) (clean r)
  end.
Fixpoint walk_segments (out : list string) (segments : list string) : list string :=
  match segments with
  | [] => rev out
  | s :: l =>
      if decide (s = ".") then walk_segments (match l with [] => "" :: out | _ => out end) l
      else if decide (s = "..") then walk_segments (match l with [] => "" :: tail out | _ => tail out end) l
      else walk_segments (s :: out) l
  end.
Fixpoint query_of (s : string) : string :=
  match s with "" => "" | String c r => if (code c =? 63) || (code c =? 35) then s else query_of r end.
Definition normalise (url : string) : string :=
  let s := clean url in JoinStrings "/" (walk_segments [] (Split 47 (path_of s))) +:+ query_of s.

Lemma path_query s : path_of s +:+ query_of s = s.
Proof. induction s as [|c s IH]; [done|]. cbn. destruct (_ || _); [done|]. by rewrite string_app_cons, IH. Qed.
Lemma split_join sep s : 0 ≤ sep < 256 → JoinStrings (String (chr sep) "") (Split sep s) = s.
Proof.
  intros Hs. induction s as [|c s IH]; [done|]. cbn [Split]. destruct (Z.eqb_spec (code c) sep) as [E|].
  - destruct (Split sep s) as [|x l] eqn:El; [by destruct s; cbn in El; repeat case_match|].
    cbn [JoinStrings] in *. rewrite string_app_nil_l, IH, string_app_cons, string_app_nil_l. by rewrite <- E, chr_code.
  - destruct (Split sep s) as [|x l] eqn:El; [by destruct s; cbn in El; repeat case_match|].
    etrans; [|by rewrite <- IH]. destruct l; [done|]. apply string_app_cons.
Qed.
Lemma resolve_plain out l : existsb dot_segment l = false → walk_segments out l = (rev out ++ l)%list.
Proof.
  revert out. induction l as [|s l IH]; intros out; cbn; [by rewrite app_nil_r|].
  unfold dot_segment at 1. intros [[H1 H2]%orb_false_iff Hl]%orb_false_iff. apply bool_decide_eq_false in H1, H2.
  rewrite !decide_False, IH by done. cbn. by rewrite <- app_assoc.
Qed.
Lemma has_byte_cons n c s : has_byte n (String c s) = (code c =? n) || has_byte n s.
Proof. unfold has_byte. cbn. by destruct (code c =? n). Qed.
(** A control byte is a rune of its own. *)
Lemma control_is_rune s c : code c < 32 → existsb isURLControl (runes s) = false → ∀ a b, s ≠ a +:+ String c b.
Proof.
  intros Hc He a b ->. rewrite runes_boundary, existsb_app in He by lia. cbn [runes] in He.
  rewrite (proj2 (Z.ltb_lt _ _)) in He by lia. cbn in He. rewrite (proj2 (Z.ltb_lt (code c) 32)) in He by done.
  by rewrite orb_true_r in He.
Qed.
Lemma clean_id s : (∀ c, code c < 32 → ∀ a b, s ≠ a +:+ String c b) → has_byte 92 s = false → clean s = s.
Proof.
  induction s as [|c s IH]; intros Hc Hb; [done|]. rewrite has_byte_cons in Hb. apply orb_false_iff in Hb as [Hb Hs]. cbn [clean].
  assert (dropped c = false) as ->.
  { unfold dropped. apply bool_decide_eq_false. intros Hd. apply (Hc c) with (a := "") (b := s); [set_unfold; lia|done]. }
  rewrite Hb, IH; [done| |done]. intros d Hd a b ->. by apply (Hc d Hd (String c a) b).
Qed.

(** A redirect that is let through is the path that was asked for, and a
    consumer that drops line breaks, folds backslashes and resolves dot segments
    reads the same path as one that does not: absolute, with one leading slash,
    so it names no other host. *)
Theorem redirect_stays_on_origin p :
  RedirectPath p ≠ "" →
  RedirectPath p = p ∧ normalise p = p ∧
  (∃ r, p = String (chr 47) r ∧ HasPrefix r "/" = false) ∧ Contains p "://" = false.
Proof.
  unfold RedirectPath. case_decide as Hp; [done|]. destruct (_ <? _)%nat; [done|].
  destruct (negb _ || _) eqn:E1; [done|]. destruct (has_byte 92 p || _) eqn:E2; [done|].
  destruct (_ || existsb _ _) eqn:E3; [done|]. destruct (hasDotSegment p) eqn:E4; [done|]. intros _.
  apply orb_false_iff in E1 as [E1 E1'], E2 as [E2 E2'], E3 as [_ E3]. apply negb_false_iff in E1.
  assert (Hcl : clean p = p).
  { apply clean_id; [|done]. intros c Hc. by apply control_is_rune. }
  split_and!; [done| | |done].
  - unfold normalise. rewrite Hcl, (resolve_plain [] _ E4). cbn [rev app]. change "/" with (String (chr 47) "").
    by rewrite split_join, path_query by lia.
  - destruct p as [|c r]; [done|]. cbn [HasPrefix] in E1. apply andb_true_iff in E1 as [E1 _].
    apply bool_decide_eq_true in E1. subst c. exists r. split; [done|]. by destruct r.
Qed.

(** ** Addresses *)
Lemma after_last_at_app s d : after_last_at (s +:+ String (chr 64) d) = match after_last_at d with Some x => Some x | None => Some d end.
Proof.
  induction s as [|c s IH]; [rewrite string_app_nil_l; by cbn; case_match|]. rewrite string_app_cons. cbn [after_last_at]. rewrite IH. by case_match.
Qed.
Lemma lower_at c : code (lower_ascii c) = 64 ↔ code c = 64.
Proof. destruct c as [[] [] [] [] [] [] [] []]; by vm_compute. Qed.
Lemma after_last_at_lower s : after_last_at (ToLower s) = ToLower <$> after_last_at s.
Proof.
  induction s as [|c s IH]; [done|]. cbn. rewrite IH. destruct (after_last_at s); [done|]. cbn.
  destruct (Z.eqb_spec (code c) 64) as [E|E]; destruct (Z.eqb_spec (code (lower_ascii c)) 64) as [E'|E']; try done;
    exfalso; [apply E'|apply E]; by apply lower_at.
Qed.
Lemma lower_idem c : lower_ascii (lower_ascii c) = lower_ascii c.
Proof. destruct c as [[] [] [] [] [] [] [] []]; by vm_compute. Qed.
Lemma ToLower_idem s : ToLower (ToLower s) = ToLower s.
Proof. induction s as [|c s IH]; [done|]. cbn. by rewrite lower_idem, IH. Qed.
Lemma ToLower_app a b : ToLower (a +:+ b) = ToLower a +:+ ToLower b.
Proof. induction a as [|c a IH]; [done|]. rewrite string_app_cons. cbn. by rewrite IH, string_app_cons. Qed.

(** No spelling of an address in the tombstone domain passes, so nobody can
    take the address an erasure will write; and an address a third party
    vouches for is accepted only when it is ASCII, in the folded form, which a
    second fold leaves alone. *)
Theorem tombstone_addresses_are_refused `{MailParser} raw local :
  (ToLower raw = ToLower (local +:+ "@" +:+ tombstoneEmailDomain) → Email_ raw = false) ∧
  (∀ a, TrustedEmail raw = Some a →
     a = ToLower (TrimSpace raw) ∧ ToLower a = a ∧ Email_ a = true ∧ all_chars (λ c, code c <? 128) (TrimSpace raw) = true ∧
     ∀ l, a ≠ ToLower (l +:+ "@" +:+ tombstoneEmailDomain)).
Proof.
  assert (Hr : ∀ r l, ToLower r = ToLower (l +:+ "@" +:+ tombstoneEmailDomain) → Email_ r = false).
  { intros r l E. unfold Email_. destruct (_ <? _)%nat; [done|]. destruct (ParseAddress r) as [a|]; [|done]. case_decide; [|done].
    apply (f_equal after_last_at) in E. rewrite !after_last_at_lower in E.
    change ("@" +:+ tombstoneEmailDomain) with (String (chr 64) tombstoneEmailDomain) in E.
    rewrite after_last_at_app in E. change (after_last_at tombstoneEmailDomain) with (@None string) in E.
    destruct (after_last_at r) as [d|]; [|done]. cbn in E. injection E as E. by rewrite bool_decide_eq_true_2. }
  split; [apply Hr|]. intros a. unfold TrustedEmail. destruct (negb _) eqn:Ea; [done|]. apply negb_false_iff in Ea.
  destruct (Email_ (ToLower (TrimSpace raw))) eqn:Ee; [|done]. intros [= <-].
  split_and!; [done|apply ToLower_idem|done|done|]. intros l El. rewrite (Hr _ l) in Ee; [done|]. by rewrite ToLower_idem.
Qed.

(** ** Examples *)
Module SanitizeDemo.
Lemma redirect_stays_on_origin_witness :
  RedirectPath "/app?next=/x#y" = "/app?next=/x#y" ∧ normalise "/app?next=/x#y" = "/app?next=/x#y".
Proof. destruct (redirect_stays_on_origin "/app?next=/x#y") as (? & ? & _); [by vm_compute|done]. Defined.

(** Text that is over the limit loses everything after its last ampersand,
    be it the start of an entity or the user's own. *)
Theorem ampersand_truncates : String_ "R&D, a department with a long name" 20 = "R".
Proof. by vm_compute. Qed.
(** Percent-encoded slashes and dots are let through. *)
Theorem encoded_slashes_pass :
  RedirectPath "/%2f%2fevil.com" = "/%2f%2fevil.com" ∧ RedirectPath "/%2e%2e//evil.com" = "/%2e%2e//evil.com".
Proof. by vm_compute. Qed.
End SanitizeDemo.
