(* ===== verification/Aes.v ===== *)
(** * Aes: sealed records and the recovery escrow

    Models internal/crypto/aes.go ([Encrypt], [Decrypt]: nonce in front of the
    ciphertext, a context bound as additional data) and internal/crypto/
    recovery.go (the two framings of an escrow record, the binding to its row,
    [EncryptRecovery] and the two readers).  AES-GCM and RSA-OAEP are
    parameters with their documented laws: opening with the key, nonce and
    context of the sealing returns the plaintext, and opening under any other
    label or context fails. *)
From S2P Require Import Prelude GoStd Crypto Json Bytes NetIP.
From Stdlib Require Import Ascii.
Open Scope string_scope.
Open Scope Z_scope.

Definition nonceSize : nat := 12.
Definition len (s : string) : Z := Z.of_nat (String.length s).

(** ** What the standard library supplies *)
Class AEAD := {
  Seal : string → string → string → string → string;  (** key, nonce, plaintext, context *)
  Open_ : string → string → string → string → option string;  (** key, nonce, ciphertext, context *)
}.
(** The documented contract of an AEAD. *)
Class AEADLaws `{AEAD} := {
  open_seal k n pt ad : Open_ k n (Seal k n pt ad) ad = Some pt;
  seal_nonempty k n pt ad : Seal k n pt ad ≠ "";  (** a tag is always appended *)
  open_context k n pt ad ad' : ad' ≠ ad → Open_ k n (Seal k n pt ad) ad' = None;
}.

Section aes.
Context `{AEAD}.

(** [None] for the random nonce is an entropy failure. *)
Definition Encrypt (plaintext key : string) (aad : string) (nonce : option string) : option string :=
  if negb (String.length key =? 32)%nat then None
  else n ← nonce; Some (n +:+ Seal key n plaintext aad).

Definition Decrypt (ciphertext key : string) (aad : string) : option string :=
  if negb (String.length key =? 32)%nat then None
  else if (String.length ciphertext <=? nonceSize)%nat then None
  else Open_ key (take_str nonceSize ciphertext) (drop_str nonceSize ciphertext) aad.
End aes.

Section aes_facts.
Context `{AEADLaws}.

(** What was sealed under a context opens under it and under no other. *)
Lemma Decrypt_Encrypt pt key aad n c aad' :
  String.length n = nonceSize → Encrypt pt key aad (Some n) = Some c →
  Decrypt c key aad' = if decide (aad' = aad) then Some pt else None.
Proof.
  intros Hn. unfold Encrypt, Decrypt. destruct (negb _); [done|].
  cbn [mbind option_bind]. intros [= <-].
  destruct (take_drop_app n (Seal key n pt aad) nonceSize Hn) as [-> ->].
  rewrite string_app_length, Hn.
  destruct (String.length (Seal key n pt aad)) eqn:El.
  - exfalso. destruct (Seal key n pt aad) eqn:Es; [by eapply seal_nonempty|done].
  - rewrite (proj2 (Nat.leb_gt _ _)) by lia. case_decide; [subst; apply open_seal|by apply open_context].
Qed.
End aes_facts.

(** ** The escrow *)
Definition recoveryMagic : string := "V42R".
Definition recoveryVersionBound : Z := 2.
Definition recoveryHeaderLen : nat := 5.
Definition recoveryBindingDomain : string := "vault42/recovery/v2" +:+ String (chr 0) "".
Definition recoveryLabelTag : string := "oaep" +:+ String (chr 0) "".
Definition recoveryAADTag : string := "gcm" +:+ String (chr 0) "".

Inductive RecoveryFormat := RecoveryFormatUnknown | RecoveryFormatBound | RecoveryFormatLegacy.

#[export] Instance RecoveryFormat_eq_dec : EqDecision RecoveryFormat.
Proof. solve_decision. Defined.

Definition RecoveryBlobFormat (blob : string) : RecoveryFormat :=
  if (String.length blob <? 4)%nat then RecoveryFormatUnknown
  else if negb (bool_decide (take_str 4 blob = recoveryMagic)) then RecoveryFormatLegacy
  else if (String.length blob <? recoveryHeaderLen)%nat then RecoveryFormatUnknown
  else match drop_str 4 blob with
       | String v _ => if code v =? recoveryVersionBound then RecoveryFormatBound else RecoveryFormatUnknown
       | "" => RecoveryFormatUnknown
       end.

Definition RecoveryBinding (recordID pseudonym : string) : string :=
  recoveryBindingDomain +:+ ToLower recordID +:+ String (chr 0) "" +:+ pseudonym.
Definition recoveryLabel (binding : string) : string := recoveryLabelTag +:+ binding.
Definition recoveryAAD (binding : string) : string := recoveryAADTag +:+ binding.

(** RSA-OAEP: seal to a public key under a label with given randomness, open
    with the private one. *)
Class OAEP := {
  EncryptOAEP : string → string → string → string → option string;  (** public, message, label, entropy *)
  DecryptOAEP : string → string → string → option string;  (** private, ciphertext, label *)
  matches : string → string → bool;  (** is this the private key of that public key *)
  Size : string → Z;  (** bytes of the modulus of a public key *)
}.
Class OAEPLaws `{OAEP} := {
  oaep_roundtrip pub priv m l r c :
    matches priv pub = true → EncryptOAEP pub m l r = Some c → DecryptOAEP priv c l = Some m;
  oaep_label pub priv m l l' r c :
    l' ≠ l → EncryptOAEP pub m l r = Some c → DecryptOAEP priv c l' = None;
  oaep_size pub m l r c : EncryptOAEP pub m l r = Some c → Z.of_nat (String.length c) = Size pub;
}.

Section escrow.
Context `{AEAD} `{OAEP}.

(** [aesKey], [nonce] and [r] are the draws of entropy it makes. *)
Definition EncryptRecovery (pub plaintext binding : string) (aesKey : string) (nonce : option string) (r : string)
  : option string :=
  if decide (binding = "") then None
  else
    aesBlob ← Encrypt plaintext aesKey (recoveryAAD binding) nonce;
    wrappedKey ← EncryptOAEP pub aesKey (recoveryLabel binding) r;
    if 2 ^ 32 - 1 <? len wrappedKey then None
    else Some (recoveryMagic +:+ String (chr recoveryVersionBound) "" +:+
               PutUint32 (len wrappedKey) +:+ wrappedKey +:+ aesBlob).

(** The tail both framings share. *)
Definition openRecovery (priv body label aad : string) : option string :=
  if len body <? 4 then None
  else
    let wrappedLen := Uint32 (take_str 4 body) in
    if len body <? wrappedLen + 4 then None
    else
      let hi := (4 + wrappedLen) mod 2 ^ 32 in  (** the slice bound is uint32 arithmetic *)
      if hi <? 4 then None  (** body[4:hi] panics; needs a body past 4 GiB *)
      else
        let wrappedKey := take_str (Z.to_nat (hi - 4)) (drop_str 4 body) in
        let aesBlob := drop_str (Z.to_nat hi) body in
        aesKey ← DecryptOAEP priv wrappedKey label;
        Decrypt aesBlob aesKey aad.

Definition DecryptRecovery (priv blob binding : string) : option string :=
  if decide (binding = "") then None
  else if negb (bool_decide (RecoveryBlobFormat blob = RecoveryFormatBound)) then None
  else openRecovery priv (drop_str recoveryHeaderLen blob) (recoveryLabel binding) (recoveryAAD binding).

Definition DecryptRecoveryLegacy (priv blob : string) : option string :=
  if negb (bool_decide (RecoveryBlobFormat blob = RecoveryFormatLegacy)) then None
  else openRecovery priv blob "" "".
End escrow.

(** *** Facts *)
Lemma PutUint32_fill n : 0 ≤ n < 2 ^ 32 → PutUint32 n = be_fill 4 n.
Proof.
  intros Hn. unfold PutUint32. rewrite Z.mod_small by done. cbn [be_fill].
  rewrite !Z.shiftr_div_pow2 by lia. unfold byte_of, chr. cbn [Z.of_nat Pos.of_succ_nat Pos.succ].
  rewrite Z.div_1_r. done.
Qed.
Lemma Uint32_PutUint32 n : 0 ≤ n < 2 ^ 32 → Uint32 (PutUint32 n) = n.
Proof. intros Hn. rewrite PutUint32_fill by done. unfold Uint32. rewrite be_value_fill. by apply Z.mod_small. Qed.

Lemma bound_format body : RecoveryBlobFormat (recoveryMagic +:+ String (chr recoveryVersionBound) "" +:+ body) = RecoveryFormatBound.
Proof. done. Qed.

(** Binding bytes determine the row: neither field holds a NUL. *)
Fixpoint no_nul (s : string) : Prop := match s with "" => True | String c r => code c ≠ 0 ∧ no_nul r end.

Lemma nul_split a b r r' : no_nul a → no_nul b → a +:+ String (chr 0) r = b +:+ String (chr 0) r' → a = b ∧ r = r'.
Proof.
  revert b. induction a as [|c a IH]; intros [|d b] Ha Hb E; rewrite ?string_app_nil_l, ?string_app_cons in E.
  - by simplify_eq.
  - injection E as <- _. by destruct Hb as [? _].
  - injection E as -> _. by destruct Ha as [? _].
  - destruct Ha as [_ Ha], Hb as [_ Hb]. injection E as -> E. destruct (IH b Ha Hb E) as [-> ->]. done.
Qed.
Lemma no_nul_lower s : no_nul s → no_nul (ToLower s).
Proof.
  induction s as [|c s IH]; [done|]. intros [Hc Hs]. split; [|by apply IH].
  unfold lower_ascii. destruct ((65 <=? code c) && (code c <=? 90)) eqn:E; [|done]. bool_hyps.
  change (ascii_of_N (Z.to_N (code c + 32))) with (chr (code c + 32)). rewrite code_chr; lia.
Qed.
Lemma RecoveryBinding_inj i j p q :
  no_nul i → no_nul j → RecoveryBinding i p = RecoveryBinding j q → ToLower i = ToLower j ∧ p = q.
Proof.
  intros Hi Hj E. unfold RecoveryBinding in E. apply string_app_len_inj in E as [_ E]; [|done].
  apply nul_split in E; [done|by apply no_nul_lower..].
Qed.
Lemma RecoveryBinding_nonempty i p : RecoveryBinding i p ≠ "".
Proof. done. Qed.

Lemma openRecovery_framed `{AEAD} `{OAEP} priv w blob label aad :
  len w < 2 ^ 32 - 4 →
  openRecovery priv (PutUint32 (len w) +:+ w +:+ blob) label aad
  = (k ← DecryptOAEP priv w label; Decrypt blob k aad).
Proof.
  intros Hw. assert (0 ≤ len w) by (unfold len; lia). unfold openRecovery.
  assert (H4 : String.length (PutUint32 (len w)) = 4%nat) by done.
  destruct (take_drop_app (PutUint32 (len w)) (w +:+ blob) 4 H4) as [-> E]. rewrite E.
  rewrite Uint32_PutUint32, Z.mod_small by lia. unfold len in *.
  rewrite !string_app_length, H4, !(proj2 (Z.ltb_ge _ _)) by lia.
  replace (Z.to_nat (4 + Z.of_nat (String.length w) - 4)) with (String.length w) by lia.
  destruct (take_drop_app w blob _ eq_refl) as [-> _].
  rewrite <-string_app_assoc.
  destruct (take_drop_app (PutUint32 (Z.of_nat (String.length w)) +:+ w) blob
              (Z.to_nat (4 + Z.of_nat (String.length w)))) as [_ ->]; [|done].
  rewrite string_app_length, H4. lia.
Qed.

(** The first of four bytes is worth 2^24. *)
Lemma Uint32_lead c x y z r : code c * 2 ^ 24 ≤ Uint32 (take_str 4 (String c (String x (String y (String z r))))).
Proof.
  cbn [take_str]. unfold Uint32, be_value. cbn [be_acc].
  pose proof (code_range x). pose proof (code_range y). pose proof (code_range z). lia.
Qed.

Section escrow_facts.
Context `{AEADLaws} `{OAEPLaws}.

Lemma EncryptRecovery_shape pub pt b k n r out :
  EncryptRecovery pub pt b k n r = Some out →
  b ≠ "" ∧ ∃ blob w, Encrypt pt k (recoveryAAD b) n = Some blob ∧
    EncryptOAEP pub k (recoveryLabel b) r = Some w ∧
    out = recoveryMagic +:+ String (chr recoveryVersionBound) "" +:+ PutUint32 (len w) +:+ w +:+ blob.
Proof.
  unfold EncryptRecovery. case_decide; [done|]. intros E.
  apply bind_Some in E as (blob & Eb & E). apply bind_Some in E as (w & Ew & E).
  destruct (2 ^ 32 - 1 <? len w); simplify_eq. eauto 8.
Qed.

Lemma DecryptRecovery_Encrypt pub priv pt id ps k n r out id' ps' :
  matches priv pub = true → Size pub ≤ 2 ^ 16 → String.length n = nonceSize →
  no_nul id → no_nul id' →
  EncryptRecovery pub pt (RecoveryBinding id ps) k (Some n) r = Some out →
  DecryptRecovery priv out (RecoveryBinding id' ps')
  = if decide (ToLower id' = ToLower id ∧ ps' = ps) then Some pt else None.
Proof.
  intros Hm Hs Hn Hi Hi' E. apply EncryptRecovery_shape in E as (_ & blob & w & Eb & Ew & ->).
  unfold DecryptRecovery. rewrite decide_False by apply RecoveryBinding_nonempty.
  rewrite bound_format, bool_decide_eq_true_2 by done. cbn [negb].
  change (drop_str recoveryHeaderLen _) with (PutUint32 (len w) +:+ w +:+ blob).
  rewrite openRecovery_framed by (unfold len; rewrite (oaep_size _ _ _ _ _ Ew); lia).
  case_decide as Hrow.
  - destruct Hrow as [Hid ->]. replace (RecoveryBinding id' ps) with (RecoveryBinding id ps)
      by (unfold RecoveryBinding; by rewrite Hid).
    rewrite (oaep_roundtrip _ _ _ _ _ _ Hm Ew). cbn [mbind option_bind].
    rewrite (Decrypt_Encrypt _ _ _ _ _ _ Hn Eb). by rewrite decide_True.
  - rewrite (oaep_label _ priv _ _ (recoveryLabel (RecoveryBinding id' ps')) _ _) with (2 := Ew); [done|].
    intros Heq. apply Hrow. apply string_app_len_inj in Heq as [_ Heq]; [|done].
    by apply RecoveryBinding_inj in Heq.
Qed.

(** A recovery record opens for its row and for no other: a blob sealed by
    EncryptRecovery to (record id, pseudonym) returns its plaintext to the
    private key under a binding that names the same row, the id in any
    spelling of its hex, and is refused under the binding of every other row,
    so moving a payload between rows is detected. *)
Theorem escrow_opens_only_its_row pub priv pt id ps k n r out id' ps' :
  matches priv pub = true → Size pub ≤ 2 ^ 16 → String.length n = nonceSize →
  no_nul id → no_nul id' →
  EncryptRecovery pub pt (RecoveryBinding id ps) k (Some n) r = Some out →
  DecryptRecovery priv out (RecoveryBinding id' ps')
  = if decide (ToLower id' = ToLower id ∧ ps' = ps) then Some pt else None.
Proof. apply DecryptRecovery_Encrypt. Qed.

(** A bound record cannot be read as a legacy one: the legacy reader
    refuses it as it stands, refuses it with the magic and the version byte
    cut off (the length prefix still parses; the label refuses), and, below
    32 MiB, refuses it with the magic alone cut off, for every private key. *)
Theorem bound_record_is_never_legacy pub pt b k n r out priv :
  Size pub ≤ 2 ^ 16 →
  EncryptRecovery pub pt b k n r = Some out →
  DecryptRecoveryLegacy priv out = None ∧
  DecryptRecoveryLegacy priv (drop_str recoveryHeaderLen out) = None ∧
  (len out < 2 ^ 25 → DecryptRecoveryLegacy priv (drop_str 4 out) = None).
Proof.
  intros Hs E. apply EncryptRecovery_shape in E as (_ & blob & w & Eb & Ew & ->).
  unfold DecryptRecoveryLegacy. split; [by rewrite bound_format|]. split.
  - destruct (negb _); [done|].
    change (drop_str recoveryHeaderLen _) with (PutUint32 (len w) +:+ w +:+ blob).
    rewrite openRecovery_framed by (unfold len; rewrite (oaep_size _ _ _ _ _ Ew); lia).
    by rewrite (oaep_label _ priv _ _ "" _ _) with (2 := Ew).
  - intros Hl. destruct (negb _); [done|].
    change (drop_str 4 _) with (String (chr 2) (PutUint32 (len w) +:+ w +:+ blob)).
    set (body := String (chr 2) _) in *. assert (Hb : len body ≤ len (recoveryMagic +:+ body)).
    { unfold len. rewrite string_app_length. lia. }
    unfold openRecovery. destruct (len body <? 4); [done|].
    assert (Hu : 2 ^ 25 ≤ Uint32 (take_str 4 body)).
    { apply (Uint32_lead (chr 2)). }
    rewrite (proj2 (Z.ltb_lt _ _)); [done|]. apply (Z.le_lt_trans _ _ _ Hb) in Hl. lia.
Qed.
End escrow_facts.

(** ** A toy cipher that meets the laws *)
Module ToyEscrow.
Definition one : ascii := "1"%char.
Definition zero : ascii := "0"%char.
Fixpoint wrap (ctx rest : string) : string :=
  match ctx with "" => String zero rest | String c r => String one (String c (wrap r rest)) end.
Fixpoint unwrap (ctx s : string) : option string :=
  match ctx, s with
  | "", String z rest => if decide (z = zero) then Some rest else None
  | String c r, String o (String d s') => if decide (o = one ∧ c = d) then unwrap r s' else None
  | _, _ => None
  end.
Fixpoint read (s : string) : option string :=
  match s with
  | String o (String d s' as t) => if decide (o = one) then String d <$> read s' else Some ""
  | String o "" => if decide (o = one) then None else Some ""
  | "" => None
  end.
Lemma unwrap_wrap c c' r : unwrap c' (wrap c r) = if decide (c' = c) then Some r else None.
Proof.
  revert c'. induction c as [|a c IH]; intros [|b c']; cbn [wrap unwrap]; [done|by repeat case_match|done|]. cbn [wrap unwrap].
  destruct (decide (one = one ∧ b = a)) as [[_ ->]|Hn].
  - rewrite IH. repeat case_decide; simplify_eq; done.
  - rewrite decide_False; [done|]. intros [= -> ->]. by apply Hn.
Qed.
Lemma read_wrap m r : read (wrap m r) = Some m.
Proof. induction m as [|c m IH]; [by destruct r|]. cbn [wrap read]. rewrite IH. by case_decide. Qed.
Lemma wrap_app c a b : wrap c a +:+ b = wrap c (a +:+ b).
Proof. induction c as [|x c IH]; [done|]. cbn [wrap]. by rewrite !string_app_cons, IH. Qed.

Fixpoint pad (n : nat) : string := match n with O => "" | S n => String zero (pad n) end.
Lemma pad_length n : String.length (pad n) = n.
Proof. induction n as [|n IH]; [done|]. cbn. by rewrite IH. Qed.

#[local] Instance aead : AEAD :=
  {| Seal := λ _ _ pt ad, wrap ad pt; Open_ := λ _ _ c ad, unwrap ad c |}.
#[local] Instance aead_laws : AEADLaws.
Proof.
  split; cbn; intros.
  - rewrite unwrap_wrap. by case_decide.
  - by destruct ad.
  - rewrite unwrap_wrap. by case_decide.
Qed.
#[local] Instance oaep : OAEP := {|
  EncryptOAEP := λ _ m l _, let body := wrap l (wrap m "") in
    if (String.length body <=? 512)%nat then Some (body +:+ pad (512 - String.length body)) else None;
  DecryptOAEP := λ _ c l, unwrap l c ≫= read;
  matches := λ _ _, true;
  Size := λ _, 512;
|}.
#[local] Instance oaep_laws : OAEPLaws.
Proof.
  split; cbn [EncryptOAEP DecryptOAEP Size oaep]; cbv zeta; intros ????.
  - intros r c _. destruct (_ <=? _)%nat; [intros [= <-]|done]. rewrite !wrap_app, unwrap_wrap, decide_True by done. apply read_wrap.
  - intros l' r c Hl. destruct (_ <=? _)%nat; [intros [= <-]|done]. by rewrite wrap_app, unwrap_wrap, decide_False.
  - intros c. destruct (_ <=? _)%nat eqn:E; [intros [= <-]|done]. apply Nat.leb_le in E. rewrite string_app_length, pad_length. lia.
Qed.

Definition key : string := "0123456789abcdef0123456789abcdef".
Definition record : option string :=
  EncryptRecovery "pub" "profile" (RecoveryBinding "0A1b" "pseud") key (Some "nonce0123456") "r".

Lemma escrow_opens_only_its_row_witness : ∃ out, record = Some out ∧
  DecryptRecovery "priv" out (RecoveryBinding "0a1B" "pseud") = Some "profile" ∧
  DecryptRecovery "priv" out (RecoveryBinding "0a1c" "pseud") = None.
Proof.
  destruct record as [out|] eqn:E; [|by vm_compute in E]. exists out. split; [done|].
  assert (Hi : ∀ c d e f, code c ≠ 0 → code d ≠ 0 → code e ≠ 0 → code f ≠ 0 →
            no_nul (String c (String d (String e (String f "")))))
    by (intros; cbn; auto).
  split.
  - rewrite (escrow_opens_only_its_row "pub" "priv" "profile" "0A1b" "pseud" key "nonce0123456" "r" out "0a1B" "pseud");
      [by vm_compute|done|done|done|apply Hi; by vm_compute|apply Hi; by vm_compute|exact E].
  - rewrite (escrow_opens_only_its_row "pub" "priv" "profile" "0A1b" "pseud" key "nonce0123456" "r" out "0a1c" "pseud");
      [by vm_compute|done|done|done|apply Hi; by vm_compute|apply Hi; by vm_compute|exact E].
Defined.

Lemma bound_record_is_never_legacy_witness : ∃ out, record = Some out ∧
  DecryptRecoveryLegacy "priv" out = None ∧ DecryptRecoveryLegacy "priv" (drop_str recoveryHeaderLen out) = None ∧
  DecryptRecoveryLegacy "priv" (drop_str 4 out) = None.
Proof.
  destruct record as [out|] eqn:E; [|by vm_compute in E]. exists out. split; [done|].
  destruct (bound_record_is_never_legacy "pub" "profile" (RecoveryBinding "0A1b" "pseud") key (Some "nonce0123456") "r" out "priv") as (H1 & H2 & H3); [done|exact E|].
  repeat split; [done|done|]. apply H3. vm_compute in E. injection E as <-. by vm_compute.
Defined.
End ToyEscrow.
