(* ===== verification/KeyStore.v ===== *)
(** * KeyStore: signing keys in the database, and the pods that load them

    Models internal/keystore (keystore.go, rotation.go, retention.go) over the
    table auth.signing_keys with the triggers and the import function the
    migrations put on it.  Several pods share the table; each holds in memory the
    key set its last successful refresh loaded.  The PEM and PKIX codecs of
    crypto/x509 are parameters. *)
From S2P Require Import Prelude GoStd Cache Crypto Json Bytes NetIP Aes.
From stdpp Require Import list gmap strings sorting.
Open Scope string_scope.
Open Scope Z_scope.

(** ** Keys *)
Class KeyCodec := {
  signingKey : Type;
  verifyKey : Type;
  verifyKey_eq_dec :: EqDecision verifyKey;
  public : signingKey → verifyKey;
  MarshalSigningKeyPEM : signingKey → string;
  LoadSigningKeyPEM : string → option signingKey;   (** a PKCS#8 RSA key of 2048 bits or more *)
  MarshalPKIXPublicKey : verifyKey → string;
  ParsePKIXPublicKey : string → option verifyKey;   (** [None]: malformed, or not RSA *)
}.
Class KeyCodecLaws `{KeyCodec} := {
  load_marshal k : LoadSigningKeyPEM (MarshalSigningKeyPEM k) = Some k;
  parse_marshal p : ParsePKIXPublicKey (MarshalPKIXPublicKey p) = Some p;
}.

(** The digest a kid is: sixteen hex characters, split in two. *)
Definition kid_digest `{Primitives} (der : string) : string :=
  let s := sha256_hex der in take_str 8 s +:+ "-" +:+ take_str 8 (drop_str 8 s).
Definition KIDFromPublicKey `{Primitives} `{KeyCodec} (p : verifyKey) : string := kid_digest (MarshalPKIXPublicKey p).

(** ** The table *)
Inductive keyStatus := Active | Retired | Revoked.
#[export] Instance keyStatus_eq_dec : EqDecision keyStatus.
Proof. solve_decision. Defined.
Record KeyRow := mkKeyRow {
  private_key : string; public_key : string; kStatus : keyStatus;
  kCreatedAt : Z; kRetiredAt : option Z; kExpiresAt : option Z;
}.
(** Rows by kid, and the kids of reaped rows (signing_key_tombstones). *)
Record SigningDB := mkSigningDB { signing_keys : gmap string KeyRow; tombstones : gset string }.

Inductive keyErr := ErrNoActiveKey | ErrRevokedKey | ErrClosed | KeyDB (what : string) | KeyUnreadable (kid : string) | KeyEntropy.
#[export] Instance keyErr_eq_dec : EqDecision keyErr.
Proof. solve_decision. Defined.

Definition row_with (r : KeyRow) (st : keyStatus) (retired expires : option Z) : KeyRow :=
  mkKeyRow (private_key r) (public_key r) st (kCreatedAt r) retired expires.

(** *** Guards of the table
    An update of [old] to [new] under one kid: revoked rows are immutable; a
    retired row returns to active only under fresh ciphertext of the same
    public key, and its expiry is never cleared or extended; a retired row has
    an expiry and an active one no retirement. *)
Definition extends_expiry (t t' : option Z) : bool :=
  match t, t' with Some _, None => true | Some a, Some b => a <? b | None, _ => false end.
Definition row_check (r : KeyRow) : bool :=
  match kStatus r with
  | Retired => bool_decide (is_Some (kExpiresAt r))
  | Active => bool_decide (kRetiredAt r = None)
  | Revoked => true
  end.
Definition update_permitted (old new : KeyRow) : bool :=
  match kStatus old with
  | Revoked => false
  | Retired =>
      match kStatus new with
      | Active => negb (bool_decide (private_key new = private_key old)) && bool_decide (public_key new = public_key old)
      | Retired => negb (extends_expiry (kExpiresAt old) (kExpiresAt new))
      | Revoked => true
      end
  | Active => true
  end && row_check new.
Definition insert_permitted (kid : string) (new : KeyRow) (d : SigningDB) : bool :=
  negb (bool_decide (kid ∈ tombstones d)) && row_check new.
Definition reapable (now : Z) (r : KeyRow) : bool :=
  match kStatus r, kExpiresAt r with Retired, Some e => e <? now | _, _ => false end.

Definition with_keys (m : gmap string KeyRow) (d : SigningDB) : SigningDB := mkSigningDB m (tombstones d).

(** [UPDATE ... WHERE status = 'active']: the rows its snapshot saw active and
    that still are ([seen]: READ COMMITTED waits for a writer and rechecks the
    rows it had selected, and does not see rows committed meanwhile). *)
Definition retire (seen : gset string) (now expires : Z) (d : SigningDB) : SigningDB :=
  with_keys (map_imap (λ kid r, Some (if decide (kStatus r = Active ∧ kid ∈ seen)
                                      then row_with r Retired (Some now) (Some expires) else r)) (signing_keys d)) d.
Definition actives (d : SigningDB) : gset string := dom (filter (λ p, kStatus p.2 = Active) (signing_keys d)).

(** auth.import_signing_key: [Ok false] when the kid is revoked. *)
Definition import_signing_key `{Primitives} (kid enc pub : string) (now : Z) (d : SigningDB) : res keyErr bool * SigningDB :=
  if negb (bool_decide (kid = kid_digest pub)) then (Err (KeyDB "kid is not the digest"), d)
  else if bool_decide (kid ∈ tombstones d) then (Err (KeyDB "tombstoned"), d)
  else match signing_keys d !! kid with
       | None => (Ok true, with_keys (<[kid := mkKeyRow enc pub Active now None None]> (signing_keys d)) d)
       | Some old =>
           if decide (kStatus old = Revoked) then (Ok false, d)
           else
             let new := mkKeyRow enc pub Active (kCreatedAt old) None None in
             if update_permitted old new then (Ok true, with_keys (<[kid := new]> (signing_keys d)) d)
             else (Err (KeyDB "retired"), d)
       end.

Definition Revoke_row (kid : string) (now : Z) (d : SigningDB) : bool * SigningDB :=
  match signing_keys d !! kid with
  | Some r => if decide (kStatus r = Revoked) then (false, d)
              else (true, with_keys (<[kid := row_with r Revoked (Some now) (kExpiresAt r)]> (signing_keys d)) d)
  | None => (false, d)
  end.
(** ** Pods *)
(** What the database answers during one operation: each is [false] when the
    statement fails; a transaction that fails is rolled back. *)
Record Reach := mkReach { tx_ok : bool; query_ok : bool; exec_ok : bool; lock_ok : bool }.

(** Rows reaped leave a tombstone. *)
Definition CleanupExpired (up : Reach) (now : Z) (d : SigningDB) : res keyErr Z * SigningDB :=
  if negb (exec_ok up) then (Err (KeyDB "cleanup"), d)
  else
    let gone := filter (λ p, reapable now p.2 = true) (signing_keys d) in
    (Ok (Z.of_nat (size gone)),
     mkSigningDB (filter (λ p, reapable now p.2 = false) (signing_keys d)) (tombstones d ∪ dom gone)).

Section keystore.
Context `{Primitives} `{AEAD} `{KeyCodec}.

Record KeyStore := mkKeyStore {
  ksMasterKey : string;
  masterKeyGone : bool;
  activeKey : option signingKey;
  activeKID : string;
  publicKeys : gmap string verifyKey;
  retentionPeriod : Z;
  notified : option (option signingKey * string);  (** the last [onKeyChange] *)
}.
Definition New (masterKey : string) (retention : Z) : option KeyStore :=
  if negb (String.length masterKey =? 32)%nat then None
  else Some (mkKeyStore masterKey false None "" ∅ retention None).

Definition openKey (ks : KeyStore) (kid encPriv : string) : res keyErr signingKey :=
  if masterKeyGone ks then Err ErrClosed
  else match Decrypt encPriv (ksMasterKey ks) kid ≫= LoadSigningKeyPEM with Some k => Ok k | None => Err (KeyUnreadable kid) end.
(** A row of this vault: it opens, and its public half is the one published. *)
Definition open_row (ks : KeyStore) (kid : string) (r : KeyRow) (pub : verifyKey) : res keyErr signingKey :=
  match openKey ks kid (private_key r) with
  | Err e => Err e
  | Ok k => if decide (public k = pub) then Ok k else Err (KeyUnreadable kid)
  end.

Definition loadable (now : Z) (r : KeyRow) : bool :=
  negb (bool_decide (kStatus r = Revoked)) &&
  match kExpiresAt r with Some e => now <? e | None => bool_decide (kStatus r = Active) end.
Definition newer_key (a b : string * KeyRow) : Prop := kCreatedAt b.2 ≤ kCreatedAt a.2.
#[export] Instance newer_key_dec a b : Decision (newer_key a b).
Proof. unfold newer_key. apply _. Defined.
(** The rows a refresh reads, newest first. *)
Definition refresh_rows (now : Z) (d : SigningDB) : list (string * KeyRow) :=
  merge_sort newer_key (filter (λ p, loadable now p.2 = true) (map_to_list (signing_keys d))).

Record keySet := mkKeySet { ks_active : option signingKey; ks_kid : string; ks_public : gmap string verifyKey }.
(** One row: skipped when it is unusable, an error when the active one is. *)
Definition load_row (ks : KeyStore) (acc : res keyErr keySet) (p : string * KeyRow) : res keyErr keySet :=
  match acc with
  | Err e => Err e
  | Ok s =>
      match ParsePKIXPublicKey (public_key p.2) with
      | None => Ok s
      | Some pub =>
          match open_row ks p.1 p.2 pub with
          | Err e => if decide (kStatus p.2 = Active) then Err e else Ok s
          | Ok k =>
              let pubs := <[p.1 := pub]> (ks_public s) in
              Ok (if decide (kStatus p.2 = Active) then mkKeySet (Some k) p.1 pubs else mkKeySet (ks_active s) (ks_kid s) pubs)
          end
      end
  end.
Definition applyKeys (ks : KeyStore) (s : keySet) : KeyStore :=
  mkKeyStore (ksMasterKey ks) (masterKeyGone ks) (ks_active s) (ks_kid s) (ks_public s) (retentionPeriod ks)
    (if decide (ks_kid s = activeKID ks) then notified ks else Some (ks_active s, ks_kid s)).
(** The whole set is replaced, or nothing changes. *)
Definition RefreshKeys (up : Reach) (now : Z) (d : SigningDB) (ks : KeyStore) : res keyErr unit * KeyStore :=
  if negb (query_ok up) then (Err (KeyDB "query keys"), ks)
  else match fold_left (load_row ks) (refresh_rows now d) (Ok (mkKeySet None "" ∅)) with
  | Err e => (Err e, ks)
  | Ok s => (Ok tt, applyKeys ks s)
  end.

(** The transaction of an import: both statements or neither. *)
Definition import_tx (up : Reach) (seen : gset string) (kid enc pub : string) (now expires : Z) (d : SigningDB) : res keyErr bool * SigningDB :=
  if negb (tx_ok up) then (Err (KeyDB "transaction"), d)
  else match import_signing_key kid enc pub now (retire seen now expires d) with
  | (Ok true, d') => (Ok true, d')
  | (r, _) => (r, d)
  end.
(** [seen] is what the retiring statement's snapshot held; [nonce] is drawn. *)
Definition Import (up : Reach) (seen : gset string) (nonce : option string) (now : Z) (key : signingKey) (d : SigningDB) (ks : KeyStore)
  : res keyErr string * SigningDB * KeyStore :=
  let kid := KIDFromPublicKey (public key) in
  if masterKeyGone ks then (Err ErrClosed, d, ks)
  else match Encrypt (MarshalSigningKeyPEM key) (ksMasterKey ks) kid nonce with
       | None => (Err KeyEntropy, d, ks)
       | Some enc =>
           match import_tx up seen kid enc (MarshalPKIXPublicKey (public key)) now (now + retentionPeriod ks) d with
           | (Err e, d') => (Err e, d', ks)
           | (Ok false, d') => (Err ErrRevokedKey, d', ks)
           | (Ok true, d') =>
               match RefreshKeys up now d' ks with
               | (Ok _, ks') => (Ok kid, d', ks')
               | (Err e, ks') => (Err e, d', ks')
               end
           end
       end.
(** A new key, or none when the generator fails. *)
Definition Rotate (up : Reach) (seen : gset string) (nonce : option string) (now : Z) (fresh : option signingKey) (d : SigningDB) (ks : KeyStore) :=
  match fresh with
  | None => (Err KeyEntropy, d, ks)
  | Some key => Import up seen nonce now key d ks
  end.
Definition Revoke (up : Reach) (kid : string) (now : Z) (d : SigningDB) (ks : KeyStore) : res keyErr unit * SigningDB * KeyStore :=
  if negb (exec_ok up) then (Err (KeyDB "revoke"), d, ks)
  else match Revoke_row kid now d with
  | (false, _) => (Err (KeyDB "not found or already revoked"), d, ks)
  | (true, d') => let '(r, ks') := RefreshKeys up now d' ks in (r, d', ks')
  end.

(** The scheduler: [locked] is the answer of the advisory lock, [lock_ok] that it and the
    age were read. *)
Definition newest_active (d : SigningDB) : option Z :=
  head (merge_sort Z.ge ((λ p, kCreatedAt p.2) <$> filter (λ p, kStatus p.2 = Active) (map_to_list (signing_keys d)))).
Definition RotateIfOlderThan (up : Reach) (locked : bool) (maxAge : Z) (seen : gset string) (nonce : option string) (now : Z)
    (fresh : option signingKey) (d : SigningDB) (ks : KeyStore) : res keyErr string * SigningDB * KeyStore :=
  if negb (lock_ok up) then (Err (KeyDB "rotation"), d, ks)
  else if negb locked then (Ok "", d, ks)
  else match newest_active d with
       | None => (Ok "", d, ks)
       | Some created => if now - created <? maxAge then (Ok "", d, ks) else Rotate up seen nonce now fresh d ks
       end.
Definition EnsureKey (up : Reach) (seen : gset string) (nonce : option string) (now : Z) (importKey fresh : option signingKey) (d : SigningDB) (ks : KeyStore)
  : res keyErr unit * SigningDB * KeyStore :=
  match RefreshKeys up now d ks with
  | (Err e, ks') => (Err e, d, ks')
  | (Ok _, ks') =>
      match activeKey ks' with
      | Some _ => (Ok tt, d, ks')
      | None =>
          let '(r, d', ks'') := match importKey with
                                | Some k => Import up seen nonce now k d ks'
                                | None => Rotate up seen nonce now fresh d ks'
                                end in
          (match r with Ok _ => Ok tt | Err e => Err e end, d', ks'')
      end
  end.
Definition zero_key (k : string) : string := (fix go s := match s with "" => "" | String _ r => String (chr 0) (go r) end) k.
Definition Stop (ks : KeyStore) : KeyStore :=
  mkKeyStore (zero_key (ksMasterKey ks)) true (activeKey ks) (activeKID ks) (publicKeys ks) (retentionPeriod ks) (notified ks).
End keystore.

(** * Facts: which keys a fleet trusts

    Pods, operators, the sweeper and whoever holds the database role of the
    application act on one table, in any order.  A pod publishes only keys some
    pod imported, signs only with a key it publishes, and keeps a key long
    enough for the tokens it signed; a revoked key never returns. *)

Section load.
Context `{Primitives} `{AEADLaws} `{KeyCodecLaws}.
Implicit Types (ks : KeyStore) (d : SigningDB).

(** ** What a refresh loads *)
Lemma elem_refresh_rows now d kid r :
  (kid, r) ∈ refresh_rows now d ↔ signing_keys d !! kid = Some r ∧ loadable now r = true.
Proof.
  unfold refresh_rows. rewrite merge_sort_Permutation, list_elem_of_filter, elem_of_map_to_list. cbn. tauto.
Qed.
Lemma load_err ks rows e : fold_left (load_row ks) rows (Err e) = Err e.
Proof. by induction rows. Qed.

(** The row that vouches for a published key. *)
Definition vouched ks (m : gmap string KeyRow) (kid : string) (pub : verifyKey) : Prop :=
  ∃ r k, m !! kid = Some r ∧ ParsePKIXPublicKey (public_key r) = Some pub ∧ open_row ks kid r pub = Ok k.
Definition sound_set ks (m : gmap string KeyRow) (s : keySet) : Prop :=
  (∀ kid pub, ks_public s !! kid = Some pub → vouched ks m kid pub) ∧
  (∀ k, ks_active s = Some k → ks_public s !! ks_kid s = Some (public k)).
Lemma open_row_public ks kid r pub k : open_row ks kid r pub = Ok k → public k = pub.
Proof. unfold open_row. destruct (openKey _ _ _); [|done]. case_decide; [|done]. by intros [= <-]. Qed.
Lemma load_row_sound ks m s s' kid r : m !! kid = Some r → sound_set ks m s → load_row ks (Ok s) (kid, r) = Ok s' → sound_set ks m s'.
Proof.
  intros Hm [Hp Ha]. unfold load_row. cbn [fst snd]. destruct (ParsePKIXPublicKey (public_key r)) as [pub|] eqn:Ep; [|by intros [= <-]].
  destruct (open_row ks kid r pub) as [k|e] eqn:Eo; [|case_decide; [done|by intros [= <-]]].
  assert (Hins : ∀ kid' pub', <[kid := pub]> (ks_public s) !! kid' = Some pub' → vouched ks m kid' pub').
  { intros kid' pub' [[<- <-]|[_ ?]]%lookup_insert_Some; [by exists r, k|by apply Hp]. }
  intros [= <-]. case_decide as Hact; split; cbn; try exact Hins.
  - intros k' [= <-]. rewrite lookup_insert_eq. f_equal. symmetry. by eapply open_row_public.
  - intros k' Hk'. specialize (Ha _ Hk'). destruct (decide (kid = ks_kid s)) as [->|]; [|by rewrite lookup_insert_ne].
    rewrite lookup_insert_eq. destruct (Hp _ _ Ha) as (r' & k'' & Hr' & Hpub & _). congruence.
Qed.
Lemma load_rows_sound ks m rows s s' : (∀ kid r, (kid, r) ∈ rows → m !! kid = Some r) → sound_set ks m s →
  fold_left (load_row ks) rows (Ok s) = Ok s' → sound_set ks m s'.
Proof.
  revert s. induction rows as [|[kid r] rows IH]; intros s Hin Hs; cbn [fold_left]; [by intros [= <-]|].
  destruct (load_row ks (Ok s) (kid, r)) as [s1|e] eqn:E; [|by rewrite load_err].
  apply IH; [intros; apply Hin; by right|]. eapply load_row_sound; [|done|done]. apply Hin. left.
Qed.
(** A usable row is loaded. *)
Lemma load_rows_complete ks (m : gmap string KeyRow) rows s s' kid r k pub : (∀ kid r, (kid, r) ∈ rows → m !! kid = Some r) →
  m !! kid = Some r → ParsePKIXPublicKey (public_key r) = Some pub → open_row ks kid r pub = Ok k →
  fold_left (load_row ks) rows (Ok s) = Ok s' → (kid, r) ∈ rows ∨ ks_public s !! kid = Some pub → ks_public s' !! kid = Some pub.
Proof.
  intros Hin Hm Hp Ho. revert s Hin. induction rows as [|[kid1 r1] rows IH]; intros s Hin; cbn [fold_left].
  { intros [= <-] [Hn|?]; [by apply not_elem_of_nil in Hn|done]. }
  destruct (load_row ks (Ok s) (kid1, r1)) as [s1|e] eqn:E; [|by rewrite load_err].
  intros Hf Hor. apply (IH s1); [intros; apply Hin; by right|done|].
  destruct (decide (kid1 = kid)) as [->|Hne].
  - assert (r1 = r) as -> by (enough (Some r1 = Some r) by congruence; rewrite <- Hm; symmetry; apply Hin; left).
    right. unfold load_row in E. cbn [fst snd] in E. rewrite Hp, Ho in E. injection E as <-. case_decide; cbn; by rewrite lookup_insert_eq.
  - destruct Hor as [Hr|Hs]; [left; by apply elem_of_cons in Hr as [[= E1 E2]|?]; [congruence|]|]. right. revert E. unfold load_row. cbn [fst snd].
    destruct (ParsePKIXPublicKey (public_key r1)); [|by intros [= <-]]. destruct (open_row ks kid1 r1 _); [|case_decide; [done|by intros [= <-]]].
    intros [= <-]. case_decide; cbn; by rewrite lookup_insert_ne.
Qed.

Lemma Refresh_sound {up} now d ks ks' : RefreshKeys up now d ks = (Ok tt, ks') →
  (∀ kid pub, publicKeys ks' !! kid = Some pub →
     vouched ks (signing_keys d) kid pub ∧ ∃ r, signing_keys d !! kid = Some r ∧ loadable now r = true) ∧
  (∀ k, activeKey ks' = Some k → publicKeys ks' !! activeKID ks' = Some (public k)).
Proof.
  unfold RefreshKeys. destruct (negb _); [done|]. destruct (fold_left _ _ _) as [s|e] eqn:E; [|done]. intros [= <-]. cbn.
  set (m := filter (λ p, loadable now p.2 = true) (signing_keys d)).
  assert (Hs : sound_set ks m s).
  { apply (load_rows_sound ks m _ _ s) in E; [done| |split; cbn; [intros ? ? Hn; by apply lookup_empty_Some in Hn|done]].
    intros kid r [Hr Hl]%elem_refresh_rows. by apply map_lookup_filter_Some. }
  destruct Hs as [Hp Ha]. split; [|exact Ha]. intros kid pub (r & k & [Hr Hl]%map_lookup_filter_Some & Hpub & Ho)%Hp.
  split; [by exists r, k|by exists r].
Qed.
Lemma Refresh_complete {up} now d ks ks' kid r k pub : RefreshKeys up now d ks = (Ok tt, ks') → signing_keys d !! kid = Some r →
  loadable now r = true → ParsePKIXPublicKey (public_key r) = Some pub → open_row ks kid r pub = Ok k → publicKeys ks' !! kid = Some pub.
Proof.
  intros HR Hr Hl Hp Ho. unfold RefreshKeys in HR. destruct (negb _); [done|]. destruct (fold_left _ _ _) as [s|e] eqn:E; [|done]. injection HR as <-. cbn.
  eapply (load_rows_complete ks (signing_keys d)); [|done|done|done|exact E|].
  - by intros kid' r' [? _]%elem_refresh_rows.
  - left. by apply elem_refresh_rows.
Qed.
Lemma Refresh_cases {up} now d ks r ks' : RefreshKeys up now d ks = (r, ks') →
  ksMasterKey ks' = ksMasterKey ks ∧ masterKeyGone ks' = masterKeyGone ks ∧ retentionPeriod ks' = retentionPeriod ks ∧
  (is_ok r = false → ks' = ks).
Proof. unfold RefreshKeys. destruct (negb _); [by intros [= <- <-]|]. destruct (fold_left _ _ _); by intros [= <- <-]. Qed.
End load.

(** ** The fleet *)
Section fleet.
Context `{Primitives} `{AEADLaws} `{KeyCodecLaws}.
(** The master key every pod is started with. *)
Context (master : string).
Implicit Types (ks : KeyStore) (d : SigningDB).

Record fleet := mkFleet {
  sdb : SigningDB;
  fclock : Z;
  pods : list KeyStore;
  imported : list signingKey;  (** every key any pod ever imported *)
}.

(** A ciphertext nobody without the master key can make: it opens, if at all,
    to a key that was imported, under that key's kid. *)
Definition genuine (imp : list signingKey) (enc : string) : Prop :=
  ∀ aad pt, Decrypt enc master aad = Some pt → ∃ k, k ∈ imp ∧ aad = KIDFromPublicKey (public k) ∧ pt = MarshalSigningKeyPEM k.

(** One action on the shared table: time, a pod importing (or rotating to) a
    key, revoking, refreshing, starting or stopping, the sweeper, and the
    statements the application's database role may issue by itself: updates of
    the three columns it is granted, inserts, deletes and calls of the import
    function, under the guards of the table, with any bytes it can come by. *)
Inductive action : fleet → fleet → Prop :=
| a_time f t : 0 ≤ t → action f (mkFleet (sdb f) (fclock f + t) (pods f) (imported f))
| a_start f ks retention : New master retention = Some ks → action f (mkFleet (sdb f) (fclock f) (pods f ++ [ks]) (imported f))
| a_import f up i ks seen nonce key r d' ks' :
    pods f !! i = Some ks → (∀ n, nonce = Some n → String.length n = nonceSize) →
    Import up seen nonce (fclock f) key (sdb f) ks = (r, d', ks') →
    action f (mkFleet d' (fclock f) (<[i := ks']> (pods f)) (key :: imported f))
| a_revoke f up i ks kid r d' ks' :
    pods f !! i = Some ks → Revoke up kid (fclock f) (sdb f) ks = (r, d', ks') →
    action f (mkFleet d' (fclock f) (<[i := ks']> (pods f)) (imported f))
| a_refresh f up i ks r ks' :
    pods f !! i = Some ks → RefreshKeys up (fclock f) (sdb f) ks = (r, ks') →
    action f (mkFleet (sdb f) (fclock f) (<[i := ks']> (pods f)) (imported f))
| a_stop f i ks : pods f !! i = Some ks → action f (mkFleet (sdb f) (fclock f) (<[i := Stop ks]> (pods f)) (imported f))
| a_sweep f up : action f (mkFleet (CleanupExpired up (fclock f) (sdb f)).2 (fclock f) (pods f) (imported f))
| a_role_update f kid old new :
    signing_keys (sdb f) !! kid = Some old → private_key new = private_key old → public_key new = public_key old →
    update_permitted old new = true →
    action f (mkFleet (with_keys (<[kid := new]> (signing_keys (sdb f))) (sdb f)) (fclock f) (pods f) (imported f))
| a_role_insert f kid new :
    signing_keys (sdb f) !! kid = None → insert_permitted kid new (sdb f) = true → genuine (imported f) (private_key new) →
    action f (mkFleet (with_keys (<[kid := new]> (signing_keys (sdb f))) (sdb f)) (fclock f) (pods f) (imported f))
| a_role_import f kid enc pub r d' :
    genuine (imported f) enc → import_signing_key kid enc pub (fclock f) (sdb f) = (r, d') →
    action f (mkFleet d' (fclock f) (pods f) (imported f))
| a_role_delete f kid r :
    signing_keys (sdb f) !! kid = Some r → reapable (fclock f) r = true →
    action f (mkFleet (mkSigningDB (delete kid (signing_keys (sdb f))) (tombstones (sdb f) ∪ {[kid]})) (fclock f) (pods f) (imported f)).
Definition evolves : fleet → fleet → Prop := rtc action.

(** ** Trust *)
Definition pod_trusts (imp : list signingKey) ks : Prop :=
  (masterKeyGone ks = false → ksMasterKey ks = master) ∧
  (∀ kid pub, publicKeys ks !! kid = Some pub → ∃ k, k ∈ imp ∧ kid = KIDFromPublicKey (public k) ∧ pub = public k) ∧
  (∀ k, activeKey ks = Some k → publicKeys ks !! activeKID ks = Some (public k)).
Definition rows_genuine (imp : list signingKey) d : Prop := ∀ kid r, signing_keys d !! kid = Some r → genuine imp (private_key r).
Definition trusted (f : fleet) : Prop := rows_genuine (imported f) (sdb f) ∧ Forall (pod_trusts (imported f)) (pods f).

Lemma genuine_more k imp enc : genuine imp enc → genuine (k :: imp) enc.
Proof. intros Hg aad pt (k' & ? & ?)%Hg. exists k'. split; [by right|done]. Qed.
Lemma pod_trusts_more k imp ks : pod_trusts imp ks → pod_trusts (k :: imp) ks.
Proof. intros (Hm & Hp & Ha). split_and!; [done| |done]. intros kid pub (k' & ? & ?)%Hp. exists k'. split; [by right|done]. Qed.

Lemma open_genuine imp ks kid r pub k : pod_trusts imp ks → genuine imp (private_key r) → open_row ks kid r pub = Ok k →
  k ∈ imp ∧ kid = KIDFromPublicKey (public k) ∧ pub = public k.
Proof.
  intros (Hm & _) Hg Ho. pose proof (open_row_public _ _ _ _ _ Ho) as Hpub. unfold open_row, openKey in Ho.
  destruct (masterKeyGone ks); [done|]. rewrite Hm in Ho by done.
  destruct (Decrypt (private_key r) master kid) as [pem|] eqn:Ed; cbn in Ho; [|done].
  destruct (LoadSigningKeyPEM pem) as [k'|] eqn:El; [|done]. case_decide; [|done]. injection Ho as <-.
  destruct (Hg _ _ Ed) as (k0 & Hin & -> & ->). rewrite load_marshal in El. injection El as <-. done.
Qed.
Lemma refresh_trusts imp {up} now d ks r ks' : rows_genuine imp d → pod_trusts imp ks → RefreshKeys up now d ks = (r, ks') → pod_trusts imp ks'.
Proof.
  intros Hg Hk HR. destruct r as [[]|e]; [|by destruct (Refresh_cases _ _ _ _ _ HR) as (_ & _ & _ & ->)].
  destruct (Refresh_sound _ _ _ _ HR) as [Hs Ha]. destruct (Refresh_cases _ _ _ _ _ HR) as (Hm & Hgone & _).
  split_and!; [rewrite Hgone, Hm; apply Hk| |done].
  intros kid pub [(r & k & Hr & _ & Ho) _]%Hs. destruct (open_genuine imp _ _ _ _ _ Hk (Hg _ _ Hr) Ho) as (? & ? & ?). eauto.
Qed.

(** Rows change only by statements whose ciphertext is genuine. *)
Lemma genuine_retire imp seen now e d : rows_genuine imp d → rows_genuine imp (retire seen now e d).
Proof.
  intros Hg kid r Hr. unfold retire in Hr. cbn in Hr. rewrite map_lookup_imap in Hr.
  destruct (signing_keys d !! kid) as [r0|] eqn:E; [|done]. cbn in Hr. injection Hr as <-. case_decide; by apply (Hg kid r0).
Qed.
Lemma genuine_insert imp kid r d : rows_genuine imp d → genuine imp (private_key r) → rows_genuine imp (with_keys (<[kid := r]> (signing_keys d)) d).
Proof. intros Hg Hr kid' r' Hx. cbn in Hx. apply lookup_insert_Some in Hx as [[<- <-]|[_ ?]]; [done|by apply (Hg kid' r')]. Qed.
Lemma genuine_import_row imp kid enc pub now d r d' : rows_genuine imp d → genuine imp enc →
  import_signing_key kid enc pub now d = (r, d') → rows_genuine imp d'.
Proof.
  intros Hg He. unfold import_signing_key. destruct (negb _); [by intros [= _ <-]|]. destruct (bool_decide _); [by intros [= _ <-]|].
  destruct (signing_keys d !! kid); [|intros [= _ <-]; by apply genuine_insert]. case_decide; [by intros [= _ <-]|].
  cbv zeta. destruct (update_permitted _ _); intros [= _ <-]; [by apply genuine_insert|done].
Qed.
Lemma genuine_import_tx imp {up} seen kid enc pub now e d r d' : rows_genuine imp d → genuine imp enc →
  import_tx up seen kid enc pub now e d = (r, d') → rows_genuine imp d'.
Proof.
  intros Hg He. unfold import_tx. destruct (negb _); [by intros [= <- <-]|]. destruct (import_signing_key _ _ _ _ _) as [[[]|] d1] eqn:E; intros [= _ <-]; try done.
  eapply genuine_import_row; [|done|exact E]. by apply genuine_retire.
Qed.
Lemma genuine_sealed imp k n enc : k ∈ imp → String.length n = nonceSize →
  Encrypt (MarshalSigningKeyPEM k) master (KIDFromPublicKey (public k)) (Some n) = Some enc → genuine imp enc.
Proof.
  intros Hk Hn He aad pt Hd. rewrite (Decrypt_Encrypt _ _ _ _ _ aad Hn He) in Hd. case_decide; [|done]. injection Hd as <-. eauto.
Qed.
Lemma import_trusts imp {up} seen nonce now key d ks r d' ks' : rows_genuine imp d → pod_trusts imp ks → key ∈ imp →
  (∀ n, nonce = Some n → String.length n = nonceSize) →
  Import up seen nonce now key d ks = (r, d', ks') → rows_genuine imp d' ∧ pod_trusts imp ks'.
Proof.
  intros Hg Hk Hin Hn. unfold Import. cbv zeta. destruct (masterKeyGone ks) eqn:Egone; [by intros [= _ <- <-]|].
  destruct (Encrypt _ _ _ nonce) as [enc|] eqn:Ee; [|by intros [= _ <- <-]].
  assert (He : genuine imp enc).
  { destruct nonce as [n|]; [|unfold Encrypt in Ee; by destruct (negb _)]. rewrite (proj1 Hk Egone) in Ee.
    eapply genuine_sealed; [done|by apply Hn|exact Ee]. }
  destruct (import_tx _ _ _ _ _ _ _ _) as [[b|e] d1] eqn:Et; [|intros [= _ <- <-]; split; [by eapply genuine_import_tx|done]].
  pose proof (genuine_import_tx _ _ _ _ _ _ _ _ _ _ Hg He Et) as Hg1. destruct b; [|by intros [= _ <- <-]].
  destruct (RefreshKeys up now d1 ks) as [[[]|e] ks1] eqn:ER; intros [= _ <- <-]; split; try done; by eapply refresh_trusts.
Qed.

Lemma pods_set imp (l : list KeyStore) i ks : Forall (pod_trusts imp) l → pod_trusts imp ks → Forall (pod_trusts imp) (<[i := ks]> l).
Proof. intros. by apply Forall_insert. Qed.
Lemma action_trusted f f' : trusted f → action f f' → trusted f'.
Proof.
  intros [Hg Hp] Ha. destruct Ha as [f t|f ks ret Hnew|f up i ks seen nonce key r d' ks' Hi Hn HI|f up i ks kid r d' ks' Hi HR|f up i ks r ks' Hi HR
    |f i ks Hi|f up|f kid old new Ho E1 E2 Hu|f kid new Ho Hu Hge|f kid enc pub r d' Hge HI|f kid r Ho Hre]; unfold trusted; cbn;
    try pose proof (Forall_lookup_1 _ _ _ _ Hp Hi) as Hk.
  - done.
  - split; [done|]. apply Forall_app. split; [done|]. apply Forall_singleton. unfold New in Hnew. destruct (negb _); [done|]. injection Hnew as <-.
    split_and!; cbn; [done|intros ? ? Hx; by apply lookup_empty_Some in Hx|done].
  - assert (Hg' : rows_genuine (key :: imported f) (sdb f)) by (intros k r0 Hr0; by eapply genuine_more, Hg).
    destruct (import_trusts (up := up) (key :: imported f) seen nonce (fclock f) key (sdb f) ks r d' ks') as [? ?]; [done|by apply pod_trusts_more|left|done|done|].
    split; [done|]. apply pods_set; [|done]. eapply Forall_impl; [exact Hp|]. intros. by apply pod_trusts_more.
  - assert (Hd : rows_genuine (imported f) d' ∧ pod_trusts (imported f) ks').
    { unfold Revoke, Revoke_row in HR. destruct (negb _); [by injection HR as _ <- <-|]. destruct (signing_keys (sdb f) !! kid) as [row|] eqn:Er; [|by injection HR as _ <- <-].
      case_decide; [by injection HR as _ <- <-|]. destruct (RefreshKeys _ _ _ ks) as [r1 ks1] eqn:ER. injection HR as _ <- <-.
      assert (Hg1 : rows_genuine (imported f) (with_keys (<[kid := row_with row Revoked (Some (fclock f)) (kExpiresAt row)]> (signing_keys (sdb f))) (sdb f)))
        by (apply genuine_insert; [done|by apply (Hg kid row)]).
      split; [done|by eapply refresh_trusts]. }
    destruct Hd. split; [done|by apply pods_set].
  - split; [done|]. apply pods_set; [done|by eapply refresh_trusts].
  - split; [done|]. apply pods_set; [done|]. destruct Hk as (_ & ? & ?). by split_and!.
  - unfold CleanupExpired. destruct (negb _); [done|]. cbv zeta. split; [|done]. intros kid r Hx. cbn in Hx. apply map_lookup_filter_Some in Hx as [Hr _]. by apply (Hg kid r).
  - split; [|done]. apply genuine_insert; [done|]. rewrite E1. by apply (Hg kid old).
  - split; [|done]. by apply genuine_insert.
  - split; [|done]. by eapply genuine_import_row.
  - split; [|done]. intros kid' r' Hx. cbn in Hx. apply lookup_delete_Some in Hx as [_ Hr']. by apply (Hg kid' r').
Qed.

(** C2. From an empty table, whatever pods, operators, the sweeper and the holder of
    the database role do, in any order: every key a pod publishes is one that a
    pod imported, under the kid of its own public half, and the key a pod signs
    with is one it publishes. *)
Theorem fleet_trusts_only_its_keys t f ks :
  evolves (mkFleet (mkSigningDB ∅ ∅) t [] []) f → ks ∈ pods f →
  (∀ kid pub, publicKeys ks !! kid = Some pub → ∃ k, k ∈ imported f ∧ kid = KIDFromPublicKey (public k) ∧ pub = public k) ∧
  (∀ k, activeKey ks = Some k → publicKeys ks !! activeKID ks = Some (public k)).
Proof.
  intros Hf Hin. assert (Ht : trusted f).
  { eapply (rtc_ind_l (λ f0, trusted f0 → trusted f)); [| |exact Hf|]; [done| |].
    - intros x y Hxy _ IH Hx. apply IH. by eapply action_trusted.
    - split; [intros ? ? Hx; cbn in Hx; by apply lookup_empty_Some in Hx|constructor]. }
  destruct Ht as [_ Hp]. rewrite Forall_forall in Hp. destruct (Hp _ Hin) as (_ & ? & ?). done.
Qed.

(** ** Revocation *)
(** What a leaked or reaped kid is in the table: a revoked row, or a tombstone. *)
Definition dead (kid : string) (r : option KeyRow) d : Prop :=
  signing_keys d !! kid = r ∧ match r with Some x => kStatus x = Revoked | None => kid ∈ tombstones d end.

Lemma retire_lookup seen now e d kid : signing_keys (retire seen now e d) !! kid =
  (λ r, if decide (kStatus r = Active ∧ kid ∈ seen) then row_with r Retired (Some now) (Some e) else r) <$> signing_keys d !! kid.
Proof. unfold retire. cbn. rewrite map_lookup_imap. by destruct (signing_keys d !! kid). Qed.
Lemma dead_retire kid r seen now e d : dead kid r d → dead kid r (retire seen now e d).
Proof.
  intros [Hr Hx]. split; [|by destruct r]. rewrite retire_lookup, Hr. destruct r as [x|]; [|done]. cbn. rewrite decide_False; [done|].
  intros [E _]. by rewrite Hx in E.
Qed.
Lemma dead_insert kid r kid' new d : dead kid r d → kid' ≠ kid → dead kid r (with_keys (<[kid' := new]> (signing_keys d)) d).
Proof. intros [Hr Hx] Hne. split; [|done]. cbn. by rewrite lookup_insert_ne. Qed.
Lemma dead_import kid r kid' enc pub now d b d' : dead kid r d → import_signing_key kid' enc pub now d = (b, d') →
  dead kid r d' ∧ (kid' = kid → b ≠ Ok true).
Proof.
  intros Hd. unfold import_signing_key. destruct (negb _); [by intros [= <- <-]|].
  destruct (bool_decide (kid' ∈ tombstones d)) eqn:Eb; [by intros [= <- <-]|]. apply bool_decide_eq_false in Eb.
  destruct (decide (kid' = kid)) as [->|Hne].
  - destruct Hd as [Hr Hx]. rewrite Hr. destruct r as [x|]; [|done]. rewrite decide_True by done. intros [= <- <-]. done.
  - destruct (signing_keys d !! kid'); [|intros [= <- <-]; split; [by apply dead_insert|done]]. case_decide; [by intros [= <- <-]|].
    cbv zeta. destruct (update_permitted _ _); intros [= <- <-]; split; try done. by apply dead_insert.
Qed.
Lemma dead_tx kid r {up} seen kid' enc pub now e d b d' : dead kid r d → import_tx up seen kid' enc pub now e d = (b, d') →
  dead kid r d' ∧ (kid' = kid → b ≠ Ok true).
Proof.
  intros Hd. unfold import_tx. destruct (negb _); [by intros [= <- <-]|]. destruct (import_signing_key _ _ _ _ _) as [b1 d1] eqn:E.
  destruct (dead_import kid r _ _ _ _ _ _ _ (dead_retire _ _ seen now e _ Hd) E) as [Hd1 Hb].
  destruct b1 as [[]|]; intros [= <- <-]; by split.
Qed.
Lemma Import_dead kid r {up} seen nonce now key d ks b d' ks' : dead kid r d → Import up seen nonce now key d ks = (b, d', ks') →
  dead kid r d' ∧ (KIDFromPublicKey (public key) = kid → is_ok b = false).
Proof.
  intros Hd. unfold Import. cbv zeta. destruct (masterKeyGone ks); [by intros [= <- <- _]|]. destruct (Encrypt _ _ _ _); [|by intros [= <- <- _]].
  destruct (import_tx _ _ _ _ _ _ _ _) as [b1 d1] eqn:Et. destruct (dead_tx _ _ _ _ _ _ _ _ _ _ _ Hd Et) as [Hd1 Hb].
  destruct b1 as [[]|]; [|by intros [= <- <- _]|by intros [= <- <- _]].
  destruct (RefreshKeys up now d1 ks) as [[]]; intros [= <- <- _]; split; try done; intros E; by destruct (Hb E).
Qed.
Lemma action_dead f f' kid r : dead kid r (sdb f) → action f f' → dead kid r (sdb f').
Proof.
  intros Hd Ha. destruct Ha as [f t|f ks ret Hnew|f up i ks seen nonce key b d' ks' Hi Hn HI|f up i ks kid' b d' ks' Hi HR|f up i ks b ks' Hi HR
    |f i ks Hi|f up|f kid' old new Ho E1 E2 Hu|f kid' new Ho Hu Hge|f kid' enc pub b d' Hge HI|f kid' row Ho Hre]; cbn; try done.
  - by eapply Import_dead.
  - revert HR. unfold Revoke, Revoke_row. destruct (negb _); [by intros [= _ <- _]|]. destruct (signing_keys (sdb f) !! kid') as [row|] eqn:Er; [|by intros [= _ <- _]].
    case_decide as Hs; [by intros [= _ <- _]|]. destruct (RefreshKeys _ _ _ _). intros [= _ <- _]. apply dead_insert; [done|].
    intros ->. destruct Hd as [Hr Hx]. rewrite Er in Hr. subst r. done.
  - unfold CleanupExpired. destruct (negb _); [done|]. cbv zeta. destruct Hd as [Hr Hx]. destruct r as [x|].
    + split; [|done]. cbn. apply map_lookup_filter_Some. split; [done|]. cbn. unfold reapable. by rewrite Hx.
    + split; [cbn; apply map_lookup_filter_None; by left|cbn; set_solver].
  - apply dead_insert; [done|]. intros ->. destruct Hd as [Hr Hx]. rewrite Ho in Hr. subst r. unfold update_permitted in Hu. by rewrite Hx in Hu.
  - apply dead_insert; [done|]. intros ->. destruct Hd as [Hr Hx]. rewrite Ho in Hr. subst r. unfold insert_permitted in Hu.
    by rewrite bool_decide_eq_true_2 in Hu.
  - by eapply dead_import.
  - destruct Hd as [Hr Hx]. assert (kid' ≠ kid).
    { intros ->. rewrite Ho in Hr. subst r. unfold reapable in Hre. by rewrite Hx in Hre. }
    split; [cbn; by rewrite lookup_delete_ne|]. destruct r; [done|]. cbn. set_solver.
Qed.

(** C13. A revoked key, and the kid of a reaped one, are gone for good: through any
    actions of anyone the row stays as it is, no refresh that succeeds
    publishes the key or signs with it, and importing it again is refused. *)
Theorem revoked_key_never_returns up f f' kid r ks now ks' key seen nonce :
  dead kid r (sdb f) → evolves f f' →
  dead kid r (sdb f') ∧
  (RefreshKeys up now (sdb f') ks = (Ok tt, ks') → publicKeys ks' !! kid = None ∧ (∀ k, activeKey ks' = Some k → activeKID ks' ≠ kid)) ∧
  (KIDFromPublicKey (public key) = kid → is_ok (Import up seen nonce now key (sdb f') ks).1.1 = false).
Proof.
  intros Hd Hf. assert (Hd' : dead kid r (sdb f')).
  { eapply (rtc_ind_l (λ f0, dead kid r (sdb f0) → dead kid r (sdb f'))); [| |exact Hf|exact Hd]; [done|].
    intros x y Hxy _ IH Hx. apply IH. by eapply action_dead. }
  split; [done|]. split.
  - intros HR. destruct (Refresh_sound _ _ _ _ HR) as [Hs Ha]. assert (Hn : publicKeys ks' !! kid = None).
    { destruct (publicKeys ks' !! kid) as [pub|] eqn:E; [|done]. destruct (Hs _ _ E) as [_ (row & Hrow & Hl)]. destruct Hd' as [Hr Hx].
      rewrite Hrow in Hr. subst r. unfold loadable in Hl. by rewrite Hx in Hl. }
    split; [done|]. intros k Hk Ekid. apply Ha in Hk. rewrite Ekid, Hn in Hk. done.
  - intros Ek. destruct (Import up seen nonce now key (sdb f') ks) as [[b d1] ks1] eqn:E. cbn. by eapply Import_dead.
Qed.

(** ** Keys outlive their tokens *)
(** The actions of a fleet nobody attacks, as far as [key] is concerned: it is
    not revoked, no other key with its kid is imported, and every pod that
    imports keeps retired keys for at least [D]. *)
Inductive routine (key : signingKey) (D : Z) : fleet → fleet → Prop :=
| r_time f t : 0 ≤ t → routine key D f (mkFleet (sdb f) (fclock f + t) (pods f) (imported f))
| r_start f ks retention : New master retention = Some ks → routine key D f (mkFleet (sdb f) (fclock f) (pods f ++ [ks]) (imported f))
| r_import f up i ks seen nonce key' r d' ks' :
    pods f !! i = Some ks → (∀ n, nonce = Some n → String.length n = nonceSize) → D ≤ retentionPeriod ks →
    (KIDFromPublicKey (public key') = KIDFromPublicKey (public key) → key' = key) →
    Import up seen nonce (fclock f) key' (sdb f) ks = (r, d', ks') →
    routine key D f (mkFleet d' (fclock f) (<[i := ks']> (pods f)) (key' :: imported f))
| r_revoke f up i ks kid r d' ks' :
    pods f !! i = Some ks → kid ≠ KIDFromPublicKey (public key) → Revoke up kid (fclock f) (sdb f) ks = (r, d', ks') →
    routine key D f (mkFleet d' (fclock f) (<[i := ks']> (pods f)) (imported f))
| r_refresh f up i ks r ks' :
    pods f !! i = Some ks → RefreshKeys up (fclock f) (sdb f) ks = (r, ks') →
    routine key D f (mkFleet (sdb f) (fclock f) (<[i := ks']> (pods f)) (imported f))
| r_stop f i ks : pods f !! i = Some ks → routine key D f (mkFleet (sdb f) (fclock f) (<[i := Stop ks]> (pods f)) (imported f))
| r_sweep f up : routine key D f (mkFleet (CleanupExpired up (fclock f) (sdb f)).2 (fclock f) (pods f) (imported f)).
Lemma routine_action key D f f' : routine key D f f' → action f f'.
Proof.
  destruct 1; [by apply a_time|by eapply a_start|by eapply a_import|by eapply a_revoke|by eapply a_refresh|by apply a_stop|by apply a_sweep].
Qed.
Lemma routine_clock key D f f' : routine key D f f' → fclock f ≤ fclock f'.
Proof. destruct 1; cbn; lia. Qed.

(** The row of [key]: it opens to it, and it is active or retired no earlier
    than [until]. *)
Definition held_row (key : signingKey) (until : Z) (r : KeyRow) : Prop :=
  public_key r = MarshalPKIXPublicKey (public key) ∧
  Decrypt (private_key r) master (KIDFromPublicKey (public key)) = Some (MarshalSigningKeyPEM key) ∧
  (kStatus r = Active ∧ kExpiresAt r = None ∨ kStatus r = Retired ∧ ∃ e, kExpiresAt r = Some e ∧ until ≤ e).
Definition held (key : signingKey) (until : Z) d : Prop :=
  ∃ r, signing_keys d !! KIDFromPublicKey (public key) = Some r ∧ held_row key until r.

Lemma held_retire key until seen now e d : held key until d → until ≤ e → held key until (retire seen now e d).
Proof.
  intros (r & Hr & Hp & Hd & Hs) He.
  eexists. split; [by rewrite retire_lookup, Hr|]. cbn. case_decide as Ha; [|by split_and!]. split_and!; [done|done|right]. by split; [|exists e].
Qed.
Lemma held_other key until kid r d : held key until d → kid ≠ KIDFromPublicKey (public key) → held key until (with_keys (<[kid := r]> (signing_keys d)) d).
Proof. intros (x & Hx & ?) Hne. exists x. cbn. by rewrite lookup_insert_ne. Qed.
Lemma held_tx key until {up} seen key' n enc now e d r d' : held key until d → until ≤ e → String.length n = nonceSize →
  Encrypt (MarshalSigningKeyPEM key') master (KIDFromPublicKey (public key')) (Some n) = Some enc →
  (KIDFromPublicKey (public key') = KIDFromPublicKey (public key) → key' = key) →
  import_tx up seen (KIDFromPublicKey (public key')) enc (MarshalPKIXPublicKey (public key')) now e d = (r, d') → held key until d'.
Proof.
  intros Hh He Hn Henc Hsame. unfold import_tx. destruct (negb _); [by intros [= <- <-]|]. destruct (import_signing_key _ _ _ _ _) as [[[]|] d1] eqn:E; intros [= _ <-]; try done.
  pose proof (held_retire _ _ seen now e _ Hh He) as Hr. revert E. unfold import_signing_key. destruct (negb _); [done|]. destruct (bool_decide _); [done|].
  assert (Hins : ∀ c, held key until (with_keys (<[KIDFromPublicKey (public key') := mkKeyRow enc (MarshalPKIXPublicKey (public key')) Active c None None]>
    (signing_keys (retire seen now e d))) (retire seen now e d))).
  { intros c. destruct (decide (KIDFromPublicKey (public key') = KIDFromPublicKey (public key))) as [Ek|Ek]; [|by apply held_other].
    pose proof (Hsame Ek) as ->. eexists. split; [cbn; by rewrite lookup_insert_eq|]. split_and!; cbn; [done| |by left].
    rewrite (Decrypt_Encrypt _ _ _ _ _ _ Hn Henc). by rewrite decide_True. }
  destruct (signing_keys (retire seen now e d) !! _); [|intros [= <-]; apply Hins]. case_decide; [done|]. cbv zeta.
  destruct (update_permitted _ _); [|done]. intros [= <-]. apply Hins.
Qed.
Lemma held_Import key until {up} seen nonce now key' d ks r d' ks' : held key until d →
  (masterKeyGone ks = false → ksMasterKey ks = master) →
  until ≤ now + retentionPeriod ks → (∀ n, nonce = Some n → String.length n = nonceSize) →
  (KIDFromPublicKey (public key') = KIDFromPublicKey (public key) → key' = key) →
  Import up seen nonce now key' d ks = (r, d', ks') → held key until d'.
Proof.
  intros Hh Hm' He Hn Hsame. unfold Import. cbv zeta. destruct (masterKeyGone ks) eqn:Eg; [by intros [= _ <- _]|].
  destruct (Encrypt _ _ _ nonce) as [enc|] eqn:Ee; [|by intros [= _ <- _]]. rewrite Hm' in Ee by done.
  destruct nonce as [n|]; [|unfold Encrypt in Ee; by destruct (negb _)].
  destruct (import_tx _ _ _ _ _ _ _ _) as [b d1] eqn:Et.
  assert (Hd1 : held key until d1) by (eapply held_tx; [exact Hh|exact He|by apply Hn|exact Ee|done|exact Et]).
  destruct b as [[]|]; [|by intros [= _ <- _]|by intros [= _ <- _]]. destruct (RefreshKeys up now d1 ks) as [[]]; by intros [= _ <- _].
Qed.
Lemma routine_held key D until f f' : trusted f → held key until (sdb f) → until ≤ fclock f + D → fclock f' < until →
  routine key D f f' → held key until (sdb f').
Proof.
  intros [Hg Hp] Hh Hu Hlt Ha. destruct Ha as [f t|f ks ret Hnew|f up i ks seen nonce key' b d' ks' Hi Hn HD Hsame HI|f up i ks kid b d' ks' Hi Hne HR|f up i ks b ks' Hi HR
    |f i ks Hi|f up]; cbn in *; try done.
  - eapply held_Import; [exact Hh|apply (Forall_lookup_1 _ _ _ _ Hp Hi)| | | |exact HI]; [lia|done|done].
  - revert HR. unfold Revoke, Revoke_row. destruct (negb _); [by intros [= _ <- _]|]. destruct (signing_keys (sdb f) !! kid); [|by intros [= _ <- _]]. case_decide; [by intros [= _ <- _]|].
    destruct (RefreshKeys _ _ _ _). intros [= _ <- _]. by apply held_other.
  - unfold CleanupExpired. destruct (negb _); [done|]. cbv zeta. destruct Hh as (r & Hr & Hp1 & Hd & Hs). exists r. split; [|by split_and!]. cbn. apply map_lookup_filter_Some. split; [done|]. cbn. unfold reapable.
    destruct Hs as [[-> _]|[-> (e & -> & He)]]; [done|]. apply Z.ltb_ge. lia.
Qed.


(** ** One active key *)
(** An import that saw every active row leaves its key the only active one. *)
Lemma import_leaves_one_active {up} seen kid enc pub now e d d' : actives d ⊆ seen →
  import_tx up seen kid enc pub now e d = (Ok true, d') → actives d' = {[kid]}.
Proof.
  intros Hseen. unfold import_tx. destruct (negb _); [by intros [= <- <-]|]. destruct (import_signing_key _ _ _ _ _) as [[[]|] d1] eqn:E; try done. intros [= <-].
  assert (Hret : ∀ k r, signing_keys (retire seen now e d) !! k = Some r → kStatus r ≠ Active).
  { intros k r. rewrite retire_lookup, fmap_Some. intros (x & Hx & ->). case_decide as Ha; [done|]. intros Hact. apply Ha. split; [done|].
    apply Hseen. unfold actives. apply elem_of_dom. exists x. by apply map_lookup_filter_Some. }
  assert (Hins : ∀ c, actives (with_keys (<[kid := mkKeyRow enc pub Active c None None]> (signing_keys (retire seen now e d))) (retire seen now e d)) = {[kid]}).
  { intros c. apply set_eq. intros k. rewrite elem_of_singleton. unfold actives. rewrite elem_of_dom. split.
    - intros [r [Hr Hs]%map_lookup_filter_Some]. cbn in Hr, Hs. apply lookup_insert_Some in Hr as [[-> _]|[_ Hr]]; [done|]. by destruct (Hret _ _ Hr).
    - intros ->. eexists. apply map_lookup_filter_Some. cbn. split; [apply lookup_insert_eq|done]. }
  revert E. unfold import_signing_key. destruct (negb _); [done|]. destruct (bool_decide _); [done|].
  destruct (signing_keys (retire _ _ _ _) !! kid); [|intros [= <-]; apply Hins]. case_decide; [done|]. cbv zeta.
  destruct (update_permitted _ _); [|done]. intros [= <-]. apply Hins.
Qed.
End fleet.

(** ** A fleet of one pod that rotates, revokes and races *)
Module KeyDemo.
#[local] Existing Instances ToyEscrow.aead ToyEscrow.aead_laws.
#[export] Instance prims : Primitives := {|
  sha256_hex := λ s, s; sha256_b64url := λ s, s; hmac_hex := λ m k, k +:+ m; argon2_verify := λ _ _ _, Ok true;
  argon2_hash := λ _ p _, p; SignToken := λ _ _, Ok "" |}.
#[export] Instance codec : KeyCodec := {|
  signingKey := string; verifyKey := string; public := λ k, k; MarshalSigningKeyPEM := λ k, k; LoadSigningKeyPEM := Some;
  MarshalPKIXPublicKey := λ p, p; ParsePKIXPublicKey := Some |}.
#[export] Instance codec_laws : KeyCodecLaws.
Proof. by split. Qed.

Definition master : string := ToyEscrow.key.
Definition k1 : signingKey := "1111111122222222".
Definition k2 : signingKey := "3333333344444444".
Definition kid1 : string := KIDFromPublicKey (public k1).
Definition kid2 : string := KIDFromPublicKey (public k2).
Definition nonce : option string := Some "nonce0123456".
Definition reached : Reach := mkReach true true true true.
Definition empty_db : SigningDB := mkSigningDB ∅ ∅.
Definition fleet0 : fleet := mkFleet empty_db 0 [] [].
Definition pod0 : KeyStore := mkKeyStore master false None "" ∅ 100 None.

(** The pod imports the first key, and twenty seconds extends_expiry rotates to the second. *)
Definition first := Import reached ∅ nonce 0 k1 empty_db pod0.
Definition second := Import reached {[kid1]} nonce 20 k2 first.1.2 first.2.
Definition fleet1 : fleet := mkFleet first.1.2 0 [first.2] [k1].
Definition fleet2 : fleet := mkFleet second.1.2 20 [second.2] [k2; k1].
Lemma nonce_size n : nonce = Some n → String.length n = nonceSize.
Proof. by intros [= <-]. Qed.
Lemma fleet1_reached : evolves master fleet0 fleet1.
Proof.
  eapply rtc_l; [eapply (a_start master fleet0 pod0 100); reflexivity|]. eapply rtc_l; [|apply rtc_refl].
  apply (a_import master (mkFleet empty_db 0 [pod0] []) reached 0 pod0 ∅ nonce k1 first.1.1 first.1.2 first.2); [done|apply nonce_size|reflexivity].
Qed.
Lemma rotation_is_routine : rtc (routine master k1 100) fleet1 fleet2.
Proof.
  eapply rtc_l; [apply (r_time master k1 100 fleet1 20); lia|]. eapply rtc_l; [|apply rtc_refl].
  apply (r_import master k1 100 (mkFleet first.1.2 20 [first.2] [k1]) reached 0 first.2 {[kid1]} nonce k2 second.1.1 second.1.2 second.2);
    [done|apply nonce_size|by vm_compute|by vm_compute|reflexivity].
Qed.
Lemma fleet1_trusted : trusted master fleet1.
Proof.
  assert (Ht0 : trusted master fleet0) by (split; [intros ? ? Hx; cbn in Hx; by apply lookup_empty_Some in Hx|constructor]).
  eapply (rtc_ind_l (λ f0, trusted master f0 → trusted master fleet1)); [done| |exact fleet1_reached|exact Ht0].
  intros x y Hxy _ IH Hx. apply IH. by eapply action_trusted.
Qed.

Lemma fleet_trusts_only_its_keys_witness :
  publicKeys second.2 !! kid1 = Some k1 ∧ activeKey second.2 = Some k2 ∧
  (∀ kid pub, publicKeys second.2 !! kid = Some pub → ∃ k, k ∈ [k2; k1] ∧ kid = KIDFromPublicKey (public k) ∧ pub = public k).
Proof.
  split; [by vm_compute|]. split; [by vm_compute|].
  destruct (fleet_trusts_only_its_keys master 0 fleet2 second.2) as [Hp _]; [|left|exact Hp].
  eapply (transitivity (R := rtc _)); [exact fleet1_reached|]. eapply rtc_l; [apply (a_time master fleet1 20); lia|]. eapply rtc_l; [|apply rtc_refl].
  apply (a_import master (mkFleet first.1.2 20 [first.2] [k1]) reached 0 first.2 {[kid1]} nonce k2 second.1.1 second.1.2 second.2); [done|apply nonce_size|reflexivity].
Defined.


(** The second key leaks and is revoked. *)
Definition revoked := Revoke reached kid2 20 second.1.2 second.2.
Definition fleet3 : fleet := mkFleet revoked.1.2 20 [revoked.2] [k2; k1].
Lemma kid2_dead : dead kid2 (signing_keys revoked.1.2 !! kid2) revoked.1.2.
Proof. split; [reflexivity|]. vm_compute. reflexivity. Qed.
Lemma revoked_key_never_returns_witness :
  is_ok revoked.1.1 = true ∧ is_ok (Import reached ∅ nonce 30 k2 revoked.1.2 revoked.2).1.1 = false ∧
  publicKeys (RefreshKeys reached 30 revoked.1.2 pod0).2 !! kid2 = None ∧ publicKeys (RefreshKeys reached 30 revoked.1.2 pod0).2 !! kid1 = Some k1.
Proof.
  split; [by vm_compute|].
  destruct (revoked_key_never_returns master reached fleet3 fleet3 kid2 (signing_keys revoked.1.2 !! kid2) pod0 30 (RefreshKeys reached 30 revoked.1.2 pod0).2 k2 ∅ nonce)
    as (_ & HR & HI); [exact kid2_dead|apply rtc_refl|].
  split; [|split; [apply HR; vm_compute; reflexivity|by vm_compute]].
  destruct (revoked_key_never_returns master reached fleet3 fleet3 kid2 (signing_keys revoked.1.2 !! kid2) revoked.2 30 pod0 k2 ∅ nonce)
    as (_ & _ & HI'); [exact kid2_dead|apply rtc_refl|]. by apply HI'.
Defined.

(** Two rotations whose retiring statements both ran before either committed:
    the second did not see the key of the first, two rows stay active, and the
    pod that refreshes afterwards signs with the older. *)
Definition raced := Import reached ∅ nonce 20 k2 first.1.2 first.2.
Example racing_imports_leave_two_active :
  actives raced.1.2 = {[kid1; kid2]} ∧ raced.1.1 = Ok kid2 ∧ activeKID raced.2 = kid1.
Proof. split; [|split]; vm_compute; reflexivity. Qed.
End KeyDemo.
