(* ===== verification/Argon2.v ===== *)
(** * Argon2: password hashes and the budget they run under

    Models internal/crypto/argon2.go: the PHC string ([HashPassword],
    [parseArgon2Hash], [VerifyPassword]), the pepper, the dummy hash and the
    semaphore that bounds concurrent hashing.  Argon2id and HMAC are parameters;
    [argon2_verify] and [argon2_hash] of [Primitives] stand for
    [verify_encoded] and [hash_with] here.

    The semaphore is a step relation over any number of callers, each at a point
    of [acquireArgon2] or [releaseArgon2], sharing the channel and the counters. *)
From S2P Require Import Prelude GoStd Json Bytes Base64 NetIP.
From stdpp Require Import list.
From Stdlib Require Import Ascii.
Open Scope string_scope.
Open Scope Z_scope.

Definition argon2Memory : Z := 46 * 1024.
Definition argon2Iterations : Z := 1.
Definition argon2Parallelism : Z := 1.
Definition argon2SaltLen : Z := 16.
Definition argon2KeyLen : Z := 32.
Definition argon2MaxConcurrent : Z := 4.
Definition argon2MaxQueueDepth : Z := 64.
Definition argon2MaxVerifyMemory : Z := 64 * 1024.

(** ** base64.RawStdEncoding *)
Definition std_enc (n : Z) : ascii :=
  if n <? 26 then chr (65 + n)
  else if n <? 52 then chr (97 + (n - 26))
  else if n <? 62 then chr (48 + (n - 52))
  else if n =? 62 then chr 43 else chr 47.
Definition std_dec (c : ascii) : option Z :=
  let n := code c in
  if (65 <=? n) && (n <=? 90) then Some (n - 65)
  else if (97 <=? n) && (n <=? 122) then Some (n - 71)
  else if (48 <=? n) && (n <=? 57) then Some (n + 4)
  else if n =? 43 then Some 62 else if n =? 47 then Some 63 else None.
Definition EncodeToString (s : string) : string := raw_encode std_enc s.
Definition StdDecode (s : string) : option string := lax_decode std_dec s.

(** ** The PHC string *)
Record argon2Params := mkParams { memory : Z; iterations : Z; parallelism : Z }.

Inductive argon2Err :=
| AErrFormat | AErrVariant | AErrParameters | AErrMalformed | AErrValue | AErrParallelRange
| AErrIterLow | AErrIterHigh | AErrParLow | AErrParHigh | AErrMemLow | AErrMemHigh
| AErrSalt | AErrSaltShort | AErrHash | AErrHashEmpty | AErrHashLength | ErrArgon2Overloaded.

#[export] Instance argon2Err_eq_dec : EqDecision argon2Err.
Proof. solve_decision. Defined.
#[export] Instance argon2Params_eq_dec : EqDecision argon2Params.
Proof. solve_decision. Defined.

(** [strconv.ParseUint(s, 10, 32)] *)
Definition ParseUint32 (s : string) : option Z :=
  match ParseUint s with
  | (n, None) => if 2 ^ 32 - 1 <? n then None else Some n
  | _ => None
  end.

(** One [k=v] of the parameter list. *)
Definition set_param (acc : res argon2Err argon2Params) (p : string) : res argon2Err argon2Params :=
  match acc with
  | Err e => Err e
  | Ok params =>
      match Cut 61 p with
      | None => Err AErrMalformed
      | Some (k, v) =>
          match ParseUint32 v with
          | None => Err AErrValue
          | Some val =>
              if decide (k = "m") then Ok (mkParams val (iterations params) (parallelism params))
              else if decide (k = "t") then Ok (mkParams (memory params) val (parallelism params))
              else if decide (k = "p") then
                if 255 <? val then Err AErrParallelRange
                else Ok (mkParams (memory params) (iterations params) val)
              else Ok params
          end
      end
  end.

(** The bounds on what a stored hash may ask for. *)
Definition check_params (p : argon2Params) : option argon2Err :=
  if iterations p <? 1 then Some AErrIterLow
  else if 10 <? iterations p then Some AErrIterHigh
  else if parallelism p <? 1 then Some AErrParLow
  else if 4 <? parallelism p then Some AErrParHigh
  else if memory p <? 8 * parallelism p then Some AErrMemLow
  else if argon2MaxVerifyMemory <? memory p then Some AErrMemHigh
  else None.

Definition parseArgon2Hash (encoded : string) : res argon2Err (string * string * argon2Params) :=
  match Split 36 encoded with
  | [_; variant; _; plist; saltB64; hashB64] =>
      if negb (bool_decide (variant = "argon2id")) then Err AErrVariant
      else
        let paramParts := Split 44 plist in
        if negb (length paramParts =? 3)%nat then Err AErrParameters
        else match fold_left set_param paramParts (Ok (mkParams 0 0 0)) with
             | Err e => Err e
             | Ok params =>
                 match check_params params with
                 | Some e => Err e
                 | None =>
                     match StdDecode saltB64 with
                     | None => Err AErrSalt
                     | Some salt =>
                         if Z.of_nat (String.length salt) <? argon2SaltLen then Err AErrSaltShort
                         else match StdDecode hashB64 with
                              | None => Err AErrHash
                              | Some hash =>
                                  if (String.length hash =? 0)%nat then Err AErrHashEmpty
                                  else Ok (salt, hash, params)
                              end
                     end
                 end
             end
  | _ => Err AErrFormat
  end.

(** What the standard library and golang.org/x/crypto supply. *)
Class PasswordPrims := {
  IDKey : string → string → Z → Z → Z → Z → string;
    (** password, salt, iterations, memory, parallelism, length *)
  hmac_sha256 : string → string → string;  (** key, message *)
}.

Section passwords.
Context `{PasswordPrims}.

Definition applyPepper (password pepper : string) : string :=
  if decide (pepper = "") then password else hmac_sha256 pepper password.

(** [Sprintf("$argon2id$v=%d$m=%d,t=%d,p=%d$%s$%s", ...)] *)
Definition phc (m t p : Z) (salt hash : string) : string :=
  "$argon2id$v=" +:+ FormatInt 19 +:+ "$m=" +:+ FormatInt m +:+ ",t=" +:+ FormatInt t +:+ ",p=" +:+ FormatInt p +:+
  "$" +:+ EncodeToString salt +:+ "$" +:+ EncodeToString hash.

(** The hash under a drawn salt, once a slot is held. *)
Definition hash_with (salt password pepper : string) : string :=
  phc argon2Memory argon2Iterations argon2Parallelism salt
    (IDKey (applyPepper password pepper) salt argon2Iterations argon2Memory argon2Parallelism argon2KeyLen).
Definition HashPassword (acquired : bool) (salt password pepper : string) : res argon2Err string :=
  if acquired then Ok (hash_with salt password pepper) else Err ErrArgon2Overloaded.

(** Parse, derive at the stored parameters and compare. *)
Definition verify_encoded (password encoded pepper : string) : res argon2Err bool :=
  let pw := applyPepper password pepper in
  match parseArgon2Hash encoded with
  | Err e => Err e
  | Ok (salt, hash, params) =>
      if 64 <? Z.of_nat (String.length hash) then Err AErrHashLength
      else
        let candidate := IDKey pw salt (iterations params) (memory params) (parallelism params)
                           (Z.of_nat (String.length hash)) in
        Ok (bool_decide (candidate = hash))
  end.

(** The rotating dummy hash: the sentinel callers pass and the one in use. *)
Record dummies := mkDummies { DummyHash : string; rotatingDummyHash : string }.
Definition VerifyPassword (d : dummies) (acquired : bool) (password encoded pepper : string) : res argon2Err bool :=
  let encoded := if decide (encoded = DummyHash d) then rotatingDummyHash d else encoded in
  if acquired then verify_encoded password encoded pepper else Err ErrArgon2Overloaded.

Definition dummyHashPassword : string := "vault-anti-enumeration-dummy".
(** A tick of the rotation: a failed hash keeps the old one. *)
Definition regenerateDummyHash (acquired : bool) (salt : string) (d : dummies) : dummies :=
  match HashPassword acquired salt dummyHashPassword "" with
  | Ok h => mkDummies (DummyHash d) h
  | Err _ => d
  end.
End passwords.

(** ** The semaphore *)
(** Where a caller is: not yet counted, counted and waiting, holding a slot it
    has not announced, hashing, or about to give its slot back. *)
Inductive pc := Deciding | Queued | Granted | Hashing (mem : Z) | Leaving | Done.

#[export] Instance pc_eq_dec : EqDecision pc.
Proof. solve_decision. Defined.

Record sem := mkSem {
  slots : Z;     (** length of the channel [argon2Sem] *)
  waiting : Z;   (** [argon2Waiting] *)
  active : Z;    (** [argon2Active] *)
  rejected : Z;  (** [argon2Rejected] *)
  callers : list pc;
}.
Definition sem0 : sem := mkSem 0 0 0 0 [].

(** A caller whose hash needs [mem] KiB, at an admissible request: the issuing
    parameters or what [parseArgon2Hash] let through. *)
Definition admissible (mem : Z) : Prop := 0 ≤ mem ≤ argon2MaxVerifyMemory.

Inductive sem_step : sem → sem → Prop :=
| s_arrive s :
    sem_step s (mkSem (slots s) (waiting s) (active s) (rejected s) (callers s ++ [Deciding]))
| s_shed s i :  (** the queue is past its depth *)
    callers s !! i = Some Deciding → argon2MaxQueueDepth ≤ waiting s →
    sem_step s (mkSem (slots s) (waiting s) (active s) (rejected s + 1) (<[i := Done]> (callers s)))
| s_queue s i d :  (** decided at a depth [d] read earlier, then counted *)
    callers s !! i = Some Deciding → d < argon2MaxQueueDepth →
    sem_step s (mkSem (slots s) (waiting s + 1) (active s) (rejected s) (<[i := Queued]> (callers s)))
| s_acquire s i :  (** the channel had room *)
    callers s !! i = Some Queued → slots s < argon2MaxConcurrent →
    sem_step s (mkSem (slots s + 1) (waiting s) (active s) (rejected s) (<[i := Granted]> (callers s)))
| s_timeout s i :
    callers s !! i = Some Queued →
    sem_step s (mkSem (slots s) (waiting s - 1) (active s) (rejected s + 1) (<[i := Done]> (callers s)))
| s_announce s i mem :  (** [argon2Active.Add(1)], the deferred [Waiting.Add(-1)], then the work *)
    callers s !! i = Some Granted → admissible mem →
    sem_step s (mkSem (slots s) (waiting s - 1) (active s + 1) (rejected s) (<[i := Hashing mem]> (callers s)))
| s_finish s i mem :  (** [releaseArgon2], its first half *)
    callers s !! i = Some (Hashing mem) →
    sem_step s (mkSem (slots s) (waiting s) (active s - 1) (rejected s) (<[i := Leaving]> (callers s)))
| s_release s i :
    callers s !! i = Some Leaving →
    sem_step s (mkSem (slots s - 1) (waiting s) (active s) (rejected s) (<[i := Done]> (callers s))).

(** A weight summed over callers. *)
Fixpoint weigh (w : pc → Z) (l : list pc) : Z :=
  match l with [] => 0 | p :: l' => w p + weigh w l' end.
Definition mem_of (p : pc) : Z := match p with Hashing m => m | _ => 0 end.
(** The memory the running hashes hold, in KiB. *)
Definition held_memory (s : sem) : Z := weigh mem_of (callers s).

(** * Facts: round trip, bounds and the memory budget *)

(** ** Splitting *)
Definition lacks (sep : Z) : string → bool := all_chars (λ c, negb (code c =? sep)).

Lemma Split_lacks sep a : lacks sep a = true → Split sep a = [a].
Proof.
  induction a as [|c a IH]; [done|]. cbn. intros [Hc Ha]%andb_true_iff. apply negb_true_iff in Hc.
  by rewrite Hc, IH.
Qed.
Lemma Split_app sep a b :
  0 ≤ sep < 256 → lacks sep a = true → Split sep (a +:+ String (chr sep) b) = a :: Split sep b.
Proof.
  intros Hs. induction a as [|c a IH].
  - intros _. rewrite string_app_nil_l. cbn. by rewrite code_chr, Z.eqb_refl.
  - cbn [lacks all_chars]. intros [Hc Ha]%andb_true_iff. apply negb_true_iff in Hc.
    rewrite string_app_cons. cbn [Split]. by rewrite Hc, IH.
Qed.

(** ** The alphabet *)
Definition std_char (c : ascii) : bool :=
  let n := code c in
  ((65 <=? n) && (n <=? 90)) || ((97 <=? n) && (n <=? 122)) || ((48 <=? n) && (n <=? 57)) ||
  (n =? 43) || (n =? 47).

Lemma std_tables n : 0 ≤ n < 64 → std_dec (std_enc n) = Some n ∧ std_char (std_enc n) = true.
Proof.
  intros Hn. assert (Hin : n ∈ seqZ 0 64) by (apply elem_of_seqZ; lia).
  assert (Hall : Forall (λ z, std_dec (std_enc z) = Some z ∧ std_char (std_enc z) = true) (seqZ 0 64))
    by (apply Forall_forall; intros z Hz; apply elem_of_seqZ in Hz;
        unfold std_enc; repeat case_match; bool_hyps; unfold std_dec, std_char; rewrite code_chr by lia;
        repeat match goal with |- context[(?a <=? ?b)%Z] => destruct (Z.leb_spec a b); try lia
          | |- context[(?a =? ?b)%Z] => destruct (Z.eqb_spec a b); try lia end; split; try done; cbn; f_equal; lia).
  by apply (proj1 (Forall_forall _ _) Hall).
Qed.
Lemma std_break c : std_char c = true → (code c =? 10) || (code c =? 13) = false.
Proof. destruct c as [[] [] [] [] [] [] [] []]; by vm_compute. Qed.
Lemma StdDecode_Encode s : StdDecode (EncodeToString s) = Some s.
Proof. apply (lax_decode_encode std_enc std_dec std_char); [apply std_tables|apply std_break]. Qed.
Lemma encoded_lacks s : lacks 36 (EncodeToString s) = true.
Proof.
  assert (Hc : all_chars std_char (EncodeToString s) = true)
    by (apply (raw_decode_encode std_enc std_dec std_char std_tables true)).
  unfold lacks. induction (EncodeToString s) as [|c r IH]; [done|]. cbn in Hc |- *.
  apply andb_true_iff in Hc as [Hc Hr]. rewrite IH, andb_true_r by done.
  destruct (Z.eqb_spec (code c) 36) as [E|]; [|done]. unfold std_char in Hc. by rewrite E in Hc.
Qed.

(** ** Bounds *)
(** What a stored hash can ask of the server is bounded: whatever text is
    stored, a hash that parses names argon2id, one to ten iterations, one to
    four lanes, at least eight KiB a lane and at most 64 MiB, a salt of sixteen
    bytes or more and a non-empty digest; and parsing always answers. *)
Theorem parsed_hash_is_bounded encoded salt hash p :
  parseArgon2Hash encoded = Ok (salt, hash, p) →
  1 ≤ iterations p ≤ 10 ∧ 1 ≤ parallelism p ≤ 4 ∧ 8 * parallelism p ≤ memory p ≤ argon2MaxVerifyMemory ∧
  argon2SaltLen ≤ Z.of_nat (String.length salt) ∧ (0 < String.length hash)%nat ∧
  ∃ a v plist sb hb, Split 36 encoded = [a; "argon2id"; v; plist; sb; hb] ∧
    StdDecode sb = Some salt ∧ StdDecode hb = Some hash.
Proof.
  unfold parseArgon2Hash. destruct (Split 36 encoded) as [|a [|v1 [|v [|pl [|sb [|hb [|]]]]]]]; try done.
  case_bool_decide as Hv; [|done]. cbn [negb]. destruct (negb _); [done|].
  destruct (fold_left _ _ _) as [q|]; [|done]. destruct (check_params q) eqn:Ec; [done|].
  destruct (StdDecode sb) as [s|] eqn:Es; [|done]. destruct (Z.ltb_spec (Z.of_nat (String.length s)) argon2SaltLen); [done|].
  destruct (StdDecode hb) as [h|] eqn:Eh; [|done]. destruct (Nat.eqb_spec (String.length h) 0); [done|].
  intros [= <- <- <-]. unfold check_params in Ec. repeat case_match; try done. bool_hyps.
  split_and!; try lia. subst v1. by exists a, v, pl, sb, hb.
Qed.

(** ** Round trip *)
Section roundtrip.
Context `{PasswordPrims}.

Lemma parse_issued salt hash :
  argon2SaltLen ≤ Z.of_nat (String.length salt) → (0 < String.length hash)%nat →
  parseArgon2Hash (phc argon2Memory argon2Iterations argon2Parallelism salt hash)
  = Ok (salt, hash, mkParams argon2Memory argon2Iterations argon2Parallelism).
Proof.
  intros Hs Hh. unfold parseArgon2Hash.
  assert (Hp : Split 36 (phc argon2Memory argon2Iterations argon2Parallelism salt hash)
    = [""; "argon2id"; "v=19"; "m=47104,t=1,p=1"; EncodeToString salt; EncodeToString hash]).
  { transitivity (Split 36 ("" +:+ String (chr 36) ("argon2id" +:+ String (chr 36) ("v=19" +:+ String (chr 36)
      ("m=47104,t=1,p=1" +:+ String (chr 36) (EncodeToString salt +:+ String (chr 36) (EncodeToString hash))))))); [done|].
    rewrite !Split_app by (done || apply encoded_lacks). by rewrite Split_lacks by apply encoded_lacks. }
  rewrite Hp. cbn -[EncodeToString StdDecode Split]. rewrite !StdDecode_Encode.
  destruct (Z.ltb_spec (Z.of_nat (String.length salt)) argon2SaltLen); [lia|].
  destruct (Nat.eqb_spec (String.length hash) 0); [lia|]. done.
Qed.

(** A hash verifies the password it was made from: the string HashPassword
    issues parses back to its own parameters, and verification of it, dummy
    substitution aside, answers exactly whether the candidate derives the same
    key, so the right password with the right pepper is always accepted. *)
Theorem issued_hash_verifies d salt pw pepper pw' pepper' :
  (∀ a b t m p n, 0 ≤ n → Z.of_nat (String.length (IDKey a b t m p n)) = n) →
  argon2SaltLen ≤ Z.of_nat (String.length salt) → hash_with salt pw pepper ≠ DummyHash d →
  VerifyPassword d true pw' (hash_with salt pw pepper) pepper' =
    Ok (bool_decide (IDKey (applyPepper pw' pepper') salt argon2Iterations argon2Memory argon2Parallelism argon2KeyLen
                   = IDKey (applyPepper pw pepper) salt argon2Iterations argon2Memory argon2Parallelism argon2KeyLen)) ∧
  VerifyPassword d true pw (hash_with salt pw pepper) pepper = Ok true.
Proof.
  intros Hlen Hsalt Hd. unfold VerifyPassword. rewrite decide_False by done.
  set (h := IDKey (applyPepper pw pepper) salt argon2Iterations argon2Memory argon2Parallelism argon2KeyLen).
  assert (Hl : Z.of_nat (String.length h) = argon2KeyLen) by (by apply Hlen).
  assert (Hv : ∀ q pp, verify_encoded q (hash_with salt pw pepper) pp =
    Ok (bool_decide (IDKey (applyPepper q pp) salt argon2Iterations argon2Memory argon2Parallelism argon2KeyLen = h))).
  { intros q pp. unfold verify_encoded, hash_with. fold h.
    rewrite parse_issued by (done || unfold argon2KeyLen in Hl; lia). rewrite Hl. done. }
  split; [apply Hv|]. rewrite Hv. by rewrite bool_decide_true.
Qed.
End roundtrip.

(** ** The budget *)
Section budget.

Lemma weigh_app w (l l' : list pc) : weigh w (l ++ l')%list = weigh w l + weigh w l'.
Proof. induction l as [|p l IH]; cbn; [lia|]. rewrite IH. lia. Qed.
Lemma weigh_insert w l i p q : l !! i = Some p → weigh w (<[i := q]> l) = weigh w l - w p + w q.
Proof.
  revert i. induction l as [|x l IH]; intros [|i] Hi; try done.
  - cbn in Hi. simplify_eq. cbn. lia.
  - change (weigh w (x :: <[i := q]> l) = weigh w (x :: l) - w p + w q). cbn [weigh]. rewrite (IH i Hi). lia.
Qed.
Lemma weigh_mono w w' l : Forall (λ p, w p ≤ w' p) l → weigh w l ≤ weigh w' l.
Proof. induction 1; cbn; lia. Qed.
Lemma weigh_scale c w l : weigh (λ p, c * w p) l = c * weigh w l.
Proof. induction l as [|p l IH]; cbn; [lia|]. rewrite IH. lia. Qed.

Definition is_slot (p : pc) : Z := match p with Granted | Hashing _ | Leaving => 1 | _ => 0 end.
Definition is_waiting (p : pc) : Z := match p with Queued | Granted => 1 | _ => 0 end.
Definition is_active (p : pc) : Z := match p with Hashing _ => 1 | _ => 0 end.
Definition fits (p : pc) : Prop := match p with Hashing m => admissible m | _ => True end.

(** The counters count what they are meant to. *)
Definition accounted (s : sem) : Prop :=
  slots s = weigh is_slot (callers s) ∧ waiting s = weigh is_waiting (callers s) ∧
  active s = weigh is_active (callers s) ∧ slots s ≤ argon2MaxConcurrent ∧ Forall fits (callers s).

Lemma fits_insert l i p : Forall fits l → fits p → Forall fits (<[i := p]> l).
Proof. intros Hl Hp. by apply Forall_insert. Qed.

Lemma accounted_step s s' : accounted s → sem_step s s' → accounted s'.
Proof.
  intros (Hs & Hw & Ha & Hle & Hf) Hstep. unfold accounted.
  destruct Hstep; cbn [slots waiting active callers];
    rewrite ?weigh_app, ?(weigh_insert _ _ _ _ _ H); cbn [is_slot is_waiting is_active weigh];
    (split_and!; try lia; try (apply fits_insert; done)).
  apply Forall_app. split; [done|]. by repeat constructor.
Qed.

Lemma accounted_reachable s : star sem_step sem0 s → accounted s.
Proof.
  intros Hst. apply (star_invariant _ accounted _ _ accounted_step Hst).
  split_and!; try done; by constructor.
Qed.

Lemma weigh_nonneg w l : (∀ p, 0 ≤ w p) → 0 ≤ weigh w l.
Proof. intros Hw. induction l as [|p l IH]; cbn; [lia|]. specialize (Hw p). lia. Qed.
Lemma weigh_done w l : w Done = 0 → Forall (λ p, p = Done) l → weigh w l = 0.
Proof. intros Hw. induction 1 as [|p l -> _ IH]; cbn; [lia|]. lia. Qed.

(** Hashing stays inside its memory budget: under every interleaving of
    arrivals, sheds, queueing, grants, timeouts and releases, at most four
    callers hold a slot, the active count never exceeds the slots, and the
    hashes running hold at most 4 times 64 MiB together; no slot or waiter is
    lost, so once every caller has left all the counters are back at zero. *)
Theorem argon2_memory_budget s :
  star sem_step sem0 s →
  slots s ≤ argon2MaxConcurrent ∧ 0 ≤ active s ≤ slots s ∧ 0 ≤ waiting s ∧
  held_memory s ≤ argon2MaxConcurrent * argon2MaxVerifyMemory ∧
  (Forall (λ p, p = Done) (callers s) → slots s = 0 ∧ waiting s = 0 ∧ active s = 0).
Proof.
  intros Hst. destruct (accounted_reachable s Hst) as (Hs & Hw & Ha & Hle & Hf).
  assert (Has : weigh is_active (callers s) ≤ weigh is_slot (callers s))
    by (apply weigh_mono, Forall_true; intros []; cbn; lia).
  assert (Hm : held_memory s ≤ argon2MaxVerifyMemory * active s).
  { rewrite Ha, <- weigh_scale. unfold held_memory. apply (weigh_mono mem_of (λ p, argon2MaxVerifyMemory * is_active p)).
    eapply Forall_impl; [exact Hf|]. intros [] Hp; cbn in *; unfold admissible in *; lia. }
  split_and!; [done| |lia| | |].
  - rewrite Ha. apply weigh_nonneg. intros []; cbn; lia.
  - rewrite Hw. apply weigh_nonneg. intros []; cbn; lia.
  - unfold argon2MaxVerifyMemory, argon2MaxConcurrent in *. lia.
  - intros Hd. rewrite Hs, Hw, Ha. split_and!; by apply weigh_done.
Qed.
End budget.

(** ** Concrete runs *)
Module ArgonDemo.
#[export] Instance prims : PasswordPrims := {|
  IDKey pw salt t m p n := take_str (Z.to_nat n) (pw +:+ String.concat "" (repeat "0" (Z.to_nat n)));
  hmac_sha256 k m := k +:+ ":" +:+ m
|}.
Definition salt : string := "0123456789abcdef".
Definition stored : string := hash_with salt "secret" "pep".
Definition d : dummies := mkDummies "$dummy" "$rotated".
End ArgonDemo.
#[local] Existing Instance ArgonDemo.prims.

Lemma take_pad_length a n : String.length (take_str n (a +:+ String.concat "" (repeat "0" n))) = n.
Proof.
  assert (Hpad : ∀ k, String.concat "" (repeat "0" (S k)) = String "0" (String.concat "" (repeat "0" k))).
  { intros [|k]; done. }
  assert (Hz : ∀ k, String.length (take_str k (String.concat "" (repeat "0" k))) = k).
  { induction k as [|k IH]; [done|]. rewrite Hpad. cbn. by rewrite IH. }
  assert (Hlen : ∀ k, String.length (String.concat "" (repeat "0" k)) = k).
  { induction k as [|k IH]; [done|]. rewrite Hpad. cbn. by rewrite IH. }
  assert (Htake : ∀ k s, (k ≤ String.length s)%nat → String.length (take_str k s) = k).
  { induction k as [|k IH]; intros [|c s] Hl; cbn in *; try done; try lia. f_equal. apply IH. lia. }
  apply Htake. rewrite string_app_length, Hlen. lia.
Qed.

Lemma issued_hash_verifies_witness :
  VerifyPassword ArgonDemo.d true "secret" ArgonDemo.stored "pep" = Ok true.
Proof.
  apply (issued_hash_verifies ArgonDemo.d ArgonDemo.salt "secret" "pep" "other" "pep").
  - intros a b t m p n Hn. cbn. rewrite take_pad_length. lia.
  - by vm_compute.
  - by vm_compute.
Defined.

Lemma parsed_hash_is_bounded_witness :
  ∃ salt hash p, parseArgon2Hash ArgonDemo.stored = Ok (salt, hash, p) ∧ memory p ≤ argon2MaxVerifyMemory.
Proof.
  destruct (parseArgon2Hash ArgonDemo.stored) as [[[salt hash] p]|] eqn:E; [|by vm_compute in E].
  exists salt, hash, p. split; [done|].
  destruct (parsed_hash_is_bounded _ _ _ _ E) as (_ & _ & [_ Hm] & _). exact Hm.
Defined.

(** Extreme, malformed and foreign hashes. *)
Example refused_hashes :
  parseArgon2Hash "$argon2id$v=19$m=131072,t=1,p=1$c2FsdHNhbHRzYWx0c2FsdA$AAAA" = Err AErrMemHigh ∧
  parseArgon2Hash "$argon2id$v=19$m=47104,t=11,p=1$c2FsdHNhbHRzYWx0c2FsdA$AAAA" = Err AErrIterHigh ∧
  parseArgon2Hash "$argon2id$v=19$m=47104,t=1,p=0$c2FsdHNhbHRzYWx0c2FsdA$AAAA" = Err AErrParLow ∧
  parseArgon2Hash "$argon2id$v=19$m=4294967296,t=1,p=1$c2FsdHNhbHRzYWx0c2FsdA$AAAA" = Err AErrValue ∧
  parseArgon2Hash "$argon2i$v=19$m=47104,t=1,p=1$c2FsdHNhbHRzYWx0c2FsdA$AAAA" = Err AErrVariant ∧
  parseArgon2Hash "$argon2id$v=19$m=47104,t=1,p=1$AAAA$AAAA" = Err AErrSaltShort ∧
  parseArgon2Hash "$2a$10$x" = Err AErrFormat ∧
  (parseArgon2Hash "$argon2id$v=16$m=47104,t=1,p=1$c2FsdHNhbHRzYWx0c2FsdA$AAAA" =
   parseArgon2Hash "$argon2id$v=19$m=47104,t=1,p=1$c2FsdHNhbHRzYWx0c2FsdA$AAAA").
Proof. by vm_compute. Qed.

Lemma argon2_memory_budget_witness :
  let s := mkSem 1 0 1 0 [Hashing 65536] in held_memory s ≤ argon2MaxConcurrent * argon2MaxVerifyMemory.
Proof.
  intros s. refine (proj1 (proj2 (proj2 (proj2 (argon2_memory_budget s _))))).
  eapply star_step; [apply s_arrive|]. cbn.
  eapply star_step; [apply (s_queue _ 0 0); done|]. cbn.
  eapply star_step; [apply (s_acquire _ 0); done|]. cbn.
  eapply star_step; [apply (s_announce _ 0 65536); done|]. apply star_refl.
Defined.
