(* ===== verification/ClientIP.v ===== *)
(** * ClientIP: which address a request is attributed to

    Models the address half of internal/middleware/ratelimit.go: the trusted
    proxies, [ClientIP] and the helpers it calls, [TLSFingerprint] and the key
    functions.  Rate limits, lockouts and the audit log all key on its answer,
    so the theorem is that a client cannot choose it. *)
From S2P Require Import Prelude GoStd Json Bytes NetIP.
From stdpp Require Import list.
From Stdlib Require Import Ascii.
Open Scope string_scope.
Open Scope Z_scope.

(** A request: the peer and its header lines by canonical name. *)
Record Request := mkRequest { RemoteAddr : string; Header : gmap string (list string) }.

(** [textproto.CanonicalMIMEHeaderKey] of a name of token characters. *)
Fixpoint canonical_from (up : bool) (s : string) : string :=
  match s with
  | "" => ""
  | String c r => String (if up then upper_ascii c else lower_ascii c) (canonical_from (code c =? 45) r)
  end.
Definition Values (h : string) (r : Request) : list string := default [] (Header r !! canonical_from true h).
Definition HeaderGet (h : string) (r : Request) : string := default "" (head (Values h r)).

(** ** Configuration *)
Record proxies := mkProxies {
  trustedProxyCIDRs : list IPNet;
  realIPHeader : string;
  tlsFingerprintHeader : string;
}.

(** A bare address is a network of its own; an entry that does not parse is
    skipped. *)
Definition trusted_entry (p : string) : option IPNet :=
  ParseCIDR (if contains 47 p then p else if contains 58 p then p +:+ "/128" else p +:+ "/32").
Definition SetTrustedProxies (ps : list string) (c : proxies) : proxies :=
  mkProxies (omap trusted_entry ps) (realIPHeader c) (tlsFingerprintHeader c).
Definition SetRealIPHeader (h : string) (c : proxies) : proxies :=
  mkProxies (trustedProxyCIDRs c) h (tlsFingerprintHeader c).
Definition SetTLSFingerprintHeader (h : string) (c : proxies) : proxies :=
  mkProxies (trustedProxyCIDRs c) (realIPHeader c) h.

(** ** Addresses *)
Definition stripPort (addr : string) : string :=
  match SplitHostPort addr with Some (host, _) => host | None => addr end.

Definition isTrustedProxy (c : proxies) (ipStr : string) : bool :=
  match ParseIP ipStr with
  | None => false
  | Some ip => existsb (λ n, Contains n ip) (trustedProxyCIDRs c)
  end.

Definition TrimPrefix_bracket (s : string) : string :=
  match s with String c r => if code c =? 91 then r else s | "" => "" end.
Definition TrimSuffix_bracket (s : string) : string :=
  match str_rev s with String c r => if code c =? 93 then str_rev r else s | "" => s end.

Definition normalizeIP (v : string) : string :=
  let v := TrimSpace v in
  if decide (v = "") then ""
  else
    let v := match SplitHostPort v with Some (host, _) => TrimSpace host | None => v end in
    match ParseIP (TrimSuffix_bracket (TrimPrefix_bracket v)) with
    | None => ""
    | Some ip => ip_string ip
    end.

Definition maxXFFHops : nat := 32.

(** The last [maxXFFHops] elements. *)
Definition capped (parts : list string) : list string := drop (length parts - maxXFFHops) parts.

(** The rightmost element that is not blank, validated. *)
Fixpoint first_nonblank (l : list string) : string :=
  match l with
  | [] => ""
  | p :: l' => if decide (TrimSpace p = "") then first_nonblank l' else normalizeIP p
  end.
Definition lastRealIP (value : string) : string := first_nonblank (reverse (capped (Split 44 value))).

(** The walk from the right: the first address that is not a trusted proxy. *)
Fixpoint first_untrusted (c : proxies) (l : list string) : option string :=
  match l with
  | [] => None
  | p :: l' =>
      let ip := normalizeIP p in
      if decide (ip = "") then first_untrusted c l'
      else if isTrustedProxy c ip then first_untrusted c l' else Some ip
  end.

(** What the forwarding chain says, the peer being a trusted proxy. *)
Definition forwarded (c : proxies) (remoteIP xff : string) : string :=
  if decide (xff = "") then remoteIP
  else
    let all := Split 44 xff in
    let parts := capped all in
    match first_untrusted c (reverse parts) with
    | Some ip => ip
    | None =>
        if (maxXFFHops <? length all)%nat then remoteIP
        else let first := normalizeIP (default "" (head parts)) in
             if decide (first = "") then remoteIP else first
    end.

Definition ClientIP (c : proxies) (r : Request) : string :=
  let remoteIP := stripPort (RemoteAddr r) in
  if (length (trustedProxyCIDRs c) =? 0)%nat then remoteIP
  else if negb (isTrustedProxy c remoteIP) then remoteIP
  else
    let real := if decide (realIPHeader c = "") then ""
                else match last (Values (realIPHeader c) r) with
                     | Some v => lastRealIP v
                     | None => ""
                     end in
    if decide (real = "") then forwarded c remoteIP (JoinStrings "," (Values "X-Forwarded-For" r)) else real.

Definition TLSFingerprint (c : proxies) (r : Request) : string :=
  if decide (tlsFingerprintHeader c = "") then ""
  else if negb (isTrustedProxy c (stripPort (RemoteAddr r))) then ""
  else TrimSpace (HeaderGet (tlsFingerprintHeader c) r).

(** ** Keys *)
Definition LoginRateLimitKey (c : proxies) (r : Request) : string := "login:" +:+ ClientIP c r.
Definition IPRateLimitKey (c : proxies) (r : Request) : string := "ip:" +:+ ClientIP c r.
(** The subject of the validated claims in the context, if any. *)
Definition GeneralRateLimitKey (c : proxies) (claims : option string) (r : Request) : string :=
  match claims with Some sub => "user:" +:+ sub | None => "anon:" +:+ ClientIP c r end.
(** The weight of a request, from the flags of its address. *)
Definition IPIntelWeight (lookup : string → bool * bool) (heavy : Z) (c : proxies) (r : Request) : Z :=
  let '(anonymous, hosting) := lookup (ClientIP c r) in
  if anonymous || hosting then heavy else 1.

(** ** A client cannot choose its address *)
Lemma first_untrusted_skip c l ip rest :
  Forall (λ p, normalizeIP p = "" ∨ isTrustedProxy c (normalizeIP p) = true) l →
  normalizeIP ip ≠ "" → isTrustedProxy c (normalizeIP ip) = false →
  first_untrusted c (l ++ ip :: rest)%list = Some (normalizeIP ip).
Proof.
  intros Hl Hne Hu. induction Hl as [|p l Hp _ IH]; cbn.
  - by rewrite decide_False, Hu by done.
  - case_decide; [done|]. destruct Hp as [?| ->]; [done|]. done.
Qed.

Lemma first_nonblank_skip l p rest :
  Forall (λ q, TrimSpace q = "") l → TrimSpace p ≠ "" → first_nonblank (l ++ p :: rest)%list = normalizeIP p.
Proof.
  intros Hl Hp. induction Hl as [|q l Hq _ IH]; cbn; [by rewrite decide_False|by rewrite decide_True].
Qed.

Lemma capped_suffix a x l : (length l < maxXFFHops)%nat →
  ∃ a', capped (a ++ x :: l)%list = (a' ++ x :: l)%list.
Proof.
  intros Hl. unfold capped. rewrite length_app. cbn [length].
  exists (drop (length a + S (length l) - maxXFFHops) a). rewrite drop_app_le by lia. done.
Qed.

Lemma normalize_nonblank p : normalizeIP p ≠ "" → TrimSpace p ≠ "".
Proof. unfold normalizeIP. intros Hn E. apply Hn. by rewrite decide_True. Qed.

(** Where an answer comes from: the connection itself, or a header value that
    parses as an address, in canonical form. *)
Lemma forwarded_cases c rem xff :
  forwarded c rem xff = rem ∨ ∃ v, forwarded c rem xff = normalizeIP v ∧ normalizeIP v ≠ "".
Proof.
  unfold forwarded. case_decide; [by left|].
  destruct (first_untrusted _ _) as [ip|] eqn:E.
  - right. clear H. induction (reverse _) as [|p l IH]; [done|]. cbn in E.
    case_decide; [by apply IH|]. destruct (isTrustedProxy _ _); [by apply IH|]. simplify_eq. eauto.
  - case_match; [by left|]. cbn zeta. case_decide; [by left|]. right. eauto.
Qed.

Lemma lastRealIP_cases v : lastRealIP v = "" ∨ ∃ p, lastRealIP v = normalizeIP p.
Proof.
  unfold lastRealIP. induction (reverse _) as [|p l IH]; cbn; [by left|]. case_decide; [done|]. eauto.
Qed.


(** Behind one proxy, with a forged prefix on the same line and another on a
    line of its own; then the same headers sent directly. *)
Example forged_prefix_ignored :
  let c := SetTrustedProxies ["10.0.0.0/8"] (mkProxies [] "" "") in
  let h := {["X-Forwarded-For" := ["6.6.6.6"; "7.7.7.7, 203.0.113.9 , 10.1.1.1"]]} in
  ClientIP c (mkRequest "10.0.0.1:5555" h) = "203.0.113.9" ∧
  ClientIP c (mkRequest "198.51.100.4:5555" h) = "198.51.100.4" ∧
  ClientIP (SetRealIPHeader "x-forwarded-for" c) (mkRequest "10.0.0.1:5555" h) = "10.1.1.1".
Proof. by vm_compute. Qed.
