(* ===== verification/IPAccess.v ===== *)
(** * IPAccess: the address and country fences

    Models internal/middleware/ipaccess.go: the lists, the two fences and their
    order, the run-time changes of the blocklist, and the checks of
    internal/config/envcheck.go on what the lists are built from
    ([splitList], [isAddressOrRange], [isCountryCode]). *)
From S2P Require Import Prelude GoStd Json Bytes Base64 NetIP ClientIP.
From stdpp Require Import list.
From Stdlib Require Import Ascii.
Open Scope string_scope.
Open Scope Z_scope.

(** ** Lists *)
Record AccessLists := mkAccessLists {
  ipAllowCIDRs : list IPNet;
  ipBlockCIDRs : list IPNet;
  geoAllowSet : list string;
  geoBlockSet : list string;
  geoIPHeader : string;
}.

(** One entry: blank ones are skipped, a bare address is a network of its own,
    what does not parse is skipped. *)
Definition cidr_entry (entry : string) : option IPNet :=
  let entry := TrimSpace entry in
  if decide (entry = "") then None
  else ParseCIDR (if contains 47 entry then entry
                  else if contains 58 entry then entry +:+ "/128" else entry +:+ "/32").
Definition parseCIDRList (entries : list string) : list IPNet := omap cidr_entry entries.

(** The keys of a [map[string]bool]; order and repetition do not matter. *)
Definition country_set (entries : list string) : list string := (λ c, ToUpper (TrimSpace c)) <$> entries.

Definition SetIPAccessLists (ipAllow ipBlock geoAllow geoBlock : list string) (geoHeader : string) : AccessLists :=
  mkAccessLists (parseCIDRList ipAllow) (parseCIDRList ipBlock) (country_set geoAllow) (country_set geoBlock)
    (TrimSpace geoHeader).

(** [IPNet.String] *)
Definition net_string (n : IPNet) : string :=
  ip_string (netIP n) +:+ "/" +:+
  FormatInt (if is4 (netIP n) then (if netWide n then netBits n - 96 else netBits n) else netBits n).

Definition containsCIDR (l : list IPNet) (target : IPNet) : bool :=
  existsb (λ c, bool_decide (net_string c = net_string target)) l.

(** Membership is judged against the list as it was: an entry given twice is
    added twice. *)
Definition AddToIPBlocklist (entries : list string) (a : AccessLists) : Z * AccessLists :=
  let parsed := parseCIDRList entries in
  let fresh := List.filter (λ n, negb (containsCIDR (ipBlockCIDRs a) n)) parsed in
  (Z.of_nat (length fresh),
   mkAccessLists (ipAllowCIDRs a) (ipBlockCIDRs a ++ fresh) (geoAllowSet a) (geoBlockSet a) (geoIPHeader a)).

Definition RemoveFromIPBlocklist (entries : list string) (a : AccessLists) : Z * AccessLists :=
  let parsed := parseCIDRList entries in
  let gone := List.filter (λ n, containsCIDR parsed n) (ipBlockCIDRs a) in
  let kept := List.filter (λ n, negb (containsCIDR parsed n)) (ipBlockCIDRs a) in
  (Z.of_nat (length gone),
   mkAccessLists (ipAllowCIDRs a) kept (geoAllowSet a) (geoBlockSet a) (geoIPHeader a)).

(** ** Fences: [true] is a refusal *)
Definition denyByCIDR (clientIP : string) (allowCIDRs blockCIDRs : list IPNet) : bool :=
  match allowCIDRs, blockCIDRs with
  | [], [] => false
  | _, _ =>
      match ParseIP clientIP with
      | None => true
      | Some ip =>
          (negb (length allowCIDRs =? 0)%nat && negb (existsb (λ n, Contains n ip) allowCIDRs))
          || existsb (λ n, Contains n ip) blockCIDRs
      end
  end.

Definition denyByGeo (c : proxies) (r : Request) (a : AccessLists) : bool :=
  if decide (geoIPHeader a = "") then false
  else if (length (geoAllowSet a) =? 0)%nat && (length (geoBlockSet a) =? 0)%nat then false
  else
    let country := if isTrustedProxy c (stripPort (RemoteAddr r))
                   then ToUpper (TrimSpace (HeaderGet (geoIPHeader a) r)) else "" in
    if decide (country = "") then negb (length (geoAllowSet a) =? 0)%nat
    else (negb (length (geoAllowSet a) =? 0)%nat && negb (bool_decide (country ∈ geoAllowSet a)))
         || (negb (length (geoBlockSet a) =? 0)%nat && bool_decide (country ∈ geoBlockSet a)).

(** [true]: the request reaches the next handler. *)
Definition IPAccess (c : proxies) (a : AccessLists) (path : string) (r : Request) : bool :=
  if bool_decide (path = "/healthz") || bool_decide (path = "/readyz") then true
  else if (length (ipAllowCIDRs a) =? 0)%nat && (length (ipBlockCIDRs a) =? 0)%nat &&
          (length (geoAllowSet a) =? 0)%nat && (length (geoBlockSet a) =? 0)%nat then true
  else if denyByCIDR (ClientIP c r) (ipAllowCIDRs a) (ipBlockCIDRs a) then false
  else negb (denyByGeo c r a).

(** ** The gate on the configuration *)
Definition splitList (s : string) : list string :=
  List.filter (λ v, negb (bool_decide (v = ""))) (TrimSpace <$> Split 44 s).
Definition isAddressOrRange (entry : string) : bool :=
  if contains 47 entry then bool_decide (is_Some (ParseCIDR entry)) else bool_decide (is_Some (ParseIP entry)).
Definition isCountryCode (entry : string) : bool :=
  (String.length entry =? 2)%nat &&
  all_chars (λ c, ((97 <=? code c) && (code c <=? 122)) || ((65 <=? code c) && (code c <=? 90))) entry.

(** ** Facts about text *)
Lemma str_rev_append a b : str_rev (a +:+ b) = str_rev b +:+ str_rev a.
Proof.
  induction a as [|c a IH]; [by rewrite string_app_nil_l, string_app_nil_r|].
  by rewrite string_app_cons, !str_rev_cons, IH, string_app_assoc.
Qed.
Definition starts_plain (s : string) : Prop := match s with String c _ => is_space c = false | "" => True end.
Lemma TrimLeft_plain s : starts_plain (TrimLeft s).
Proof. induction s as [|c s IH]; [done|]. cbn. by destruct (is_space c) eqn:E. Qed.
Lemma TrimLeft_id s : starts_plain s → TrimLeft s = s.
Proof. destruct s as [|c s]; [done|]. cbn. by intros ->. Qed.
Lemma TrimLeft_suffix s : ∃ p, s = p +:+ TrimLeft s.
Proof.
  induction s as [|c s [p IH]]; [by exists ""|]. cbn. destruct (is_space c); [|by exists ""].
  exists (String c p). by rewrite string_app_cons, <-IH.
Qed.
Lemma TrimSpace_idem s : TrimSpace (TrimSpace s) = TrimSpace s.
Proof.
  unfold TrimSpace. set (x := TrimLeft s). set (y := str_rev (TrimLeft (str_rev x))).
  assert (Hy : starts_plain y).
  { destruct (TrimLeft_suffix (str_rev x)) as [p Hp]. apply (f_equal str_rev) in Hp.
    rewrite str_rev_involutive, str_rev_append in Hp. fold y in Hp. pose proof (TrimLeft_plain s) as Hx. fold x in Hx.
    rewrite Hp in Hx. destruct y as [|c y]; [done|]. by rewrite string_app_cons in Hx. }
  rewrite (TrimLeft_id y Hy). unfold y at 1. rewrite str_rev_involutive.
  by rewrite (TrimLeft_id (TrimLeft (str_rev x)) (TrimLeft_plain _)).
Qed.

(** ** Facts about entries *)
Lemma index_of_app b s r : contains b s = false → index_of b (s +:+ String (chr b) r) = Some (String.length s) ∨ ¬ 0 ≤ b < 256.
Proof.
  unfold contains. rewrite bool_decide_eq_false. intros Hn. destruct (decide (0 ≤ b < 256)) as [Hb|]; [left|by right].
  induction s as [|c s IH].
  - rewrite string_app_nil_l. cbn. by rewrite code_chr, Z.eqb_refl.
  - rewrite string_app_cons. cbn in *. destruct (code c =? b); [exfalso; apply Hn; by eexists|].
    rewrite IH; [done|]. intros [i Hi]. apply Hn. rewrite Hi. by eexists.
Qed.

Lemma take_digits_all s : take_digits s = s → uint_digits s.
Proof.
  induction s as [|c s IH]; [done|]. cbn. destruct (is_digit c) eqn:E; [|done]. intros [= Hs]. split; [done|by apply IH].
Qed.
Lemma octet_range s v : octet s = Some v → 0 ≤ v ≤ 255.
Proof.
  unfold octet. destruct (_ || _); [done|]. destruct (negb _) eqn:E; [done|].
  apply negb_false_iff, bool_decide_eq_true, take_digits_all in E. pose proof (digits_value_ge s 0 E ltac:(lia)).
  destruct (255 <? _) eqn:El; [done|]. apply Z.ltb_ge in El. intros Hv.
  assert (v = digits_value s 0) as -> by (by repeat case_match; simplify_eq). lia.
Qed.
Lemma parseIPv4_range s v : parseIPv4 s = Some v → 0 ≤ v < 2 ^ 32.
Proof.
  unfold parseIPv4. destruct (Split 46 s) as [|a [|b [|c [|d []]]]]; try done. intros E.
  apply bind_Some in E as (x & ?%octet_range & E). apply bind_Some in E as (y & ?%octet_range & E).
  apply bind_Some in E as (z & ?%octet_range & E). apply bind_Some in E as (t & ?%octet_range & E). simplify_eq. lia.
Qed.

Lemma first_of_contains s n : first_of s = Some n → contains n s = true.
Proof.
  unfold contains. rewrite bool_decide_eq_true. induction s as [|c s IH]; [done|]. cbn.
  destruct ((code c =? 46) || (code c =? 58) || (code c =? 37)); [intros [= ->]; rewrite Z.eqb_refl; by eexists|].
  intros E. destruct (code c =? n); [by eexists|]. destruct (IH E) as [i ->]. by eexists.
Qed.
Lemma ParseIP_v4 s ip : contains 58 s = false → ParseIP s = Some ip → ∃ v, ip = v4mapped + v ∧ 0 ≤ v < 2 ^ 32.
Proof.
  intros Hc. unfold ParseIP. destruct (first_of s) as [n|] eqn:E; [|done]. apply first_of_contains in E.
  destruct (decide (n = 46)) as [->|]; [|destruct (decide (n = 58)) as [->|]; [congruence|]].
  - intros (v & Hv%parseIPv4_range & ->)%fmap_Some. by exists v.
  - intros Hm. exfalso. destruct n as [|p|p]; try done. repeat (destruct p; try done).
Qed.

(** The network of a bare address holds that address. *)
Lemma bare_entry e ip : TrimSpace e = e → contains 47 e = false → ParseIP e = Some ip →
  ∃ n, cidr_entry e = Some n ∧ Contains n ip = true.
Proof.
  intros Ht Hs Hip. unfold cidr_entry. rewrite Ht, decide_False by (intros ->; done). rewrite Hs.
  assert (Hcut : ∀ m, index_of 47 (e +:+ String (chr 47) m) = Some (String.length e)) by
    (intros m; destruct (index_of_app 47 e m Hs); [done|lia]).
  assert (Htd : ∀ m, take_str (String.length e) (e +:+ String (chr 47) m) = e ∧
    drop_str (S (String.length e)) (e +:+ String (chr 47) m) = m).
  { intros m. destruct (take_drop_app e (String (chr 47) m) _ eq_refl) as [-> Hd]. split; [done|].
    clear -e. induction e as [|c e IH]; [done|]. rewrite string_app_cons. cbn [drop_str String.length]. exact IH. }
  unfold ParseCIDR. destruct (contains 58 e) eqn:Hc.
  - change (e +:+ "/128") with (e +:+ String (chr 47) "128"). rewrite (Hcut "128"). cbn [mbind option_bind].
    destruct (Htd "128") as [-> ->]. rewrite Hip. cbn [mbind option_bind]. rewrite Hc. eexists. split; [done|].
    unfold Contains, mask_to. cbn [netIP netBits netWide]. change (128 - 128) with 0. rewrite Z.pow_0_r, !Z.div_1_r, !Z.mul_1_r.
    destruct (is4 ip); cbn; apply Z.eqb_refl.
  - change (e +:+ "/32") with (e +:+ String (chr 47) "32"). rewrite (Hcut "32"). cbn [mbind option_bind].
    destruct (Htd "32") as [-> ->]. rewrite Hip. cbn [mbind option_bind]. rewrite Hc. eexists. split; [done|].
    destruct (ParseIP_v4 e ip Hc Hip) as (v & -> & Hv).
    unfold Contains, mask_to. cbn [netIP netBits netWide]. change (32 - 32) with 0. rewrite Z.pow_0_r, !Z.div_1_r, !Z.mul_1_r.
    assert (Hm : (v4mapped + v) mod 2 ^ 32 = v) by (unfold v4mapped; divmod). rewrite Hm.
    assert (H4 : is4 (v4mapped + v) = true) by (unfold is4, v4mapped; apply Z.eqb_eq; divmod).
    rewrite H4, Hm. cbn. apply Z.eqb_refl.
Qed.

(** A gate that accepts an entry accepts what the lists will honour. *)
Lemma accepted_entry e : TrimSpace e = e → e ≠ "" → isAddressOrRange e = true → is_Some (cidr_entry e).
Proof.
  intros Ht He. unfold isAddressOrRange. destruct (contains 47 e) eqn:Hc; rewrite bool_decide_eq_true.
  - unfold cidr_entry. by rewrite Ht, decide_False, Hc.
  - intros [ip Hip]. destruct (bare_entry e ip Ht Hc Hip) as (n & Hn & _). by exists n.
Qed.
Lemma splitList_entries s e : e ∈ splitList s → TrimSpace e = e ∧ e ≠ "".
Proof.
  unfold splitList. rewrite list_elem_of_In, List.filter_In, <-list_elem_of_In.
  intros [(x & -> & _)%list_elem_of_fmap Hn]. apply negb_true_iff, bool_decide_eq_false in Hn.
  split; [apply TrimSpace_idem|done].
Qed.
Lemma omap_total {A B} (f : A → option B) l : (∀ x, x ∈ l → is_Some (f x)) → length (omap f l) = length l.
Proof.
  induction l as [|x l IH]; intros Hf; [done|]. cbn. destruct (Hf x ltac:(left)) as [y ->]. cbn. rewrite IH; [done|].
  intros z Hz. apply Hf. by right.
Qed.

(** A validated list is honoured in full: when every entry of IP_ALLOWLIST,
    IP_BLOCKLIST or TRUSTED_PROXIES passed the configuration gate, the
    middleware builds one network for each of them and skips none, and an
    entry that is a bare address is a network that holds it. *)
Theorem validated_lists_are_complete raw :
  forallb isAddressOrRange (splitList raw) = true →
  length (parseCIDRList (splitList raw)) = length (splitList raw) ∧
  length (trustedProxyCIDRs (SetTrustedProxies (splitList raw) (mkProxies [] "" ""))) = length (splitList raw) ∧
  ∀ e ip, e ∈ splitList raw → ParseIP e = Some ip →
    contains 47 e = false →
    ∃ n, n ∈ parseCIDRList (splitList raw) ∧ Contains n ip = true.
Proof.
  intros Hall. assert (Hok : ∀ e, e ∈ splitList raw → is_Some (cidr_entry e)).
  { intros e He. destruct (splitList_entries raw e He) as [Ht Hne]. apply accepted_entry; [done|done|].
    rewrite forallb_forall in Hall. by apply Hall, list_elem_of_In. }
  split_and!.
  - by apply omap_total.
  - cbn. apply omap_total. intros e He. destruct (splitList_entries raw e He) as [Ht Hne].
    specialize (Hok e He). unfold cidr_entry in Hok. rewrite Ht, decide_False in Hok by done. exact Hok.
  - intros e ip He Hip Hc. destruct (splitList_entries raw e He) as [Ht _].
    destruct (bare_entry e ip Ht Hc Hip) as (n & Hn & Hcont). exists n. split; [|done].
    apply list_elem_of_omap. by exists e.
Qed.

Lemma validated_lists_are_complete_witness :
  length (parseCIDRList (splitList "10.0.0.0/8, 192.168.1.7 ,,::1")) = 3%nat ∧
  ∃ n, n ∈ parseCIDRList (splitList "10.0.0.0/8, 192.168.1.7 ,,::1") ∧ Contains n 1 = true.
Proof.
  destruct (validated_lists_are_complete "10.0.0.0/8, 192.168.1.7 ,,::1") as (H1 & _ & H3); [by vm_compute|].
  split; [rewrite H1; by vm_compute|]. apply (H3 "::1"); [|by vm_compute..].
  apply list_elem_of_In. vm_compute. tauto.
Defined.

(** ** The fence *)
(** The country a request is judged by: the header of a trusted peer, or none. *)
Definition believed_country (c : proxies) (r : Request) (a : AccessLists) : string :=
  if isTrustedProxy c (stripPort (RemoteAddr r)) then ToUpper (TrimSpace (HeaderGet (geoIPHeader a) r)) else "".

Definition address_admitted (a : AccessLists) (addr : string) : Prop :=
  ipAllowCIDRs a = [] ∧ ipBlockCIDRs a = [] ∨
  ∃ ip, ParseIP addr = Some ip ∧ (ipAllowCIDRs a = [] ∨ ∃ n, n ∈ ipAllowCIDRs a ∧ Contains n ip = true) ∧
    ∀ n, n ∈ ipBlockCIDRs a → Contains n ip = false.
Definition country_admitted (a : AccessLists) (country : string) : Prop :=
  geoIPHeader a = "" ∨ geoAllowSet a = [] ∧ (country = "" ∨ country ∉ geoBlockSet a) ∨
  country ≠ "" ∧ country ∈ geoAllowSet a ∧ country ∉ geoBlockSet a.

Lemma existsb_false {A} (f : A → bool) l : existsb f l = false ↔ ∀ x, x ∈ l → f x = false.
Proof.
  split.
  - intros E x Hx. apply not_true_iff_false. intros Hf. apply not_true_iff_false in E. apply E, existsb_exists.
    exists x. by rewrite <-list_elem_of_In.
  - intros Hall. apply not_true_iff_false. intros (x & Hx%list_elem_of_In & Hf)%existsb_exists. by rewrite Hall in Hf.
Qed.
Lemma existsb_true {A} (f : A → bool) l : existsb f l = true ↔ ∃ x, x ∈ l ∧ f x = true.
Proof. rewrite existsb_exists. by setoid_rewrite <-list_elem_of_In. Qed.
Lemma length0 {A} (l : list A) : (length l =? 0)%nat = bool_decide (l = []).
Proof. by destruct l. Qed.

Lemma denyByCIDR_spec a addr :
  denyByCIDR addr (ipAllowCIDRs a) (ipBlockCIDRs a) = false ↔ address_admitted a addr.
Proof.
  unfold address_admitted.
  assert (Hgen : (match ParseIP addr with
      | None => true
      | Some ip => (negb (length (ipAllowCIDRs a) =? 0)%nat && negb (existsb (λ n, Contains n ip) (ipAllowCIDRs a)))
                   || existsb (λ n, Contains n ip) (ipBlockCIDRs a)
      end) = false ↔ ∃ ip, ParseIP addr = Some ip ∧
        (ipAllowCIDRs a = [] ∨ ∃ n, n ∈ ipAllowCIDRs a ∧ Contains n ip = true) ∧
        ∀ n, n ∈ ipBlockCIDRs a → Contains n ip = false).
  { destruct (ParseIP addr) as [ip|]; [|naive_solver].
    rewrite orb_false_iff, andb_false_iff, !negb_false_iff, existsb_false, existsb_true, length0, bool_decide_eq_true.
    naive_solver. }
  unfold denyByCIDR. destruct (ipAllowCIDRs a) as [|x l], (ipBlockCIDRs a) as [|y l'];
    [split; [by left|done]|rewrite Hgen; naive_solver..].
Qed.
Lemma denyByGeo_spec c r a : denyByGeo c r a = false ↔ country_admitted a (believed_country c r a).
Proof.
  unfold denyByGeo, country_admitted. fold (believed_country c r a). rewrite !length0.
  destruct (decide (geoIPHeader a = "")) as [|Hh]; [naive_solver|]. set (co := believed_country c r a).
  destruct (decide (co = "")) as [Hc|Hc]; repeat case_bool_decide; cbn; try naive_solver;
    rewrite ?orb_false_iff, ?andb_false_iff; split; try naive_solver;
    repeat match goal with H : ?l = [] |- _ => rewrite H in * end; set_solver.
Qed.

(** The fence decides exactly what its lists say: outside the two health
    probes a request passes if and only if its resolved address parses, lies in
    the allowlist when there is one and in no blocked network, and, when a
    country header is configured, the country a trusted peer vouched for is on
    the allowlist when there is one and not on the blocklist; an untrusted peer
    has no country. *)
Theorem ip_fence_exact c a path r :
  path ≠ "/healthz" → path ≠ "/readyz" →
  IPAccess c a path r = true ↔
  address_admitted a (ClientIP c r) ∧ country_admitted a (believed_country c r a).
Proof.
  intros Hh Hr. unfold IPAccess. rewrite !bool_decide_eq_false_2, !length0 by done. cbn [orb].
  rewrite <-denyByCIDR_spec, <-denyByGeo_spec. case_match eqn:E.
  - bool_hyps. unfold denyByGeo. rewrite !length0. 
    repeat match goal with H : ?l = [] |- _ => rewrite H end. cbn. by case_decide.
  - destruct (denyByCIDR _ _ _), (denyByGeo c r a); naive_solver.
Qed.

(** Changing the blocklist at run time blocks what was named and nothing
    else changes: after an addition every network blocked before and every
    network that parsed is blocked, and a removal keeps exactly the networks
    whose text was not named. *)
Theorem blocklist_updates_are_exact entries a :
  let added := (AddToIPBlocklist entries a).2 in
  let removed := (RemoveFromIPBlocklist entries a).2 in
  (∀ ip, existsb (λ n, Contains n ip) (ipBlockCIDRs a) = true → existsb (λ n, Contains n ip) (ipBlockCIDRs added) = true) ∧
  (∀ e n, e ∈ entries → cidr_entry e = Some n → containsCIDR (ipBlockCIDRs added) n = true) ∧
  (∀ n, n ∈ ipBlockCIDRs removed ↔ n ∈ ipBlockCIDRs a ∧ ∀ e m, e ∈ entries → cidr_entry e = Some m → net_string m ≠ net_string n) ∧
  ipAllowCIDRs added = ipAllowCIDRs a ∧ ipAllowCIDRs removed = ipAllowCIDRs a.
Proof.
  cbv zeta. cbn [AddToIPBlocklist RemoveFromIPBlocklist snd ipBlockCIDRs ipAllowCIDRs]. split_and!; [| | |done|done].
  - intros ip Hb. by rewrite existsb_app, Hb.
  - intros e n He Hn. unfold containsCIDR. rewrite existsb_app.
    destruct (containsCIDR (ipBlockCIDRs a) n) eqn:Ec; unfold containsCIDR in Ec; rewrite Ec; [done|]. cbn.
    apply existsb_true. exists n. split; [|by rewrite bool_decide_eq_true_2].
    apply list_elem_of_In, List.filter_In. split; [apply list_elem_of_In, list_elem_of_omap; by exists e|].
    unfold containsCIDR. by rewrite Ec.
  - intros n. rewrite list_elem_of_In, List.filter_In, <-list_elem_of_In, negb_true_iff. unfold containsCIDR.
    rewrite existsb_false. split; intros [Hn Hall]; (split; [done|]).
    + intros e m He Hm. specialize (Hall m). rewrite bool_decide_eq_false in Hall. apply Hall, list_elem_of_omap. by exists e.
    + intros m (e & He & Hm)%list_elem_of_omap. apply bool_decide_eq_false. by apply (Hall e).
Qed.

Definition demo_lists : AccessLists := SetIPAccessLists ["10.0.0.0/8"] ["10.9.0.0/16"] [" nl "] [] "CF-IPCountry".
Definition demo_request (remote country : string) : Request :=
  mkRequest remote {["Cf-Ipcountry" := [country]]}.
Definition demo_proxies : proxies := SetTrustedProxies ["10.0.0.1"] (mkProxies [] "" "").
Lemma ip_fence_exact_witness :
  IPAccess demo_proxies demo_lists "/auth/login" (demo_request "10.0.0.1:80" "NL") = true ∧
  address_admitted demo_lists "10.0.0.1" ∧ country_admitted demo_lists "NL".
Proof.
  assert (E : IPAccess demo_proxies demo_lists "/auth/login" (demo_request "10.0.0.1:80" "NL") = true) by by vm_compute.
  split; [exact E|]. exact (proj1 (ip_fence_exact demo_proxies demo_lists "/auth/login" (demo_request "10.0.0.1:80" "NL") ltac:(done) ltac:(done)) E).
Defined.
Example fence_examples :
  IPAccess demo_proxies demo_lists "/auth/login" (demo_request "10.0.0.2:80" "NL") = false ∧
  IPAccess demo_proxies demo_lists "/auth/login" (demo_request "10.9.0.1:80" "NL") = false ∧
  IPAccess demo_proxies demo_lists "/healthz" (demo_request "1.2.3.4:80" "") = true.
Proof. by vm_compute. Qed.
