(* ===== verification/Outbound.v ===== *)
(** * Outbound: which destinations the server may open a connection to

    Models internal/outbound/outbound.go: the host rule for the endpoints an
    issuer's discovery document names, the judgement of every resolved address
    at dial time, and a client that follows redirects under both rules.  The
    parser of net/url and the resolver are parameters: the parsed parts of a
    URL, and the addresses a name resolves to. *)
From S2P Require Import Prelude GoStd Crypto Json Bytes JsonUtf8 Base64 NetIP Url ClientIP IPAccess.
From stdpp Require Import list gmap strings.
From Stdlib Require Import Ascii.
Open Scope string_scope.
Open Scope Z_scope.

Fixpoint HasSuffix (s p : string) : bool :=
  bool_decide (s = p) || match s with "" => false | String _ r => HasSuffix r p end.

(** ** Address classes of package net
    An address is its 16-byte form; IPv4 is mapped. *)
Definition ip_byte (ip : Z) (i : Z) : Z := ip / 2 ^ (8 * (15 - i)) mod 256.
Definition byte4 (ip : Z) (i : Z) : Z := ip_byte ip (12 + i).
Definition IsUnspecified (ip : Z) : bool := (ip =? v4mapped) || (ip =? 0).
Definition IsLoopback (ip : Z) : bool := if is4 ip then byte4 ip 0 =? 127 else ip =? 1.
Definition IsPrivate (ip : Z) : bool :=
  if is4 ip then
    (byte4 ip 0 =? 10) || (byte4 ip 0 =? 172) && (Z.land (byte4 ip 1) 240 =? 16) || (byte4 ip 0 =? 192) && (byte4 ip 1 =? 168)
  else Z.land (ip_byte ip 0) 254 =? 252.
Definition IsMulticast (ip : Z) : bool :=
  if is4 ip then Z.land (byte4 ip 0) 240 =? 224 else ip_byte ip 0 =? 255.
Definition IsLinkLocalMulticast (ip : Z) : bool :=
  if is4 ip then (byte4 ip 0 =? 224) && (byte4 ip 1 =? 0) && (byte4 ip 2 =? 0)
  else (ip_byte ip 0 =? 255) && (Z.land (ip_byte ip 1) 15 =? 2).
Definition IsLinkLocalUnicast (ip : Z) : bool :=
  if is4 ip then (byte4 ip 0 =? 169) && (byte4 ip 1 =? 254)
  else (ip_byte ip 0 =? 254) && (Z.land (ip_byte ip 1) 192 =? 128).
Definition sharedAddressSpace : IPNet := mkIPNet (v4mapped + 100 * 2 ^ 24 + 64 * 2 ^ 16) 10 false.

(** ** The policy
    [None] is the nil policy: no widenings. *)
Record Policy := mkPolicy { allowedHosts : gset string; allowPrivate : bool }.
Definition host_entry (h : string) : string := ToLower (TrimSpace h).
Definition NewPolicy (hosts : list string) (private : bool) : Policy :=
  mkPolicy (list_to_set (filter (λ h, h ≠ "") (host_entry <$> hosts))) private.
Definition isASCIIHost (host : string) : bool := all_chars (λ c, negb ((code c <? 33) || (126 <? code c))) host.
Definition ValidateAllowedHosts (hosts : list string) : bool :=
  forallb (λ h, let t := TrimSpace h in bool_decide (t = "") || isASCIIHost t) hosts.
Definition allows (p : option Policy) (host : string) : bool :=
  match p with Some p => bool_decide (host ∈ allowedHosts p) | None => false end.
Definition privateAllowed (p : option Policy) : bool := match p with Some p => allowPrivate p | None => false end.

Definition isLoopbackHost (host : string) : bool :=
  bool_decide (host = "localhost") || match ParseIP host with Some ip => IsLoopback ip | None => false end.
Definition underDomain (host base : string) : bool := bool_decide (host = base) || HasSuffix host ("." +:+ base).

Inductive addr_refusal := Unspecified | LinkLocal | Multicast | LoopbackAddress | PrivateNetwork.
#[export] Instance addr_refusal_eq_dec : EqDecision addr_refusal.
Proof. solve_decision. Defined.
Definition refuseAddress (p : option Policy) (ip : Z) : option addr_refusal :=
  if IsUnspecified ip then Some Unspecified
  else if IsLinkLocalUnicast ip || IsLinkLocalMulticast ip then Some LinkLocal
  else if IsMulticast ip then Some Multicast
  else if privateAllowed p then None
  else if IsLoopback ip then Some LoopbackAddress
  else if IsPrivate ip || Contains sharedAddressSpace ip then Some PrivateNetwork
  else None.

Section outbound.
Context `{URLParser}.

Definition hostOf (raw : string) : option string :=
  u ← url_Parse raw;
  if decide (Hostname u = "") then None
  else if negb (isASCIIHost (Hostname u)) then None
  else Some (ToLower (Hostname u)).
Definition CheckDerived (p : option Policy) (issuer endpoint : string) : bool :=
  match hostOf endpoint with
  | None => false
  | Some host =>
      if isLoopbackHost host then true
      else if allows p host then true
      else match hostOf issuer with
           | None => false
           | Some issuerHost => underDomain host issuerHost
           end
  end.
Definition FetchableEndpoint (raw : string) : bool :=
  match url_Parse raw with
  | None => false
  | Some u =>
      if decide (Host u = "") then false
      else if decide (Scheme u = "https") then true
      else if decide (Scheme u = "http") then
        bool_decide (Hostname u = "localhost") ||
        match ParseIP (Hostname u) with Some ip => IsLoopback ip | None => false end
      else false
  end.

(** ** Dialling *)
Inductive dialErr := NotHostPort | LookupFailed | RefusedAddress (r : addr_refusal) | NoAddress.
(** [LookupIP]: [None] for an error, which an empty answer is too. *)
Definition resolver := string → option (list Z).
Definition resolve_host (lookup : resolver) (host : string) : option (list Z) :=
  match ParseIP host with Some ip => Some [ip] | None => lookup host end.
(** The address and port handed to the dialer. *)
Definition DialContext (p : option Policy) (lookup : resolver) (addr : string) : res dialErr (Z * string) :=
  match SplitHostPort addr with
  | None => Err NotHostPort
  | Some (host, port) =>
      match resolve_host lookup host with
      | None => Err LookupFailed
      | Some ips =>
          match omap (refuseAddress p) ips with
          | r :: _ => Err (RefusedAddress r)
          | [] => match ips with ip :: _ => Ok (ip, port) | [] => Err NoAddress end
          end
      end
  end.

(** ** Requests and redirects *)
Record Request := mkRequest { rURL : string; rBody : string; rAuth : string }.
Record Response := mkResponse { rsStatus : Z; rsBody : string; rsLocation : option string (** resolved *) }.
(** What the peer at an address answers, [None] for a transport error. *)
Definition wire := Z * string → Request → option Response.

(** A request is sent on a connection this policy dialled. *)
Definition send (p : option Policy) (lookup : resolver) (w : wire) (r : Request) : option (Z * string) * option Response :=
  match url_Parse (rURL r) with
  | None => (None, None)
  | Some u => match DialContext p lookup (canonicalAddr u) with
              | Err _ => (None, None)
              | Ok a => (Some a, w a r)
              end
  end.
(** [CheckRedirect]: the scheme first, then the host. *)
Definition CheckRedirect (p : option Policy) (issuer url : string) : bool := FetchableEndpoint url && CheckDerived p issuer url.
Definition redirects (status : Z) : bool := bool_decide (status ∈ [301; 302; 303; 307; 308]).
(** 301, 302 and 303 turn into a GET without a body.  The authorization header is kept
    here; net/http drops it when the host is another. *)
Definition redirected (r : Request) (status : Z) (url : string) : Request :=
  mkRequest url (if bool_decide (status ∈ [307; 308]) then rBody r else "") (rAuth r).
(** What was contacted: each request with the address it went to. *)
Definition contact : Type := option (Z * string) * Request.
(** [fuel] counts the redirects [len(via) >= 10] still leaves. *)
Fixpoint follow (fuel : nat) (p : option Policy) (issuer : string) (lookup : resolver) (w : wire) (r : Request)
  : option (Z * string) * list contact :=
  let '(a, resp) := send p lookup w r in
  match resp with
  | None => (None, [(a, r)])
  | Some x =>
      match (if redirects (rsStatus x) then rsLocation x else None) with
      | None => (Some (rsStatus x, rsBody x), [(a, r)])
      | Some url =>
          match fuel with
          | O => (None, [(a, r)])
          | S fuel' =>
              if CheckRedirect p issuer url then
                let '(res, t) := follow fuel' p issuer lookup w (redirected r (rsStatus x) url) in (res, (a, r) :: t)
              else (None, [(a, r)])
          end
      end
  end.
Definition maxRedirects : nat := 9.
(** [ClientForIssuer(issuer).Do(req)] *)
Definition Fetch (p : option Policy) (issuer : string) (lookup : resolver) (w : wire) (r : Request) :=
  follow maxRedirects p issuer lookup w r.
End outbound.

(** * Facts: no request lands inside the deployment

    The address classes are exactly the published ranges, every connection goes
    to an address outside them, and following redirects never leaves the hosts
    an operator vouched for. *)

(** ** The ranges *)
(** This network, link-local unicast (cloud metadata) and multicast. *)
Definition never_ranges : list string :=
  ["0.0.0.0/32"; "::/128"; "169.254.0.0/16"; "fe80::/10"; "224.0.0.0/4"; "ff00::/8"].
(** Loopback, RFC 1918, unique local and RFC 6598. *)
Definition private_ranges : list string :=
  ["127.0.0.0/8"; "::1/128"; "10.0.0.0/8"; "172.16.0.0/12"; "192.168.0.0/16"; "fc00::/7"; "100.64.0.0/10"].
Definition within (ranges : list string) (ip : Z) : bool :=
  existsb (λ s, match ParseCIDR s with Some n => Contains n ip | None => false end) ranges.

Definition in4 (bits base ip : Z) : bool := ip mod 2 ^ 32 / 2 ^ (32 - bits) =? base.
Definition in6 (bits base ip : Z) : bool := ip / 2 ^ (128 - bits) =? base.
Lemma mask_eqb bits width v b : 0 ≤ bits ≤ width → (mask_to bits width v =? b * 2 ^ (width - bits)) = (v / 2 ^ (width - bits) =? b).
Proof.
  intros. unfold mask_to. pose proof (Z.pow_pos_nonneg 2 (width - bits) ltac:(lia) ltac:(lia)).
  destruct (Z.eqb_spec (v / 2 ^ (width - bits)) b) as [->|Hn]; [apply Z.eqb_refl|]. apply Z.eqb_neq. intros E. apply Hn.
  by apply Z.mul_reg_r in E; [|lia].
Qed.
Lemma Contains4 bits base ip : 0 ≤ bits ≤ 32 → 0 ≤ base * 2 ^ (32 - bits) < 2 ^ 32 →
  Contains (mkIPNet (v4mapped + base * 2 ^ (32 - bits)) bits false) ip = is4 ip && in4 bits base ip.
Proof.
  intros Hb Hr. unfold Contains, in4. cbn [netIP netBits netWide].
  assert (E4 : is4 (v4mapped + base * 2 ^ (32 - bits)) = true).
  { unfold is4, v4mapped. rewrite Z.div_add_l by lia. rewrite Z.div_small by lia. done. }
  rewrite E4. f_equal. rewrite <- (mask_eqb bits 32) by done. f_equal.
  unfold v4mapped. rewrite Z.add_comm, Z.mod_add, Z.mod_small by lia.
  unfold mask_to. pose proof (Z.pow_pos_nonneg 2 (32 - bits) ltac:(lia) ltac:(lia)). by rewrite Z.div_mul by lia.
Qed.
Lemma Contains6 bits base ip : 0 ≤ bits ≤ 128 → is4 (base * 2 ^ (128 - bits)) = false →
  Contains (mkIPNet (base * 2 ^ (128 - bits)) bits true) ip = negb (is4 ip) && in6 bits base ip.
Proof.
  intros Hb H4. unfold Contains, in6. cbn [netIP netBits netWide]. rewrite H4. f_equal. rewrite <- (mask_eqb bits 128) by done. f_equal.
  unfold mask_to. pose proof (Z.pow_pos_nonneg 2 (128 - bits) ltac:(lia) ltac:(lia)). by rewrite Z.div_mul by lia.
Qed.
Lemma within_cons s n ranges ip : ParseCIDR s = Some n → within (s :: ranges) ip = Contains n ip || within ranges ip.
Proof. intros E. unfold within. cbn [existsb]. by rewrite E. Qed.
(** One range of a list, as a test on the leading bits. *)
Ltac range4 b base := rewrite (within_cons _ (mkIPNet (v4mapped + base * 2 ^ (32 - b)) b false)) by (vm_compute; reflexivity);
  rewrite (Contains4 b base) by lia.
Ltac range6 b base := rewrite (within_cons _ (mkIPNet (base * 2 ^ (128 - b)) b true)) by (vm_compute; reflexivity);
  rewrite (Contains6 b base) by (lia || reflexivity).
Lemma within_never ip : within never_ranges ip =
  (if is4 ip then in4 32 0 ip || in4 16 43518 ip || in4 4 14 ip else in6 128 0 ip || in6 10 1018 ip || in6 8 255 ip).
Proof.
  unfold never_ranges. range4 32 0. range6 128 0. range4 16 43518. range6 10 1018. range4 4 14. range6 8 255.
  destruct (is4 ip); cbn [andb negb orb within existsb]; by rewrite ?orb_false_r, ?orb_assoc.
Qed.
Lemma within_private ip : within private_ranges ip =
  (if is4 ip then in4 8 127 ip || in4 8 10 ip || in4 12 2753 ip || in4 16 49320 ip || in4 10 401 ip
   else in6 128 1 ip || in6 7 126 ip).
Proof.
  unfold private_ranges. range4 8 127. range6 128 1. range4 8 10. range4 12 2753. range4 16 49320. range6 7 126. range4 10 401.
  destruct (is4 ip); cbn [andb negb orb within existsb]; by rewrite ?orb_false_r, ?orb_assoc.
Qed.

(** ** The classes of package net are those ranges *)
Lemma every_byte (f : Z → bool) b : forallb f (seqZ 0 256) = true → 0 ≤ b < 256 → f b = true.
Proof. intros Hf Hb. rewrite forallb_forall in Hf. apply Hf, list_elem_of_In, elem_of_seqZ. lia. Qed.
Lemma high_bits b k m : (0 ≤ b < 256) → forallb (λ b, Z.land b m =? b / 2 ^ k * 2 ^ k) (seqZ 0 256) = true → Z.land b m = b / 2 ^ k * 2 ^ k.
Proof. intros Hb Hf. by apply Z.eqb_eq, (every_byte (λ b, Z.land b m =? b / 2 ^ k * 2 ^ k)). Qed.
Lemma byte_range ip i : 0 ≤ ip_byte ip i < 256.
Proof. unfold ip_byte. apply Z.mod_pos_bound. lia. Qed.
Ltac bits := apply eq_true_iff_eq; rewrite ?orb_true_iff, ?andb_true_iff, ?Z.eqb_eq; unfold byte4, ip_byte; cbn [Z.add Z.sub Z.opp Z.mul];
  Z.to_euclidean_division_equations; lia.
Lemma unspecified_range ip : 0 ≤ ip < 2 ^ 128 → IsUnspecified ip = if is4 ip then in4 32 0 ip else in6 128 0 ip.
Proof.
  intros Hr. unfold IsUnspecified, in4, in6, v4mapped. destruct (is4 ip) eqn:E; unfold is4 in E.
  - apply Z.eqb_eq in E. change (32 - 32) with 0. change (2 ^ 0) with 1. rewrite Z.div_1_r. apply eq_true_iff_eq. rewrite orb_true_iff, !Z.eqb_eq.
    pose proof (Z.div_mod ip (2 ^ 32) ltac:(lia)). pose proof (Z.mod_pos_bound ip (2 ^ 32) ltac:(lia)). change (2 ^ 32) with 4294967296 in *. lia.
  - apply Z.eqb_neq in E. change (128 - 128) with 0. change (2 ^ 0) with 1. rewrite Z.div_1_r. apply eq_true_iff_eq. rewrite orb_true_iff, !Z.eqb_eq.
    split; [intros [Hip|Hip]; [|done]|by right]. subst ip. by exfalso; apply E.
Qed.

Lemma link_local_range ip : 0 ≤ ip < 2 ^ 128 → IsLinkLocalUnicast ip = if is4 ip then in4 16 43518 ip else in6 10 1018 ip.
Proof.
  intros Hr. unfold IsLinkLocalUnicast, in4, in6. rewrite (high_bits (ip_byte ip 1) 6 192) by (apply byte_range || reflexivity).
  destruct (is4 ip); bits.
Qed.
Lemma multicast_range ip : 0 ≤ ip < 2 ^ 128 → IsMulticast ip = if is4 ip then in4 4 14 ip else in6 8 255 ip.
Proof.
  intros Hr. unfold IsMulticast, in4, in6. rewrite (high_bits (byte4 ip 0) 4 240) by (apply byte_range || reflexivity).
  destruct (is4 ip); bits.
Qed.
Lemma loopback_range ip : 0 ≤ ip < 2 ^ 128 → IsLoopback ip = if is4 ip then in4 8 127 ip else in6 128 1 ip.
Proof. intros Hr. unfold IsLoopback, in4, in6. destruct (is4 ip); bits. Qed.
Lemma private_range ip : 0 ≤ ip < 2 ^ 128 →
  IsPrivate ip || Contains sharedAddressSpace ip =
  if is4 ip then in4 8 10 ip || in4 12 2753 ip || in4 16 49320 ip || in4 10 401 ip else in6 7 126 ip.
Proof.
  intros Hr. change sharedAddressSpace with (mkIPNet (v4mapped + 401 * 2 ^ (32 - 10)) 10 false). rewrite Contains4 by lia.
  unfold IsPrivate, in4, in6. rewrite (high_bits (byte4 ip 1) 4 240), (high_bits (ip_byte ip 0) 1 254) by (apply byte_range || reflexivity).
  destruct (is4 ip); cbn [andb]; bits.
Qed.
Lemma link_local_multicast ip : IsLinkLocalMulticast ip = true → IsMulticast ip = true.
Proof.
  unfold IsLinkLocalMulticast, IsMulticast. destruct (is4 ip).
  - rewrite !andb_true_iff, !Z.eqb_eq. by intros [[-> _] _].
  - rewrite !andb_true_iff. by intros [? _].
Qed.

(** ** Parsed addresses are addresses *)
Definition word16 (w : Z) : Prop := 0 ≤ w < 2 ^ 16.
Lemma hex_group_range n s acc k : 0 ≤ acc < 16 ^ k → 0 ≤ k → 0 ≤ (hex_group n s acc).1 < 16 ^ (k + Z.of_nat n).
Proof.
  revert s acc k. induction n as [|n IH]; intros s acc k Ha Hk; [cbn; by rewrite Z.add_0_r|].
  assert (Hmono : 16 ^ k ≤ 16 ^ (k + Z.of_nat (S n))) by (apply Z.pow_le_mono_r; lia).
  cbn [hex_group]. destruct s as [|c r]; [cbn; lia|]. destruct (hex_val c) as [v|] eqn:E; [|cbn; lia]. apply hex_val_range in E.
  replace (k + Z.of_nat (S n)) with ((k + 1) + Z.of_nat n) by lia. apply IH; [|lia]. rewrite Z.pow_add_r by lia. lia.
Qed.
Lemma v6_loop_range n s groups ell l e : v6_loop n s groups ell = Some (l, e) → Forall word16 groups → (length groups + n ≤ 8)%nat →
  Forall word16 l ∧ (length l ≤ 8)%nat.
Proof.
  revert s groups ell. induction n as [|n IH]; intros s groups ell; cbn [v6_loop].
  { destruct s; [|done]. intros [= <- <-]. split; [done|lia]. }
  pose proof (hex_group_range 4 s 0 0 ltac:(lia) ltac:(lia)) as Hg. destruct (hex_group 4 s 0) as [acc rest]. cbn in Hg.
  change (Z.pow_pos 16 4) with (2 ^ 16) in Hg. fold (word16 acc) in Hg. destruct (_ =? _)%nat; [done|].
  intros H HF HL. assert (Hc : Forall word16 (acc :: groups)) by (by constructor).
  destruct rest as [|c r]; [injection H as <- <-; split; [done|cbn; lia]|]. destruct (code c =? 46).
  { destruct (_ && _); [done|]. destruct (6 <? length groups)%nat eqn:E6; [done|]. apply Nat.ltb_ge in E6.
    destruct (parseIPv4 s) as [v|] eqn:E4; cbn in H; [|done]. injection H as <- <-. apply parseIPv4_range in E4. split; [|cbn; lia].
    constructor; [apply Z.mod_pos_bound; lia|]. constructor; [|done]. unfold word16. Z.to_euclidean_division_equations. lia. }
  destruct (negb _); [done|]. destruct r as [|c2 r2]; [done|]. destruct (code c2 =? 58).
  - destruct (bool_decide _); [done|]. destruct r2; [injection H as <- <-; split; [done|cbn; lia]|]. eapply IH; [exact H|done|cbn; lia].
  - eapply IH; [exact H|done|cbn; lia].
Qed.
Lemma words_value_range l acc k : Forall word16 l → 0 ≤ acc < 2 ^ k → 0 ≤ k →
  0 ≤ fold_left (λ acc w, acc * 2 ^ 16 + w) l acc < 2 ^ (k + 16 * Z.of_nat (length l)).
Proof.
  revert acc k. induction l as [|w l IH]; intros acc k HF Ha Hk; [cbn; by rewrite Z.add_0_r|]. inversion HF as [|? ? [Hw Hw'] HF']; subst. cbn [fold_left length].
  replace (k + 16 * Z.of_nat (S (length l))) with ((k + 16) + 16 * Z.of_nat (length l)) by lia. apply IH; [done| |lia].
  rewrite Z.pow_add_r by lia. change (2 ^ 16) with 65536 in *. lia.
Qed.
Lemma parseIPv6_range s ip : parseIPv6 s = Some ip → 0 ≤ ip < 2 ^ 128.
Proof.
  unfold parseIPv6. set (se := match s with String _ _ => _ | _ => _ end). destruct se as [s1 e]. destruct (_ && _); [by intros [= <-]|].
  destruct (v6_loop 8 s1 [] e) as [[l ell]|] eqn:E; cbn [mbind option_bind]; [|done]. destruct (v6_loop_range _ _ _ _ _ _ E) as [HF HL]; [constructor|cbn; lia|].
  rewrite <- Forall_reverse in HF. rewrite <- length_reverse in HL. set (l' := reverse l) in *.
  assert (Hv : ∀ l, Forall word16 l → (length l ≤ 8)%nat → 0 ≤ words_value l < 2 ^ 128).
  { intros x Hx Hn. pose proof (words_value_range x 0 0 Hx ltac:(lia) ltac:(lia)) as [? Hlt]. split; [done|]. eapply Z.lt_le_trans; [exact Hlt|].
    apply Z.pow_le_mono_r; lia. }
  destruct (length l' <? 8)%nat eqn:E8.
  - apply Nat.ltb_lt in E8. destruct ell as [i|]; cbn [mbind option_bind]; [|done]. intros [= <-]. apply Hv.
    + rewrite !Forall_app. split_and!; [by apply Forall_take|apply Forall_forall; intros x Hx%list_elem_of_In%repeat_spec; subst; unfold word16; lia|by apply Forall_drop].
    + rewrite !length_app, length_take, repeat_length, length_drop. lia.
  - destruct (bool_decide _); [done|]. intros [= <-]. by apply Hv.
Qed.
Lemma ParseIP_range s ip : ParseIP s = Some ip → 0 ≤ ip < 2 ^ 128.
Proof.
  unfold ParseIP. repeat case_match; try done; intros Hp.
  - apply fmap_Some in Hp as (v & Hv%parseIPv4_range & ->). unfold v4mapped. lia.
  - by eapply parseIPv6_range.
Qed.

(** ** Theorems *)
(** Inside the deployment, as far as a policy is concerned. *)
Definition off_limits (p : option Policy) (ip : Z) : bool :=
  within never_ranges ip || negb (privateAllowed p) && within private_ranges ip.

(** The dial-time judgement refuses exactly the published ranges: the
    unspecified addresses, link-local and multicast whatever the operator set,
    and loopback, RFC 1918, unique-local and RFC 6598 unless private
    destinations are allowed, in either family and in the mapped form. *)
Theorem refused_addresses_exact p ip : 0 ≤ ip < 2 ^ 128 → bool_decide (is_Some (refuseAddress p ip)) = off_limits p ip.
Proof.
  intros Hr. pose proof (link_local_multicast ip) as Hlm. unfold off_limits, refuseAddress. rewrite within_never, within_private.
  rewrite (multicast_range ip Hr) in *. rewrite unspecified_range, link_local_range, loopback_range, private_range by done.
  destruct (IsLinkLocalMulticast ip); [specialize (Hlm eq_refl)|clear Hlm]; destruct (is4 ip); try rewrite Hlm; destruct (privateAllowed p);
    repeat match goal with |- context [in4 ?b ?k ip] => destruct (in4 b k ip) | |- context [in6 ?b ?k ip] => destruct (in6 b k ip) end; reflexivity.
Qed.

Section follow.
Context `{URLParser}.
Implicit Types (p : option Policy) (r : Request) (t : list contact).

(** [LookupIP] answers with addresses. *)
Definition resolves (lookup : resolver) : Prop := ∀ h ips, lookup h = Some ips → Forall (λ ip, 0 ≤ ip < 2 ^ 128) ips.
Lemma DialContext_safe p lookup addr ip port : resolves lookup → DialContext p lookup addr = Ok (ip, port) → off_limits p ip = false.
Proof.
  intros Hl. unfold DialContext. destruct (SplitHostPort addr) as [[host port']|]; [|done].
  destruct (resolve_host lookup host) as [ips|] eqn:Er; [|done]. destruct (omap (refuseAddress p) ips) eqn:Eo; [|done].
  destruct ips as [|ip' ips]; [done|]. intros [= -> ->].
  assert (Hip : 0 ≤ ip < 2 ^ 128).
  { unfold resolve_host in Er. destruct (ParseIP host) as [x|] eqn:Ep; [injection Er as -> _; by eapply ParseIP_range|]. apply Hl in Er. by inversion Er. }
  rewrite <- refused_addresses_exact by done. cbn in Eo. by destruct (refuseAddress p ip).
Qed.
Lemma send_safe p lookup w r a resp : resolves lookup → send p lookup w r = (Some a, resp) → off_limits p a.1 = false.
Proof.
  intros Hl. unfold send. destruct (url_Parse _) as [u|]; [|done]. destruct (DialContext _ _ _) as [[ip port]|] eqn:E; [|done]. intros [= <- _].
  by eapply DialContext_safe.
Qed.

(** Where a request other than the first went. *)
Definition vouched_url p (issuer url : string) : Prop :=
  ∃ u, url_Parse url = Some u ∧
    (Scheme u = "https" ∨ Scheme u = "http" ∧ isLoopbackHost (Hostname u) = true) ∧
    isASCIIHost (Hostname u) = true ∧
    let host := ToLower (Hostname u) in
    isLoopbackHost host = true ∨ allows p host = true ∨ ∃ base, hostOf issuer = Some base ∧ (host = base ∨ ∃ sub, host = sub +:+ "." +:+ base).
Lemma HasSuffix_split s x : HasSuffix s x = true → ∃ pre, s = pre +:+ x.
Proof.
  induction s as [|c s IH]; cbn [HasSuffix]; rewrite orb_true_iff, bool_decide_eq_true.
  - intros [<-|?]; [by exists ""|done].
  - intros [<-|(pre & ->)%IH]; [by exists ""|by exists (String c pre)].
Qed.
Lemma hostOf_inv raw h : hostOf raw = Some h → ∃ u, url_Parse raw = Some u ∧ isASCIIHost (Hostname u) = true ∧ h = ToLower (Hostname u).
Proof.
  unfold hostOf. destruct (url_Parse raw) as [u|]; cbn; [|done]. destruct (decide _); [done|]. destruct (isASCIIHost _) eqn:E; cbn; [|done].
  intros [= <-]. eauto.
Qed.
Lemma CheckDerived_host p issuer url : CheckDerived p issuer url = true → ∃ host, hostOf url = Some host ∧
  (isLoopbackHost host = true ∨ allows p host = true ∨ ∃ base, hostOf issuer = Some base ∧ (host = base ∨ ∃ sub, host = sub +:+ "." +:+ base)).
Proof.
  unfold CheckDerived. destruct (hostOf url) as [host|]; [|done]. destruct (isLoopbackHost host) eqn:El; [eauto|].
  destruct (allows p host) eqn:Ea; [eauto|]. destruct (hostOf issuer) as [base|]; [|done].
  unfold underDomain. rewrite orb_true_iff, bool_decide_eq_true. intros [?|[pre ?]%HasSuffix_split]; eauto 10.
Qed.
Lemma CheckRedirect_vouches p issuer url : CheckRedirect p issuer url = true → vouched_url p issuer url.
Proof.
  unfold CheckRedirect. rewrite andb_true_iff. intros [Hf (host & (u & Eu & Ea & ->)%hostOf_inv & Hh)%CheckDerived_host].
  exists u. split; [done|]. split; [|split; [done|exact Hh]]. revert Hf. unfold FetchableEndpoint. rewrite Eu.
  destruct (decide (Host u = "")); [done|]. destruct (decide (Scheme u = "https")); [by left|].
  destruct (decide (Scheme u = "http")); [|done]. intros Hf. right. split; [done|exact Hf].
Qed.

Lemma follow_safe n p issuer lookup w r out t : resolves lookup → follow n p issuer lookup w r = (out, t) →
  (length t ≤ S n)%nat ∧ (∃ a rest, t = (a, r) :: rest ∧ Forall (λ c, vouched_url p issuer (rURL c.2)) rest) ∧
  Forall (λ c, ∀ a, c.1 = Some a → off_limits p a.1 = false) t.
Proof.
  intros Hl. revert r out t. induction n as [|n IH]; intros r out t; cbn [follow]; destruct (send p lookup w r) as [a resp] eqn:Es;
    assert (Ha : ∀ x, a = Some x → off_limits p x.1 = false) by (intros x ->; by eapply send_safe);
    (destruct resp as [x|]; [|intros [= <- <-]; split_and!; [cbn; lia|by exists a, []|by repeat constructor]]);
    (destruct (if redirects (rsStatus x) then rsLocation x else None) as [url|]; [|intros [= <- <-]; split_and!; [cbn; lia|by exists a, []|by repeat constructor]]).
  - intros [= <- <-]; split_and!; [cbn; lia|by exists a, []|by repeat constructor].
  - destruct (CheckRedirect p issuer url) eqn:Ec; [|intros [= <- <-]; split_and!; [cbn; lia|by exists a, []|by repeat constructor]].
    destruct (follow n _ _ _ _ _) as [out' t'] eqn:Ef. intros [= <- <-]. destruct (IH _ _ _ Ef) as (Hlen & (a' & rest & -> & Hrest) & Hoff).
    split_and!; [cbn in *; lia|exists a; eexists; split; [done|]; constructor; [|done]; by apply CheckRedirect_vouches|by constructor].
Qed.

(** A fetch under an issuer's policy ends after at most ten requests.  The
    first goes to the URL asked for; every later one is https (or plain http to
    the loopback interface) to a host that is loopback by name, listed by the
    operator, or the issuer's own domain on a label boundary; and no connection
    at all is opened to an address inside the deployment, whatever names
    resolve to and whatever the peers answer. *)
Theorem fetch_stays_outside p issuer lookup w r out t :
  resolves lookup → Fetch p issuer lookup w r = (out, t) →
  (length t ≤ 10)%nat ∧
  (∃ a rest, t = (a, r) :: rest ∧ Forall (λ c, vouched_url p issuer (rURL c.2)) rest) ∧
  Forall (λ c, ∀ a, c.1 = Some a → off_limits p a.1 = false) t.
Proof. apply follow_safe. Qed.
End follow.

(** ** An issuer that redirects *)
Module OutboundDemo.
Definition hosts : list (string * string) :=
  [("https://idp.test/token", "idp.test"); ("https://keys.idp.test/k", "keys.idp.test"); ("https://meta.idp.test/m", "meta.idp.test");
   ("https://evilidp.test/x", "evilidp.test"); ("https://idp.test", "idp.test")].
#[export] Instance parser : URLParser := {|
  url_Parse := λ s, match find (λ p, bool_decide (p.1 = s)) hosts with
                    | Some (_, h) => Some (mkURL "https" h h (h +:+ ":443"))
                    | None => None
                    end;
  set_query := λ u _, u |}.
Definition lookup : resolver := λ h,
  if decide (h = "meta.idp.test") then Some [v4mapped + 203 * 2 ^ 24 + 5; v4mapped + 169 * 2 ^ 24 + 254 * 2 ^ 16 + 169 * 2 ^ 8 + 254]
  else Some [v4mapped + 203 * 2 ^ 24 + 5].
(** The token endpoint sends the client to [next]; everything else answers. *)
Definition answers (next : string) : wire := λ _ r,
  if decide (rURL r = "https://idp.test/token") then Some (mkResponse 307 "" (Some next)) else Some (mkResponse 200 (rBody r) None).
Definition ask (next : string) := Fetch None "https://idp.test" lookup (answers next) (mkRequest "https://idp.test/token" "secret" "").
Lemma lookup_resolves : resolves lookup.
Proof. intros h ips. unfold lookup. case_decide; intros [= <-]; repeat constructor; unfold v4mapped; lia. Qed.

Lemma refused_addresses_exact_witness :
  refuseAddress (Some (NewPolicy [] true)) (v4mapped + 169 * 2 ^ 24 + 254 * 2 ^ 16) = Some LinkLocal ∧
  off_limits (Some (NewPolicy [] true)) (v4mapped + 169 * 2 ^ 24 + 254 * 2 ^ 16) = true.
Proof.
  split; [by vm_compute|].
  rewrite <- (refused_addresses_exact (Some (NewPolicy [] true)) (v4mapped + 169 * 2 ^ 24 + 254 * 2 ^ 16)); [by vm_compute|unfold v4mapped; lia].
Defined.
(** A subdomain of the issuer is followed with the body; a name that merely
    ends in the issuer's, or one that also resolves to the metadata address, is
    not. *)
Lemma fetch_stays_outside_witness :
  (ask "https://keys.idp.test/k").1 = Some (200, "secret") ∧ (ask "https://evilidp.test/x").1 = None ∧ (ask "https://meta.idp.test/m").1 = None ∧
  Forall (λ c, ∀ a, c.1 = Some a → off_limits None a.1 = false) (ask "https://keys.idp.test/k").2.
Proof.
  split; [by vm_compute|]. split; [by vm_compute|]. split; [by vm_compute|].
  destruct (ask "https://keys.idp.test/k") as [out t] eqn:E.
  destruct (fetch_stays_outside None "https://idp.test" lookup (answers "https://keys.idp.test/k") (mkRequest "https://idp.test/token" "secret" "") out t lookup_resolves E)
    as (_ & _ & Hoff). exact Hoff.
Defined.
End OutboundDemo.
