(* ===== verification/IpIntel.v ===== *)
(** * IpIntel: the table of address ranges

    Models internal/ipintel: the binary format with its reference encoder
    ([MarshalRanges]) and its decoder, the table behind its pointer, and the lookup by
    binary search ([sort.Search]).  Reads past the end of a slice are the
    outcome [None] of [decode], which never happens.  [slices.SortFunc] is a
    parameter that returns some sorted permutation, since it is not stable. *)
From stdpp Require Import list strings sorting.
From Stdlib Require Import Ascii Permutation.
From S2P Require Import Prelude GoStd Json Bytes Base64 NetIP Url ClientIP IPAccess Outbound.
Open Scope string_scope.
Open Scope Z_scope.

(** ** Little-endian integers *)
Fixpoint le_fill (n : nat) (z : Z) : string :=
  match n with O => "" | S n' => String (chr (z mod 256)) (le_fill n' (z / 256)) end.
Fixpoint le_value (s : string) : Z :=
  match s with "" => 0 | String c r => code c + 256 * le_value r end.
(** [blob[off : off+n]], in range or a panic. *)
Definition window (blob : string) (off n : nat) : option string :=
  if (off + n <=? String.length blob)%nat then Some (take_str n (drop_str off blob)) else None.
Definition uint_at (blob : string) (n off : nat) : option Z := le_value <$> window blob off n.

(** ** sort.Search: the smallest index in [i, j) that satisfies [f], else [j] *)
Fixpoint search_loop (fuel : nat) (f : nat → bool) (i j : nat) : nat :=
  match fuel with
  | O => i
  | S k => if (i <? j)%nat then
             let h := ((i + j) / 2)%nat in
             if f h then search_loop k f i h else search_loop k f (S h) j
           else i
  end.
(** Every round shortens the interval, so [n] rounds are enough. *)
Definition SearchFirst (n : nat) (f : nat → bool) : nat := search_loop n f 0 n.

(** ** Records *)
Record v4Range := mkV4 { v4start : Z; v4end : Z; v4cc : Z * Z; v4flags : Z }.
Record v6Range := mkV6 { startHi : Z; startLo : Z; endHi : Z; endLo : Z; v6cc : Z * Z; v6flags : Z }.
Record table_snapshot := mkSnapshot { snap4 : list v4Range; snap6 : list v6Range }.
Definition blobMagic : string := "V42I".
Definition headerLen : nat := 16.
Definition v4RecLen : nat := 11.
Definition v6RecLen : nat := 35.
Definition flagHosting : Z := 1.
Definition flagTor : Z := 2.
Inductive tableErr := ErrBadMagic | ErrBadVersion | ErrTruncated.

Definition cmpV4 (a b : v4Range) : Z := if v4start a <? v4start b then -1 else if v4start b <? v4start a then 1 else 0.
Definition cmpV6 (a b : v6Range) : Z :=
  if negb (startHi a =? startHi b) then (if startHi a <? startHi b then -1 else 1)
  else if startLo a <? startLo b then -1 else if startLo b <? startLo a then 1 else 0.
Definition less128 (aHi aLo bHi bLo : Z) : bool := if negb (aHi =? bHi) then aHi <? bHi else aLo <? bLo.

(** [slices.IsSortedFunc] *)
Fixpoint IsSortedFunc {A} (cmp : A → A → Z) (l : list A) : bool :=
  match l with
  | a :: (b :: _) as r => negb (cmp b a <? 0) && IsSortedFunc cmp r
  | _ => true
  end.
(** [slices.SortFunc], of which only this is promised. *)
Class Sorter := {
  SortFunc {A} (cmp : A → A → Z) : list A → list A;
}.
Class SorterLaws `{Sorter} := {
  SortFunc_perm {A} (cmp : A → A → Z) l : Permutation (SortFunc cmp l) l;
  (** for a strict weak order given by a key *)
  SortFunc_sorted {A} (cmp : A → A → Z) (key : A → Z) l :
    (∀ a b, In a l → In b l → (cmp a b <? 0) = (key a <? key b)) → IsSortedFunc cmp (SortFunc cmp l) = true;
}.

Section ipintel.
Context `{Sorter}.

(** ** Decoding *)
Definition read_v4 (blob : string) (off : nat) : option v4Range :=
  s ← uint_at blob 4 off; e ← uint_at blob 4 (off + 4);
  a ← uint_at blob 1 (off + 8); b ← uint_at blob 1 (off + 9); f ← uint_at blob 1 (off + 10);
  Some (mkV4 s e (a, b) f).
Definition read_v6 (blob : string) (off : nat) : option v6Range :=
  sh ← uint_at blob 8 off; sl ← uint_at blob 8 (off + 8); eh ← uint_at blob 8 (off + 16); el ← uint_at blob 8 (off + 24);
  a ← uint_at blob 1 (off + 32); b ← uint_at blob 1 (off + 33); f ← uint_at blob 1 (off + 34);
  Some (mkV6 sh sl eh el (a, b) f).
Fixpoint read_records {A} (read : nat → option A) (len n off : nat) : option (list A) :=
  match n with O => Some [] | S k => r ← read off; l ← read_records read len k (off + len); Some (r :: l) end.
Definition sort_once {A} (cmp : A → A → Z) (l : list A) : list A :=
  if IsSortedFunc cmp l then l else SortFunc cmp l.
Definition decode (blob : string) : option (res tableErr table_snapshot) :=
  if (String.length blob <? headerLen)%nat then Some (Err ErrTruncated)
  else
    m ← window blob 0 4;
    if negb (bool_decide (m = blobMagic)) then Some (Err ErrBadMagic)
    else
      v ← uint_at blob 1 4;
      if negb (v =? 1) then Some (Err ErrBadVersion)
      else
        v4n ← uint_at blob 4 8; v6n ← uint_at blob 4 12;
        if Z.of_nat (String.length blob) <? Z.of_nat headerLen + v4n * Z.of_nat v4RecLen + v6n * Z.of_nat v6RecLen then Some (Err ErrTruncated)
        else
          r4 ← read_records (read_v4 blob) v4RecLen (Z.to_nat v4n) headerLen;
          r6 ← read_records (read_v6 blob) v6RecLen (Z.to_nat v6n) (headerLen + Z.to_nat v4n * v4RecLen);
          Some (Ok (mkSnapshot (sort_once cmpV4 r4) (sort_once cmpV6 r6))).

(** ** Encoding *)
Record Range := mkRange { Lo : option Z; Hi : option Z; CC : string; Hosting : bool; Tor : bool }.
Definition up_letter (c : ascii) : option Z :=
  if (65 <=? code c) && (code c <=? 90) then Some (code c)
  else if (97 <=? code c) && (code c <=? 122) then Some (code c - 32) else None.
Definition encodeCC (cc : string) : Z * Z :=
  match cc with
  | String a (String b "") => match up_letter a, up_letter b with Some x, Some y => (x, y) | _, _ => (0, 0) end
  | _ => (0, 0)
  end.
Definition flagsFor (hosting tor : bool) : Z := Z.lor (if hosting then flagHosting else 0) (if tor then flagTor else 0).
Definition beU32 (ip : Z) : Z := ip mod 2 ^ 32.
Definition as128 (ip : Z) : Z * Z := (ip / 2 ^ 64, ip mod 2 ^ 64).
(** A range of one family, its ends in order. *)
Definition v4_of (r : Range) : option v4Range :=
  lo ← Lo r; hi ← Hi r;
  if is4 lo && is4 hi then
    if beU32 hi <? beU32 lo then None else Some (mkV4 (beU32 lo) (beU32 hi) (encodeCC (CC r)) (flagsFor (Hosting r) (Tor r)))
  else None.
Definition v6_of (r : Range) : option v6Range :=
  lo ← Lo r; hi ← Hi r;
  if is4 lo || is4 hi then None
  else
    let '(sh, sl) := as128 lo in let '(eh, el) := as128 hi in
    if less128 eh el sh sl then None else Some (mkV6 sh sl eh el (encodeCC (CC r)) (flagsFor (Hosting r) (Tor r))).
Definition put_v4 (r : v4Range) : string :=
  le_fill 4 (v4start r) +:+ le_fill 4 (v4end r) +:+ le_fill 1 (v4cc r).1 +:+ le_fill 1 (v4cc r).2 +:+ le_fill 1 (v4flags r).
Definition put_v6 (r : v6Range) : string :=
  le_fill 8 (startHi r) +:+ le_fill 8 (startLo r) +:+ le_fill 8 (endHi r) +:+ le_fill 8 (endLo r) +:+
  le_fill 1 (v6cc r).1 +:+ le_fill 1 (v6cc r).2 +:+ le_fill 1 (v6flags r).
Definition put_all {A} (put : A → string) (l : list A) : string := foldr (λ r s, put r +:+ s) "" l.
Definition MarshalRanges (ranges : list Range) : string :=
  let v4 := SortFunc cmpV4 (omap v4_of ranges) in
  let v6 := SortFunc cmpV6 (omap v6_of ranges) in
  blobMagic +:+ le_fill 1 1 +:+ le_fill 3 0 +:+ le_fill 4 (Z.of_nat (length v4)) +:+ le_fill 4 (Z.of_nat (length v6)) +:+
  put_all put_v4 v4 +:+ put_all put_v6 v6.

(** ** The table and its lookups *)
Record Info := mkInfo { CountryCode : string; IsVPN : bool; IsHosting : bool; IsTor : bool; IsAnonymous : bool }.
Definition no_info : Info := mkInfo "" false false false false.
Definition infoFrom (cc : Z * Z) (flags : Z) : Info :=
  let host := negb (Z.land flags flagHosting =? 0) in
  let tor := negb (Z.land flags flagTor =? 0) in
  mkInfo (if negb (cc.1 =? 0) && negb (cc.2 =? 0) then String (chr cc.1) (String (chr cc.2) "") else "") false host tor (tor || host || false).

Definition lookupV4 (s : table_snapshot) (ip : Z) : Info :=
  let r := snap4 s in
  let i := SearchFirst (length r) (λ i, match r !! i with Some e => ip <? v4start e | None => false end) in
  match i with
  | O => no_info
  | S k => match r !! k with
           | Some e => if ip <=? v4end e then infoFrom (v4cc e) (v4flags e) else no_info
           | None => no_info
           end
  end.
Definition lookupV6 (s : table_snapshot) (hi lo : Z) : Info :=
  let r := snap6 s in
  let i := SearchFirst (length r) (λ i, match r !! i with Some e => less128 hi lo (startHi e) (startLo e) | None => false end) in
  match i with
  | O => no_info
  | S k => match r !! k with
           | Some e => if negb (less128 (endHi e) (endLo e) hi lo) then infoFrom (v6cc e) (v6flags e) else no_info
           | None => no_info
           end
  end.
(** Addresses that are not global: never looked up. *)
Definition not_global (ip : Z) : bool :=
  IsLoopback ip || IsPrivate ip || IsUnspecified ip || IsLinkLocalUnicast ip || IsLinkLocalMulticast ip || IsMulticast ip.
(** The table behind the pointer; [None] for a nil one. *)
Definition IntelDB : Type := option table_snapshot.
Definition NewEmpty : IntelDB := Some (mkSnapshot [] []).
Definition Lookup (d : IntelDB) (ip : option Z) : Info :=
  match ip with
  | None => no_info
  | Some ip =>
      if not_global ip then no_info
      else match d with
           | None => no_info
           | Some s => if is4 ip then lookupV4 s (beU32 ip) else let '(hi, lo) := as128 ip in lookupV6 s hi lo
           end
  end.
(** [netip.ParseAddr]: an IPv6 address may name a zone, which the lookup ignores. *)
Definition ParseAddr (s : string) : option Z :=
  match first_of s with
  | Some 46 => (λ v, v4mapped + v) <$> parseIPv4 s
  | Some 58 => match Cut 37 s with
               | Some (a, zone) => if decide (zone = "") then None else parseIPv6 a
               | None => parseIPv6 s
               end
  | _ => None
  end.
Definition LookupString (d : IntelDB) (s : string) : Info := Lookup d (ParseAddr (TrimSpace s)).
Definition LoadBlob (blob : string) : option (res tableErr IntelDB) :=
  r ← decode blob; Some (match r with Ok s => Ok (Some s) | Err e => Err e end).
Definition Reload (d : IntelDB) (blob : string) : option (res tableErr unit * IntelDB) :=
  r ← decode blob; Some (match r with Ok s => (Ok tt, Some s) | Err e => (Err e, d) end).
(** [Default]: the override when it is readable and decodes, else what is embedded. *)
Definition Default (override : option string) (embedded : string) : option (res tableErr IntelDB) :=
  let fallback := if decide (embedded = "") then Some (Ok NewEmpty) else LoadBlob embedded in
  match override with
  | Some data => r ← LoadBlob data; match r with Ok d => Some (Ok d) | Err _ => fallback end
  | None => fallback
  end.
End ipintel.

(** * Facts *)
(** ** Reading what was written *)
Lemma le_fill_length n z : String.length (le_fill n z) = n.
Proof. revert z. induction n as [|n IH]; intros z; [done|]. cbn. by rewrite IH. Qed.
Lemma le_value_fill n z : 0 ≤ z < 256 ^ Z.of_nat n → le_value (le_fill n z) = z.
Proof.
  revert z. induction n as [|n IH]; intros z Hz; [cbn in *; lia|]. cbn [le_fill le_value]. rewrite Nat2Z.inj_succ, Z.pow_succ_r in Hz by lia.
  rewrite code_chr by divmod. rewrite IH; [divmod|]. set (p := 256 ^ Z.of_nat n) in *. divmod.
Qed.
Lemma le_value_range s : 0 ≤ le_value s < 256 ^ Z.of_nat (String.length s).
Proof.
  induction s as [|c s IH]; [cbn; lia|]. pose proof (code_range c). cbn [le_value String.length]. rewrite Nat2Z.inj_succ, Z.pow_succ_r by lia. lia.
Qed.
Lemma drop_str_add a b s : drop_str (a + b) s = drop_str b (drop_str a s).
Proof. revert s. induction a as [|a IH]; intros [|c s]; cbn; try done. by destruct b. Qed.
Lemma drop_str_len n s : String.length (drop_str n s) = (String.length s - n)%nat.
Proof. revert s. induction n as [|n IH]; intros [|c s]; try done. cbn. by rewrite IH. Qed.
Lemma window_some blob off n : (off + n ≤ String.length blob)%nat → ∃ s, window blob off n = Some s ∧ String.length s = n.
Proof.
  intros Hn. unfold window. rewrite (proj2 (Nat.leb_le _ _) Hn). eexists. split; [done|].
  assert (Hd : (n ≤ String.length (drop_str off blob))%nat) by (rewrite drop_str_len; lia).
  revert Hd. generalize (drop_str off blob). clear. induction n as [|n IH]; intros [|c s] Hd; cbn in *; try done; [lia|]. by rewrite IH by lia.
Qed.
Lemma uint_at_some blob n off : (off + n ≤ String.length blob)%nat → ∃ z, uint_at blob n off = Some z ∧ 0 ≤ z < 256 ^ Z.of_nat n.
Proof. intros Hn. destruct (window_some blob off n Hn) as (s & Hs & <-). unfold uint_at. rewrite Hs. eexists. split; [done|apply le_value_range]. Qed.
(** A field at the cursor, and the cursor behind it. *)
Lemma uint_at_next blob n off z post : (0 < n)%nat → 0 ≤ z < 256 ^ Z.of_nat n → drop_str off blob = le_fill n z +:+ post →
  uint_at blob n off = Some z ∧ drop_str (off + n) blob = post.
Proof.
  intros Hn Hz Hd. destruct (take_drop_app (le_fill n z) post n (le_fill_length n z)) as [Ht Hr].
  split; [|by rewrite drop_str_add, Hd]. unfold uint_at, window.
  assert (Hl : String.length (drop_str off blob) = (n + String.length post)%nat) by (by rewrite Hd, string_app_length, le_fill_length).
  rewrite drop_str_len in Hl. rewrite (proj2 (Nat.leb_le _ _)) by lia. cbn. by rewrite Hd, Ht, le_value_fill.
Qed.

Definition byte_pair (cc : Z * Z) : Prop := 0 ≤ cc.1 < 256 ∧ 0 ≤ cc.2 < 256.
Definition fits4 (r : v4Range) : Prop := 0 ≤ v4start r < 2 ^ 32 ∧ 0 ≤ v4end r < 2 ^ 32 ∧ byte_pair (v4cc r) ∧ 0 ≤ v4flags r < 256.
Definition fits6 (r : v6Range) : Prop :=
  (0 ≤ startHi r < 2 ^ 64 ∧ 0 ≤ startLo r < 2 ^ 64) ∧ (0 ≤ endHi r < 2 ^ 64 ∧ 0 ≤ endLo r < 2 ^ 64) ∧ byte_pair (v6cc r) ∧ 0 ≤ v6flags r < 256.
(** One field of a record: read it and move on. *)
Ltac field H :=
  match goal with |- context [uint_at _ _ ?o] => match type of H with drop_str ?o' _ = _ => replace o' with o in H by lia end end;
  rewrite ?string_app_assoc in H; eapply uint_at_next in H as [-> H]; [|lia|cbn; lia]; cbn [mbind option_bind].
Lemma read_v4_next blob off r post : fits4 r → drop_str off blob = put_v4 r +:+ post →
  read_v4 blob off = Some r ∧ drop_str (off + v4RecLen) blob = post.
Proof.
  intros (Hs & He & [Ha Hb] & Hf) Hd. unfold put_v4 in Hd. unfold read_v4, v4RecLen. destruct r as [s e [a b] f]; cbn [v4start v4end v4cc v4flags fst snd] in *.
  do 5 field Hd. rewrite <- Hd. split; [done|f_equal; lia].
Qed.
Lemma read_v6_next blob off r post : fits6 r → drop_str off blob = put_v6 r +:+ post →
  read_v6 blob off = Some r ∧ drop_str (off + v6RecLen) blob = post.
Proof.
  intros ([Hs Hs'] & [He He'] & [Ha Hb] & Hf) Hd. unfold put_v6 in Hd. unfold read_v6, v6RecLen. destruct r as [sh sl eh el [a b] f]; cbn [startHi startLo endHi endLo v6cc v6flags fst snd] in *.
  do 7 field Hd. rewrite <- Hd. split; [done|f_equal; lia].
Qed.
Lemma records_next {A} (read : nat → option A) (put : A → string) (fits : A → Prop) len blob l off post :
  (∀ r off post, fits r → drop_str off blob = put r +:+ post → read off = Some r ∧ drop_str (off + len) blob = post) →
  Forall fits l → drop_str off blob = put_all put l +:+ post →
  read_records read len (length l) off = Some l ∧ drop_str (off + length l * len) blob = post.
Proof.
  intros Hread Hl. revert off. induction Hl as [|r l Hr Hl IH]; intros off Hd.
  - cbn in *. split; [done|]. by rewrite Nat.add_0_r, Hd.
  - cbn [put_all foldr] in Hd. rewrite string_app_assoc in Hd. destruct (Hread _ _ _ Hr Hd) as [Hr1 Hr2].
    destruct (IH _ Hr2) as [Hl1 Hl2]. cbn [read_records length]. rewrite Hr1. cbn [mbind option_bind]. rewrite Hl1. split; [done|].
    rewrite <- Hl2. f_equal. lia.
Qed.
Lemma records_some {A} (read : nat → option A) (fits : A → Prop) len size n off :
  (∀ off, (off + len ≤ size)%nat → ∃ r, read off = Some r ∧ fits r) → (off + n * len ≤ size)%nat →
  ∃ l, read_records read len n off = Some l ∧ length l = n ∧ Forall fits l.
Proof.
  intros Hread. revert off. induction n as [|n IH]; intros off Hn; [by exists []|].
  destruct (Hread off ltac:(lia)) as (r & Hr & Hf). destruct (IH (off + len)%nat ltac:(lia)) as (l & Hl & Hlen & Hall).
  exists (r :: l). cbn [read_records]. rewrite Hr. cbn [mbind option_bind]. rewrite Hl. split_and!; [done|cbn; lia|by constructor].
Qed.
Ltac in_range :=
  match goal with |- context [uint_at ?b ?n ?o] => let z := fresh "z" in let E := fresh "E" in let Hz := fresh "Hz" in
    destruct (uint_at_some b n o) as (z & E & Hz); [lia|]; rewrite E; cbn [mbind option_bind]; cbn in Hz end.
Lemma read_v4_some blob off : (off + v4RecLen ≤ String.length blob)%nat → ∃ r, read_v4 blob off = Some r ∧ fits4 r.
Proof. unfold v4RecLen. intros Hn. unfold read_v4. do 5 in_range. eexists. split; [done|]. unfold fits4, fits6, byte_pair. cbn. lia. Qed.
Lemma read_v6_some blob off : (off + v6RecLen ≤ String.length blob)%nat → ∃ r, read_v6 blob off = Some r ∧ fits6 r.
Proof. unfold v6RecLen. intros Hn. unfold read_v6. do 7 in_range. eexists. split; [done|]. unfold fits4, fits6, byte_pair. cbn. lia. Qed.

(** ** Order *)
Definition key4 : v4Range → Z := v4start.
Definition key6 (r : v6Range) : Z := startHi r * 2 ^ 64 + startLo r.
Lemma less128_key a b c d : 0 ≤ b < 2 ^ 64 → 0 ≤ d < 2 ^ 64 → less128 a b c d = (a * 2 ^ 64 + b <? c * 2 ^ 64 + d).
Proof.
  intros Hb Hd. unfold less128. destruct (Z.eqb_spec a c) as [->|Hac]; cbn [negb].
  - destruct (Z.ltb_spec b d), (Z.ltb_spec (c * 2 ^ 64 + b) (c * 2 ^ 64 + d)); lia.
  - destruct (Z.ltb_spec a c), (Z.ltb_spec (a * 2 ^ 64 + b) (c * 2 ^ 64 + d)); lia.
Qed.
Lemma cmpV4_key a b : (cmpV4 a b <? 0) = (key4 a <? key4 b).
Proof. unfold cmpV4, key4. destruct (Z.ltb_spec (v4start a) (v4start b)); [done|]. by destruct (v4start b <? v4start a). Qed.
Lemma cmpV6_key a b : fits6 a → fits6 b → (cmpV6 a b <? 0) = (key6 a <? key6 b).
Proof.
  intros ([? ?] & _) ([? ?] & _). unfold key6. rewrite <- less128_key by done. unfold cmpV6, less128.
  destruct (Z.eqb_spec (startHi a) (startHi b)); cbn [negb].
  - destruct (Z.ltb_spec (startLo a) (startLo b)); [done|]. by destruct (startLo b <? startLo a).
  - by destruct (startHi a <? startHi b).
Qed.
(** Keys in ascending order. *)
Definition ascending {A} (key : A → Z) (l : list A) : Prop := ∀ i j a b, (i < j)%nat → l !! i = Some a → l !! j = Some b → key a ≤ key b.
Lemma sorted_ascending {A} (cmp : A → A → Z) key (l : list A) :
  (∀ a b, In a l → In b l → (cmp a b <? 0) = (key a <? key b)) → IsSortedFunc cmp l = true → ascending key l.
Proof.
  induction l as [|x l IH]; intros Hc Hs i j a b Hij Ha Hb; [done|]. destruct j as [|j]; [lia|]. cbn in Hb.
  assert (Hl : IsSortedFunc cmp l = true) by (destruct l; [done|]; by apply andb_true_iff in Hs as [_ Hs]).
  assert (IH' := IH (λ a b Ha Hb, Hc a b (or_intror Ha) (or_intror Hb)) Hl). destruct i as [|i]; [|apply (IH' i j a b); [lia|done|done]].
  cbn in Ha. injection Ha as <-. destruct l as [|y l]; [done|]. cbn [IsSortedFunc] in Hs. apply andb_true_iff in Hs as [Hs _].
  rewrite Hc in Hs by (cbn; auto). apply negb_true_iff, Z.ltb_ge in Hs.
  destruct j as [|j]; [cbn in Hb; by injection Hb as <-|]. transitivity (key y); [done|]. apply (IH' 0%nat (S j) y b); [lia|done|done].
Qed.
Section sorting.
Context `{SorterLaws}.
Lemma sort_once_spec {A} (cmp : A → A → Z) key (l : list A) :
  (∀ a b, In a l → In b l → (cmp a b <? 0) = (key a <? key b)) → Permutation (sort_once cmp l) l ∧ ascending key (sort_once cmp l).
Proof.
  intros Hc. unfold sort_once. destruct (IsSortedFunc cmp l) eqn:E; [split; [done|by apply (sorted_ascending cmp)]|].
  split; [apply SortFunc_perm|]. apply (sorted_ascending cmp); [|by apply (SortFunc_sorted cmp key)].
  intros a b Ha Hb. apply Hc; by eapply Permutation_in; [apply SortFunc_perm|].
Qed.
End sorting.

(** ** The search *)
Lemma search_loop_ok fuel f i j : (j - i ≤ fuel)%nat → (i ≤ j)%nat → (∀ a b, (i ≤ a)%nat → (a ≤ b < j)%nat → f a = true → f b = true) →
  let r := search_loop fuel f i j in (i ≤ r ≤ j)%nat ∧ (∀ k, (i ≤ k < r)%nat → f k = false) ∧ (∀ k, (r ≤ k < j)%nat → f k = true).
Proof.
  revert i j. induction fuel as [|fuel IH]; intros i j Hf Hij Hm r; subst r; cbn [search_loop]; [by split_and!; intros; lia|].
  destruct (Nat.ltb_spec i j); [|by split_and!; intros; lia].
  assert (Hh : (i ≤ (i + j) / 2 < j)%nat) by (split; [apply Nat.div_le_lower_bound|apply Nat.Div0.div_lt_upper_bound]; lia).
  cbv zeta.
  set (h := ((i + j) / 2)%nat) in *. destruct (f h) eqn:Eh.
  - destruct (IH i h) as (Hr & Hlo & Hhi); [lia|lia|intros a b ? ?; apply Hm; lia|]. split_and!; [lia..|done|].
    intros k Hk. destruct (Nat.lt_ge_cases k h); [apply Hhi; lia|]. apply (Hm h k); [lia|lia|done].
  - destruct (IH (S h) j) as (Hr & Hlo & Hhi); [lia|lia|intros a b ? ?; apply Hm; lia|]. split_and!; [lia..| |intros k Hk; apply Hhi; lia].
    intros k Hk. destruct (Nat.lt_ge_cases h k); [apply Hlo; lia|]. destruct (f k) eqn:Ek; [|done]. rewrite (Hm k h) in Eh; [done|lia|lia|done].
Qed.
Definition entry_key {A} (key : A → Z) (l : list A) (i : nat) : option Z := key <$> l !! i.
Definition after {A} (key : A → Z) (l : list A) (ip : Z) (i : nat) : bool := match l !! i with Some e => ip <? key e | None => false end.
(** The last entry that starts at or before [ip] is the one before the answer. *)
Lemma search_key {A} (key : A → Z) l ip : ascending key l →
  let r := SearchFirst (length l) (after key l ip) in
  (∀ k e, (k < r)%nat → l !! k = Some e → key e ≤ ip) ∧ (∀ k e, (r ≤ k)%nat → l !! k = Some e → ip < key e) ∧ (r ≤ length l)%nat.
Proof.
  intros Ha r. assert (Hm : ∀ a b, (0 ≤ a)%nat → (a ≤ b < length l)%nat → after key l ip a = true → after key l ip b = true).
  { intros a b _ [Hab Hb]. unfold after. destruct (l !! a) as [x|] eqn:Ex; [|done]. destruct (lookup_lt_is_Some_2 l b Hb) as [y Ey]. rewrite Ey.
    destruct (Nat.eq_dec a b) as [->|]; [by simplify_eq|]. specialize (Ha a b x y ltac:(lia) Ex Ey). rewrite !Z.ltb_lt. lia. }
  destruct (search_loop_ok (length l) (after key l ip) 0 (length l) ltac:(lia) ltac:(lia) Hm) as (Hr & Hlo & Hhi). fold (SearchFirst (length l) (after key l ip)) in *. fold r in Hr, Hlo, Hhi.
  split_and!; [| |lia].
  - intros k e Hk Ek. specialize (Hlo k ltac:(lia)). unfold after in Hlo. rewrite Ek in Hlo. by apply Z.ltb_ge in Hlo.
  - intros k e Hk Ek. pose proof (lookup_lt_Some _ _ _ Ek). specialize (Hhi k ltac:(lia)). unfold after in Hhi. rewrite Ek in Hhi. by apply Z.ltb_lt in Hhi.
Qed.

(** Binary search by key, in the shape both lookups have, against a scan. *)
Definition by_search {A B} (key last : A → Z) (f : A → B) (none : B) (l : list A) (ip : Z) : B :=
  match SearchFirst (length l) (after key l ip) with
  | O => none
  | S k => match l !! k with Some e => if ip <=? last e then f e else none | None => none end
  end.
Definition in_entry {A} (key last : A → Z) (ip : Z) (e : A) : bool := (key e <=? ip) && (ip <=? last e).
Definition by_scan {A B} (key last : A → Z) (f : A → B) (none : B) (l : list A) (ip : Z) : B :=
  match find (in_entry key last ip) l with Some e => f e | None => none end.
(** No address of [D] is in two entries. *)
Definition apart {A} (D : Z → Prop) (key last : A → Z) (l : list A) : Prop :=
  ∀ i j a b ip, D ip → l !! i = Some a → l !! j = Some b → in_entry key last ip a = true → in_entry key last ip b = true → i = j.
Lemma scan_hit {A B} D key last (f : A → B) none l ip i e :
  apart D key last l → D ip → l !! i = Some e → in_entry key last ip e = true → by_scan key last f none l ip = f e.
Proof.
  intros Ha HD Hi He. unfold by_scan. destruct (find _ l) as [e'|] eqn:Ef.
  - apply find_some in Ef as [Hin He']. apply list_elem_of_In, list_elem_of_lookup in Hin as [j Hj]. rewrite (Ha i j e e' ip) in Hi by done. by simplify_eq.
  - exfalso. apply list_elem_of_lookup_2, list_elem_of_In in Hi. by rewrite (find_none _ _ Ef _ Hi) in He.
Qed.
Lemma search_is_scan {A B} D key last (f : A → B) none l ip :
  ascending key l → (∀ e, In e l → D (key e) ∧ key e ≤ last e) → apart D key last l → D ip → by_search key last f none l ip = by_scan key last f none l ip.
Proof.
  intros Ha Hw Hd HD. destruct (search_key key l ip Ha) as (Hlo & Hhi & Hlen). unfold by_search.
  assert (Hnone : (∀ i e, l !! i = Some e → in_entry key last ip e = false) → by_scan key last f none l ip = none).
  { intros Hn. unfold by_scan. destruct (find _ l) as [e|] eqn:Ef; [|done]. apply find_some in Ef as [Hin He]. apply list_elem_of_In, list_elem_of_lookup in Hin as [j Hj]. by rewrite (Hn j e Hj) in He. }
  assert (Hpast : ∀ i e, (SearchFirst (length l) (after key l ip) ≤ i)%nat → l !! i = Some e → in_entry key last ip e = false).
  { intros i e Hi Ei. specialize (Hhi i e Hi Ei). unfold in_entry. destruct (Z.leb_spec (key e) ip); [lia|done]. }
  destruct (SearchFirst _ _) as [|k] eqn:Es; [symmetry; apply Hnone; intros i e; apply Hpast; lia|].
  destruct (lookup_lt_is_Some_2 l k ltac:(lia)) as [e Ee]. rewrite Ee. specialize (Hlo k e ltac:(lia) Ee) as Hk.
  destruct (Z.leb_spec ip (last e)) as [Hin|Hout].
  - symmetry. apply (scan_hit D key last f none l ip k e Hd HD Ee). unfold in_entry. rewrite !(proj2 (Z.leb_le _ _)) by done. done.
  - symmetry. apply Hnone. intros i x Ex. destruct (Nat.lt_ge_cases k i) as [|Hik]; [apply (Hpast i x); [lia|done]|].
    destruct (in_entry key last ip x) eqn:Ei; [|done]. exfalso. unfold in_entry in Ei. apply andb_true_iff in Ei as [Hx1%Z.leb_le Hx2%Z.leb_le].
    destruct (Nat.eq_dec i k) as [->|]; [simplify_eq; lia|]. specialize (Ha i k x e ltac:(lia) Ex Ee).
    destruct (Hw e) as [HDe Hwe]; [by eapply list_elem_of_In, list_elem_of_lookup_2|].
    assert (Heq : i = k); [|lia]. apply (Hd i k x e (key e) HDe Ex Ee); unfold in_entry; rewrite !(proj2 (Z.leb_le _ _)); done || lia.
Qed.

(** ** Scans do not depend on the order *)
Definition at_most_one {A} (p : A → bool) (l : list A) : Prop := (length (List.filter p l) ≤ 1)%nat.
Lemma filter_perm {A} (p : A → bool) l l' : Permutation l l' → Permutation (List.filter p l) (List.filter p l').
Proof.
  induction 1 as [|x l l' _ IH|x y l|l1 l2 l3 _ IH1 _ IH2]; cbn; [done|destruct (p x); [by constructor|done]| |by etransitivity].
  destruct (p x), (p y); try done. apply perm_swap.
Qed.
Lemma at_most_one_perm {A} (p : A → bool) l l' : Permutation l l' → at_most_one p l → at_most_one p l'.
Proof. intros Hp. unfold at_most_one. by rewrite (Permutation_length (filter_perm p l l' Hp)). Qed.
Lemma filter_lookup {A} (p : A → bool) l i a : l !! i = Some a → p a = true → (1 ≤ length (List.filter p l))%nat.
Proof. revert i. induction l as [|x l IH]; intros [|i] Hl Hp; try done; cbn in *; [simplify_eq; rewrite Hp; cbn; lia|]. specialize (IH i Hl Hp). destruct (p x); cbn; lia. Qed.
Lemma at_most_one_index {A} (p : A → bool) l i j a b :
  at_most_one p l → l !! i = Some a → l !! j = Some b → p a = true → p b = true → i = j.
Proof.
  unfold at_most_one. revert i j. induction l as [|x l IH]; intros i j Hl Hi Hj Ha Hb; [done|]. cbn in Hl.
  destruct i as [|i], j as [|j]; cbn in Hi, Hj; simplify_eq; [done| | |].
  - rewrite Ha in Hl. cbn in Hl. pose proof (filter_lookup p l j b Hj Hb). lia.
  - rewrite Hb in Hl. cbn in Hl. pose proof (filter_lookup p l i a Hi Ha). lia.
  - f_equal. apply IH; try done. destruct (p x); cbn in Hl; lia.
Qed.
Lemma find_perm {A} (p : A → bool) l l' : Permutation l l' → at_most_one p l → find p l = find p l'.
Proof.
  intros Hp H1. pose proof (at_most_one_perm p l l' Hp H1) as H1'. destruct (find p l) as [a|] eqn:Ea, (find p l') as [b|] eqn:Eb; try done.
  - apply find_some in Ea as [Ha Hpa], Eb as [Hb Hpb]. apply (Permutation_in _ (Permutation_sym Hp)) in Hb.
    apply list_elem_of_In, list_elem_of_lookup in Ha as [i Hi], Hb as [j Hj]. rewrite (at_most_one_index p l i j a b H1 Hi Hj Hpa Hpb) in Hi. congruence.
  - apply find_some in Ea as [Ha Hpa]. by rewrite (find_none _ _ Eb a (Permutation_in _ Hp Ha)) in Hpa.
  - apply find_some in Eb as [Hb Hpb]. by rewrite (find_none _ _ Ea b (Permutation_in _ (Permutation_sym Hp) Hb)) in Hpb.
Qed.
Section through.
Context {A B : Type} (g : A → option B) (p : B → bool) (q : A → bool).
Definition sees (r : A) : Prop := q r = match g r with Some e => p e | None => false end.
Lemma filter_omap l : Forall sees l → length (List.filter p (omap g l)) = length (List.filter q l).
Proof. induction 1 as [|r l Hr _ IH]; [done|]. cbn. rewrite Hr. destruct (g r) as [e|]; [|done]. cbn. destruct (p e); cbn; by rewrite IH. Qed.
Lemma find_omap l : Forall sees l → find p (omap g l) = find q l ≫= g.
Proof. induction 1 as [|r l Hr _ IH]; [done|]. cbn. rewrite Hr. destruct (g r) as [e|] eqn:Eg; [|done]. cbn. destruct (p e); cbn; [by rewrite Eg|done]. Qed.
End through.

(** ** Both lookups are scans *)
Definition last6 (r : v6Range) : Z := endHi r * 2 ^ 64 + endLo r.
Definition info4 (e : v4Range) : Info := infoFrom (v4cc e) (v4flags e).
Definition info6 (e : v6Range) : Info := infoFrom (v6cc e) (v6flags e).
Lemma search_loop_ext fuel f g i j : (∀ k, f k = g k) → search_loop fuel f i j = search_loop fuel g i j.
Proof. intros Hfg. revert i j. induction fuel as [|n IH]; intros i j; cbn [search_loop]; [done|]. destruct (i <? j)%nat; [|done]. cbv zeta. rewrite Hfg. by destruct (g _); apply IH. Qed.
Lemma apart_of {A} (D : Z → Prop) key last (l : list A) : (∀ ip, D ip → at_most_one (in_entry key last ip) l) → apart D key last l.
Proof. intros H1 i j a b ip HD Hi Hj. exact (at_most_one_index _ l i j a b (H1 ip HD) Hi Hj). Qed.
Lemma lookupV4_scan (D : Z → Prop) s ip : D ip → ascending key4 (snap4 s) → (∀ e, In e (snap4 s) → D (v4start e) ∧ v4start e ≤ v4end e) →
  (∀ x, D x → at_most_one (in_entry v4start v4end x) (snap4 s)) → lookupV4 s ip = by_scan v4start v4end info4 no_info (snap4 s) ip.
Proof. intros HD Ha Hw H1. rewrite <- (search_is_scan D); [done|done|done|by apply apart_of|done]. Qed.
Lemma lookupV6_scan (D : Z → Prop) s hi lo : D (hi * 2 ^ 64 + lo) → Forall fits6 (snap6 s) → 0 ≤ lo < 2 ^ 64 → ascending key6 (snap6 s) →
  (∀ e, In e (snap6 s) → D (key6 e) ∧ key6 e ≤ last6 e) → (∀ x, D x → at_most_one (in_entry key6 last6 x) (snap6 s)) → lookupV6 s hi lo = by_scan key6 last6 info6 no_info (snap6 s) (hi * 2 ^ 64 + lo).
Proof.
  intros HD Hf Hlo Ha Hw H1. rewrite <- (search_is_scan D); [|done|done|by apply apart_of|done]. unfold lookupV6, by_search, SearchFirst.
  assert (Hfit : ∀ i e, snap6 s !! i = Some e → fits6 e) by (intros i e He; by eapply Forall_lookup_1).
  rewrite (search_loop_ext _ _ (after key6 (snap6 s) (hi * 2 ^ 64 + lo))).
  2: { intros k. unfold after. destruct (snap6 s !! k) as [e|] eqn:Ee; [|done]. destruct (Hfit k e Ee) as ([? ?] & _). by apply less128_key. }
  destruct (search_loop _ _ _ _) as [|k]; [done|]. destruct (snap6 s !! k) as [e|] eqn:Ee; [|done].
  destruct (Hfit k e Ee) as (_ & [? ?] & _). rewrite less128_key by done. fold (last6 e).
  by destruct (Z.ltb_spec (last6 e) (hi * 2 ^ 64 + lo)), (Z.leb_spec (hi * 2 ^ 64 + lo) (last6 e)); try lia.
Qed.

Section table.
Context `{SorterLaws}.

(** No blob, however corrupt, makes the decoder read past its end; what it
    accepts is sorted for the search, of the declared size, within the blob. *)
Theorem decode_is_total blob :
  ∃ r, decode blob = Some r ∧
    match r with
    | Ok s => ascending key4 (snap4 s) ∧ ascending key6 (snap6 s) ∧ Forall fits4 (snap4 s) ∧ Forall fits6 (snap6 s) ∧
              (headerLen + length (snap4 s) * v4RecLen + length (snap6 s) * v6RecLen ≤ String.length blob)%nat
    | Err _ => True
    end.
Proof.
  unfold decode. destruct (Nat.ltb_spec (String.length blob) headerLen) as [|Hlen]; [by eexists|]. unfold headerLen in *.
  destruct (window_some blob 0 4 ltac:(lia)) as (m & -> & _). cbn [mbind option_bind]. destruct (negb _); [by eexists|].
  destruct (uint_at_some blob 1 4 ltac:(lia)) as (v & -> & _). cbn [mbind option_bind]. destruct (negb _); [by eexists|].
  destruct (uint_at_some blob 4 8 ltac:(lia)) as (n4 & -> & H4). cbn [mbind option_bind]. destruct (uint_at_some blob 4 12 ltac:(lia)) as (n6 & -> & H6). cbn [mbind option_bind].
  destruct (Z.ltb_spec (Z.of_nat (String.length blob)) (Z.of_nat 16 + n4 * Z.of_nat v4RecLen + n6 * Z.of_nat v6RecLen)) as [|Hw]; [by eexists|].
  assert (Hn : (16 + Z.to_nat n4 * v4RecLen + Z.to_nat n6 * v6RecLen ≤ String.length blob)%nat) by (unfold v4RecLen, v6RecLen in *; lia).
  destruct (records_some (read_v4 blob) fits4 v4RecLen (String.length blob) (Z.to_nat n4) 16) as (l4 & -> & L4 & F4); [intros; by apply read_v4_some|lia|]. cbn [mbind option_bind].
  destruct (records_some (read_v6 blob) fits6 v6RecLen (String.length blob) (Z.to_nat n6) (16 + Z.to_nat n4 * v4RecLen)) as (l6 & -> & L6 & F6); [intros; by apply read_v6_some|lia|]. cbn [mbind option_bind].
  eexists. split; [done|]. cbn [snap4 snap6].
  destruct (sort_once_spec cmpV4 key4 l4) as [P4 A4]; [intros; apply cmpV4_key|].
  destruct (sort_once_spec cmpV6 key6 l6) as [P6 A6]; [intros a b Ha Hb; apply cmpV6_key; eapply (proj1 (List.Forall_forall _ _) F6); done|].
  split_and!; [done|done|by rewrite P4|by rewrite P6|]. rewrite (Permutation_length P4), (Permutation_length P6), L4, L6. lia.
Qed.

(** ** What is written is what is looked up *)
Definition covers (ip : Z) (r : Range) : bool :=
  match Lo r, Hi r with
  | Some lo, Some hi => eqb (is4 lo) (is4 ip) && eqb (is4 hi) (is4 ip) && ((lo <=? ip) && (ip <=? hi))
  | _, _ => false
  end.
Definition address (a : option Z) : Prop := ∀ ip, a = Some ip → 0 ≤ ip < 2 ^ 128.
Definition addresses (r : Range) : Prop := address (Lo r) ∧ address (Hi r).
(** What a range says of its addresses. *)
Definition range_info (r : Range) : Info :=
  mkInfo (match CC r with
          | String a (String b "") => match up_letter a, up_letter b with Some x, Some y => String (chr x) (String (chr y) "") | _, _ => "" end
          | _ => ""
          end) false (Hosting r) (Tor r) (Tor r || Hosting r).
Lemma up_letter_range c x : up_letter c = Some x → 65 ≤ x ≤ 90.
Proof.
  unfold up_letter. destruct ((65 <=? code c) && (code c <=? 90)) eqn:E1; [intros; simplify_eq; apply andb_true_iff in E1 as [?%Z.leb_le ?%Z.leb_le]; lia|].
  destruct ((97 <=? code c) && (code c <=? 122)) eqn:E2; [|done]. intros; simplify_eq. apply andb_true_iff in E2 as [?%Z.leb_le ?%Z.leb_le]. lia.
Qed.
Lemma encodeCC_byte cc : byte_pair (encodeCC cc).
Proof.
  unfold encodeCC, byte_pair. destruct cc as [|a [|b [|]]]; cbn; try lia. destruct (up_letter a) as [x|] eqn:Ea; [|cbn; lia].
  destruct (up_letter b) as [y|] eqn:Eb; cbn; [|lia]. apply up_letter_range in Ea, Eb. lia.
Qed.
Lemma infoFrom_range r : infoFrom (encodeCC (CC r)) (flagsFor (Hosting r) (Tor r)) = range_info r.
Proof.
  unfold infoFrom, range_info. f_equal; try by destruct (Hosting r), (Tor r).
  unfold encodeCC. destruct (CC r) as [|a [|b [|]]]; cbn; try done. destruct (up_letter a) as [x|] eqn:Ea; [|done]. destruct (up_letter b) as [y|] eqn:Eb; [|done].
  apply up_letter_range in Ea, Eb. cbn [fst snd]. destruct (Z.eqb_spec x 0), (Z.eqb_spec y 0); try lia. done.
Qed.
Lemma is4_split ip : is4 ip = true → ip = v4mapped + beU32 ip.
Proof. unfold is4, beU32, v4mapped. intros Hi%Z.eqb_eq. pose proof (Z.div_mod ip (2 ^ 32)). lia. Qed.
Lemma beU32_range ip : 0 ≤ beU32 ip < 2 ^ 32.
Proof. apply Z.mod_pos_bound. lia. Qed.
Lemma as128_key ip : (as128 ip).1 * 2 ^ 64 + (as128 ip).2 = ip.
Proof. unfold as128. cbn. pose proof (Z.div_mod ip (2 ^ 64)). lia. Qed.
Lemma as128_range ip : 0 ≤ ip < 2 ^ 128 → (0 ≤ (as128 ip).1 < 2 ^ 64) ∧ (0 ≤ (as128 ip).2 < 2 ^ 64).
Proof. intros Hi. unfold as128. cbn [fst snd]. split; [|apply Z.mod_pos_bound; lia]. split; [apply Z.div_pos; lia|apply Z.div_lt_upper_bound; lia]. Qed.

Lemma covers_v4 ip r : is4 ip = true → sees v4_of (in_entry v4start v4end (beU32 ip)) (covers ip) r.
Proof.
  intros Hip. unfold sees, covers, v4_of. destruct (Lo r) as [lo|], (Hi r) as [hi|]; cbn [mbind option_bind]; try done. rewrite Hip.
  destruct (is4 lo) eqn:El; cbn [eqb andb]; [|done]. destruct (is4 hi) eqn:Eh; cbn [eqb andb]; [|done].
  pose proof (is4_split _ Hip). apply is4_split in El, Eh. destruct (Z.ltb_spec (beU32 hi) (beU32 lo)).
  - by destruct (Z.leb_spec lo ip), (Z.leb_spec ip hi); try lia.
  - unfold in_entry. cbn [v4start v4end]. f_equal.
    + destruct (Z.leb_spec (beU32 lo) (beU32 ip)), (Z.leb_spec lo ip); lia || done.
    + destruct (Z.leb_spec (beU32 ip) (beU32 hi)), (Z.leb_spec ip hi); lia || done.
Qed.
Lemma covers_v6 ip r : is4 ip = false → addresses r → sees v6_of (in_entry key6 last6 ip) (covers ip) r.
Proof.
  intros Hip [Hlo Hhi]. unfold sees, covers, v6_of. destruct (Lo r) as [lo|], (Hi r) as [hi|]; cbn [mbind option_bind]; try done. rewrite Hip.
  specialize (Hlo lo eq_refl). specialize (Hhi hi eq_refl). destruct (is4 lo) eqn:El; cbn [eqb andb orb]; [done|]. destruct (is4 hi) eqn:Eh; cbn [eqb andb orb]; [done|].
  pose proof (as128_key lo) as Kl. pose proof (as128_key hi) as Kh. destruct (as128_range lo Hlo) as [_ ?]. destruct (as128_range hi Hhi) as [_ ?].
  destruct (as128 lo) as [sh sl], (as128 hi) as [eh el]. cbn [fst snd] in *. rewrite less128_key by done. rewrite Kl, Kh.
  destruct (Z.ltb_spec hi lo).
  - by destruct (Z.leb_spec lo ip), (Z.leb_spec ip hi); try lia.
  - unfold in_entry, key6, last6. cbn [startHi startLo endHi endLo]. by rewrite Kl, Kh.
Qed.
Lemma flagsFor_range h t : 0 ≤ flagsFor h t < 256.
Proof. by destruct h, t. Qed.
Lemma v4_of_ok r e : v4_of r = Some e → fits4 e ∧ v4start e ≤ v4end e ∧ info4 e = range_info r.
Proof.
  unfold v4_of. destruct (Lo r) as [lo|], (Hi r) as [hi|]; cbn [mbind option_bind]; try done. destruct (is4 lo && is4 hi); [|done].
  destruct (Z.ltb_spec (beU32 hi) (beU32 lo)); [done|]. intros [= <-]. split; [|split; [done|apply infoFrom_range]].
  split; [apply beU32_range|split; [apply beU32_range|split; [apply encodeCC_byte|apply flagsFor_range]]].
Qed.
Lemma v6_of_ok r e : addresses r → v6_of r = Some e → fits6 e ∧ key6 e ≤ last6 e ∧ info6 e = range_info r ∧ is4 (key6 e) = false.
Proof.
  intros [Hlo Hhi]. unfold v6_of. destruct (Lo r) as [lo|], (Hi r) as [hi|]; cbn [mbind option_bind]; try done. destruct (is4 lo) eqn:El; [done|]. destruct (is4 hi); [done|]. cbn [orb].
  pose proof (as128_key lo) as Kl. destruct (as128_range lo (Hlo lo eq_refl)) as [? ?]. destruct (as128_range hi (Hhi hi eq_refl)) as [? ?]. destruct (as128 lo) as [sh sl], (as128 hi) as [eh el]. cbn [fst snd] in *.
  rewrite less128_key by done. destruct (Z.ltb_spec (eh * 2 ^ 64 + el) (sh * 2 ^ 64 + sl)); [done|]. intros [= <-].
  split; [|split; [done|split; [apply infoFrom_range|unfold key6; cbn [startHi startLo]; by rewrite Kl]]].
  split; [done|split; [done|split; [apply encodeCC_byte|apply flagsFor_range]]].
Qed.

Lemma window_head s post n : String.length s = n → window (s +:+ post) 0 n = Some s.
Proof.
  intros Hn. unfold window. rewrite string_app_length, Hn. rewrite (proj2 (Nat.leb_le _ _)) by lia. f_equal. destruct (take_drop_app s post n Hn) as [Ht _].
  by replace (drop_str 0 (s +:+ post)) with (s +:+ post) by (by destruct (s +:+ post)).
Qed.
Lemma put_all_length {A} (put : A → string) len l : (∀ r, String.length (put r) = len) → String.length (put_all put l) = (length l * len)%nat.
Proof. intros Hp. induction l as [|r l IH]; [done|]. cbn [put_all foldr length]. rewrite string_app_length, Hp. fold (put_all put l). rewrite IH. lia. Qed.
Lemma put_v4_length r : String.length (put_v4 r) = v4RecLen.
Proof. unfold put_v4. by rewrite !string_app_length, !le_fill_length. Qed.
Lemma put_v6_length r : String.length (put_v6 r) = v6RecLen.
Proof. unfold put_v6. by rewrite !string_app_length, !le_fill_length. Qed.
Lemma sort_once_sorted {A} (cmp : A → A → Z) key l : (∀ a b, In a l → In b l → (cmp a b <? 0) = (key a <? key b)) → sort_once cmp (SortFunc cmp l) = SortFunc cmp l.
Proof. intros Hc. unfold sort_once. by rewrite (SortFunc_sorted cmp key l Hc). Qed.
Lemma In_omap {A B} (g : A → option B) l e : In e (omap g l) → ∃ r, In r l ∧ g r = Some e.
Proof. intros (r & Hr & Hg)%list_elem_of_In%list_elem_of_omap. exists r. by rewrite <- list_elem_of_In. Qed.

Lemma decode_Marshal ranges : Forall addresses ranges → Z.of_nat (length ranges) < 2 ^ 32 →
  decode (MarshalRanges ranges) = Some (Ok (mkSnapshot (SortFunc cmpV4 (omap v4_of ranges)) (SortFunc cmpV6 (omap v6_of ranges)))).
Proof.
  intros Had Hlen. set (l4 := omap v4_of ranges). set (l6 := omap v6_of ranges).
  assert (F4 : ∀ e, In e l4 → fits4 e) by (intros e (r & _ & He)%In_omap; by apply v4_of_ok in He as [? _]).
  assert (F6 : ∀ e, In e l6 → fits6 e) by (intros e (r & Hr & He)%In_omap; apply v6_of_ok in He as [? _]; [done|]; eapply (proj1 (List.Forall_forall _ _) Had); done).
  assert (L4 : (length l4 ≤ length ranges)%nat) by (unfold l4; clear; induction ranges as [|r l IH]; cbn; [lia|]; destruct (v4_of r); cbn; lia).
  assert (L6 : (length l6 ≤ length ranges)%nat) by (unfold l6; clear; induction ranges as [|r l IH]; cbn; [lia|]; destruct (v6_of r); cbn; lia).
  pose proof (SortFunc_perm cmpV4 l4) as P4. pose proof (SortFunc_perm cmpV6 l6) as P6.
  unfold MarshalRanges. fold l4 l6. set (s4 := SortFunc cmpV4 l4) in *. set (s6 := SortFunc cmpV6 l6) in *.
  assert (N4 : length s4 = length l4) by (by apply Permutation_length). assert (N6 : length s6 = length l6) by (by apply Permutation_length).
  set (blob := blobMagic +:+ _). assert (Hb : drop_str 0 blob = blob) by (by destruct blob).
  assert (Hsize : String.length blob = (headerLen + length s4 * v4RecLen + length s6 * v6RecLen)%nat).
  { unfold blob. rewrite !string_app_length, !le_fill_length, (put_all_length put_v4 v4RecLen), (put_all_length put_v6 v6RecLen); [cbn; lia|apply put_v6_length|apply put_v4_length]. }
  assert (Ew : window blob 0 4 = Some blobMagic) by (unfold blob; by apply window_head).
  unfold decode. rewrite (proj2 (Nat.ltb_ge _ _)) by lia. rewrite Ew. cbn [mbind option_bind]. rewrite bool_decide_eq_true_2 by done. cbn [negb].
  assert (H4 : drop_str 4 blob = le_fill 1 1 +:+ le_fill 3 0 +:+ le_fill 4 (Z.of_nat (length s4)) +:+ le_fill 4 (Z.of_nat (length s6)) +:+ put_all put_v4 s4 +:+ put_all put_v6 s6 +:+ "").
  { unfold blob. destruct (take_drop_app blobMagic (le_fill 1 1 +:+ le_fill 3 0 +:+ le_fill 4 (Z.of_nat (length s4)) +:+ le_fill 4 (Z.of_nat (length s6)) +:+ put_all put_v4 s4 +:+ put_all put_v6 s6) 4 eq_refl) as [_ ->].
    by rewrite string_app_nil_r. }
  eapply uint_at_next in H4 as [-> H5]; [|lia|cbn; lia]. cbn [mbind option_bind Z.eqb Pos.eqb negb].
  eapply uint_at_next in H5 as [_ H8]; [|lia|cbn; lia]. eapply uint_at_next in H8 as [E8 H12]; [|lia|cbn; lia]. eapply uint_at_next in H12 as [E12 H16]; [|lia|cbn; lia].
  cbn [Nat.add] in E8, E12, H16. rewrite E8. cbn [mbind option_bind]. rewrite E12. cbn [mbind option_bind].
  rewrite (proj2 (Z.ltb_ge _ _)) by (rewrite Hsize; unfold headerLen, v4RecLen, v6RecLen; lia). rewrite !Nat2Z.id.
  eapply (records_next (read_v4 blob) put_v4 fits4) in H16 as [E4 H6]; [|intros; by apply read_v4_next|apply List.Forall_forall; intros e He; apply F4; by eapply Permutation_in].
  unfold headerLen. rewrite E4. cbn [mbind option_bind].
  eapply (records_next (read_v6 blob) put_v6 fits6) in H6 as [E6 _]; [|intros; by apply read_v6_next|apply List.Forall_forall; intros e He; apply F6; by eapply Permutation_in].
  rewrite E6. cbn [mbind option_bind]. unfold s4, s6. rewrite (sort_once_sorted cmpV4 key4), (sort_once_sorted cmpV6 key6); [done|intros a b Ha Hb'; apply cmpV6_key; by apply F6|intros; apply cmpV4_key].
Qed.

(** C40. The table answers for exactly the ranges it was built from: written,
    read back and searched, an address gets what the one range that covers it
    says, and nothing when none does or it is not a global address. *)
Theorem blob_answers_its_ranges ranges :
  Forall addresses ranges → (∀ ip, at_most_one (covers ip) ranges) → Z.of_nat (length ranges) < 2 ^ 32 →
  ∃ d, LoadBlob (MarshalRanges ranges) = Some (Ok d) ∧
    ∀ ip, 0 ≤ ip < 2 ^ 128 →
      Lookup d (Some ip) = if not_global ip then no_info else match find (covers ip) ranges with Some r => range_info r | None => no_info end.
Proof.
  intros Had H1 Hlen. unfold LoadBlob. rewrite decode_Marshal by done. cbn [mbind option_bind]. eexists. split; [done|]. intros ip Hip. unfold Lookup.
  destruct (not_global ip); [done|]. pose proof (SortFunc_perm cmpV4 (omap v4_of ranges)) as P4. pose proof (SortFunc_perm cmpV6 (omap v6_of ranges)) as P6.
  destruct (is4 ip) eqn:E4.
  - assert (Hs : ∀ x, 0 ≤ x < 2 ^ 32 → Forall (sees v4_of (in_entry v4start v4end x) (covers (v4mapped + x))) ranges).
    { intros x Hx. apply List.Forall_forall. intros r _. assert (Ex : beU32 (v4mapped + x) = x) by (unfold beU32, v4mapped; rewrite Z.add_comm, Z_mod_plus_full; by apply Z.mod_small).
      rewrite <- Ex at 1. apply covers_v4. unfold is4, v4mapped. rewrite Z.add_comm, Z.div_add by lia. rewrite Z.div_small by done. done. }
    assert (Ho : ∀ x, 0 ≤ x < 2 ^ 32 → at_most_one (in_entry v4start v4end x) (omap v4_of ranges)).
    { intros x Hx. unfold at_most_one. rewrite (filter_omap v4_of _ _ _ (Hs x Hx)). apply H1. }
    pose proof (beU32_range ip) as Hx.
    rewrite (lookupV4_scan (λ x, 0 ≤ x < 2 ^ 32)); cbn [snap4]; [|done|..].
    + unfold by_scan. rewrite <- (find_perm _ _ _ (Permutation_sym P4) (Ho _ Hx)), (find_omap v4_of _ _ _ (Hs _ Hx)), <- (is4_split _ E4).
      destruct (find (covers ip) ranges) as [r|] eqn:Ef; [|done]. cbn [mbind option_bind]. destruct (v4_of r) as [e|] eqn:Ee; [by apply v4_of_ok in Ee as (_ & _ & ?)|].
      apply find_some in Ef as [_ Hc]. pose proof (covers_v4 ip r E4) as Hse. unfold sees in Hse. by rewrite Hc, Ee in Hse.
    + apply (sorted_ascending cmpV4); [intros; apply cmpV4_key|apply (SortFunc_sorted cmpV4 key4); intros; apply cmpV4_key].
    + intros e He. apply (Permutation_in _ P4), In_omap in He as (r & _ & He). by apply v4_of_ok in He as ((? & _) & ? & _).
    + intros x Hx'. eapply at_most_one_perm; [symmetry; exact P4|by apply Ho].
  - assert (Hr : ∀ e, In e (omap v6_of ranges) → ∃ r, v6_of r = Some e ∧ addresses r).
    { intros e (r & Hr & He)%In_omap. exists r. split; [done|]. eapply (proj1 (List.Forall_forall _ _) Had); done. }
    assert (F6 : ∀ e, In e (omap v6_of ranges) → fits6 e) by (intros e (r & He & Ha)%Hr; by apply v6_of_ok in He as [? _]).
    assert (Hc6 : ∀ a b, In a (omap v6_of ranges) → In b (omap v6_of ranges) → (cmpV6 a b <? 0) = (key6 a <? key6 b)) by (intros a b Ha Hb; apply cmpV6_key; by apply F6).
    assert (Ho : ∀ x, is4 x = false → at_most_one (in_entry key6 last6 x) (omap v6_of ranges)).
    { intros x Hx. unfold at_most_one. rewrite (filter_omap v6_of _ (covers x)); [apply H1|]. eapply List.Forall_impl; [|exact Had]. intros r. by apply covers_v6. }
    pose proof (as128_key ip) as Kip. destruct (as128_range ip Hip) as [_ Hlo]. destruct (as128 ip) as [hi lo]. cbn [fst snd] in *.
    rewrite (lookupV6_scan (λ x, is4 x = false)); cbn [snap6]; [|by rewrite Kip|apply List.Forall_forall; intros e He; apply F6; by eapply Permutation_in|done|..].
    + rewrite Kip. unfold by_scan. rewrite <- (find_perm _ _ _ (Permutation_sym P6) (Ho _ E4)), (find_omap v6_of _ (covers ip)) by (eapply List.Forall_impl; [|exact Had]; intros r; by apply covers_v6).
      destruct (find (covers ip) ranges) as [r|] eqn:Ef; [|done]. cbn [mbind option_bind]. apply find_some in Ef as [Hin Hc].
      assert (Ha : addresses r) by (eapply (proj1 (List.Forall_forall _ _) Had); done).
      destruct (v6_of r) as [e|] eqn:Ee; [by apply v6_of_ok in Ee as (_ & _ & ? & _)|]. pose proof (covers_v6 ip r E4 Ha) as Hse. unfold sees in Hse. by rewrite Hc, Ee in Hse.
    + apply (sorted_ascending cmpV6); [intros a b Ha Hb; apply Hc6; by eapply Permutation_in|by apply (SortFunc_sorted cmpV6 key6)].
    + intros e He. apply (Permutation_in _ P6), Hr in He as (r & He & Ha). by apply v6_of_ok in He as (_ & ? & _ & ?).
    + intros x Hx. eapply at_most_one_perm; [symmetry; exact P6|by apply Ho].
Qed.
End table.

(** ** A concrete table *)
Module IntelDemo.
Fixpoint ins {A} (cmp : A → A → Z) (a : A) (l : list A) : list A :=
  match l with [] => [a] | b :: r => if cmp b a <? 0 then b :: ins cmp a r else a :: l end.
#[export] Instance insertion : Sorter := { SortFunc A cmp l := foldr (ins cmp) [] l }.
Lemma ins_perm {A} (cmp : A → A → Z) a l : Permutation (ins cmp a l) (a :: l).
Proof. induction l as [|b l IH]; [done|]. cbn. destruct (cmp b a <? 0); [|done]. rewrite IH. apply perm_swap. Qed.
Lemma ins_sorted {A} (cmp : A → A → Z) (key : A → Z) a l :
  (∀ x y, In x (a :: l) → In y (a :: l) → (cmp x y <? 0) = (key x <? key y)) → IsSortedFunc cmp l = true → IsSortedFunc cmp (ins cmp a l) = true.
Proof.
  induction l as [|b l IH]; intros Hc Hs; [done|]. cbn [ins]. rewrite Hc by (cbn; auto). destruct (Z.ltb_spec (key b) (key a)) as [Hlt|Hge].
  - assert (Hl : IsSortedFunc cmp (ins cmp a l) = true).
    { apply IH; [intros x y Hx Hy; apply Hc; cbn in *; tauto|]. destruct l; [done|]. by apply andb_true_iff in Hs as [_ ?]. }
    destruct l as [|c l]; cbn [ins IsSortedFunc] in *; [rewrite Hc by (cbn; auto); destruct (Z.ltb_spec (key a) (key b)); [lia|done]|].
    apply andb_true_iff in Hs as [Hs _]. destruct (cmp c a <? 0); apply andb_true_iff; (split; [|exact Hl]); [exact Hs|].
    rewrite Hc by (cbn; auto). apply negb_true_iff, Z.ltb_ge. lia.
  - cbn [IsSortedFunc]. apply andb_true_iff. split; [|exact Hs]. rewrite Hc by (cbn; auto). apply negb_true_iff, Z.ltb_ge. lia.
Qed.
Lemma sort_perm {A} (cmp : A → A → Z) l : Permutation (foldr (ins cmp) [] l) l.
Proof. induction l as [|a l IH]; [done|]. cbn. by rewrite ins_perm, IH. Qed.
#[export] Instance insertion_laws : SorterLaws.
Proof.
  split; [intros; apply sort_perm|]. intros A cmp key l. cbn. induction l as [|a l IH]; intros Hc; [done|]. cbn.
  apply (ins_sorted cmp key); [|apply IH; intros; apply Hc; by right].
  intros x y Hx Hy. apply Hc; [destruct Hx as [<-|Hx]|destruct Hy as [<-|Hy]]; try (by left); right; by eapply Permutation_in; [apply sort_perm|].
Qed.
Definition v4 (a b c d : Z) : option Z := Some (v4mapped + a * 2 ^ 24 + b * 2 ^ 16 + c * 2 ^ 8 + d).
(** Out of order, one range of the wrong shape, one IPv6 range. *)
Definition ranges : list Range :=
  [mkRange (v4 203 0 113 0) (v4 203 0 113 255) "se" true false; mkRange (v4 198 51 100 0) (v4 198 51 100 7) "us" false true;
   mkRange (v4 198 51 100 9) (v4 198 51 100 8) "zz" false true; mkRange (Some (8193 * 2 ^ 112)) (Some (8194 * 2 ^ 112 - 1)) "x1" true true].
Definition table : IntelDB := match LoadBlob (MarshalRanges ranges) with Some (Ok d) => d | _ => None end.
Example lookups :
  LookupString table " 203.0.113.9" = mkInfo "SE" false true false true ∧ LookupString table "::ffff:198.51.100.7" = mkInfo "US" false false true true ∧
  LookupString table "198.51.100.8" = no_info ∧ LookupString table "2001:db8::1%eth0" = mkInfo "" false true true true ∧
  LookupString table "10.0.0.1" = no_info ∧ LookupString table "nowhere" = no_info.
Proof. by vm_compute. Qed.
Example corrupt : decode "V42I" = Some (Err ErrTruncated) ∧ (Reload table (MarshalRanges [] +:+ "x") = Some (Ok tt, NewEmpty)) ∧
  Reload table (take_str 20 (MarshalRanges ranges)) = Some (Err ErrTruncated, table).
Proof. by vm_compute. Qed.
Lemma ranges_apart ip : at_most_one (covers ip) ranges.
Proof.
  unfold at_most_one, ranges, v4. cbn [List.filter]. unfold covers. cbn [Lo Hi].
  repeat match goal with |- context [is4 (?a + ?b)] => let v := eval vm_compute in (is4 (a + b)) in change (is4 (a + b)) with v
                       | |- context [is4 (?a * ?b)] => let v := eval vm_compute in (is4 (a * b)) in change (is4 (a * b)) with v
                       | |- context [is4 (?a - ?b)] => let v := eval vm_compute in (is4 (a - b)) in change (is4 (a - b)) with v end.
  destruct (is4 ip); cbn [eqb andb]; unfold v4mapped; repeat match goal with |- context [?a <=? ?b] => destruct (Z.leb_spec a b); cbn [andb] end; cbn; lia.
Qed.
Lemma blob_answers_its_ranges_witness :
  ∃ d, LoadBlob (MarshalRanges ranges) = Some (Ok d) ∧ Lookup d (v4 203 0 113 9) = mkInfo "SE" false true false true.
Proof.
  destruct (blob_answers_its_ranges ranges) as (d & Hd & Hl); [|exact ranges_apart|vm_compute; done|].
  - apply List.Forall_forall. intros r Hr. cbn in Hr. destruct Hr as [<-|[<-|[<-|[<-|[]]]]]; split; intros ip E; vm_compute in E; injection E as <-; by vm_compute.
  - exists d. split; [exact Hd|]. assert (Hr : 0 ≤ v4mapped + 203 * 2 ^ 24 + 0 * 2 ^ 16 + 113 * 2 ^ 8 + 9 < 2 ^ 128) by (unfold v4mapped; lia).
    transitivity (Lookup d (Some (v4mapped + 203 * 2 ^ 24 + 0 * 2 ^ 16 + 113 * 2 ^ 8 + 9))); [reflexivity|]. etransitivity; [exact (Hl _ Hr)|]. vm_compute. reflexivity.
Defined.
End IntelDemo.
