(* ===== verification/Oidc.v ===== *)
(** * Oidc: identity providers

    Models internal/oauth2: the generic OpenID Connect provider (oidc.go,
    oidc_idtoken.go) with its cached discovery document and key set, and the
    Google, GitHub and Facebook providers, together with the claims map of
    internal/jwt/claims.go that an ID token is read into.  Every request goes
    through the client of [Outbound]; what peers answer is a parameter. *)
From stdpp Require Import list gmap strings.
From Stdlib Require Import Ascii.
From S2P Require Import Prelude GoStd Crypto Json Bytes Base64 Jwt JwtFacts DPoP NetIP Url Outbound.
Open Scope string_scope.
Open Scope Z_scope.

(** ** JSON numbers as float64
    The value is a fraction whose denominator is a power of two. *)
Definition round_even (a b : Z) : Z :=
  let q := a / b in let r := a mod b in
  if 2 * r <? b then q else if b <? 2 * r then q + 1 else if Z.even q then q else q + 1.
(** The nearest float64 to [num / den], both positive. *)
Definition nearest (num den : Z) : Z * Z :=
  let k := Z.log2 num - Z.log2 den in
  let below := if 0 <=? k then num <? den * 2 ^ k else num * 2 ^ (- k) <? den in
  let e := Z.max ((if below then k - 1 else k) - 52) (-1074) in
  if 0 <=? e then (round_even num (den * 2 ^ e) * 2 ^ e, 1) else (round_even (num * 2 ^ (- e)) den, 2 ^ (- e)).
(** [None]: out of range. *)
Definition float64 (lit : string) : option (Z * Z) :=
  '(m, e) ← decimal lit;
  let '(n, d) := if 0 <=? e then (Z.abs m * 10 ^ e, 1) else (Z.abs m, 10 ^ (- e)) in
  if n =? 0 then Some (0, 1)
  else let '(x, y) := nearest n d in if 2 ^ 1024 * y <=? x then None else Some (Z.sgn m * x, y).
(** Every number decodes into an [any]. *)
Fixpoint floats_fit (v : json) : bool :=
  match v with
  | JNum l => bool_decide (is_Some (float64 l))
  | JArr l => forallb floats_fit l
  | JObj m => forallb (λ p, floats_fit p.2) m
  | _ => true
  end.

(** ** jwt.MapClaims *)
Definition MapClaims : Type := list (string * json).
Definition unmarshal_map (payload : string) : option MapClaims :=
  match json_parse payload with
  | Some (JObj m) => if floats_fit (JObj m) then Some m else None
  | Some JNull => Some []
  | _ => None
  end.
Definition mapNumericDate (m : MapClaims) (key : string) : option Z :=
  match map_get key m with
  | Some (JNum l) =>
      '(x, y) ← float64 l;
      if (minNumericDate * y <=? x) && (x <=? maxNumericDate * y) then Some (Z.quot x y) else None
  | _ => None
  end.
Definition map_audience (m : MapClaims) : list string :=
  match map_get "aud" m with
  | Some (JStr s) => [s]
  | Some (JArr l) => omap (λ x, match x with JStr s => Some s | _ => None end) l
  | _ => []
  end.
#[export] Instance map_claims : Claims MapClaims := {
  unmarshal := unmarshal_map;
  GetExpirationTime := λ m, mapNumericDate m "exp";
  GetIssuedAt := λ m, mapNumericDate m "iat";
  GetNotBefore := λ m, mapNumericDate m "nbf";
  GetIssuer := get_string "iss";
  GetAudience := map_audience;
}.

(** ** Decoding structs *)
Definition str_field (name : string) (m : list (string * json)) : option string :=
  fold_left (λ acc p, s ← acc; if decide (ToLower p.1 = name) then string_of s p.2 else Some s) m (Some "").
Definition bool_of (old : bool) (v : json) : option bool :=
  match v with JBool b => Some b | JNull => Some old | _ => None end.
Definition bool_field (name : string) (m : list (string * json)) : option bool :=
  fold_left (λ acc p, b ← acc; if decide (ToLower p.1 = name) then bool_of b p.2 else Some b) m (Some false).
Definition int_field (name : string) (m : list (string * json)) : option Z :=
  fold_left (λ acc p, b ← acc; if decide (ToLower p.1 = name) then int_of b p.2 else Some b) m (Some 0).
(** The members of an object; [null] leaves the zero value. *)
Definition members (v : json) : option (list (string * json)) :=
  match v with JObj m => Some m | JNull => Some [] | _ => None end.
(** [json.Unmarshal] takes the whole body, a [Decoder] its first value. *)
Definition unmarshal_struct (body : string) : option (list (string * json)) := json_parse body ≫= members.
Definition decode_value (body : string) : option json := fst <$> value (S (2 * String.length body)) body.
Definition decode_struct (body : string) : option (list (string * json)) := decode_value body ≫= members.

(** ** The provider interface *)
Record TokenResponse := mkTokenResponse {
  trAccessToken : string; trRefreshToken : string; trIDToken : string; trTokenType : string; trExpiresIn : Z
}.
Record UserInfo := mkUserInfo {
  uiID : string; uiEmail : string; uiEmailVerified : bool; uiName : string; uiAvatarURL : string; uiProvider : string;
  uiAuthTime : option Z;  (** seconds; [None] for the zero time *)
}.
Definition maxProviderResponse : Z := 2 ^ 20.
Definition limited (body : string) : string :=
  if maxProviderResponse <? Z.of_nat (String.length body) then take_str (Z.to_nat maxProviderResponse) body else body.

(** ** OpenID Connect *)
Record oidcDiscovery := mkDiscovery {
  dIssuer : string; AuthEndpoint : string; TokenEndpoint : string; UserInfoEndp : string; JWKSURI : string
}.
Record OIDCProvider := mkOIDC {
  oName : string; issuer : string; clientID : string; clientSecret : string; redirectURI : string; scopes : string;
  guard : option Policy;
  discovered : option oidcDiscovery;
  jwks : gmap string publicKey;
}.
(** [strings.TrimRight(s, "/")] *)
Fixpoint trim_slashes (s : string) : string :=
  match s with
  | "" => ""
  | String c r => match trim_slashes r with
                  | "" => if code c =? 47 then "" else String c ""
                  | t => String c t
                  end
  end.
(** As main.go wires it: the constructor, then [SetGuard]. *)
Definition NewOIDCProvider (name iss id secret redirect sc : string) (g : option Policy) : OIDCProvider :=
  mkOIDC name (trim_slashes iss) id secret redirect (if decide (sc = "") then "openid email profile" else sc) g None ∅.
Definition with_discovered (d : oidcDiscovery) (p : OIDCProvider) : OIDCProvider :=
  mkOIDC (oName p) (issuer p) (clientID p) (clientSecret p) (redirectURI p) (scopes p) (guard p) (Some d) (jwks p).
Definition with_jwks (ks : gmap string publicKey) (p : OIDCProvider) : OIDCProvider :=
  mkOIDC (oName p) (issuer p) (clientID p) (clientSecret p) (redirectURI p) (scopes p) (guard p) (discovered p) ks.
Definition expectedIDTokenIssuer (p : OIDCProvider) : string :=
  match discovered p with Some d => if decide (dIssuer d = "") then issuer p else dIssuer d | None => issuer p end.

(** *** Calls that may update the caches
    A result or an error, the provider afterwards, and what was contacted. *)
Definition io (A : Type) : Type := OIDCProvider → option A * OIDCProvider * list contact.
Definition ret {A} (a : A) : io A := λ p, (Some a, p, []).
Definition fail {A} : io A := λ p, (None, p, []).
Definition andThen {A B} (x : io A) (f : A → io B) : io B := λ p,
  let '(a, p1, t1) := x p in
  match a with
  | None => (None, p1, t1)
  | Some a => let '(b, p2, t2) := f a p1 in (b, p2, (t1 ++ t2)%list)
  end.
Declare Scope io_scope.
Delimit Scope io_scope with io.
Notation "x <~ m ; f" := (andThen m (λ x, f)) (at level 20, m at level 100, f at level 200, only parsing) : io_scope.
Notation "' x <~ m ; f" := (andThen m (λ x, f)) (at level 20, x pattern, m at level 100, f at level 200, only parsing) : io_scope.
Definition self : io OIDCProvider := λ p, (Some p, p, []).
Definition lift {A} (x : option A) : io A := λ p, (x, p, []).
Definition store (f : OIDCProvider → OIDCProvider) : io unit := λ p, (Some tt, f p, []).
Open Scope io_scope.

Section oidc.
Context `{Verifier} `{URLParser}.
Context (lookup : resolver) (w : wire).

(** [p.httpClient().Do(req)] *)
Definition doRequest (r : Request) : io (Z * string) := λ p,
  let '(out, t) := Fetch (guard p) (issuer p) lookup w r in (out, p, t).

Definition discovery_of (m : list (string * json)) : option oidcDiscovery :=
  i ← str_field "issuer" m; a ← str_field "authorization_endpoint" m; t ← str_field "token_endpoint" m;
  u ← str_field "userinfo_endpoint" m; k ← str_field "jwks_uri" m; Some (mkDiscovery i a t u k).
Definition endpoint_ok (p : OIDCProvider) (endpoint : string) : bool :=
  bool_decide (endpoint = "") || FetchableEndpoint endpoint && CheckDerived (guard p) (issuer p) endpoint.
Definition document_ok (p : OIDCProvider) (d : oidcDiscovery) : bool :=
  bool_decide (trim_slashes (dIssuer d) = issuer p) &&
  negb (bool_decide (AuthEndpoint d = "") || bool_decide (TokenEndpoint d = "")) &&
  forallb (endpoint_ok p) [AuthEndpoint d; TokenEndpoint d; UserInfoEndp d; JWKSURI d].
Definition discover : io oidcDiscovery :=
  p <~ self;
  match discovered p with
  | Some d => ret d
  | None =>
      if negb (FetchableEndpoint (issuer p)) then fail
      else
        '(status, body) <~ doRequest (mkRequest (issuer p +:+ "/.well-known/openid-configuration") "" "");
        if negb (status =? 200) then fail
        else
          d <~ lift (unmarshal_struct (limited body) ≫= discovery_of);
          if document_ok p d then (_ <~ store (with_discovered d); ret d) else fail
  end.

Definition AuthURL (state nonce codeChallenge : string) : io string := λ p,
  match discover p with
  | (None, p', t) => (Some "", p', t)
  | (Some d, p', t) =>
      (Some (match url_Parse (AuthEndpoint d) with
             | None => ""
             | Some _ => set_query (AuthEndpoint d)
                 [("client_id", clientID p'); ("redirect_uri", redirectURI p'); ("response_type", "code"); ("scope", scopes p');
                  ("state", state); ("nonce", nonce); ("code_challenge", codeChallenge); ("code_challenge_method", "S256")]
             end), p', t)
  end.

Definition token_of (m : list (string * json)) : option TokenResponse :=
  a ← str_field "access_token" m; r ← str_field "refresh_token" m; i ← str_field "id_token" m;
  t ← str_field "token_type" m; e ← int_field "expires_in" m;
  if decide (a = "") then None else Some (mkTokenResponse a r i t e).
Definition Exchange (code codeVerifier : string) : io TokenResponse :=
  d <~ discover;
  p <~ self;
  '(status, body) <~ doRequest (mkRequest (TokenEndpoint d)
    (Encode [("client_id", clientID p); ("client_secret", clientSecret p); ("code", code); ("code_verifier", codeVerifier);
             ("grant_type", "authorization_code"); ("redirect_uri", redirectURI p)]) "");
  if negb (status =? 200) then fail else lift (unmarshal_struct (limited body) ≫= token_of).

Definition profile_of (name : string) (m : list (string * json)) : option UserInfo :=
  s ← str_field "sub" m; e ← str_field "email" m; v ← bool_field "email_verified" m; n ← str_field "name" m; a ← str_field "picture" m;
  Some (mkUserInfo s e v n a name None).
Definition UserInfo_ (accessToken : string) : io UserInfo :=
  d <~ discover;
  p <~ self;
  if decide (UserInfoEndp d = "") then fail
  else
    '(status, body) <~ doRequest (mkRequest (UserInfoEndp d) "" ("Bearer " +:+ accessToken));
    if negb (status =? 200) then fail else lift (decode_struct (limited body) ≫= profile_of (oName p)).

(** *** Keys *)
Definition rsaPublicKeyFromJWK (nB64 eB64 : string) : option publicKey :=
  nBytes ← RawURLDecode nB64; eBytes ← RawURLDecode eB64; rsa_key nBytes eBytes.
Record jwksEntry := mkEntry { eKty : string; eKid : string; eN : string; eE : string; eUse : string }.
Definition entry_of (v : json) : option jwksEntry :=
  m ← members v;
  t ← str_field "kty" m; k ← str_field "kid" m; n ← str_field "n" m; e ← str_field "e" m; u ← str_field "use" m;
  Some (mkEntry t k n e u).
(** The [keys] of a document, all of them decodable. *)
Definition entries_of (m : list (string * json)) : option (list jwksEntry) :=
  fold_left (λ acc p, l ← acc;
    if decide (ToLower p.1 = "keys") then match p.2 with JArr vs => mapM entry_of vs | JNull => Some [] | _ => None end else Some l) m (Some []).
Definition add_entry (ks : gmap string publicKey) (e : jwksEntry) : gmap string publicKey :=
  if negb (bool_decide (eKty e = "RSA")) || bool_decide (eKid e = "") || negb (bool_decide (eUse e = "")) && negb (bool_decide (eUse e = "sig")) then ks
  else match rsaPublicKeyFromJWK (eN e) (eE e) with Some k => <[eKid e := k]> ks | None => ks end.
Definition refreshJWKS : io unit :=
  d <~ discover;
  if decide (JWKSURI d = "") then fail
  else
    '(status, body) <~ doRequest (mkRequest (JWKSURI d) "" "");
    if negb (status =? 200) then fail
    else
      es <~ lift (decode_struct (limited body) ≫= entries_of);
      let ks := fold_left add_entry es ∅ in
      if decide (ks = ∅) then fail else store (with_jwks ks).
Definition signingKey (kid : string) : io publicKey :=
  if decide (kid = "") then fail
  else
    p <~ self;
    match jwks p !! kid with
    | Some k => ret k
    | None => _ <~ refreshJWKS; p <~ self; lift (jwks p !! kid)
    end.

(** *** ID tokens *)
Definition idTokenAlgs : list string := ["RS256"; "RS384"; "RS512"].
Definition maxIDTokenSize : Z := 8 * 1024.
Definition maxAuthTimeSeconds : Z := 2 ^ 40.
Definition forbidden_header (header : list (string * json)) : bool :=
  existsb (λ h, bool_decide (is_Some (map_get h header))) ["jku"; "x5u"; "x5c"; "jwk"; "crit"].
(** The header the key lookup is called with, when parsing gets that far. *)
Definition key_header (tok : string) : option (list (string * json)) :=
  '(headerSeg, payloadSeg, sigSeg) ← splitToken tok;
  header ← decodeSegment headerSeg ≫= unmarshal_header;
  if negb (bool_decide (get_string "alg" header ∈ idTokenAlgs)) then None
  else
    payload ← decodeSegment payloadSeg;
    match refuseAmbiguousClaimNames payload with
    | Err _ => None
    | Ok _ => _ ← unmarshal_map payload; _ ← decodeSegment sigSeg; Some header
    end.
Definition id_config (p : OIDCProvider) : validationConfig :=
  mkConfig idTokenAlgs (expectedIDTokenIssuer p) (clientID p) true false false.
Definition auth_time (m : MapClaims) : option Z :=
  match map_get "auth_time" m with
  | Some (JNum l) => '(x, y) ← float64 l; if (0 <? x) && (x <=? maxAuthTimeSeconds * y) then Some (Z.quot x y) else None
  | _ => None
  end.
Definition profile_of_claims (p : OIDCProvider) (m : MapClaims) : UserInfo :=
  mkUserInfo (get_string "sub" m) (get_string "email" m) (match map_get "email_verified" m with Some (JBool b) => b | _ => false end)
    (get_string "name" m) (get_string "picture" m) (oName p) (auth_time m).
(** The lookup runs at most once, inside the parse; a failed one refuses the
    token but keeps what it fetched. *)
Definition VerifyIDToken (now : Z) (idToken expectedNonce : string) : io UserInfo :=
  if decide (idToken = "") then fail
  else if maxIDTokenSize <? Z.of_nat (String.length idToken) then fail
  else if decide (expectedNonce = "") then fail
  else
    _ <~ discover;
    p <~ self;
    key <~ (λ p, match key_header idToken with
                 | Some header => if forbidden_header header then (Some None, p, [])
                                  else let '(k, p', t) := signingKey (get_string "kid" header) p in (Some k, p', t)
                 | None => (Some None, p, [])
                 end);
    claims <~ lift (match ParseWithClaims now idToken (Some (λ _, key)) (id_config p) with Ok c => Some (c : MapClaims) | Err _ => None end);
    if negb (bool_decide (get_string "nonce" claims = expectedNonce)) then fail
    else if decide (get_string "sub" claims = "") then fail
    else ret (profile_of_claims p claims).
End oidc.

(** ** Google, GitHub and Facebook
    Fixed endpoints over a plain client: [fetch] is its answer, status and
    body, or [None] for a transport error. *)
Section social.
Context (fetch : Request → option (Z * string)).
Record SocialProvider := mkSocial { sClientID : string; sClientSecret : string; sRedirectURI : string }.
Implicit Types g : SocialProvider.

Definition token_form g (code codeVerifier : string) : list (string * string) :=
  [("client_id", sClientID g); ("client_secret", sClientSecret g); ("code", code); ("code_verifier", codeVerifier)].
Definition GoogleExchange g (code codeVerifier : string) : option TokenResponse :=
  '(status, body) ← fetch (mkRequest "https://oauth2.googleapis.com/token"
    (Encode (token_form g code codeVerifier ++ [("grant_type", "authorization_code"); ("redirect_uri", sRedirectURI g)])) "");
  if negb (status =? 200) then None else unmarshal_struct (limited body) ≫= token_of.
(** Only the access token and its type are read. *)
Definition bare_token_of (m : list (string * json)) : option TokenResponse :=
  a ← str_field "access_token" m; t ← str_field "token_type" m;
  if decide (a = "") then None else Some (mkTokenResponse a "" "" t 0).
Definition GitHubExchange g (code codeVerifier : string) : option TokenResponse :=
  '(status, body) ← fetch (mkRequest "https://github.com/login/oauth/access_token"
    (Encode (token_form g code codeVerifier ++ [("redirect_uri", sRedirectURI g)])) "");
  if negb (status =? 200) then None
  else m ← unmarshal_struct (limited body); _ ← str_field "scope" m; bare_token_of m.
Definition FacebookExchange g (code codeVerifier : string) : option TokenResponse :=
  '(status, body) ← fetch (mkRequest "https://graph.facebook.com/v19.0/oauth/access_token"
    (Encode (token_form g code codeVerifier ++ [("redirect_uri", sRedirectURI g)])) "");
  if negb (status =? 200) then None else unmarshal_struct (limited body) ≫= bare_token_of.

Definition google_profile (m : list (string * json)) : option UserInfo :=
  i ← str_field "id" m; e ← str_field "email" m; v ← bool_field "verified_email" m; n ← str_field "name" m; a ← str_field "picture" m;
  Some (mkUserInfo i e v n a "google" None).
Definition GoogleUserInfo (accessToken : string) : option UserInfo :=
  '(status, body) ← fetch (mkRequest "https://www.googleapis.com/oauth2/v2/userinfo" "" ("Bearer " +:+ accessToken));
  if negb (status =? 200) then None else decode_struct (limited body) ≫= google_profile.

Record githubEmail := mkGithubEmail { geEmail : string; gePrimary : bool; geVerified : bool }.
Definition github_email (v : json) : option githubEmail :=
  m ← members v; e ← str_field "email" m; p ← bool_field "primary" m; f ← bool_field "verified" m; Some (mkGithubEmail e p f).
Definition github_emails (accessToken : string) : list githubEmail :=
  default []
    ('(_, body) ← fetch (mkRequest "https://api.github.com/user/emails" "" ("Bearer " +:+ accessToken));
     v ← decode_value (limited body);
     match v with JArr l => mapM github_email l | JNull => Some [] | _ => None end).
Definition GitHubUserInfo (accessToken : string) : option UserInfo :=
  '(status, body) ← fetch (mkRequest "https://api.github.com/user" "" ("Bearer " +:+ accessToken));
  if negb (status =? 200) then None
  else
    m ← decode_struct (limited body);
    i ← int_field "id" m; _ ← str_field "login" m; n ← str_field "name" m; e ← str_field "email" m; a ← str_field "avatar_url" m;
    if i =? 0 then None
    else
      let '(email, verified) := match find (λ e, gePrimary e && geVerified e) (github_emails accessToken) with
                                | Some e => (geEmail e, true)
                                | None => (e, false)
                                end in
      Some (mkUserInfo (FormatInt i) email verified n a "github" None).

(** A nested struct: later members add to it. *)
Definition obj_field (name : string) (m : list (string * json)) : option (list (string * json)) :=
  fold_left (λ acc p, l ← acc; if decide (ToLower p.1 = name) then x ← members p.2; Some (l ++ x)%list else Some l) m (Some []).
Definition FacebookUserInfo (accessToken : string) : option UserInfo :=
  '(status, body) ← fetch (mkRequest "https://graph.facebook.com/me?fields=id,name,email,picture.type(large)" "" ("Bearer " +:+ accessToken));
  if negb (status =? 200) then None
  else
    m ← decode_struct (limited body);
    i ← str_field "id" m; n ← str_field "name" m; e ← str_field "email" m;
    pic ← obj_field "picture" m; data ← obj_field "data" pic; u ← str_field "url" data;
    Some (mkUserInfo i e false n u "facebook" None).
End social.

(** * Facts: what a provider contacts and which ID tokens it believes *)

Section oidc_facts.
Context `{Verifier} `{URLParser}.
Implicit Types p : OIDCProvider.

(** ** The invariant of a provider *)
(** A key within the bounds of the verifier. *)
Definition usable_key (k : publicKey) : Prop := ∃ n e, k = RSAKey n e ∧ MinRSAModulusBits ≤ bit_len n ≤ MaxRSAModulusBits ∧ 3 ≤ e < 2 ^ 31.
Definition good p : Prop :=
  (∀ d, discovered p = Some d → document_ok p d = true) ∧ (∀ kid k, jwks p !! kid = Some k → usable_key k).
(** The configuration never changes. *)
Definition same_config p p' : Prop :=
  p' = mkOIDC (oName p) (issuer p) (clientID p) (clientSecret p) (redirectURI p) (scopes p) (guard p) (discovered p') (jwks p').
Lemma same_config_refl p : same_config p p.
Proof. by destruct p. Qed.
Lemma same_config_trans p1 p2 p3 : same_config p1 p2 → same_config p2 p3 → same_config p1 p3.
Proof. unfold same_config. intros E1 E2. rewrite E2, E1. done. Qed.
Lemma same_config_guard p p' : same_config p p' → guard p' = guard p ∧ issuer p' = issuer p ∧ clientID p' = clientID p ∧ oName p' = oName p.
Proof. intros E. rewrite E. done. Qed.

Definition well_known p : string := issuer p +:+ "/.well-known/openid-configuration".
Definition contact_ok p (c : contact) : Prop :=
  (rURL c.2 = well_known p ∨ vouched_url (guard p) (issuer p) (rURL c.2)) ∧ ∀ a, c.1 = Some a → off_limits (guard p) a.1 = false.

(** What holds after a call, whether it succeeded or not. *)
Definition after {A} (x : io A) (Q : A → OIDCProvider → Prop) p : Prop :=
  ∀ a p' t, x p = (a, p', t) → good p' ∧ same_config p p' ∧ Forall (contact_ok p) t ∧ ∀ v, a = Some v → Q v p'.
Lemma after_mono {A} (x : io A) Q Q' p : (∀ v p', good p' → same_config p p' → Q v p' → Q' v p') → after x Q p → after x Q' p.
Proof. intros HQ Hx a p' t E. destruct (Hx _ _ _ E) as (? & ? & ? & Hv). split_and!; try done. intros v Ev. auto. Qed.
Lemma after_pure {A} (x : option A) (Q : A → OIDCProvider → Prop) p : good p → (∀ v, x = Some v → Q v p) → after (lift x) Q p.
Proof. intros Hg HQ a p' t [= <- <- <-]. split_and!; [done|apply same_config_refl|constructor|done]. Qed.
Lemma after_ret {A} (v : A) (Q : A → OIDCProvider → Prop) p : good p → Q v p → after (ret v) Q p.
Proof. intros Hg HQ. apply (after_pure (Some v)); [done|]. by intros ? [= <-]. Qed.
Lemma after_fail {A} (Q : A → OIDCProvider → Prop) p : good p → after fail Q p.
Proof. intros Hg. by apply (after_pure None). Qed.
Lemma after_self (Q : OIDCProvider → OIDCProvider → Prop) p : good p → Q p p → after self Q p.
Proof. intros Hg HQ a p' t [= <- <- <-]. split_and!; [done|apply same_config_refl|constructor|]. by intros ? [= <-]. Qed.
Lemma after_store f (Q : unit → OIDCProvider → Prop) p : good (f p) → same_config p (f p) → Q tt (f p) → after (store f) Q p.
Proof. intros Hg Hs HQ a p' t [= <- <- <-]. split_and!; [done|done|constructor|]. by intros [] _. Qed.
Lemma after_then {A B} (x : io A) (f : A → io B) Q p :
  after x (λ v p1, same_config p p1 → good p1 → after (f v) Q p1) p → after (andThen x f) Q p.
Proof.
  intros Hx b p' t E. unfold andThen in E. destruct (x p) as [[a p1] t1] eqn:Ex. destruct (Hx _ _ _ Ex) as (Hg1 & Hs1 & Ht1 & Hv).
  destruct a as [v|]; [|injection E as <- <- <-; by split_and!]. destruct (f v p1) as [[b' p2] t2] eqn:Ef. injection E as <- <- <-.
  destruct (Hv v eq_refl Hs1 Hg1 _ _ _ Ef) as (? & ? & Ht2 & ?). split_and!; [done|by eapply same_config_trans| |done].
  apply Forall_app. split; [done|]. destruct (same_config_guard _ _ Hs1) as (Eg & Ei & _).
  eapply Forall_impl; [|exact Ht2]. intros c. unfold contact_ok, well_known. by rewrite Eg, Ei.
Qed.

Section calls.
Context (lookup : resolver) (w : wire) (Hres : resolves lookup).

Lemma after_request r (Q : Z * string → OIDCProvider → Prop) p : good p → (rURL r = well_known p ∨ vouched_url (guard p) (issuer p) (rURL r)) →
  (∀ v, Q v p) → after (doRequest lookup w r) Q p.
Proof.
  intros Hg Hu HQ a p' t. unfold doRequest. destruct (Fetch _ _ _ _ _) as [out t0] eqn:E. intros [= <- <- <-].
  destruct (fetch_stays_outside _ _ _ _ _ _ _ Hres E) as (_ & (x & rest & -> & Hrest) & Hoff).
  split_and!; [done|apply same_config_refl| |intros v _; apply HQ].
  inversion Hoff as [|? ? Ho1 Ho2]; subst. constructor; [by split|].
  rewrite Forall_forall in Hrest, Ho2 |- *. intros c Hc. split; [right; by apply Hrest|by apply Ho2].
Qed.

Lemma endpoint_vouched p e : endpoint_ok p e = true → e ≠ "" → vouched_url (guard p) (issuer p) e.
Proof. unfold endpoint_ok. rewrite orb_true_iff, bool_decide_eq_true. intros [?|Hc] Hne; [done|]. by apply CheckRedirect_vouches. Qed.
Lemma document_endpoint p d e : document_ok p d = true → e ∈ [AuthEndpoint d; TokenEndpoint d; UserInfoEndp d; JWKSURI d] → e ≠ "" →
  vouched_url (guard p) (issuer p) e.
Proof.
  unfold document_ok. rewrite !andb_true_iff. intros [_ Hall] Hin. apply endpoint_vouched.
  rewrite forallb_forall in Hall. by apply Hall, list_elem_of_In.
Qed.
Lemma document_ok_same p p' d : same_config p p' → document_ok p' d = document_ok p d.
Proof. intros E. rewrite E. done. Qed.

Lemma discover_after p : good p → after (discover lookup w) (λ d p', discovered p' = Some d ∧ document_ok p' d = true) p.
Proof.
  intros Hg. apply after_then, after_self; [done|]. intros _ _. destruct (discovered p) as [d|] eqn:Ed.
  { apply after_ret; [done|]. split; [done|]. by apply Hg. }
  destruct (FetchableEndpoint (issuer p)); cbn [negb]; [|by apply after_fail]. apply after_then, after_request; [done|by left|]. intros [status body] _ _.
  destruct (status =? 200); cbn [negb]; [|by apply after_fail]. apply after_then, after_pure; [done|]. intros d _ _ _.
  destruct (document_ok p d) eqn:Edoc; [|by apply after_fail]. apply after_then, after_store.
  - split; [intros d' [= <-]; exact Edoc|apply Hg].
  - done.
  - intros _ Hg'. apply after_ret; [done|]. done.
Qed.
Lemma Exchange_after code v p : good p → after (Exchange lookup w code v) (λ _ _, True) p.
Proof.
  intros Hg. apply after_then. eapply after_mono; [|by apply discover_after]. intros d p1 Hg1 Hs1 [Ed Edoc] _ _.
  apply after_then, after_self; [done|]. intros _ _. apply after_then, after_request; [done| |].
  - right. eapply document_endpoint; [exact Edoc|set_solver|]. cbn. intros E. unfold document_ok in Edoc. rewrite E in Edoc.
    rewrite (bool_decide_eq_true_2 ("" = "")), orb_true_r in Edoc by done. cbn in Edoc. by rewrite andb_false_r in Edoc.
  - intros [status body] _ _. destruct (negb _); [by apply after_fail|by apply after_pure].
Qed.
Lemma UserInfo_after tok p : good p → after (UserInfo_ lookup w tok) (λ _ _, True) p.
Proof.
  intros Hg. apply after_then. eapply after_mono; [|by apply discover_after]. intros d p1 Hg1 Hs1 [Ed Edoc] _ _.
  apply after_then, after_self; [done|]. intros _ _. destruct (decide (UserInfoEndp d = "")); [by apply after_fail|].
  apply after_then, after_request; [done|right; eapply document_endpoint; [exact Edoc|set_solver|done]|].
  intros [status body] _ _. destruct (negb _); [by apply after_fail|by apply after_pure].
Qed.
Lemma AuthURL_after st n c p : good p → after (AuthURL lookup w st n c) (λ _ _, True) p.
Proof.
  intros Hg a p' t. unfold AuthURL. destruct (discover lookup w p) as [[d p1] t1] eqn:E.
  destruct (discover_after p Hg _ _ _ E) as (? & ? & ? & _). destruct d; intros [= <- <- <-]; by split_and!.
Qed.

(** ** Keys *)
Lemma rsa_key_usable a b k : rsa_key a b = Some k → usable_key k.
Proof.
  unfold rsa_key. cbv zeta. destruct (Z.ltb_spec (bit_len (be_value a)) MinRSAModulusBits); [done|].
  destruct (Z.ltb_spec MaxRSAModulusBits (bit_len (be_value a))); [done|].
  destruct (_ || _ || _) eqn:Ee; [done|]. intros [= <-]. rewrite !orb_false_iff, !Z.ltb_ge in Ee. exists (be_value a), (be_value b). split; [done|]. lia.
Qed.
Lemma add_entry_usable ks e : map_Forall (λ _, usable_key) ks → map_Forall (λ _, usable_key) (add_entry ks e).
Proof.
  intros Hk. unfold add_entry. destruct (_ || _ || _); [done|]. destruct (rsaPublicKeyFromJWK _ _) as [k|] eqn:E; [|done].
  apply map_Forall_insert_2; [|done]. apply bind_Some in E as (? & _ & (? & _ & E)%bind_Some). by eapply rsa_key_usable.
Qed.
Lemma add_entries_usable es ks : map_Forall (λ _, usable_key) ks → map_Forall (λ _, usable_key) (fold_left add_entry es ks).
Proof. revert ks. induction es as [|e es IH]; intros ks Hk; [done|]. by apply IH, add_entry_usable. Qed.
Lemma refreshJWKS_after p : good p → after (refreshJWKS lookup w) (λ _ _, True) p.
Proof.
  intros Hg. apply after_then. eapply after_mono; [|by apply discover_after]. intros d p1 Hg1 Hs1 [Ed Edoc] _ _.
  destruct (decide (JWKSURI d = "")); [by apply after_fail|].
  apply after_then, after_request; [done|right; eapply document_endpoint; [exact Edoc|set_solver|done]|].
  intros [status body] _ _. destruct (negb _); [by apply after_fail|]. apply after_then, after_pure; [done|]. intros es _ _ _. cbv zeta.
  destruct (decide _); [by apply after_fail|]. apply after_store; [|done|done]. split; [apply Hg1|].
  intros kid k Hk. cbn in Hk. by eapply (add_entries_usable es ∅); [apply map_Forall_empty|].
Qed.
Lemma signingKey_after kid p : good p → after (signingKey lookup w kid) (λ k p', jwks p' !! kid = Some k) p.
Proof.
  intros Hg. unfold signingKey. destruct (decide (kid = "")); [by apply after_fail|]. apply after_then, after_self; [done|]. intros _ _.
  destruct (jwks p !! kid) as [k|] eqn:Ek; [by apply after_ret|]. apply after_then. eapply after_mono; [|by apply refreshJWKS_after].
  intros _ p1 Hg1 _ _ _ _. apply after_then, after_self; [done|]. intros _ _. by apply after_pure.
Qed.

(** ** ID tokens *)
(** What a parse with the provider's configuration checked. *)
Lemma parse_id_token now tok key p (c : MapClaims) : ParseWithClaims now tok (Some (λ _, key)) (id_config p) = Ok c →
  ∃ h pl s header payload sig k, splitToken tok = Some (h, pl, s) ∧ key_header tok = Some header ∧ key = Some k ∧
    decodeSegment h ≫= unmarshal_header = Some header ∧ decodeSegment pl = Some payload ∧ decodeSegment s = Some sig ∧
    unmarshal_map payload = Some c ∧ get_string "alg" header ∈ idTokenAlgs ∧
    verify_signature (get_string "alg" header) (h +:+ "." +:+ pl) sig k = Ok tt ∧ validateClaims now c (id_config p) = [].
Proof.
  unfold ParseWithClaims, key_header. destruct (splitToken tok) as [[[h pl] s]|]; [|done]. cbn [mbind option_bind].
  destruct (decodeSegment h ≫= unmarshal_header) as [header|] eqn:Eh; [|done]. cbn [mbind option_bind].
  case_decide; [done|]. destruct (_ && _) eqn:Em; [done|].
  assert (Hm : get_string "alg" header ∈ idTokenAlgs).
  { apply andb_false_iff in Em as [Em|Em]; apply negb_false_iff in Em; [done|]. by apply bool_decide_eq_true in Em. }
  rewrite (bool_decide_eq_true_2 _ Hm). cbn [negb]. destruct (decodeSegment pl) as [payload|] eqn:Epl; [|done]. cbn [mbind option_bind].
  destruct (refuseAmbiguousClaimNames payload); [|done]. change (unmarshal payload) with (unmarshal_map payload).
  destruct (unmarshal_map payload) as [c'|] eqn:Eu; [|done]. cbn [mbind option_bind]. destruct (decodeSegment s) as [sig|] eqn:Esg; [|done]. cbn [mbind option_bind].
  destruct key as [k|]; [|done]. cbn [mbind option_bind]. destruct (verify_signature _ _ _ k) as [[]|] eqn:Ev; [|done]. cbn [skipValidation id_config].
  destruct (validateClaims now c' _) eqn:Eva; [|done]. intros [= ->]. exists h, pl, s, header, payload, sig, k. by split_and!.
Qed.

(** The evidence behind a profile. *)
Definition attested (now : Z) (tok nonce : string) p p' (ui : UserInfo) : Prop :=
  ∃ h pl s header payload sig n e claims,
    tok = h +:+ "." +:+ pl +:+ "." +:+ s ∧ decodeSegment h ≫= unmarshal_header = Some header ∧ forbidden_header header = false ∧
    get_string "alg" header = "RS256" ∧ jwks p' !! get_string "kid" header = Some (RSAKey n e) ∧ usable_key (RSAKey n e) ∧
    decodeSegment s = Some sig ∧ rsa_verifies (h +:+ "." +:+ pl) sig n e = true ∧
    decodeSegment pl = Some payload ∧ unmarshal_map payload = Some claims ∧
    trim_slashes (get_string "iss" claims) = issuer p ∧ clientID p ∈ map_audience claims ∧
    (∃ exp, mapNumericDate claims "exp" = Some exp ∧ now < exp * second) ∧
    (∀ nbf, mapNumericDate claims "nbf" = Some nbf → nbf * second ≤ now) ∧
    get_string "nonce" claims = nonce ∧ nonce ≠ "" ∧ ui = profile_of_claims p claims ∧ uiID ui ≠ "".

Lemma rs256_only alg signing sig k : alg ∈ idTokenAlgs → verify_signature alg signing sig k = Ok tt →
  alg = "RS256" ∧ ∃ n e, k = RSAKey n e ∧ rsa_verifies signing sig n e = true.
Proof.
  unfold verify_signature, VerifyRS256. intros Ha. case_decide as E1.
  - destruct k as [n e|]; [|done]. destruct (rsa_verifies signing sig n e) eqn:Ev; [|done]. intros _. split; [done|]. by exists n, e.
  - case_decide as E2; [|done]. subst alg. unfold idTokenAlgs in Ha. by repeat (apply elem_of_cons in Ha as [?|Ha]; [done|]); apply elem_of_nil in Ha.
Qed.
Lemma published_issuer p d : discovered p = Some d → document_ok p d = true → issuer p ≠ "" →
  expectedIDTokenIssuer p ≠ "" ∧ trim_slashes (expectedIDTokenIssuer p) = issuer p.
Proof.
  intros Ed Edoc Hne. unfold expectedIDTokenIssuer. rewrite Ed. unfold document_ok in Edoc. rewrite !andb_true_iff, bool_decide_eq_true in Edoc.
  destruct Edoc as [[Et _] _]. case_decide as E; [rewrite E in Et; by destruct Hne|]. done.
Qed.
Lemma VerifyIDToken_after now tok nonce p : good p → issuer p ≠ "" → clientID p ≠ "" →
  after (VerifyIDToken lookup w now tok nonce) (λ ui p', attested now tok nonce p p' ui) p.
Proof.
  intros Hg Hi Hc. unfold VerifyIDToken. destruct (decide (tok = "")); [by apply after_fail|]. destruct (_ <? _); [by apply after_fail|].
  destruct (decide (nonce = "")) as [|Hnonce]; [by apply after_fail|]. apply after_then. eapply after_mono; [|by apply discover_after].
  intros d p1 Hg1 Hs1 [Ed Edoc] _ _. apply after_then, after_self; [done|]. intros _ _. apply after_then.
  destruct (same_config_guard _ _ Hs1) as (_ & Ei & Ec & En).
  assert (Hkey : after (λ p, match key_header tok with
                 | Some header => if forbidden_header header then (Some None, p, [])
                                  else let '(k, p', t) := signingKey lookup w (get_string "kid" header) p in (Some k, p', t)
                 | None => (Some None, p, [])
                 end) (λ key p', ∀ header k, key_header tok = Some header → key = Some k →
                    forbidden_header header = false ∧ jwks p' !! get_string "kid" header = Some k ∧ usable_key k) p1).
  { intros a p2 t. destruct (key_header tok) as [header|]; [|intros [= <- <- <-]; split_and!; [done|apply same_config_refl|constructor|naive_solver]].
    destruct (forbidden_header header) eqn:Ef; [intros [= <- <- <-]; split_and!; [done|apply same_config_refl|constructor|naive_solver]|].
    destruct (signingKey _ _ _ p1) as [[k0 p3] t3] eqn:Ek. intros [= <- <- <-]. destruct (signingKey_after _ _ Hg1 _ _ _ Ek) as (Hg3 & Hs3 & Ht3 & Hk3).
    split_and!; try done. intros v [= <-] h k [= <-] ->. split_and!; [done|by apply Hk3|]. eapply (proj2 Hg3). by apply Hk3. }
  eapply after_mono; [|exact Hkey]. intros key p2 Hg2 Hs2 Hk Hs2' _. apply after_then, after_pure; [done|]. intros claims Hcl _ _.
  destruct (ParseWithClaims _ _ _ _) as [c|] eqn:Ep; [|done]. injection Hcl as ->.
  destruct (bool_decide (get_string "nonce" claims = nonce)) eqn:En'; cbn [negb]; [|by apply after_fail]. apply bool_decide_eq_true in En'.
  destruct (decide (get_string "sub" claims = "")) as [|Hsub]; [by apply after_fail|]. apply after_ret; [done|].
  apply parse_id_token in Ep as (h & pl & s & header & payload & sig & k & Es & Ekh & -> & Eh & Epl & Esig & Eu & Ea & Ev & Eva).
  destruct (Hk _ _ Ekh eq_refl) as (Hf & Hj & Huse). destruct (rs256_only _ _ _ _ Ea Ev) as (Ealg & n0 & e & -> & Hver).
  apply splitToken_iff in Es as (-> & _). apply validateClaims_nil in Eva as (He & Hn & _ & Hiss & Haud). cbn [expectedIssuer expectedAud id_config requireExp] in *.
  destruct (published_issuer p1 d Ed Edoc) as [Hne Htrim]; [congruence|].
  exists h, pl, s, header, payload, sig, n0, e, claims. split_and!; try done.
  - change (GetIssuer claims) with (get_string "iss" claims) in Hiss. rewrite Hiss by done. congruence.
  - change (GetAudience claims) with (map_audience claims) in Haud. rewrite <- Ec. apply Haud. congruence.
  - destruct He as [[? ?]|(x & ? & ?)]; [done|]. by exists x.
  - unfold profile_of_claims. by rewrite En.
Qed.
End calls.

(** C5. An ID token is believed only as the answer to this login.  Whatever the
    network returns, a verified profile comes from three canonical segments
    whose RS256 signature an RSA key of 2048 to 4096 bits in the issuer's key
    set verified, with no header steering the lookup; the claims name the
    configured issuer (up to trailing slashes) and this client, are current,
    carry the nonce minted for the attempt, and name a subject; and the profile
    is read from those claims alone. *)
Theorem id_token_is_attested lookup w now tok nonce p ui p' t :
  resolves lookup → good p → issuer p ≠ "" → clientID p ≠ "" →
  VerifyIDToken lookup w now tok nonce p = (Some ui, p', t) → attested now tok nonce p p' ui.
Proof. intros Hres Hg Hi Hc E. by destruct (VerifyIDToken_after _ _ Hres now tok nonce _ Hg Hi Hc _ _ _ E) as (_ & _ & _ & ?); auto. Qed.

(** ** A provider at work *)
(** Any sequence of calls, the network answering each as it likes. *)
Inductive serves : OIDCProvider → list contact → OIDCProvider → Prop :=
| s_idle p : serves p [] p
| s_authorize lookup w st n c p r p1 t1 p2 t2 : resolves lookup → AuthURL lookup w st n c p = (r, p1, t1) → serves p1 t2 p2 → serves p (t1 ++ t2) p2
| s_exchange lookup w code cv p r p1 t1 p2 t2 : resolves lookup → Exchange lookup w code cv p = (r, p1, t1) → serves p1 t2 p2 → serves p (t1 ++ t2) p2
| s_userinfo lookup w tok p r p1 t1 p2 t2 : resolves lookup → UserInfo_ lookup w tok p = (r, p1, t1) → serves p1 t2 p2 → serves p (t1 ++ t2) p2
| s_verify lookup w now tok n p r p1 t1 p2 t2 : resolves lookup → VerifyIDToken lookup w now tok n p = (r, p1, t1) → serves p1 t2 p2 → serves p (t1 ++ t2) p2.
Lemma serves_step p p1 p2 t1 t2 : good p1 ∧ same_config p p1 ∧ Forall (contact_ok p) t1 → (good p1 → good p2 ∧ same_config p1 p2 ∧ Forall (contact_ok p1) t2) →
  good p2 ∧ same_config p p2 ∧ Forall (contact_ok p) (t1 ++ t2).
Proof.
  intros (Hg1 & Hs1 & Ht1) IH. destruct (IH Hg1) as (Hg2 & Hs2 & Ht2). split_and!; [done|by eapply same_config_trans|].
  apply Forall_app. split; [done|]. destruct (same_config_guard _ _ Hs1) as (Eg & Ei & _).
  eapply Forall_impl; [|exact Ht2]. intros c. unfold contact_ok, well_known. by rewrite Eg, Ei.
Qed.
Lemma serves_good p t p' : issuer p ≠ "" → clientID p ≠ "" → serves p t p' → good p → good p' ∧ same_config p p' ∧ Forall (contact_ok p) t.
Proof.
  intros Hi Hc Hs. assert (Hcfg : ∀ A (x : io A) Q q q1 r t1, after x Q q → x q = (r, q1, t1) → good q1 ∧ same_config q q1 ∧ Forall (contact_ok q) t1).
  { intros A x Q q q1 r t1 Hx E. by destruct (Hx _ _ _ E) as (? & ? & ? & _). }
  revert Hi Hc. induction Hs as [p|lookup w st n c p r p1 t1 p2 t2 Hres E _ IH|lookup w code cv p r p1 t1 p2 t2 Hres E _ IH
    |lookup w tok p r p1 t1 p2 t2 Hres E _ IH|lookup w now tok n p r p1 t1 p2 t2 Hres E _ IH]; intros Hi Hc Hg.
  - split_and!; [done|apply same_config_refl|constructor].
  - pose proof (Hcfg _ _ _ _ _ _ _ (AuthURL_after _ _ Hres st n c _ Hg) E) as H1. eapply serves_step; [exact H1|]. destruct H1 as (_ & Hs1 & _).
    destruct (same_config_guard _ _ Hs1) as (_ & Ei & Ec & _). apply IH; congruence.
  - pose proof (Hcfg _ _ _ _ _ _ _ (Exchange_after _ _ Hres code cv _ Hg) E) as H1. eapply serves_step; [exact H1|]. destruct H1 as (_ & Hs1 & _).
    destruct (same_config_guard _ _ Hs1) as (_ & Ei & Ec & _). apply IH; congruence.
  - pose proof (Hcfg _ _ _ _ _ _ _ (UserInfo_after _ _ Hres tok _ Hg) E) as H1. eapply serves_step; [exact H1|]. destruct H1 as (_ & Hs1 & _).
    destruct (same_config_guard _ _ Hs1) as (_ & Ei & Ec & _). apply IH; congruence.
  - pose proof (Hcfg _ _ _ _ _ _ _ (VerifyIDToken_after _ _ Hres now tok n _ Hg Hi Hc) E) as H1. eapply serves_step; [exact H1|]. destruct H1 as (_ & Hs1 & _).
    destruct (same_config_guard _ _ Hs1) as (_ & Ei & Ec & _). apply IH; congruence.
Qed.

End oidc_facts.

(** ** A login at an issuer *)
Module OidcDemo.
Definition hosts : list (string * string) :=
  [("https://idp.test", "idp.test"); ("https://idp.test/.well-known/openid-configuration", "idp.test");
   ("https://idp.test/auth", "idp.test"); ("https://idp.test/token", "idp.test"); ("https://keys.idp.test/jwks", "keys.idp.test")].
#[export] Instance parser : URLParser := {|
  url_Parse := λ s, match find (λ p, bool_decide (p.1 = s)) hosts with
                    | Some (_, h) => Some (mkURL "https" h h (h +:+ ":443"))
                    | None => None
                    end;
  set_query := λ u q, u +:+ "?" +:+ Encode q |}.
#[export] Instance verifier : Verifier := {
  rsa_verifies signing sig n e := bool_decide (sig = "signed");
  ec_verifies _ _ _ _ := false
}.
Definition lookup : resolver := λ _, Some [v4mapped + 203 * 2 ^ 24 + 5].
Lemma names_resolve : resolves lookup.
Proof. intros h ips [= <-]. repeat constructor; unfold v4mapped; lia. Qed.

Fixpoint repeat_char (n : nat) (c : ascii) : string := match n with O => "" | S n => String c (repeat_char n c) end.
Definition document : string := quoted
  "{'issuer':'https://idp.test/','authorization_endpoint':'https://idp.test/auth','token_endpoint':'https://idp.test/token','jwks_uri':'https://keys.idp.test/jwks'}".
Definition key_set : string :=
  quoted "{'keys':[{'kty':'EC','kid':'k0'},{'kty':'RSA','kid':'k1','use':'sig','e':'AQAB','n':'" +:+ encodeSegment (repeat_char 257 "x"%char) +:+ quoted "'}]}".
Definition answers : wire := λ _ r,
  if decide (rURL r = "https://idp.test/.well-known/openid-configuration") then Some (mkResponse 200 document None)
  else if decide (rURL r = "https://keys.idp.test/jwks") then Some (mkResponse 200 key_set None)
  else Some (mkResponse 200 (quoted "{'access_token':'at','id_token':'it'}") None).
Definition provider : OIDCProvider := NewOIDCProvider "idp" "https://idp.test/" "me" "secret" "https://vault.test/cb" "" (Some (NewPolicy [] false)).
Definition id_token : string :=
  encodeSegment (quoted "{'alg':'RS256','kid':'k1'}") +:+ "." +:+
  encodeSegment (quoted "{'iss':'https://idp.test/','aud':'me','exp':1.9e3,'nonce':'n1','sub':'alice','email':'a@x.test','email_verified':true}") +:+ "." +:+
  encodeSegment "signed".
Definition verified := VerifyIDToken lookup answers (1500 * second) id_token "n1" provider.
Lemma provider_good : good provider.
Proof. split; [done|]. intros kid k Hk. cbn in Hk. by rewrite lookup_empty in Hk. Qed.

Example other_nonce_refused : (VerifyIDToken lookup answers (1500 * second) id_token "n2" provider).1.1 = None.
Proof. by vm_compute. Qed.

Lemma id_token_is_attested_witness :
  ∃ ui p' t, verified = (Some ui, p', t) ∧ uiID ui = "alice" ∧ uiEmailVerified ui = true ∧ attested (1500 * second) id_token "n1" provider p' ui.
Proof.
  assert (Hv : ∃ ui p' t, verified = (Some ui, p', t) ∧ uiID ui = "alice" ∧ uiEmailVerified ui = true).
  { eexists _, _, _. split; [vm_compute; reflexivity|]. by split. }
  destruct Hv as (ui & p' & t & E & Hid & He). exists ui, p', t. split_and!; [done..|].
  apply (id_token_is_attested lookup answers (1500 * second) id_token "n1" provider ui p' t names_resolve provider_good); [by vm_compute|by vm_compute|exact E].
Defined.

End OidcDemo.
