(* ===== verification/Model.v ===== *)
(** * Model: domain types shared by the components

    Models internal/model/model.go, restricted to the fields the modelled
    operations read or write: the account row and the refresh token.  A
    [time.Time] that may be zero, and a pointer that may be nil, are options;
    SQL NULL is [None] and the Go side's [""] is its image. *)
From S2P Require Import Prelude.
Open Scope string_scope.
Open Scope Z_scope.

(** The columns only the profile, the operators and the erasure touch. *)
Record UserProfile := mkUserProfile {
  DisplayName : string;
  AvatarURL : string;
  Locale : string;
  MFARequired : bool;
  BanReason : string;
  ImportedFrom : string;
  LegacyID : string;
  UCreatedAt : Z;
}.
Definition no_profile : UserProfile := mkUserProfile "" "" "en" false "" "" "" 0.

Record User := mkUser {
  UID : string;
  Email : string;
  EmailVerified : bool;
  PasswordHash : string;
  LockedUntil : option Z;
  FailedLoginCount : Z;
  Roles : list string;
  Disabled : bool;
  Banned : bool;
  LastLoginAt : option Z;
  Deleted : bool;
  ImportPending : bool;
  MustResetPassword : bool;
  Profile : UserProfile;
}.

Record RefreshToken := mkRefreshToken {
  TID : string;
  TUserID : string;
  TClientID : string;
  TokenHash : string;
  FamilyID : string;
  TDeviceID : string;
  FingerprintHash : string;
  DPoPJKT : string;
  ExpiresAt : Z;
  TUsed : bool;
  TRevoked : bool;
  TCreatedAt : option Z;
}.

(** A session as the listing shows it. *)
Record ActiveFamily := mkActiveFamily {
  AFamilyID : string;
  ADeviceID : string;
  AClientID : string;
  ACreatedAt : Z;
  ALastUsedAt : Z;
  AExpiresAt : Z;
}.
