(* ===== verification/Middleware.v ===== *)
(** * Middleware: what stands between a request and its handler

    Models internal/middleware/auth.go, dpop.go, fingerprint.go and
    liveaccount.go, the password confirmation of internal/handler/auth.go, and
    the wrappers internal/server/server.go composes them into ([authed],
    [authedWrite], [confirmed], [confirmedWrite], [authedChallenge]).

    A middleware takes the request, the context so far and the cache, and
    either serves (with the context the next one sees) or refuses with a status
    and a code.  Each reading of the clock is an argument. *)
From S2P Require Import Prelude GoStd Cache Crypto Json Bytes Base64 Jwt DPoP NetIP ClientIP Model.
From Stdlib Require Import Ascii.
Open Scope string_scope.
Open Scope Z_scope.

Record HTTPRequest := mkHTTPRequest { Conn : Request; Method : string; URLPath : string }.
Definition header (h : string) (r : HTTPRequest) : string := HeaderGet h (Conn r).

(** The request context: the validated claims ([GetClaims]) and the thumbprint
    a proof established ([dpop.Thumbprint], empty without one). *)
Record Ctx := mkCtx { GetClaims : option VaultClaims; Thumbprint : string }.
Definition WithThumbprint (ctx : Ctx) (jkt : string) : Ctx := mkCtx (GetClaims ctx) jkt.

Inductive verdict := Serve (ctx : Ctx) | Refuse (status : Z) (message : string).

(** The [cnf.jkt] of the claims in the context, empty when there is none. *)
Definition bound_key (ctx : Ctx) : string := default "" (GetClaims ctx ≫= Confirmation).

Section middleware.
Context `{Primitives} `{Verifier}.

(** ** Bearer tokens *)
Definition schemeAllowed (acceptDPoPScheme : bool) (scheme : string) : bool :=
  bool_decide (scheme = "Bearer") || (acceptDPoPScheme && bool_decide (scheme = "DPoP")).

(** A public key per key id. *)
Definition key_lookup (keys : gmap string (Z * Z)) (hdr : list (string * json)) : option publicKey :=
  '(n, e) ← keys !! get_string "kid" hdr; Some (RSAKey n e).

Definition authWithTypes (keys : gmap string (Z * Z)) (issuer audience : string) (acceptDPoPScheme : bool)
    (allowed : list string) (now : Z) (r : HTTPRequest) (ctx : Ctx) : verdict :=
  let authHeader := header "Authorization" r in
  if decide (authHeader = "") then Refuse 401 "missing_authorization"
  else match Cut 32 authHeader with
       | None => Refuse 401 "invalid_authorization"
       | Some (scheme, tokenStr) =>
           if negb (schemeAllowed acceptDPoPScheme scheme) then Refuse 401 "invalid_authorization"
           else match ParseAndValidate now tokenStr (key_lookup keys) issuer audience with
                | Err _ => Refuse 401 "invalid_token"
                | Ok claims =>
                    let tt := if decide (TokenType claims = "") then "Bearer" else TokenType claims in
                    if bool_decide (tt ∈ allowed) then Serve (mkCtx (Some claims) (Thumbprint ctx))
                    else Refuse 401 "invalid_token_type"
                end
       end.
Definition Auth keys issuer audience accept := authWithTypes keys issuer audience accept ["Bearer"].
Definition AuthChallenge keys issuer audience accept :=
  authWithTypes keys issuer audience accept ["Bearer"; "2fa_challenge"].

(** ** Scopes *)
(** The audit record of a refusal: event, subject, client, address, agent and
    the scope, method and path asked for. *)
Record scopeRefusal := mkScopeRefusal {
  srEvent : string; srSubject : string; srClient : string; srIP : string; srAgent : string;
  srScope : string; srMethod : string; srPath : string;
}.
Definition recordRefusal (p : proxies) (auditEvent : option string) (r : HTTPRequest) (claims : VaultClaims)
    (scope : string) : list scopeRefusal :=
  match auditEvent with
  | None => []
  | Some ev => [mkScopeRefusal ev (Subject claims) (CClientID claims) (ClientIP p (Conn r)) (header "User-Agent" r)
                  scope (Method r) (URLPath r)]
  end.
Definition RequireScope (p : proxies) (scope : string) (auditEvent : option string) (r : HTTPRequest) (ctx : Ctx)
  : verdict * list scopeRefusal :=
  match GetClaims ctx with
  | None => (Refuse 401 "unauthorized", [])
  | Some claims =>
      if existsb (λ s, bool_decide (s = scope)) (Scopes claims) then (Serve ctx, [])
      else (Refuse 403 "insufficient_scope", recordRefusal p auditEvent r claims scope)
  end.

(** ** Devices and accounts *)
Definition Fingerprint (p : proxies) (softMode : bool) (r : HTTPRequest) (ctx : Ctx) : verdict :=
  match GetClaims ctx with
  | None => Serve ctx
  | Some claims =>
      if decide (CFingerprint claims = "") then Serve ctx
      else
        let fp := ComputeFingerprint (mkFingerprintInput (ClientIP p (Conn r)) (header "User-Agent" r)
                    (header "Accept-Language" r) (TLSFingerprint p (Conn r))) in
        if CompareFingerprints fp (CFingerprint claims) then Serve ctx
        else if softMode then Serve ctx else Refuse 401 "invalid_token"
  end.

(** [isLive] answers from the database: the account, or an error. *)
Definition isLive (lookup : string → res unit (option User)) (userID : string) : res unit bool :=
  match lookup userID with
  | Err e => Err e
  | Ok u => Ok (match u with Some x => negb (Deleted x) | None => false end)
  end.
Definition LiveAccount (lookup : string → res unit (option User)) (ctx : Ctx) : verdict :=
  match GetClaims ctx with
  | None => Refuse 401 "unauthorized"
  | Some claims =>
      match isLive lookup (Subject claims) with
      | Ok true => Serve ctx
      | _ => Refuse 401 "unauthorized"
      end
  end.

(** ** Proof of possession *)
Definition dpopReplayTTL : Z := 2 * DPoPMaxAge + 30 * second.
Definition dpopReplayKey (jti : string) : string := "dpop_jti:" +:+ SHA256Hex jti.

Section cached.
Context {C : Type} `{CacheOps C}.

(** The replay check: [None] lets the request on.  A proof over a token that
    is not bound, while claims are present, protects nothing and writes
    nothing. *)
Definition replay_check (now : Z) (jti : string) (ctx : Ctx) (c : option C) : option (Z * string) * option C :=
  let required := negb (bool_decide (bound_key ctx = "")) in
  if negb (bool_decide (jti = "")) && (bool_decide (GetClaims ctx = None) || required) then
    match c with
    | None => (if required then Some (503, "dpop_replay_check_unavailable") else None, None)
    | Some c0 =>
        match SetIfNotExists now (dpopReplayKey jti) "1" dpopReplayTTL c0 with
        | (Err _, c1) => (if required then Some (503, "dpop_replay_check_unavailable") else None, Some c1)
        | (Ok false, c1) => (Some (401, "dpop_proof_reused"), Some c1)
        | (Ok true, c1) => (None, Some c1)
        end
    end
  else (None, c).

(** [tv] is when the proof is validated, [tc] when its jti is reserved. *)
Definition DPoP (origin : string) (tv tc : Z) (r : HTTPRequest) (ctx : Ctx) (c : option C) : verdict * option C :=
  let dpopProof := header "DPoP" r in
  let required := negb (bool_decide (bound_key ctx = "")) in
  if decide (dpopProof = "") then
    (if required then Refuse 401 "dpop_proof_required" else Serve ctx, c)
  else
    let '(scheme, ath) :=
      match Cut 32 (header "Authorization" r) with
      | Some (scheme, tok) => (scheme, SHA256Base64URL tok)
      | None => ("", "")
      end in
    match ValidateDPoPProof tv dpopProof (Method r) (origin +:+ URLPath r) ath with
    | Err _ => (Refuse 401 "invalid_dpop_proof", c)
    | Ok (thumbprint, jti) =>
        match replay_check tc jti ctx c with
        | (Some (status, message), c1) => (Refuse status message, c1)
        | (None, c1) =>
            if required && negb (bool_decide (scheme = "DPoP")) then (Refuse 401 "dpop_scheme_required", c1)
            else if required && negb (SecureCompare (bound_key ctx) thumbprint)
                 then (Refuse 401 "dpop_thumbprint_mismatch", c1)
            else (Serve (WithThumbprint ctx thumbprint), c1)
        end
    end.

(** ** Recent password confirmation *)
Definition confirm_key (sub : string) : string := "confirm:" +:+ sub.
Definition Confirmed (now : Z) (ctx : Ctx) (c : C) : verdict * C :=
  match GetClaims ctx with
  | None => (Refuse 401 "unauthorized", c)
  | Some claims =>
      match Get now (confirm_key (Subject claims)) c with
      | (Ok val, c1) =>
          if bool_decide (val = "") || negb (bool_decide (val = JTI claims))
          then (Refuse 403 "requires_confirmation", c1) else (Serve ctx, c1)
      | (Err _, c1) => (Refuse 403 "requires_confirmation", c1)
      end
  end.

(** [ConfirmPassword]: the request body's password, the account row as the
    database returned it, whether the password semaphore is full; [t1] to [t4]
    are the instants of its cache calls. *)
Definition confirm_lockout_key (sub : string) : string := "confirm_lockout:" +:+ sub.
Definition confirm_locked (t1 : Z) (sub : string) (c : C) : bool * C :=
  match Get t1 (confirm_lockout_key sub) c with
  | (Ok val, c1) =>
      (if bool_decide (val = "") then false else 5 <=? default 0 (Sscanf_d val), c1)
  | (Err _, c1) => (false, c1)
  end.
Definition ConfirmPassword (pepper : string) (t1 t2 t3 : Z) (ctx : Ctx) (password : string)
    (user : res unit (option User)) (full : bool) (c : C) : (Z * string) * C :=
  match GetClaims ctx with
  | None => ((401, "unauthorized"), c)
  | Some claims =>
      if decide (password = "") then ((400, "password_required"), c)
      else match user with
           | Err _ | Ok None => ((401, "unauthorized"), c)
           | Ok (Some u) =>
               let '(locked, c1) := confirm_locked t1 (Subject claims) c in
               if locked then ((429, "too_many_attempts"), c1)
               else if full then ((503, "server_busy"), c1)
               else match argon2_verify password (PasswordHash u) pepper with
                    | Ok true =>
                        let c2 := (Delete t2 (confirm_lockout_key (Subject claims)) c1).2 in
                        match Set_ t3 (confirm_key (Subject claims)) (JTI claims) (5 * minute) c2 with
                        | (Ok _, c3) => ((200, "confirmed"), c3)
                        | (Err _, c3) => ((500, "internal_error"), c3)
                        end
                    | _ => ((401, "invalid_password"),
                            (Increment t2 (confirm_lockout_key (Subject claims)) (15 * minute) c1).2)
                    end
           end
  end.

(** ** The wrappers of the server *)
Definition and_then (x : verdict * option C) (k : Ctx → option C → verdict * option C) : verdict * option C :=
  match x with (Serve ctx, c) => k ctx c | (Refuse s m, c) => (Refuse s m, c) end.

Record ServerConfig := mkServerConfig {
  Origin : string;
  DPoPEnabled : bool;
  Keys : gmap string (Z * Z);
  Proxies : proxies;
  Users : string → res unit (option User);
}.

(** [dpopWrap]: the DPoP middleware when it is enabled. *)
Definition dpopWrap (cfg : ServerConfig) (tv tc : Z) (r : HTTPRequest) (ctx : Ctx) (c : option C) : verdict * option C :=
  if DPoPEnabled cfg then DPoP (Origin cfg) tv tc r ctx c else (Serve ctx, c).
Definition confirmMw (now : Z) (ctx : Ctx) (c : option C) : verdict * option C :=
  match c with
  | Some c0 => let '(v, c1) := Confirmed now ctx c0 in (v, Some c1)
  | None => (Refuse 500 "internal_server_error", None)  (** a nil cache: the panic handler answers *)
  end.

(** The readings of the clock on the way in. *)
Record instants := mkInstants { tAuth : Z; tProof : Z; tReserve : Z; tConfirm : Z }.

Definition empty_ctx : Ctx := mkCtx None "".
Definition guarded (allowed : list string) (cfg : ServerConfig) (t : instants) (r : HTTPRequest) (c : option C)
  : verdict * option C :=
  and_then (authWithTypes (Keys cfg) (Origin cfg) (Origin cfg) (DPoPEnabled cfg) allowed (tAuth t) r empty_ctx, c)
    (λ ctx c, and_then (Fingerprint (Proxies cfg) false r ctx, c)
      (dpopWrap cfg (tProof t) (tReserve t) r)).

Definition authed := guarded ["Bearer"].
Definition authedChallenge := guarded ["Bearer"; "2fa_challenge"].
Definition confirmed cfg t r (c : option C) := and_then (authed cfg t r c) (confirmMw (tConfirm t)).
Definition liveMw (cfg : ServerConfig) (ctx : Ctx) (c : option C) : verdict * option C := (LiveAccount (Users cfg) ctx, c).
Definition authedWrite cfg t r (c : option C) := and_then (authed cfg t r c) (liveMw cfg).
Definition confirmedWrite cfg t r (c : option C) :=
  and_then (and_then (authed cfg t r c) (confirmMw (tConfirm t))) (liveMw cfg).
End cached.
End middleware.
