(* ===== verification/MiddlewareFacts.v ===== *)
(** * MiddlewareFacts: what a request that reaches its handler has shown

    A sender-constrained token is served only with a fresh proof of its key; a
    proof carries one request; and a handler behind the strictest wrapper runs
    only for an authentic token, on the device it was issued to, confirmed by
    password within five minutes, of an account that still exists. *)
From S2P Require Import Prelude GoStd Cache CacheFacts Counter PgCache Reserve Crypto Json Bytes Base64 Jwt JwtFacts DPoP DPoPFacts NetIP ClientIP Model Middleware.
From stdpp Require Import list.
From Stdlib Require Import Ascii.
Open Scope string_scope.
Open Scope Z_scope.

Section facts.
Context `{Primitives} `{Verifier} {C : Type} `{CacheOps C}.
Implicit Types (r : HTTPRequest) (ctx : Ctx).

(** ** Proof of possession *)
(** The proof a bound token was served with. *)
Definition proven (origin : string) (tv : Z) r (jkt jti : string) : Prop :=
  ∃ tok, Cut 32 (header "Authorization" r) = Some ("DPoP", tok) ∧
    ValidateDPoPProof tv (header "DPoP" r) (Method r) (origin +:+ URLPath r) (SHA256Base64URL tok) = Ok (jkt, jti).

Lemma DPoP_served origin tv tc r ctx c ctx' c' :
  DPoP origin tv tc r ctx c = (Serve ctx', c') → bound_key ctx ≠ "" →
  GetClaims ctx' = GetClaims ctx ∧ Thumbprint ctx' = bound_key ctx ∧
  ∃ jti c0 c1, proven origin tv r (bound_key ctx) jti ∧ jti ≠ "" ∧ c = Some c0 ∧ c' = Some c1 ∧
    SetIfNotExists tc (dpopReplayKey jti) "1" dpopReplayTTL c0 = (Ok true, c1).
Proof.
  intros Hs Hb. unfold DPoP in Hs. rewrite (bool_decide_false (bound_key ctx = "")) in Hs by done. cbn [negb] in Hs.
  case_decide as Hp; [done|].
  destruct (match Cut 32 (header "Authorization" r) with Some (s, t) => (s, SHA256Base64URL t) | None => ("", "") end)
    as [scheme ath] eqn:Ea.
  destruct (ValidateDPoPProof _ _ _ _ ath) as [[tp jti]|] eqn:Ev; [|done].
  assert (Hj : jti ≠ "") by (by destruct (validated_claims _ _ _ _ _ _ _ Ev) as (? & ? & _ & _ & ? & _)).
  unfold replay_check in Hs. rewrite (bool_decide_false (jti = "")), (bool_decide_false (bound_key ctx = "")) in Hs by done.
  cbn [negb] in Hs. rewrite orb_true_r in Hs. cbn [andb] in Hs.
  destruct c as [c0|]; [|done]. destruct (SetIfNotExists _ _ _ _ _) as [[[]|] c1] eqn:En; try done.
  destruct (decide (scheme = "DPoP")) as [->|]; [rewrite bool_decide_true in Hs by done|by rewrite bool_decide_false in Hs].
  cbn [negb] in Hs. rewrite SecureCompare_eq in Hs.
  destruct (decide (bound_key ctx = tp)) as [<-|]; [rewrite bool_decide_true in Hs by done|by rewrite bool_decide_false in Hs].
  cbn [negb] in Hs. injection Hs as <- <-. split_and!; try done.
  exists jti, c0, c1. split_and!; try done.
  destruct (Cut 32 _) as [[s t]|] eqn:Ec; [|done]. exists t. by simplify_eq.
Qed.

(** C11. A stolen sender-constrained token is useless without its key: a request
    whose token carries cnf.jkt passes the DPoP middleware only under the DPoP
    scheme, with a proof valid now for this method and address that commits to
    this very token and is signed by the key with that thumbprint, and only
    when the proof's identifier could be reserved, the cache being required;
    the context then carries that thumbprint and the same claims. *)
Theorem bound_token_needs_its_key origin tv tc r ctx c ctx' c' :
  DPoP origin tv tc r ctx c = (Serve ctx', c') → bound_key ctx ≠ "" →
  GetClaims ctx' = GetClaims ctx ∧ Thumbprint ctx' = bound_key ctx ∧
  ∃ tok jti c0 c1,
    header "Authorization" r = "DPoP" +:+ " " +:+ tok ∧
    ValidateDPoPProof tv (header "DPoP" r) (Method r) (origin +:+ URLPath r) (SHA256Base64URL tok)
      = Ok (bound_key ctx, jti) ∧
    c = Some c0 ∧ c' = Some c1 ∧
    SetIfNotExists tc (dpopReplayKey jti) "1" dpopReplayTTL c0 = (Ok true, c1).
Proof.
  intros Hs Hb. destruct (DPoP_served _ _ _ _ _ _ _ _ Hs Hb) as (? & ? & jti & c0 & c1 & (tok & Hc & Hv) & _ & ? & ? & ?).
  split_and!; try done. exists tok, jti, c0, c1. split_and!; try done. by apply Cut_some in Hc as [? _].
Qed.
End facts.

(** ** A proof carries one request *)
Section replay.
Context `{Primitives} `{Verifier} {C : Type} `{ReservationCache C}.

(** What happens to the cache between two requests, up to [T], as far as the
    reservation of [k] is concerned. *)
Inductive meanwhile (k : string) (T : Z) : C → C → Prop :=
| mw_refl c : meanwhile k T c c
| mw_step now c c1 c2 : now ≤ T → undisturbed k now c c1 → meanwhile k T c1 c2 → meanwhile k T c c2.

Lemma meanwhile_held k T c c' e : meanwhile k T c c' → T < e → held c k = Some e → held c' k = Some e.
Proof.
  induction 1 as [|now c c1 c2 Hle Hu _ IH]; intros HT Hh; [done|]. apply IH; [done|].
  destruct Hu as [->|(e' & He & ?)]; [done|]. rewrite Hh in He. simplify_eq. lia.
Qed.

(** C23. No proof is accepted twice: once a proof has carried a request with a
    sender-constrained token, the same proof is refused on every later request
    that a proof protects, a bound token or a token endpoint, whatever its
    method, address or token, for as long as the proof would be acceptable at
    all; provided the reservation is left alone meanwhile and each request gets
    from validation to reservation within the thirty seconds of slack. *)
Theorem dpop_proof_is_single_use o1 tv1 tc1 r1 ctx1 c1 ctx1' c1' o2 tv2 tc2 r2 ctx2 c2 :
  DPoP o1 tv1 tc1 r1 ctx1 (Some c1) = (Serve ctx1', Some c1') → bound_key ctx1 ≠ "" →
  header "DPoP" r2 = header "DPoP" r1 →
  GetClaims ctx2 = None ∨ bound_key ctx2 ≠ "" →
  tv1 ≤ tc1 → tc2 - tv2 < 30 * second →
  (∀ cl, proof_claims (header "DPoP" r1) = Some cl → meanwhile (dpopReplayKey (DID cl)) tc2 c1' c2) →
  ∃ status message c2', DPoP o2 tv2 tc2 r2 ctx2 (Some c2) = (Refuse status message, c2').
Proof.
  intros Hs1 Hb1 Hp Hprot Ht1 Ht2 Hm.
  destruct (DPoP_served _ _ _ _ _ _ _ _ Hs1 Hb1) as (_ & _ & jti & ? & ? & (tok & _ & Hv1) & Hj & [= <-] & [= <-] & Hset).
  unfold DPoP. rewrite Hp. destruct (decide (header "DPoP" r1 = "")) as [E|_].
  { rewrite E in Hv1. by vm_compute in Hv1. }
  destruct (match Cut 32 (header "Authorization" r2) with Some (s, t) => (s, SHA256Base64URL t) | None => ("", "") end)
    as [scheme ath].
  destruct (ValidateDPoPProof tv2 _ _ _ ath) as [[tp2 jti2]|] eqn:Hv2; [|by eexists _, _, _].
  destruct (validated_claims _ _ _ _ _ _ _ Hv1) as (cl1 & iat1 & Hc1 & Hd1 & _ & Hi1 & Hr1).
  destruct (validated_claims _ _ _ _ _ _ _ Hv2) as (cl2 & iat2 & Hc2 & Hd2 & _ & Hi2 & Hr2).
  rewrite Hc1 in Hc2. injection Hc2 as <-. rewrite Hi1 in Hi2. injection Hi2 as <-. rewrite Hd1 in Hd2. subst jti2.
  assert (Hheld : held c2 (dpopReplayKey jti) = Some (tc1 + dpopReplayTTL)).
  { specialize (Hm cl1 Hc1). rewrite Hd1 in Hm.
    eapply meanwhile_held; [exact Hm| |eapply granted_held; [|exact Hset]]; unfold dpopReplayTTL, DPoPMaxAge, minute, second in *; lia. }
  assert (Hset2 : SetIfNotExists tc2 (dpopReplayKey jti) "1" dpopReplayTTL c2 = (Ok false, c2)).
  { eapply held_refused; [exact Hheld|]. unfold dpopReplayTTL, DPoPMaxAge, minute, second in *; lia. }
  unfold replay_check. rewrite (bool_decide_false (jti = "")) by done. cbn [negb].
  assert (Hq : bool_decide (GetClaims ctx2 = None) || negb (bool_decide (bound_key ctx2 = "")) = true).
  { destruct Hprot as [->|Hb]; [done|]. rewrite (bool_decide_false (bound_key ctx2 = "")) by done. apply orb_true_r. }
  rewrite Hq, Hset2. cbn [andb]. by eexists _, _, _.
Qed.
End replay.

(** ** The whole way in *)
Section chain.
Context `{Primitives} `{Verifier} {C : Type} `{CacheOps C}.

(** The token of a request, and what the checks on it established. *)
Definition authenticated (cfg : ServerConfig) (allowed : list string) (now : Z) (r : HTTPRequest) (claims : VaultClaims) : Prop :=
  ∃ scheme tok, header "Authorization" r = scheme +:+ " " +:+ tok ∧
    (scheme = "Bearer" ∨ DPoPEnabled cfg = true ∧ scheme = "DPoP") ∧
    ParseAndValidate now tok (key_lookup (Keys cfg)) (Origin cfg) (Origin cfg) = Ok claims ∧
    (TokenType claims ∈ allowed ∨ TokenType claims = "" ∧ "Bearer" ∈ allowed).

Lemma authWithTypes_served cfg allowed now r ctx ctx' :
  authWithTypes (Keys cfg) (Origin cfg) (Origin cfg) (DPoPEnabled cfg) allowed now r ctx = Serve ctx' →
  ∃ claims, ctx' = mkCtx (Some claims) (Thumbprint ctx) ∧ authenticated cfg allowed now r claims.
Proof.
  unfold authWithTypes. case_decide; [done|]. destruct (Cut 32 _) as [[scheme tok]|] eqn:Ec; [|done].
  apply Cut_some in Ec as [Ec _]. destruct (schemeAllowed _ scheme) eqn:Es; [|done]. cbn [negb].
  destruct (ParseAndValidate _ _ _ _ _) as [claims|] eqn:Ep; [|done].
  destruct (bool_decide _) eqn:Eb; [|done]. intros [= <-]. exists claims. split; [done|].
  exists scheme, tok. split_and!; try done.
  - unfold schemeAllowed in Es. apply orb_true_iff in Es as [Es|Es]; bool_hyps; auto.
  - apply bool_decide_eq_true in Eb. case_decide; auto.
Qed.

(** The device the token was issued to, when it names one. *)
Definition same_device (cfg : ServerConfig) (r : HTTPRequest) (claims : VaultClaims) : Prop :=
  CFingerprint claims = "" ∨
  ComputeFingerprint (mkFingerprintInput (ClientIP (Proxies cfg) (Conn r)) (header "User-Agent" r)
    (header "Accept-Language" r) (TLSFingerprint (Proxies cfg) (Conn r))) = CFingerprint claims.

Lemma Fingerprint_served cfg r claims t ctx' :
  Fingerprint (Proxies cfg) false r (mkCtx (Some claims) t) = Serve ctx' →
  ctx' = mkCtx (Some claims) t ∧ same_device cfg r claims.
Proof.
  unfold Fingerprint, same_device, CompareFingerprints. cbn [GetClaims]. case_decide; [intros [= <-]; auto|].
  rewrite SecureCompare_eq. case_bool_decide; [|done]. intros [= <-]. auto.
Qed.

Definition holds_its_key (cfg : ServerConfig) (tv : Z) (r : HTTPRequest) (claims : VaultClaims) : Prop :=
  DPoPEnabled cfg = true → ∀ jkt, Confirmation claims = Some jkt → jkt ≠ "" → ∃ jti, proven (Origin cfg) tv r jkt jti.

Lemma DPoP_claims origin tv tc r ctx (c : option C) ctx' c' :
  DPoP origin tv tc r ctx c = (Serve ctx', c') → GetClaims ctx' = GetClaims ctx.
Proof.
  unfold DPoP. intros Hs. repeat (case_match; simplify_eq/=; try done).
Qed.

Lemma guarded_served allowed cfg t r (c : option C) ctx' c' :
  guarded allowed cfg t r c = (Serve ctx', c') →
  ∃ claims, GetClaims ctx' = Some claims ∧ authenticated cfg allowed (tAuth t) r claims ∧
    same_device cfg r claims ∧ holds_its_key cfg (tProof t) r claims.
Proof.
  unfold guarded. destruct (authWithTypes _ _ _ _ _ _ _ _) as [ctx1|] eqn:Ea; [|done]. cbn [and_then].
  destruct (authWithTypes_served _ _ _ _ _ _ Ea) as (claims & -> & Hauth).
  destruct (Fingerprint _ _ _ _) as [ctx2|] eqn:Ef; [|done]. cbn [and_then].
  destruct (Fingerprint_served _ _ _ _ _ Ef) as [-> Hdev]. unfold dpopWrap, holds_its_key.
  destruct (DPoPEnabled cfg) eqn:Ed.
  - intros Hs. exists claims. split_and!; try done; [by rewrite (DPoP_claims _ _ _ _ _ _ _ _ Hs)|].
    intros _ jkt Hj Hne. destruct (DPoP_served _ _ _ _ _ _ _ _ Hs) as (_ & _ & jti & _ & _ & Hp & _);
      unfold bound_key in *; cbn in *; rewrite Hj in *; eauto.
  - intros [= <- <-]. exists claims. split_and!; try done.
Qed.

Lemma Confirmed_served now ctx (c0 : C) ctx' c1 :
  Confirmed now ctx c0 = (Serve ctx', c1) →
  ctx' = ctx ∧ ∃ claims, GetClaims ctx = Some claims ∧ JTI claims ≠ "" ∧
    Get now (confirm_key (Subject claims)) c0 = (Ok (JTI claims), c1).
Proof.
  unfold Confirmed. destruct (GetClaims ctx) as [claims|] eqn:Eg; [|done].
  destruct (Get _ _ _) as [[v|] c2] eqn:Ec; [|done]. destruct (_ || _) eqn:Eo; [done|].
  apply orb_false_iff in Eo as [E1 E2]. bool_hyps. intros [= <- <-]. split; [done|]. exists claims.
  subst v. split_and!; done.
Qed.

(** The strictest wrapper lets through only an entitled write: when it
    serves, the request carries an authentic access token, of the plain type,
    presented on the device it was issued to and, where DPoP is on and the
    token is bound, with a proof of its key; the cache held a password
    confirmation made under that very token's identifier; and the account was
    read and is not erased. *)
Theorem confirmed_write_is_entitled cfg t r (c : option C) ctx' c' :
  confirmedWrite cfg t r c = (Serve ctx', c') →
  ∃ claims u c0 c1, GetClaims ctx' = Some claims ∧
    authenticated cfg ["Bearer"] (tAuth t) r claims ∧
    same_device cfg r claims ∧ holds_its_key cfg (tProof t) r claims ∧
    JTI claims ≠ "" ∧ Get (tConfirm t) (confirm_key (Subject claims)) c0 = (Ok (JTI claims), c1) ∧
    Users cfg (Subject claims) = Ok (Some u) ∧ Deleted u = false.
Proof.
  unfold confirmedWrite, authed. destruct (guarded _ _ _ _ _) as [[ctx1|] c1] eqn:Eg; [|done]. cbn [and_then].
  destruct (guarded_served _ _ _ _ _ _ _ Eg) as (claims & Hc & Ha & Hd & Hk).
  unfold confirmMw. destruct c1 as [c1|]; [|done]. destruct (Confirmed _ _ _) as [[ctx2|] c2] eqn:Ef; [|done].
  destruct (Confirmed_served _ _ _ _ _ Ef) as (-> & claims' & Hc' & Hj & Hg). rewrite Hc in Hc'. injection Hc' as <-.
  cbn [and_then]. unfold liveMw, LiveAccount, isLive. rewrite Hc.
  destruct (Users cfg (Subject claims)) as [[u|]|] eqn:Eu; [|done..]. destruct (Deleted u) eqn:Edel; [done|].
  cbn [negb]. intros [= <- <-]. by exists claims, u, c1, c2.
Qed.
End chain.

(** ** Password confirmation *)
Section confirm.
Context `{Primitives}.

(** A confirmation is bought with the password and expires: the endpoint
    answers 200 only to a caller whose password verified while the account's
    confirm counter stood below five, and then the confirmation check passes
    for that token at every instant of the next five minutes at which the entry
    still stands, and at none after. *)
Theorem confirmation_needs_password pepper t1 t2 t3 ctx claims pw user full m m' msg :
  GetClaims ctx = Some claims → JTI claims ≠ "" →
  ConfirmPassword (C := Memory.MemoryCache) pepper t1 t2 t3 ctx pw user full m = ((200, msg), m') →
  (∃ u, user = Ok (Some u) ∧ argon2_verify pw (PasswordHash u) pepper = Ok true ∧ pw ≠ "" ∧ full = false) ∧
  (confirm_locked t1 (Subject claims) m).1 = false ∧
  ∀ now, (Confirmed now ctx m').1
         = if t3 + 5 * minute <? now then Refuse 403 "requires_confirmation" else Serve ctx.
Proof.
  intros Hc Hj. unfold ConfirmPassword. rewrite Hc. case_decide as Hpw; [done|]. destruct user as [[u|]|]; [|done..].
  destruct (confirm_locked t1 (Subject claims) m) as [[] c1] eqn:El; [done|]. destruct full; [done|].
  destruct (argon2_verify pw (PasswordHash u) pepper) as [[]|] eqn:Ev; [|done..].
  set (c2 := (Cache.Delete t2 _ c1).2). destruct (Cache.Set_ t3 _ _ _ c2) as [[[]|] c3] eqn:Es; [|done]. intros [= _ <-].
  split_and!; [by exists u|done|]. intros now. unfold Confirmed. rewrite Hc.
  cbn in Es |- *. unfold Memory.MSet in Es. destruct (Memory.may_admit _ _) as [[] c4]; [|done]. injection Es as <-.
  unfold Memory.MGet. cbn [Memory.data Memory.with_data]. rewrite lookup_insert_eq. unfold Memory.expired, Memory.ttl_expiry.
  change (0 <? 5 * minute) with true. cbn [Memory.expiresAt Memory.value]. destruct (Z.ltb_spec (t3 + 5 * minute) now); [done|].
  rewrite (bool_decide_false (JTI claims = "")), (bool_decide_true (JTI claims = JTI claims)) by done. done.
Qed.
End confirm.

(** ** Concrete requests *)
Module MwDemo.
#[export] Instance prims : Primitives := {|
  sha256_hex s := "x" +:+ FormatInt (Z.of_nat (String.length s));
  sha256_b64url s := "h" +:+ FormatInt (Z.of_nat (String.length s));
  hmac_hex m k := m +:+ "/" +:+ k;
  argon2_verify pw h p := Ok (bool_decide ("$" +:+ pw = h));
  argon2_hash salt pw p := "$" +:+ pw;
  SignToken c k := Ok ""
|}.
Definition verifier : Verifier := DPoPDemo.verifier.
#[export] Existing Instance verifier.

Definition jkt : string := default "" (ComputeJWKThumbprint DPoPDemo.point).
Definition token : string :=
  encodeSegment (quoted "{'alg':'RS256','kid':'ab12','typ':'JWT'}") +:+ "." +:+
  encodeSegment (quoted "{'iss':'https://v','sub':'alice','aud':['https://v'],'exp':1900,'iat':1000,'jti':'t1','cnf':{'jkt':'"
    +:+ jkt +:+ quoted "'}}") +:+ "." +:+ encodeSegment "signed by 77".
Definition proof : string :=
  encodeSegment DPoPDemo.hdr +:+ "." +:+
  encodeSegment (quoted "{'jti':'j1','htm':'POST','htu':'https://v/user/x','iat':1000,'ath':'" +:+ SHA256Base64URL token +:+ quoted "'}")
    +:+ "." +:+ encodeSegment "signed by point".
Definition req : HTTPRequest :=
  mkHTTPRequest (mkRequest "10.0.0.1:5" (<["Authorization" := ["DPoP " +:+ token]]> {["Dpop" := [proof]]})) "POST" "/user/x".
Definition alice : User :=
  mkUser "alice" "a@b" true "$secret" None 0 ["user"] false false None false false false no_profile.
Definition cfg : ServerConfig :=
  mkServerConfig "https://v" true {["ab12" := (77, 65537)]} (mkProxies [] "" "")
    (λ i, Ok (if decide (i = "alice") then Some alice else None)).
Definition claims : VaultClaims :=
  match ParseAndValidate (1100 * second) token (key_lookup (Keys cfg)) "https://v" "https://v" with
  | Ok c => c | Err _ => zero_claims end.
Definition ctx : Ctx := mkCtx (Some claims) "".
Definition m0 : Memory.MemoryCache := Memory.NewMemoryCache.
(** The password confirmed, a moment before. *)
Definition m1 : Memory.MemoryCache :=
  (ConfirmPassword "" (1050 * second) (1050 * second) (1050 * second) ctx "secret" (Ok (Some alice)) false m0).2.
Definition at_ (s : Z) : instants := mkInstants (s * second) (s * second) (s * second + 1) (s * second + 2).
Definition first : verdict * option Memory.MemoryCache := DPoP "https://v" (1100 * second) (1100 * second + 1) req ctx (Some m0).
Definition after (x : verdict * option Memory.MemoryCache) : Memory.MemoryCache := default m0 x.2.
End MwDemo.
#[local] Existing Instance MwDemo.prims.
#[local] Existing Instance MwDemo.verifier.

Example served_once :
  match MwDemo.first.1 with Serve c => bool_decide (Thumbprint c = MwDemo.jkt) | _ => false end = true ∧
  (DPoP "https://v" (1200 * second) (1200 * second) MwDemo.req MwDemo.ctx MwDemo.first.2).1 = Refuse 401 "dpop_proof_reused" ∧
  (DPoP "https://v" (1100 * second) (1100 * second) (C := Memory.MemoryCache) MwDemo.req MwDemo.ctx None).1
    = Refuse 503 "dpop_replay_check_unavailable" ∧
  (authedWrite MwDemo.cfg (MwDemo.at_ 1950) MwDemo.req (Some MwDemo.m0)).1 = Refuse 401 "invalid_token" ∧
  (confirmedWrite MwDemo.cfg (MwDemo.at_ 1100) MwDemo.req (Some MwDemo.m0)).1 = Refuse 403 "requires_confirmation".
Proof. by vm_compute. Qed.

Lemma bound_token_needs_its_key_witness :
  ∃ ctx' c', MwDemo.first = (Serve ctx', c') ∧ Thumbprint ctx' = bound_key MwDemo.ctx.
Proof.
  unfold MwDemo.first. destruct (DPoP _ _ _ _ _ _) as [[ctx'|] c'] eqn:E; [|by vm_compute in E].
  exists ctx', c'. split; [done|].
  destruct (bound_token_needs_its_key _ _ _ _ _ _ _ _ E) as (_ & Ht & _); [by vm_compute|exact Ht].
Defined.

(** The same proof two minutes later, from another session of the same key. *)
Lemma dpop_proof_is_single_use_witness :
  ∃ status message c2', DPoP "https://v" (1220 * second) (1220 * second) MwDemo.req MwDemo.ctx
    (Some (MwDemo.after MwDemo.first)) = (Refuse status message, c2').
Proof.
  unfold MwDemo.after, MwDemo.first.
  destruct (DPoP _ (1100 * second) _ _ _ _) as [[ctx'|] c'] eqn:E; [|by vm_compute in E].
  destruct c' as [c'|]; [|by vm_compute in E].
  apply (dpop_proof_is_single_use "https://v" (1100 * second) (1100 * second + 1) MwDemo.req MwDemo.ctx MwDemo.m0
    ctx' c' "https://v" (1220 * second) (1220 * second) MwDemo.req MwDemo.ctx c' E).
  - by vm_compute.
  - reflexivity.
  - right. by vm_compute.
  - unfold second. lia.
  - unfold second. lia.
  - intros cl _. apply mw_refl.
Defined.

Lemma confirmed_write_is_entitled_witness :
  ∃ ctx' c' claims u, confirmedWrite MwDemo.cfg (MwDemo.at_ 1100) MwDemo.req (Some MwDemo.m1) = (Serve ctx', c') ∧
    GetClaims ctx' = Some claims ∧ Users MwDemo.cfg (Subject claims) = Ok (Some u).
Proof.
  destruct (confirmedWrite MwDemo.cfg (MwDemo.at_ 1100) MwDemo.req (Some MwDemo.m1)) as [[ctx'|] c'] eqn:E;
    [|by vm_compute in E].
  destruct (confirmed_write_is_entitled _ _ _ _ _ _ E) as (claims & u & _ & _ & Hc & _ & _ & _ & _ & _ & Hu & _).
  exists ctx', c', claims, u. split_and!; done.
Defined.

Lemma confirmation_needs_password_witness :
  (Confirmed (1350 * second) MwDemo.ctx MwDemo.m1).1 = Serve MwDemo.ctx ∧
  (Confirmed (1351 * second) MwDemo.ctx MwDemo.m1).1 = Refuse 403 "requires_confirmation".
Proof.
  unfold MwDemo.m1. destruct (ConfirmPassword _ _ _ _ _ _ _ _ _) as [[st msg] m'] eqn:E.
  assert (Hst : st = 200) by (by vm_compute in E; simplify_eq). subst st.
  destruct (confirmation_needs_password _ _ _ _ MwDemo.ctx MwDemo.claims _ _ _ _ _ _ eq_refl ltac:(by vm_compute) E)
    as (_ & _ & Hc).
  split; [exact (Hc (1350 * second))|exact (Hc (1351 * second))].
Defined.
