(* ===== verification/TokenStore.v ===== *)
(** * TokenStore: the refresh-token table and its statements

    Models internal/repository/postgres/refresh_token.go.  The table is a list
    of rows; each method is one transaction whose locks make it atomic, so it
    is a function on the database, with [NOW()] as an argument.  A unique
    violation of the primary key or of the token-hash index is [ErrUnique];
    other database failures belong to the callers' fault model.  The advisory
    lock of [CreateWithinCap] and the lock order of [lockThenWrite] are what
    makes the atomic reading right; they have no other effect here. *)
From S2P Require Import Prelude GoStd Model.
From stdpp Require Import sorting.
From Stdlib Require Import Ascii.
Open Scope string_scope.
Open Scope Z_scope.

(** ** Rows *)
Record row := mkRow {
  id : string;
  user_id : string;
  client_id : option string;
  token_hash : string;
  family_id : string;
  device_id : option string;
  fingerprint_hash : option string;
  expires_at : Z;
  used : bool;
  revoked : bool;
  created_at : Z;
  family_created_at : Z;
  dpop_jkt : option string;
}.

(** The two tables the statements read. *)
Record DB := mkDB { tokens : list row; users : gmap string User }.

Definition with_tokens (ts : list row) (db : DB) : DB := mkDB ts (users db).

Inductive repoErr :=
| ErrFamilyRevoked
| ErrSessionLimitReached
| ErrTOTPCounterNotAdvanced
| ErrUnique        (** SQLSTATE 23505 *)
| ErrDB.           (** any other database error *)

#[export] Instance repoErr_eq_dec : EqDecision repoErr.
Proof. solve_decision. Defined.

Definition nullStr (s : string) : option string := if decide (s = "") then None else Some s.
Definition deref (o : option string) : string := default "" o.

Definition set_used (r : row) : row :=
  mkRow (id r) (user_id r) (client_id r) (token_hash r) (family_id r) (device_id r)
    (fingerprint_hash r) (expires_at r) true (revoked r) (created_at r)
    (family_created_at r) (dpop_jkt r).
Definition set_revoked (r : row) : row :=
  mkRow (id r) (user_id r) (client_id r) (token_hash r) (family_id r) (device_id r)
    (fingerprint_hash r) (expires_at r) (used r) true (created_at r)
    (family_created_at r) (dpop_jkt r).

(** [UPDATE ... SET revoked = TRUE WHERE p], and the rows it touched. *)
Definition update (p : row → bool) (f : row → row) (db : DB) : DB :=
  with_tokens ((λ r, if p r then f r else r) <$> tokens db) db.
Definition affected (p : row → bool) (db : DB) : nat :=
  length (filter (λ r, p r = true) (tokens db)).
Definition delete_where (p : row → bool) (db : DB) : DB :=
  with_tokens (filter (λ r, p r = false) (tokens db)) db.

Definition of_family (f : string) (r : row) : bool := bool_decide (family_id r = f).
Definition family (f : string) (db : DB) : list row :=
  filter (λ r, of_family f r = true) (tokens db).

(** SQL aggregates: [MIN] of a column that may be NULL, NULL when nothing is left. *)
Definition min_time (l : list Z) : option Z :=
  match l with [] => None | x :: l' => Some (fold_left Z.min l' x) end.
Definition str_min (a b : string) : string := if String.leb a b then a else b.
Definition min_str (l : list (option string)) : option string :=
  match omap (λ x, x) l with [] => None | x :: l' => Some (fold_left str_min l' x) end.

(** ** Insertion *)
(** Go's zero [time.Time], 1 January of year 1, as an instant. *)
Definition zero_time : Z := - 62135596800 * second.

Definition live_user (u : string) (db : DB) : bool :=
  match users db !! u with Some x => negb (Deleted x) | None => false end.

(** The row [insertRefreshRowSQL] computes: the family's birth date and DPoP
    binding are read back from the family, and taken from the caller only when
    the family has no row yet. *)
Definition insert_row (t : RefreshToken) (db : DB) : row :=
  let fam := family (FamilyID t) db in
  let created := default zero_time (TCreatedAt t) in
  mkRow (TID t) (TUserID t) (nullStr (TClientID t)) (TokenHash t) (FamilyID t)
    (nullStr (TDeviceID t)) (nullStr (FingerprintHash t)) (ExpiresAt t) false false created
    (default created (min_time (family_created_at <$> fam)))
    (match fam with [] => nullStr (DPoPJKT t) | _ => min_str (dpop_jkt <$> fam) end).

(** The guard: no revoked row in the family, and the account not tombstoned. *)
Definition insert_guard (t : RefreshToken) (db : DB) : bool :=
  negb (existsb revoked (family (FamilyID t) db)) && live_user (TUserID t) db.

Definition Create (t : RefreshToken) (db : DB) : res repoErr unit * DB :=
  if insert_guard t db then
    if existsb (λ r, bool_decide (id r = TID t) || bool_decide (token_hash r = TokenHash t)) (tokens db)
    then (Err ErrUnique, db)
    else (Ok tt, with_tokens (tokens db ++ [insert_row t db]) db)
  else (Err ErrFamilyRevoked, db).

(** A row that keeps a family in the concurrent-session count. *)
Definition active (now : Z) (r : row) : bool :=
  negb (revoked r) && negb (used r) && (now <? expires_at r).
Definition active_of (now : Z) (u : string) (r : row) : bool :=
  bool_decide (user_id r = u) && active now r.
Definition active_families (now : Z) (u : string) (db : DB) : list string :=
  remove_dups (family_id <$> filter (λ r, active_of now u r = true) (tokens db)).

Definition CountActiveFamilies (now : Z) (u : string) (db : DB) : Z :=
  Z.of_nat (length (active_families now u db)).

Definition CreateWithinCap (now : Z) (t : RefreshToken) (maxFamilies : Z) (db : DB)
  : res repoErr unit * DB :=
  if maxFamilies <=? 0 then Create t db
  else if maxFamilies <=? CountActiveFamilies now (TUserID t) db
       then (Err ErrSessionLimitReached, db)
       else Create t db.

(** ** Reads *)
Definition FamilyOrigin (f : string) (db : DB) : option Z :=
  min_time (family_created_at <$> family f db).

Definition to_token (r : row) : RefreshToken :=
  mkRefreshToken (id r) (user_id r) (deref (client_id r)) (token_hash r) (family_id r)
    (deref (device_id r)) (deref (fingerprint_hash r)) (deref (dpop_jkt r)) (expires_at r)
    (used r) (revoked r) (Some (created_at r)).

Definition GetByTokenHash (h : string) (db : DB) : option RefreshToken :=
  to_token <$> head (filter (λ r, token_hash r = h) (tokens db)).

(** The newest live generation of a family ([DISTINCT ON ... ORDER BY created_at
    DESC]) and the listing, newest session first. *)
Definition newest (l : list row) : option row :=
  match l with
  | [] => None
  | r :: l' => Some (fold_left (λ a b, if created_at a <? created_at b then b else a) l' r)
  end.
Definition family_of_user (u f : string) (db : DB) : list row :=
  filter (λ r, (bool_decide (user_id r = u) && of_family f r) = true) (tokens db).
Definition list_entry (now : Z) (u : string) (db : DB) (f : string) : option ActiveFamily :=
  r ← newest (filter (λ r, active now r = true) (family_of_user u f db));
  b ← min_time (family_created_at <$> family_of_user u f db);
  Some (mkActiveFamily f (deref (device_id r)) (deref (client_id r)) b (created_at r) (expires_at r)).

Definition newer (a b : ActiveFamily) : Prop := ALastUsedAt b ≤ ALastUsedAt a.
#[export] Instance newer_dec a b : Decision (newer a b).
Proof. unfold newer. apply _. Defined.

Definition ListActiveFamilies (now : Z) (u : string) (db : DB) : list ActiveFamily :=
  merge_sort newer (omap (list_entry now u db) (active_families now u db)).

(** ** Spending and revoking *)
Definition MarkUsed (i : string) (db : DB) : bool * DB :=
  let p r := bool_decide (id r = i) && negb (used r) && negb (revoked r) in
  (Nat.eqb (affected p db) 1, update p set_used db).

Definition RevokeByID (i : string) (db : DB) : DB :=
  update (λ r, bool_decide (id r = i)) set_revoked db.

Definition RevokeByDeviceID (d : string) (db : DB) : DB :=
  update (λ r, bool_decide (device_id r = Some d) && negb (revoked r)) set_revoked db.

Definition RevokeFamily (f : string) (db : DB) : DB := update (of_family f) set_revoked db.

Definition RevokeAllForUser (u : string) (db : DB) : DB :=
  update (λ r, bool_decide (user_id r = u) && negb (revoked r)) set_revoked db.

Definition RevokeAll (db : DB) : DB := update (λ r, negb (revoked r)) set_revoked db.

Definition DeleteAllForUser (u : string) (db : DB) : DB :=
  delete_where (λ r, bool_decide (user_id r = u)) db.

(** ** The reapers *)
Definition refreshReapBatch : nat := 2000.
Definition refreshReapMaxBatches : nat := 20.

Definition id_le (a b : row) : Prop := String.leb (id a) (id b) = true.
#[export] Instance id_le_dec a b : Decision (id_le a b).
Proof. unfold id_le. apply _. Defined.

(** The ids one batch deletes: the first [batch] victims in ascending id. *)
Definition batch_ids (batch : nat) (victim : row → bool) (db : DB) : list string :=
  id <$> take batch (merge_sort id_le (filter (λ r, victim r = true) (tokens db))).

Definition reap_batch (batch : nat) (victim : row → bool) (db : DB) : nat * DB :=
  let p r := bool_decide (id r ∈ batch_ids batch victim db) in
  (affected p db, delete_where p db).

(** The batch loop: it stops at the first short batch, or after [n] batches. *)
Fixpoint reap_loop (n : nat) (batch : nat) (victim : row → bool) (total : nat) (db : DB) : nat * DB :=
  match n with
  | O => (total, db)
  | S n' =>
      let '(k, db') := reap_batch batch victim db in
      if (k <? batch)%nat then ((total + k)%nat, db')
      else reap_loop n' batch victim (total + k) db'
  end.

Definition spent_expired (now : Z) (r : row) : bool :=
  (expires_at r <? now) && (used r || revoked r).
Definition unused_expired (now : Z) (r : row) : bool :=
  (expires_at r <? now) && negb (used r) && negb (revoked r).

Definition DeleteExpired (now : Z) (db : DB) : nat * DB :=
  reap_loop refreshReapMaxBatches refreshReapBatch (spent_expired now) 0 db.
Definition DeleteExpiredUnused (now : Z) (db : DB) : nat * DB :=
  reap_loop refreshReapMaxBatches refreshReapBatch (unused_expired now) 0 db.
