(* ===== verification/TokenStoreFacts.v ===== *)
(** * TokenStoreFacts: what the refresh-token table guarantees

    Whatever a caller asks for, a family's birth date and DPoP binding never
    move while it has rows; a burned family takes no new row; the
    concurrent-session cap bounds what an insert leaves; the listing and the
    cap count the same sessions; the reaper collects exactly the dead rows. *)
From S2P Require Import Prelude GoStd Model TokenStore.
From stdpp Require Import sorting.
From Stdlib Require Import Ascii.
Open Scope string_scope.
Open Scope Z_scope.

(** ** Operations as data *)
Inductive store_op :=
| OpCreate (t : RefreshToken)
| OpCreateCap (t : RefreshToken) (cap : Z)
| OpMarkUsed (i : string)
| OpRevokeID (i : string)
| OpRevokeDevice (d : string)
| OpRevokeFamily (f : string)
| OpRevokeUser (u : string)
| OpRevokeAll
| OpDeleteUser (u : string)
| OpReapSpent
| OpReapUnused
| OpAccount (u : string) (x : option User).  (** any change to the users table *)

Definition store_exec (now : Z) (o : store_op) (db : DB) : DB :=
  match o with
  | OpCreate t => (Create t db).2
  | OpCreateCap t cap => (CreateWithinCap now t cap db).2
  | OpMarkUsed i => (MarkUsed i db).2
  | OpRevokeID i => RevokeByID i db
  | OpRevokeDevice d => RevokeByDeviceID d db
  | OpRevokeFamily f => RevokeFamily f db
  | OpRevokeUser u => RevokeAllForUser u db
  | OpRevokeAll => RevokeAll db
  | OpDeleteUser u => DeleteAllForUser u db
  | OpReapSpent => (DeleteExpired now db).2
  | OpReapUnused => (DeleteExpiredUnused now db).2
  | OpAccount u x => mkDB (tokens db) (partial_alter (λ _, x) u (users db))
  end.

(** A history: operations with their instants, and the databases they pass. *)
Inductive history : list (Z * store_op) → DB → list DB → DB → Prop :=
| h_nil db : history [] db [] db
| h_cons now o tr db dbs db' :
    history tr (store_exec now o db) dbs db' →
    history ((now, o) :: tr) db (store_exec now o db :: dbs) db'.

(** ** How each operation changes the table *)
(** The columns no statement rewrites. *)
Definition core (r : row) : string * string * Z * option string :=
  (id r, family_id r, family_created_at r, dpop_jkt r).

(** Every operation keeps a sublist of the rows' fixed columns, and an insert
    appends the row [insert_row] computes. *)
Definition shrinks (db db' : DB) : Prop :=
  core <$> tokens db' `sublist_of` core <$> tokens db.

Lemma core_set_used r : core (set_used r) = core r.
Proof. done. Qed.
Lemma core_set_revoked r : core (set_revoked r) = core r.
Proof. done. Qed.

Lemma update_core p f db :
  (∀ r, core (f r) = core r) → core <$> tokens (update p f db) = core <$> tokens db.
Proof.
  intros Hf. cbn. rewrite <- list_fmap_compose. apply list_fmap_ext.
  intros i r _. cbn. by case_match.
Qed.

Lemma update_shrinks p f db : (∀ r, core (f r) = core r) → shrinks db (update p f db).
Proof. intros Hf. unfold shrinks. by rewrite update_core. Qed.

Lemma delete_shrinks p db : shrinks db (delete_where p db).
Proof. unfold shrinks. cbn. apply fmap_sublist, sublist_filter. Qed.

Lemma shrinks_refl db : shrinks db db.
Proof. unfold shrinks. done. Qed.
Lemma shrinks_trans a b c : shrinks a b → shrinks b c → shrinks a c.
Proof. unfold shrinks. intros. by etrans. Qed.

#[export] Hint Resolve shrinks_refl core_set_used core_set_revoked : vault.

Lemma reap_loop_shrinks n batch victim total db :
  shrinks db (reap_loop n batch victim total db).2.
Proof.
  revert total db. induction n as [|n IH]; intros total db; [apply shrinks_refl|].
  cbn [reap_loop]. unfold reap_batch. case_match; [apply delete_shrinks|].
  eapply shrinks_trans; [apply delete_shrinks|apply IH].
Qed.

Lemma create_cases t db :
  (Create t db).2 = db ∨
  (insert_guard t db = true ∧ (Create t db).2 = with_tokens (tokens db ++ [insert_row t db]) db
   ∧ (Create t db).1 = Ok tt ∧ (id (insert_row t db) ∉ (id <$> tokens db))).
Proof.
  unfold Create. destruct (insert_guard t db) eqn:Hg; [|by left].
  destruct (existsb _ (tokens db)) eqn:He; [by left|]. right. split_and!; try done.
  intros (r & Hr & Hin)%list_elem_of_fmap. apply not_true_iff_false in He. apply He.
  apply existsb_exists. exists r. split; [by apply list_elem_of_In|].
  rewrite bool_decide_true by (by rewrite <- Hr). done.
Qed.

Lemma createcap_cases now t cap db :
  (CreateWithinCap now t cap db).2 = db ∨
  CreateWithinCap now t cap db = Create t db.
Proof. unfold CreateWithinCap. repeat case_match; auto. Qed.

Definition tokens_of_op (o : store_op) : option RefreshToken :=
  match o with OpCreate t | OpCreateCap t _ => Some t | _ => None end.

Lemma store_exec_cases now o db :
  shrinks db (store_exec now o db) ∨
  (∃ t, tokens_of_op o = Some t ∧ insert_guard t db = true ∧
        (id (insert_row t db) ∉ (id <$> tokens db)) ∧
        store_exec now o db = with_tokens (tokens db ++ [insert_row t db]) db).
Proof.
  assert (Hc : ∀ t, shrinks db (Create t db).2 ∨
    (insert_guard t db = true ∧ (id (insert_row t db) ∉ (id <$> tokens db)) ∧
     (Create t db).2 = with_tokens (tokens db ++ [insert_row t db]) db)).
  { intros t. destruct (create_cases t db) as [->|(?&?&?&?)]; auto with vault. }
  destruct o as [t|t cap| | | | | | | | | |]; cbn [store_exec];
    try (left; first [by apply update_shrinks | apply delete_shrinks | apply reap_loop_shrinks
                     | unfold shrinks; reflexivity]).
  - destruct (Hc t) as [?|(?&?&?)]; [by left|right; exists t; by split_and!].
  - destruct (createcap_cases now t cap db) as [->| ->]; [left; apply shrinks_refl|].
    destruct (Hc t) as [?|(?&?&?)]; [by left|right; exists t; by split_and!].
Qed.

(** ** The family invariant *)
(** Rows of one family agree on birth date and binding; ids are unique. *)
Definition family_const (l : list (string * string * Z * option string)) : Prop :=
  ∀ x y, x ∈ l → y ∈ l → x.1.1.2 = y.1.1.2 → x.1.2 = y.1.2 ∧ x.2 = y.2.

Definition store_inv (db : DB) : Prop :=
  NoDup (id <$> tokens db) ∧ family_const (core <$> tokens db).

Lemma ids_core db : id <$> tokens db = (λ x, x.1.1.1) <$> (core <$> tokens db).
Proof. rewrite <- list_fmap_compose. by apply list_fmap_ext. Qed.

Lemma store_inv_shrinks db db' : shrinks db db' → store_inv db → store_inv db'.
Proof.
  intros Hs [Hn Hf]. split.
  - rewrite ids_core in *. eapply sublist_NoDup; [done|]. by apply fmap_sublist.
  - intros x y Hx Hy. apply Hf; by eapply elem_of_sublist.
Qed.

Lemma min_time_const l c : l ≠ [] → Forall (λ x, x = c) l → min_time l = Some c.
Proof.
  destruct l as [|x l]; [done|]. intros _ [-> Hl]%Forall_cons_1. cbn. f_equal.
  induction Hl as [|y l -> Hl IH]; [done|]. cbn. by rewrite Z.min_id.
Qed.

Lemma str_min_idem s : str_min s s = s.
Proof. unfold str_min. by case_match. Qed.

Lemma min_str_const l c : l ≠ [] → Forall (λ x, x = c) l → min_str l = c.
Proof.
  intros Hne Hl. unfold min_str. destruct c as [s|].
  - destruct l as [|x l]; [done|]. clear Hne.
    apply Forall_cons_1 in Hl as [-> Hl]. cbn. f_equal.
    induction Hl as [|y l -> Hl IH]; [done|]. cbn. by rewrite str_min_idem.
  - enough (omap (λ x, x) l = []) as -> by done.
    clear Hne. induction Hl as [|y l -> Hl IH]; [done|]. cbn. done.
Qed.

Lemma elem_of_family f db r : r ∈ family f db ↔ r ∈ tokens db ∧ family_id r = f.
Proof.
  unfold family, of_family. rewrite list_elem_of_filter, bool_decide_eq_true. tauto.
Qed.

Lemma family_agrees f db r :
  store_inv db → r ∈ family f db →
  Forall (λ x, x = family_created_at r) (family_created_at <$> family f db) ∧
  Forall (λ x, x = dpop_jkt r) (dpop_jkt <$> family f db).
Proof.
  intros [_ Hc] Hr%elem_of_family. rewrite !Forall_fmap, !Forall_forall. cbn.
  split; intros x Hx%elem_of_family; destruct Hr as [Hr Hf], Hx as [Hx Hf'];
    destruct (Hc (core x) (core r)) as [? ?]; try (by apply list_elem_of_fmap_2); cbn in *; congruence.
Qed.

(** The birth date and binding of a family with a row are that row's. *)
Lemma family_reads f db r :
  store_inv db → r ∈ family f db →
  min_time (family_created_at <$> family f db) = Some (family_created_at r) ∧
  min_str (dpop_jkt <$> family f db) = dpop_jkt r.
Proof.
  intros Hi Hr. destruct (family_agrees _ _ _ Hi Hr) as [H1 H2].
  assert (family f db ≠ []) by (intros E; rewrite E in Hr; by apply elem_of_nil in Hr).
  split; [apply min_time_const | apply min_str_const]; try done;
    intros ?%fmap_nil_inv; done.
Qed.

(** The row an insert adds to a family that has rows carries its columns. *)
Lemma insert_row_inherits t db r :
  store_inv db → r ∈ family (FamilyID t) db →
  family_created_at (insert_row t db) = family_created_at r ∧
  dpop_jkt (insert_row t db) = dpop_jkt r.
Proof.
  intros Hi Hr. destruct (family_reads _ _ _ Hi Hr) as [H1 H2]. cbn. rewrite H1.
  split; [done|]. rewrite <- H2.
  destruct (family (FamilyID t) db); [by apply elem_of_nil in Hr|done].
Qed.

Lemma store_inv_insert t db :
  store_inv db → (id (insert_row t db) ∉ (id <$> tokens db)) →
  store_inv (with_tokens (tokens db ++ [insert_row t db]) db).
Proof.
  intros Hi Hid. pose proof Hi as [Hn Hf]. split; cbn; rewrite fmap_app; cbn.
  - apply NoDup_app. split_and!; [done| |apply NoDup_singleton].
    intros x Hx ->%list_elem_of_singleton. done.
  - assert (Hnew : ∀ x, x ∈ (core <$> tokens db) → x.1.1.2 = family_id (insert_row t db) →
      x.1.2 = family_created_at (insert_row t db) ∧ x.2 = dpop_jkt (insert_row t db)).
    { intros x (r & -> & Hr)%list_elem_of_fmap Hfam. cbn in Hfam.
      destruct (insert_row_inherits t db r Hi) as [-> ->]; [|done].
      by apply elem_of_family. }
    intros x y [Hx|Hx%list_elem_of_singleton]%elem_of_app [Hy|Hy%list_elem_of_singleton]%elem_of_app E;
      subst; cbn [core fst snd] in *; [by apply Hf|by apply Hnew| |done].
    destruct (Hnew y Hy) as [-> ->]; done.
Qed.

Lemma store_exec_inv now o db : store_inv db → store_inv (store_exec now o db).
Proof.
  intros Hi. destruct (store_exec_cases now o db) as [?|(t & _ & _ & Hid & ->)];
    [by eapply store_inv_shrinks|by apply store_inv_insert].
Qed.

(** A row of a family before and after an operation: same birth date, same
    binding. *)
Lemma store_exec_family now o db f r r' :
  store_inv db → r ∈ family f db → r' ∈ family f (store_exec now o db) →
  family_created_at r' = family_created_at r ∧ dpop_jkt r' = dpop_jkt r.
Proof.
  intros Hi Hr Hr'. pose proof Hi as [_ Hf].
  apply elem_of_family in Hr as Hr0. apply elem_of_family in Hr' as Hr0'.
  destruct Hr0 as [Hr1 Hr2], Hr0' as [Hr1' Hr2'].
  assert (Hold : core r' ∈ (core <$> tokens db) →
    family_created_at r' = family_created_at r ∧ dpop_jkt r' = dpop_jkt r).
  { intros Hin. destruct (Hf (core r') (core r)) as [? ?];
      [done|by apply list_elem_of_fmap_2|cbn; by rewrite Hr2, Hr2'|done]. }
  destruct (store_exec_cases now o db) as [Hs|(t & _ & _ & _ & Heq)].
  - apply Hold. eapply elem_of_sublist; [|exact Hs]. by apply list_elem_of_fmap_2.
  - rewrite Heq in Hr1'. cbn in Hr1'.
    apply elem_of_app in Hr1' as [Hin|Hin%list_elem_of_singleton].
    + apply Hold. by apply list_elem_of_fmap_2.
    + subst r'. apply insert_row_inherits; [done|]. cbn in Hr2'. by rewrite Hr2'.
Qed.

Lemma family_origin_of f db r :
  store_inv db → r ∈ family f db → FamilyOrigin f db = Some (family_created_at r).
Proof. intros Hi Hr. by destruct (family_reads f db r Hi Hr). Qed.

(** ** Burned families *)
Definition burned (f : string) (db : DB) : Prop :=
  family f db ≠ [] ∧ Forall (λ r, revoked r = true) (family f db).

Lemma guard_not_revoked t db :
  insert_guard t db = true → Forall (λ r, revoked r = false) (family (FamilyID t) db).
Proof.
  unfold insert_guard. intros [Hg _]%andb_true_iff. apply negb_true_iff in Hg.
  apply Forall_forall. intros r Hr. apply not_true_iff_false. intros Hv.
  apply not_true_iff_false in Hg. apply Hg, existsb_exists.
  exists r. split; [by apply list_elem_of_In|done].
Qed.

Lemma RevokeFamily_burns f db r : r ∈ family f db → burned f (RevokeFamily f db).
Proof.
  intros Hr%elem_of_family. split.
  - assert (set_revoked r ∈ family f (RevokeFamily f db)) as Hin.
    { apply elem_of_family. destruct Hr as [Hr Hf]. split; [|done]. cbn.
      apply list_elem_of_fmap. exists r. unfold of_family. by rewrite bool_decide_true. }
    intros E. rewrite E in Hin. by apply elem_of_nil in Hin.
  - apply Forall_forall. intros x [Hx Hf]%elem_of_family. cbn in Hx.
    apply list_elem_of_fmap in Hx as (y & -> & Hy). unfold of_family in *.
    destruct (bool_decide (family_id y = f)) eqn:E; [done|].
    apply bool_decide_eq_false in E. done.
Qed.

(** Every row of the table after an operation is an old row, possibly spent or
    revoked, or the row of an admitted insert. *)
Definition aged (r r' : row) : Prop :=
  r' = r ∨ r' = set_used r ∨ r' = set_revoked r.

Lemma update_aged p f db r' :
  (∀ r, f r = set_used r ∨ f r = set_revoked r) →
  r' ∈ tokens (update p f db) → ∃ r, r ∈ tokens db ∧ aged r r'.
Proof.
  intros Hf (r & -> & Hr)%list_elem_of_fmap. exists r. split; [done|].
  unfold aged. case_match; [right; apply Hf|by left].
Qed.

Lemma delete_aged p db r' : r' ∈ tokens (delete_where p db) → ∃ r, r ∈ tokens db ∧ aged r r'.
Proof. intros [_ Hr]%list_elem_of_filter. exists r'. by split; [|left]. Qed.

Lemma reap_loop_subset n batch victim total db r :
  r ∈ tokens (reap_loop n batch victim total db).2 → r ∈ tokens db.
Proof.
  revert total db. induction n as [|n IH]; intros total db; [done|].
  cbn [reap_loop]. unfold reap_batch. case_match; [|intros Hr%IH; revert Hr];
    intros [_ ?]%list_elem_of_filter; done.
Qed.

Lemma store_exec_rows now o db r' :
  r' ∈ tokens (store_exec now o db) →
  (∃ r, r ∈ tokens db ∧ aged r r') ∨
  (∃ t, tokens_of_op o = Some t ∧ insert_guard t db = true ∧ r' = insert_row t db).
Proof.
  assert (Hc : ∀ t, r' ∈ tokens (Create t db).2 →
    (∃ r, r ∈ tokens db ∧ aged r r') ∨ (insert_guard t db = true ∧ r' = insert_row t db)).
  { intros t. destruct (create_cases t db) as [->|(Hg & -> & _ & _)].
    - intros Hr. left. exists r'. by split; [|left].
    - cbn. intros [Hr| ->%list_elem_of_singleton]%elem_of_app; [|by right].
      left. exists r'. by split; [|left]. }
  assert (Hid : r' ∈ tokens db → ∃ r, r ∈ tokens db ∧ aged r r').
  { intros. exists r'. by split; [|left]. }
  destruct o as [t|t cap| | | | | | | | | |]; cbn [store_exec]; intros Hr;
    try (left; first [eapply update_aged; [|exact Hr]; by auto | by eapply delete_aged
                     | by eapply Hid, reap_loop_subset | by apply Hid]).
  - destruct (Hc t Hr) as [?|[? ?]]; [by left|right; exists t; by split_and!].
  - destruct (createcap_cases now t cap db) as [E|E]; rewrite E in Hr; [left; auto|].
    destruct (Hc t Hr) as [?|[? ?]]; [by left|right; exists t; by split_and!].
Qed.

Lemma aged_family r r' : aged r r' → family_id r' = family_id r.
Proof. by intros [->|[->| ->]]. Qed.
Lemma aged_revoked r r' : aged r r' → revoked r = true → revoked r' = true.
Proof. by intros [->|[->| ->]]. Qed.
Lemma aged_active now now' u r r' :
  aged r r' → now ≤ now' → active_of now' u r' = true → active_of now u r = true.
Proof.
  intros Ha Hle. unfold active_of, active.
  rewrite !andb_true_iff, !negb_true_iff, !Z.ltb_lt, !bool_decide_eq_true.
  destruct Ha as [->|[->| ->]]; cbn; intuition (try congruence; lia).
Qed.

(** A burned family with rows left stays burned. *)
Lemma store_exec_burned now o f db :
  burned f db → family f (store_exec now o db) ≠ [] → burned f (store_exec now o db).
Proof.
  intros [Hne Hall] Hne'. split; [done|]. apply Forall_forall.
  intros r' [Hr' Hf]%elem_of_family. rewrite Forall_forall in Hall.
  destruct (store_exec_rows _ _ _ _ Hr') as [(r & Hr & Ha)|(t & _ & Hg & ->)].
  - eapply aged_revoked; [done|]. apply Hall, elem_of_family. split; [done|].
    rewrite <- (aged_family _ _ Ha). done.
  - cbn in Hf. subst f. pose proof (guard_not_revoked _ _ Hg) as Hn.
    destruct (family (FamilyID t) db) as [|x l] eqn:E; [done|].
    apply Forall_cons_1 in Hn as [Hx _]. rewrite (Hall x) in Hx; [done|]. by left.
Qed.

(** ** Counting active families *)
Lemma active_families_subset now now' u db db' :
  (∀ r', r' ∈ tokens db' → active_of now' u r' = true →
     ∃ r, r ∈ tokens db ∧ family_id r = family_id r' ∧ active_of now u r = true) →
  (length (active_families now' u db') ≤ length (active_families now u db))%nat.
Proof.
  intros Hsub. apply submseteq_length, NoDup_submseteq; [apply NoDup_remove_dups|].
  intros f. unfold active_families. rewrite !elem_of_remove_dups.
  intros (r' & -> & [Ha Hr']%list_elem_of_filter)%list_elem_of_fmap.
  destruct (Hsub r' Hr' Ha) as (r & Hr & <- & Hact).
  apply list_elem_of_fmap_2, list_elem_of_filter. done.
Qed.

Lemma count_insert now u db r :
  (length (active_families now u (with_tokens (tokens db ++ [r]) db))
   ≤ S (length (active_families now u db)))%nat.
Proof.
  change (S (length (active_families now u db)))
    with (length (family_id r :: active_families now u db)).
  apply submseteq_length, NoDup_submseteq; [apply NoDup_remove_dups|].
  intros f. unfold active_families. rewrite elem_of_remove_dups. cbn.
  intros (x & -> & [Ha Hx]%list_elem_of_filter)%list_elem_of_fmap.
  apply elem_of_app in Hx as [Hx| ->%list_elem_of_singleton]; [|by left].
  right. rewrite elem_of_remove_dups. apply list_elem_of_fmap_2, list_elem_of_filter. done.
Qed.

(** The only inserts for [u] go through the cap. *)
Definition capped_op (u : string) (cap : Z) (o : store_op) : Prop :=
  match o with
  | OpCreate t => TUserID t ≠ u
  | OpCreateCap t c => TUserID t = u → c = cap
  | _ => True
  end.

Lemma count_shrinks now now' u db db' :
  now ≤ now' → (∀ r', r' ∈ tokens db' → ∃ r, r ∈ tokens db ∧ aged r r') →
  CountActiveFamilies now' u db' ≤ CountActiveFamilies now u db.
Proof.
  intros Hle Ha. unfold CountActiveFamilies.
  enough (length (active_families now' u db') ≤ length (active_families now u db))%nat by lia.
  apply active_families_subset. intros r' Hr' Hact. destruct (Ha r' Hr') as (r & Hr & Hag).
  exists r. split_and!; [done|by rewrite (aged_family _ _ Hag)|by eapply aged_active].
Qed.

Lemma count_later now now' u db :
  now ≤ now' → CountActiveFamilies now' u db ≤ CountActiveFamilies now u db.
Proof. intros Hle. apply count_shrinks; [done|]. intros r' Hr'. exists r'. by split; [|left]. Qed.

Lemma create_count_other now u t db :
  TUserID t ≠ u →
  CountActiveFamilies now u (Create t db).2 ≤ CountActiveFamilies now u db.
Proof.
  intros Hu. unfold CountActiveFamilies.
  enough (length (active_families now u (Create t db).2) ≤ length (active_families now u db))%nat by lia.
  apply active_families_subset. intros r' Hr' Hact.
  destruct (create_cases t db) as [E|(_ & E & _)]; rewrite E in Hr'; [by exists r'|].
  cbn in Hr'. apply elem_of_app in Hr' as [?| ->%list_elem_of_singleton]; [by exists r'|].
  unfold active_of in Hact. cbn in Hact. rewrite bool_decide_false in Hact by done. done.
Qed.

Lemma createcap_count now u t cap db :
  0 < cap → CountActiveFamilies now u db ≤ cap →
  CountActiveFamilies now u (CreateWithinCap now t cap db).2 ≤ cap.
Proof.
  intros Hc Hle. unfold CreateWithinCap. destruct (Z.leb_spec cap 0); [lia|].
  destruct (decide (TUserID t = u)) as [<-|Hu].
  - destruct (Z.leb_spec cap (CountActiveFamilies now (TUserID t) db)); [done|].
    destruct (create_cases t db) as [->|(_ & -> & _)]; [done|].
    unfold CountActiveFamilies in *. pose proof (count_insert now (TUserID t) db (insert_row t db)). lia.
  - case_match; [done|]. pose proof (create_count_other now u t db Hu). lia.
Qed.

Lemma capped_step now u cap o db :
  0 < cap → capped_op u cap o → CountActiveFamilies now u db ≤ cap →
  CountActiveFamilies now u (store_exec now o db) ≤ cap.
Proof.
  intros Hc Ho Hle.
  destruct (tokens_of_op o) as [t|] eqn:Eo.
  - destruct o as [t'|t' c| | | | | | | | | |]; cbn in Eo; simplify_eq; cbn [store_exec].
    + pose proof (create_count_other now u t db Ho). lia.
    + destruct (decide (TUserID t = u)) as [Hu|Hu]; cbn in Ho.
      * rewrite (Ho Hu). by apply createcap_count.
      * destruct (createcap_cases now t c db) as [->| ->]; [done|].
        pose proof (create_count_other now u t db Hu). lia.
  - etrans; [apply (count_shrinks now now u db); [lia|]|done].
    intros r' Hr'. destruct (store_exec_rows _ _ _ _ Hr') as [?|(t & ? & _)]; [done|congruence].
Qed.

(** ** Spending a token *)
Definition never_inserts (i : string) (o : store_op) : Prop :=
  match tokens_of_op o with Some t => TID t ≠ i | None => True end.

Definition spent_or_gone (i : string) (db : DB) : Prop :=
  Forall (λ r, id r = i → used r = true ∨ revoked r = true) (tokens db).

Lemma markused_spends i db : spent_or_gone i (MarkUsed i db).2.
Proof.
  apply Forall_forall. intros r' (r & -> & Hr)%list_elem_of_fmap Hid.
  case_match eqn:E; [by left|]. rewrite bool_decide_true in E by done. cbn in E.
  apply andb_false_iff in E as [E|E]; apply negb_false_iff in E; auto.
Qed.

Lemma spent_step i now o db :
  never_inserts i o → spent_or_gone i db → spent_or_gone i (store_exec now o db).
Proof.
  intros Hn Hs. apply Forall_forall. intros r' Hr' Hid.
  unfold spent_or_gone in Hs. rewrite Forall_forall in Hs.
  destruct (store_exec_rows _ _ _ _ Hr') as [(r & Hr & Ha)|(t & Ho & _ & ->)].
  - destruct Ha as [->|[->| ->]]; cbn in *; [by apply Hs|by left|by right].
  - unfold never_inserts in Hn. rewrite Ho in Hn. done.
Qed.

Lemma spent_refuses i db : spent_or_gone i db → (MarkUsed i db).1 = false.
Proof.
  intros Hs. unfold MarkUsed, affected. cbn.
  enough (filter (λ r, bool_decide (id r = i) && negb (used r) && negb (revoked r) = true)
    (tokens db) = []) as -> by done.
  unfold spent_or_gone in Hs. induction Hs as [|r l Hr Hl IH]; [done|].
  rewrite filter_cons, IH, decide_False; [done|].
  intros HH. bool_hyps. destruct Hr as [E|E]; congruence.
Qed.

(** ** The reaper *)
Lemma merge_sort_in l x : x ∈ merge_sort id_le l ↔ x ∈ l.
Proof. by rewrite (merge_sort_Permutation id_le l). Qed.

Lemma batch_length batch victim db :
  length (batch_ids batch victim db)
  = Nat.min batch (length (filter (λ r, victim r = true) (tokens db))).
Proof.
  unfold batch_ids. rewrite length_fmap, length_take.
  by rewrite (merge_sort_Permutation id_le (filter _ _)).
Qed.

Lemma fmap_id_inj db r r' :
  NoDup (id <$> tokens db) → r ∈ tokens db → r' ∈ tokens db → id r = id r' → r = r'.
Proof.
  intros Hn (i & Hi)%list_elem_of_lookup (j & Hj)%list_elem_of_lookup E.
  assert (i = j) as ->; [|congruence].
  eapply NoDup_lookup; [exact Hn| |]; rewrite list_lookup_fmap; [by rewrite Hi|]. by rewrite Hj, E.
Qed.

(** The rows a batch selects. *)
Definition batch_pred (batch : nat) (victim : row → bool) (db : DB) (r : row) : bool :=
  bool_decide (id r ∈ batch_ids batch victim db).

Lemma batch_source batch victim db i :
  i ∈ batch_ids batch victim db → ∃ r, r ∈ tokens db ∧ victim r = true ∧ id r = i.
Proof.
  intros (r & -> & Hr%subseteq_take)%list_elem_of_fmap.
  apply merge_sort_in, list_elem_of_filter in Hr as [Hv Hr]. by exists r.
Qed.

(** A batch deletes victims only. *)
Lemma batch_victims batch victim db r :
  NoDup (id <$> tokens db) → r ∈ tokens db → batch_pred batch victim db r = true → victim r = true.
Proof.
  intros Hn Hr (r' & Hr' & Hv & E)%bool_decide_eq_true%batch_source.
  by rewrite (fmap_id_inj db r r') by done.
Qed.

Lemma batch_nodup batch victim db :
  NoDup (id <$> tokens db) → NoDup (batch_ids batch victim db).
Proof.
  intros Hn. unfold batch_ids.
  eapply (sublist_NoDup _ (id <$> merge_sort id_le (filter _ _)));
    [|apply fmap_sublist, sublist_take].
  rewrite (merge_sort_Permutation id_le (filter _ _)).
  eapply sublist_NoDup; [done|]. apply fmap_sublist, sublist_filter.
Qed.

Lemma nodup_filter_ids (p : row → bool) db :
  NoDup (id <$> tokens db) → NoDup (id <$> filter (λ r, p r = true) (tokens db)).
Proof. intros Hn. eapply sublist_NoDup; [done|]. apply fmap_sublist, sublist_filter. Qed.

(** A batch deletes as many victims as there are, up to its size. *)
Lemma batch_affected batch victim db :
  NoDup (id <$> tokens db) →
  affected (batch_pred batch victim db) db
  = Nat.min batch (length (filter (λ r, victim r = true) (tokens db))).
Proof.
  intros Hn. rewrite <- (batch_length batch victim db). unfold affected.
  rewrite <- (length_fmap id (filter _ _)). apply Permutation_length, NoDup_Permutation;
    [by apply nodup_filter_ids|by apply batch_nodup|].
  intros i. rewrite list_elem_of_fmap. split.
  - intros (r & -> & [Hp _]%list_elem_of_filter). by apply bool_decide_eq_true in Hp.
  - intros Hi. destruct (batch_source _ _ _ _ Hi) as (r & Hr & _ & <-).
    exists r. split; [done|]. apply list_elem_of_filter. split; [|done].
    by apply bool_decide_eq_true.
Qed.

Lemma split_count (p q : row → bool) (l : list row) :
  (∀ r, r ∈ l → p r = true → q r = true) →
  length (filter (λ r, q r = true) l)
  = (length (filter (λ r, p r = true) l)
     + length (filter (λ r, q r = true) (filter (λ r, p r = false) l)))%nat.
Proof.
  induction l as [|r l IH]; intros Hpq; [done|].
  assert (Hpq' : ∀ r, r ∈ l → p r = true → q r = true) by (intros; apply Hpq; [by right|done]).
  specialize (IH Hpq'). specialize (Hpq r (list_elem_of_here _ _)).
  rewrite !filter_cons. destruct (p r) eqn:Ep; [rewrite (Hpq eq_refl)|]; cbn.
  - rewrite !decide_True, decide_False by done. cbn. lia.
  - rewrite (decide_False (P := false = true)), (decide_True (P := false = false)) by done.
    rewrite filter_cons. case_decide; cbn; lia.
Qed.

Lemma split_rest (p q : row → bool) (l : list row) :
  (∀ r, r ∈ l → p r = true → q r = true) →
  filter (λ r, q r = false) (filter (λ r, p r = false) l) = filter (λ r, q r = false) l.
Proof.
  induction l as [|r l IH]; intros Hpq; [done|].
  assert (Hpq' : ∀ r, r ∈ l → p r = true → q r = true) by (intros; apply Hpq; [by right|done]).
  specialize (IH Hpq'). specialize (Hpq r (list_elem_of_here _ _)).
  rewrite !filter_cons. destruct (p r) eqn:Ep; [rewrite (Hpq eq_refl)|]; cbn.
  - by rewrite !decide_False by done.
  - rewrite (decide_True (P := false = false)) by done.
    rewrite filter_cons. case_decide; cbn; congruence.
Qed.

Definition victims (victim : row → bool) (db : DB) : nat :=
  length (filter (λ r, victim r = true) (tokens db)).

(** What the batch loop does, in numbers: it deletes victims until none is left
    or its batches are spent, reports how many, and touches nothing else. *)
Lemma reap_loop_spec n batch victim total db :
  NoDup (id <$> tokens db) → (0 < batch)%nat →
  let '(k, db') := reap_loop n batch victim total db in
  k = (total + Nat.min (victims victim db) (n * batch))%nat ∧
  victims victim db' = (victims victim db - n * batch)%nat ∧
  filter (λ r, victim r = false) (tokens db') = filter (λ r, victim r = false) (tokens db).
Proof.
  intros Hn Hb. revert total db Hn. induction n as [|n IH]; intros total db Hn.
  { cbn. split_and!; [lia|lia|done]. }
  cbn [reap_loop]. unfold reap_batch.
  change (λ r, bool_decide (id r ∈ batch_ids batch victim db)) with (batch_pred batch victim db).
  rewrite (batch_affected batch victim db Hn). fold (victims victim db).
  set (db1 := delete_where (batch_pred batch victim db) db).
  assert (Hv : victims victim db = (Nat.min batch (victims victim db) + victims victim db1)%nat).
  { unfold victims at 1 3. rewrite (split_count (batch_pred batch victim db) victim (tokens db))
      by (intros; by eapply batch_victims).
    fold (affected (batch_pred batch victim db) db). by rewrite (batch_affected batch victim db Hn). }
  assert (Hnon : filter (λ r, victim r = false) (tokens db1) = filter (λ r, victim r = false) (tokens db)).
  { apply split_rest. intros. by eapply batch_victims. }
  assert (Hn1 : NoDup (id <$> tokens db1)).
  { eapply sublist_NoDup; [exact Hn|]. apply fmap_sublist, sublist_filter. }
  destruct (Nat.ltb_spec (Nat.min batch (victims victim db)) batch).
  - split_and!; [lia|lia|done].
  - specialize (IH (total + Nat.min batch (victims victim db))%nat db1 Hn1).
    destruct (reap_loop n batch victim _ db1) as [k db'].
    destruct IH as (-> & -> & ->). split_and!; [lia|lia|done].
Qed.

(** ** Lemmas over histories *)
Lemma history_inv tr db dbs db' : history tr db dbs db' → store_inv db → store_inv db'.
Proof. induction 1; eauto using store_exec_inv. Qed.

Lemma nonempty_elem {A} (l : list A) : l ≠ [] → ∃ x, x ∈ l.
Proof. destruct l as [|x l]; [done|]. intros _. exists x. by left. Qed.

(** The columns of a family that never runs out of rows. *)
Lemma history_family tr db dbs db' f r :
  history tr db dbs db' → store_inv db → r ∈ family f db →
  Forall (λ d, family f d ≠ []) dbs →
  ∃ r', r' ∈ family f db' ∧ family_created_at r' = family_created_at r ∧ dpop_jkt r' = dpop_jkt r.
Proof.
  intros Hh. revert r. induction Hh as [db|now o tr db dbs db' Hh IH]; intros r Hi Hr Hne.
  { by exists r. }
  apply Forall_cons_1 in Hne as [Hne Hrest].
  destruct (nonempty_elem _ Hne) as (r1 & Hr1).
  destruct (store_exec_family now o db f r r1 Hi Hr Hr1) as [E1 E2].
  destruct (IH r1) as (r' & ? & ? & ?); [by apply store_exec_inv|done|done|].
  exists r'. split_and!; [done| |]; congruence.
Qed.

Lemma history_burned tr db dbs db' f :
  history tr db dbs db' → burned f db → Forall (λ d, family f d ≠ []) dbs → burned f db'.
Proof.
  induction 1 as [db|now o tr db dbs db' Hh IH]; intros Hb Hne; [done|].
  apply Forall_cons_1 in Hne as [Hne Hrest]. apply IH; [|done]. by apply store_exec_burned.
Qed.

Lemma burned_guard f db t : burned f db → FamilyID t = f → insert_guard t db = false.
Proof.
  intros [Hne Hall] <-. apply not_true_iff_false. intros Hg%guard_not_revoked.
  destruct (family (FamilyID t) db) as [|x l]; [done|].
  apply Forall_cons_1 in Hg as [Hg _]. apply Forall_cons_1 in Hall as [Hx _]. congruence.
Qed.

(** Instants never run backwards from [t0] on. *)
Fixpoint clocked (t0 : Z) (tr : list (Z * store_op)) : Prop :=
  match tr with [] => True | (now, _) :: tr' => t0 ≤ now ∧ clocked now tr' end.

Lemma history_capped tr db dbs db' u cap t0 :
  history tr db dbs db' → 0 < cap → clocked t0 tr → Forall (λ x, capped_op u cap x.2) tr →
  CountActiveFamilies t0 u db ≤ cap →
  ∃ t1, t0 ≤ t1 ∧ CountActiveFamilies t1 u db' ≤ cap.
Proof.
  intros Hh Hc. revert t0. induction Hh as [db|now o tr db dbs db' Hh IH]; intros t0 Hck Hops Hle.
  { by exists t0. }
  destruct Hck as [Hnow Hck]. apply Forall_cons_1 in Hops as [Ho Hops]. cbn in Ho.
  destruct (IH now Hck Hops) as (t1 & ? & ?); [|exists t1; split; [lia|done]].
  apply capped_step; [done..|]. etrans; [by apply count_later|done].
Qed.

Lemma history_spent tr db dbs db' i :
  history tr db dbs db' → Forall (λ x, never_inserts i x.2) tr →
  spent_or_gone i db → spent_or_gone i db'.
Proof.
  induction 1 as [db|now o tr db dbs db' Hh IH]; [done|].
  intros [Ho Hops]%Forall_cons_1 Hs. apply IH; [done|]. by apply spent_step.
Qed.

Lemma active_families_elem now u db f :
  f ∈ active_families now u db ↔ ∃ r, r ∈ tokens db ∧ family_id r = f ∧ active_of now u r = true.
Proof.
  unfold active_families. rewrite elem_of_remove_dups, list_elem_of_fmap. split.
  - intros (r & -> & [? ?]%list_elem_of_filter). by exists r.
  - intros (r & ? & <- & ?). exists r. by rewrite list_elem_of_filter.
Qed.

Lemma list_entry_some now u db f :
  f ∈ active_families now u db → ∃ e, list_entry now u db f = Some e ∧ AFamilyID e = f.
Proof.
  intros (r & Hr & Hf & [Hu Ha]%andb_true_iff)%active_families_elem. unfold list_entry.
  assert (Hin : r ∈ family_of_user u f db).
  { apply list_elem_of_filter. split; [|done]. unfold of_family.
    by rewrite Hu, (bool_decide_true (family_id r = f)). }
  destruct (filter (λ r, active now r = true) (family_of_user u f db)) as [|x l] eqn:E.
  { assert (r ∈ filter (λ r, active now r = true) (family_of_user u f db)) as Hr'
      by (by apply list_elem_of_filter). rewrite E in Hr'. by apply elem_of_nil in Hr'. }
  destruct (family_of_user u f db) as [|y l'] eqn:E'; [by apply elem_of_nil in Hin|].
  cbn. eexists. split; [reflexivity|done].
Qed.

Lemma omap_all {A B} (g : A → option B) (h : B → A) (l : list A) :
  (∀ a, a ∈ l → ∃ b, g a = Some b ∧ h b = a) → h <$> omap g l = l.
Proof.
  induction l as [|a l IH]; intros Hg; [done|].
  destruct (Hg a) as (b & E & Hb); [by left|]. cbn. rewrite E. cbn. rewrite Hb. f_equal.
  apply IH. intros a' Ha'. apply Hg. by right.
Qed.

(** ** Properties *)
Section properties.

(** Through any sequence of store operations (inserts by any caller with
    any arguments, spends, revocations, reaping) in which a family keeps at
    least one row, the family's birth date, which the session-lifetime cap
    counts from, and the DPoP key every one of its rows is bound to are those
    it started with. *)
Theorem family_constants_immutable tr db dbs db' f r :
  store_inv db → r ∈ family f db →
  history tr db dbs db' → Forall (λ d, family f d ≠ []) dbs →
  FamilyOrigin f db' = FamilyOrigin f db ∧
  Forall (λ r', dpop_jkt r' = dpop_jkt r) (family f db').
Proof.
  intros Hi Hr Hh Hne. destruct (history_family _ _ _ _ _ _ Hh Hi Hr Hne) as (r' & Hr' & E1 & E2).
  pose proof (history_inv _ _ _ _ Hh Hi) as Hi'.
  rewrite (family_origin_of f db r), (family_origin_of f db' r') by done. split; [congruence|].
  rewrite <- E2. destruct (family_agrees f db' r' Hi' Hr') as [_ HF]. by rewrite Forall_fmap in HF.
Qed.

(** Once every row of a family is revoked, no sequence of store operations
    revives it while it has a row left: all its rows stay revoked, and every
    insert into it, capped or not, is refused and leaves the table as it was. *)
Theorem burned_family_stays_burned tr db dbs db' f :
  burned f db → history tr db dbs db' → Forall (λ d, family f d ≠ []) dbs →
  Forall (λ r, revoked r = true) (family f db') ∧
  ∀ t, FamilyID t = f → Create t db' = (Err ErrFamilyRevoked, db').
Proof.
  intros Hb Hh Hne. pose proof (history_burned _ _ _ _ _ Hh Hb Hne) as Hb'.
  split; [apply Hb'|]. intros t Ht. unfold Create. by rewrite (burned_guard f db' t).
Qed.


(** A refresh token is spent at most once: after [MarkUsed], whatever the
    store does next, as long as no row reuses its id, [MarkUsed] answers false. *)
Theorem mark_used_once i tr db dbs db' :
  history tr (MarkUsed i db).2 dbs db' → Forall (λ x, never_inserts i x.2) tr →
  (MarkUsed i db').1 = false.
Proof.
  intros Hh Hn. apply spent_refuses. by eapply history_spent; [| |apply markused_spends].
Qed.

(** The session listing shows exactly the sessions the cap counts, each
    once: what a user sees and what the limit enforces are the same families. *)
Theorem listing_matches_cap now u db :
  AFamilyID <$> ListActiveFamilies now u db ≡ₚ active_families now u db ∧
  Z.of_nat (length (ListActiveFamilies now u db)) = CountActiveFamilies now u db.
Proof.
  assert (HP : AFamilyID <$> ListActiveFamilies now u db ≡ₚ active_families now u db).
  { unfold ListActiveFamilies. rewrite merge_sort_Permutation.
    rewrite omap_all; [done|]. apply list_entry_some. }
  split; [done|]. unfold CountActiveFamilies. by rewrite <- HP, length_fmap.
Qed.

(** The reaper deletes only expired rows that were spent or revoked, keeps
    every other row in place, reports how many it deleted, and leaves none
    behind while there are at most 20 batches of 2000. *)
Theorem delete_expired_exact now db :
  NoDup (id <$> tokens db) →
  let '(k, db') := DeleteExpired now db in
  k = Nat.min (victims (spent_expired now) db) (refreshReapMaxBatches * refreshReapBatch) ∧
  filter (λ r, spent_expired now r = false) (tokens db')
    = filter (λ r, spent_expired now r = false) (tokens db) ∧
  victims (spent_expired now) db'
    = (victims (spent_expired now) db - refreshReapMaxBatches * refreshReapBatch)%nat.
Proof.
  intros Hn. unfold DeleteExpired.
  assert (Hb : (0 < refreshReapBatch)%nat) by (unfold refreshReapBatch; lia).
  pose proof (reap_loop_spec refreshReapMaxBatches refreshReapBatch (spent_expired now) 0 db Hn Hb) as H.
  destruct (reap_loop refreshReapMaxBatches refreshReapBatch (spent_expired now) 0 db) as [k db'].
  destruct H as (-> & -> & ->). by split_and!.
Qed.

End properties.

(** ** Concrete tables *)
Module Demo.
Definition alice : User :=
  mkUser "alice" "alice@example.org" true "hash" None 0 ["user"] false false None false false false no_profile.
Definition tok (i f : string) (created expires : Z) : RefreshToken :=
  mkRefreshToken i "alice" "" ("h-" +:+ i) f "" "" "key" expires false false (Some created).
Definition empty : DB := mkDB [] {["alice" := alice]}.
Definition one : DB := (Create (tok "a" "A" 10 1000) empty).2.
Definition steps : list (Z * store_op) :=
  [(20, OpMarkUsed "a"); (20, OpCreate (tok "a2" "A" 20 1000));
   (30, OpCreateCap (tok "b" "B" 30 1000) 2)].
(** The databases a trace passes, as [history] lists them. *)
Fixpoint passes (tr : list (Z * store_op)) (db : DB) : list DB :=
  match tr with
  | [] => []
  | (now, o) :: tr' => store_exec now o db :: passes tr' (store_exec now o db)
  end.
Definition final (tr : list (Z * store_op)) (db : DB) : DB :=
  fold_left (λ d x, store_exec x.1 x.2 d) tr db.

Lemma history_passes tr db : history tr db (passes tr db) (final tr db).
Proof.
  revert db. induction tr as [|[now o] tr IH]; intros db; [apply h_nil|].
  cbn. apply h_cons, IH.
Qed.

Lemma one_inv : store_inv one.
Proof. apply (store_exec_inv 0 (OpCreate (tok "a" "A" 10 1000)) empty). split; [apply NoDup_nil_2|]. intros x y Hx. by apply elem_of_nil in Hx. Qed.
End Demo.

Ltac all_nonempty := repeat (apply Forall_cons_2; [by vm_compute|]); apply Forall_nil_2.

Lemma family_constants_immutable_witness :
  FamilyOrigin "A" (Demo.final Demo.steps Demo.one) = FamilyOrigin "A" Demo.one ∧
  Forall (λ r', dpop_jkt r' = Some "key") (family "A" (Demo.final Demo.steps Demo.one)).
Proof.
  apply (family_constants_immutable Demo.steps Demo.one (Demo.passes Demo.steps Demo.one) _ "A"
    (insert_row (Demo.tok "a" "A" 10 1000) Demo.empty)).
  - apply Demo.one_inv.
  - apply elem_of_family. split; [|done]. by left.
  - apply Demo.history_passes.
  - all_nonempty.
Defined.

Lemma burned_family_stays_burned_witness :
  Forall (λ r, revoked r = true) (family "A" (Demo.final Demo.steps (RevokeFamily "A" Demo.one))) ∧
  ∀ t, FamilyID t = "A" →
    Create t (Demo.final Demo.steps (RevokeFamily "A" Demo.one))
    = (Err ErrFamilyRevoked, Demo.final Demo.steps (RevokeFamily "A" Demo.one)).
Proof.
  apply (burned_family_stays_burned Demo.steps (RevokeFamily "A" Demo.one) (Demo.passes Demo.steps (RevokeFamily "A" Demo.one))).
  - apply (RevokeFamily_burns "A" Demo.one (insert_row (Demo.tok "a" "A" 10 1000) Demo.empty)).
    apply elem_of_family. split; [|done]. by left.
  - apply Demo.history_passes.
  - all_nonempty.
Defined.


Lemma mark_used_once_witness :
  (MarkUsed "a" Demo.one).1 = true ∧
  (MarkUsed "a" (Demo.final (tail Demo.steps) (MarkUsed "a" Demo.one).2)).1 = false.
Proof.
  split; [by vm_compute|].
  eapply mark_used_once; [apply Demo.history_passes|].
  repeat (apply Forall_cons_2; [done|]); apply Forall_nil_2.
Defined.

Lemma delete_expired_exact_witness :
  let '(k, db') := DeleteExpired 2000 (RevokeFamily "A" Demo.one) in
  k = Nat.min (victims (spent_expired 2000) (RevokeFamily "A" Demo.one)) (refreshReapMaxBatches * refreshReapBatch) ∧
  filter (λ r, spent_expired 2000 r = false) (tokens db')
    = filter (λ r, spent_expired 2000 r = false) (tokens (RevokeFamily "A" Demo.one)) ∧
  victims (spent_expired 2000) db'
    = (victims (spent_expired 2000) (RevokeFamily "A" Demo.one) - refreshReapMaxBatches * refreshReapBatch)%nat.
Proof.
  apply (delete_expired_exact 2000 (RevokeFamily "A" Demo.one)).
  apply NoDup_cons_2; [apply not_elem_of_nil|apply NoDup_nil_2].
Defined.

(** ** What the table does not promise *)
(** Rotation goes through the uncapped insert and is exempt from the cap: a
    login that lands between the spend and the insert of a rotation sees the
    session gone and takes its place, and both are then active. *)
Example cap_overshoot_by_rotation :
  let tr := [(20, OpMarkUsed "a"); (20, OpCreateCap (Demo.tok "b" "B" 20 1000) 1);
             (20, OpCreate (Demo.tok "a2" "A" 20 1000))] in
  CountActiveFamilies 20 "alice" (Demo.final tr Demo.one) = 2.
Proof. by vm_compute. Qed.

(** A burned family is burned by its rows: once the reaper has taken them all,
    an insert that was in flight is admitted, with a birth date of its own. *)
Example burned_family_reborn :
  let gone := (DeleteExpired 2000 (RevokeFamily "A" Demo.one)).2 in
  let '(ans, db) := Create (Demo.tok "a2" "A" 2000 3000) gone in
  ans = Ok tt ∧ FamilyOrigin "A" db = Some 2000.
Proof. by vm_compute. Qed.
