(* ===== verification/RateLimit.v ===== *)
(** * RateLimit: the fixed-window rate limiting middleware

    Models internal/middleware/ratelimit.go: [RateLimitConfig] with its
    namespace, the in-memory fallback [localRateLimiter] with its entry cap and
    sweep, and the [RateLimit] middleware over any cache backend.  A request is
    abstract ([Req]); the configuration's [KeyFunc] and [Weight] read it, as in
    the code.  [int] and [int64] are 64 bits wide and the product of a count
    and a weight wraps.  Log lines are not modelled; the latches that limit
    them ([atCap], [fallbackWarned]) are. *)
From S2P Require Import Prelude GoStd Cache CacheFacts Counter.
From Stdlib Require Import Ascii.
Open Scope string_scope.
Open Scope Z_scope.

(** ** The in-memory fallback *)
Module Local.

Definition localRLMaxEntries : Z := 100000.

Record localRLEntry := mkEntry { count : Z; windowEnd : Z }.

Record localRateLimiter := mkLocal {
  entries : gmap string localRLEntry;
  atCap : bool;
}.

Definition new : localRateLimiter := mkLocal ∅ false.

Definition increment (now : Z) (key : string) (window : Z) (l : localRateLimiter)
  : Z * localRateLimiter :=
  match entries l !! key with
  | Some e =>
      if windowEnd e <? now
      then (1, mkLocal (<[key := mkEntry 1 (now + window)]> (entries l)) (atCap l))
      else let c := wrap64 (count e + 1) in
           (c, mkLocal (<[key := mkEntry c (windowEnd e)]> (entries l)) (atCap l))
  | None =>
      if localRLMaxEntries <=? Z.of_nat (size (entries l))
      then (int64_max, mkLocal (entries l) true)
      else (1, mkLocal (<[key := mkEntry 1 (now + window)]> (entries l)) (atCap l))
  end.

Definition localEntryCount (l : localRateLimiter) : Z := Z.of_nat (size (entries l)).

(** One tick of the eviction goroutine started by [addLimiter], for one limiter. *)
Definition evict (now : Z) (l : localRateLimiter) : localRateLimiter :=
  mkLocal (filter (λ kv, (windowEnd kv.2 <? now) = false) (entries l)) (atCap l).

End Local.

(** The registry of live limiters and the tick that sweeps each of them. *)
Definition addLimiter (l : Local.localRateLimiter) (reg : list Local.localRateLimiter)
  : list Local.localRateLimiter := reg ++ [l].
Definition evict_all (now : Z) (reg : list Local.localRateLimiter)
  : list Local.localRateLimiter := Local.evict now <$> reg.

(** ** The middleware *)
Section middleware.
Context {Req : Type}.

Record RateLimitConfig := mkRateLimitConfig {
  Limit : Z;
  Window : Z;
  KeyFunc : Req → string;
  FailClosed : bool;
  Weight : option (Req → Z);
  Name : string;
}.

Definition namespace (cfg : RateLimitConfig) : string :=
  if decide (Name cfg ≠ "") then Name cfg
  else FormatInt (Limit cfg) +:+ "/" +:+ FormatInt (Z.quot (Window cfg) millisecond).

(** The rate-limit headers of an answer. *)
Record headers := mkHeaders { xLimit : Z; xRemaining : Z; xReset : Z }.

Inductive outcome :=
| Pass (h : option headers)                          (** [next.ServeHTTP] ran *)
| Unavailable (retryAfter : Z)                       (** 503 rate_limiter_unavailable *)
| TooMany (h : headers) (retryAfter : Z).            (** 429 rate_limit_exceeded *)

(** What one [RateLimit] instance keeps between requests. *)
Record limiter := mkLimiter { local : Local.localRateLimiter; fallbackWarned : bool }.
Definition newLimiter : limiter := mkLimiter Local.new false.

Definition prefix (cfg : RateLimitConfig) : string := "rl:" +:+ namespace cfg +:+ ":".
Definition reqKey (cfg : RateLimitConfig) (r : Req) : string := prefix cfg +:+ KeyFunc cfg r.

Definition reqWeight (cfg : RateLimitConfig) (r : Req) : Z :=
  match Weight cfg with
  | Some w => if 1 <? w r then w r else 1
  | None => 1
  end.

(** [int(cfg.Window.Seconds())] *)
Definition window_seconds (cfg : RateLimitConfig) : Z := Z.quot (Window cfg) second.

(** The comparison and the headers, from the counter onwards. *)
Definition decide_request (cfg : RateLimitConfig) (now count : Z) (r : Req) : outcome :=
  let weighted := wrap64 (count * reqWeight cfg r) in
  let remaining0 := wrap64 (Limit cfg - count) in
  let remaining := if (remaining0 <? 0) || (Limit cfg <? weighted) then 0 else remaining0 in
  let h := mkHeaders (Limit cfg) remaining ((now + Window cfg) / second) in
  if Limit cfg <? weighted then TooMany h (window_seconds cfg) else Pass (Some h).

Context {C : Type} `{CacheOps C}.

(** The handler [RateLimit] returns, on one request. *)
Definition RateLimit (cfg : RateLimitConfig) (enabled : bool) (now : Z) (r : Req)
  (c : C) (l : limiter) : outcome * C * limiter :=
  if negb enabled then (Pass None, c, l)
  else
    let key := reqKey cfg r in
    match Increment now key (Window cfg) c with
    | (Ok count, c') => (decide_request cfg now count r, c', l)
    | (Err _, c') =>
        if FailClosed cfg then
          (Unavailable (window_seconds cfg), c', mkLimiter (local l) true)
        else
          let '(count, loc) := Local.increment now key (Window cfg) (local l) in
          (decide_request cfg now count r, c', mkLimiter loc true)
    end.

Definition passed (o : outcome) : bool := match o with Pass _ => true | _ => false end.

(** ** Interleavings *)
(** What happens to the shared cache between two instants: this limiter serves
    a request, or somebody else uses the cache. *)
Inductive event :=
| EReq (now : Z) (r : Req)
| EEnv (now : Z).

Definition ev_time (e : event) : Z := match e with EReq t _ | EEnv t => t end.

(** A run of the limiter; an environment event may replace the cache by any
    state [env_ok] allows for the key [k].  [n] counts the requests of key [k]
    that reached the handler. *)
Inductive runs `{!CounterCache C} (cfg : RateLimitConfig) (k : string)
  : list event → C → limiter → nat → C → limiter → Prop :=
| runs_nil c l : runs cfg k [] c l 0 c l
| runs_req now r evs c l o c1 l1 n c2 l2 :
    RateLimit cfg true now r c l = (o, c1, l1) →
    runs cfg k evs c1 l1 n c2 l2 →
    runs cfg k (EReq now r :: evs) c l
      ((if bool_decide (reqKey cfg r = k) && passed o then 1 else 0) + n)%nat c2 l2
| runs_env now evs c l c1 n c2 l2 :
    env_ok k now c c1 → runs cfg k evs c1 l n c2 l2 →
    runs cfg k (EEnv now :: evs) c l n c2 l2
| runs_evict now evs c l n c2 l2 :
    runs cfg k evs c (mkLimiter (Local.evict now (local l)) (fallbackWarned l)) n c2 l2 →
    runs cfg k (EEnv now :: evs) c l n c2 l2.

(** ** Lemmas *)
Lemma reqWeight_pos cfg r : 1 ≤ reqWeight cfg r.
Proof. unfold reqWeight. split_matches; lia. Qed.

(** A product that fits is compared as is. *)
Lemma decide_pass cfg now count r :
  0 ≤ count → count * reqWeight cfg r ≤ int64_max →
  passed (decide_request cfg now count r) = bool_decide (count * reqWeight cfg r ≤ Limit cfg).
Proof.
  intros H0 Hfit. unfold decide_request. pose proof (reqWeight_pos cfg r).
  rewrite wrap64_id by (unfold in_int64, int64_min, int64_max in *; nia).
  destruct (Z.ltb_spec (Limit cfg) (count * reqWeight cfg r)); cbn;
    [rewrite bool_decide_false by lia | rewrite bool_decide_true by lia]; done.
Qed.

(** ** Budgets
    A window opened at [t0], [N] events in all, every product of a count and a
    weight within 64 bits, and every request of the counted key weighing at
    least [w]. *)
Context (cfg : RateLimitConfig) (t0 w N : Z).

(** The cache half of the budget left with [m] events to come: all of it before
    the first increment, what the counter leaves after it. *)
Definition cache_budget (m : nat) (s : slot_state) (b : Z) : Prop :=
  (startable t0 s ∧ b = Z.max 0 (Limit cfg)) ∨
  (∃ j e, s = SCounter j e ∧ t0 + Window cfg ≤ e ∧ 0 ≤ j ∧ j + Z.of_nat m ≤ N ∧
          b = Z.max 0 (Limit cfg - j * w)).

(** The half of the fallback counter, which a fail-closed limiter never uses. *)
Definition local_budget (m : nat) (o : option Local.localRLEntry) (b : Z) : Prop :=
  (FailClosed cfg = true ∧ b = 0) ∨
  (match o with None => True | Some e => Local.windowEnd e < t0 end ∧ b = Z.max 0 (Limit cfg)) ∨
  (∃ e, o = Some e ∧ t0 + Window cfg ≤ Local.windowEnd e ∧ 0 ≤ Local.count e ∧
        Local.count e + Z.of_nat m ≤ N ∧ b = Z.max 0 (Limit cfg - Local.count e * w)).

Definition in_window (e : event) : Prop := t0 ≤ ev_time e < t0 + Window cfg.

Lemma cache_budget_weaken m s b : cache_budget (S m) s b → cache_budget m s b.
Proof.
  intros [?|(j & e & ? & ? & ? & ? & ?)]; [by left|].
  right. exists j, e. split_and!; try done. lia.
Qed.

Lemma local_budget_weaken m o b : local_budget (S m) o b → local_budget m o b.
Proof.
  intros [?|[?|(e & ? & ? & ? & ? & ?)]]; [by left|by right; left|].
  right. right. exists e. split_and!; try done. lia.
Qed.

Lemma cache_budget_nonneg m s b : cache_budget m s b → 0 ≤ b.
Proof. intros [[_ ->]|(?&?&?&?&?&?&->)]; lia. Qed.

Lemma local_budget_nonneg m o b : local_budget m o b → 0 ≤ b.
Proof. intros [[_ ->]|[[_ ->]|(?&?&?&?&?&->)]]; lia. Qed.

Lemma startable_later now s : t0 ≤ now → startable t0 s → startable now s.
Proof. destruct s; cbn; lia. Qed.

(** The environment cannot give budget back within the window. *)
Lemma env_cache_budget `{!CounterCache C} m k now c c1 b :
  t0 ≤ now < t0 + Window cfg → env_ok k now c c1 →
  cache_budget m (slot c k) b → cache_budget m (slot c1 k) b.
Proof.
  intros Hn [->|[(n & e & He & Hlt & H0)|Ho]] Hb; [done| |].
  - rewrite H0. destruct Hb as [[_ ->]|(j & e' & Hj & Hw & _)]; [by left|].
    rewrite He in Hj. simplify_eq. lia.
  - rewrite Ho in Hb. destruct Hb as [[[] _]|(?&?&?&_)]; done.
Qed.

Lemma evict_local_budget m now l k b :
  t0 ≤ now < t0 + Window cfg →
  local_budget m (Local.entries l !! k) b →
  local_budget m (Local.entries (Local.evict now l) !! k) b.
Proof.
  intros Hn Hb. unfold Local.evict. cbn. rewrite map_lookup_filter.
  destruct (Local.entries l !! k) as [e|]; cbn in *; [|done].
  case_guard as Hg; cbn; [done|].
  destruct Hb as [?|[[_ ?]|(e' & ? & ? & _)]]; [by left|by right; left|].
  simplify_eq. exfalso. apply Hg. apply Z.ltb_ge. lia.
Qed.

Lemma local_increment_other now k k' window l c l' :
  Local.increment now k window l = (c, l') → k' ≠ k →
  Local.entries l' !! k' = Local.entries l !! k'.
Proof.
  unfold Local.increment. intros. inv_matches; by rewrite ?lookup_insert_ne.
Qed.

Context (Hfit : ∀ r, N * reqWeight cfg r ≤ int64_max).
Context (HW : 0 < Window cfg).

(** A counted request pays its weight out of the budget when it passes. *)
Lemma pays now n r :
  1 ≤ w ≤ reqWeight cfg r → 0 ≤ n → n + 1 ≤ N →
  (if passed (decide_request cfg now (n + 1) r) then w else 0)
  + Z.max 0 (Limit cfg - (n + 1) * w) ≤ Z.max 0 (Limit cfg - n * w).
Proof.
  intros Hw H0 HN. pose proof (Hfit r). rewrite decide_pass by nia. case_bool_decide; nia.
Qed.

(** One request answered by the cache counter. *)
Lemma cache_pays `{!CounterCache C} m now r c b :
  1 ≤ w ≤ reqWeight cfg r → t0 ≤ now < t0 + Window cfg → 1 + Z.of_nat m ≤ N →
  cache_budget (S m) (slot c (reqKey cfg r)) b →
  (∃ n c', Increment now (reqKey cfg r) (Window cfg) c = (Ok n, c') ∧
     ∃ b', cache_budget m (slot c' (reqKey cfg r)) b' ∧
       (if passed (decide_request cfg now n r) then w else 0) + b' ≤ b) ∨
  (∃ e c', Increment now (reqKey cfg r) (Window cfg) c = (Err e, c') ∧
     cache_budget m (slot c' (reqKey cfg r)) b).
Proof.
  intros Hw Hn HN [[Hs ->]|(j & e & Hj & He & H0 & Hm & ->)].
  - destruct (slot_incr_start c (reqKey cfg r) now (Window cfg)) as [(c' & Hi & Hc)|(c' & e & Hi & _ & Hc)];
      [apply startable_later; [lia|done] | done | |].
    + left. exists 1, c'. split; [done|]. exists (Z.max 0 (Limit cfg - 1 * w)). split.
      * right. exists 1, (now + Window cfg). split_and!; try done; lia.
      * pose proof (pays now 0 r Hw). rewrite Z.mul_0_l, Z.sub_0_r in *. change (0 + 1) with 1 in *. lia.
    + right. exists e, c'. split; [done|]. rewrite Hc. by left.
  - pose proof (Hfit r). destruct (slot_incr_live c (reqKey cfg r) j e now (Window cfg) Hj) as (c' & Hi & Hc);
      [lia|nia|].
    left. exists (j + 1), c'. split; [done|]. exists (Z.max 0 (Limit cfg - (j + 1) * w)). split.
    + right. exists (j + 1), e. split_and!; try done; lia.
    + apply pays; [done|lia|lia].
Qed.

(** One request answered by the fallback counter: at the entry cap the count is
    past every limit, so an unweighted request is rejected there. *)
Lemma local_pays m now r l n l' b :
  FailClosed cfg = false → reqWeight cfg r = 1 → w = 1 → Limit cfg < int64_max →
  t0 ≤ now < t0 + Window cfg → 1 + Z.of_nat m ≤ N →
  local_budget (S m) (Local.entries l !! reqKey cfg r) b →
  Local.increment now (reqKey cfg r) (Window cfg) l = (n, l') →
  ∃ b', local_budget m (Local.entries l' !! reqKey cfg r) b' ∧
    (if passed (decide_request cfg now n r) then w else 0) + b' ≤ b.
Proof.
  intros HF Hr Hw HL Hn HN Hb Hi.
  assert (Hpay := λ n, pays now n r ltac:(lia)).
  assert (Hfresh : match Local.entries l !! reqKey cfg r with
                   | Some e => Local.windowEnd e < now | None => True end →
                   b = Z.max 0 (Limit cfg)).
  { intros Ho. destruct Hb as [[? _]|[[_ ->]|(e & He & ? & _)]]; [congruence|done|].
    rewrite He in Ho. lia. }
  assert (Hone : b = Z.max 0 (Limit cfg) →
    n = 1 → Local.entries l' !! reqKey cfg r = Some (Local.mkEntry 1 (now + Window cfg)) →
    ∃ b', local_budget m (Local.entries l' !! reqKey cfg r) b' ∧
      (if passed (decide_request cfg now n r) then w else 0) + b' ≤ b).
  { intros -> -> ->. exists (Z.max 0 (Limit cfg - 1 * w)). split.
    - do 2 right. eexists. split; [done|]. cbn. split_and!; lia.
    - specialize (Hpay 0). rewrite Z.mul_0_l, Z.sub_0_r in Hpay. change (0 + 1) with 1 in Hpay. lia. }
  unfold Local.increment in Hi. destruct (Local.entries l !! reqKey cfg r) as [en|] eqn:E.
  - destruct (Z.ltb_spec (Local.windowEnd en) now); simplify_eq.
    + apply Hone; [by apply Hfresh|done|cbn; apply lookup_insert_eq].
    + destruct Hb as [[? _]|[[? _]|(e & ? & Hwe & Hc0 & Hcm & ->)]]; [congruence|lia|].
      simplify_eq. pose proof (Hfit r). rewrite Hr in *.
      rewrite wrap64_id by (unfold in_int64, int64_min, int64_max in *; lia).
      exists (Z.max 0 (Limit cfg - (Local.count e + 1) * w)). cbn. rewrite lookup_insert_eq. split.
      * do 2 right. eexists. split; [done|]. cbn. split_and!; lia.
      * apply Hpay; lia.
  - destruct (Z.leb_spec Local.localRLMaxEntries (Z.of_nat (size (Local.entries l)))); simplify_eq.
    + exists b. cbn. rewrite E. split; [by apply local_budget_weaken|].
      rewrite decide_pass by (rewrite ?Hr; unfold int64_max; lia). rewrite Hr.
      rewrite bool_decide_false by lia. lia.
    + apply Hone; [by apply Hfresh|done|cbn; apply lookup_insert_eq].
Qed.

(** Requests of other keys leave both halves alone. *)
Lemma other_key `{!CounterCache C} k now r c l o c1 l1 :
  RateLimit cfg true now r c l = (o, c1, l1) → reqKey cfg r ≠ k →
  slot c1 k = slot c k ∧ Local.entries (local l1) !! k = Local.entries (local l) !! k.
Proof.
  unfold RateLimit. cbn. intros HR Hk.
  destruct (Increment now (reqKey cfg r) (Window cfg) c) as [[n|e] c'] eqn:Ei;
    [|destruct (FailClosed cfg); [|destruct (Local.increment _ _ _ _) as [n loc] eqn:El]]; simplify_eq/=;
    (split; [by eapply slot_incr_frame|]); try done.
  by eapply local_increment_other.
Qed.

(** Fail closed, or unweighted with a limit below the cap's sentinel. *)
Definition mode_ok : Prop :=
  FailClosed cfg = true ∨ ((∀ r, reqWeight cfg r = 1) ∧ w = 1 ∧ Limit cfg < int64_max).

Lemma request_pays `{!CounterCache C} m now r c l o c1 l1 b1 b2 :
  mode_ok → 1 ≤ w ≤ reqWeight cfg r → t0 ≤ now < t0 + Window cfg → 1 + Z.of_nat m ≤ N →
  RateLimit cfg true now r c l = (o, c1, l1) →
  cache_budget (S m) (slot c (reqKey cfg r)) b1 →
  local_budget (S m) (Local.entries (local l) !! reqKey cfg r) b2 →
  ∃ b1' b2', cache_budget m (slot c1 (reqKey cfg r)) b1' ∧
    local_budget m (Local.entries (local l1) !! reqKey cfg r) b2' ∧
    (if passed o then w else 0) + b1' + b2' ≤ b1 + b2.
Proof.
  intros Hmode Hw Hn HN HR Hb1 Hb2. unfold RateLimit in HR. cbn [negb] in HR.
  destruct (cache_pays m now r c b1 Hw Hn HN Hb1)
    as [(n1 & c' & Hi & b' & Hb' & Hle)|(e & c' & Hi & Hb')]; rewrite Hi in HR.
  - simplify_eq. exists b', b2. split_and!; [done|by apply local_budget_weaken|lia].
  - destruct (FailClosed cfg) eqn:HF.
    + simplify_eq. exists b1, b2. split_and!; [done|by apply local_budget_weaken|cbn; lia].
    + destruct Hmode as [?|(Hw1 & Hw2 & HL)]; [congruence|].
      destruct (Local.increment now (reqKey cfg r) (Window cfg) (local l)) as [n1 loc] eqn:El.
      simplify_eq. destruct (local_pays m now r (local l) n1 loc b2) as (b' & Hb2' & Hle); try done.
      exists b1, b'. split_and!; [done|done|lia].
Qed.

(** The requests of a key that pass within a window weigh no more than the
    budget its two counters started with. *)
Lemma passes_within_budget `{!CounterCache C} k evs c l n c2 l2 b1 b2 :
  runs cfg k evs c l n c2 l2 → Forall in_window evs →
  Forall (λ ev, match ev with EReq _ r => reqKey cfg r = k → 1 ≤ w ≤ reqWeight cfg r | _ => True end) evs →
  mode_ok → Z.of_nat (length evs) ≤ N →
  cache_budget (length evs) (slot c k) b1 →
  local_budget (length evs) (Local.entries (local l) !! k) b2 →
  Z.of_nat n * w ≤ b1 + b2.
Proof.
  intros Hrun. revert b1 b2.
  induction Hrun as [c l|now r evs c l o c1 l1 n c2 l2 HR Hrun IH|now evs c l c1 n c2 l2 He Hrun IH
                    |now evs c l n c2 l2 Hrun IH];
    intros b1 b2 Hin Hwt Hmode HN Hb1 Hb2; cbn [length] in *;
    try (apply Forall_cons_1 in Hin as [Hn Hin]; apply Forall_cons_1 in Hwt as [Hwr Hwt]).
  - apply cache_budget_nonneg in Hb1. apply local_budget_nonneg in Hb2. lia.
  - destruct (decide (reqKey cfg r = k)) as [<-|Hk].
    + rewrite bool_decide_true by done.
      destruct (request_pays (length evs) now r c l o c1 l1 b1 b2) as (b1' & b2' & H1 & H2 & Hle);
        try done; [by apply Hwr|lia|].
      specialize (IH b1' b2' Hin Hwt Hmode ltac:(lia) H1 H2). cbn [andb].
      destruct (passed o); nia.
    + rewrite bool_decide_false by done.
      destruct (other_key _ _ _ _ _ _ _ _ HR Hk) as [Hs Hl].
      apply IH; try done; [lia|rewrite Hs; by apply cache_budget_weaken|].
      rewrite Hl. by apply local_budget_weaken.
  - apply IH; try done; [lia| |by apply local_budget_weaken].
    eapply env_cache_budget; [exact Hn|done|]. by apply cache_budget_weaken.
  - apply IH; try done; [lia|by apply cache_budget_weaken|].
    apply evict_local_budget; [exact Hn|]. by apply local_budget_weaken.
Qed.
End middleware.
Arguments RateLimitConfig : clear implicits.
Arguments event : clear implicits.

(** ** Key separation *)
Fixpoint no_colon (s : string) : bool :=
  match s with
  | "" => true
  | String c s' => negb (bool_decide (c = ":"%char)) && no_colon s'
  end.

Lemma colon_split a b x y :
  no_colon a = true → no_colon b = true →
  a +:+ ":" +:+ x = b +:+ ":" +:+ y → a = b.
Proof.
  revert b. induction a as [|c a IH]; intros [|d b]; rewrite ?string_app_cons, ?string_app_nil_l;
    cbn; intros Ha Hb E; bool_hyps; simplify_eq; try done.
  f_equal. by apply IH.
Qed.

(** ** Properties *)
Section properties.
Context {Req C : Type} `{CounterCache C} (cfg : RateLimitConfig Req).


(** A limiter that falls back to its in-memory counter when the cache fails
    still lets through at most twice [Limit] unweighted requests of a key per
    window and process, however the cache fails and recovers. *)
Theorem rate_limit_fallback_bounded t0 k evs c l n c2 l2 :
  Weight cfg = None → Limit cfg < int64_max → 0 < Window cfg →
  startable t0 (slot c k) →
  match Local.entries (local l) !! k with None => True | Some e => Local.windowEnd e < t0 end →
  runs cfg k evs c l n c2 l2 → Forall (in_window cfg t0) evs →
  Z.of_nat (length evs) ≤ int64_max →
  Z.of_nat n ≤ 2 * Z.max 0 (Limit cfg).
Proof.
  intros Hwt HL HW Hs Hl Hrun Hin Hlen.
  assert (Hw : ∀ r, reqWeight cfg r = 1) by (intros; unfold reqWeight; by rewrite Hwt).
  replace (2 * Z.max 0 (Limit cfg)) with (Z.max 0 (Limit cfg) + Z.max 0 (Limit cfg)) by lia.
  rewrite <- (Z.mul_1_r (Z.of_nat n)).
  eapply (passes_within_budget cfg t0 1 (Z.of_nat (length evs)));
    [|done|done|done| |by right|done|by left|by right; left].
  - intros r. rewrite Hw. lia.
  - apply Forall_forall. intros [now r|now] _; [|done]. rewrite Hw. lia.
Qed.

(** At the fallback's entry cap the count is [math.MaxInt64]; multiplied by
    an even weight it wraps to a negative number, so the request passes: the
    weight widens the bucket exactly where the cap means to close it. *)
Theorem fallback_cap_even_weight_passes now r key window l :
  Local.localRLMaxEntries ≤ Local.localEntryCount l →
  Local.entries l !! key = None → 0 ≤ Limit cfg →
  Z.Even (reqWeight cfg r) → reqWeight cfg r ≤ 2 ^ 62 →
  passed (decide_request cfg now (Local.increment now key window l).1 r) = true.
Proof.
  intros Hcap Hk HL [h Hh] Hle. unfold Local.increment. rewrite Hk.
  unfold Local.localEntryCount in Hcap.
  destruct (Z.leb_spec Local.localRLMaxEntries (Z.of_nat (size (Local.entries l)))); [|lia].
  cbn [fst]. unfold decide_request. pose proof (reqWeight_pos cfg r).
  assert (Hwrap : wrap64 (int64_max * reqWeight cfg r) = - reqWeight cfg r).
  { rewrite Hh in *. unfold wrap64, int64_max.
    replace ((2 ^ 63 - 1) * (2 * h) + 2 ^ 63) with ((2 ^ 63 - 2 * h) + h * 2 ^ 64) by lia.
    rewrite Z.mod_add by lia. rewrite Z.mod_small by lia. lia. }
  rewrite Hwrap. destruct (Z.ltb_spec (Limit cfg) (- reqWeight cfg r)); [lia|done].
Qed.

(** Two limiters whose names differ (and carry no colon) never touch the
    same cache key, whatever their key functions return. *)
Theorem limiter_keys_disjoint (cfg' : RateLimitConfig Req) r r' :
  Name cfg ≠ "" → Name cfg' ≠ "" → no_colon (Name cfg) = true → no_colon (Name cfg') = true →
  Name cfg ≠ Name cfg' → reqKey cfg r ≠ reqKey cfg' r'.
Proof.
  intros H1 H2 N1 N2 Hne E. apply Hne.
  unfold reqKey, prefix, namespace in E.
  rewrite !decide_True in E by done.
  rewrite !string_app_assoc, !string_app_cons, !string_app_nil_l in E. simplify_eq.
  by apply (colon_split _ _ (KeyFunc cfg r) (KeyFunc cfg' r')).
Qed.
End properties.

(** ** Witnesses *)
Module RateDemo.
Definition cfg : RateLimitConfig string :=
  mkRateLimitConfig 2 60 (λ r, r) true (Some (λ _, 2)) "login".
Definition cfg_open : RateLimitConfig string :=
  mkRateLimitConfig 1 60 (λ r, r) false None "refresh".
Definition c0 : Memory.MemoryCache := Memory.newMemoryCacheWithCap 10.

Definition serve (cfg : RateLimitConfig string) (now : Z) (r : string) (c : Memory.MemoryCache) (l : limiter)
  : outcome * Memory.MemoryCache * limiter := RateLimit cfg true now r c l.
End RateDemo.
Import RateDemo.


Lemma rate_limit_fallback_bounded_witness :
  let s1 := serve cfg_open 5 "ip" c0 newLimiter in
  ∃ n, Z.of_nat n ≤ 2 * Z.max 0 (Limit cfg_open) ∧
    runs cfg_open "rl:refresh:ip" [EReq 5 "ip"] c0 newLimiter n s1.1.2 s1.2.
Proof.
  intros s1. eexists. split.
  - eapply (rate_limit_fallback_bounded cfg_open 5 "rl:refresh:ip" [EReq 5 "ip"] c0 newLimiter).
    + reflexivity.
    + vm_compute. reflexivity.
    + vm_compute. reflexivity.
    + exact I.
    + exact I.
    + eapply runs_req; [reflexivity|]. apply runs_nil.
    + repeat constructor; vm_compute; discriminate || reflexivity.
    + vm_compute. discriminate.
  - eapply runs_req; [reflexivity|]. apply runs_nil.
Defined.

(** A fallback map holding [n] distinct keys, all digits. *)
Definition full_local (n : Z) : Local.localRateLimiter :=
  Local.mkLocal
    (list_to_map ((λ i, (FormatInt i, Local.mkEntry 1 100)) <$> seqZ 0 n)) false.

Lemma full_local_keys n :
  ((λ i, (FormatInt i, Local.mkEntry 1 100)) <$> seqZ 0 n).*1 = FormatInt <$> seqZ 0 n.
Proof. rewrite <- list_fmap_compose. by apply list_fmap_ext. Qed.

Lemma full_local_nodup n : NoDup (FormatInt <$> seqZ 0 n).
Proof.
  apply NoDup_fmap_2_strong; [|apply NoDup_seqZ].
  intros x y Hx%elem_of_seqZ Hy%elem_of_seqZ. apply FormatInt_inj; lia.
Qed.

Lemma full_local_count n : 0 ≤ n → Local.localEntryCount (full_local n) = n.
Proof.
  intros Hn. unfold Local.localEntryCount, full_local. cbn.
  rewrite <- size_dom, dom_list_to_map_L, full_local_keys, size_list_to_set by apply full_local_nodup.
  rewrite length_fmap, length_seqZ. lia.
Qed.

Lemma full_local_fresh n : Local.entries (full_local n) !! "ip" = None.
Proof.
  apply not_elem_of_list_to_map_1. rewrite full_local_keys.
  intros (i & E & _)%list_elem_of_fmap. symmetry in E. unfold FormatInt in E.
  case_match; [done|]. pose proof (FormatUint_digits i) as Hd. rewrite E in Hd. by destruct Hd.
Qed.

Lemma fallback_cap_even_weight_passes_witness :
  passed (decide_request cfg 5 (Local.increment 5 "ip" 60 (full_local 100000)).1 "r") = true.
Proof.
  apply (fallback_cap_even_weight_passes cfg 5 "r" "ip" 60 (full_local 100000)).
  - rewrite full_local_count by lia. unfold Local.localRLMaxEntries. lia.
  - apply full_local_fresh.
  - cbn. lia.
  - exists 1. reflexivity.
  - vm_compute. discriminate.
Defined.

Lemma limiter_keys_disjoint_witness : reqKey cfg "1.2.3.4" ≠ reqKey cfg_open "1.2.3.4".
Proof. apply (limiter_keys_disjoint cfg cfg_open); done. Defined.
