(* ===== verification/UserStore.v ===== *)
(** * UserStore: the account table and its statements

    Models internal/repository/postgres/user.go (and the tombstone function of
    migration 031 it calls) over the columns of [Model.User].  Each statement
    is one UPDATE or SELECT, hence a function on the database.  The table is
    keyed by id; the email column has a unique index. *)
From S2P Require Import Prelude GoStd Model TokenStore.
From Stdlib Require Import Ascii.
Open Scope string_scope.
Open Scope Z_scope.

Definition with_users (us : gmap string User) (db : DB) : DB := mkDB (tokens db) us.

(** ** Column updates *)
Definition set_failed (n : Z) (u : User) : User :=
  mkUser (UID u) (Email u) (EmailVerified u) (PasswordHash u) (LockedUntil u) n (Roles u)
    (Disabled u) (Banned u) (LastLoginAt u) (Deleted u) (ImportPending u) (MustResetPassword u) (Profile u).
Definition set_locked (t : option Z) (u : User) : User :=
  mkUser (UID u) (Email u) (EmailVerified u) (PasswordHash u) t (FailedLoginCount u) (Roles u)
    (Disabled u) (Banned u) (LastLoginAt u) (Deleted u) (ImportPending u) (MustResetPassword u) (Profile u).
Definition set_password (h : string) (u : User) : User :=
  mkUser (UID u) (Email u) (EmailVerified u) h (LockedUntil u) (FailedLoginCount u) (Roles u)
    (Disabled u) (Banned u) (LastLoginAt u) (Deleted u) (ImportPending u) (MustResetPassword u) (Profile u).
Definition set_roles (rs : list string) (u : User) : User :=
  mkUser (UID u) (Email u) (EmailVerified u) (PasswordHash u) (LockedUntil u) (FailedLoginCount u) rs
    (Disabled u) (Banned u) (LastLoginAt u) (Deleted u) (ImportPending u) (MustResetPassword u) (Profile u).
Definition set_banned (b : bool) (u : User) : User :=
  mkUser (UID u) (Email u) (EmailVerified u) (PasswordHash u) (LockedUntil u) (FailedLoginCount u)
    (Roles u) (Disabled u) b (LastLoginAt u) (Deleted u) (ImportPending u) (MustResetPassword u) (Profile u).
Definition set_last_login (t : option Z) (u : User) : User :=
  mkUser (UID u) (Email u) (EmailVerified u) (PasswordHash u) (LockedUntil u) (FailedLoginCount u)
    (Roles u) (Disabled u) (Banned u) t (Deleted u) (ImportPending u) (MustResetPassword u) (Profile u).
Definition set_import_pending (b : bool) (u : User) : User :=
  mkUser (UID u) (Email u) (EmailVerified u) (PasswordHash u) (LockedUntil u) (FailedLoginCount u)
    (Roles u) (Disabled u) (Banned u) (LastLoginAt u) (Deleted u) b (MustResetPassword u) (Profile u).
Definition set_must_reset (b : bool) (u : User) : User :=
  mkUser (UID u) (Email u) (EmailVerified u) (PasswordHash u) (LockedUntil u) (FailedLoginCount u)
    (Roles u) (Disabled u) (Banned u) (LastLoginAt u) (Deleted u) (ImportPending u) b (Profile u).
Definition set_verified (u : User) : User :=
  mkUser (UID u) (Email u) true (PasswordHash u) (LockedUntil u) (FailedLoginCount u)
    (Roles u) (Disabled u) (Banned u) (LastLoginAt u) (Deleted u) (ImportPending u) (MustResetPassword u) (Profile u).
(** The tombstone: address replaced; hash, roles, last login, name, picture, ban
    reason and import tags cleared. *)
Definition scrub_profile (p : UserProfile) : UserProfile :=
  mkUserProfile "" "" (Locale p) (MFARequired p) "" "" "" (UCreatedAt p).
Definition scrub (tombstone : string) (u : User) : User :=
  mkUser (UID u) tombstone (EmailVerified u) "" (LockedUntil u) (FailedLoginCount u)
    [] (Disabled u) (Banned u) None true (ImportPending u) (MustResetPassword u) (scrub_profile (Profile u)).

(** [UPDATE auth.users SET ... WHERE id = i]. *)
Definition update_user (i : string) (f : User → User) (db : DB) : DB :=
  with_users (alter f i (users db)) db.

(** ** Statements *)
Definition GetByID (i : string) (db : DB) : option User := users db !! i.

Definition GetByEmail (e : string) (db : DB) : option User :=
  snd <$> head (filter (λ p, Email p.2 = e) (map_to_list (users db))).

Definition email_taken (e : string) (db : DB) : bool :=
  match GetByEmail e db with Some _ => true | None => false end.

(** The columns the INSERT names; the rest take the schema's defaults. *)
Definition fresh_row (u : User) : User :=
  let p := Profile u in
  mkUser (UID u) (Email u) (EmailVerified u) (PasswordHash u) None 0 (Roles u) false false None false false false
    (mkUserProfile (DisplayName p) (AvatarURL p) (Locale p) (MFARequired p) "" "" "" (UCreatedAt p)).
Definition CreateUser (u : User) (db : DB) : res repoErr unit * DB :=
  if decide (is_Some (users db !! UID u)) then (Err ErrUnique, db)
  else if email_taken (Email u) db then (Err ErrUnique, db)
  else (Ok tt, with_users (<[UID u := fresh_row u]> (users db)) db).

(** [ON CONFLICT (email) DO NOTHING]; email verified, no password, pending. *)
Definition CreateImported (u : User) (db : DB) : res repoErr unit * DB :=
  if email_taken (Email u) db then (Ok tt, db)
  else if decide (is_Some (users db !! UID u)) then (Err ErrUnique, db)
  else (Ok tt, with_users (<[UID u := mkUser (UID u) (Email u) true "" None 0 (Roles u)
        (Disabled u) (Banned u) None false true (MustResetPassword u) (Profile u)]> (users db)) db).

Definition IncrementFailedLogin (i : string) (db : DB) : DB :=
  update_user i (λ u, set_failed (FailedLoginCount u + 1) u) db.
Definition ResetFailedLogin (i : string) (db : DB) : DB := update_user i (set_failed 0) db.
Definition LockUntil (i : string) (t : Z) (db : DB) : DB := update_user i (set_locked (Some t)) db.
Definition Unlock (i : string) (db : DB) : DB :=
  update_user i (λ u, set_failed 0 (set_locked None u)) db.
Definition SetLastLogin (now : Z) (i : string) (db : DB) : DB :=
  update_user i (set_last_login (Some now)) db.
Definition VerifyEmail (i : string) (db : DB) : DB := update_user i set_verified db.
Definition SetBanned (i : string) (b : bool) (db : DB) : DB := update_user i (set_banned b) db.
Definition SetRoles (i : string) (rs : list string) (db : DB) : DB := update_user i (set_roles rs) db.
Definition ClearImportPending (i : string) (db : DB) : DB := update_user i (set_import_pending false) db.
Definition ClearMustResetPassword (i : string) (db : DB) : DB := update_user i (set_must_reset false) db.
Definition SetMustResetPassword (i : string) (b : bool) (db : DB) : DB := update_user i (set_must_reset b) db.
Definition SoftDeleteScrub (i tombstone : string) (db : DB) : DB := update_user i (scrub tombstone) db.

(** [WHERE id = $1 AND deleted = FALSE]; no row is [ErrUserNotUpdatable]. *)
Definition UpdatePassword (i h : string) (db : DB) : bool * DB :=
  match users db !! i with
  | Some u => if Deleted u then (false, db) else (true, update_user i (set_password h) db)
  | None => (false, db)
  end.

(** [Update]: the profile columns, [WHERE id = $1 AND deleted = FALSE]. *)
Definition set_profile (u v : User) : User :=
  let p := Profile u in let q := Profile v in
  mkUser (UID v) (Email v) (EmailVerified v) (PasswordHash v) (LockedUntil v) (FailedLoginCount v) (Roles v)
    (Disabled v) (Banned v) (LastLoginAt v) (Deleted v) (ImportPending v) (MustResetPassword v)
    (mkUserProfile (DisplayName p) (AvatarURL p) (Locale p) (MFARequired p)
       (BanReason q) (ImportedFrom q) (LegacyID q) (UCreatedAt q)).
Definition UpdateUser (u : User) (db : DB) : bool * DB :=
  match users db !! UID u with
  | Some v => if Deleted v then (false, db) else (true, update_user (UID u) (set_profile u) db)
  | None => (false, db)
  end.

(** ** Erasure *)
Inductive user_op :=
| UIncrement (i : string) | UReset (i : string) | ULock (i : string) (t : Z) | UUnlock (i : string)
| ULastLogin (i : string) | UVerify (i : string) | UBan (i : string) (b : bool)
| URoles (i : string) (rs : list string) | UClaim (i : string) | UClearReset (i : string)
| UForceReset (i : string) (b : bool) | UScrub (i t : string) | UPassword (i h : string)
| UCreate (u : User) | UImport (u : User) | UUpdate (u : User).

Definition user_exec (now : Z) (o : user_op) (db : DB) : DB :=
  match o with
  | UIncrement i => IncrementFailedLogin i db
  | UReset i => ResetFailedLogin i db
  | ULock i t => LockUntil i t db
  | UUnlock i => Unlock i db
  | ULastLogin i => SetLastLogin now i db
  | UVerify i => VerifyEmail i db
  | UBan i b => SetBanned i b db
  | URoles i rs => SetRoles i rs db
  | UClaim i => ClearImportPending i db
  | UClearReset i => ClearMustResetPassword i db
  | UForceReset i b => SetMustResetPassword i b db
  | UScrub i t => SoftDeleteScrub i t db
  | UPassword i h => (UpdatePassword i h db).2
  | UCreate u => (CreateUser u db).2
  | UImport u => (CreateImported u db).2
  | UUpdate u => (UpdateUser u db).2
  end.

Definition user_run (tr : list (Z * user_op)) (db : DB) : DB :=
  fold_left (λ d x, user_exec x.1 x.2 d) tr db.

(** A tombstone holds no credential, no name and no picture. *)
Definition erased_row (u : User) : Prop :=
  Deleted u = true ∧ PasswordHash u = "" ∧ DisplayName (Profile u) = "" ∧ AvatarURL (Profile u) = "".
Definition erased (i : string) (db : DB) : Prop := ∃ u, users db !! i = Some u ∧ erased_row u.

Lemma update_user_erased i j f db :
  (∀ u, erased_row u → erased_row (f u)) → erased i db → erased i (update_user j f db).
Proof.
  intros Hf (u & Hu & He). destruct (decide (i = j)) as [<-|Hne].
  - exists (f u). cbn. rewrite lookup_alter_eq, Hu. split; [done|by apply Hf].
  - exists u. cbn. by rewrite lookup_alter_ne.
Qed.
(** A statement guarded by [deleted = FALSE] does not touch a tombstone. *)
Lemma guarded_update_erased i j f db u :
  users db !! j = Some u → Deleted u = false → erased i db → erased i (update_user j f db).
Proof.
  intros Hj Hd (v & Hv & He). exists v. cbn. rewrite lookup_alter_ne; [done|].
  intros ->. destruct He as [He _]. congruence.
Qed.
Lemma insert_erased i u db : users db !! UID u = None → erased i db → erased i (with_users (<[UID u := u]> (users db)) db).
Proof.
  intros Hn (v & Hv & He). exists v. cbn. rewrite lookup_insert_ne; [done|]. intros Hi. congruence.
Qed.

Lemma user_exec_erased now o i db : erased i db → erased i (user_exec now o db).
Proof.
  intros He. destruct o as [| | | | | | | | | | | |j h|u|u|u]; cbn [user_exec];
    try (apply update_user_erased; [by unfold erased_row|done]).
  - unfold UpdatePassword. case_match; [|done]. destruct (Deleted _) eqn:Hd; [done|]. by eapply guarded_update_erased.
  - unfold CreateUser. case_decide as Hs; [done|]. case_match; [done|].
    apply (insert_erased i (fresh_row u)); [by apply eq_None_not_Some|done].
  - unfold CreateImported. case_match; [done|]. case_decide as Hs; [done|].
    apply (insert_erased i (mkUser (UID u) _ _ _ _ _ _ _ _ _ _ _ _ _)); [by apply eq_None_not_Some|done].
  - unfold UpdateUser. case_match; [|done]. destruct (Deleted _) eqn:Hd; [done|]. by eapply guarded_update_erased.
Qed.

Lemma user_run_erased tr i db : erased i db → erased i (user_run tr db).
Proof.
  revert db. induction tr as [|[now o] tr IH]; intros db He; [done|].
  cbn. by apply IH, user_exec_erased.
Qed.

Lemma erased_not_live i db : erased i db → live_user i db = false.
Proof. intros (u & Hu & Hd & _). unfold live_user. by rewrite Hu, Hd. Qed.

(** Erasure is final: after an account is scrubbed, no sequence of account
    statements (password writes, profile updates and imports included) gives it a
    password hash, a name or a picture, or lifts the tombstone, and the refresh-token table takes no session for it. *)
Theorem erasure_is_final tr i tombstone db :
  is_Some (users db !! i) →
  let db' := user_run tr (SoftDeleteScrub i tombstone db) in
  erased i db' ∧ (∀ h, UpdatePassword i h db' = (false, db')) ∧
  (∀ t, TUserID t = i → Create t db' = (Err ErrFamilyRevoked, db')).
Proof.
  intros [u Hu]. cbn zeta.
  assert (He : erased i (SoftDeleteScrub i tombstone db)).
  { exists (scrub tombstone u). cbn. by rewrite lookup_alter_eq, Hu. }
  apply (user_run_erased tr) in He. split_and!; [done| |].
  - intros h. destruct He as (v & Hv & Hd & _). unfold UpdatePassword. by rewrite Hv, Hd.
  - intros t <-. unfold Create, insert_guard.
    by rewrite (erased_not_live _ _ He), andb_false_r.
Qed.

Lemma erasure_is_final_witness :
  let db := mkDB [] {["u1" := mkUser "u1" "a@b.c" true "hash" None 0 [] false false None false false false no_profile]} in
  let db' := user_run [(5, UPassword "u1" "new"); (6, URoles "u1" ["user"])]
               (SoftDeleteScrub "u1" "deleted-u1@x.invalid" db) in
  erased "u1" db' ∧ (∀ h, UpdatePassword "u1" h db' = (false, db')) ∧
  (∀ t, TUserID t = "u1" → Create t db' = (Err ErrFamilyRevoked, db')).
Proof. apply erasure_is_final. eexists. reflexivity. Defined.
