(* ===== verification/FactorStore.v ===== *)
(** * FactorStore: enrolled second factors

    Models internal/repository/postgres/totp.go and backup_code.go over the
    tables auth.totp_secrets (unique per account) and auth.backup_codes, and
    the entities TOTPSecret and BackupCode of internal/model/model.go.  Each
    operation is one statement, or one transaction, hence a function on the
    tables.  Passkeys appear as a count per account: their ceremony belongs to
    a library. *)
From S2P Require Import Prelude GoStd Model TokenStore.
From stdpp Require Import sorting.
Open Scope string_scope.
Open Scope Z_scope.

Record TOTPSecret := mkTOTPSecret {
  SID : string; SUserID : string; SecretEnc : string; Verified : bool; SCreatedAt : Z
}.
Record BackupCode := mkBackupCode {
  BID : string; BUserID : string; CodeHash : string; BUsed : bool; BUsedAt : option Z; BCreatedAt : Z
}.
Record Factors := mkFactors {
  totp_secrets : gmap string TOTPSecret;  (** by account: idx_totp_secrets_user is unique *)
  passkeys : gmap string nat;
  backup_codes : list BackupCode;
}.
Definition no_factors : Factors := mkFactors ∅ ∅ [].
Definition with_totp (m : gmap string TOTPSecret) (f : Factors) : Factors := mkFactors m (passkeys f) (backup_codes f).
Definition with_codes (l : list BackupCode) (f : Factors) : Factors := mkFactors (totp_secrets f) (passkeys f) l.

(** ** Passkeys *)
Definition PasskeysDeleteAllForUser (u : string) (f : Factors) : Factors :=
  mkFactors (totp_secrets f) (delete u (passkeys f)) (backup_codes f).

(** ** TOTP secrets *)
Definition TOTPCreate (s : TOTPSecret) (f : Factors) : res repoErr unit * Factors :=
  if bool_decide (is_Some (totp_secrets f !! SUserID s)) ||
     bool_decide (SID s ∈ (SID ∘ snd <$> map_to_list (totp_secrets f)))
  then (Err ErrUnique, f)
  else (Ok tt, with_totp (<[SUserID s := s]> (totp_secrets f)) f).
Definition TOTPGetByUserID (u : string) (f : Factors) : option TOTPSecret := totp_secrets f !! u.
Definition TOTPMarkVerified (i : string) (f : Factors) : Factors :=
  with_totp ((λ s, if decide (SID s = i) then mkTOTPSecret (SID s) (SUserID s) (SecretEnc s) true (SCreatedAt s) else s)
             <$> totp_secrets f) f.
Definition TOTPDeleteByUserID (u : string) (f : Factors) : Factors := with_totp (delete u (totp_secrets f)) f.

(** ** Backup codes *)
Definition spend (now : Z) (c : BackupCode) : BackupCode :=
  mkBackupCode (BID c) (BUserID c) (CodeHash c) true (Some now) (BCreatedAt c).

(** One transaction: a conflict on any id leaves nothing behind. *)
Fixpoint insert_codes (cs : list BackupCode) (rows : list BackupCode) : option (list BackupCode) :=
  match cs with
  | [] => Some rows
  | c :: cs => if bool_decide (BID c ∈ (BID <$> rows)) then None
               else insert_codes cs (rows ++ [mkBackupCode (BID c) (BUserID c) (CodeHash c) false None (BCreatedAt c)])
  end%list.
Definition CreateBatch (cs : list BackupCode) (f : Factors) : res repoErr unit * Factors :=
  match insert_codes cs (backup_codes f) with
  | Some rows => (Ok tt, with_codes rows f)
  | None => (Err ErrUnique, f)
  end.
Definition by_age (a b : BackupCode) : Prop := BCreatedAt a ≤ BCreatedAt b.
#[export] Instance by_age_dec : RelDecision by_age.
Proof. intros a b. unfold by_age. apply _. Defined.
Definition ListUnusedByUser (u : string) (f : Factors) : list BackupCode :=
  merge_sort by_age (filter (λ c, BUserID c = u ∧ BUsed c = false) (backup_codes f)).
Definition unspent (i : string) (c : BackupCode) : Prop := BID c = i ∧ BUsed c = false.
#[export] Instance unspent_dec i c : Decision (unspent i c).
Proof. unfold unspent. apply _. Defined.
Definition BackupMarkUsed (now : Z) (i : string) (f : Factors) : bool * Factors :=
  (bool_decide (length (filter (unspent i) (backup_codes f)) = 1%nat),
   with_codes ((λ c, if decide (unspent i c) then spend now c else c) <$> backup_codes f) f).
Definition InvalidateAllForUser (now : Z) (u : string) (f : Factors) : Factors :=
  with_codes ((λ c, if decide (BUserID c = u ∧ BUsed c = false) then spend now c else c) <$> backup_codes f) f.
Definition PurgeAllForUser (u : string) (f : Factors) : Factors :=
  with_codes (filter (λ c, BUserID c ≠ u) (backup_codes f)) f.

(** ** Facts *)
(** Ids are a primary key. *)
Definition code_ids_unique (f : Factors) : Prop := NoDup (BID <$> backup_codes f).

Lemma unused_listed u f c :
  c ∈ ListUnusedByUser u f ↔ c ∈ backup_codes f ∧ BUserID c = u ∧ BUsed c = false.
Proof.
  unfold ListUnusedByUser. rewrite merge_sort_Permutation, list_elem_of_filter. naive_solver.
Qed.

(** A table whose rows kept their ids, in place. *)
Lemma ids_map g f : (∀ c, BID (g c) = BID c) → (BID <$> (g <$> backup_codes f)) = (BID <$> backup_codes f).
Proof. intros Hg. rewrite <-list_fmap_compose. apply list_fmap_ext. intros i c _. apply Hg. Qed.

Lemma insert_codes_unique cs rows rows' :
  NoDup (BID <$> rows) → insert_codes cs rows = Some rows' → NoDup (BID <$> rows').
Proof.
  revert rows. induction cs as [|c cs IH]; intros rows Hn; cbn; [by intros [= <-]|].
  case_bool_decide as Hc; [done|]. apply IH. rewrite fmap_app, NoDup_app. cbn.
  split_and!; [done| |apply NoDup_singleton]. intros x Hx. rewrite list_elem_of_singleton. by intros ->.
Qed.
Lemma insert_codes_rows cs rows rows' :
  insert_codes cs rows = Some rows' →
  rows' = (rows ++ ((λ c, mkBackupCode (BID c) (BUserID c) (CodeHash c) false None (BCreatedAt c)) <$> cs))%list.
Proof.
  revert rows. induction cs as [|c cs IH]; intros rows; cbn; [intros [= <-]; by rewrite app_nil_r|].
  case_bool_decide; [done|]. intros E. apply IH in E as ->. by rewrite <-app_assoc.
Qed.
