(* ===== verification/Rbac.v ===== *)
(** * Rbac: what an administrator's role may do

    Models internal/rbac/rbac.go: the permission vocabulary, the three tier
    tables, the fall-through of [HasPermission] and what is derived from it. *)
From S2P Require Import Prelude.
From stdpp Require Import list.
From Stdlib Require Import Ascii.
Open Scope string_scope.

Definition Permission : Type := string.
Definition Role : Type := string.

Definition KeysList : Permission := "keys:list".
Definition KeysRotate : Permission := "keys:rotate".
Definition KeysRevoke : Permission := "keys:revoke".
Definition AuditRead : Permission := "audit:read".
Definition UsersList : Permission := "users:list".
Definition UsersRead : Permission := "users:read".
Definition UsersLock : Permission := "users:lock".
Definition UsersUnlock : Permission := "users:unlock".
Definition UsersReset : Permission := "users:reset".
Definition UsersBan : Permission := "users:ban".
Definition UsersDelete : Permission := "users:delete".
Definition UsersImport : Permission := "users:import".
Definition SessionsList : Permission := "sessions:list".
Definition SessionsRevoke : Permission := "sessions:revoke".
Definition ClientsList : Permission := "clients:list".
Definition ClientsRead : Permission := "clients:read".
Definition ClientsCreate : Permission := "clients:create".
Definition ClientsRevoke : Permission := "clients:revoke".
Definition ClientsRotate : Permission := "clients:rotate".
Definition ConfigRead : Permission := "config:read".
Definition ConfigWrite : Permission := "config:write".
Definition MetricsRead : Permission := "metrics:read".
Definition AdminsManage : Permission := "admins:manage".
Definition AdminsCreate : Permission := "admins:create".
Definition AdminsRevoke : Permission := "admins:revoke".
Definition RolesList : Permission := "roles:list".
Definition RolesCreate : Permission := "roles:create".
Definition RolesDelete : Permission := "roles:delete".
Definition UsersRoles : Permission := "users:roles".
Definition EmailRead : Permission := "email:read".
Definition EmailWrite : Permission := "email:write".
Definition EmailDelete : Permission := "email:delete".

Definition RoleViewer : Role := "viewer".
Definition RoleOperator : Role := "operator".
Definition RoleSuperAdmin : Role := "super_admin".
Definition ValidRoles : list Role := [RoleViewer; RoleOperator; RoleSuperAdmin].

Definition IsValidRole (r : string) : bool :=
  bool_decide (r = RoleViewer) || bool_decide (r = RoleOperator) || bool_decide (r = RoleSuperAdmin).

(** The true keys of each table. *)
Definition viewerPerms : list Permission :=
  [KeysList; AuditRead; UsersList; UsersRead; SessionsList; ConfigRead; MetricsRead; RolesList; EmailRead].
Definition operatorPerms : list Permission :=
  [KeysRotate; UsersLock; UsersUnlock; UsersReset; UsersBan; SessionsRevoke; ClientsList; ClientsRead].
Definition superAdminPerms : list Permission :=
  [KeysRevoke; UsersDelete; ClientsCreate; ClientsRevoke; ClientsRotate; ConfigWrite; AdminsManage; AdminsCreate;
   AdminsRevoke; RolesCreate; RolesDelete; UsersImport; UsersRoles; EmailWrite; EmailDelete].

(** Each case falls through to the tier below. *)
Definition HasPermission (role : Role) (perm : Permission) : bool :=
  if decide (role = RoleSuperAdmin) then
    bool_decide (perm ∈ superAdminPerms) || bool_decide (perm ∈ operatorPerms) || bool_decide (perm ∈ viewerPerms)
  else if decide (role = RoleOperator) then bool_decide (perm ∈ operatorPerms) || bool_decide (perm ∈ viewerPerms)
  else if decide (role = RoleViewer) then bool_decide (perm ∈ viewerPerms)
  else false.

Definition allPermissions : list Permission :=
  [KeysList; KeysRotate; KeysRevoke; AuditRead;
   UsersList; UsersRead; UsersLock; UsersUnlock; UsersReset; UsersBan; UsersDelete; UsersImport; UsersRoles;
   SessionsList; SessionsRevoke;
   ClientsList; ClientsRead; ClientsCreate; ClientsRevoke; ClientsRotate;
   ConfigRead; ConfigWrite; MetricsRead;
   AdminsManage; AdminsCreate; AdminsRevoke;
   RolesList; RolesCreate; RolesDelete;
   EmailRead; EmailWrite; EmailDelete].
Definition PermissionsForRole (role : Role) : list Permission :=
  List.filter (HasPermission role) allPermissions.

(** Every permission a table grants is in the vocabulary. *)
Lemma tables_listed p : p ∈ superAdminPerms ∨ p ∈ operatorPerms ∨ p ∈ viewerPerms → p ∈ allPermissions.
Proof.
  assert (Hs : ∀ l, forallb (λ p, bool_decide (p ∈ allPermissions)) l = true → ∀ p, p ∈ l → p ∈ allPermissions).
  { intros l Hl q Hq. rewrite forallb_forall in Hl. apply list_elem_of_In, Hl in Hq. by apply bool_decide_eq_true in Hq. }
  intros [H|[H|H]]; eapply Hs in H; try done; by vm_compute.
Qed.

Lemma has_permission_tables r p : HasPermission r p = true →
  p ∈ superAdminPerms ∨ p ∈ operatorPerms ∨ p ∈ viewerPerms.
Proof. unfold HasPermission. repeat case_decide; rewrite ?orb_true_iff, ?bool_decide_eq_true; first [done|tauto]. Qed.

Lemma has_viewer p : HasPermission RoleViewer p = bool_decide (p ∈ viewerPerms).
Proof. done. Qed.
Lemma has_operator p : HasPermission RoleOperator p = bool_decide (p ∈ operatorPerms) || bool_decide (p ∈ viewerPerms).
Proof. done. Qed.
Lemma has_super p : HasPermission RoleSuperAdmin p
  = bool_decide (p ∈ superAdminPerms) || bool_decide (p ∈ operatorPerms) || bool_decide (p ∈ viewerPerms).
Proof. done. Qed.

(** Does a permission only observe: the verb is list or read. *)
Fixpoint verb (s : string) : string :=
  match s with "" => "" | String c r => if Ascii.eqb c ":"%char then r else verb r end.
Definition observes (p : Permission) : bool := bool_decide (verb p = "list") || bool_decide (verb p = "read").

(** The roles form a strict chain that fails closed: operator holds all
    that viewer holds and super_admin all that operator holds, each strictly
    more; a viewer's permissions only observe; a string that is not one of the
    three roles, and a string that is not in the vocabulary, grant nothing; no
    role below super_admin holds an administrator-managing permission; and the
    listing of a role is exactly what is decided for it. *)
Theorem roles_form_a_chain :
  (∀ p, HasPermission RoleViewer p = true → HasPermission RoleOperator p = true ∧ observes p = true) ∧
  (∀ p, HasPermission RoleOperator p = true → HasPermission RoleSuperAdmin p = true) ∧
  (∃ p, HasPermission RoleOperator p = true ∧ HasPermission RoleViewer p = false) ∧
  (∃ p, HasPermission RoleSuperAdmin p = true ∧ HasPermission RoleOperator p = false) ∧
  (∀ r p, IsValidRole r = false ∨ p ∉ allPermissions → HasPermission r p = false) ∧
  (∀ r p, p ∈ [AdminsManage; AdminsCreate; AdminsRevoke] → HasPermission r p = true → r = RoleSuperAdmin) ∧
  (∀ r p, p ∈ PermissionsForRole r ↔ HasPermission r p = true).
Proof.
  split_and!.
  - intros p. rewrite has_viewer, has_operator. intros Hp. split; [by rewrite Hp, orb_true_r|].
    assert (Hv : forallb observes viewerPerms = true) by by vm_compute.
    rewrite forallb_forall in Hv. apply Hv, list_elem_of_In. by apply bool_decide_eq_true in Hp.
  - intros p. rewrite has_operator, has_super, !orb_true_iff. tauto.
  - by exists UsersLock.
  - by exists AdminsCreate.
  - intros r p [Hr|Hp]; apply not_true_iff_false; intros Hh.
    + unfold IsValidRole in Hr. rewrite !orb_false_iff, !bool_decide_eq_false in Hr. unfold HasPermission in Hh.
      repeat case_decide; naive_solver.
    + by apply has_permission_tables, tables_listed in Hh.
  - intros r p Hp Hh. unfold HasPermission in Hh. case_decide; [done|].
    assert (Hn : bool_decide (p ∈ operatorPerms) = false ∧ bool_decide (p ∈ viewerPerms) = false).
    { rewrite !elem_of_cons, elem_of_nil in Hp. destruct Hp as [->|[->|[->|[]]]]; by vm_compute. }
    destruct Hn as [E1 E2]. rewrite E1, E2 in Hh. by repeat case_decide.
  - intros r p. unfold PermissionsForRole. rewrite list_elem_of_In, List.filter_In, <-list_elem_of_In.
    split; [tauto|]. intros Hh. split; [|done]. by eapply tables_listed, has_permission_tables.
Qed.
