(* ===== verification/AdminStore.v ===== *)
(** * AdminStore: administrators, their sessions and the admin configuration

    Models internal/repository/postgres/admin_user.go, admin_session.go and
    admin_config.go over auth.admin_users, auth.admin_sessions and
    auth.admin_config, with what the schema adds to the statements: the unique
    user name, the rank triggers of migrations 001 and 016 and the cascade of a
    deleted administrator to its sessions.  AdminUser and AdminSession are the
    entities of internal/model/model.go. *)
From S2P Require Import Prelude GoStd Model TokenStore Rbac.
From stdpp Require Import list.
Open Scope string_scope.
Open Scope Z_scope.

Record AdminUser := mkAdminUser {
  AID : string;
  Username : string;
  APasswordHash : string;
  ARole : string;
  TOTPSecretEnc : string;
  TOTPVerified : bool;
  ALockedUntil : option Z;
  AFailedLoginCount : Z;
  LastTOTPCounter : Z;
  ALastLoginAt : option Z;
  CreatedBy : option string;
}.
Record AdminSession := mkAdminSession {
  ASID : string; AdminID : string; ASTokenHash : string; ASIP : string;
  ASCreatedAt : Z; ASExpiresAt : Z; ASRevoked : bool;
}.
Record AdminDB := mkAdminDB {
  admin_users : gmap string AdminUser;
  admin_sessions : list AdminSession;
  admin_config : gmap string string;
}.
Definition no_admins : AdminDB := mkAdminDB ∅ [] ∅.

Definition with_admins (m : gmap string AdminUser) (d : AdminDB) : AdminDB := mkAdminDB m (admin_sessions d) (admin_config d).
Definition with_sessions (l : list AdminSession) (d : AdminDB) : AdminDB := mkAdminDB (admin_users d) l (admin_config d).
Definition with_config (m : gmap string string) (d : AdminDB) : AdminDB := mkAdminDB (admin_users d) (admin_sessions d) m.

(** auth.admin_roles *)
Definition rank (role : string) : option Z :=
  if decide (role = RoleViewer) then Some 1 else if decide (role = RoleOperator) then Some 2
  else if decide (role = RoleSuperAdmin) then Some 3 else None.

(** ** Administrators *)
Definition AdminGetByID (i : string) (d : AdminDB) : option AdminUser := admin_users d !! i.
Definition AdminGetByUsername (n : string) (d : AdminDB) : option AdminUser :=
  head (filter (λ a, Username a = n) (snd <$> map_to_list (admin_users d))).
Definition AdminCount (d : AdminDB) : nat := size (admin_users d).

(** The insert trigger: an administrator does not outrank its creator, and only
    the first has none. *)
Definition insert_allowed (u : AdminUser) (d : AdminDB) : bool :=
  match rank (ARole u) with
  | None => false
  | Some new =>
      match CreatedBy u with
      | None => (size (admin_users d) =? 0)%nat
      | Some c => match admin_users d !! c ≫= (λ a, rank (ARole a)) with
                  | None => false
                  | Some r => new <=? r
                  end
      end
  end.
Definition AdminCreate (u : AdminUser) (d : AdminDB) : res repoErr unit * AdminDB :=
  if bool_decide (is_Some (AdminGetByID (AID u) d)) || bool_decide (is_Some (AdminGetByUsername (Username u) d)) ||
     negb (insert_allowed u d)
  then (Err ErrUnique, d)
  else (Ok tt, with_admins (<[AID u := mkAdminUser (AID u) (Username u) (APasswordHash u) (ARole u) (TOTPSecretEnc u)
                                        (TOTPVerified u) None (AFailedLoginCount u) 0 None (CreatedBy u)]> (admin_users d)) d).

(** [UPDATE ... SET username, role, totp_secret_enc, totp_verified], with the
    trigger that refuses a promotion and the unique user name. *)
Definition AdminUpdate (u : AdminUser) (d : AdminDB) : res repoErr unit * AdminDB :=
  match admin_users d !! AID u with
  | None => (Ok tt, d)
  | Some a =>
      if match rank (ARole a), rank (ARole u) with Some o, Some n => o <? n | _, None => true | None, _ => false end
      then (Err ErrDB, d)
      else if match AdminGetByUsername (Username u) d with Some b => negb (bool_decide (AID b = AID u)) | None => false end
      then (Err ErrUnique, d)
      else (Ok tt, with_admins (<[AID u := mkAdminUser (AID a) (Username u) (APasswordHash a) (ARole u) (TOTPSecretEnc u)
                                     (TOTPVerified u) (ALockedUntil a) (AFailedLoginCount a) (LastTOTPCounter a)
                                     (ALastLoginAt a) (CreatedBy a)]> (admin_users d)) d)
  end.

Definition set_afailed (n : Z) (a : AdminUser) : AdminUser :=
  mkAdminUser (AID a) (Username a) (APasswordHash a) (ARole a) (TOTPSecretEnc a) (TOTPVerified a) (ALockedUntil a)
    n (LastTOTPCounter a) (ALastLoginAt a) (CreatedBy a).
Definition set_alocked (t : option Z) (a : AdminUser) : AdminUser :=
  mkAdminUser (AID a) (Username a) (APasswordHash a) (ARole a) (TOTPSecretEnc a) (TOTPVerified a) t
    (AFailedLoginCount a) (LastTOTPCounter a) (ALastLoginAt a) (CreatedBy a).
Definition set_counter (n : Z) (a : AdminUser) : AdminUser :=
  mkAdminUser (AID a) (Username a) (APasswordHash a) (ARole a) (TOTPSecretEnc a) (TOTPVerified a) (ALockedUntil a)
    (AFailedLoginCount a) n (ALastLoginAt a) (CreatedBy a).
Definition set_alogin (now : Z) (a : AdminUser) : AdminUser :=
  mkAdminUser (AID a) (Username a) (APasswordHash a) (ARole a) (TOTPSecretEnc a) (TOTPVerified a) None
    0 (LastTOTPCounter a) (Some now) (CreatedBy a).

(** [RETURNING failed_login_count]; no row is an error of the scan. *)
Definition AdminIncrementFailedLogin (i : string) (d : AdminDB) : res repoErr Z * AdminDB :=
  match admin_users d !! i with
  | None => (Err ErrDB, d)
  | Some a => let n := AFailedLoginCount a + 1 in (Ok n, with_admins (<[i := set_afailed n a]> (admin_users d)) d)
  end.
Definition AdminResetFailedLogin (i : string) (d : AdminDB) : AdminDB :=
  with_admins (alter (set_afailed 0) i (admin_users d)) d.
Definition AdminLockUntil (i : string) (t : Z) (d : AdminDB) : AdminDB :=
  with_admins (alter (set_alocked (Some t)) i (admin_users d)) d.
(** Compare and set: the counter only advances. *)
Definition UpdateLastTOTPCounter (i : string) (n : Z) (d : AdminDB) : res repoErr unit * AdminDB :=
  match admin_users d !! i with
  | Some a => if LastTOTPCounter a <? n then (Ok tt, with_admins (<[i := set_counter n a]> (admin_users d)) d)
              else (Err ErrTOTPCounterNotAdvanced, d)
  | None => (Err ErrTOTPCounterNotAdvanced, d)
  end.
Definition UpdateLastLogin (now : Z) (i : string) (d : AdminDB) : AdminDB :=
  with_admins (alter (set_alogin now) i (admin_users d)) d.

(** Children lose the name of their creator, sessions go with the row. *)
Definition orphan (i : string) (a : AdminUser) : AdminUser :=
  if decide (CreatedBy a = Some i)
  then mkAdminUser (AID a) (Username a) (APasswordHash a) (ARole a) (TOTPSecretEnc a) (TOTPVerified a) (ALockedUntil a)
         (AFailedLoginCount a) (LastTOTPCounter a) (ALastLoginAt a) None
  else a.
Definition AdminRevoke (i : string) (d : AdminDB) : AdminDB :=
  mkAdminDB (orphan i <$> delete i (admin_users d)) (filter (λ s, AdminID s ≠ i) (admin_sessions d)) (admin_config d).

(** ** Sessions *)
Definition SessCreate (s : AdminSession) (d : AdminDB) : res repoErr unit * AdminDB :=
  if bool_decide (ASID s ∈ (ASID <$> admin_sessions d)) || bool_decide (admin_users d !! AdminID s = None)
  then (Err ErrUnique, d) else (Ok tt, with_sessions (admin_sessions d ++ [s]) d).
Definition SessGetByTokenHash (h : string) (d : AdminDB) : option AdminSession :=
  head (filter (λ s, ASTokenHash s = h) (admin_sessions d)).
Definition revoke_session (s : AdminSession) : AdminSession :=
  mkAdminSession (ASID s) (AdminID s) (ASTokenHash s) (ASIP s) (ASCreatedAt s) (ASExpiresAt s) true.
Definition SessRevoke (i : string) (d : AdminDB) : AdminDB :=
  with_sessions ((λ s, if decide (ASID s = i) then revoke_session s else s) <$> admin_sessions d) d.
Definition SessRevokeAllForAdmin (a : string) (d : AdminDB) : AdminDB :=
  with_sessions ((λ s, if decide (AdminID s = a) then revoke_session s else s) <$> admin_sessions d) d.
Definition SessRevokeAll (d : AdminDB) : AdminDB := with_sessions (revoke_session <$> admin_sessions d) d.
Definition SessDeleteExpired (now : Z) (d : AdminDB) : Z * AdminDB :=
  (Z.of_nat (length (filter (λ s, ASExpiresAt s < now) (admin_sessions d))),
   with_sessions (filter (λ s, ¬ ASExpiresAt s < now) (admin_sessions d)) d).

(** ** Configuration *)
Definition ConfigGet (k : string) (d : AdminDB) : string := default "" (admin_config d !! k).
Definition ConfigSet (k v : string) (d : AdminDB) : AdminDB := with_config (<[k := v]> (admin_config d)) d.
Definition ConfigDelete (k : string) (d : AdminDB) : AdminDB := with_config (delete k (admin_config d)) d.
Definition ClaimIfAbsent (k v : string) (d : AdminDB) : string * AdminDB :=
  match admin_config d !! k with Some x => (x, d) | None => (v, ConfigSet k v d) end.
