(* ===== verification/PersonalStore.v ===== *)
(** * PersonalStore: the tables beside the account row

    Models internal/repository/postgres: password_history.go, identity.go,
    blob.go, servicedoc.go, social_account.go, login_country.go, client.go and
    the append of account_recovery.go, each SQL statement a function on the tables, with
    the unique keys of the schema.  The entities are those of
    internal/model/model.go and internal/repository.  An instant is nanoseconds;
    the timestamps the identity store compares are as it stored them. *)
From S2P Require Import Prelude GoStd Model TokenStore.
From stdpp Require Import list sorting.
Open Scope string_scope.
Open Scope Z_scope.

Record PasswordHistory := mkPasswordHistory {
  HID : string; HUserID : string; HPasswordHash : string; HCreatedAt : Z
}.
Record IdentityProfile := mkIdentityProfile {
  PseudonymID : string; DataEnc : string; IUpdatedAt : Z; ICreatedAt : Z
}.
Record Blob := mkBlob {
  BlobID : string; BlobPseudonym : string; RefHash : string; LabelEnc : string; BlobDataEnc : string;
  SizeBytes : Z; StoredBytes : Z; Checksum : string; BlobCreatedAt : Z
}.
Record ServiceDocument := mkServiceDocument {
  DocID : string; ClientID : string; SubjectHash : string; DocKey : string; Visibility : Z;
  DocDataEnc : string; DocSizeBytes : Z; DocStoredBytes : Z; DocVersion : Z; DocCreatedAt : Z; DocUpdatedAt : Z
}.
Record SocialAccount := mkSocialAccount {
  SAID : string; SAUserID : string; Provider : string; ProviderUserID : string; SAEmail : string; SACreatedAt : Z
}.
Record AccountRecovery := mkAccountRecovery {
  RID : string; Pseudonym : string; Payload : string; DeletedAt : Z; DeletedBy : string; Reason : string
}.

Record Client := mkClient {
  ClID : string; ClName : string; SecretHash : string; ClRole : string; ClScopes : list string;
  RedirectURIs : list string; ClActive : bool; ClCreatedAt : Z; ClUpdatedAt : Z
}.

(** *** The tables *)
Record PersonalDB := mkPersonalDB {
  password_history : list PasswordHistory;
  profiles : gmap string IdentityProfile;
  blobs : list Blob;
  service_documents : list ServiceDocument;
  social_accounts : list SocialAccount;
  login_countries : list (string * string);
  account_recovery : list AccountRecovery;
  clients : gmap string Client;
}.
Definition no_personal : PersonalDB := mkPersonalDB [] ∅ [] [] [] [] [] ∅.

Definition with_history l d := mkPersonalDB l (profiles d) (blobs d) (service_documents d) (social_accounts d) (login_countries d) (account_recovery d) (clients d).
Definition with_profiles m d := mkPersonalDB (password_history d) m (blobs d) (service_documents d) (social_accounts d) (login_countries d) (account_recovery d) (clients d).
Definition with_blobs l d := mkPersonalDB (password_history d) (profiles d) l (service_documents d) (social_accounts d) (login_countries d) (account_recovery d) (clients d).
Definition with_docs l d := mkPersonalDB (password_history d) (profiles d) (blobs d) l (social_accounts d) (login_countries d) (account_recovery d) (clients d).
Definition with_social l d := mkPersonalDB (password_history d) (profiles d) (blobs d) (service_documents d) l (login_countries d) (account_recovery d) (clients d).
Definition with_countries l d := mkPersonalDB (password_history d) (profiles d) (blobs d) (service_documents d) (social_accounts d) l (account_recovery d) (clients d).
Definition with_recovery l d := mkPersonalDB (password_history d) (profiles d) (blobs d) (service_documents d) (social_accounts d) (login_countries d) l (clients d).
Definition with_clients m d := mkPersonalDB (password_history d) (profiles d) (blobs d) (service_documents d) (social_accounts d) (login_countries d) (account_recovery d) m.

(** ** Password history *)
Definition HistoryCreate (e : PasswordHistory) (d : PersonalDB) : res repoErr unit * PersonalDB :=
  if bool_decide (HID e ∈ (HID <$> password_history d)) then (Err ErrUnique, d)
  else (Ok tt, with_history (e :: password_history d) d).
(** Newest first. *)
Definition newer (a b : PasswordHistory) : Prop := HCreatedAt b ≤ HCreatedAt a.
#[export] Instance newer_dec a b : Decision (newer a b).
Proof. unfold newer. apply _. Defined.
Definition GetRecentByUser (u : string) (limit : nat) (d : PersonalDB) : list PasswordHistory :=
  take limit (merge_sort newer (filter (λ e, HUserID e = u) (password_history d))).
Definition HistoryDeleteAllForUser (u : string) (d : PersonalDB) : PersonalDB :=
  with_history (filter (λ e, HUserID e ≠ u) (password_history d)) d.

(** ** Identity profiles *)
Definition GetByPseudonym (p : string) (d : PersonalDB) : option IdentityProfile := profiles d !! p.
(** A timestamptz column keeps microseconds. *)
Definition timestamptz (t : Z) : Z := t / 1000 * 1000.
Definition as_stored (p : IdentityProfile) (created : Z) : IdentityProfile :=
  mkIdentityProfile (PseudonymID p) (DataEnc p) (timestamptz (IUpdatedAt p)) created.
(** [expected] is [None] for Go's zero time: insert, never overwrite. *)
Definition UpsertCAS (p : IdentityProfile) (expected : option Z) (d : PersonalDB) : bool * PersonalDB :=
  match expected, profiles d !! PseudonymID p with
  | None, Some _ => (false, d)
  | None, None => (true, with_profiles (<[PseudonymID p := as_stored p (timestamptz (ICreatedAt p))]> (profiles d)) d)
  | Some _, None => (false, d)
  | Some t, Some old =>
      if IUpdatedAt old =? t
      then (true, with_profiles (<[PseudonymID p := as_stored p (ICreatedAt old)]> (profiles d)) d)
      else (false, d)
  end.
Definition ProfileUpsert (p : IdentityProfile) (d : PersonalDB) : PersonalDB :=
  with_profiles (<[PseudonymID p := match profiles d !! PseudonymID p with
                                    | Some old => as_stored p (ICreatedAt old)
                                    | None => as_stored p (timestamptz (ICreatedAt p)) end]> (profiles d)) d.
Definition ProfileDelete (p : string) (d : PersonalDB) : PersonalDB := with_profiles (delete p (profiles d)) d.

(** ** Blobs *)
Definition named (rh p : string) (b : Blob) : Prop := RefHash b = rh ∧ BlobPseudonym b = p ∧ RefHash b ≠ "".
#[export] Instance named_dec rh p b : Decision (named rh p b).
Proof. unfold named. apply _. Defined.

(** Unique ids, and unique names per owner among named blobs. *)
Definition BlobCreate (b : Blob) (d : PersonalDB) : res repoErr unit * PersonalDB :=
  if bool_decide (BlobID b ∈ (BlobID <$> blobs d)) ||
     negb (bool_decide (filter (named (RefHash b) (BlobPseudonym b)) (blobs d) = []))
  then (Err ErrUnique, d) else (Ok tt, with_blobs (b :: blobs d) d).
Definition GetByIDAndPseudonym (i p : string) (d : PersonalDB) : option Blob :=
  head (filter (λ b, BlobID b = i ∧ BlobPseudonym b = p) (blobs d)).
Definition GetByRefAndPseudonym (rh p : string) (d : PersonalDB) : option Blob := head (filter (named rh p) (blobs d)).
(** [false]: no row, the error "blob not found". *)
Definition delete_blobs (P : Blob → Prop) `{∀ b, Decision (P b)} (d : PersonalDB) : bool * PersonalDB :=
  (negb (bool_decide (filter P (blobs d) = [])), with_blobs (filter (λ b, ¬ P b) (blobs d)) d).
Definition DeleteByRefAndPseudonym (rh p : string) (d : PersonalDB) : bool * PersonalDB := delete_blobs (named rh p) d.
Definition BlobDelete (i p : string) (d : PersonalDB) : bool * PersonalDB :=
  delete_blobs (λ b, BlobID b = i ∧ BlobPseudonym b = p) d.
Definition DeleteAllForPseudonym (p : string) (d : PersonalDB) : PersonalDB :=
  with_blobs (filter (λ b, BlobPseudonym b ≠ p) (blobs d)) d.
Definition owned (p : string) (d : PersonalDB) : list Blob := filter (λ b, BlobPseudonym b = p) (blobs d).
(** Newest first; the data is not read. *)
Definition newest_blob (a b : Blob) : Prop := BlobCreatedAt b ≤ BlobCreatedAt a.
#[export] Instance newest_blob_dec a b : Decision (newest_blob a b).
Proof. unfold newest_blob. apply _. Defined.
Definition ListByPseudonym (p : string) (d : PersonalDB) : list Blob := merge_sort newest_blob (owned p d).
Definition sumZ (l : list Z) : Z := foldr Z.add 0 l.
(** The row count and the sum of [stored_bytes]. *)
Definition GetQuota (p : string) (d : PersonalDB) : Z * Z :=
  (Z.of_nat (length (owned p d)), sumZ (StoredBytes <$> owned p d)).

(** ** Service documents *)
Definition doc_at (c s k : string) (x : ServiceDocument) : Prop := ClientID x = c ∧ SubjectHash x = s ∧ DocKey x = k.
#[export] Instance doc_at_dec c s k x : Decision (doc_at c s k x).
Proof. unfold doc_at. apply _. Defined.
Definition DocGet (c s k : string) (d : PersonalDB) : option ServiceDocument := head (filter (doc_at c s k) (service_documents d)).
(** [ORDER BY client_id, doc_key], and either alone where the other is fixed. *)
Definition doc_le (a b : ServiceDocument) : Prop :=
  if decide (ClientID a = ClientID b) then String.leb (DocKey a) (DocKey b) = true
  else String.leb (ClientID a) (ClientID b) = true.
#[export] Instance doc_le_dec a b : Decision (doc_le a b).
Proof. unfold doc_le. case_decide; apply _. Defined.
Definition select (P : ServiceDocument → Prop) `{∀ x, Decision (P x)} (d : PersonalDB) : list ServiceDocument :=
  merge_sort doc_le (filter P (service_documents d)).
Definition ListSharedByKey (s k notc : string) (d : PersonalDB) : list ServiceDocument :=
  select (λ x, SubjectHash x = s ∧ DocKey x = k ∧ Visibility x = 1 ∧ ClientID x ≠ notc) d.
Definition ListSharedForSubject (s notc : string) (d : PersonalDB) : list ServiceDocument :=
  select (λ x, SubjectHash x = s ∧ Visibility x = 1 ∧ ClientID x ≠ notc) d.
(** [true]: inserted; the update keeps the id and the creation date. *)
Definition DocUpsert (now : Z) (x : ServiceDocument) (d : PersonalDB) : res repoErr bool * PersonalDB :=
  match filter (doc_at (ClientID x) (SubjectHash x) (DocKey x)) (service_documents d) with
  | [] =>
      if bool_decide (DocID x ∈ (DocID <$> service_documents d)) then (Err ErrUnique, d)
      else (Ok true, with_docs (mkServiceDocument (DocID x) (ClientID x) (SubjectHash x) (DocKey x) (Visibility x) (DocDataEnc x)
                                  (DocSizeBytes x) (DocStoredBytes x) (DocVersion x) now now :: service_documents d) d)
  | _ =>
      (Ok false, with_docs ((λ y, if decide (doc_at (ClientID x) (SubjectHash x) (DocKey x) y)
         then mkServiceDocument (DocID y) (ClientID y) (SubjectHash y) (DocKey y) (Visibility x) (DocDataEnc x)
                (DocSizeBytes x) (DocStoredBytes x) (DocVersion x) (DocCreatedAt y) now
         else y) <$> service_documents d) d)
  end.
Definition DocDelete (c s k : string) (d : PersonalDB) : bool * PersonalDB :=
  (negb (bool_decide (filter (doc_at c s k) (service_documents d) = [])),
   with_docs (filter (λ x, ¬ doc_at c s k x) (service_documents d)) d).
Definition ListByOwner (c s : string) (d : PersonalDB) : list ServiceDocument :=
  select (λ x, ClientID x = c ∧ SubjectHash x = s) d.
Definition CountForOwner (c s : string) (d : PersonalDB) : Z := Z.of_nat (length (ListByOwner c s d)).
Definition SumBytesForSubjectAndClient (s c : string) (d : PersonalDB) : Z := sumZ (DocStoredBytes <$> ListByOwner c s d).
Definition ListAllForSubject (s : string) (d : PersonalDB) : list ServiceDocument := select (λ x, SubjectHash x = s) d.
Definition DeleteAllForSubject (s : string) (d : PersonalDB) : PersonalDB :=
  with_docs (filter (λ x, SubjectHash x ≠ s) (service_documents d)) d.

(** ** Social accounts *)
Definition SocialCreate (a : SocialAccount) (d : PersonalDB) : res repoErr unit * PersonalDB :=
  if bool_decide (SAID a ∈ (SAID <$> social_accounts d)) ||
     existsb (λ b, bool_decide (Provider b = Provider a ∧ ProviderUserID b = ProviderUserID a)) (social_accounts d)
  then (Err ErrUnique, d) else (Ok tt, with_social (a :: social_accounts d) d).
Definition GetByProviderAndID (p i : string) (d : PersonalDB) : option SocialAccount :=
  head (filter (λ a, Provider a = p ∧ ProviderUserID a = i) (social_accounts d)).
Definition SocialDelete (i u : string) (d : PersonalDB) : PersonalDB :=
  with_social (filter (λ a, ¬ (SAID a = i ∧ SAUserID a = u)) (social_accounts d)) d.
Definition SocialDeleteAllForUser (u : string) (d : PersonalDB) : PersonalDB :=
  with_social (filter (λ a, SAUserID a ≠ u) (social_accounts d)) d.

(** ** Login countries *)
(** (was new, had any) *)
Definition UpsertAndWasNew (u cc : string) (d : PersonalDB) : (bool * bool) * PersonalDB :=
  let wasNew := negb (bool_decide ((u, cc) ∈ login_countries d)) in
  let hadAny := existsb (λ r, bool_decide (r.1 = u)) (login_countries d) in
  ((wasNew, hadAny), if wasNew then with_countries ((u, cc) :: login_countries d) d else d).
(** auth.erase_login_countries refuses an account that is not a tombstone. *)
Definition EraseLoginCountries (u : string) (accounts : DB) (d : PersonalDB) : res repoErr unit * PersonalDB :=
  if match users accounts !! u with Some r => negb (Deleted r) | None => false end then (Err ErrDB, d)
  else (Ok tt, with_countries (filter (λ r, r.1 ≠ u) (login_countries d)) d).

(** ** Escrow *)
Definition RecoveryAppend (r : AccountRecovery) (d : PersonalDB) : res repoErr unit * PersonalDB :=
  if bool_decide (RID r ∈ (RID <$> account_recovery d)) then (Err ErrUnique, d)
  else (Ok tt, with_recovery (r :: account_recovery d) d).

(** ** Service clients *)
(** Unique ids and names. *)
Definition ClientCreate (c : Client) (d : PersonalDB) : res repoErr unit * PersonalDB :=
  if bool_decide (is_Some (clients d !! ClID c)) || existsb (λ p, bool_decide (ClName p.2 = ClName c)) (map_to_list (clients d))
  then (Err ErrUnique, d) else (Ok tt, with_clients (<[ClID c := c]> (clients d)) d).
Definition ClientGetByID (i : string) (d : PersonalDB) : option Client := clients d !! i.
Definition ClientGetByName (n : string) (d : PersonalDB) : option Client :=
  snd <$> head (filter (λ p, ClName p.2 = n) (map_to_list (clients d))).
Definition by_name (a b : Client) : Prop := String.leb (ClName a) (ClName b) = true.
#[export] Instance by_name_dec a b : Decision (by_name a b).
Proof. unfold by_name. apply _. Defined.
Definition ClientList (d : PersonalDB) : list Client := merge_sort by_name (snd <$> map_to_list (clients d)).
(** The row keeps its creation date; another row's name is refused. *)
Definition ClientUpdate (now : Z) (c : Client) (d : PersonalDB) : res repoErr unit * PersonalDB :=
  match clients d !! ClID c with
  | None => (Ok tt, d)
  | Some old =>
      if existsb (λ p, bool_decide (ClName p.2 = ClName c ∧ p.1 ≠ ClID c)) (map_to_list (clients d)) then (Err ErrUnique, d)
      else (Ok tt, with_clients (<[ClID c := mkClient (ClID c) (ClName c) (SecretHash c) (ClRole c) (ClScopes c) (RedirectURIs c)
                                              (ClActive c) (ClCreatedAt old) now]> (clients d)) d)
  end.
Definition Deactivate (now : Z) (i : string) (d : PersonalDB) : PersonalDB :=
  with_clients (alter (λ c, mkClient (ClID c) (ClName c) (SecretHash c) (ClRole c) (ClScopes c) (RedirectURIs c) false (ClCreatedAt c) now)
                  i (clients d)) d.
