(* ===== verification/Effects.v ===== *)
(** * Effects: programs over the service's stores

    The services are straight-line code over stores other goroutines share: the
    database, the cache, the clock, entropy, the audit log.  Such a body is a
    [prog]: a tree of statements ([stmt]), each atomic, whose answers pick the
    branch.  [perform] gives a statement its meaning in a [World]; a [choice]
    supplies what the outside decides: how much time passes, which bytes the
    entropy source returns, whether the call fails and on which side of the
    commit, whether the password semaphore is full.

    Three readings of a program are built on it: [run] executes it on a stream
    of choices, [wp] states what holds of every outcome under every stream, and
    [pool_step] interleaves any number of programs with each other and with the
    operators' and reapers' own statements. *)
From S2P Require Import Prelude GoStd Cache Crypto Model TokenStore UserStore FactorStore AdminStore PersonalStore.
From Stdlib Require Import Ascii.
Open Scope string_scope.
Open Scope Z_scope.

(** ** Errors of the services *)
Inductive authErr :=
| ErrInvalidCredentials | ErrAccountLocked | ErrAccountBanned | ErrAccountDisabled
| ErrTokenExpired | ErrTokenInvalid | ErrReplayDetected | ErrEmailOTPNotAllowed
| ErrPasswordResetRequired | ErrChallengeConsumed | ErrTooManySessions
| ErrSessionExpired | ErrSessionAgeUnknown | ErrSessionIdle
| ErrArgon2Overloaded
| ErrRepo (e : repoErr) | ErrCache (e : cacheErr)
| ErrMFAStatus | ErrEntropy | ErrSigning | ErrMail | ErrUnconfigured.

#[export] Instance authErr_eq_dec : EqDecision authErr.
Proof. solve_decision. Defined.

(** [errors.Is(err, ErrTokenExpired)] and the like: the three session errors
    wrap an ordinary one. *)
Definition unwrap (e : authErr) : authErr :=
  match e with
  | ErrSessionExpired | ErrSessionIdle => ErrTokenExpired
  | ErrSessionAgeUnknown => ErrTokenInvalid
  | _ => e
  end.

(** ** What the programs leave behind *)
Record Device := mkDevice {
  DID : string; DUserID : string; DFingerprint : string; DIP : string; DLastSeen : Z
}.

(** Work handed to the deferred pool. *)
Inductive job :=
| JobMail (template to : string)
| JobURL (template to url : string)
| JobVerification (to u redirectTo : string)
| JobEmailOTP (u to : string)
| JobResetLink (kind u to : string)
| JobNewCountry (u to ip : string)
| JobHoneypot (email ip : string).

Inductive event :=
| Audit (kind u client ip reason : string)
| Metric (name : string)
| Mail (template to body : string)
| Deferred (j : job)
| Slept (d : Z).

Record World (C : Type) := mkWorld {
  clock : Z;
  db : DB;
  cch : C;
  rate_limits : gmap (string * Z) Z;
  devices : list Device;
  enrolled : Factors;                  (** the tables of second factors *)
  app_roles : list string;
  catalog : option (list string * Z);  (** the role catalogue's names and load time *)
  refusedAt : Z;                       (** [lockoutCounterRefusedAt], 0 for never *)
  drawn : gset string;                 (** every value the entropy source returned *)
  trail : list event;                  (** newest first *)
  admins : AdminDB;                    (** the administrators' tables *)
  personal : PersonalDB;               (** personal data beside the account row *)
}.
Arguments mkWorld {C} _ _ _ _ _ _ _ _ _ _ _ _ _.
Arguments clock {C} _.
Arguments db {C} _.
Arguments cch {C} _.
Arguments rate_limits {C} _.
Arguments devices {C} _.
Arguments enrolled {C} _.
Arguments app_roles {C} _.
Arguments catalog {C} _.
Arguments refusedAt {C} _.
Arguments drawn {C} _.
Arguments trail {C} _.
Arguments admins {C} _.
Arguments personal {C} _.

(** ** Statements *)
Inductive pwErr := Argon2Overloaded | Argon2Malformed.

Inductive stmt : Type → Type :=
| SNow : stmt Z
| SRandom : stmt (res authErr string)
| SVerify (pw hash pepper : string) : stmt (res pwErr bool)
| SHash (pw pepper : string) : stmt (res pwErr string)  (** [HashPassword]: the semaphore, then a fresh salt *)
| SSign (claims : VaultClaims) (kid : string) : stmt (res authErr string)
| SGet (k : string) : stmt (res cacheErr string)
| SSet (k v : string) (ttl : Z) : stmt (res cacheErr unit)
| SDelete (k : string) : stmt (res cacheErr unit)
| SGetAndDelete (k : string) : stmt (res cacheErr string)
| SSetIfNotExists (k v : string) (ttl : Z) : stmt (res cacheErr bool)
| SIncrement (k : string) (ttl : Z) : stmt (res cacheErr Z)
| SCreate (t : RefreshToken) : stmt (res repoErr unit)
| SCreateWithinCap (t : RefreshToken) (cap : Z) : stmt (res repoErr unit)
| SCountActiveFamilies (u : string) : stmt (res repoErr Z)
| SFamilyOrigin (f : string) : stmt (res repoErr (option Z))
| SGetByTokenHash (h : string) : stmt (res repoErr (option RefreshToken))
| SMarkUsed (i : string) : stmt (res repoErr bool)
| SRevokeFamily (f : string) : stmt (res repoErr unit)
| SRevokeAllForUser (u : string) : stmt (res repoErr unit)
| SGetByID (i : string) : stmt (res repoErr (option User))
| SGetByEmail (e : string) : stmt (res repoErr (option User))
| SIncrementFailedLogin (i : string) : stmt (res repoErr unit)
| SResetFailedLogin (i : string) : stmt (res repoErr unit)
| SSetLastLogin (i : string) : stmt (res repoErr unit)
| SRateGet (k : string) (window : Z) : stmt (res repoErr Z)
| SRateIncrement (k : string) (window : Z) : stmt (res repoErr Z)
| SDeviceGet (u fp : string) : stmt (res repoErr (option Device))
| SDeviceCreate (d : Device) : stmt (res repoErr unit)
| SDeviceSeen (i ip : string) : stmt (res repoErr unit)
| STotpGet (u : string) : stmt (res repoErr (option TOTPSecret))
| STotpCreate (t : TOTPSecret) : stmt (res repoErr unit)
| STotpMarkVerified (i : string) : stmt (res repoErr unit)
| STotpDelete (u : string) : stmt (res repoErr unit)
| SPasskeys (u : string) : stmt (res repoErr nat)
| SCodesUnused (u : string) : stmt (res repoErr (list BackupCode))
| SCodesCreate (cs : list BackupCode) : stmt (res repoErr unit)
| SCodesMarkUsed (i : string) : stmt (res repoErr bool)
| SCodesInvalidate (u : string) : stmt (res repoErr unit)
| SRevokeAllTokens : stmt (res repoErr unit)
| SUsers {B : Type} (q : Z → DB → B * gmap string User) : stmt (res repoErr B)
    (** a statement on auth.users alone *)
| SAdmin {B : Type} (q : Z → AdminDB → res repoErr B * AdminDB) : stmt (res repoErr B)
    (** a statement on the administrators' tables *)
| SPersonal {B : Type} (q : Z → DB → PersonalDB → res repoErr B * PersonalDB) : stmt (res repoErr B)
    (** a statement on the tables of personal data *)
| SDevicesDelete (u : string) : stmt (res repoErr unit)
| SPasskeysDelete (u : string) : stmt (res repoErr unit)
| SCodesPurge (u : string) : stmt (res repoErr unit)
| STokensDelete (u : string) : stmt (res repoErr unit)
| SCatalogLoad : stmt (option (list string * Z))
| SCatalogStore (names : list string) (at_ : Z) : stmt unit
| SListNames : stmt (res repoErr (list string))
| SLatchLoad : stmt Z
| SLatchStore (t : Z) : stmt unit
| SSleep (d : Z) : stmt unit
| SSend (template to body : string) : stmt (res authErr unit)
| SEmit (e : event) : stmt unit.

(** ** Programs *)
Inductive prog (A : Type) : Type :=
| Ret (a : A)
| Do {B : Type} (s : stmt B) (k : B → prog A).
Arguments Ret {A} a.
Arguments Do {A B} s k.

Fixpoint bind {A B} (p : prog A) (f : A → prog B) : prog B :=
  match p with Ret a => f a | Do s k => Do s (λ x, bind (k x) f) end.

Definition call {B} (s : stmt B) : prog B := Do s Ret.

Declare Scope prog_scope.
Delimit Scope prog_scope with prog.
Notation "x <- p ;; q" := (bind p (λ x, q))
  (at level 60, p at next level, right associativity) : prog_scope.
Notation "p ;;; q" := (bind p (λ _, q)) (at level 60, right associativity) : prog_scope.
(** [if err != nil { return nil, err }] *)
Notation "x <-! p ;; q" := (bind p (λ r, match r with Ok x => q | Err e => Ret (Err e) end))
  (at level 60, p at next level, right associativity) : prog_scope.

(** A repository call whose error is returned as it is. *)
Definition repo {B} (s : stmt (res repoErr B)) : prog (res authErr B) :=
  bind (call s) (λ r, Ret (match r with Ok b => Ok b | Err e => Err (ErrRepo e) end)).

(** ** Choices *)
Inductive fault := NoFault | FailsBefore | FailsAfter.

Record choice := mkChoice {
  c_tick : Z;         (** time that passes before the statement, in nanoseconds *)
  c_cache : fault;    (** does a cache call fail, before or after its effect *)
  c_db : fault;       (** does a database call fail, likewise *)
  c_rand : string;    (** what the entropy source would return *)
  c_dry : bool;       (** the entropy source fails *)
  c_busy : bool;      (** the password semaphore cannot be acquired *)
  c_cancel : bool;    (** the client hangs up: a sleep is cut short *)
  c_mail : bool;      (** the mail relay refuses the message *)
}.

Section perform.
Context {C : Type} `{CacheOps C} `{Primitives}.
#[local] Notation "'W'" := (World C).

Definition set_clock (t : Z) (w : W) : W :=
  mkWorld t (db w) (cch w) (rate_limits w) (devices w) (enrolled w) (app_roles w) (catalog w)
    (refusedAt w) (drawn w) (trail w) (admins w) (personal w).
Definition set_db (d : DB) (w : W) : W :=
  mkWorld (clock w) d (cch w) (rate_limits w) (devices w) (enrolled w) (app_roles w) (catalog w)
    (refusedAt w) (drawn w) (trail w) (admins w) (personal w).
Definition set_cch (c : C) (w : W) : W :=
  mkWorld (clock w) (db w) c (rate_limits w) (devices w) (enrolled w) (app_roles w) (catalog w)
    (refusedAt w) (drawn w) (trail w) (admins w) (personal w).
Definition set_rates (m : gmap (string * Z) Z) (w : W) : W :=
  mkWorld (clock w) (db w) (cch w) m (devices w) (enrolled w) (app_roles w) (catalog w)
    (refusedAt w) (drawn w) (trail w) (admins w) (personal w).
Definition set_devices (ds : list Device) (w : W) : W :=
  mkWorld (clock w) (db w) (cch w) (rate_limits w) ds (enrolled w) (app_roles w) (catalog w)
    (refusedAt w) (drawn w) (trail w) (admins w) (personal w).
Definition set_enrolled (f : Factors) (w : W) : W :=
  mkWorld (clock w) (db w) (cch w) (rate_limits w) (devices w) f (app_roles w) (catalog w)
    (refusedAt w) (drawn w) (trail w) (admins w) (personal w).
Definition set_catalog (x : option (list string * Z)) (w : W) : W :=
  mkWorld (clock w) (db w) (cch w) (rate_limits w) (devices w) (enrolled w) (app_roles w) x
    (refusedAt w) (drawn w) (trail w) (admins w) (personal w).
Definition set_refused (t : Z) (w : W) : W :=
  mkWorld (clock w) (db w) (cch w) (rate_limits w) (devices w) (enrolled w) (app_roles w) (catalog w)
    t (drawn w) (trail w) (admins w) (personal w).
Definition set_drawn (x : gset string) (w : W) : W :=
  mkWorld (clock w) (db w) (cch w) (rate_limits w) (devices w) (enrolled w) (app_roles w) (catalog w)
    (refusedAt w) x (trail w) (admins w) (personal w).
Definition emit (e : event) (w : W) : W :=
  mkWorld (clock w) (db w) (cch w) (rate_limits w) (devices w) (enrolled w) (app_roles w) (catalog w)
    (refusedAt w) (drawn w) (e :: trail w) (admins w) (personal w).

Definition set_admins (a : AdminDB) (w : W) : W :=
  mkWorld (clock w) (db w) (cch w) (rate_limits w) (devices w) (enrolled w) (app_roles w) (catalog w)
    (refusedAt w) (drawn w) (trail w) a (personal w).

Definition set_personal (p : PersonalDB) (w : W) : W :=
  mkWorld (clock w) (db w) (cch w) (rate_limits w) (devices w) (enrolled w) (app_roles w) (catalog w)
    (refusedAt w) (drawn w) (trail w) (admins w) p.

(** Time never runs backwards. *)
Definition tick (c : choice) (w : W) : W := set_clock (clock w + Z.max 0 (c_tick c)) w.

(** A failing call reports [e]; its effect is lost or kept. *)
Definition faulty {E A} (f : fault) (e : E) (w : W) (r : res E A * W) : res E A * W :=
  match f with NoFault => r | FailsBefore => (Err e, w) | FailsAfter => (Err e, r.2) end.

Definition on_cache {A} (c : choice) (f : Z → C → res cacheErr A * C) (w : W) : res cacheErr A * W :=
  faulty (c_cache c) ErrCacheUnavailable w
    (let '(r, c') := f (clock w) (cch w) in (r, set_cch c' w)).

Definition on_db {A} (c : choice) (f : DB → res repoErr A * DB) (w : W) : res repoErr A * W :=
  faulty (c_db c) ErrDB w (let '(r, d) := f (db w) in (r, set_db d w)).

Definition on_factors {A} (c : choice) (f : Factors → res repoErr A * Factors) (w : W) : res repoErr A * W :=
  faulty (c_db c) ErrDB w (let '(r, f') := f (enrolled w) in (r, set_enrolled f' w)).

(** [ON CONFLICT ... SET count = count + 1]. *)
Definition rate_increment (k : string) (window : Z) (w : W) : Z * W :=
  let n := default 0 (rate_limits w !! (k, window)) + 1 in
  (n, set_rates (<[(k, window) := n]> (rate_limits w)) w).

Definition device_of (u fp : string) (w : W) : option Device :=
  head (filter (λ d, DUserID d = u ∧ DFingerprint d = fp) (devices w)).

Definition perform (c : choice) {B} (s : stmt B) (w0 : W) : B * W :=
  let w := tick c w0 in
  match s in stmt B return B * W with
  | SNow => (clock w, w)
  | SRandom =>
      if c_dry c then (Err ErrEntropy, w)
      else (Ok (c_rand c), set_drawn ({[c_rand c]} ∪ drawn w) w)
  | SVerify pw hash pepper =>
      (if c_busy c then Err Argon2Overloaded
       else match argon2_verify pw hash pepper with
            | Ok b => Ok b
            | Err _ => Err Argon2Malformed
            end, w)
  | SHash pw pepper =>
      (if c_busy c then Err Argon2Overloaded else Ok (argon2_hash (c_rand c) pw pepper), w)
  | SSign claims kid =>
      (match SignToken claims kid with Ok s => Ok s | Err _ => Err ErrSigning end, w)
  | SGet k => on_cache c (λ t, Get t k) w
  | SSet k v ttl => on_cache c (λ t, Set_ t k v ttl) w
  | SDelete k => on_cache c (λ t, Delete t k) w
  | SGetAndDelete k => on_cache c (λ t, GetAndDelete t k) w
  | SSetIfNotExists k v ttl => on_cache c (λ t, SetIfNotExists t k v ttl) w
  | SIncrement k ttl => on_cache c (λ t, Increment t k ttl) w
  | SCreate t => on_db c (Create t) w
  | SCreateWithinCap t cap => on_db c (CreateWithinCap (clock w) t cap) w
  | SCountActiveFamilies u => on_db c (λ d, (Ok (CountActiveFamilies (clock w) u d), d)) w
  | SFamilyOrigin f => on_db c (λ d, (Ok (FamilyOrigin f d), d)) w
  | SGetByTokenHash h => on_db c (λ d, (Ok (GetByTokenHash h d), d)) w
  | SMarkUsed i => on_db c (λ d, let '(b, d') := MarkUsed i d in (Ok b, d')) w
  | SRevokeFamily f => on_db c (λ d, (Ok tt, RevokeFamily f d)) w
  | SRevokeAllForUser u => on_db c (λ d, (Ok tt, RevokeAllForUser u d)) w
  | SGetByID i => on_db c (λ d, (Ok (GetByID i d), d)) w
  | SGetByEmail e => on_db c (λ d, (Ok (GetByEmail e d), d)) w
  | SIncrementFailedLogin i => on_db c (λ d, (Ok tt, IncrementFailedLogin i d)) w
  | SResetFailedLogin i => on_db c (λ d, (Ok tt, ResetFailedLogin i d)) w
  | SSetLastLogin i => on_db c (λ d, (Ok tt, SetLastLogin (clock w) i d)) w
  | SRateGet k window =>
      faulty (c_db c) ErrDB w (Ok (default 0 (rate_limits w !! (k, window))), w)
  | SRateIncrement k window =>
      faulty (c_db c) ErrDB w (let '(n, w') := rate_increment k window w in (Ok n, w'))
  | SDeviceGet u fp => faulty (c_db c) ErrDB w (Ok (device_of u fp w), w)
  | SDeviceCreate d =>
      faulty (c_db c) ErrDB w
        (match device_of (DUserID d) (DFingerprint d) w with
         | Some _ => (Err ErrUnique, w)
         | None => (Ok tt, set_devices (d :: devices w) w)
         end)
  | SDeviceSeen i ip =>
      faulty (c_db c) ErrDB w
        (Ok tt, set_devices
          ((λ d, if decide (DID d = i)
                 then mkDevice (DID d) (DUserID d) (DFingerprint d) ip (clock w) else d)
           <$> devices w) w)
  | STotpGet u => on_factors c (λ f, (Ok (TOTPGetByUserID u f), f)) w
  | STotpCreate t => on_factors c (TOTPCreate t) w
  | STotpMarkVerified i => on_factors c (λ f, (Ok tt, TOTPMarkVerified i f)) w
  | STotpDelete u => on_factors c (λ f, (Ok tt, TOTPDeleteByUserID u f)) w
  | SPasskeys u => on_factors c (λ f, (Ok (default 0%nat (passkeys f !! u)), f)) w
  | SCodesUnused u => on_factors c (λ f, (Ok (ListUnusedByUser u f), f)) w
  | SCodesCreate cs => on_factors c (CreateBatch cs) w
  | SCodesMarkUsed i => on_factors c (λ f, let '(b, f') := BackupMarkUsed (clock w) i f in (Ok b, f')) w
  | SCodesInvalidate u => on_factors c (λ f, (Ok tt, InvalidateAllForUser (clock w) u f)) w
  | SRevokeAllTokens => on_db c (λ d, (Ok tt, RevokeAll d)) w
  | SUsers q => on_db c (λ d, let '(b, us) := q (clock w) d in (Ok b, with_users us d)) w
  | SAdmin q =>
      faulty (c_db c) ErrDB w (let '(r, a) := q (clock w) (admins w) in (r, set_admins a w))
  | SPersonal q =>
      faulty (c_db c) ErrDB w (let '(r, p) := q (clock w) (db w) (personal w) in (r, set_personal p w))
  | SDevicesDelete u =>
      faulty (c_db c) ErrDB w (Ok tt, set_devices (filter (λ d, DUserID d ≠ u) (devices w)) w)
  | SPasskeysDelete u => on_factors c (λ f, (Ok tt, PasskeysDeleteAllForUser u f)) w
  | SCodesPurge u => on_factors c (λ f, (Ok tt, PurgeAllForUser u f)) w
  | STokensDelete u => on_db c (λ d, (Ok tt, DeleteAllForUser u d)) w
  | SCatalogLoad => (catalog w, w)
  | SCatalogStore names t => (tt, set_catalog (Some (names, t)) w)
  | SListNames => faulty (c_db c) ErrDB w (Ok (app_roles w), w)
  | SLatchLoad => (refusedAt w, w)
  | SLatchStore t => (tt, set_refused t w)
  | SSleep d =>
      let w1 := emit (Slept d) w in
      (tt, if c_cancel c then w1 else set_clock (clock w1 + Z.max 0 d) w1)
  | SSend template to body =>
      if c_mail c then (Err ErrMail, w) else (Ok tt, emit (Mail template to body) w)
  | SEmit e => (tt, emit e w)
  end.

(** ** Running alone *)
Fixpoint run {A} (p : prog A) (o : nat → choice) (w : W) : A * W :=
  match p with
  | Ret a => (a, w)
  | Do s k => let '(b, w') := perform (o 0%nat) s w in run (k b) (λ n, o (S n)) w'
  end.

(** Every outcome, under every choice [P] admits, satisfies [Q]. *)
Fixpoint wp (P : choice → Prop) {A} (p : prog A) (Q : A → W → Prop) (w : W) : Prop :=
  match p with
  | Ret a => Q a w
  | Do s k => ∀ c, P c → wp P (k (perform c s w).1) Q (perform c s w).2
  end.

Lemma wp_bind P {A B} (p : prog A) (f : A → prog B) Q w :
  wp P (bind p f) Q w ↔ wp P p (λ a w', wp P (f a) Q w') w.
Proof. revert w. induction p as [a|B' s k IH]; intros w; cbn; [done|]. setoid_rewrite IH. done. Qed.

Lemma wp_mono P {A} (p : prog A) (Q Q' : A → W → Prop) w :
  (∀ a w', Q a w' → Q' a w') → wp P p Q w → wp P p Q' w.
Proof. intros HQ. revert w. induction p as [a|B s k IH]; intros w; cbn; eauto. Qed.

Lemma wp_and P {A} (p : prog A) (Q Q' : A → W → Prop) w :
  wp P p Q w → wp P p Q' w → wp P p (λ a w', Q a w' ∧ Q' a w') w.
Proof. revert w. induction p as [a|B s k IH]; intros w; cbn; eauto. Qed.

Lemma wp_weaken (P P' : choice → Prop) {A} (p : prog A) (Q : A → W → Prop) w :
  (∀ c, P' c → P c) → wp P p Q w → wp P' p Q w.
Proof. intros HP. revert w. induction p as [a|B s k IH]; intros w; cbn; eauto. Qed.

(** What [wp] promises of every run. *)
Lemma wp_run P {A} (p : prog A) (Q : A → W → Prop) w o :
  (∀ n, P (o n)) → wp P p Q w → Q (run p o w).1 (run p o w).2.
Proof.
  revert w o. induction p as [a|B s k IH]; intros w o HP; cbn; [done|]. intros Hw.
  specialize (Hw (o 0%nat) (HP 0%nat)). destruct (perform (o 0%nat) s w) as [b w'].
  apply IH; [|done]. intros n. apply HP.
Qed.

Lemma run_bind {A B} (p : prog A) (f : A → prog B) o w :
  ∃ n, run (bind p f) o w = run (f (run p o w).1) (λ i, o (n + i)%nat) (run p o w).2.
Proof.
  revert o w. induction p as [a|B' s k IH]; intros o w; cbn; [by exists 0%nat|].
  destruct (perform (o 0%nat) s w) as [b w']. destruct (IH b (λ n, o (S n)) w') as [n Hn].
  exists (S n). by rewrite Hn.
Qed.

(** Every call succeeds and the semaphore is free. *)
Definition healthy (c : choice) : Prop :=
  c_cache c = NoFault ∧ c_db c = NoFault ∧ c_dry c = false ∧ c_busy c = false.
Definition any (c : choice) : Prop := True.

(** A choice that does nothing unusual. *)
Definition calm (r : string) : choice := mkChoice 0 NoFault NoFault r false false false false.
End perform.

(** ** Running beside others *)
Section pool.
Context {C : Type} `{CacheOps C} `{Primitives}.

(** One thread performs one statement. *)
Definition thread_step {A} (p : prog A) (c : choice) (w : World C) : prog A * World C :=
  match p with
  | Ret a => (Ret a, w)
  | Do s k => let '(b, w') := perform c s w in (k b, w')
  end.

(** Threads, the world they share, and one step of the system: a new request
    running one of the service's programs ([offered]) arrives, a thread
    performs a statement under a choice [admissible] there, or something
    outside the service changes the world ([outside]). *)
Inductive pool_step {A} (offered : prog A → Prop) (admissible : choice → World C → Prop)
    (outside : World C → World C → Prop) :
  list (prog A) * World C → list (prog A) * World C → Prop :=
| pool_spawn (ps : list (prog A)) (p : prog A) (w : World C) :
    offered p → pool_step offered admissible outside (ps, w) ((ps ++ [p])%list, w)
| pool_thread (ps : list (prog A)) i p c (w : World C) :
    ps !! i = Some p → admissible c w →
    pool_step offered admissible outside (ps, w)
      (<[i := (thread_step p c w).1]> ps, (thread_step p c w).2)
| pool_outside (ps : list (prog A)) (w w' : World C) :
    outside w w' → pool_step offered admissible outside (ps, w) (ps, w').
End pool.

(** ** Frames *)
Section frames.
Context {C : Type} `{CacheOps C} `{Primitives}.

(** Only the clock and the entropy source moved. *)
Definition same_stores (w w' : World C) : Prop :=
  db w' = db w ∧ cch w' = cch w ∧ rate_limits w' = rate_limits w ∧ devices w' = devices w ∧
  enrolled w' = enrolled w ∧ app_roles w' = app_roles w ∧ catalog w' = catalog w ∧
  refusedAt w' = refusedAt w ∧ trail w' = trail w ∧ admins w' = admins w ∧ clock w ≤ clock w'.

Lemma same_refl w : same_stores w w.
Proof. by split_and!. Qed.
Lemma same_trans w1 w2 w3 : same_stores w1 w2 → same_stores w2 w3 → same_stores w1 w3.
Proof. unfold same_stores. intros (?&?&?&?&?&?&?&?&?&?&?) (?&?&?&?&?&?&?&?&?&?&?).
  split_and!; first [congruence | lia]. Qed.
Lemma same_tick c w : same_stores w (tick c w).
Proof. unfold same_stores, tick, set_clock. cbn. split_and!; try done. lia. Qed.
Lemma same_drawn x w : same_stores w (set_drawn x w).
Proof. by unfold same_stores. Qed.

Lemma same_db w w' : same_stores w w' → db w' = db w.
Proof. by intros (?&_). Qed.
Lemma same_clock w w' : same_stores w w' → clock w ≤ clock w'.
Proof. by intros (?&?&?&?&?&?&?&?&?&?&?). Qed.

Lemma same_now c w : (perform c SNow w).1 = clock (perform c SNow w).2 ∧ same_stores w (perform c SNow w).2.
Proof. split; [done|apply same_tick]. Qed.
Lemma same_random c w : same_stores w (perform c SRandom w).2.
Proof.
  cbn. destruct (c_dry c); cbn; [apply same_tick|].
  eapply same_trans; [apply same_tick|apply same_drawn].
Qed.

(** No statement turns the clock back. *)
Lemma faulty_clock {E A} f (e : E) (w : World C) (r : res E A * World C) :
  clock w ≤ clock r.2 → clock w ≤ clock (faulty f e w r).2.
Proof. by destruct f. Qed.

Lemma perform_clock c {B} (s : stmt B) (w : World C) : clock w ≤ clock (perform c s w).2.
Proof.
  assert (Ht : clock w ≤ clock (tick c w)) by (cbn; lia).
  destruct s; unfold perform, on_cache, on_db, on_factors; cbn zeta;
    try (etrans; [exact Ht|]; apply faulty_clock; repeat case_match; simplify_eq/=; done);
    try done.
  - by destruct (c_dry c).
  - by destruct (c_db c).
  - destruct (c_cancel c); cbn; lia.
  - by destruct (c_mail c).
Qed.

Lemma wp_clock P {A} (p : prog A) (w : World C) : wp P p (λ _ w', clock w ≤ clock w') w.
Proof.
  cut (∀ t, t ≤ clock w → wp P p (λ _ w', t ≤ clock w') w); [intros Hc; by apply Hc|].
  revert w. induction p as [a|B s k IH]; intros w t Ht; cbn; [done|].
  intros c _. apply IH. etrans; [exact Ht|apply perform_clock].
Qed.
End frames.

#[export] Hint Resolve same_refl same_tick same_random : vault.

(** ** A concrete instance *)
Module Toy.
Definition prims : Primitives := {|
  sha256_hex s := "#" +:+ s;
  sha256_b64url s := "~" +:+ s;
  hmac_hex m k := m +:+ "/" +:+ k;
  argon2_verify pw h p := Ok (bool_decide ("$" +:+ pw = h));
  argon2_hash salt pw p := "$" +:+ pw;
  SignToken c k := Ok (k +:+ ":" +:+ Subject c +:+ ":" +:+ JTI c)
|}.
Definition alice : User :=
  mkUser "alice" "alice@example.org" true "$secret" None 0 ["user"] false false None false false false no_profile.
Definition world : World Memory.MemoryCache :=
  mkWorld (1000 * second) (mkDB [] {["alice" := alice]}) Memory.NewMemoryCache ∅ [] no_factors ["user"] None 0 ∅ [] no_admins no_personal.
(** The [n]-th call draws the [n]-th name and takes a microsecond. *)
Definition oracle (n : nat) : choice := mkChoice 1000 NoFault NoFault ("r" +:+ FormatInt (Z.of_nat n)) false false false false.
End Toy.
