(* ===== verification/Random.v ===== *)
(** * Random: bytes, tokens and identifiers from the entropy source

    Models internal/crypto/random.go over the statement [SRandom]: the source
    returns a string, [RandomBytes] takes the bytes it asked for and reports a
    short read as an error, as [io.ReadFull] does. *)
From S2P Require Import Prelude GoStd Json Bytes Base64 Cache Crypto NetIP Aes Effects.
From Stdlib Require Import Ascii.
Open Scope string_scope.
Open Scope Z_scope.
Open Scope prog_scope.

Definition RandomBytes (n : nat) : prog (res authErr string) :=
  b <-! call SRandom ;;
  Ret (if (String.length b <? n)%nat then Err ErrEntropy else Ok (take_str n b)).

Definition RandomHex (n : nat) : prog (res authErr string) :=
  b <-! RandomBytes n ;; Ret (Ok (hex_encode b)).
Definition RandomToken (n : nat) : prog (res authErr string) := RandomHex n.

(** [b[i] = f(b[i])] *)
Fixpoint update_byte (i : nat) (f : Z → Z) (s : string) : string :=
  match i, s with
  | O, String c r => String (chr (f (code c))) r
  | S i', String c r => String c (update_byte i' f r)
  | _, "" => ""
  end.
Definition slice (i j : nat) (s : string) : string := take_str (j - i) (drop_str i s).
(** Version 4 in the seventh byte, variant 10 in the ninth. *)
Definition uuid_of (b : string) : string :=
  let b := update_byte 6 (λ x, Z.lor (Z.land x 15) 64) b in
  let b := update_byte 8 (λ x, Z.lor (Z.land x 63) 128) b in
  hex_encode (slice 0 4 b) +:+ "-" +:+ hex_encode (slice 4 6 b) +:+ "-" +:+ hex_encode (slice 6 8 b) +:+ "-" +:+
  hex_encode (slice 8 10 b) +:+ "-" +:+ hex_encode (slice 10 16 b).
Definition RandomUUID : prog (res authErr string) :=
  b <-! RandomBytes 16 ;; Ret (Ok (uuid_of b)).

Example uuid_nil : uuid_of (take_str 16 (zeros 16)) = "30303030-3030-4030-b030-303030303030".
Proof. by vm_compute. Qed.

(** ** Facts *)
Lemma no_nul_app a b : no_nul a → no_nul b → no_nul (a +:+ b).
Proof. intros Ha Hb. induction a as [|c a IH]; [done|]. rewrite string_app_cons. destruct Ha. split; auto. Qed.
Lemma hex_digit_code d : 0 ≤ d < 16 → 48 ≤ code (hex_digit d).
Proof. intros Hd. unfold hex_digit. rewrite code_chr; destruct (Z.ltb_spec d 10); lia. Qed.
Lemma no_nul_hex s : no_nul (hex_encode s).
Proof.
  induction s as [|c s IH]; [done|]. pose proof (code_range c).
  pose proof (hex_digit_code (code c / 16)) as H1. pose proof (hex_digit_code (code c mod 16)) as H2.
  split; [|split; [|done]].
  - assert (0 ≤ code c / 16 < 16) by (Z.to_euclidean_division_equations; lia). specialize (H1 ltac:(done)). lia.
  - assert (0 ≤ code c mod 16 < 16) by (Z.to_euclidean_division_equations; lia). specialize (H2 ltac:(done)). lia.
Qed.
Lemma no_nul_uuid b : no_nul (uuid_of b).
Proof. unfold uuid_of. repeat first [apply no_nul_app | apply no_nul_hex | (by split_and!; vm_compute)]. Qed.

Lemma take_str_full n s : (n ≤ String.length s)%nat → String.length (take_str n s) = n.
Proof. revert n. induction s as [|c s IH]; intros [|n] Hn; cbn in *; try done; [lia|]. by rewrite IH by lia. Qed.

Section spec.
Context {C : Type} `{CacheOps C} `{Primitives}.

(** A draw changes no table and yields as many bytes as asked. *)
Lemma RandomBytes_wp P n Q (w : World C) :
  (∀ r w', same_stores w w' → personal w' = personal w →
     match r with Ok b => String.length b = n | Err e => e = ErrEntropy end → Q r w') →
  wp P (RandomBytes n) Q w.
Proof.
  intros HQ c _. pose proof (same_random c w) as Hs.
  assert (Hp : personal (perform c SRandom w).2 = personal w) by (cbn; by destruct (c_dry c)).
  destruct (perform c SRandom w) as [[b|e] w'] eqn:E; cbn -[Nat.ltb].
  - apply HQ; [done|done|]. destruct (Nat.ltb_spec (String.length b) n); [done|]. by apply take_str_full.
  - apply HQ; [done|done|]. revert E. cbn. destruct (c_dry c); by intros [= <- _].
Qed.
Lemma RandomUUID_wp P Q (w : World C) :
  (∀ r w', same_stores w w' → personal w' = personal w →
     match r with Ok i => no_nul i | Err e => e = ErrEntropy end → Q r w') →
  wp P RandomUUID Q w.
Proof.
  intros HQ. unfold RandomUUID. apply wp_bind, RandomBytes_wp. intros [b|e] w' Hs Hp Hr; cbn; apply HQ; auto using no_nul_uuid.
Qed.
End spec.
