(* ===== verification/StoreWp.v ===== *)
(** * StoreWp: rules for programs over the personal tables

    The services of blobs, profiles and documents read a table, seal a record
    and write it.  Here are the statements they share ([reads], [encrypt]) and the
    rules of [wp] for them, whatever the database does. *)
From S2P Require Import Prelude GoStd Bytes Cache Crypto NetIP Aes Model TokenStore PersonalStore Effects Random.
From stdpp Require Import list.
Open Scope string_scope.
Open Scope Z_scope.
Open Scope prog_scope.

(** A statement that only reads the personal tables. *)
Definition reads {B} (f : PersonalDB → B) : stmt (res repoErr B) := SPersonal (λ _ _ d, (Ok (f d), d)).
(** One that always has its effect and reports something. *)
Definition writes {B} (f : PersonalDB → B * PersonalDB) : stmt (res repoErr B) :=
  SPersonal (λ _ _ d, let '(b, d') := f d in (Ok b, d')).

(** [vaultcrypto.Encrypt] with the nonce it draws. *)
Definition encrypt `{AEAD} (plaintext key aad : string) : prog (option string) :=
  n <- RandomBytes nonceSize ;;
  Ret (Encrypt plaintext key aad (match n with Ok n => Some n | Err _ => None end)).

Section rules.
Context {C : Type} `{CacheOps C} `{Primitives} `{AEAD}.
#[local] Notation "'W'" := (World C).
Implicit Types w : W.

(** The clock moved, and entropy was drawn. *)
Definition idle w w' : Prop := same_stores w w' ∧ personal w' = personal w.
Lemma idle_refl w : idle w w.
Proof. split; auto with vault. Qed.
Lemma idle_trans w1 w2 w3 : idle w1 w2 → idle w2 w3 → idle w1 w3.
Proof. intros [? E] [? E']. split; [by eapply same_trans|by rewrite E', E]. Qed.
Lemma idle_tick c w : idle w (tick c w).
Proof. split; auto with vault. Qed.
Lemma idle_personal w w' : idle w w' → personal w' = personal w.
Proof. by intros [_ ?]. Qed.

Lemma wp_always P {A} (p : prog A) (Q : A → W → Prop) w : (∀ a w', Q a w') → wp P p Q w.
Proof. intros HQ. revert w. induction p as [a|B s k IH]; intros w; cbn; auto. Qed.
Lemma wp_time P {B} (k : Z → prog B) Q w :
  (∀ w1, idle w w1 → wp P (k (clock w1)) Q w1) → wp P (bind (call SNow) k) Q w.
Proof. intros Hk c _. apply Hk, idle_tick. Qed.

(** Every statement on the personal tables: it happens, it fails before, or it
    happens and is reported as a failure. *)
Lemma wp_personal P {A B} (q : Z → DB → PersonalDB → res repoErr A * PersonalDB) (k : res repoErr A → prog B) Q w :
  (∀ w1, idle w w1 →
     wp P (k (q (clock w1) (db w1) (personal w1)).1) Q (set_personal (q (clock w1) (db w1) (personal w1)).2 w1) ∧
     wp P (k (Err ErrDB)) Q w1 ∧
     wp P (k (Err ErrDB)) Q (set_personal (q (clock w1) (db w1) (personal w1)).2 w1)) →
  wp P (bind (call (SPersonal q)) k) Q w.
Proof.
  intros Hk c _. destruct (Hk _ (idle_tick c w)) as (Ha & Hb & Hc). cbn.
  destruct (q _ _ _) as [r p]. by destruct (c_db c).
Qed.
Lemma wp_reads P {A B} (f : PersonalDB → A) (k : res repoErr A → prog B) Q w :
  (∀ w1, idle w w1 → wp P (k (Ok (f (personal w)))) Q w1 ∧ wp P (k (Err ErrDB)) Q w1) →
  wp P (bind (call (reads f)) k) Q w.
Proof.
  intros Hk c _. destruct (Hk _ (idle_tick c w)) as [Ha Hb]. cbn.
  by destruct (c_db c).
Qed.
(** The same when the database answers. *)
Lemma wp_personal_ok (P : choice → Prop) {A B} (q : Z → DB → PersonalDB → res repoErr A * PersonalDB) (k : res repoErr A → prog B) Q w :
  (∀ c, P c → c_db c = NoFault) →
  (∀ w1, idle w w1 →
     wp P (k (q (clock w1) (db w1) (personal w1)).1) Q (set_personal (q (clock w1) (db w1) (personal w1)).2 w1)) →
  wp P (bind (call (SPersonal q)) k) Q w.
Proof.
  intros HP Hk c Hc. specialize (Hk _ (idle_tick c w)). cbn. rewrite (HP c Hc).
  by destruct (q _ _ _) as [r p].
Qed.

Lemma wp_encrypt P {B} pt key aad (k : option string → prog B) Q w :
  (∀ w1 n, idle w w1 → String.length n = nonceSize → wp P (k (Encrypt pt key aad (Some n))) Q w1) →
  (∀ w1, idle w w1 → wp P (k None) Q w1) →
  wp P (bind (encrypt pt key aad) k) Q w.
Proof.
  intros Hs Hn. unfold encrypt. rewrite !wp_bind. apply RandomBytes_wp. intros [n|e] w1 Hw Hp Hr; cbn; rewrite ?Hr.
  - by apply Hs.
  - unfold Encrypt. destruct (negb _); by apply Hn.
Qed.

(** A program none of whose statements writes a personal table. *)
Fixpoint untouched {A} (p : prog A) : Prop :=
  match p with
  | Ret _ => True
  | Do st k => (∀ c w, personal (perform c st w).2 = personal w) ∧ ∀ b, untouched (k b)
  end.
Lemma untouched_bind {A B} (p : prog A) (f : A → prog B) : untouched p → (∀ a, untouched (f a)) → untouched (bind p f).
Proof. intros Hp Hf. induction p as [a|X st k IH]; cbn in *; [done|]. destruct Hp. split; auto. Qed.
Lemma untouched_wp P {A} (p : prog A) w : untouched p → wp P p (λ _ w', personal w' = personal w) w.
Proof.
  revert w. induction p as [a|X st k IH]; intros w; cbn; [done|]. intros [Hs Hk] c _. eapply wp_mono; [|by apply IH].
  intros a w' ->. apply Hs.
Qed.
Lemma untouched_reads {A B} (f : PersonalDB → B) (k : res repoErr B → prog A) : (∀ r, untouched (k r)) → untouched (bind (call (reads f)) k).
Proof. intros Hk. split; [|done]. intros c w. cbn. by destruct (c_db c). Qed.
End rules.
#[export] Hint Resolve idle_refl idle_tick : vault.

(** ** A schedule
    [drive] lets the threads it names perform one statement each: one run of
    [pool_step] without new requests. *)
Section drive.
Context {C : Type} `{CacheOps C} `{Primitives}.
Fixpoint drive {A} (sched : list nat) (o : nat → choice) (ps : list (prog A)) (w : World C) : list (prog A) * World C :=
  match sched with
  | [] => (ps, w)
  | i :: sched' =>
      match ps !! i with
      | None => drive sched' (λ n, o (S n)) ps w
      | Some p => let '(p', w') := thread_step p (o 0%nat) w in drive sched' (λ n, o (S n)) (<[i := p']> ps) w'
      end
  end.
End drive.
