(* ===== verification/Reasoning.v ===== *)
(** * Reasoning: rely-guarantee, what a program does to a world others change

    [gwp] follows a program whose every statement may find the world changed by
    others ([R], what it relies on): each of its own statements is a step of [G]
    (what it guarantees), and [Q] holds at the end.  [pool_guarantee]: requests
    that each guarantee what the others rely on guarantee it together, under any
    interleaving. *)
From S2P Require Import Prelude GoStd Cache Crypto NetIP Aes Model TokenStore UserStore FactorStore AdminStore PersonalStore Effects Random StoreWp.
From stdpp Require Import list.
Open Scope Z_scope.
Open Scope prog_scope.

Section rely.
Context {C : Type} `{CacheOps C} `{Primitives}.
#[local] Notation "'W'" := (World C).
Implicit Types w : W.
Context (P : choice → Prop) (R G : W → W → Prop).

Fixpoint gwp {A} (p : prog A) (Q : A → W → Prop) w : Prop :=
  match p with
  | Ret a => Q a w
  | Do s k => ∀ w1 c, R w w1 → P c → G w1 (perform c s w1).2 ∧ gwp (k (perform c s w1).1) Q (perform c s w1).2
  end.

Lemma gwp_bind {A B} (p : prog A) (f : A → prog B) Q w :
  gwp p (λ a w', gwp (f a) Q w') w → gwp (bind p f) Q w.
Proof.
  revert w. induction p as [a|B' s k IH]; intros w; cbn; [done|]. intros Hp w1 c Hw Hc.
  destruct (Hp w1 c Hw Hc) as [HG Hk]. split; [done|]. by apply IH.
Qed.
Lemma gwp_mono {A} (p : prog A) (Q Q' : A → W → Prop) w : (∀ a w', Q a w' → Q' a w') → gwp p Q w → gwp p Q' w.
Proof.
  intros HQ. revert w. induction p as [a|B s k IH]; intros w; cbn; [apply HQ|]. intros Hp w1 c Hw Hc.
  destruct (Hp w1 c Hw Hc) as [HG Hk]. split; [done|]. by apply IH.
Qed.

Context `{!PreOrder R} (HGR : ∀ w w', G w w' → R w w').
Lemma gwp_stable {A} (p : prog A) w w' : gwp p (λ _ _, True) w → R w w' → gwp p (λ _ _, True) w'.
Proof. destruct p as [a|B s k]; [done|]. intros Hp Hw w1 c Hw1 Hc. apply Hp; [|done]. by etrans. Qed.

Lemma pool_step_guarantee {A} (offered : prog A → Prop) outside ps w ps' w' :
  (∀ p, offered p → gwp p (λ _ _, True) w) → (∀ w w', outside w w' → R w w') →
  Forall (λ p, gwp p (λ _ _, True) w) ps → pool_step offered (λ c _, P c) outside (ps, w) (ps', w') →
  (w' = w ∨ G w w' ∨ outside w w') ∧ R w w' ∧ Forall (λ p, gwp p (λ _ _, True) w') ps'.
Proof.
  intros Hoff Hout Hps Hst. inversion Hst as [ps0 p w0 Ho|ps0 i p c w0 Hi Hc|ps0 w0 w1 Ho]; simplify_eq.
  - split; [by left|]. split; [reflexivity|]. apply Forall_app. split; [done|]. apply Forall_singleton. by apply Hoff.
  - assert (Hp : gwp p (λ _ _, True) w) by exact (Forall_lookup_1 _ _ _ _ Hps Hi).
    assert (HG : (thread_step p c w).2 = w ∨ G w (thread_step p c w).2).
    { destruct p as [a|B s k]; [by left|]. right. destruct (Hp w c ltac:(reflexivity) Hc) as [HG _]. cbn. by destruct (perform c s w). }
    assert (HR : R w (thread_step p c w).2) by (destruct HG as [->|HG]; [reflexivity|by apply HGR]).
    split; [destruct HG; auto|]. split; [done|]. apply Forall_insert.
    + eapply Forall_impl; [exact Hps|]. intros q Hq. exact (gwp_stable q w _ Hq HR).
    + destruct p as [a|B s k]; [done|]. destruct (Hp w c ltac:(reflexivity) Hc) as [_ Hk]. cbn. by destruct (perform c s w).
  - split; [auto|]. split; [by apply Hout|]. eapply Forall_impl; [exact Hps|]. intros q Hq. exact (gwp_stable q w _ Hq (Hout _ _ Ho)).
Qed.

(** What holds initially and is kept by [G] and by the world outside holds throughout. *)
Theorem pool_guarantee {A} (offered : prog A → Prop) outside (J : W → Prop) w0 ps w :
  (∀ p w, offered p → R w0 w → gwp p (λ _ _, True) w) → (∀ w w', outside w w' → R w w') →
  (∀ w w', J w → G w w' ∨ outside w w' → J w') → J w0 →
  rtc (pool_step offered (λ c _, P c) outside) ([], w0) (ps, w) → J w.
Proof.
  intros Hoff Hout HJ HJ0 Hr.
  enough (Hinv : ∀ a b, rtc (pool_step offered (λ c _, P c) outside) a b →
    R w0 a.2 → Forall (λ p, gwp p (λ _ _, True) a.2) a.1 → J a.2 → J b.2).
  { apply (Hinv _ _ Hr); [cbn; reflexivity|constructor|done]. }
  clear Hr. intros a b Hr. induction Hr as [a|[ps1 w1] [ps2 w2] c Hst Hr IH]; [done|]. cbn [fst snd] in *. intros HR1 Hps HJ1.
  destruct (pool_step_guarantee offered outside ps1 w1 ps2 w2) as (Hs & HR2 & Hps2); try done; [intros p Hp; by apply Hoff|].
  apply IH; [by etrans|done|]. destruct Hs as [->|Hs]; [done|by eapply HJ].
Qed.
End rely.

(** A schedule is one way the pool may run. *)
Lemma drive_reachable {C} `{CacheOps C} `{Primitives} {A} (offered : prog A → Prop) (admissible : choice → Prop) outside sched o ps (w : World C) :
  (∀ n, admissible (o n)) → rtc (pool_step offered (λ c _, admissible c) outside) (ps, w) (drive sched o ps w).
Proof.
  revert o ps w. induction sched as [|i sched IH]; intros o ps w Ho; [done|]. cbn.
  destruct (ps !! i) as [p|] eqn:Ep; [|by apply IH].
  eapply rtc_l; [by apply (pool_thread offered (λ c _, admissible c) outside ps i p (o 0%nat) w)|]. destruct (thread_step p (o 0%nat) w) as [p' w'].
  by apply IH.
Qed.
Lemma spawn_all {C} `{CacheOps C} `{Primitives} {A} (offered : prog A → Prop) admissible outside ps qs (w : World C) :
  Forall offered ps → rtc (pool_step offered admissible outside) (qs, w) ((qs ++ ps)%list, w).
Proof.
  intros Hps. revert qs. induction Hps as [|p ps Hp Hps IH]; intros qs; [by rewrite app_nil_r|].
  eapply rtc_l; [by apply (pool_spawn offered admissible outside qs p)|]. replace (qs ++ p :: ps)%list with ((qs ++ [p]) ++ ps)%list by (by rewrite <- app_assoc).
  apply IH.
Qed.

(** * Noninterference: programs that cannot tell two worlds apart

    Two programs run side by side, on the same choices, in two worlds that look
    alike.  [twins]: they perform the same statements, the worlds stay alike and
    the results are related; [twins_run] draws the conclusion for their runs. *)

Section blind.
Context {C : Type} `{CacheOps C} `{Primitives}.
#[local] Notation "'W'" := (World C).
Implicit Types w : W.
Context (P : choice → Prop) (alike : W → W → Prop).

Inductive twins {A B} (rel : A → B → Prop) : prog A → prog B → Prop :=
| twins_ret a b : rel a b → twins rel (Ret a) (Ret b)
| twins_do {X} (s : stmt X) k k' :
    (∀ c w w', P c → alike w w' → alike (perform c s w).2 (perform c s w').2) →
    (∀ c w w', P c → alike w w' → twins rel (k (perform c s w).1) (k' (perform c s w').1)) →
    twins rel (Do s k) (Do s k').

Lemma twins_bind {A B A' B'} (rel : A → B → Prop) (rel' : A' → B' → Prop) p q (f : A → prog A') (g : B → prog B') :
  twins rel p q → (∀ a b, rel a b → twins rel' (f a) (g b)) → twins rel' (bind p f) (bind q g).
Proof. intros Hp Hf. induction Hp as [a b Hr|X s k k' Hs Hk IH]; cbn; [by apply Hf|]. by constructor. Qed.
Lemma twins_run {A B} (rel : A → B → Prop) p q o w w' : (∀ n, P (o n)) → twins rel p q → alike w w' →
  rel (run p o w).1 (run q o w').1 ∧ alike (run p o w).2 (run q o w').2.
Proof.
  intros Ho Hp. revert o w w' Ho. induction Hp as [a b Hr|X s k k' Hs Hk IH]; intros o w w' Ho Hw; cbn; [done|].
  pose proof (Hs (o 0%nat) w w' (Ho 0%nat) Hw) as Ha. specialize (IH (o 0%nat) w w' (Ho 0%nat) Hw).
  destruct (perform (o 0%nat) s w) as [x v], (perform (o 0%nat) s w') as [x' v']. cbn in *. apply IH; [intros n; apply Ho|done].
Qed.
(** One statement that answers the same in both worlds. *)
Lemma twins_same {A X} (s : stmt X) (k k' : X → prog A) :
  (∀ c w w', P c → alike w w' → (perform c s w).1 = (perform c s w').1 ∧ alike (perform c s w).2 (perform c s w').2) →
  (∀ x, twins eq (k x) (k' x)) → twins eq (bind (call s) k) (bind (call s) k').
Proof.
  intros Hs Hk. constructor; intros c w w' Hc Hw; destruct (Hs c w w' Hc Hw) as [E Ha]; [done|]. cbn. rewrite E. apply Hk.
Qed.
End blind.
