(* ===== verification/Blob.v ===== *)
(** * Blob: the encrypted object store

    Models internal/service/blob.go ([BlobService]) over the statements of
    [PersonalStore].  An upload is compressed, sealed to its id and owner and
    written under the owner's quota; a named upload replaces its predecessor.
    DEFLATE is a parameter with its round trip.  [serializePseudonymWrite] is a
    mutex: it has no statement of its own, and the section it protects is
    [store_blob]. *)
From S2P Require Import Prelude GoStd Json Bytes Base64 Cache Crypto NetIP Aes Model TokenStore PersonalStore Effects Random StoreWp.
From stdpp Require Import list sorting.
From Stdlib Require Import Ascii.
Open Scope string_scope.
Open Scope Z_scope.
Open Scope prog_scope.

(** compress/flate *)
Class Deflate := { deflate : string → string; inflate : string → option string }.
Class DeflateLaws `{Deflate} := { inflate_deflate s : inflate (deflate s) = Some s }.

Inductive blobErr :=
| ErrBlobTooSmall | ErrBlobTooLarge | ErrQuotaExceeded | ErrBlobNotFound | ErrBlobIDNamespace | BlobFailed (step : string).
#[export] Instance blobErr_eq_dec : EqDecision blobErr.
Proof. solve_decision. Defined.

Record BlobConfig := mkBlobConfig { MinBlobSize : Z; MaxBlobSize : Z; MaxBlobsPerUser : Z; QuotaBytes : Z }.
Record BlobService := mkBlobService { bl_masterKey : string; bl_hmacSecret : string; bl_config : BlobConfig }.

(** FNV-1a over 32 bits, then the stripe. *)
Definition blobLockStripes : Z := 64.
Fixpoint fnv32a (h : Z) (s : string) : Z :=
  match s with "" => h | String c r => fnv32a (Z.lxor h (code c) * 16777619 mod 2 ^ 32) r end.
Definition blobLockStripe (pseudonym : string) : Z := fnv32a 2166136261 pseudonym mod blobLockStripes.

(** Ids may not hold the separator. *)
Fixpoint contains_colon (s : string) : bool :=
  match s with "" => false | String c r => (code c =? 58) || contains_colon r end.
Definition blobAADSafeID (id : string) : bool := negb (contains_colon id).
Definition blobDataAAD (id pseudo : string) : option string :=
  if blobAADSafeID id then Some (id +:+ ":" +:+ pseudo) else None.
Definition blobLabelAAD (id pseudo : string) : option string :=
  if blobAADSafeID id then Some ("label:" +:+ id +:+ ":" +:+ pseudo) else None.

Definition strlen (s : string) : Z := Z.of_nat (String.length s).
Definition maxDecompressedSize : Z := 10 * 1024 * 1024.

Section blob.
Context `{Primitives} `{AEAD} `{Deflate}.

Definition bl_Pseudonym (s : BlobService) (userID : string) : string := HMACSign (userID +:+ ":objects") (bl_hmacSecret s).
Definition refHash (s : BlobService) (name pseudo : string) : string := HMACSign ("ref:" +:+ name +:+ ":" +:+ pseudo) (bl_hmacSecret s).

Definition restoreReplaced (existing : option Blob) : prog unit :=
  match existing with
  | None => Ret tt
  | Some b => call (SPersonal (λ _ _, BlobCreate b)) ;;; Ret tt
  end.

(** The section [serializePseudonymWrite] protects: the quota decision and the
    write it authorizes. *)
Definition store_blob (s : BlobService) (pseudo rh : string) (estimatedStored : Z) (blob : Blob) : prog (res blobErr unit) :=
  existing <- (if decide (rh = "") then Ret (Ok None) else call (reads (GetByRefAndPseudonym rh pseudo))) ;;
  match existing with
  | Err _ => Ret (Err (BlobFailed "replace lookup"))
  | Ok existing =>
      quota <- call (reads (GetQuota pseudo)) ;;
      match quota with
      | Err _ => Ret (Err (BlobFailed "quota check"))
      | Ok (count, bytes) =>
          let usedCount := match existing with Some _ => count - 1 | None => count end in
          let usedBytes := match existing with Some e => bytes - StoredBytes e | None => bytes end in
          if MaxBlobsPerUser (bl_config s) <=? usedCount then Ret (Err ErrQuotaExceeded)
          else if QuotaBytes (bl_config s) <? usedBytes + estimatedStored then Ret (Err ErrQuotaExceeded)
          else
            (if decide (rh = "") then Ret tt else call (writes (DeleteByRefAndPseudonym rh pseudo)) ;;; Ret tt) ;;;
            r <- call (SPersonal (λ _ _, BlobCreate blob)) ;;
            match r with
            | Err _ => restoreReplaced existing ;;; Ret (Err (BlobFailed "store"))
            | Ok _ => Ret (Ok tt)
            end
      end
  end.

Definition uploadInternal (s : BlobService) (userID data label refName : string) : prog (res blobErr Blob) :=
  let cfg := bl_config s in
  if (0 <? MinBlobSize cfg) && (strlen data <? MinBlobSize cfg) then Ret (Err ErrBlobTooSmall)
  else if MaxBlobSize cfg <? strlen data then Ret (Err ErrBlobTooLarge)
  else
    let pseudo := bl_Pseudonym s userID in
    let rh := if decide (refName = "") then "" else refHash s refName pseudo in
    let compressed := deflate data in
    let checksum := "sha256:" +:+ SHA256Hex data in
    id <- RandomUUID ;;
    match id with
    | Err _ => Ret (Err (BlobFailed "uuid"))
    | Ok id =>
        match blobDataAAD id pseudo with
        | None => Ret (Err ErrBlobIDNamespace)
        | Some dataAAD =>
            dataEnc <- encrypt compressed (bl_masterKey s) dataAAD ;;
            match dataEnc with
            | None => Ret (Err (BlobFailed "encrypt"))
            | Some dataEnc =>
                labelEnc <- (if decide (label = "") then Ret (Ok "")
                             else match blobLabelAAD id pseudo with
                                  | None => Ret (Err ErrBlobIDNamespace)
                                  | Some labelAAD =>
                                      e <- encrypt label (bl_masterKey s) labelAAD ;;
                                      Ret (match e with Some e => Ok e | None => Err (BlobFailed "label encrypt") end)
                                  end) ;;
                match labelEnc with
                | Err e => Ret (Err e)
                | Ok labelEnc =>
                    now <- call SNow ;;
                    let blob := mkBlob id pseudo rh labelEnc dataEnc (strlen data) (strlen dataEnc) checksum now in
                    r <- store_blob s pseudo rh (strlen compressed + 28) blob ;;
                    Ret (match r with Ok _ => Ok blob | Err e => Err e end)
                end
            end
        end
    end.
Definition Upload (s : BlobService) (userID data label : string) : prog (res blobErr Blob) := uploadInternal s userID data label "".
Definition UploadNamed (s : BlobService) (userID data name : string) : prog (res blobErr Blob) := uploadInternal s userID data name name.

(** Data, label and checksum; [Ok None] is no such blob. *)
Definition decryptBlob (s : BlobService) (blob : option Blob) (pseudo : string) : res blobErr (option (string * string * string)) :=
  match blob with
  | None => Ok None
  | Some b =>
      match blobDataAAD (BlobID b) pseudo with
      | None => Err ErrBlobIDNamespace
      | Some dataAAD =>
          match Decrypt (BlobDataEnc b) (bl_masterKey s) dataAAD with
          | None => Err (BlobFailed "decrypt")
          | Some compressed =>
              match inflate compressed with
              | None => Err (BlobFailed "decompress")
              | Some data =>
                  if maxDecompressedSize <? strlen data then Err (BlobFailed "decompress")
                  else if decide (LabelEnc b = "") then Ok (Some (data, "", Checksum b))
                  else match blobLabelAAD (BlobID b) pseudo with
                       | None => Err ErrBlobIDNamespace
                       | Some labelAAD =>
                           match Decrypt (LabelEnc b) (bl_masterKey s) labelAAD with
                           | None => Err (BlobFailed "label decrypt")
                           | Some label => Ok (Some (data, label, Checksum b))
                           end
                       end
              end
          end
      end
  end.

Definition Download (s : BlobService) (userID blobID : string) : prog (res blobErr (option (string * string * string))) :=
  let pseudo := bl_Pseudonym s userID in
  b <- call (reads (GetByIDAndPseudonym blobID pseudo)) ;;
  Ret (match b with Err _ => Err (BlobFailed "get") | Ok b => decryptBlob s b pseudo end).
Definition DownloadNamed (s : BlobService) (userID name : string) : prog (res blobErr (option (string * string * string))) :=
  let pseudo := bl_Pseudonym s userID in
  b <- call (reads (GetByRefAndPseudonym (refHash s name pseudo) pseudo)) ;;
  Ret (match b with Err _ => Err (BlobFailed "get by ref") | Ok b => decryptBlob s b pseudo end).

Record BlobMeta := mkBlobMeta {
  bm_ID : string; bm_Label : string; bm_Named : bool; bm_SizeBytes : Z; bm_StoredBytes : Z; bm_Checksum : string; bm_CreatedAt : Z
}.
(** A label that does not open is left empty; an id outside the namespace is skipped. *)
Definition blob_meta (s : BlobService) (pseudo : string) (b : Blob) : option BlobMeta :=
  let meta l := mkBlobMeta (BlobID b) l (negb (bool_decide (RefHash b = ""))) (SizeBytes b) (StoredBytes b) (Checksum b) (BlobCreatedAt b) in
  if decide (LabelEnc b = "") then Some (meta "")
  else aad ← blobLabelAAD (BlobID b) pseudo;
       Some (meta (default "" (Decrypt (LabelEnc b) (bl_masterKey s) aad))).
(** The metadata, and used bytes and count beside their limits. *)
Definition BlobList (s : BlobService) (userID : string) : prog (res blobErr (list BlobMeta * (Z * Z * Z * Z))) :=
  let pseudo := bl_Pseudonym s userID in
  l <- call (reads (ListByPseudonym pseudo)) ;;
  match l with
  | Err _ => Ret (Err (BlobFailed "list"))
  | Ok l =>
      q <- call (reads (GetQuota pseudo)) ;;
      Ret (match q with
           | Err _ => Err (BlobFailed "quota")
           | Ok (count, bytes) =>
               Ok (omap (blob_meta s pseudo) l, (bytes, QuotaBytes (bl_config s), count, MaxBlobsPerUser (bl_config s)))
           end)
  end.

Definition removed (r : res repoErr bool) : res blobErr unit :=
  match r with Ok true => Ok tt | Ok false => Err ErrBlobNotFound | Err _ => Err (BlobFailed "delete") end.
Definition DeleteBlob (s : BlobService) (userID blobID : string) : prog (res blobErr unit) :=
  r <- call (writes (BlobDelete blobID (bl_Pseudonym s userID))) ;;
  Ret (removed r).
Definition DeleteNamed (s : BlobService) (userID name : string) : prog (res blobErr unit) :=
  let pseudo := bl_Pseudonym s userID in
  r <- call (writes (DeleteByRefAndPseudonym (refHash s name pseudo) pseudo)) ;;
  Ret (removed r).
End blob.
