(* ===== verification/BlobFacts.v ===== *)
(** * BlobFacts: blobs come back, stay with their owner and within the quota

    What an upload promises under every failure of the database, the round trip
    of upload and download, and that a ciphertext opens in no other row. *)
From S2P Require Import Prelude GoStd Json Bytes Base64 Cache Crypto NetIP Aes Model TokenStore PersonalStore Effects Random StoreWp Blob.
From stdpp Require Import list sorting.
From Stdlib Require Import Ascii.
Open Scope string_scope.
Open Scope Z_scope.

(** ** Sums over filtered rows *)
Definition weight (f : Blob → Z) (l : list Blob) : Z := sumZ (f <$> l).
Lemma weight_cons f x l : weight f (x :: l) = f x + weight f l.
Proof. done. Qed.
Lemma weight_filter f (P : Blob → Prop) `{∀ b, Decision (P b)} l :
  Forall (λ b, 0 ≤ f b) l → weight f (filter P l) ≤ weight f l.
Proof.
  induction 1 as [|b l Hb Hl IH]; [done|]. rewrite filter_cons. case_decide; rewrite !weight_cons; lia.
Qed.
(** A row the filter drops takes its weight with it. *)
Lemma weight_dropped f (P : Blob → Prop) `{∀ b, Decision (P b)} l x :
  Forall (λ b, 0 ≤ f b) l → x ∈ l → ¬ P x → weight f (filter P l) + f x ≤ weight f l.
Proof.
  intros Hl Hx Hn. induction Hl as [|b l Hb Hl IH]; [by apply not_elem_of_nil in Hx|].
  apply elem_of_cons in Hx as [<-|Hx].
  - rewrite filter_cons, decide_False by done. rewrite weight_cons. pose proof (weight_filter f P l Hl). lia.
  - specialize (IH Hx). rewrite filter_cons. case_decide; rewrite ?weight_cons; lia.
Qed.
Lemma weight_one l : weight (λ _, 1) l = Z.of_nat (length l).
Proof. induction l as [|b l IH]; [done|]. rewrite weight_cons, IH. cbn. lia. Qed.

(** ** The quota *)
Definition stored_nonneg (d : PersonalDB) : Prop := Forall (λ b, 0 ≤ StoredBytes b) (blobs d).
(** Every owner's rows fit the limits, [f] being 1 or the stored bytes. *)
Definition fits (f : Blob → Z) (limit : Z) (p : string) (d : PersonalDB) : Prop := weight f (owned p d) ≤ limit.
Definition within (cfg : BlobConfig) (p : string) (d : PersonalDB) : Prop :=
  fits (λ _, 1) (MaxBlobsPerUser cfg) p d ∧ fits StoredBytes (QuotaBytes cfg) p d.
Definition quota_ok (cfg : BlobConfig) (d : PersonalDB) : Prop := stored_nonneg d ∧ ∀ p, within cfg p d.

Lemma GetQuota_weight p d : GetQuota p d = (weight (λ _, 1) (owned p d), weight StoredBytes (owned p d)).
Proof. unfold GetQuota. by rewrite weight_one. Qed.

Lemma filter_owned (P : Blob → Prop) `{∀ b, Decision (P b)} p d :
  owned p (with_blobs (filter P (blobs d)) d) = filter P (owned p d).
Proof.
  unfold owned. cbn. induction (blobs d) as [|b l IH]; [done|].
  rewrite !filter_cons. repeat (case_decide; rewrite ?filter_cons); try done; try (rewrite IH; done).
Qed.
Lemma owned_nonneg f p d : Forall (λ b, 0 ≤ f b) (blobs d) → Forall (λ b, 0 ≤ f b) (owned p d).
Proof. intros Hf. unfold owned. apply Forall_forall. intros b Hb. apply list_elem_of_filter in Hb as [_ Hb]. by eapply Forall_forall in Hf. Qed.

(** Deleting rows keeps everybody within the limits. *)
Lemma quota_filter cfg (P : Blob → Prop) `{∀ b, Decision (P b)} d :
  quota_ok cfg d → quota_ok cfg (with_blobs (filter P (blobs d)) d).
Proof.
  intros [Hn Hw]. split.
  - unfold stored_nonneg. cbn. apply Forall_forall. intros b Hb. apply list_elem_of_filter in Hb as [_ Hb]. by eapply Forall_forall in Hn.
  - intros p. destruct (Hw p) as [Hc Hb]. unfold within, fits in *. rewrite filter_owned.
    split; (etrans; [apply weight_filter|done]); [by apply Forall_true|by apply owned_nonneg].
Qed.
(** An insert does where the owner has room for it. *)
Lemma quota_insert cfg b d :
  quota_ok cfg d → 0 ≤ StoredBytes b →
  weight (λ _, 1) (owned (BlobPseudonym b) d) + 1 ≤ MaxBlobsPerUser cfg →
  weight StoredBytes (owned (BlobPseudonym b) d) + StoredBytes b ≤ QuotaBytes cfg →
  quota_ok cfg (with_blobs (b :: blobs d) d).
Proof.
  intros [Hn Hw] Hb H1 H2. split; [by apply Forall_cons_2|]. intros p. specialize (Hw p).
  unfold within, fits, owned in *. cbn [blobs with_blobs]. rewrite filter_cons.
  case_decide; [subst; rewrite !weight_cons; lia|done].
Qed.
Lemma create_quota cfg b d :
  quota_ok cfg d → 0 ≤ StoredBytes b →
  weight (λ _, 1) (owned (BlobPseudonym b) d) + 1 ≤ MaxBlobsPerUser cfg →
  weight StoredBytes (owned (BlobPseudonym b) d) + StoredBytes b ≤ QuotaBytes cfg →
  quota_ok cfg (BlobCreate b d).2.
Proof. intros. unfold BlobCreate. destruct (_ || _); [done|by apply quota_insert]. Qed.

(** ** The store under faults *)
Lemma with_blobs_id d : with_blobs (blobs d) d = d.
Proof. by destruct d. Qed.
Lemma named_head rh p d e : GetByRefAndPseudonym rh p d = Some e → e ∈ owned p d ∧ e ∈ blobs d ∧ named rh p e.
Proof.
  intros He. assert (Hi : e ∈ filter (named rh p) (blobs d)).
  { unfold GetByRefAndPseudonym in He. destruct (filter _ _); [done|]. cbn in He. injection He as ->. by left. }
  apply list_elem_of_filter in Hi as [Hn Hi]. split_and!; [|done|done]. apply list_elem_of_filter. split; [apply Hn|done].
Qed.
Lemma named_none rh p d : GetByRefAndPseudonym rh p d = None → filter (λ b, ¬ named rh p b) (blobs d) = blobs d.
Proof.
  unfold GetByRefAndPseudonym. induction (blobs d) as [|b l IH]; [done|]. rewrite !filter_cons.
  destruct (decide (named rh p b)); [done|]. intros Hh. rewrite decide_True by done. f_equal. auto.
Qed.
Lemma named_unset p (l : list Blob) : filter (λ b, ¬ named "" p b) l = l.
Proof. induction l as [|b l IH]; [done|]. rewrite filter_cons, decide_True; [by rewrite IH|]. intros (-> & _ & Hn). done. Qed.
Lemma named_unset_none p (l : list Blob) : filter (named "" p) l = [].
Proof. induction l as [|b l IH]; [done|]. rewrite filter_cons, decide_False; [done|]. intros (-> & _ & Hn). done. Qed.

(** A taken name is refused. *)
Lemma blob_taken b d x : x ∈ blobs d → RefHash b ≠ "" → RefHash x = RefHash b → BlobPseudonym x = BlobPseudonym b → BlobCreate b d = (Err ErrUnique, d).
Proof.
  intros Hx Hn Hr Hp. unfold BlobCreate. rewrite (bool_decide_eq_false_2 (filter _ _ = [])); [by rewrite orb_true_r|].
  intros E. assert (Hi : x ∈ filter (named (RefHash b) (BlobPseudonym b)) (blobs d)).
  { apply list_elem_of_filter. split; [|done]. split_and!; congruence. }
  rewrite E in Hi. by apply not_elem_of_nil in Hi.
Qed.
Lemma create_grows b d x : x ∈ blobs d → x ∈ blobs (BlobCreate b d).2.
Proof. unfold BlobCreate. destruct (_ || _); [done|]. by right. Qed.

(** The tables when the insert runs: the name's row is gone, or still there. *)
Definition cleared (rh p : string) (d d1 : PersonalDB) : Prop :=
  d1 = d ∨ rh ≠ "" ∧ d1 = (DeleteByRefAndPseudonym rh p d).2.
(** The row a named upload replaces. *)
Definition replaced (rh p : string) (d : PersonalDB) : option Blob :=
  if decide (rh = "") then None else GetByRefAndPseudonym rh p d.
Definition discount (f : Blob → Z) (e : option Blob) : Z := match e with Some x => f x | None => 0 end.

Lemma cleared_quota cfg rh p d d1 : quota_ok cfg d → cleared rh p d d1 → quota_ok cfg d1.
Proof. intros Hq [->|[_ ->]]; [done|]. by apply quota_filter. Qed.
Lemma cleared_keeps rh p d d1 x : cleared rh p d d1 → x ∈ blobs d → ¬ named rh p x → x ∈ blobs d1.
Proof. intros [->|[_ ->]] Hx Hn; [done|]. cbn. by apply list_elem_of_filter. Qed.
Lemma cleared_weight f rh p d d1 :
  Forall (λ b, 0 ≤ f b) (blobs d) → cleared rh p d d1 → d1 = d ∧ replaced rh p d ≠ None ∨
  weight f (owned p d1) + discount f (replaced rh p d) ≤ weight f (owned p d).
Proof.
  intros Hf [->|[Hrh ->]].
  - destruct (replaced rh p d); [by left|]. right. cbn. lia.
  - right. unfold DeleteByRefAndPseudonym, delete_blobs. cbn [snd]. rewrite filter_owned.
    unfold replaced. rewrite decide_False by done. destruct (GetByRefAndPseudonym rh p d) as [e|] eqn:E; cbn [discount].
    + apply named_head in E as (Ho & _ & Hn). apply weight_dropped; [by apply owned_nonneg|done|tauto].
    + pose proof (weight_filter f (λ b, ¬ named rh p b) (owned p d) (owned_nonneg f p d Hf)). lia.
Qed.

Section insert.
Context (cfg : BlobConfig) (rh p : string) (b : Blob) (d : PersonalDB).
Hypothesis Hp : BlobPseudonym b = p.
Hypothesis Hr : RefHash b = rh.
Hypothesis Hb : 0 ≤ StoredBytes b.
Hypothesis Hq : quota_ok cfg d.
Hypothesis Hcount : weight (λ _, 1) (owned p d) - discount (λ _, 1) (replaced rh p d) < MaxBlobsPerUser cfg.
Hypothesis Hbytes : weight StoredBytes (owned p d) - discount StoredBytes (replaced rh p d) + StoredBytes b ≤ QuotaBytes cfg.

Lemma replaced_taken x : replaced rh p d = Some x → rh ≠ "" ∧ x ∈ owned p d ∧ x ∈ blobs d ∧ named rh p x.
Proof. unfold replaced. case_decide; [done|]. intros E. split; [done|by apply named_head]. Qed.

Lemma insert_ok d1 : cleared rh p d d1 → quota_ok cfg (BlobCreate b d1).2.
Proof.
  intros Hc. pose proof (cleared_quota _ _ _ _ _ Hq Hc) as Hq1.
  destruct (cleared_weight (λ _, 1) rh p d d1 ltac:(by apply Forall_true) Hc) as [[-> Hx]|H1].
  - destruct (replaced rh p d) as [x|] eqn:E; [|done]. apply replaced_taken in E as (Hn & _ & Hi & (E1 & E2 & _)).
    rewrite (blob_taken b d x); [done|done|congruence..].
  - destruct (cleared_weight StoredBytes rh p d d1 (proj1 Hq) Hc) as [[-> Hx]|H2].
    + destruct (replaced rh p d) as [x|] eqn:E; [|done]. apply replaced_taken in E as (Hn & _ & Hi & (E1 & E2 & _)).
      rewrite (blob_taken b d x); [done|done|congruence..].
    + apply create_quota; [done|done|rewrite Hp; cbn in *; lia|rewrite Hp; lia].
Qed.
Lemma insert_replaces d1 : cleared rh p d d1 → (BlobCreate b d1).1 = Ok tt →
  blobs (BlobCreate b d1).2 = b :: filter (λ x, ¬ named rh p x) (blobs d).
Proof.
  intros [->|[Hn ->]] Hok.
  - destruct (replaced rh p d) as [x|] eqn:E.
    + apply replaced_taken in E as (Hn & _ & Hi & (E1 & E2 & _)).
      rewrite (blob_taken b d x) in Hok; [done|done|congruence..].
    + revert E Hok. unfold replaced, BlobCreate. destruct (_ || _); [done|]. cbn. intros E _. f_equal.
      case_decide as Hd; [by rewrite Hd, named_unset|by rewrite named_none].
  - revert Hok. unfold BlobCreate. destruct (_ || _); [done|]. done.
Qed.
(** Putting the replaced row back needs the room it had. *)
Lemma restore_ok d1 x d2 : cleared rh p d d1 → replaced rh p d = Some x → d2 = d1 ∨ d2 = (BlobCreate b d1).2 →
  quota_ok cfg (BlobCreate x d2).2.
Proof.
  intros Hc E. pose proof (replaced_taken x E) as (Hn & Ho & Hi & (E1 & E2 & _)).
  assert (Ht : ∀ d', b ∈ blobs d' → quota_ok cfg d' → quota_ok cfg (BlobCreate x d').2).
  { intros d' Hb' Hq'. rewrite (blob_taken x d' b); [done|done|congruence..]. }
  assert (H1 : quota_ok cfg (BlobCreate x d1).2).
  { destruct Hc as [->|[_ ->]]; [rewrite (blob_taken x d x); [done|done|congruence..]|].
    set (d1 := (DeleteByRefAndPseudonym rh p d).2).
    assert (Hc1 : cleared rh p d d1) by (right; done).
    assert (Hw : ∀ f, Forall (λ b, 0 ≤ f b) (blobs d) → weight f (owned p d1) + f x ≤ weight f (owned p d)).
    { intros f Hf. unfold d1, DeleteByRefAndPseudonym, delete_blobs. cbn [snd]. rewrite filter_owned.
      apply weight_dropped; [by apply owned_nonneg|done|]. intros Hnn. apply Hnn. by repeat split; try congruence. }
    destruct Hq as [Hsn Hwi]. destruct (Hwi p) as [Hc' Hb']. unfold fits in *.
    apply create_quota; [by eapply cleared_quota|by eapply Forall_forall in Hsn|..]; rewrite E2.
    - specialize (Hw (λ _, 1) ltac:(by apply Forall_true)). cbn in *. lia.
    - specialize (Hw StoredBytes Hsn). lia. }
  intros [-> | ->]; [done|]. pose proof (insert_ok d1 Hc) as Hq2. revert Hq2. unfold BlobCreate at 1 3.
  destruct (_ || _); [done|]. cbn. intros Hq2. apply Ht; [by left|done].
Qed.
End insert.

Section upload.
Context {C : Type} `{CacheOps C} `{Primitives} `{AEAD} `{Deflate}.
#[local] Notation "'W'" := (World C).
Implicit Types (w : W) (s : BlobService).

(** The upload was refused for its size or the quota. *)
Definition refused {A} (r : res blobErr A) : Prop :=
  r = Err ErrQuotaExceeded ∨ r = Err ErrBlobTooLarge ∨ r = Err ErrBlobTooSmall.

(** What one write section may do to the tables. *)
Definition stored_post s (pseudo rh : string) (b : Blob) (d : PersonalDB) (r : res blobErr unit) w' : Prop :=
  quota_ok (bl_config s) (personal w') ∧
  (refused r → personal w' = d) ∧
  (r = Ok tt → blobs (personal w') = b :: filter (λ x, ¬ named rh pseudo x) (blobs d)) ∧
  (∀ x, x ∈ blobs d → ¬ named rh pseudo x → x ∈ blobs (personal w')).

Lemma post_unchanged s pseudo rh b d e w :
  quota_ok (bl_config s) d → personal w = d → stored_post s pseudo rh b d (Err e) w.
Proof. intros Hq E. unfold stored_post. rewrite E. by split_and!. Qed.

Lemma post_failed s pseudo rh b d w :
  quota_ok (bl_config s) (personal w) → (∀ x, x ∈ blobs d → ¬ named rh pseudo x → x ∈ blobs (personal w)) →
  stored_post s pseudo rh b d (Err (BlobFailed "store")) w.
Proof. intros Hq Hk. split_and!; try done. by intros [?|[?|?]]. Qed.

Lemma insert_wp P s pseudo rh b d w :
  BlobPseudonym b = pseudo → RefHash b = rh → 0 ≤ StoredBytes b → quota_ok (bl_config s) d →
  weight (λ _, 1) (owned pseudo d) - discount (λ _, 1) (replaced rh pseudo d) < MaxBlobsPerUser (bl_config s) →
  weight StoredBytes (owned pseudo d) - discount StoredBytes (replaced rh pseudo d) + StoredBytes b ≤ QuotaBytes (bl_config s) →
  cleared rh pseudo d (personal w) →
  wp P (bind (call (SPersonal (λ _ _, BlobCreate b))) (λ r,
          match r with
          | Err _ => bind (restoreReplaced (replaced rh pseudo d)) (λ _, Ret (Err (BlobFailed "store")))
          | Ok _ => Ret (Ok tt)
          end)) (stored_post s pseudo rh b d) w.
Proof.
  intros Hp Hr Hb Hq Hc Hy Hcl.
  assert (Hk : ∀ d', cleared rh pseudo d d' → ∀ x, x ∈ blobs d → ¬ named rh pseudo x → x ∈ blobs d')
    by (intros; by eapply cleared_keeps).
  assert (Hrest : ∀ d1 d2 w2, cleared rh pseudo d d1 → personal w2 = d2 → d2 = d1 ∨ d2 = (BlobCreate b d1).2 →
    wp P (bind (restoreReplaced (replaced rh pseudo d)) (λ _, Ret (Err (BlobFailed "store")))) (stored_post s pseudo rh b d) w2).
  { intros d1 d2 w2 Hc1 E2 Hd2.
    assert (Hq2 : quota_ok (bl_config s) d2).
    { destruct Hd2 as [-> | ->]; [by eapply cleared_quota|by apply (insert_ok _ rh pseudo b d)]. }
    assert (Hk2 : ∀ x, x ∈ blobs d → ¬ named rh pseudo x → x ∈ blobs d2).
    { intros x Hx Hn. destruct Hd2 as [-> | ->]; [by eapply Hk|]. by apply create_grows, (Hk d1). }
    destruct (replaced rh pseudo d) as [x|] eqn:E; cbn [restoreReplaced].
    - apply wp_bind. apply wp_personal. intros w3 Hi. apply idle_personal in Hi. rewrite Hi, E2.
      pose proof (restore_ok _ rh pseudo b d Hp Hr Hb Hq ltac:(by rewrite E) ltac:(by rewrite E) d1 x d2 Hc1 E Hd2) as Hq3.
      split_and!; apply post_failed; cbn; rewrite ?Hi, ?E2; auto using create_grows.
    - apply post_failed; by rewrite E2. }
  apply wp_personal. intros w1 Hi. apply idle_personal in Hi. rewrite Hi.
  split_and!; [|eapply (Hrest (personal w)); eauto..].
  destruct (BlobCreate b (personal w)).1 as [[]|e] eqn:E1; [|eapply (Hrest (personal w)); eauto].
  cbn. split_and!; [by apply (insert_ok _ rh pseudo b d)|by intros [?|[?|?]]| |].
  - intros _. by apply (insert_replaces (bl_config s)).
  - intros x Hx Hn. by apply create_grows, (Hk (personal w)).
Qed.

Lemma store_blob_wp P s pseudo rh est b w :
  BlobPseudonym b = pseudo → RefHash b = rh → 0 ≤ StoredBytes b ≤ est → quota_ok (bl_config s) (personal w) →
  wp P (store_blob s pseudo rh est b) (stored_post s pseudo rh b (personal w)) w.
Proof.
  intros Hp Hr Hb Hq. unfold store_blob. set (d := personal w) in *.
  assert (Hcont : ∀ w1 e, personal w1 = d → e = replaced rh pseudo d →
    wp P (bind (call (reads (GetQuota pseudo))) (λ quota,
      match quota with
      | Err _ => Ret (Err (BlobFailed "quota check"))
      | Ok (count, bytes) =>
          let usedCount := match e with Some _ => count - 1 | None => count end in
          let usedBytes := match e with Some x => bytes - StoredBytes x | None => bytes end in
          if MaxBlobsPerUser (bl_config s) <=? usedCount then Ret (Err ErrQuotaExceeded)
          else if QuotaBytes (bl_config s) <? usedBytes + est then Ret (Err ErrQuotaExceeded)
          else bind (if decide (rh = "") then Ret tt else bind (call (writes (DeleteByRefAndPseudonym rh pseudo))) (λ _, Ret tt)) (λ _,
            bind (call (SPersonal (λ _ _, BlobCreate b))) (λ r,
              match r with
              | Err _ => bind (restoreReplaced e) (λ _, Ret (Err (BlobFailed "store")))
              | Ok _ => Ret (Ok tt)
              end))
      end)) (stored_post s pseudo rh b d) w1).
  { intros w1 e E1 He. apply wp_reads. intros w2 Hi. apply idle_personal in Hi. rewrite E1 in *.
    split; [|by apply post_unchanged]. rewrite GetQuota_weight. cbv zeta.
    assert (Hd : ∀ f n, match e with Some x => n - f x | None => n end = n - discount f e) by (intros; destruct e; cbn; lia).
    rewrite (Hd (λ _, 1)), (Hd StoredBytes), He.
    destruct (_ <=? _) eqn:El; [by apply post_unchanged|]. destruct (_ <? _) eqn:Et; [by apply post_unchanged|].
    apply Z.leb_gt in El. apply Z.ltb_ge in Et.
    assert (Hins : ∀ w3, cleared rh pseudo d (personal w3) → _) by (intros w3; apply (insert_wp P s pseudo rh b d w3); auto; lia).
    case_decide as Hrh; [apply Hins; by left|]. apply wp_bind. apply wp_personal. intros w3 Hi3. apply idle_personal in Hi3.
    rewrite Hi3, Hi. cbn. split_and!; apply Hins; cbn; [right; done|left; congruence|right; done]. }
  case_decide as Hrh.
  - apply Hcont; [done|]. unfold replaced. by rewrite decide_True.
  - apply wp_reads. intros w1 Hi. apply idle_personal in Hi. split; [|by apply post_unchanged].
    apply Hcont; [done|]. unfold replaced. by rewrite decide_False.
Qed.

(** *** A whole upload *)
(** [cipher.AEAD.Overhead] of GCM. *)
Context (Hlen : ∀ k n pt ad, String.length (Seal k n pt ad) = (String.length pt + 16)%nat).

Lemma Encrypt_length pt key aad n c :
  String.length n = nonceSize → Encrypt pt key aad (Some n) = Some c → strlen c = strlen pt + 28.
Proof.
  intros Hn. unfold Encrypt. destruct (negb _); [done|]. cbn. intros [= <-]. unfold strlen.
  rewrite string_app_length, Hn, Hlen. unfold nonceSize. lia.
Qed.

Definition upload_post s u refName d (r : res blobErr Blob) w' : Prop :=
  let p := bl_Pseudonym s u in
  let rh := if decide (refName = "") then "" else refHash s refName p in
  quota_ok (bl_config s) (personal w') ∧
  (refused r → personal w' = d) ∧
  (∀ x, x ∈ blobs d → ¬ named rh p x → x ∈ blobs (personal w')).

Lemma uploadInternal_wp P s u data label name w :
  quota_ok (bl_config s) (personal w) →
  wp P (uploadInternal s u data label name) (upload_post s u name (personal w)) w.
Proof.
  intros Hq. set (d := personal w) in *.
  assert (Hun : ∀ e w', personal w' = d → upload_post s u name d (Err e) w').
  { intros e w' E. unfold upload_post. rewrite E. by split_and!. }
  unfold uploadInternal. destruct (_ && _); [by apply Hun|]. destruct (_ <? _); [by apply Hun|].
  apply wp_bind, RandomUUID_wp. intros [id|e] w1 _ E1 _; fold d in E1; [|by apply Hun].
  destruct (blobDataAAD _ _) as [aad|]; [|by apply Hun].
  apply wp_encrypt; [|intros w2 Hi; apply idle_personal in Hi; apply Hun; congruence].
  intros w2 n Hi Hn. apply idle_personal in Hi.
  destruct (Encrypt _ _ _ _) as [enc|] eqn:Ee; [|apply Hun; congruence]. apply Encrypt_length in Ee; [|done].
  apply wp_bind. apply (wp_mono P _ (λ _ w3, personal w3 = d)).
  - intros [le|e] w3 E3; [|by apply Hun]. apply wp_time. intros w4 Hi4. apply idle_personal in Hi4. rewrite E3 in Hi4.
    apply wp_bind. eapply wp_mono; [|apply store_blob_wp; [done|done| |rewrite Hi4; done]; cbn; unfold strlen in *; lia].
    rewrite Hi4. intros r w5 (Ha & Hb & _ & Hc). split_and!; [done| |done].
    intros Hr. apply Hb. destruct r as [[]|e]; [by destruct Hr as [?|[?|?]]|].
    unfold refused in *. destruct Hr as [[= ->]|[[= ->]|[= ->]]]; auto.
  - case_decide; [cbn; congruence|]. destruct (blobLabelAAD _ _); [|cbn; congruence].
    apply wp_encrypt; intros w3; intros; cbn; match goal with H : idle _ _ |- _ => apply idle_personal in H end; congruence.
Qed.

(** *** Any history of requests *)
Inductive blob_request :=
| RUpload (u data label : string) | RUploadNamed (u data name : string)
| RDownload (u i : string) | RList (u : string) | RDelete (u i : string) | RDeleteNamed (u name : string).
Definition serve s (q : blob_request) : prog unit :=
  match q with
  | RUpload u x l => bind (Upload s u x l) (λ _, Ret tt)
  | RUploadNamed u x n => bind (UploadNamed s u x n) (λ _, Ret tt)
  | RDownload u i => bind (Download s u i) (λ _, Ret tt)
  | RList u => bind (BlobList s u) (λ _, Ret tt)
  | RDelete u i => bind (DeleteBlob s u i) (λ _, Ret tt)
  | RDeleteNamed u n => bind (DeleteNamed s u n) (λ _, Ret tt)
  end.
(** One request after the other, each under its own stream of choices. *)
Fixpoint history s (l : list (blob_request * (nat → choice))) w : W :=
  match l with [] => w | (q, o) :: l' => history s l' (run (serve s q) o w).2 end.

Lemma delete_wp P s {A} (f : PersonalDB → bool * PersonalDB) (k : res repoErr bool → A) w :
  (∀ d, quota_ok (bl_config s) d → quota_ok (bl_config s) (f d).2) → quota_ok (bl_config s) (personal w) →
  wp P (bind (call (writes f)) (λ r, Ret (k r))) (λ _ w', quota_ok (bl_config s) (personal w')) w.
Proof.
  intros Hf Hq. apply wp_personal. intros w1 Hi. apply idle_personal in Hi. rewrite Hi. specialize (Hf _ Hq).
  destruct (f (personal w)) as [b d']. cbn in *. by rewrite Hi.
Qed.
Lemma serve_wp P s q w :
  quota_ok (bl_config s) (personal w) → wp P (serve s q) (λ _ w', quota_ok (bl_config s) (personal w')) w.
Proof.
  intros Hq. destruct q as [u x l|u x n|u i|u|u i|u n]; cbn [serve]; apply wp_bind.
  - eapply wp_mono; [|by apply uploadInternal_wp]. by intros r w' (?&_).
  - eapply wp_mono; [|by apply uploadInternal_wp]. by intros r w' (?&_).
  - apply wp_reads. intros w1 Hi. apply idle_personal in Hi. cbn. by rewrite Hi.
  - apply wp_reads. intros w1 Hi. apply idle_personal in Hi. split; [|cbn; by rewrite Hi].
    apply wp_reads. intros w2 Hi2. apply idle_personal in Hi2. cbn. by rewrite Hi2, Hi.
  - apply (delete_wp P s); [|done]. intros. by apply quota_filter.
  - apply (delete_wp P s); [|done]. intros. by apply quota_filter.
Qed.

Lemma history_quota s l w :
  quota_ok (bl_config s) (personal w) → quota_ok (bl_config s) (personal (history s l w)).
Proof.
  revert w. induction l as [|[q o] l IH]; intros w Hq; [done|]. cbn [history]. apply IH.
  apply (wp_run any (serve s q) (λ _ w', quota_ok (bl_config s) (personal w'))); [done|by apply serve_wp].
Qed.

(** However requests are served and whatever fails in between, no owner ever
    holds more blobs or more bytes than the limits allow. *)
Theorem blob_quota_holds s l w :
  quota_ok (bl_config s) (personal w) → quota_ok (bl_config s) (personal (history s l w)).
Proof. apply history_quota. Qed.

(** An upload refused for its size or the quota changes nothing, and no
    upload, failed or not, touches a blob other than the one it replaces. *)
Theorem refused_upload_destroys_nothing s u data label name o w :
  quota_ok (bl_config s) (personal w) →
  let '(r, w') := run (uploadInternal s u data label name) o w in
  let rh := if decide (name = "") then "" else refHash s name (bl_Pseudonym s u) in
  (refused r → personal w' = personal w) ∧
  (∀ x, x ∈ blobs (personal w) → ¬ named rh (bl_Pseudonym s u) x → x ∈ blobs (personal w')).
Proof.
  intros Hq. pose proof (wp_run any _ _ w o ltac:(done) (uploadInternal_wp any s u data label name w Hq)) as Hr.
  destruct (run _ _ _) as [r w']. by destruct Hr as (_ & ? & ?).
Qed.
End upload.

(** ** Upload, then download *)
Fixpoint before_colon (s : string) : string :=
  match s with "" => "" | String c r => if code c =? 58 then "" else String c (before_colon r) end.
Lemma before_colon_app a b : contains_colon a = false → before_colon (a +:+ ":" +:+ b) = a.
Proof.
  induction a as [|c a IH]; [done|]. cbn [contains_colon]. intros Hc. apply orb_false_iff in Hc as [Hc Ha].
  rewrite string_app_cons. cbn [before_colon]. by rewrite Hc, IH.
Qed.
Lemma colon_apart a b x y : contains_colon a = false → contains_colon b = false →
  a +:+ ":" +:+ x = b +:+ ":" +:+ y → a = b ∧ x = y.
Proof.
  intros Ha Hb E. assert (a = b) as ->. { rewrite <- (before_colon_app a x Ha), E. by apply before_colon_app. }
  split; [done|]. by destruct (string_app_len_inj _ _ _ _ eq_refl E) as [_ [= ?]].
Qed.

Section roundtrip.
Context {C : Type} `{CacheOps C} `{Primitives} `{AEADLaws} `{DeflateLaws}.
#[local] Notation "'W'" := (World C).
Implicit Types (w : W) (s : BlobService).

(** A sealed record: the nonce it was sealed with exists. *)
Definition sealed_as (pt key aad c : string) : Prop :=
  ∃ n, String.length n = nonceSize ∧ Encrypt pt key aad (Some n) = Some c.
Lemma sealed_opens pt key aad c aad' : sealed_as pt key aad c → Decrypt c key aad' = if decide (aad' = aad) then Some pt else None.
Proof. intros (n & Hn & He). by apply (Decrypt_Encrypt pt key aad n c). Qed.
Lemma sealed_nonempty pt key aad c : sealed_as pt key aad c → c ≠ "".
Proof. intros (n & Hn & He) ->. revert He. unfold Encrypt. destruct (negb _); [done|]. cbn. destruct n; [done|by intros]. Qed.

(** What an upload leaves in the row it returns. *)
Definition uploaded s u data label name (b : Blob) : Prop :=
  let p := bl_Pseudonym s u in
  BlobPseudonym b = p ∧ RefHash b = (if decide (name = "") then "" else refHash s name p) ∧
  contains_colon (BlobID b) = false ∧ Checksum b = "sha256:" +:+ SHA256Hex data ∧
  sealed_as (deflate data) (bl_masterKey s) (BlobID b +:+ ":" +:+ p) (BlobDataEnc b) ∧
  (label = "" ∧ LabelEnc b = "" ∨
   label ≠ "" ∧ sealed_as label (bl_masterKey s) ("label:" +:+ BlobID b +:+ ":" +:+ p) (LabelEnc b)).
(** It is the newest row, under an id no other row has. *)
Definition on_top (b : Blob) w : Prop :=
  ∃ l, blobs (personal w) = b :: l ∧ Forall (λ x, BlobID x ≠ BlobID b) l.

Lemma create_on_top b (d : PersonalDB) : (BlobCreate b d).1 = Ok tt →
  ∃ l, blobs (BlobCreate b d).2 = b :: l ∧ Forall (λ x, BlobID x ≠ BlobID b) l.
Proof.
  unfold BlobCreate. destruct (bool_decide _) eqn:E; [done|]. cbn [orb]. destruct (negb _); [done|]. intros _. eexists; split; [done|].
  apply bool_decide_eq_false in E. apply Forall_forall. intros x Hx Hi. apply E. rewrite <- Hi. by apply list_elem_of_fmap_2.
Qed.
Lemma store_blob_top P s pseudo rh est b w : wp P (store_blob s pseudo rh est b) (λ r w', r = Ok tt → on_top b w') w.
Proof.
  unfold store_blob. apply wp_bind. apply (wp_mono P _ (λ _ _, True)); [|case_decide; [done|by intros c _]].
  intros [e|e] w1 _; [|done]. apply wp_reads. intros w2 _. split; [|done]. destruct (GetQuota _ _) as [n m]. cbv zeta.
  destruct (_ <=? _); [done|]. destruct (_ <? _); [done|]. apply wp_bind.
  apply (wp_mono P _ (λ _ _, True)); [|case_decide; [done|by intros c _]]. intros _ w3 _.
  apply wp_personal. intros w4 _.
  assert (Hf : ∀ w', wp P (bind (restoreReplaced e) (λ _, Ret (Err (BlobFailed "store")))) (λ r w'', r = Ok tt → on_top b w'') w').
  { intros w'. destruct e; [intros c _; cbn; by intros|done]. }
  split_and!; [|apply Hf..]. destruct (BlobCreate b _).1 as [[]|e'] eqn:E; [|apply Hf]. cbn. intros _. by apply create_on_top.
Qed.

Lemma uploadInternal_top P s u data label name w :
  wp P (uploadInternal s u data label name) (λ r w', ∀ b, r = Ok b → uploaded s u data label name b ∧ on_top b w') w.
Proof.
  unfold uploadInternal. destruct (_ && _); [done|]. destruct (_ <? _); [done|].
  apply wp_bind, RandomUUID_wp. intros [id|e] w1 _ _ _; [|done].
  unfold blobDataAAD, blobAADSafeID. destruct (contains_colon id) eqn:Ec; [done|]. cbn [negb].
  apply wp_encrypt; [|done]. intros w2 n _ Hn. destruct (Encrypt _ _ _ _) as [enc|] eqn:Ee; [|done]. apply wp_bind.
  apply (wp_mono P _ (λ r _, ∀ le, r = Ok le → label = "" ∧ le = "" ∨
    label ≠ "" ∧ sealed_as label (bl_masterKey s) ("label:" +:+ id +:+ ":" +:+ bl_Pseudonym s u) le)).
  - intros [le|e] w3 Hle; [|done]. apply wp_time. intros w4 _. apply wp_bind. eapply wp_mono; [|apply store_blob_top].
    intros [[]|e] w5 Ht; [|done]. intros b [= <-]. split; [|by apply Ht]. unfold uploaded. cbn.
    split_and!; [done|done|done|done|by exists n|by apply Hle].
  - case_decide as Hl; [cbn; intros le [= <-]; by left|]. unfold blobLabelAAD, blobAADSafeID. rewrite Ec. cbn [negb].
    apply wp_encrypt; [|done]. intros w3 m _ Hm. cbn. destruct (Encrypt label _ _ _) as [c|] eqn:El; [|done].
    intros le [= <-]. right. split; [done|]. by exists m.
Qed.

Lemma decryptBlob_uploaded s u data label name b :
  uploaded s u data label name b →
  decryptBlob s (Some b) (bl_Pseudonym s u) =
    if maxDecompressedSize <? strlen data then Err (BlobFailed "decompress")
    else Ok (Some (data, label, "sha256:" +:+ SHA256Hex data)).
Proof.
  intros (Hp & Hr & Hc & Hk & Hd & Hl). unfold decryptBlob, blobDataAAD, blobLabelAAD, blobAADSafeID. rewrite Hc. cbn [negb].
  rewrite (sealed_opens _ _ _ _ _ Hd), decide_True, inflate_deflate by done. destruct (_ <? _); [done|]. rewrite Hk.
  destruct Hl as [[-> ->]|[Hl Hs]]; [by rewrite decide_True|].
  rewrite decide_False by (by eapply sealed_nonempty). by rewrite (sealed_opens _ _ _ _ _ Hs), decide_True.
Qed.

(** What was uploaded is what its owner downloads, by id and by name: the
    data, the label and the checksum of the data.  Data over the decompression
    limit is refused instead, and another owner finds no such blob. *)
Theorem blob_round_trip s u v data label name o w o' b w1 :
  run (uploadInternal s u data label name) o w = (Ok b, w1) → (∀ n, healthy (o' n)) →
  let back := if maxDecompressedSize <? strlen data then Err (BlobFailed "decompress")
              else Ok (Some (data, label, "sha256:" +:+ SHA256Hex data)) in
  (run (Download s u (BlobID b)) o' w1).1 = back ∧
  (name ≠ "" → refHash s name (bl_Pseudonym s u) ≠ "" → (run (DownloadNamed s u name) o' w1).1 = back) ∧
  (bl_Pseudonym s v ≠ bl_Pseudonym s u → (run (Download s v (BlobID b)) o' w1).1 = Ok None).
Proof.
  intros Hrun Ho back. pose proof (wp_run any _ _ w o ltac:(done) (uploadInternal_top any s u data label name w)) as Ht.
  rewrite Hrun in Ht. cbn [fst snd] in Ht. destruct (Ht b eq_refl) as [Hu (l & Hl & Hid)]. pose proof Hu as (Hp & Hr & _).
  assert (Hread : ∀ f k, (run (bind (call (reads f)) (λ r : res repoErr (option Blob), Ret (k r))) o' w1).1
                          = k (Ok (f (personal w1))) :> res blobErr (option (string * string * string))).
  { intros f k. cbn. destruct (Ho 0%nat) as (_ & -> & _). done. }
  unfold Download, DownloadNamed. cbv zeta. rewrite !Hread. unfold GetByIDAndPseudonym, GetByRefAndPseudonym. rewrite Hl, !filter_cons.
  split_and!.
  - rewrite decide_True by done. by apply (decryptBlob_uploaded s u data label name).
  - intros Hn Hh. rewrite decide_True; [by apply (decryptBlob_uploaded s u data label name)|].
    rewrite decide_False in Hr by done. by unfold named; rewrite Hr.
  - intros Hv. rewrite decide_False by (intros [_ ?]; congruence).
    replace (filter _ l) with (@nil Blob); [done|]. symmetry. clear -Hid.
    induction Hid as [|x l Hx Hl IH]; [done|]. rewrite filter_cons, decide_False; [done|]. tauto.
Qed.

(** A ciphertext opens only in the row it was sealed for: moved to another id
    or another owner it is refused, and so is a label in the place of the data. *)
Theorem blob_opens_only_in_place s u data label name o w b w1 b' p' :
  run (uploadInternal s u data label name) o w = (Ok b, w1) →
  contains_colon p' = false →
  (BlobDataEnc b' = BlobDataEnc b ∧ (BlobID b' ≠ BlobID b ∨ p' ≠ bl_Pseudonym s u) ∨
   BlobDataEnc b' = LabelEnc b ∧ label ≠ "") →
  decryptBlob s (Some b') p' = Err (BlobFailed "decrypt") ∨ decryptBlob s (Some b') p' = Err ErrBlobIDNamespace.
Proof.
  intros Hrun Hp' Hmoved. pose proof (wp_run any _ _ w o ltac:(done) (uploadInternal_top any s u data label name w)) as Ht.
  rewrite Hrun in Ht. cbn [fst snd] in Ht. destruct (Ht b eq_refl) as [(Hp & Hr & Hc & Hk & Hd & Hl) _].
  unfold decryptBlob, blobDataAAD, blobAADSafeID. destruct (contains_colon (BlobID b')) eqn:Ec; cbn [negb]; [by right|left].
  destruct Hmoved as [[-> Hne]|[-> Hlab]].
  - rewrite (sealed_opens _ _ _ _ _ Hd), decide_False; [done|]. intros E. apply colon_apart in E as [? ?]; [|done|done]. tauto.
  - destruct Hl as [[? _]|[_ Hs]]; [done|]. rewrite (sealed_opens _ _ _ _ _ Hs), decide_False; [done|].
    intros E. change ("label:" +:+ BlobID b +:+ ":" +:+ bl_Pseudonym s u) with ("label" +:+ ":" +:+ (BlobID b +:+ ":" +:+ bl_Pseudonym s u)) in E.
    apply colon_apart in E as [_ E]; [|done|done]. rewrite E in Hp'. clear -Hp'.
    assert (Hcc : ∀ a z, contains_colon (a +:+ ":" +:+ z) = true).
    { intros a z. induction a as [|c a IH]; [done|]. rewrite string_app_cons. cbn [contains_colon]. rewrite IH. apply orb_true_r. }
    by rewrite Hcc in Hp'.
Qed.
End roundtrip.

(** ** Examples *)
Module BlobDemo.
(** Digests are hexadecimal, and inputs short enough to keep them apart. *)
Definition prims : Primitives := {|
  sha256_hex s := hex_encode s;
  sha256_b64url s := hex_encode s;
  hmac_hex m k := hex_encode (m +:+ k);
  argon2_verify pw h p := Ok false;
  argon2_hash salt pw p := salt;
  SignToken c k := Err tt;
|}.
#[local] Existing Instance prims.
#[local] Instance deflate_ : Deflate := {| deflate s := String (chr 1) s; inflate s := match s with String _ r => Some r | "" => None end |}.
#[local] Instance deflate_laws : DeflateLaws.
Proof. by split. Qed.
Definition svc : BlobService := mkBlobService ToyEscrow.key "pepper" (mkBlobConfig 0 1000 2 100).
Definition world : World Memory.MemoryCache := Toy.world.
(** Sixteen bytes at each draw. *)
Definition oracle (n : nat) : choice :=
  mkChoice 1000 NoFault NoFault ("entropy-entropy" +:+ FormatInt (Z.of_nat (n mod 10))) false false false false.

(** Sealing as GCM does it: sixteen bytes more. *)
Definition gcm : AEAD := {| Seal := λ _ _ pt _, pt +:+ "0123456789abcdef"; Open_ := λ _ _ _ _, None |}.
Lemma gcm_length : ∀ k n pt ad, String.length (@Seal gcm k n pt ad) = (String.length pt + 16)%nat.
Proof. intros. cbn. by rewrite string_app_length. Qed.

Lemma empty_quota_ok cfg : 0 ≤ MaxBlobsPerUser cfg → 0 ≤ QuotaBytes cfg → quota_ok cfg no_personal.
Proof. intros. split; [constructor|]. intros p. by split. Qed.

Definition later (k n : nat) : choice := oracle (n + k).
Definition requests : list (blob_request * (nat → choice)) :=
  [(RUploadNamed "alice" "secret" "backup", oracle); (RUploadNamed "alice" "secret2" "backup", later 1);
   (RUpload "alice" "another" "", later 2); (RUpload "alice" "and another" "", later 3)].

Lemma blob_quota_holds_witness :
  quota_ok (bl_config svc) (personal (history (H1 := gcm) svc requests world)) ∧
  length (blobs (personal (history (H1 := gcm) svc requests world))) = 2%nat.
Proof.
  split; [|by vm_compute]. apply (blob_quota_holds (H1 := gcm) gcm_length). apply empty_quota_ok; by vm_compute.
Defined.

Lemma refused_upload_destroys_nothing_witness :
  let w := history (H1 := gcm) svc requests world in
  let '(r, w') := run (uploadInternal (H0 := gcm) svc "alice" (FormatInt (2 ^ 300)) "" "backup") oracle w in
  r = Err ErrQuotaExceeded ∧ personal w' = personal w.
Proof.
  intros w. pose proof (refused_upload_destroys_nothing (H1 := gcm) gcm_length svc "alice" (FormatInt (2 ^ 300)) "" "backup" oracle w) as Hr.
  destruct (run _ _ _) as [r w'] eqn:E.
  assert (Hq : r = Err ErrQuotaExceeded) by (apply (f_equal fst) in E; vm_compute in E; by rewrite <- E).
  split; [done|]. apply Hr; [|by left]. apply (history_quota (H1 := gcm) gcm_length). apply empty_quota_ok; by vm_compute.
Defined.

#[local] Existing Instance ToyEscrow.aead.
#[local] Existing Instance ToyEscrow.aead_laws.
Definition stored := run (UploadNamed svc "alice" "secret" "backup") oracle world.
Definition stored_blob : Blob := Eval vm_compute in match stored.1 with Ok b => b | Err _ => mkBlob "" "" "" "" "" 0 0 "" 0 end.
Lemma stored_ok : stored.1 = Ok stored_blob.
Proof. by vm_compute. Qed.
Lemma stored_eq : run (uploadInternal svc "alice" "secret" "backup" "backup") oracle world = (Ok stored_blob, stored.2).
Proof. rewrite <- stored_ok. unfold stored, UploadNamed. by destruct (run _ _ _). Qed.
Lemma apart : bl_Pseudonym svc "mallory" ≠ bl_Pseudonym svc "alice".
Proof. vm_compute. discriminate. Qed.
Lemma has_ref : refHash svc "backup" (bl_Pseudonym svc "alice") ≠ "".
Proof. vm_compute. discriminate. Qed.
Lemma blob_oracle_healthy : ∀ n, healthy (oracle n).
Proof. by intros n. Qed.

Lemma blob_round_trip_witness : ∃ b w1, stored = (Ok b, w1) ∧
  (run (Download svc "alice" (BlobID b)) oracle w1).1 = Ok (Some ("secret", "backup", "sha256:" +:+ hex_encode "secret")) ∧
  (run (DownloadNamed svc "alice" "backup") oracle w1).1 = Ok (Some ("secret", "backup", "sha256:" +:+ hex_encode "secret")) ∧
  (run (Download svc "mallory" (BlobID b)) oracle w1).1 = Ok None.
Proof.
  exists stored_blob, stored.2.
  split; [exact stored_eq|].
  destruct (blob_round_trip svc "alice" "mallory" "secret" "backup" "backup" oracle world oracle stored_blob stored.2 stored_eq blob_oracle_healthy) as (Ha & Hb & Hc).
  split_and!; [exact Ha|exact (Hb ltac:(discriminate) has_ref)|exact (Hc apart)].
Defined.

Lemma blob_opens_only_in_place_witness : ∃ b w1, stored = (Ok b, w1) ∧
  decryptBlob svc (Some (mkBlob (BlobID b) "mallory" "" "" (LabelEnc b) 0 0 "" 0)) "mallory" = Err (BlobFailed "decrypt").
Proof.
  exists stored_blob, stored.2.
  split; [exact stored_eq|].
  destruct (blob_opens_only_in_place svc "alice" "secret" "backup" "backup" oracle world stored_blob stored.2
    (mkBlob (BlobID stored_blob) "mallory" "" "" (LabelEnc stored_blob) 0 0 "" 0) "mallory" stored_eq eq_refl) as [Hd|Hd]; [by right|done|].
  exfalso. revert Hd. by vm_compute.
Defined.

Definition before : World Memory.MemoryCache :=
  history (H1 := gcm) svc [(RUploadNamed "alice" "a backup of thirty two characters" "backup", oracle); (RUpload "alice" "x" "", later 1)] world.
Definition racing : list (prog unit) :=
  [serve (H1 := gcm) svc (RUploadNamed "alice" "a new backup of fifty characters, which is too long." "backup");
   serve (H1 := gcm) svc (RDeleteNamed "alice" "backup")].
(** The quota section does not cover deletion: a delete of the named blob
    between the lookup and the count is discounted twice, and the upload that
    replaces it exceeds the owner's bytes. *)
Theorem delete_race_exceeds_quota :
  ∃ sched, let '(ps, w') := drive sched (later 2) racing before in
  quota_ok (bl_config svc) (personal before) ∧ ps = [Ret tt; Ret tt] ∧
  ¬ fits StoredBytes (QuotaBytes (bl_config svc)) (bl_Pseudonym svc "alice") (personal w').
Proof.
  exists [0; 0; 0; 0; 0; 1; 0; 0; 0]%nat. destruct (drive _ _ _ _) as [ps w'] eqn:E. split_and!.
  - apply (history_quota (H1 := gcm) gcm_length). apply empty_quota_ok; by vm_compute.
  - apply (f_equal fst) in E. vm_compute in E. done.
  - apply (f_equal (λ r, weight StoredBytes (owned (bl_Pseudonym svc "alice") (personal r.2)))) in E. cbn [snd] in E.
    unfold fits. rewrite <- E. vm_compute. by intros Hn; apply Hn.
Qed.
End BlobDemo.
