(* ===== verification/TokenService.v ===== *)
(** * TokenService: issuing access and refresh tokens

    Models internal/service/token.go and the assurance rules of
    internal/service/mfa.go: which claims an access token carries, how a
    refresh expiry is clamped to the session's absolute lifetime and to the
    inactivity window, and which assurance level a set of completed factors
    reaches.  The configuration guarded by the service's lock is the record
    [TokenService]; it is set at wiring time and by key rotation.  The request
    context contributes one value, the DPoP thumbprint, passed as an argument. *)
From S2P Require Import Prelude GoStd Cache Crypto Model TokenStore UserStore Effects.
From Stdlib Require Import Ascii.
Open Scope string_scope.
Open Scope Z_scope.
Open Scope prog_scope.

(** ** Assurance *)
Definition MethodPassword : string := "password".
Definition MethodTOTP : string := "totp".
Definition MethodEmailOTP : string := "email_otp".
Definition MethodBackupCode : string := "backup_code".
Definition MethodWebAuthn : string := "webauthn".
Definition MethodFederated : string := "federated".

Record factorSet := mkFactorSet {
  fs_password : bool; fs_totp : bool; fs_emailOTP : bool;
  fs_backupCode : bool; fs_webAuthn : bool; fs_federated : bool
}.

Definition no_factors : factorSet := mkFactorSet false false false false false false.

Definition add_factor (f : factorSet) (m : string) : factorSet :=
  if decide (m = MethodPassword) then
    mkFactorSet true (fs_totp f) (fs_emailOTP f) (fs_backupCode f) (fs_webAuthn f) (fs_federated f)
  else if decide (m = MethodTOTP) then
    mkFactorSet (fs_password f) true (fs_emailOTP f) (fs_backupCode f) (fs_webAuthn f) (fs_federated f)
  else if decide (m = MethodEmailOTP) then
    mkFactorSet (fs_password f) (fs_totp f) true (fs_backupCode f) (fs_webAuthn f) (fs_federated f)
  else if decide (m = MethodBackupCode) then
    mkFactorSet (fs_password f) (fs_totp f) (fs_emailOTP f) true (fs_webAuthn f) (fs_federated f)
  else if decide (m = MethodWebAuthn) then
    mkFactorSet (fs_password f) (fs_totp f) (fs_emailOTP f) (fs_backupCode f) true (fs_federated f)
  else if decide (m = MethodFederated) then
    mkFactorSet (fs_password f) (fs_totp f) (fs_emailOTP f) (fs_backupCode f) (fs_webAuthn f) true
  else f.

Definition factorsFrom (methods : list string) : factorSet := fold_left add_factor methods no_factors.

Definition AALForMethods (methods : list string) (userVerified : bool) : Z :=
  let f := factorsFrom methods in
  let firstFactor := fs_password f || fs_federated f in
  let possession := fs_totp f || fs_emailOTP f || fs_backupCode f || fs_webAuthn f in
  if fs_webAuthn f && userVerified then 2
  else if firstFactor && possession then 2
  else 1.

Definition ACRForAAL (aal : Z) : string := "urn:vault42:aal:" +:+ FormatInt aal.

Definition AMRForMethods (methods : list string) (userVerified : bool) : list string :=
  let f := factorsFrom methods in
  ((if fs_password f then ["pwd"] else []) ++
   (if fs_totp f || fs_emailOTP f || fs_backupCode f then ["otp"] else []) ++
   (if fs_webAuthn f then "hwk" :: (if userVerified then ["user"] else []) else []) ++
   (if (2 <=? AALForMethods methods userVerified)%Z then ["mfa"] else []))%list.

(** ** Configuration *)
Record TokenService := mkTokenService {
  kid : string;
  issuer : string;
  audience : string;
  accessTokenTTL : Z;
  refreshTokenTTL : Z;
  rememberMeTTL : Z;
  maxSessionLifetime : Z;
  inactivityTimeout : Z;
}.

Record AuthContext := mkAuthContext { AC_ACR : string; AC_AMR : list string; AC_AuthTime : option Z }.

Definition NewAuthContext (at_ : Z) (methods : list string) (userVerified : bool) : AuthContext :=
  mkAuthContext (ACRForAAL (AALForMethods methods userVerified))
    (AMRForMethods methods userVerified) (Some at_).

Definition authTimeSeconds (t : option Z) : Z :=
  match t with None => 0 | Some t => t / second end.

Record TokenPair := mkTokenPair {
  AccessToken : string;
  RefreshTokenRaw : string;
  PExpiresAt : Z;
  RefreshExpAt : Z;
  PFamilyID : string;
}.

(** ** Deadlines *)
Definition sessionDeadline (origin : option Z) (maxLifetime : Z) : option Z :=
  if maxLifetime <=? 0 then None
  else match origin with None => None | Some t => Some (t + maxLifetime) end.

Definition clampExpiry (exp : Z) (deadline : option Z) : Z :=
  match deadline with
  | Some d => if d <? exp then d else exp
  | None => exp
  end.

(** [cnf.jkt] of a request whose validated proof has this thumbprint. *)
Definition confirmation (jkt : string) : option string := if decide (jkt = "") then None else Some jkt.

(** The claims of an access token issued at [now]. *)
Definition access_claims (s : TokenService) (now : Z) (jti jkt u : string) (roles scopes : list string)
    (client fp : string) (auth : AuthContext) : VaultClaims :=
  mkClaims (issuer s) [audience s] u (Some (NewNumericDate (now + accessTokenTTL s)))
    (Some (NewNumericDate now)) (Some (NewNumericDate now)) jti roles scopes client fp
    (confirmation jkt) "Bearer" (AC_ACR auth) (AC_AMR auth) (authTimeSeconds (AC_AuthTime auth)) [] "" "".

(** The refresh expiry of a pair issued at [now]: the TTL, clamped to the
    absolute lifetime of a new family, then to the inactivity window. *)
Definition refresh_expiry (s : TokenService) (now : Z) (newFamily rememberMe : bool) : Z :=
  let ttl := if rememberMe then rememberMeTTL s else refreshTokenTTL s in
  let e := now + ttl in
  let e := if newFamily then clampExpiry e (sessionDeadline (Some now) (maxSessionLifetime s)) else e in
  clampExpiry e (sessionDeadline (Some now) (inactivityTimeout s)).

(** ** Issuance *)
Definition IssueTokenPairWithAuth (s : TokenService) (jkt u : string) (roles scopes : list string)
    (client fp familyID : string) (rememberMe : bool) (auth : AuthContext)
  : prog (res authErr TokenPair) :=
  now <- call SNow ;;
  jti <-! call SRandom ;;
  let newFamily := bool_decide (familyID = "") in
  accessToken <-! call (SSign (access_claims s now jti jkt u roles scopes client fp auth) (kid s)) ;;
  refreshToken <-! call SRandom ;;
  family <-! (if newFamily then call SRandom else Ret (Ok familyID)) ;;
  Ret (Ok (mkTokenPair accessToken refreshToken (now + accessTokenTTL s)
             (refresh_expiry s now newFamily rememberMe) family)).

Definition IssueTokenPair (s : TokenService) (jkt u : string) (roles scopes : list string)
    (client fp familyID : string) (rememberMe : bool) : prog (res authErr TokenPair) :=
  IssueTokenPairWithAuth s jkt u roles scopes client fp familyID rememberMe (mkAuthContext "" [] None).

Definition IssueRotatedPair (s : TokenService) (jkt u : string) (roles scopes : list string)
    (client fp familyID : string) (familyOrigin : option Z) : prog (res authErr TokenPair) :=
  pr <-! IssueTokenPairWithAuth s jkt u roles scopes client fp familyID false
             (mkAuthContext "" [] familyOrigin) ;;
  Ret (Ok (mkTokenPair (AccessToken pr) (RefreshTokenRaw pr) (PExpiresAt pr)
             (clampExpiry (RefreshExpAt pr) (sessionDeadline familyOrigin (maxSessionLifetime s)))
             (PFamilyID pr))).

Definition IssueChallengeToken (s : TokenService) (jkt u fp : string) (factors : list string)
  : prog (res authErr string) :=
  now <- call SNow ;;
  jti <-! call SRandom ;;
  call (SSign (mkClaims (issuer s) [audience s] u (Some (NewNumericDate (now + 5 * minute)))
                 (Some (NewNumericDate now)) (Some (NewNumericDate now)) jti [] [] "" fp
                 (confirmation jkt) "2fa_challenge" "" [] 0 factors "" "") (kid s)).

(** Key rotation replaces the key and its id together. *)
Definition UpdateSigningKey (k : string) (s : TokenService) : TokenService :=
  mkTokenService k (issuer s) (audience s) (accessTokenTTL s) (refreshTokenTTL s) (rememberMeTTL s)
    (maxSessionLifetime s) (inactivityTimeout s).

(** ** Bounds on what is issued *)
Lemma clampExpiry_le e d : clampExpiry e d ≤ e.
Proof. unfold clampExpiry. destruct d as [d|]; [|lia]. destruct (Z.ltb_spec d e); lia. Qed.

Lemma clampExpiry_deadline e d : clampExpiry e (Some d) ≤ d.
Proof. unfold clampExpiry. destruct (Z.ltb_spec d e); lia. Qed.

Lemma sessionDeadline_pos t m : 0 < m → sessionDeadline (Some t) m = Some (t + m).
Proof. intros Hm. unfold sessionDeadline. destruct (Z.leb_spec m 0); [lia|done]. Qed.

Lemma refresh_expiry_ttl s now nf rm :
  refresh_expiry s now nf rm ≤ now + (if rm then rememberMeTTL s else refreshTokenTTL s).
Proof.
  unfold refresh_expiry. cbn zeta. etrans; [apply clampExpiry_le|].
  destruct nf; [apply clampExpiry_le|lia].
Qed.

Lemma refresh_expiry_idle s now nf rm :
  0 < inactivityTimeout s → refresh_expiry s now nf rm ≤ now + inactivityTimeout s.
Proof. intros Hi. unfold refresh_expiry. rewrite (sessionDeadline_pos now _ Hi). apply clampExpiry_deadline. Qed.

Lemma refresh_expiry_life s now rm :
  0 < maxSessionLifetime s → refresh_expiry s now true rm ≤ now + maxSessionLifetime s.
Proof.
  intros Hm. unfold refresh_expiry. cbn zeta. etrans; [apply clampExpiry_le|].
  rewrite (sessionDeadline_pos now _ Hm). apply clampExpiry_deadline.
Qed.

Section issuance.
Context {C : Type} `{CacheOps C} `{Primitives}.

(** What an issued pair is, whatever the entropy source and the clock do. *)
Definition issued (s : TokenService) (jkt u : string) (roles scopes : list string)
    (client fp familyID : string) (rememberMe : bool) (auth : AuthContext)
    (w : World C) (r : res authErr TokenPair) (w' : World C) : Prop :=
  same_stores w w' ∧
  match r with
  | Err e => e = ErrEntropy ∨ e = ErrSigning
  | Ok pr =>
      ∃ now jti, clock w ≤ now ≤ clock w' ∧
        SignToken (access_claims s now jti jkt u roles scopes client fp auth) (kid s)
          = Ok (AccessToken pr) ∧
        RefreshExpAt pr = refresh_expiry s now (bool_decide (familyID = "")) rememberMe ∧
        (familyID ≠ "" → PFamilyID pr = familyID)
  end.

Lemma wp_random P (w : World C) (Q : res authErr string → World C → Prop) :
  (∀ r w', same_stores w w' → (∀ e, r = Err e → e = ErrEntropy) → Q r w') → wp P (call SRandom) Q w.
Proof.
  intros HQ c _. cbn. destruct (c_dry c); apply HQ;
    eauto 2 using same_tick, same_trans, same_drawn; by intros ? [= <-].
Qed.

Lemma issue_spec s jkt u roles scopes client fp familyID rememberMe auth (w : World C) :
  wp any (IssueTokenPairWithAuth s jkt u roles scopes client fp familyID rememberMe auth)
    (issued s jkt u roles scopes client fp familyID rememberMe auth w) w.
Proof.
  unfold IssueTokenPairWithAuth. apply wp_bind. intros c _. cbn [wp].
  destruct (same_now c w) as [-> H1]. set (now := clock (perform c SNow w).2).
  set (w1 := (perform c SNow w).2) in *. apply wp_bind, wp_random. intros [jti|e] w2 H2 He; cbn [wp].
  2: { split; [by eapply same_trans|left; eauto]. }
  apply wp_bind. intros c3 _. set (cl := access_claims _ _ _ _ _ _ _ _ _ _).
  cbn [perform fst snd wp]. pose proof (same_tick c3 w2) as H3. set (w3 := tick c3 w2) in *.
  destruct (SignToken cl (kid s)) as [tok|] eqn:Es; cbn [wp].
  2: { split; [eauto using same_trans|by right]. }
  apply wp_bind, wp_random. intros [rt|e] w4 H4 He4; cbn [wp].
  2: { split; [eauto using same_trans|left; eauto]. }
  assert (Hall : same_stores w w4) by eauto using same_trans.
  assert (Hnow : clock w ≤ now ≤ clock w4).
  { apply same_clock in H1, H2, H3, H4. subst now. lia. }
  case_bool_decide as Hf; cbn [wp bind].
  - intros c5 _. pose proof (same_random c5 w4) as H5.
    destruct (perform c5 SRandom w4) as [[f|e] w5] eqn:E5; cbn [wp fst snd] in *.
    + split; [by eapply same_trans|]. exists now, jti. apply same_clock in H5.
      rewrite bool_decide_true by done. split_and!; [lia|lia|done|done|done].
    + split; [by eapply same_trans|]. left.
      cbn in E5. destruct (c_dry c5); by simplify_eq.
  - split; [done|]. exists now, jti. rewrite bool_decide_false by done. by split_and!; try lia.
Qed.

Lemma rotated_spec s jkt u roles scopes client fp familyID origin (w : World C) :
  familyID ≠ "" →
  wp any (IssueRotatedPair s jkt u roles scopes client fp familyID origin)
    (λ r w', same_stores w w' ∧
       match r with
       | Err e => e = ErrEntropy ∨ e = ErrSigning
       | Ok pr =>
           ∃ now jti, clock w ≤ now ≤ clock w' ∧
             SignToken (access_claims s now jti jkt u roles scopes client fp
               (mkAuthContext "" [] origin)) (kid s) = Ok (AccessToken pr) ∧
             RefreshExpAt pr = clampExpiry (refresh_expiry s now false false)
               (sessionDeadline origin (maxSessionLifetime s)) ∧
             PFamilyID pr = familyID
       end) w.
Proof.
  intros Hf. unfold IssueRotatedPair. apply wp_bind.
  eapply wp_mono; [|apply issue_spec]. intros [pr|e] w' [Hs Hr]; cbn [wp]; split; try done.
  destruct Hr as (now & jti & Hnow & Hsig & Hexp & Hfam). exists now, jti.
  rewrite bool_decide_false in Hexp by done. cbn. rewrite Hexp, Hfam by done. split_and!; try done; lia.
Qed.

(** A rotation never extends a session: whatever the clock, the entropy
    source and the signer do, the refresh token it issues expires no later than
    the family's birth plus the absolute lifetime, than one inactivity window
    from an instant of the call, and than one refresh TTL; the pair stays in
    the family, and its access token dates the authentication at the family's
    birth and claims no factor it did not see. *)
Theorem rotation_never_extends s jkt u roles scopes client fp familyID origin (w : World C) o :
  familyID ≠ "" →
  match (run (IssueRotatedPair s jkt u roles scopes client fp familyID (Some origin)) o w).1 with
  | Err e => e = ErrEntropy ∨ e = ErrSigning
  | Ok pr =>
      PFamilyID pr = familyID ∧
      (0 < maxSessionLifetime s → RefreshExpAt pr ≤ origin + maxSessionLifetime s) ∧
      ∃ now jti, clock w ≤ now ∧
        (0 < inactivityTimeout s → RefreshExpAt pr ≤ now + inactivityTimeout s) ∧
        RefreshExpAt pr ≤ now + refreshTokenTTL s ∧
        SignToken (access_claims s now jti jkt u roles scopes client fp
          (mkAuthContext "" [] (Some origin))) (kid s) = Ok (AccessToken pr)
  end.
Proof.
  intros Hf. pose proof (wp_run any _ _ w o (λ _, I)
    (rotated_spec s jkt u roles scopes client fp familyID (Some origin) w Hf)) as [_ Hr].
  destruct (run _ o w).1 as [pr|e]; [|done].
  destruct Hr as (now & jti & Hnow & Hsig & Hexp & Hfam). split_and!; [done| |].
  - intros Hm. rewrite Hexp, (sessionDeadline_pos origin _ Hm). apply clampExpiry_deadline.
  - exists now, jti. split_and!; [lia| | |done]; rewrite Hexp.
    + intros Hi. etrans; [apply clampExpiry_le|by apply refresh_expiry_idle].
    + etrans; [apply clampExpiry_le|apply (refresh_expiry_ttl s now false false)].
Qed.
End issuance.

(** ** What an assurance level means *)
Lemma add_factor_or f m :
  fs_password (add_factor f m) = fs_password f || bool_decide (m = MethodPassword) ∧
  fs_federated (add_factor f m) = fs_federated f || bool_decide (m = MethodFederated) ∧
  fs_totp (add_factor f m) = fs_totp f || bool_decide (m = MethodTOTP) ∧
  fs_emailOTP (add_factor f m) = fs_emailOTP f || bool_decide (m = MethodEmailOTP) ∧
  fs_backupCode (add_factor f m) = fs_backupCode f || bool_decide (m = MethodBackupCode) ∧
  fs_webAuthn (add_factor f m) = fs_webAuthn f || bool_decide (m = MethodWebAuthn).
Proof.
  destruct f. unfold add_factor. cbn.
  repeat (case_decide; [subst; cbn; rewrite ?orb_true_r, ?orb_false_r; by split_and!|]).
  repeat (rewrite bool_decide_false by done). rewrite !orb_false_r. by split_and!.
Qed.

Lemma fold_factor (proj : factorSet → bool) (name : string) methods f :
  (∀ g m, proj (add_factor g m) = proj g || bool_decide (m = name)) →
  proj (fold_left add_factor methods f) = proj f || bool_decide (name ∈ methods).
Proof.
  intros Hp. revert f. induction methods as [|m l IH]; intros f; cbn.
  { rewrite bool_decide_false by apply not_elem_of_nil. by rewrite orb_false_r. }
  rewrite IH, Hp, <- orb_assoc. f_equal.
  destruct (bool_decide_reflect (m = name)); cbn.
  - symmetry. apply bool_decide_eq_true. subst. by left.
  - apply bool_decide_ext. rewrite elem_of_cons. split; [by right|].
    intros [?|?]; [congruence|done].
Qed.

Lemma factorsFrom_spec methods :
  let f := factorsFrom methods in
  fs_password f = bool_decide (MethodPassword ∈ methods) ∧
  fs_federated f = bool_decide (MethodFederated ∈ methods) ∧
  fs_totp f = bool_decide (MethodTOTP ∈ methods) ∧
  fs_emailOTP f = bool_decide (MethodEmailOTP ∈ methods) ∧
  fs_backupCode f = bool_decide (MethodBackupCode ∈ methods) ∧
  fs_webAuthn f = bool_decide (MethodWebAuthn ∈ methods).
Proof.
  unfold factorsFrom. cbn zeta.
  split_and!;
    match goal with |- ?p (fold_left _ _ _) = bool_decide (?n ∈ _) =>
      rewrite (fold_factor p n); [done|] end;
    intros g m; destruct (add_factor_or g m) as (?&?&?&?&?&?); done.
Qed.

(** A token claims multi-factor assurance exactly when the login presented a
    user-verified passkey, or a first factor together with something possessed;
    it never claims more than AAL2, and "mfa" appears in amr exactly then. *)
Theorem assurance_exact methods uv :
  let multi := (MethodWebAuthn ∈ methods ∧ uv = true) ∨
    ((MethodPassword ∈ methods ∨ MethodFederated ∈ methods) ∧
     (MethodTOTP ∈ methods ∨ MethodEmailOTP ∈ methods ∨ MethodBackupCode ∈ methods ∨
      MethodWebAuthn ∈ methods)) in
  (AALForMethods methods uv = 2 ↔ multi) ∧ 1 ≤ AALForMethods methods uv ≤ 2 ∧
  ("mfa" ∈ AMRForMethods methods uv ↔ multi).
Proof.
  cbn zeta. pose proof (factorsFrom_spec methods) as (Hp & Hf & Ht & He & Hb & Hw).
  assert (H2 : AALForMethods methods uv = 2 ↔ (MethodWebAuthn ∈ methods ∧ uv = true) ∨
    ((MethodPassword ∈ methods ∨ MethodFederated ∈ methods) ∧
     (MethodTOTP ∈ methods ∨ MethodEmailOTP ∈ methods ∨ MethodBackupCode ∈ methods ∨
      MethodWebAuthn ∈ methods))).
  { unfold AALForMethods. rewrite Hp, Hf, Ht, He, Hb, Hw.
    repeat case_bool_decide; destruct uv; cbn;
      (split; [intros E; first [discriminate E|tauto]|intros; first [reflexivity|exfalso; intuition congruence]]). }
  assert (Hr : 1 ≤ AALForMethods methods uv ≤ 2).
  { unfold AALForMethods. repeat case_match; lia. }
  split_and!; [done|lia|lia|]. rewrite <- H2. unfold AMRForMethods. cbn zeta.
  rewrite !elem_of_app. split.
  - intros [Hin|[Hin|[Hin|Hin]]]; repeat case_match; bool_hyps; try lia;
      repeat (first [apply elem_of_nil in Hin | apply elem_of_cons in Hin as [Hin|Hin]]); done.
  - intros E. rewrite E. do 3 right. by left.
Qed.

Lemma rotation_never_extends_witness :
  let s := mkTokenService "k1" "iss" "aud" (15 * minute) (24 * hour) (720 * hour) (10 * hour) (2 * hour) in
  match (run (H0 := Toy.prims) (IssueRotatedPair s "" "alice" [] [] "" "fp" "fam" (Some 5))
           Toy.oracle Toy.world).1 with
  | Err e => e = ErrEntropy ∨ e = ErrSigning
  | Ok pr =>
      PFamilyID pr = "fam" ∧
      (0 < maxSessionLifetime s → RefreshExpAt pr ≤ 5 + maxSessionLifetime s) ∧
      ∃ now jti, clock Toy.world ≤ now ∧
        (0 < inactivityTimeout s → RefreshExpAt pr ≤ now + inactivityTimeout s) ∧
        RefreshExpAt pr ≤ now + refreshTokenTTL s ∧
        SignToken (Primitives := Toy.prims) (access_claims s now jti "" "alice" [] [] "" "fp"
          (mkAuthContext "" [] (Some 5))) (kid s) = Ok (AccessToken pr)
  end.
Proof. cbn zeta. by apply (rotation_never_extends (H0 := Toy.prims)). Defined.
