(* ===== verification/Lockout.v ===== *)
(** * Lockout: brute-force protection of the login path

    Models the lockout half of internal/service/auth.go: the counter keys and
    the generation that retires them, the account and address locks, their
    fallback to the durable count, and the progressive delay.  Each function is
    a program over the shared cache and database ([Effects]); a nil collaborator
    is a false flag of the configuration record. *)
From S2P Require Import Prelude GoStd Cache Crypto Model TokenStore UserStore Effects TokenService.
From Stdlib Require Import Ascii.
Open Scope string_scope.
Open Scope Z_scope.
Open Scope prog_scope.

(** ** The service's configuration *)
Record AuthService := mkAuthService {
  tokenSvc : TokenService;
  has_cache : bool;
  has_rateLimits : bool;
  has_metrics : bool;
  has_emailSender : bool;
  has_mfaSvc : bool;
  mfaRequired : bool;
  has_roleCatalog : bool;
  catalogTTL : Z;
  dates_families : bool;        (** the token store is a [familyOriginReader] *)
  traps : list string;          (** the honeypot's planted addresses *)
  maxSessionsPerUser : Z;
  strictSessionLimit : bool;
  pepper : string;
  hmacSecret : string;
  dummyHash : string;           (** [vaultcrypto.DummyHash] *)
}.

Definition lockoutThreshold : Z := 5.
Definition distributedLockoutThreshold : Z := 50.
Definition ipLockoutThreshold : Z := 20.
Definition lockoutDuration : Z := 15 * minute.
Definition lockoutGenerationTTL : Z := 2 * lockoutDuration.
Definition loginThrottleBase : Z := 100 * millisecond.
Definition loginThrottleMax : Z := 2 * second.

(** [s.auditLog.Log] and [s.metrics.Record...]: best effort, no result. *)
Definition log_event (kind u client ip reason : string) : prog unit :=
  call (SEmit (Audit kind u client ip reason)).
Definition metric (s : AuthService) (name : string) : prog unit :=
  if has_metrics s then call (SEmit (Metric name)) else Ret tt.

(** ** Keys *)
Definition accountLockoutKey (userID : string) : string := "lockout:" +:+ userID.

Definition sourceLockoutKey (userID ip : string) (generation : Z) : string :=
  if generation =? 0 then "lockout:" +:+ userID +:+ "|" +:+ ip
  else "lockout:" +:+ userID +:+ "|g" +:+ FormatInt generation +:+ "|" +:+ ip.

Definition lockoutGenerationKey (userID : string) : string := "lockout_gen:" +:+ userID.

Definition identityThrottleKey `{Primitives} (s : AuthService) (email : string) : string :=
  "auththrottle:" +:+ SHA256Hex (pepper s +:+ "|auththrottle|" +:+ email).

(** ** Reading the counters *)
Definition lockedByStoredCount (userID : string) : prog bool :=
  r <- call (SGetByID userID) ;;
  Ret (match r with
       | Ok (Some user) => lockoutThreshold <=? FailedLoginCount user
       | _ => false
       end).

(** A miss is a successful read of zero; a parse failure leaves zero. *)
Definition cachedCount (key : string) : prog (Z * bool) :=
  r <- call (SGet key) ;;
  Ret (match r with
       | Err ErrNotFound => (0, true)
       | Err _ => (0, false)
       | Ok val => if decide (val = "") then (0, true) else (default 0 (Sscanf_d val), true)
       end).

Definition lockoutGeneration (userID : string) : prog (Z * bool) :=
  cachedCount (lockoutGenerationKey userID).

Definition lockoutCountersUnwritable : prog bool :=
  at_ <- call SLatchLoad ;;
  if at_ =? 0 then Ret false
  else now <- call SNow ;; Ret (now - at_ <? lockoutDuration).

Definition isAccountLocked (s : AuthService) (userID ip : string) : prog bool :=
  if negb (has_cache s) then lockedByStoredCount userID
  else
    unwritable <- lockoutCountersUnwritable ;;
    g <- lockoutGeneration userID ;;
    let '(generation, ok) := g in
    if negb ok then lockedByStoredCount userID
    else
      p <- cachedCount (sourceLockoutKey userID ip generation) ;;
      let '(perSource, ok) := p in
      if negb ok || ((perSource =? 0) && unwritable) then lockedByStoredCount userID
      else if lockoutThreshold <=? perSource then Ret true
      else
        a <- cachedCount (accountLockoutKey userID) ;;
        let '(account, ok) := a in
        if negb ok || ((account =? 0) && unwritable) then lockedByStoredCount userID
        else Ret (distributedLockoutThreshold <=? account).

(** ** Advancing and clearing them *)
Definition noteLockoutCounterRefused : prog unit :=
  now <- call SNow ;; call (SLatchStore now).

Definition recordFailedAttempt (s : AuthService) (userID ip : string) : prog unit :=
  if negb (has_cache s) then Ret tt
  else
    g <- lockoutGeneration userID ;;
    let '(generation, ok) := g in
    (if negb ok then noteLockoutCounterRefused
     else
       r <- call (SIncrement (sourceLockoutKey userID ip generation) lockoutDuration) ;;
       match r with Ok _ => Ret tt | Err _ => noteLockoutCounterRefused end) ;;;
    r <- call (SIncrement (accountLockoutKey userID) lockoutDuration) ;;
    match r with Ok _ => Ret tt | Err _ => noteLockoutCounterRefused end.

Definition clearLockout (s : AuthService) (userID ip : string) : prog unit :=
  if negb (has_cache s) then Ret tt
  else
    g <- lockoutGeneration userID ;;
    let '(generation, ok) := g in
    if negb ok then Ret tt
    else call (SDelete (sourceLockoutKey userID ip generation)) ;;; Ret tt.

(** A completed password reset: delete the account counter, advance the
    generation. *)
Definition ClearAccountLockout (hasCache : bool) (userID : string) : prog (res authErr unit) :=
  if negb hasCache then Ret (Ok tt)
  else
    r <- call (SDelete (accountLockoutKey userID)) ;;
    match r with
    | Err e => Ret (Err (ErrCache e))
    | Ok _ =>
        r <- call (SIncrement (lockoutGenerationKey userID) lockoutGenerationTTL) ;;
        match r with Err e => Ret (Err (ErrCache e)) | Ok _ => Ret (Ok tt) end
    end.

(** ** The progressive delay *)
Fixpoint throttle_loop (n : nat) (d : Z) : Z :=
  match n with
  | O => d
  | S n' => let d' := wrap64 (d * 2) in
            if loginThrottleMax <=? d' then loginThrottleMax else throttle_loop n' d'
  end.

Definition loginThrottleDelay (failures : Z) : Z :=
  if failures <=? lockoutThreshold then 0
  else throttle_loop (Z.to_nat (failures - (lockoutThreshold + 1))) loginThrottleBase.

Definition throttleLogin `{Primitives} (s : AuthService) (email : string) : prog unit :=
  if negb (has_cache s) then Ret tt
  else
    r <- cachedCount (identityThrottleKey s email) ;;
    let '(n, ok) := r in
    if negb ok then Ret tt
    else let d := loginThrottleDelay n in
         if d <=? 0 then Ret tt else call (SSleep d).

Definition recordIdentityFailure `{Primitives} (s : AuthService) (email : string) : prog unit :=
  if negb (has_cache s) then Ret tt
  else call (SIncrement (identityThrottleKey s email) lockoutDuration) ;;; Ret tt.

Definition clearIdentityFailures `{Primitives} (s : AuthService) (email : string) : prog unit :=
  if negb (has_cache s) then Ret tt
  else call (SDelete (identityThrottleKey s email)) ;;; Ret tt.

(** ** Second factors and addresses *)
Definition MFAVerifyLocked (s : AuthService) (userID client_ip : string) : prog bool :=
  isAccountLocked s userID client_ip.

Definition RecordMFAFailure (s : AuthService) (userID ip : string) : prog unit :=
  recordFailedAttempt s userID ip ;;;
  log_event "login_failure" userID "" ip "mfa_failed".

(** [time.Now().Truncate(lockoutDuration)]: multiples counted from the zero time. *)
Definition truncate_window (now : Z) : Z := now - (now - zero_time) mod lockoutDuration.

Definition isIPLocked (s : AuthService) (ip : string) : prog bool :=
  if decide (ip = "") then Ret false
  else if negb (has_cache s) then
    if has_rateLimits s then
      now <- call SNow ;;
      r <- call (SRateGet ("lockout_ip:" +:+ ip) (truncate_window now)) ;;
      Ret (match r with Ok count => ipLockoutThreshold <=? count | Err _ => false end)
    else Ret false
  else
    r <- call (SGet ("lockout_ip:" +:+ ip)) ;;
    Ret (match r with
         | Ok val => if decide (val = "") then false
                     else ipLockoutThreshold <=? default 0 (Sscanf_d val)
         | Err _ => false
         end).

Definition recordFailedIP (s : AuthService) (ip : string) : prog unit :=
  if decide (ip = "") then Ret tt
  else if negb (has_cache s) then
    if has_rateLimits s then
      now <- call SNow ;;
      call (SRateIncrement ("lockout_ip:" +:+ ip) (truncate_window now)) ;;; Ret tt
    else Ret tt
  else call (SIncrement ("lockout_ip:" +:+ ip) lockoutDuration) ;;; Ret tt.

(** Everything a rejected login does to the stores, and the one-per-window mail. *)
Definition recordLoginFailure (s : AuthService) (user : User) (ip app reason : string) : prog unit :=
  call (SIncrementFailedLogin (UID user)) ;;;
  recordFailedAttempt s (UID user) ip ;;;
  recordFailedIP s ip ;;;
  metric s "login_failed" ;;;
  log_event "login_failure" (UID user) "" ip reason ;;;
  locked <- isAccountLocked s (UID user) ip ;;
  if locked && has_cache s && has_emailSender s then
    r <- call (SSetIfNotExists ("lock_notified:" +:+ UID user) "1" lockoutDuration) ;;
    match r with
    | Ok true => call (SEmit (Deferred (JobMail "account_locked" (Email user))))
    | _ => Ret tt
    end
  else Ret tt.
