(* ===== verification/LockoutFacts.v ===== *)
(** * LockoutFacts: what the lockout guarantees

    The delay has a closed form; a source that fails five times inside a window
    is locked out for the rest of it unless a counter write was refused, in
    which case the durable count decides; one login's success erases only its
    own source's counter; a completed reset retires every counter standing
    against the account. *)
From S2P Require Import Prelude GoStd Cache CacheFacts Counter Crypto Model TokenStore UserStore Effects TokenService Lockout.
From Stdlib Require Import Ascii.
Open Scope string_scope.
Open Scope Z_scope.
Open Scope prog_scope.

(** ** The delay *)
Lemma throttle_loop_closed n d :
  0 < d < loginThrottleMax →
  throttle_loop n d = Z.min loginThrottleMax (d * 2 ^ Z.of_nat n).
Proof.
  revert d. induction n as [|n IH]; intros d Hd.
  { cbn [throttle_loop]. change (2 ^ Z.of_nat 0) with 1. lia. }
  cbn [throttle_loop]. cbn zeta.
  assert (Hmax : loginThrottleMax = 2000000000) by reflexivity.
  rewrite wrap64_id by (unfold in_int64, int64_min, int64_max; lia).
  rewrite Nat2Z.inj_succ, Z.pow_succ_r by lia.
  assert (1 ≤ 2 ^ Z.of_nat n) by (pose proof (Z.pow_pos_nonneg 2 (Z.of_nat n)); lia).
  destruct (Z.leb_spec loginThrottleMax (d * 2)); [nia|].
  rewrite IH by lia. f_equal. ring.
Qed.

(** The progressive delay is, for every failure count, exactly zero up to
    five failures and then 100ms doubled per further failure, capped at two
    seconds: no count makes the 64-bit multiplication overflow into a shorter
    or negative sleep. *)
Theorem throttle_closed_form n :
  loginThrottleDelay n =
    (if n <=? 5 then 0 else Z.min (2 * second) (100 * millisecond * 2 ^ (n - 6))) ∧
  0 ≤ loginThrottleDelay n ≤ 2 * second.
Proof.
  assert (E : loginThrottleDelay n =
    (if n <=? 5 then 0 else Z.min (2 * second) (100 * millisecond * 2 ^ (n - 6)))).
  { unfold loginThrottleDelay, lockoutThreshold. destruct (Z.leb_spec n 5); [done|].
    rewrite throttle_loop_closed by done. rewrite Z2Nat.id by lia. done. }
  split; [done|]. rewrite E. destruct (Z.leb_spec n 5); [done|].
  pose proof (Z.pow_pos_nonneg 2 (n - 6)). unfold second, millisecond in *. lia.
Qed.

(** ** Keys *)
(** No field separator inside. *)
Fixpoint no_bar (s : string) : Prop :=
  match s with "" => True | String c s' => c ≠ "|"%char ∧ no_bar s' end.

Lemma bar_split a b c d :
  no_bar a → no_bar c → a +:+ "|" +:+ b = c +:+ "|" +:+ d → a = c ∧ b = d.
Proof.
  revert c. induction a as [|x a IH]; intros [|y c] Ha Hc E;
    rewrite ?string_app_nil_l, ?string_app_cons in E.
  - injection E. done.
  - injection E as <- _. destruct Hc. done.
  - injection E as -> _. destruct Ha. done.
  - injection E as -> E. destruct Ha as [? Ha], Hc as [? Hc].
    destruct (IH c Ha Hc E) as [-> ->]. done.
Qed.

Lemma bar_none a b c : no_bar a → a ≠ c +:+ "|" +:+ b.
Proof.
  revert c. induction a as [|x a IH]; intros [|y c] Ha E;
    rewrite ?string_app_nil_l, ?string_app_cons in E; try discriminate E.
  - injection E as -> _. destruct Ha. done.
  - injection E as -> E. destruct Ha as [_ Ha]. by apply (IH c Ha).
Qed.

Lemma digits_no_bar s : uint_digits s → no_bar s.
Proof.
  induction s as [|c s IH]; [done|]. intros [Hc Hs]. split; [|by apply IH].
  intros ->. by vm_compute in Hc.
Qed.

Lemma FormatInt_no_bar n : 0 ≤ n → no_bar (FormatInt n).
Proof.
  intros Hn. unfold FormatInt. destruct (Z.ltb_spec n 0); [lia|].
  apply digits_no_bar, FormatUint_digits.
Qed.

Lemma string_app_inj_l a b c : a +:+ b = a +:+ c → b = c.
Proof.
  induction a as [|x a IH]; [by rewrite !string_app_nil_l|].
  rewrite !string_app_cons. injection 1. done.
Qed.

Lemma source_key_shape u ip g :
  sourceLockoutKey u ip g = "lockout:" +:+ u +:+ "|" +:+
    (if g =? 0 then ip else "g" +:+ FormatInt g +:+ "|" +:+ ip).
Proof. unfold sourceLockoutKey. by destruct (g =? 0). Qed.

Lemma no_bar_app a b : no_bar a → no_bar b → no_bar (a +:+ b).
Proof.
  induction a as [|x a IH]; [done|]. rewrite string_app_cons. intros [? ?] ?. split; auto.
Qed.

(** Different sources and generations of one account never share a counter. *)
Lemma sourceLockoutKey_inj u ip ip' g g' :
  no_bar ip → no_bar ip' → 0 ≤ g ≤ int64_max → 0 ≤ g' ≤ int64_max →
  sourceLockoutKey u ip g = sourceLockoutKey u ip' g' → ip = ip' ∧ g = g'.
Proof.
  intros Hi Hi' Hg Hg' E. rewrite !source_key_shape in E.
  do 3 apply string_app_inj_l in E.
  assert (Hn : ∀ x, 0 ≤ x → no_bar ("g" +:+ FormatInt x)).
  { intros x Hx. apply no_bar_app; [by repeat split|by apply FormatInt_no_bar]. }
  destruct (Z.eqb_spec g 0) as [->|Hne], (Z.eqb_spec g' 0) as [->|Hne'].
  - done.
  - rewrite <- string_app_assoc in E. by apply bar_none in E.
  - rewrite <- string_app_assoc in E. symmetry in E. by apply bar_none in E.
  - rewrite <- !string_app_assoc in E. rewrite !(string_app_assoc _ "|") in E.
    apply bar_split in E as [E ->]; [|by apply Hn; lia..].
    apply string_app_inj_l in E. split; [done|]. apply FormatInt_inj; [lia..|done].
Qed.

Lemma account_source_ne u ip g : accountLockoutKey u ≠ sourceLockoutKey u ip g.
Proof.
  rewrite source_key_shape. unfold accountLockoutKey. intros E. apply string_app_inj_l in E.
  assert (Hl : ∀ a b : string, a = a +:+ "|" +:+ b → False).
  { induction a as [|x a IH]; intros b; rewrite ?string_app_nil_l, ?string_app_cons; [done|].
    injection 1. apply IH. }
  by apply Hl in E.
Qed.

Lemma generation_source_ne u u' ip g : lockoutGenerationKey u ≠ sourceLockoutKey u' ip g.
Proof. rewrite source_key_shape. unfold lockoutGenerationKey. done. Qed.
Lemma generation_account_ne u u' : lockoutGenerationKey u ≠ accountLockoutKey u'.
Proof. unfold lockoutGenerationKey, accountLockoutKey. done. Qed.

(** ** Reading counters through the cache contract *)
Section counters.
Context {C : Type} `{CounterCache C} `{Primitives}.
Implicit Types w : World C.

(** Nothing moved but the clock and what reading leaves behind. *)
Definition settled w w' : Prop :=
  db w' = db w ∧ refusedAt w' = refusedAt w ∧ clock w ≤ clock w' ∧
  ∀ k, slot (cch w') k = slot (cch w) k.

Lemma settled_refl w : settled w w.
Proof. by split_and!. Qed.
Lemma settled_trans w1 w2 w3 : settled w1 w2 → settled w2 w3 → settled w1 w3.
Proof.
  intros (?&?&?&Hs) (?&?&?&Hs'). split_and!; [congruence|congruence|lia|].
  intros k. by rewrite Hs', Hs.
Qed.
Lemma settled_tick c w : settled w (tick c w).
Proof. split_and!; [done|done|cbn; lia|done]. Qed.

(** What a counter in this state reads at [now]; [None] for a foreign value. *)
Definition reading (now : Z) (st : slot_state) : option Z :=
  match st with
  | SEmpty => Some 0
  | SCounter n e => if now <? e then Some n else if e <? now then Some 0 else None
  | SOther => None
  end.

(** The two answers a read can give: the counter, or no answer at all. *)
Lemma wp_cachedCount P w k (Q : Z * bool → World C → Prop) :
  (∀ w' r, settled w w' →
     (∀ n, reading (clock w') (slot (cch w) k) = Some n → 0 ≤ n ≤ int64_max →
       r = (n, true) ∨ (r = (0, false) ∧ ∃ c, P c ∧ c_cache c ≠ NoFault)) →
     Q r w') →
  wp P (cachedCount k) Q w.
Proof.
  intros HQ c Hc. cbn [call bind wp fst snd]. unfold perform, on_cache.
  destruct (Get (clock (tick c w)) k (cch (tick c w))) as [r c'] eqn:Eg.
  assert (Hset : settled w (set_cch c' (tick c w))).
  { eapply settled_trans; [apply (settled_tick c)|]. split_and!; [done|done|done|].
    intros k'. by eapply slot_get_frame. }
  destruct (c_cache c) eqn:Ef; cbn [faulty wp fst snd].
  2: { apply HQ; [apply settled_tick|]. intros n _ _. right. split; [done|].
       exists c. split; [done|]. congruence. }
  2: { apply HQ; [done|]. intros n _ _. right. split; [done|]. exists c. split; [done|congruence]. }
  apply HQ; [done|]. intros n Hn Hr. left. cbn in Hn, Eg.
  destruct (slot (cch w) k) as [|m e|] eqn:Es; cbn in Hn; [| |done].
  - rewrite (slot_get_empty _ _ _ Es) in Eg. by simplify_eq.
  - destruct (Z.ltb_spec (clock w + Z.max 0 (c_tick c)) e), (Z.ltb_spec e (clock w + Z.max 0 (c_tick c))); simplify_eq; try lia.
    + rewrite (slot_get_counter _ _ _ _ _ Es) in Eg by done. simplify_eq.
      rewrite decide_False by apply FormatInt_nonempty. by rewrite Sscanf_FormatInt.
    + rewrite (slot_get_expired _ _ _ _ _ Es) in Eg by done. by simplify_eq.
Qed.

(** Reads while every call succeeds. *)
Lemma wp_cachedCount_healthy w k (Q : Z * bool → World C → Prop) :
  (∀ w' r, settled w w' →
     (∀ n, reading (clock w') (slot (cch w) k) = Some n → 0 ≤ n ≤ int64_max → r = (n, true)) →
     Q r w') →
  wp healthy (cachedCount k) Q w.
Proof.
  intros HQ. apply wp_cachedCount. intros w' r Hs Hr. apply HQ; [done|].
  intros n Hn Hb. destruct (Hr n Hn Hb) as [->|(_ & c & [Hc _] & Hc')]; [done|congruence].
Qed.

Lemma reading_range now st n :
  reading now st = Some n → (∀ m e, st = SCounter m e → 0 ≤ m ≤ int64_max) → 0 ≤ n ≤ int64_max.
Proof.
  unfold reading, int64_max. intros Hr Hb. destruct st as [|m e|]; [simplify_eq; lia| |done].
  specialize (Hb m e eq_refl). unfold int64_max in Hb. repeat case_match; simplify_eq; lia.
Qed.

Lemma wp_unwritable P w (Q : bool → World C → Prop) :
  (∀ w' b, settled w w' → (b = true → refusedAt w ≠ 0 ∧ clock w - refusedAt w < lockoutDuration) →
     (clock w' - refusedAt w < lockoutDuration → refusedAt w ≠ 0 → b = true) → Q b w') →
  wp P lockoutCountersUnwritable Q w.
Proof.
  intros HQ. unfold lockoutCountersUnwritable. apply wp_bind. intros c _. cbn [perform fst snd wp].
  destruct (Z.eqb_spec (refusedAt (tick c w)) 0) as [E|E]; cbn [wp call bind].
  - apply HQ; [apply settled_tick|done|]. cbn in E. congruence.
  - intros c' _. cbn [perform fst snd]. apply HQ.
    + eapply settled_trans; [apply (settled_tick c)|apply settled_tick].
    + intros Hb%Z.ltb_lt. cbn in *. split; [done|]. lia.
    + intros Hl _. apply Z.ltb_lt. done.
Qed.

Lemma wp_stored P w u (Q : bool → World C → Prop) :
  (∀ w' b, settled w w' →
     (b = true → ∃ x, users (db w) !! u = Some x ∧ lockoutThreshold ≤ FailedLoginCount x) →
     ((∀ c, P c → c_db c = NoFault) → ∀ x, users (db w) !! u = Some x →
        lockoutThreshold ≤ FailedLoginCount x → b = true) → Q b w') →
  wp P (lockedByStoredCount u) Q w.
Proof.
  intros HQ c Hc. cbn [call bind wp fst snd perform]. unfold on_db.
  destruct (c_db c) eqn:Ef; cbn [faulty wp fst snd].
  2-3: apply HQ; [first [apply settled_tick | split_and!; [done|done|cbn; lia|done]]|done|].
  2-3: intros Hn; specialize (Hn c Hc); congruence.
  apply HQ; [split_and!; [done|done|cbn; lia|done]| |]; cbn; unfold GetByID.
  - destruct (users (db w) !! u) as [x|]; [|done]. intros Hb%Z.leb_le. by exists x.
  - intros _ x -> Hx. by apply Z.leb_le.
Qed.
End counters.

(** ** The account lock *)
Section lock.
Context {C : Type} `{CounterCache C} `{Primitives}.
Implicit Types w : World C.
Context (s : AuthService) (u ip : string) (Hcache : has_cache s = true).

(** The generation reads [g] from now until [T]. *)
Definition generation_is (g T : Z) (w : World C) : Prop :=
  0 ≤ g < int64_max ∧
  ∀ t, clock w ≤ t ≤ T → reading t (slot (cch w) (lockoutGenerationKey u)) = Some g.

Lemma generation_settled g T w w' : settled w w' → generation_is g T w → generation_is g T w'.
Proof.
  intros (_ & _ & Hc & Hs) [Hg Hr]. split; [done|]. intros t Ht. rewrite Hs. apply Hr. lia.
Qed.

(** Once time has run past [T] nothing more is claimed. *)
Lemma wp_past P {A} (p : prog A) (T : Z) (Q : A → World C → Prop) w :
  T < clock w → wp P p (λ a w', clock w' ≤ T → Q a w') w.
Proof. intros Hlt. eapply wp_mono; [|apply (wp_clock P p w)]. cbn. intros. lia. Qed.

Lemma wp_generation g T w (Q : Z * bool → World C → Prop) :
  generation_is g T w →
  (∀ w', settled w w' → clock w' ≤ T → Q (g, true) w') →
  (∀ w' r, T < clock w' → Q r w') →
  wp healthy (lockoutGeneration u) Q w.
Proof.
  intros [Hg Hr] HQ Hpast. apply wp_cachedCount_healthy. intros w' r Hset Hread.
  destruct (Z.lt_ge_cases T (clock w')); [by apply Hpast|].
  rewrite (Hread g); [by apply HQ| |lia]. apply Hr. destruct Hset as (_ & _ & ? & _). lia.
Qed.

Lemma isAccountLocked_source g n e T w :
  generation_is g T w → slot (cch w) (sourceLockoutKey u ip g) = SCounter n e →
  lockoutThreshold ≤ n ≤ int64_max → T < e →
  wp healthy (isAccountLocked s u ip) (λ b w', clock w' ≤ T → b = true) w.
Proof.
  intros Hgen Hslot Hn He. unfold isAccountLocked. rewrite Hcache. cbn [negb].
  apply wp_bind, wp_unwritable. intros w1 unw Hs1 _ _.
  apply wp_bind, (wp_generation g T); [by eapply generation_settled| |].
  2: { intros w2 [g' []] Hlt; cbn [negb]; by apply wp_past. }
  intros w2 Hs2 HT2. cbn [negb].
  apply wp_bind, wp_cachedCount_healthy. intros w3 [p ok] Hs3 Hr.
  assert (Hs : slot (cch w2) (sourceLockoutKey u ip g) = SCounter n e).
  { destruct Hs1 as (_&_&_&E1), Hs2 as (_&_&_&E2). by rewrite E2, E1. }
  destruct (Z.lt_ge_cases T (clock w3)); [by apply wp_past|].
  assert (Hread : reading (clock w3) (slot (cch w2) (sourceLockoutKey u ip g)) = Some n).
  { rewrite Hs. cbn. destruct (Z.ltb_spec (clock w3) e); [done|lia]. }
  assert (Heq : (p, ok) = (n, true)) by (apply Hr; [done|unfold lockoutThreshold in *; lia]).
  simplify_eq. cbn [negb orb].
  destruct (Z.eqb_spec n 0); [unfold lockoutThreshold in *; lia|]. cbn [andb].
  destruct (Z.leb_spec lockoutThreshold n); [done|lia].
Qed.

(** Increments under the contract: another step, a fresh window, or a refusal. *)
Definition advanced (k : string) w w' : Prop :=
  (∀ n e, slot (cch w) k = SCounter n e → clock w' < e → 0 ≤ n < int64_max →
     slot (cch w') k = SCounter (n + 1) e) ∧
  (startable (clock w) (slot (cch w) k) →
     ∃ e, slot (cch w') k = SCounter 1 e ∧ clock w + lockoutDuration ≤ e).

Lemma startable_after t t' st : t ≤ t' → startable t st → startable t' st.
Proof. destruct st; cbn; [done|lia|done]. Qed.

(** One counter of [recordFailedAttempt]: advanced, or the refusal is latched. *)
Definition count_on (k : string) : prog unit :=
  r <- call (SIncrement k lockoutDuration) ;;
  match r with Ok _ => Ret tt | Err _ => noteLockoutCounterRefused end.

Lemma wp_count_on k w :
  wp healthy (count_on k)
    (λ _ w', db w' = db w ∧ clock w ≤ clock w' ∧
       (∀ k', k' ≠ k → slot (cch w') k' = slot (cch w) k') ∧
       ((refusedAt w' = refusedAt w ∧ advanced k w w') ∨ clock w ≤ refusedAt w')) w.
Proof.
  unfold count_on. apply wp_bind. intros c [Hc _]. cbn [perform call wp fst snd].
  unfold on_cache. rewrite Hc. cbn [faulty]. set (w1 := tick c w).
  assert (Hc1 : clock w ≤ clock w1) by (cbn; lia).
  destruct (Increment (clock w1) k lockoutDuration (cch w1)) as [r c'] eqn:Ei. cbn [fst snd].
  assert (Hframe : ∀ k', k' ≠ k → slot c' k' = slot (cch w) k').
  { intros k' Hk. change (cch w) with (cch w1). by eapply slot_incr_frame. }
  destruct r as [n'|er]; cbn [wp].
  - split_and!; [done|done|done|]. left. split; [done|]. split.
    + intros n e Es Hlt Hb. cbn in Hlt.
      destruct (slot_incr_live (cch w1) k n e (clock w1) lockoutDuration) as (c2 & E2 & Hs);
        [done|done|lia|]. rewrite E2 in Ei. by simplify_eq.
    + intros Hst. destruct (slot_incr_start (cch w1) k (clock w1) lockoutDuration)
        as [(c2 & E2 & Hs)|(c2 & er & E2 & _)]; [by eapply startable_after|done| |congruence].
      rewrite E2 in Ei. simplify_eq. exists (clock w1 + lockoutDuration). split; [done|lia].
  - unfold noteLockoutCounterRefused. cbn [call bind wp]. intros c2 _. cbn [perform fst snd wp].
    intros c3 _. cbn [perform fst snd wp]. split_and!; [done|cbn; lia|done|].
    right. cbn. lia.
Qed.

(** One failure: the source counter and the account counter advance, unless a
    refusal was latched; nothing else in the cache changes. *)
Lemma wp_record g T w :
  generation_is g T w →
  wp healthy (recordFailedAttempt s u ip)
    (λ _ w', clock w' ≤ T →
       db w' = db w ∧ clock w ≤ clock w' ∧
       (∀ k, k ≠ sourceLockoutKey u ip g → k ≠ accountLockoutKey u →
          slot (cch w') k = slot (cch w) k) ∧
       ((refusedAt w' = refusedAt w ∧ advanced (sourceLockoutKey u ip g) w w' ∧
         advanced (accountLockoutKey u) w w') ∨ clock w ≤ refusedAt w')) w.
Proof.
  intros Hgen. unfold recordFailedAttempt. rewrite Hcache. cbn [negb].
  apply wp_bind, (wp_generation g T); [done| |].
  2: { intros w2 [g' ok] Hlt. by apply wp_past. }
  intros w1 (Hd1 & Hr1 & Hc1 & Hs1) HT1. cbn [negb].
  apply wp_bind. eapply wp_mono; [|apply wp_count_on]. intros [] w2 (Hd2 & Hc2 & Hf2 & Hr2).
  eapply wp_mono; [|apply wp_count_on]. intros [] w3 (Hd3 & Hc3 & Hf3 & Hr3) HT3.
  split_and!; [congruence|lia| |].
  - intros k Hk1 Hk2. by rewrite Hf3, Hf2, Hs1.
  - destruct Hr2 as [[Hr2 Ha2]|?]; [|destruct Hr3 as [[Hr3 _]|?]; right; lia].
    destruct Hr3 as [[Hr3 Ha3]|?]; [|right; lia]. left. split; [congruence|].
    pose proof (account_source_ne u ip g) as Hne. unfold advanced. rewrite <- !Hs1.
    destruct Ha2 as [Ha2 Hb2], Ha3 as [Ha3 Hb3]. rewrite (Hf2 _ Hne) in Ha3, Hb3.
    split; split.
    + intros n e E Hlt Hn. rewrite (Hf3 _ (not_eq_sym Hne)). apply Ha2; [done|lia|done].
    + intros Hst. rewrite (Hf3 _ (not_eq_sym Hne)).
      destruct Hb2 as (e & ? & ?); [by eapply startable_after|]. exists e. split; [done|lia].
    + intros n e E Hlt Hn. by apply Ha3.
    + intros Hst. destruct Hb3 as (e & ? & ?); [by eapply startable_after, Hst; lia|].
      exists e. split; [done|lia].
Qed.
(** What the rest of the system may do between two failures of this source:
    anything that leaves this account's generation and this source's counter
    alone (sweeping it after it expired is allowed), time passing, other
    requests latching refusals. *)
Definition elsewhere (g : Z) w w' : Prop :=
  clock w ≤ clock w' ∧
  env_ok (sourceLockoutKey u ip g) (clock w') (cch w) (cch w') ∧
  slot (cch w') (lockoutGenerationKey u) = slot (cch w) (lockoutGenerationKey u) ∧
  (refusedAt w' = refusedAt w ∨ clock w ≤ refusedAt w').

(** [n] recorded failures of this source, with other activity in between. *)
Inductive failures (g : Z) : nat → World C → World C → Prop :=
| fl_none w : failures g 0 w w
| fl_other n w w1 w2 : elsewhere g w w1 → failures g n w1 w2 → failures g n w w2
| fl_fail n w o w2 :
    (∀ i, healthy (o i)) →
    failures g n (run (recordFailedAttempt s u ip) o w).2 w2 → failures g (S n) w w2.

(** [k] failures counted in a window that began no earlier than [t0]. *)
Definition counted (g t0 k : Z) w : Prop :=
  (k = 0 ∧ startable (clock w) (slot (cch w) (sourceLockoutKey u ip g))) ∨
  (0 < k ∧ ∃ e, slot (cch w) (sourceLockoutKey u ip g) = SCounter k e ∧ t0 + lockoutDuration ≤ e).

Lemma counted_elsewhere g t0 k w w' :
  elsewhere g w w' → clock w' < t0 + lockoutDuration → counted g t0 k w → counted g t0 k w'.
Proof.
  intros (Hc & Hk & _ & _) Hlt [[-> Hst]|[Hk0 (e & Hs & He)]].
  - left. split; [done|]. destruct Hk as [->|[(n & e & Hs & ? & ->)|Ho]]; [by eapply startable_after|done|].
    rewrite Ho in Hst. done.
  - right. split; [done|]. exists e. destruct Hk as [->|[(n & e' & Hs' & ? & _)|Ho]]; [done| |congruence].
    rewrite Hs in Hs'. simplify_eq. lia.
Qed.

Lemma generation_elsewhere g T w w' : elsewhere g w w' → generation_is g T w → generation_is g T w'.
Proof.
  intros (Hc & _ & Hk & _) [Hg Hr]. split; [done|]. intros t Ht. rewrite Hk. apply Hr. lia.
Qed.

Lemma counted_fail g t0 k w w' :
  advanced (sourceLockoutKey u ip g) w w' → t0 ≤ clock w → clock w' < t0 + lockoutDuration →
  0 ≤ k < int64_max → counted g t0 k w → counted g t0 (k + 1) w'.
Proof.
  intros [Ha Hb] Ht Hlt Hk [[-> Hst]|[Hk0 (e & Hs & He)]]; right; (split; [lia|]).
  - destruct (Hb Hst) as (e & -> & ?). exists e. split; [done|lia].
  - exists e. split; [|done]. apply Ha; [done|lia|lia].
Qed.

Lemma failures_clock g n w w' : failures g n w w' → clock w ≤ clock w'.
Proof.
  induction 1 as [|? ? ? ? (?&_) _ IH|n w o w2 Ho _ IH]; [lia|lia|].
  etrans; [|exact IH]. apply (wp_run healthy _ _ w o Ho (wp_clock healthy _ w)).
Qed.

Definition latch_grows w w' : Prop := refusedAt w' = refusedAt w ∨ clock w ≤ refusedAt w'.

Lemma latch_trans w1 w2 w3 :
  clock w1 ≤ clock w2 → latch_grows w1 w2 → latch_grows w2 w3 → latch_grows w1 w3.
Proof. unfold latch_grows. intros ? [?|?] [?|?]; [left; congruence|right; lia..]. Qed.

Lemma wp_note w : wp healthy noteLockoutCounterRefused (λ _ w', clock w ≤ clock w' ∧ latch_grows w w') w.
Proof. intros c _ c' _. cbn. split; [lia|right; cbn; lia]. Qed.

Lemma wp_count_latch k w :
  wp healthy (count_on k) (λ _ w', clock w ≤ clock w' ∧ latch_grows w w') w.
Proof.
  eapply wp_mono; [|apply wp_count_on]. intros _ w' (_ & ? & _ & [[? _]|?]); split; [lia|by left|lia|by right].
Qed.

Lemma wp_record_latch w :
  wp healthy (recordFailedAttempt s u ip) (λ _ w', clock w ≤ clock w' ∧ latch_grows w w') w.
Proof.
  unfold recordFailedAttempt. rewrite Hcache. cbn [negb].
  apply wp_bind, wp_cachedCount_healthy. intros w1 [g ok] (_ & Hr1 & Hc1 & _) _.
  assert (H01 : latch_grows w w1) by (by left).
  apply wp_bind. apply (wp_mono _ _ (λ _ w', clock w1 ≤ clock w' ∧ latch_grows w1 w')).
  - intros [] w2 [? ?]. apply (wp_mono _ _ (λ _ w', clock w2 ≤ clock w' ∧ latch_grows w2 w'));
      [|apply wp_count_latch].
    intros [] w3 [? ?]. split; [lia|]. eapply (latch_trans w w1); [done|done|].
    by eapply (latch_trans w1 w2).
  - destruct ok; [apply wp_count_latch|apply wp_note].
Qed.

Lemma failures_latched g n w w' t0 :
  failures g n w w' → t0 ≤ clock w → t0 ≤ refusedAt w → t0 ≤ refusedAt w'.
Proof.
  induction 1 as [|? ? ? ? (? & _ & _ & [E|?]) _ IH|n w o w2 Ho _ IH]; intros Ht Hr; [done| | |].
  - apply IH; [lia|by rewrite E].
  - apply IH; lia.
  - pose proof (wp_run healthy _ _ w o Ho (wp_record_latch w)) as [Hc [E|?]].
    + apply IH; [lia|by rewrite E].
    + apply IH; lia.
Qed.

Lemma failures_counted g T t0 k n w w' :
  failures g n w w' → clock w' ≤ T → T < t0 + lockoutDuration → generation_is g T w →
  t0 ≤ clock w → 0 ≤ k → k + Z.of_nat n ≤ 1000000 → counted g t0 k w →
  (generation_is g T w' ∧ counted g t0 (k + Z.of_nat n) w') ∨ t0 ≤ refusedAt w'.
Proof.
  intros Hf HT Hwin. revert k. induction Hf as [w|n w w1 w2 He Hf IH|n w o w2 Ho Hf IH];
    intros k Hgen Ht Hk Hkn Hc; [rewrite Z.add_0_r; auto|..];
    pose proof (failures_clock _ _ _ _ Hf) as Hm.
  - pose proof He as (Hclk & _). apply IH; try lia;
      [by eapply generation_elsewhere|eapply counted_elsewhere; [done|lia|done]].
  - pose proof (wp_run healthy _ _ w o Ho (wp_record g T w Hgen)) as Hr. cbn beta in Hr.
    destruct Hr as (Hd & Hclk & Hfr & [(Hr & Ha & _)|Hr]); [lia| |].
    + replace (k + Z.of_nat (S n)) with (k + 1 + Z.of_nat n) by lia. apply IH; try lia.
      * destruct Hgen as [? Hgen]. split; [done|]. intros t Ht'.
        rewrite Hfr; [apply Hgen; lia|apply generation_source_ne|apply generation_account_ne].
      * eapply counted_fail; [done|lia|lia|unfold int64_max; lia|done].
    + right. eapply failures_latched; [done|lia|lia].
Qed.


End lock.

(** ** When the cache cannot answer *)
Section fallback.
Context {C : Type} `{CounterCache C} `{Primitives}.
Implicit Types w : World C.

(** Every database call succeeds. *)
Definition db_up (c : choice) : Prop := c_db c = NoFault.
(** ... and no cache call does. *)
Definition cache_down (c : choice) : Prop := c_cache c ≠ NoFault ∧ c_db c = NoFault.

Lemma wp_count_down k w (Q : Z * bool → World C → Prop) :
  (∀ w', db w' = db w → Q (0, false) w') → wp cache_down (cachedCount k) Q w.
Proof.
  intros HQ c [Hc _]. cbn [call bind wp fst snd]. unfold perform, on_cache.
  destruct (Get _ _ _) as [r c']. destruct (c_cache c); [done|..]; cbn [faulty wp fst snd]; by apply HQ.
Qed.

(** The answer the durable count gives. *)
Lemma wp_stored_exact P u x w :
  (∀ c, P c → c_db c = NoFault) → users (db w) !! u = Some x →
  wp P (lockedByStoredCount u) (λ b _, b = bool_decide (lockoutThreshold ≤ FailedLoginCount x)) w.
Proof.
  intros HP Hx. apply wp_stored. intros w' b _ Ht Hf. symmetry.
  destruct b; [apply bool_decide_eq_true | apply bool_decide_eq_false].
  - destruct Ht as (y & Hy & ?); [done|]. congruence.
  - intros Hle. specialize (Hf HP x Hx Hle). done.
Qed.

(** The lockout outlives the cache: with no cache configured, or with every
    cache call failing, the account is locked exactly when the durable count of
    the user row has reached the threshold. *)
Theorem lockout_survives_cache_loss s u ip x w o :
  users (db w) !! u = Some x → (∀ i, c_db (o i) = NoFault) →
  has_cache s = false ∨ (∀ i, c_cache (o i) ≠ NoFault) →
  (run (isAccountLocked s u ip) o w).1 = bool_decide (lockoutThreshold ≤ FailedLoginCount x).
Proof.
  intros Hx Hdb Hcase. unfold isAccountLocked. destruct (has_cache s) eqn:Hcache; cbn [negb].
  2: { apply (wp_run db_up _ (λ b _, b = _) w o Hdb). by apply wp_stored_exact. }
  destruct Hcase as [|Hdown]; [done|].
  apply (wp_run cache_down _ (λ b _, b = bool_decide (lockoutThreshold ≤ FailedLoginCount x)) w o);
    [by split|].
  apply wp_bind, wp_unwritable. intros w1 unw (Hd1 & _) _ _.
  apply wp_bind, wp_count_down. intros w2 Hd2. cbn [negb].
  apply wp_stored_exact; [by intros c []|congruence].
Qed.

(** A counter that could not be written is not read as "no failures": while a
    refused write is on record (fifteen minutes), a source counter that reads
    zero, or that cannot be read at all, hands the decision to the durable
    count, whatever the cache does during the check. *)
Theorem refused_counter_falls_back s u ip g T x w o :
  has_cache s = true → users (db w) !! u = Some x → (∀ i, c_db (o i) = NoFault) →
  refusedAt w ≠ 0 → generation_is u g T w →
  (∀ t, clock w ≤ t ≤ T → reading t (slot (cch w) (sourceLockoutKey u ip g)) = Some 0) →
  let '(locked, w') := run (isAccountLocked s u ip) o w in
  clock w' ≤ T → clock w' - refusedAt w < lockoutDuration →
  locked = bool_decide (lockoutThreshold ≤ FailedLoginCount x).
Proof.
  intros Hcache Hx Hdb Hlatch [Hg Hgen] Hz. destruct (run _ o w) as [b w'] eqn:Er.
  set (T' := Z.min T (refusedAt w + lockoutDuration - 1)).
  cut (clock w' ≤ T' → b = bool_decide (lockoutThreshold ≤ FailedLoginCount x)).
  { intros Hcut ? ?. apply Hcut. lia. }
  pose proof (wp_run db_up (isAccountLocked s u ip)
    (λ b w', clock w' ≤ T' → b = bool_decide (lockoutThreshold ≤ FailedLoginCount x)) w o Hdb) as Hrun.
  rewrite Er in Hrun. apply Hrun. clear Hrun Er b w'.
  assert (Hstored : ∀ w', db w' = db w → wp db_up (lockedByStoredCount u)
    (λ b w', clock w' ≤ T' → b = bool_decide (lockoutThreshold ≤ FailedLoginCount x)) w').
  { intros w' Hd. eapply wp_mono; [|apply wp_stored_exact; [done|]]; [by intros b ? -> _|congruence]. }
  unfold isAccountLocked. rewrite Hcache. cbn [negb].
  apply wp_bind, wp_unwritable. intros w1 unw (Hd1 & Hr1 & Hc1 & Hs1) _ Hunw.
  destruct (Z.lt_ge_cases T' (clock w1)); [by apply wp_past|].
  rewrite Hunw by (done || lia). clear Hunw unw.
  apply wp_bind, wp_cachedCount. intros w2 [g' ok] (Hd2 & Hr2 & Hc2 & Hs2) Hread.
  destruct (Z.lt_ge_cases T' (clock w2)); [by apply wp_past|].
  destruct (Hread g) as [E|[E _]]; [rewrite Hs1; apply Hgen; lia|lia| |]; simplify_eq; cbn [negb].
  2: { apply Hstored. congruence. }
  apply wp_bind, wp_cachedCount. intros w3 [p ok] (Hd3 & Hr3 & Hc3 & Hs3) Hread'.
  destruct (Z.lt_ge_cases T' (clock w3)); [by apply wp_past|].
  destruct (Hread' 0) as [E|[E _]]; [rewrite Hs2, Hs1; apply Hz; lia|done| |]; simplify_eq; cbn [negb orb];
    apply Hstored; congruence.
Qed.
End fallback.

(** ** Clearing *)
Section clearing.
Context {C : Type} `{CounterCache C} `{Primitives}.
Implicit Types w : World C.

Lemma wp_delete P k w (Q : res cacheErr unit → World C → Prop) :
  (∀ w' r, db w' = db w → refusedAt w' = refusedAt w → clock w ≤ clock w' →
     (∀ k', k' ≠ k → slot (cch w') k' = slot (cch w) k') →
     (r = Ok tt → slot (cch w') k = SEmpty) →
     ((∀ c, P c → c_cache c = NoFault) → r = Ok tt) → Q r w') →
  wp P (call (SDelete k)) Q w.
Proof.
  intros HQ c Hc. cbn [call wp perform fst snd]. unfold on_cache.
  destruct (Delete (clock (tick c w)) k (cch (tick c w))) as [r c'] eqn:Ed.
  assert (Hcl : clock w ≤ clock (tick c w)) by (cbn; lia).
  assert (Hf : ∀ k', k' ≠ k → slot c' k' = slot (cch w) k') by (intros; by eapply slot_delete_frame).
  destruct (slot_delete (cch (tick c w)) k (clock (tick c w))) as (c2 & E2 & Hs).
  rewrite E2 in Ed. simplify_eq.
  destruct (c_cache c) eqn:Ec; cbn [faulty wp fst snd]; apply HQ; try done;
    intros HP; specialize (HP c Hc); congruence.
Qed.

(** A successful login clears the counter of its own source and nothing
    else: under any faults and for any cached generation, [clearLockout]
    changes at most one source key of this account and address; the
    account-wide counter, every other source's, the database and the refusal
    latch are as they were. *)
Theorem success_clears_only_its_source s u ip w o :
  ∃ g, let w' := (run (clearLockout s u ip) o w).2 in
  (∀ k, k ≠ sourceLockoutKey u ip g → slot (cch w') k = slot (cch w) k) ∧
  slot (cch w') (accountLockoutKey u) = slot (cch w) (accountLockoutKey u) ∧
  db w' = db w ∧ refusedAt w' = refusedAt w.
Proof.
  cut (∃ g, (∀ k, k ≠ sourceLockoutKey u ip g →
      slot (cch (run (clearLockout s u ip) o w).2) k = slot (cch w) k) ∧
    db (run (clearLockout s u ip) o w).2 = db w ∧ refusedAt (run (clearLockout s u ip) o w).2 = refusedAt w).
  { intros (g & Hs & Hd & Hr). exists g. cbn zeta. split_and!; [done| |done|done].
    apply Hs, account_source_ne. }
  apply (wp_run any (clearLockout s u ip) (λ _ w', ∃ g,
    (∀ k, k ≠ sourceLockoutKey u ip g → slot (cch w') k = slot (cch w) k) ∧
    db w' = db w ∧ refusedAt w' = refusedAt w) w o (λ _, I)).
  unfold clearLockout. destruct (has_cache s); cbn [negb wp]; [|by exists 0].
  apply wp_bind, wp_cachedCount. intros w1 [g ok] (Hd & Hr & _ & Hs) _.
  destruct ok; cbn [negb wp]; [|exists 0; by split_and!].
  apply wp_bind, wp_delete. intros w2 r Hd2 Hr2 _ Hf2 _ _. cbn [wp]. exists g.
  split_and!; [|congruence|congruence]. intros k Hk. by rewrite Hf2, Hs.
Qed.

(** Counting a healthy increment that answered. *)
Lemma wp_increment_ok k ttl w (Q : res cacheErr Z → World C → Prop) :
  0 < ttl →
  (∀ w' r, db w' = db w → refusedAt w' = refusedAt w → clock w ≤ clock w' →
     (∀ k', k' ≠ k → slot (cch w') k' = slot (cch w) k') →
     (∀ n e, slot (cch w) k = SCounter n e → clock w' < e → 0 ≤ n < int64_max →
        slot (cch w') k = SCounter (n + 1) e) →
     (startable (clock w) (slot (cch w) k) → is_ok r = true →
        ∃ e, slot (cch w') k = SCounter 1 e ∧ clock w + ttl ≤ e) → Q r w') →
  wp healthy (call (SIncrement k ttl)) Q w.
Proof.
  intros Httl HQ c [Hc _]. cbn [call wp perform fst snd]. unfold on_cache. rewrite Hc. cbn [faulty].
  set (w1 := tick c w). assert (Hc1 : clock w ≤ clock w1) by (cbn; lia).
  destruct (Increment (clock w1) k ttl (cch w1)) as [r c'] eqn:Ei. cbn [fst snd].
  apply HQ; try done.
  - intros k' Hk. change (cch w) with (cch w1). by eapply slot_incr_frame.
  - intros n e Es Hlt Hb. cbn in Hlt.
    destruct (slot_incr_live (cch w1) k n e (clock w1) ttl) as (c2 & E2 & Hs); [done|done|lia|].
    rewrite E2 in Ei. by simplify_eq.
  - intros Hst Hok. destruct (slot_incr_start (cch w1) k (clock w1) ttl)
      as [(c2 & E2 & Hs)|(c2 & er & E2 & _)]; [by eapply startable_after|done| |].
    + rewrite E2 in Ei. simplify_eq. exists (clock w1 + ttl). split; [done|lia].
    + rewrite E2 in Ei. by simplify_eq.
Qed.

(** Before a reset: generation [g], from a key that outlives [T], or no key yet. *)
Definition generation_before (u : string) (g T : Z) w : Prop :=
  0 ≤ g < int64_max ∧
  ((g = 0 ∧ startable (clock w) (slot (cch w) (lockoutGenerationKey u)) ∧
    T < clock w + lockoutGenerationTTL) ∨
   (∃ e, slot (cch w) (lockoutGenerationKey u) = SCounter g e ∧ T < e)).

Lemma wp_clear u g T w :
  generation_before u g T w →
  wp healthy (ClearAccountLockout true u)
    (λ r w', r = Ok tt → clock w' ≤ T →
       refusedAt w' = refusedAt w ∧ clock w ≤ clock w' ∧
       slot (cch w') (accountLockoutKey u) = SEmpty ∧
       (∃ e, slot (cch w') (lockoutGenerationKey u) = SCounter (g + 1) e ∧ T < e) ∧
       (∀ k, k ≠ accountLockoutKey u → k ≠ lockoutGenerationKey u →
          slot (cch w') k = slot (cch w) k)) w.
Proof.
  intros [Hg Hgen]. unfold ClearAccountLockout. cbn [negb].
  pose proof (generation_account_ne u u) as Hne.
  apply wp_bind, wp_delete. intros w1 r Hd1 Hr1 Hc1 Hf1 He1 Hok1.
  rewrite Hok1 in * by (by intros c []). specialize (He1 eq_refl). cbn [wp].
  apply wp_bind, wp_increment_ok; [done|]. intros w2 r2 Hd2 Hr2 Hc2 Hf2 Hlive Hstart.
  destruct r2 as [n|]; cbn [wp]; [|done]. intros _ HT. split_and!; [congruence|lia| | |].
  - by rewrite Hf2 by done.
  - destruct Hgen as [(-> & Hst & HT')|(e & Hs & He)].
    + destruct Hstart as (e & -> & ?); [|done|exists e; split; [done|lia]].
      rewrite Hf1 by done. by eapply startable_after.
    + exists e. split; [|lia]. apply Hlive; [by rewrite Hf1|lia|lia].
  - intros k Hk1 Hk2. by rewrite Hf2, Hf1.
Qed.

(** With nothing standing against it, the account is open. *)
Lemma wp_unlocked s u ip g T w :
  has_cache s = true → refusedAt w = 0 → generation_is u g T w →
  (∀ t, clock w ≤ t ≤ T → reading t (slot (cch w) (sourceLockoutKey u ip g)) = Some 0) →
  (∀ t, clock w ≤ t ≤ T → reading t (slot (cch w) (accountLockoutKey u)) = Some 0) →
  wp healthy (isAccountLocked s u ip) (λ b w', clock w' ≤ T → b = false) w.
Proof.
  intros Hcache Hlatch Hgen Hsrc Hacc. unfold isAccountLocked. rewrite Hcache. cbn [negb].
  apply wp_bind, wp_unwritable. intros w1 unw Hs1 Hunw _.
  assert (unw = false) as -> by (destruct unw; [by destruct Hunw|done]).
  apply wp_bind, (wp_generation u g T); [by eapply generation_settled| |by intros; apply wp_past].
  intros w2 Hs2 HT2. cbn [negb]. pose proof (settled_trans _ _ _ Hs1 Hs2) as (_ & _ & Hc02 & Hs02).
  apply wp_bind, wp_cachedCount_healthy. intros w3 r3 (_ & _ & Hc3 & Hs3) Hr3.
  destruct (Z.lt_ge_cases T (clock w3)); [destruct r3; by apply wp_past|].
  rewrite (Hr3 0); [|rewrite Hs02; apply Hsrc; lia|done]. cbn [negb orb].
  rewrite andb_false_r. change (lockoutThreshold <=? 0) with false. cbn [orb].
  apply wp_bind, wp_cachedCount_healthy. intros w4 r4 (_ & _ & Hc4 & Hs4) Hr4.
  destruct (Z.lt_ge_cases T (clock w4)); [destruct r4; by apply wp_past|].
  rewrite (Hr4 0); [|rewrite Hs3, Hs02; apply Hacc; lia|done]. cbn [negb orb].
  by rewrite andb_false_r.
Qed.

(** A completed password reset opens the account from every address: after
    [ClearAccountLockout] answers ok, no matter how many failures stood against
    the account-wide counter or against any source under the old generation,
    the account is not locked to any address that has no live counter under the
    next generation, until the generation key expires. *)
Theorem reset_unlocks_every_source s u ip g T w o o' :
  has_cache s = true → refusedAt w = 0 → generation_before u g T w →
  (∀ t, clock w ≤ t ≤ T → reading t (slot (cch w) (sourceLockoutKey u ip (g + 1))) = Some 0) →
  (∀ i, healthy (o i)) → (∀ i, healthy (o' i)) →
  let '(r, w1) := run (ClearAccountLockout true u) o w in
  let '(locked, w2) := run (isAccountLocked s u ip) o' w1 in
  r = Ok tt → clock w2 ≤ T → g + 1 < int64_max → locked = false.
Proof.
  intros Hcache Hlatch Hgen Hst Ho Ho'.
  pose proof (wp_run healthy _ _ w o Ho (wp_clear u g T w Hgen)) as Hclear.
  destruct (run (ClearAccountLockout true u) o w) as [r w1] eqn:E1. cbn [fst snd] in Hclear.
  destruct (run (isAccountLocked s u ip) o' w1) as [b w2] eqn:E2. intros -> HT Hmax.
  pose proof (wp_run healthy _ _ w1 o' Ho' (wp_clock healthy (isAccountLocked s u ip) w1)) as Hm.
  rewrite E2 in Hm. cbn in Hm.
  destruct Hclear as (Hr & Hc & Ha & (e & Hg & He) & Hf); [done|lia|].
  assert (Hgen1 : generation_is u (g + 1) T w1).
  { destruct Hgen as [? _]. split; [lia|]. intros t Ht. rewrite Hg. cbn.
    destruct (Z.ltb_spec t e); [done|lia]. }
  assert (Hsrc : ∀ t, clock w1 ≤ t ≤ T →
    reading t (slot (cch w1) (sourceLockoutKey u ip (g + 1))) = Some 0).
  { intros t Ht. rewrite Hf; [apply Hst; lia|apply not_eq_sym, account_source_ne
      |apply not_eq_sym, generation_source_ne]. }
  assert (Hacc : ∀ t, clock w1 ≤ t ≤ T → reading t (slot (cch w1) (accountLockoutKey u)) = Some 0)
    by (intros; by rewrite Ha).
  pose proof (wp_run healthy _ _ w1 o' Ho'
    (wp_unlocked s u ip (g + 1) T w1 Hcache ltac:(congruence) Hgen1 Hsrc Hacc)) as Hres.
  rewrite E2 in Hres. by apply Hres.
Qed.
End clearing.

(** ** Concrete runs *)
Module LockDemo.
Definition svc : AuthService :=
  mkAuthService (mkTokenService "k1" "iss" "aud" (15 * minute) (24 * hour) (720 * hour) (10 * hour) 0)
    true true true true true false false 60 true [] 0 false "pepper" "hmac" "$dummy".
#[local] Existing Instance Toy.prims.
Definition W := World Memory.MemoryCache.
Definition o : nat → choice := λ _, calm "r".
Definition later (d : Z) (w : W) : W := set_clock (clock w + d) w.
Definition fail1 (w : W) : W := (run (recordFailedAttempt svc "alice" "10.0.0.1") o w).2.
Definition reset (w : W) : W := (run (ClearAccountLockout true "alice") o w).2.
Definition locked (w : W) : bool := (run (isAccountLocked svc "alice" "10.0.0.1") o w).1.
Definition five (w : W) : W := fail1 (fail1 (fail1 (fail1 (fail1 w)))).

Lemma o_healthy i : healthy (o i).
Proof. by split_and!. Qed.

Lemma fail_first g n w w2 : failures svc "alice" "10.0.0.1" g n (fail1 w) w2 → failures svc "alice" "10.0.0.1" g (S n) w w2.
Proof. exact (fl_fail _ _ _ g n w o w2 o_healthy). Qed.

Lemma failures_five w g : failures svc "alice" "10.0.0.1" g 5 w (five w).
Proof. unfold five. do 5 apply fail_first. apply fl_none. Qed.

(** A refused counter: the cache is full, the durable count stands at five. *)
Definition refused : W :=
  set_refused (999 * second)
    (set_db (mkDB [] {["alice" := set_failed 5 Toy.alice]}) Toy.world).
End LockDemo.


Lemma lockout_survives_cache_loss_witness :
  (run (H0 := Toy.prims) (isAccountLocked LockDemo.svc "alice" "10.0.0.1")
     (λ _, mkChoice 0 FailsBefore NoFault "" false false false false) LockDemo.refused).1
  = bool_decide (lockoutThreshold ≤ 5).
Proof.
  apply (lockout_survives_cache_loss (H1 := Toy.prims) LockDemo.svc "alice" "10.0.0.1"
    (set_failed 5 Toy.alice)); [reflexivity|done|by right].
Defined.

Lemma refused_counter_falls_back_witness :
  let '(locked, w') := run (H0 := Toy.prims)
    (isAccountLocked LockDemo.svc "alice" "10.0.0.1") LockDemo.o LockDemo.refused in
  clock w' ≤ 1001 * second → clock w' - refusedAt LockDemo.refused < lockoutDuration →
  locked = bool_decide (lockoutThreshold ≤ 5).
Proof.
  apply (refused_counter_falls_back (H1 := Toy.prims) LockDemo.svc "alice" "10.0.0.1" 0
    (1001 * second) (set_failed 5 Toy.alice)); [done|reflexivity|done|done| |].
  - split; [done|]. intros t _. reflexivity.
  - intros t _. reflexivity.
Defined.

Lemma reset_unlocks_every_source_witness :
  let '(r, w1) := run (H0 := Toy.prims) (ClearAccountLockout true "alice") LockDemo.o
                    (LockDemo.five Toy.world) in
  let '(locked, w2) := run (H0 := Toy.prims) (isAccountLocked LockDemo.svc "alice" "10.0.0.1")
                         LockDemo.o w1 in
  r = Ok tt → clock w2 ≤ 1001 * second → 0 + 1 < int64_max → locked = false.
Proof.
  apply (reset_unlocks_every_source (H1 := Toy.prims) LockDemo.svc "alice" "10.0.0.1" 0 (1001 * second));
    [done|by vm_compute| | |apply LockDemo.o_healthy..].
  - split; [done|]. left. split; [done|]. by vm_compute.
  - intros t _. by vm_compute.
Defined.

(** A reset can revive a lockout an earlier reset had cleared.  The generation
    key keeps the expiry of its first increment, so a second reset near the end
    of its thirty minutes does not prolong it; once it expires the numbering
    starts over, and the third reset returns to generation 1 while the counters
    written under the first one are still alive. *)
Example reset_revives_lockout :
  let w1 := LockDemo.later (29 * minute) (LockDemo.reset Toy.world) in
  let w2 := LockDemo.five w1 in
  let w3 := LockDemo.reset (LockDemo.later (30 * second) w2) in
  let w4 := LockDemo.later (2 * minute) w3 in
  LockDemo.locked w2 = true ∧ LockDemo.locked w3 = false ∧ LockDemo.locked w4 = false ∧
  LockDemo.locked (LockDemo.reset w4) = true.
Proof. by vm_compute. Qed.
