(* ===== verification/Session.v ===== *)
(** * Session: rotating, bounding and ending refresh-token sessions

    Models the session half of internal/service/auth.go ([Refresh] and the
    functions it calls, [checkSessionLimit], [storeRefreshToken],
    [findOrCreateDevice], [Logout]), the role filter of internal/seed/seed.go
    and the role catalogue of internal/service/role_catalog.go.  A handler's
    early returns are the error branches of the program; a best-effort call
    whose error the code discards is bound and ignored. *)
From S2P Require Import Prelude GoStd Cache Crypto Model TokenStore UserStore Effects TokenService Lockout.
From Stdlib Require Import Ascii.
Open Scope string_scope.
Open Scope Z_scope.
Open Scope prog_scope.

(** ** Roles *)
Definition IsReservedAdminRole (name : string) : bool :=
  let n := ToLower (TrimSpace name) in bool_decide (n = "admin") || bool_decide (n = "super_admin").

Definition FilterUserRoles (roles : list string) : list string :=
  filter (λ r, IsReservedAdminRole r = false) roles.

(** [RoleCatalog.cached]: the set, and whether it is within its TTL. *)
Definition catalog_cached (s : AuthService) : prog (option (list string) * bool) :=
  c <- call SCatalogLoad ;;
  match c with
  | None => Ret (None, false)
  | Some (names, loadedAt) =>
      now <- call SNow ;; Ret (Some names, now - loadedAt <? catalogTTL s)
  end.

(** [RoleCatalog.current]: the second look is the one taken under the refresh
    lock; a failed reload keeps the last known set. *)
Definition catalog_current (s : AuthService) : prog (option (list string)) :=
  c <- catalog_cached s ;;
  let '(set, fresh) := c in
  if fresh then Ret set
  else
    c <- catalog_cached s ;;
    let '(set, fresh) := c in
    if fresh then Ret set
    else
      r <- call SListNames ;;
      match r with
      | Err _ => c <- catalog_cached s ;; Ret c.1
      | Ok names => now <- call SNow ;; call (SCatalogStore names now) ;;; Ret (Some names)
      end.

Definition catalog_Filter (s : AuthService) (roles : list string) : prog (list string) :=
  match roles with
  | [] => Ret roles
  | _ =>
      c <- catalog_current s ;;
      Ret (match c with
           | None => roles
           | Some names => filter (λ r, r ∈ names) roles
           end)
  end.

Definition effectiveRoles (s : AuthService) (roles : list string) : prog (list string) :=
  let out := FilterUserRoles roles in
  out <- (if has_roleCatalog s then catalog_Filter s out else Ret out) ;;
  Ret (match out with [] => ["user"] | _ => out end).

(** ** Ending a family *)
Definition containRefreshReuse (s : AuthService) (stored : RefreshToken) (ip reason : string) : prog unit :=
  r <- call (SRevokeFamily (FamilyID stored)) ;;
  metric s "refresh_token_replayed" ;;;
  log_event "refresh_token_replayed" (TUserID stored) (TClientID stored) ip
    (reason +:+ (if is_ok r then ":family_revoked" else "")).

(** [time.Now().Before( *user.LockedUntil)] *)
Definition is_locked_at (now : Z) (user : User) : bool :=
  match LockedUntil user with Some t => now <? t | None => false end.

Definition holds_sessions (now : Z) (user : User) : bool :=
  negb (Deleted user) && negb (Banned user) && negb (Disabled user) && negb (is_locked_at now user).

Definition accountStillHoldsSessions (stored : RefreshToken) : prog (res authErr User) :=
  r <- call (SGetByID (TUserID stored)) ;;
  now <- call SNow ;;
  match r with
  | Ok (Some user) =>
      if holds_sessions now user then Ret (Ok user)
      else
        call (SRevokeFamily (FamilyID stored)) ;;;
        Ret (Err (if Banned user then ErrAccountBanned
                  else if Disabled user then ErrAccountDisabled
                  else if is_locked_at now user then ErrAccountLocked
                  else ErrTokenInvalid))
  | _ => call (SRevokeFamily (FamilyID stored)) ;;; Ret (Err ErrTokenInvalid)
  end.

(** ** Preconditions of a rotation *)
(** [t.IsZero()] reads an instant as unknown. *)
Definition nonzero (t : option Z) : option Z :=
  match t with Some x => if x =? zero_time then None else Some x | None => None end.

Definition enforceDPoPBinding (stored : RefreshToken) (presented ip : string) : prog (res authErr unit) :=
  if decide (DPoPJKT stored = "") then Ret (Ok tt)
  else if negb (bool_decide (presented = "")) && SecureCompare (DPoPJKT stored) presented then Ret (Ok tt)
  else
    log_event "dpop_binding_mismatch" (TUserID stored) (TClientID stored) ip "dpop" ;;;
    Ret (Err ErrTokenInvalid).

Definition enforceSessionLifetime (s : AuthService) (stored : RefreshToken) (ip : string)
  : prog (res authErr (option Z)) :=
  let maxLifetime := maxSessionLifetime (tokenSvc s) in
  let bounded := 0 <? maxLifetime in
  if negb (dates_families s) then
    if negb bounded then Ret (Ok None)
    else
      log_event "token_revoke" (TUserID stored) (TClientID stored) ip "session_age_unavailable" ;;;
      Ret (Err ErrSessionAgeUnknown)
  else
    r <- call (SFamilyOrigin (FamilyID stored)) ;;
    match (match r with Ok t => nonzero t | Err _ => None end) with
    | Some origin =>
        if bounded then
          now <- call SNow ;;
          if now <? origin + maxLifetime then Ret (Ok (Some origin))
          else
            call (SRevokeFamily (FamilyID stored)) ;;;
            log_event "token_revoke" (TUserID stored) (TClientID stored) ip "session_lifetime_exceeded" ;;;
            Ret (Err ErrSessionExpired)
        else Ret (Ok (Some origin))
    | None =>
        if negb bounded then Ret (Ok None)
        else
          log_event "token_revoke" (TUserID stored) (TClientID stored) ip "session_age_unavailable" ;;;
          Ret (Err ErrSessionAgeUnknown)
    end.

Definition enforceSessionInactivity (s : AuthService) (stored : RefreshToken) (ip : string)
  : prog (res authErr unit) :=
  let idleTimeout := inactivityTimeout (tokenSvc s) in
  if idleTimeout <=? 0 then Ret (Ok tt)
  else
    match nonzero (TCreatedAt stored) with
    | None =>
        log_event "token_revoke" (TUserID stored) (TClientID stored) ip "session_age_unavailable" ;;;
        Ret (Err ErrSessionAgeUnknown)
    | Some created =>
        now <- call SNow ;;
        if now <? created + idleTimeout then Ret (Ok tt)
        else
          call (SRevokeFamily (FamilyID stored)) ;;;
          log_event "token_revoke" (TUserID stored) (TClientID stored) ip "session_inactivity_exceeded" ;;;
          Ret (Err ErrSessionIdle)
    end.

(** ** Rotation *)
Section rotation.
Context `{Primitives}.

Definition issueRotatedPair (s : AuthService) (stored : RefreshToken) (roles : list string)
    (fp : string) (familyOrigin : option Z) (ip : string) : prog (res authErr TokenPair) :=
  pr <-! IssueRotatedPair (tokenSvc s) (DPoPJKT stored) (TUserID stored) roles ["read"; "write"]
           (TClientID stored) fp (FamilyID stored) familyOrigin ;;
  newID <-! call SRandom ;;
  now <- call SNow ;;
  r <- call (SCreate (mkRefreshToken newID (TUserID stored) (TClientID stored)
                        (SHA256Hex (RefreshTokenRaw pr)) (FamilyID stored) (TDeviceID stored) fp
                        (DPoPJKT stored) (RefreshExpAt pr) false false (Some now))) ;;
  match r with
  | Ok _ => Ret (Ok pr)
  | Err ErrFamilyRevoked =>
      call (SRevokeFamily (FamilyID stored)) ;;;
      log_event "token_revoke" (TUserID stored) (TClientID stored) ip "family_revoked_during_rotation" ;;;
      Ret (Err ErrReplayDetected)
  | Err e => Ret (Err (ErrRepo e))
  end.

Record RefreshResult := mkRefreshResult {
  RAccessToken : string; RExpiresIn : Z; RRefreshToken : string; RCookieMaxAge : Z
}.

(** [int(d.Seconds())] *)
Definition whole_seconds (d : Z) : Z := Z.quot d second.

Definition Refresh (s : AuthService) (refreshToken jkt ip ua : string) (fpInput : FingerprintInput)
  : prog (res authErr RefreshResult) :=
  stored <-! repo (SGetByTokenHash (SHA256Hex refreshToken)) ;;
  match stored with
  | None => Ret (Err ErrTokenInvalid)
  | Some stored =>
    if TRevoked stored then Ret (Err ErrTokenInvalid)
    else if TUsed stored then
      containRefreshReuse s stored ip "replay_detected" ;;;
      Ret (Err ErrReplayDetected)
    else
      now <- call SNow ;;
      if ExpiresAt stored <? now then Ret (Err ErrTokenExpired)
      else
        familyOrigin <-! enforceSessionLifetime s stored ip ;;
        _ <-! enforceSessionInactivity s stored ip ;;
        let fp := ComputeFingerprint
                    (mkFingerprintInput ip ua (AcceptLanguage fpInput) (TLSFingerprint fpInput)) in
        if negb (bool_decide (FingerprintHash stored = ""))
           && negb (CompareFingerprints (FingerprintHash stored) fp) then
          call (SRevokeFamily (FamilyID stored)) ;;;
          log_event "fingerprint_anomaly" (TUserID stored) (TClientID stored) ip "fingerprint" ;;;
          Ret (Err ErrTokenInvalid)
        else
          _ <-! enforceDPoPBinding stored jkt ip ;;
          updated <-! repo (SMarkUsed (TID stored)) ;;
          if negb updated then
            containRefreshReuse s stored ip "concurrent_replay_detected" ;;;
            Ret (Err ErrReplayDetected)
          else
            refreshUser <-! accountStillHoldsSessions stored ;;
            refreshRoles <- effectiveRoles s (Roles refreshUser) ;;
            pr <-! issueRotatedPair s stored refreshRoles fp familyOrigin ip ;;
            metric s "token_refreshed" ;;;
            log_event "token_refresh" (TUserID stored) (TClientID stored) ip "" ;;;
            now <- call SNow ;;
            Ret (Ok (mkRefreshResult (AccessToken pr) (whole_seconds (accessTokenTTL (tokenSvc s)))
                       (RefreshTokenRaw pr) (whole_seconds (RefreshExpAt pr - now))))
  end.
End rotation.

(** ** Starting and ending sessions *)
Definition Logout (userID ip : string) : prog (res authErr unit) :=
  _ <-! repo (SRevokeAllForUser userID) ;;
  log_event "token_revoke" userID "" ip "logout" ;;;
  Ret (Ok tt).

Definition RevokeAllTokensForUser (userID : string) : prog (res authErr unit) :=
  repo (SRevokeAllForUser userID).

Definition checkSessionLimit (s : AuthService) (userID : string) : prog (res authErr unit) :=
  if maxSessionsPerUser s <=? 0 then Ret (Ok tt)
  else
    r <- call (SCountActiveFamilies userID) ;;
    match r with
    | Err _ =>
        if strictSessionLimit s then
          log_event "rate_limit" userID "" "" "session_limit_count_failed" ;;;
          Ret (Err ErrTooManySessions)
        else Ret (Ok tt)
    | Ok count => Ret (if maxSessionsPerUser s <=? count then Err ErrTooManySessions else Ok tt)
    end.

Definition storeRefreshToken `{Primitives} (s : AuthService) (jkt userID clientID deviceID fp : string)
    (pr : TokenPair) : prog (res authErr unit) :=
  rtID <-! call SRandom ;;
  now <- call SNow ;;
  r <- call (SCreateWithinCap (mkRefreshToken rtID userID clientID (SHA256Hex (RefreshTokenRaw pr))
                (PFamilyID pr) deviceID fp jkt (RefreshExpAt pr) false false (Some now))
               (maxSessionsPerUser s)) ;;
  Ret (match r with
       | Ok _ => Ok tt
       | Err ErrSessionLimitReached => Err ErrTooManySessions
       | Err e => Err (ErrRepo e)
       end).

(** A session's device: looked up, created, or taken from the request that won
    the race to create it; never a reason to fail. *)
Definition findOrCreateDevice (userID fp ip : string) : prog string :=
  r <- call (SDeviceGet userID fp) ;;
  match r with
  | Ok (Some device) => call (SDeviceSeen (DID device) ip) ;;; Ret (DID device)
  | _ =>
      i <- call SRandom ;;
      match i with
      | Err _ => Ret ""
      | Ok deviceID =>
          now <- call SNow ;;
          r <- call (SDeviceCreate (mkDevice deviceID userID fp ip now)) ;;
          match r with
          | Err ErrUnique =>
              r <- call (SDeviceGet userID fp) ;;
              Ret (match r with Ok (Some device) => DID device | _ => deviceID end)
          | _ => Ret deviceID
          end
      end
  end.
