(* ===== verification/Login.v ===== *)
(** * Login: authenticating a user and starting a session

    Models [Login], [trapLogin], [CompleteMFALogin] and the email one-time code
    of internal/service/auth.go, [GetStatus] of internal/service/mfa.go, and
    the trap identities of internal/honeypot/fake_token.go.  [Login] is split
    where the code comments split it: the gates before the account is known,
    the account states answered before the password, the password, and what
    follows it.  The deferred failure hook wraps the whole. *)
From S2P Require Import Prelude GoStd Bytes Cache Crypto Model TokenStore UserStore FactorStore Effects TokenService Lockout Session.
From Stdlib Require Import Ascii.
Open Scope string_scope.
Open Scope Z_scope.
Open Scope prog_scope.

Record LoginInput := mkLoginInput {
  LEmail : string;
  LPassword : string;
  LRememberMe : bool;
  LClientID : string;
  LFingerprint : FingerprintInput;
  LDiscloseStatus : bool;
}.

Record LoginResult := mkLoginResult {
  LAccessToken : string;
  LExpiresIn : Z;
  LRefreshToken : string;
  LCookieMaxAge : Z;
  LRequires2FA : bool;
  LChallengeToken : string;
  LAvailableMethods : list string;
}.

Definition challenge_result (tok : string) (methods : list string) : LoginResult :=
  mkLoginResult "" 0 "" 0 true tok methods.

(** The request context: the validated DPoP thumbprint and the white-label app. *)
Record Ctx := mkCtx { ctx_jkt : string; ctx_app : string }.

(** ** Second-factor status *)
(** All three reads happen; any failure makes the status unknown. *)
Definition GetStatus (u : string) : prog (res authErr (list string)) :=
  totp <- call (STotpGet u) ;;
  creds <- call (SPasskeys u) ;;
  codes <- call (SCodesUnused u) ;;
  Ret (match totp, creds, codes with
       | Ok t, Ok c, Ok b =>
           Ok ((match t with Some t => if Verified t then [MethodTOTP] else [] | None => [] end) ++
               (if (0 <? c)%nat then [MethodWebAuthn] else []) ++
               (if (0 <? length b)%nat then [MethodBackupCode] else []))%list
       | _, _, _ => Err ErrMFAStatus
       end).

Definition RequiresMFA (s : AuthService) (u : string) (trustedDevice : bool) : prog (res authErr bool) :=
  methods <-! GetStatus u ;;
  Ret (Ok (match methods with [] => mfaRequired s | _ => negb trustedDevice end)).

(** ** Trap identities *)
Section login.
Context `{Primitives}.

(** The process's honeypot secrets and the shape its tokens copy. *)
Record Trap := mkTrap {
  trapSalt : string; trapKid : string; trapIssuer : string; trapAudience : string; trapAccessTTL : Z
}.

Definition nul : string := String zero "".
Definition trapMAC (t : Trap) (label identity : string) : string :=
  hmac_hex (label +:+ nul +:+ ToLower (TrimSpace identity)) (trapSalt t).

(** The variant bits of the hex digit: [(b & 0x3f) | 0x80] on its byte. *)
Definition variant_digit (c : ascii) : ascii :=
  let v := if is_digit c then digit_val c else code c - 87 in
  let n := 8 + v mod 4 in
  if n <? 10 then digit_char n else ascii_of_N (Z.to_N (87 + n)).

(** A v4 UUID from 32 hex digits. *)
Definition uuidShape (h : string) : string :=
  String.substring 0 8 h +:+ "-" +:+ String.substring 8 4 h +:+ "-4" +:+ String.substring 13 3 h +:+
  "-" +:+ (match String.get 16 h with Some c => String (variant_digit c) "" | None => "" end) +:+
  String.substring 17 3 h +:+ "-" +:+ String.substring 20 12 h.

Definition TrapSubject (t : Trap) (identity : string) : string := uuidShape (trapMAC t "sub" identity).

Definition trap_claims (t : Trap) (now : Z) (jti identity clientID fingerprint : string) : VaultClaims :=
  mkClaims (trapIssuer t) [trapAudience t] (TrapSubject t identity)
    (Some (NewNumericDate (now + trapAccessTTL t))) (Some (NewNumericDate now)) (Some (NewNumericDate now))
    jti ["user"] ["read"; "write"] clientID
    (if decide (fingerprint = "") then trapMAC t "fingerprint" identity else fingerprint)
    None "Bearer" "" [] 0 [] "" "".

Definition GenerateFakeJWTForIdentity (t : Trap) (identity clientID fingerprint : string)
  : prog (res authErr string) :=
  jti <-! call SRandom ;;
  now <- call SNow ;;
  call (SSign (trap_claims t now jti identity clientID fingerprint) (trapKid t)).

Definition IsTrapUser (s : AuthService) (identifier : string) : bool :=
  bool_decide (ToLower (TrimSpace identifier) ∈ ((λ u, ToLower (TrimSpace u)) <$> traps s)).

Definition trapCookieMaxAge (s : AuthService) (rememberMe : bool) : Z :=
  let ts := tokenSvc s in
  let ttl := if rememberMe then rememberMeTTL ts else refreshTokenTTL ts in
  let bound := maxSessionLifetime ts in
  whole_seconds (if (0 <? bound) && (bound <? ttl) then bound else ttl).

(** ** Shared steps *)
(** The dummy hash every refused branch burns: is the semaphore full? *)
Definition burn (s : AuthService) (password : string) : prog bool :=
  r <- call (SVerify password (dummyHash s) (pepper s)) ;;
  Ret (match r with Err Argon2Overloaded => true | _ => false end).

Definition login_fingerprint (input : LoginInput) (ip ua : string) : string :=
  ComputeFingerprint (mkFingerprintInput ip ua (AcceptLanguage (LFingerprint input))
                        (TLSFingerprint (LFingerprint input))).

Definition trapLogin (s : AuthService) (t : Trap) (c : Ctx) (input : LoginInput) (email ip ua : string)
  : prog (res authErr LoginResult) :=
  busy <- burn s (LPassword input) ;;
  if busy then Ret (Err ErrArgon2Overloaded)
  else
    call (SEmit (Deferred (JobHoneypot email ip))) ;;;
    let sub := TrapSubject t email in
    call (SResetFailedLogin sub) ;;;
    clearLockout s sub ip ;;;
    clearIdentityFailures s email ;;;
    let fp := login_fingerprint input ip ua in
    challenge <- (if negb (has_mfaSvc s) then Ret None
                  else
                    r <- GetStatus sub ;;
                    Ret (match r with
                         | Ok ((_ :: _) as methods) => Some methods
                         | _ => if mfaRequired s then Some [MethodEmailOTP] else None
                         end)) ;;
    match challenge with
    | Some methods =>
        tok <-! IssueChallengeToken (tokenSvc s) (ctx_jkt c) sub fp [MethodPassword] ;;
        log_event "login_success" sub (LClientID input) ip "mfa_required" ;;;
        Ret (Ok (challenge_result tok methods))
    | None =>
        _ <-! checkSessionLimit s sub ;;
        call (SDeviceGet sub fp) ;;;
        fakeJWT <-! GenerateFakeJWTForIdentity t email (LClientID input) fp ;;
        fakeRefresh <-! call SRandom ;;
        call (SSetLastLogin sub) ;;;
        metric s "login_success" ;;;
        metric s "token_issued" ;;;
        log_event "login_success" sub (LClientID input) ip "" ;;;
        Ret (Ok (mkLoginResult fakeJWT (whole_seconds (accessTokenTTL (tokenSvc s))) fakeRefresh
                   (trapCookieMaxAge s (LRememberMe input)) false "" []))
    end.

(** Issue and persist a new family for an authenticated user. *)
Definition start_session (s : AuthService) (c : Ctx) (userID : string) (roles : list string)
    (clientID deviceID fp : string) (rememberMe : bool) (methods : list string) (uv : bool)
  : prog (res authErr TokenPair) :=
  at_ <- call SNow ;;
  pr <-! IssueTokenPairWithAuth (tokenSvc s) (ctx_jkt c) userID roles ["read"; "write"] clientID fp ""
           rememberMe (NewAuthContext at_ methods uv) ;;
  _ <-! storeRefreshToken s (ctx_jkt c) userID clientID deviceID fp pr ;;
  Ret (Ok pr).

(** What a completed login reports and records. *)
Definition login_done (s : AuthService) (userID clientID email ip reason : string) (pr : TokenPair)
  : prog (res authErr LoginResult) :=
  call (SSetLastLogin userID) ;;;
  metric s "login_success" ;;;
  metric s "token_issued" ;;;
  log_event "login_success" userID clientID ip reason ;;;
  call (SEmit (Deferred (JobNewCountry userID email ip))) ;;;
  now <- call SNow ;;
  Ret (Ok (mkLoginResult (AccessToken pr) (whole_seconds (accessTokenTTL (tokenSvc s)))
             (RefreshTokenRaw pr) (whole_seconds (RefreshExpAt pr - now)) false "" [])).

(** ** After the password is proven *)
(** The challenge a login owes: its methods, or none. *)
Definition login_challenge (s : AuthService) (user : User) : prog (res authErr (option (list string))) :=
  if negb (has_mfaSvc s) then Ret (Ok None)
  else
    methods <-! GetStatus (UID user) ;;
    match methods with
    | _ :: _ => Ret (Ok (Some methods))
    | [] =>
        if mfaRequired s then
          call (SEmit (Deferred (JobEmailOTP (UID user) (Email user)))) ;;;
          Ret (Ok (Some [MethodEmailOTP]))
        else Ret (Ok None)
    end.

Definition login_proven (s : AuthService) (c : Ctx) (input : LoginInput) (user : User) (email ip ua : string)
  : prog (res authErr LoginResult) :=
  call (SResetFailedLogin (UID user)) ;;;
  let fp := login_fingerprint input ip ua in
  challenge <-! login_challenge s user ;;
  match challenge with
  | Some methods =>
      tok <-! IssueChallengeToken (tokenSvc s) (ctx_jkt c) (UID user) fp [MethodPassword] ;;
      log_event "login_success" (UID user) (LClientID input) ip "mfa_required" ;;;
      Ret (Ok (challenge_result tok methods))
  | None =>
      clearLockout s (UID user) ip ;;;
      clearIdentityFailures s email ;;;
      _ <-! checkSessionLimit s (UID user) ;;
      deviceID <- findOrCreateDevice (UID user) fp ip ;;
      jwtRoles <- effectiveRoles s (Roles user) ;;
      pr <-! start_session s c (UID user) jwtRoles (LClientID input) deviceID fp (LRememberMe input)
               [MethodPassword] false ;;
      login_done s (UID user) (LClientID input) (Email user) ip "" pr
  end.

(** The password, and the denials a caller who proved it may see. *)
Definition login_password (s : AuthService) (c : Ctx) (input : LoginInput) (user : User) (email ip ua : string)
  : prog (res authErr LoginResult) :=
  valid <- call (SVerify (LPassword input) (PasswordHash user) (pepper s)) ;;
  match valid with
  | Err Argon2Overloaded => Ret (Err ErrArgon2Overloaded)
  | Ok true =>
      if Banned user then
        log_event "login_failure" (UID user) "" ip "account_banned" ;;; Ret (Err ErrAccountBanned)
      else if Disabled user then
        log_event "login_failure" (UID user) "" ip "account_disabled" ;;; Ret (Err ErrAccountDisabled)
      else if negb (EmailVerified user) then
        recordLoginFailure s user ip (ctx_app c) "email_not_verified" ;;; Ret (Err ErrInvalidCredentials)
      else login_proven s c input user email ip ua
  | _ =>
      recordLoginFailure s user ip (ctx_app c) "wrong_password" ;;; Ret (Err ErrInvalidCredentials)
  end.

(** ** Before the password *)
(** An unknown address. *)
Definition login_unknown (s : AuthService) (input : LoginInput) (ip : string) : prog (res authErr LoginResult) :=
  busy <- burn s (LPassword input) ;;
  if busy then Ret (Err ErrArgon2Overloaded)
  else
    recordFailedIP s ip ;;;
    metric s "login_failed" ;;;
    log_event "login_failure" "" "" ip "user_not_found" ;;;
    Ret (Err ErrInvalidCredentials).

(** A locked account, answered as a wrong password. *)
Definition login_locked (s : AuthService) (input : LoginInput) (user : User) (ip source : string)
  : prog (res authErr LoginResult) :=
  busy <- burn s (LPassword input) ;;
  if busy then Ret (Err ErrArgon2Overloaded)
  else
    recordFailedIP s ip ;;;
    log_event "login_failure" (UID user) "" ip ("account_locked:" +:+ source) ;;;
    Ret (Err ErrInvalidCredentials).

Definition login_deleted (s : AuthService) (input : LoginInput) (user : User) (ip : string)
  : prog (res authErr LoginResult) :=
  busy <- burn s (LPassword input) ;;
  if busy then Ret (Err ErrArgon2Overloaded)
  else
    log_event "login_failure" (UID user) "" ip "account_deleted" ;;;
    Ret (Err ErrInvalidCredentials).

(** An account with no usable password: mail a link, book a failure. *)
Definition login_link (s : AuthService) (c : Ctx) (input : LoginInput) (user : User)
    (ip kind reason : string) (e : authErr) : prog (res authErr LoginResult) :=
  busy <- burn s (LPassword input) ;;
  if busy then Ret (Err ErrArgon2Overloaded)
  else
    (if has_cache s && has_emailSender s
     then call (SEmit (Deferred (JobResetLink kind (UID user) (Email user)))) else Ret tt) ;;;
    recordLoginFailure s user ip (ctx_app c) reason ;;;
    Ret (Err e).

Definition login_known (s : AuthService) (c : Ctx) (input : LoginInput) (user : User) (email ip ua : string)
  : prog (res authErr LoginResult) :=
  now <- call SNow ;;
  if is_locked_at now user then login_locked s input user ip "admin"
  else
    locked <- isAccountLocked s (UID user) ip ;;
    if locked then login_locked s input user ip "auto"
    else if Deleted user then login_deleted s input user ip
    else if ImportPending user then
      login_link s c input user ip "import_claim_sent:" "import_claim_required" ErrInvalidCredentials
    else if MustResetPassword user then
      login_link s c input user ip "forced_reset_sent:" "password_reset_required"
        (if LDiscloseStatus input then ErrPasswordResetRequired else ErrInvalidCredentials)
    else login_password s c input user email ip ua.

Definition login_body (s : AuthService) (t : Trap) (c : Ctx) (input : LoginInput) (email ip ua : string)
  : prog (res authErr LoginResult) :=
  throttleLogin s email ;;;
  iplocked <- isIPLocked s ip ;;
  if iplocked then
    log_event "login_failure" "" "" ip "ip_locked" ;;; Ret (Err ErrAccountLocked)
  else
    user <-! repo (SGetByEmail email) ;;
    if IsTrapUser s email then trapLogin s t c input email ip ua
    else match user with
         | None => login_unknown s input ip
         | Some user => login_known s c input user email ip ua
         end.

Definition Login (s : AuthService) (t : Trap) (c : Ctx) (input : LoginInput) (ip ua : string)
  : prog (res authErr LoginResult) :=
  metric s "login_attempt" ;;;
  let email := ToLower (TrimSpace (LEmail input)) in
  r <- login_body s t c input email ip ua ;;
  match r with
  | Ok _ => Ret r
  | Err ErrArgon2Overloaded => Ret r
  | Err _ => recordIdentityFailure s email ;;; Ret r
  end.

(** ** The second step *)
Record MFACompletion := mkMFACompletion { MMethod : string; MUserVerified : bool; MPrior : list string }.
Definition completion_methods (m : MFACompletion) : list string := (MPrior m ++ [MMethod m])%list.

(** The account states that refuse a second factor. *)
Definition mfa_refusal (now : Z) (user : User) : option authErr :=
  if Deleted user || MustResetPassword user || ImportPending user then Some ErrTokenInvalid
  else if Banned user then Some ErrAccountBanned
  else if Disabled user then Some ErrAccountDisabled
  else if is_locked_at now user then Some ErrAccountLocked
  else None.

(** The challenge is consumed once; a cache that cannot say is a refusal. *)
Definition consume_challenge (s : AuthService) (jti : string) : prog (res authErr unit) :=
  if has_cache s && negb (bool_decide (jti = "")) then
    r <- call (SSetIfNotExists ("challenge_used:" +:+ jti) "1" (5 * minute)) ;;
    Ret (match r with
         | Err e => Err (ErrCache e)
         | Ok false => Err ErrChallengeConsumed
         | Ok true => Ok tt
         end)
  else Ret (Ok tt).

Definition CompleteMFALogin (s : AuthService) (c : Ctx) (userID fingerprint ip jti : string)
    (completion : MFACompletion) : prog (res authErr LoginResult) :=
  _ <-! consume_challenge s jti ;;
  clearLockout s userID ip ;;;
  _ <-! checkSessionLimit s userID ;;
  deviceID <- findOrCreateDevice userID fingerprint ip ;;
  r <- call (SGetByID userID) ;;
  match r with
  | Ok (Some mfaUser) =>
      now <- call SNow ;;
      match mfa_refusal now mfaUser with
      | Some e => Ret (Err e)
      | None =>
          mfaRoles <- effectiveRoles s (Roles mfaUser) ;;
          pr <-! start_session s c userID mfaRoles "" deviceID fingerprint false
                   (completion_methods completion) (MUserVerified completion) ;;
          login_done s userID "" (Email mfaUser) ip "mfa_completed" pr
      end
  | _ => Ret (Err ErrTokenInvalid)
  end.

(** ** Email one-time codes *)
Definition emailOTPAllowed (s : AuthService) (userID : string) : prog bool :=
  if negb (has_mfaSvc s) then Ret false
  else
    r <- GetStatus userID ;;
    Ret (match r with Ok [] => mfaRequired s | _ => false end).

(** [fmt.Sprintf("%06d", binary.BigEndian.Uint32(b) % 1000000)] *)
Definition be32 (b : string) : Z :=
  match b with
  | String x (String y (String z (String t _))) =>
      code x * 2 ^ 24 + code y * 2 ^ 16 + code z * 2 ^ 8 + code t
  | _ => 0
  end.
Definition otp_code (b : string) : string := Sprintf06d (be32 b mod 1000000).

Definition doSendEmailOTP (s : AuthService) (userID emailAddr : string) : prog (res authErr unit) :=
  allowed <- emailOTPAllowed s userID ;;
  if negb allowed then Ret (Err ErrEmailOTPNotAllowed)
  else if negb (has_cache s) || negb (has_emailSender s) then Ret (Err ErrUnconfigured)
  else
    b <-! call SRandom ;;
    let code := otp_code b in
    let sig := HMACSign code (hmacSecret s) in
    r <- call (SSet ("email_otp:" +:+ userID) sig (5 * minute)) ;;
    match r with
    | Err e => Ret (Err (ErrCache e))
    | Ok _ => call (SSend "email_otp" emailAddr code)
    end.

Definition VerifyEmailOTP (s : AuthService) (userID code : string) : prog (res authErr unit) :=
  allowed <- emailOTPAllowed s userID ;;
  if negb allowed then Ret (Err ErrInvalidCredentials)
  else if negb (has_cache s) then Ret (Err ErrInvalidCredentials)
  else
    r <- call (SGetAndDelete ("email_otp:" +:+ userID)) ;;
    Ret (match r with
         | Ok sig => if negb (bool_decide (sig = "")) && HMACVerify code (hmacSecret s) sig
                     then Ok tt else Err ErrInvalidCredentials
         | Err _ => Err ErrInvalidCredentials
         end).

(** The deferred job behind a claim or forced-reset link: one per account and
    state per hour, each mint invalidating the last. *)
Definition importClaimTTL : Z := hour.
Definition sendResetLink_job (origin reserveKey urlSuffix userID emailAddr : string) : prog unit :=
  r <- call (SSetIfNotExists (reserveKey +:+ userID) "1" importClaimTTL) ;;
  match r with
  | Ok true =>
      old <- call (SGetAndDelete ("pwreset_user:" +:+ userID)) ;;
      (match old with
       | Ok h => if decide (h = "") then Ret tt else call (SDelete ("reset:" +:+ h)) ;;; Ret tt
       | Err _ => Ret tt
       end) ;;;
      t <- call SRandom ;;
      match t with
      | Err _ => Ret tt
      | Ok token =>
          r <- call (SSet ("reset:" +:+ SHA256Hex token) userID importClaimTTL) ;;
          match r with
          | Err _ => Ret tt
          | Ok _ =>
              call (SSet ("pwreset_user:" +:+ userID) (SHA256Hex token) importClaimTTL) ;;;
              call (SSend "password_reset" emailAddr (origin +:+ "/reset-password?token=" +:+ token +:+ urlSuffix)) ;;;
              Ret tt
          end
      end
  | _ => Ret tt
  end.

Definition ChallengeFingerprintMatches (userID challengeFP requestFP ip : string) : prog bool :=
  if decide (challengeFP = "") then Ret true
  else if CompareFingerprints challengeFP requestFP then Ret true
  else log_event "fingerprint_anomaly" userID "" ip "mfa_challenge" ;;; Ret false.
End login.
