(* ===== verification/SecondFactor.v ===== *)
(** * SecondFactor: the handlers of TOTP and backup codes

    Models internal/handler/totp.go, backup_codes.go, mfa_helper.go and
    mfa_revocation.go as programs over the service's stores.  The body of a
    request arrives decoded ([None] when decodeJSON refused it); an answer is a
    refusal with its status and code, or a reply.  The otpauth URL of a setup is
    a rendering of the secret it carries and is left out. *)
From S2P Require Import Prelude GoStd Bytes Base64 Cache Crypto Aes Totp Model TokenStore UserStore FactorStore Effects TokenService Lockout Session Login.
From Stdlib Require Import Ascii.
Open Scope string_scope.
Open Scope Z_scope.
Open Scope prog_scope.

Inductive answer (A : Type) := Refused (status : Z) (reason : string) | Replied (a : A).
Arguments Refused {A} _ _.
Arguments Replied {A} _.

(** What a handler reads of the request besides its body. *)
Record Caller := mkCaller {
  c_claims : option VaultClaims;  (** [middleware.GetClaims] *)
  c_ip : string;                  (** [middleware.ClientIP] *)
  c_fingerprint : string;         (** [ComputeFingerprint] of the request *)
  c_ctx : Ctx;
}.

(** Shared by both handlers: [None] is an unconfigured service. *)
Record FactorHandler := mkFactorHandler {
  authSvc : option AuthService;
  has_auditLog : bool;
  masterKey : string;
  hmacKey : string;
}.

Definition logEvent (h : FactorHandler) (c : Caller) (event userID detail : string) : prog unit :=
  if has_auditLog h then log_event event userID "" (c_ip c) detail else Ret tt.

Definition revokeSessionsAfterFactorChange (h : FactorHandler) (userID : string) : prog (res authErr unit) :=
  match authSvc h with None => Ret (Ok tt) | Some _ => RevokeAllTokensForUser userID end.

Definition factor_locked (h : FactorHandler) (userID ip : string) : prog bool :=
  match authSvc h with None => Ret false | Some s => MFAVerifyLocked s userID ip end.
Definition factor_failed (h : FactorHandler) (userID ip : string) : prog unit :=
  match authSvc h with None => Ret tt | Some s => RecordMFAFailure s userID ip end.

Inductive verified := VerifiedResponse | Completed (r : LoginResult).

(** The refusals of [CompleteMFALogin], mapped in the order of the switch. *)
Definition mfa_error (e : authErr) : Z * string :=
  if decide (e = ErrChallengeConsumed) then (401, "challenge_consumed")
  else if decide (unwrap e = ErrTokenInvalid) then (401, "invalid_token")
  else if decide (e = ErrAccountLocked) then (403, "account_locked")
  else if decide (e = ErrAccountBanned) then (403, "account_banned")
  else if decide (e = ErrAccountDisabled) then (403, "account_disabled")
  else if decide (e = ErrTooManySessions) then (429, "too_many_sessions")
  else (500, "internal_error").

Section handlers.
Context `{Primitives} `{AEAD} `{HMACSHA1}.

(** [None]: not a challenge, the caller goes on with its own response. *)
Definition completeMFAIfChallenge (h : FactorHandler) (c : Caller) (claims : VaultClaims) (method : string)
  : prog (option (answer verified)) :=
  if negb (bool_decide (TokenType claims = "2fa_challenge")) then Ret None
  else match authSvc h with
  | None => Ret None
  | Some s =>
      ok <- ChallengeFingerprintMatches (Subject claims) (CFingerprint claims) (c_fingerprint c) (c_ip c) ;;
      if negb ok then Ret (Some (Refused 401 "invalid_token"))
      else
        r <- CompleteMFALogin s (c_ctx c) (Subject claims) (c_fingerprint c) (c_ip c) (JTI claims)
               (mkMFACompletion method false (Crypto.Factors claims)) ;;
        Ret (Some (match r with
                   | Ok x => Replied (Completed x)
                   | Err e => let '(st, m) := mfa_error e in Refused st m
                   end))
  end.

(** A verified factor: the challenge is completed, or the factor confirmed. *)
Definition factor_verified (h : FactorHandler) (c : Caller) (claims : VaultClaims) (method : string)
  : prog (answer verified) :=
  logEvent h c "2fa_verify" (Subject claims) method ;;;
  r <- completeMFAIfChallenge h c claims method ;;
  Ret (match r with Some a => a | None => Replied VerifiedResponse end).

(** ** TOTP *)
(** [Encrypt] with the nonce it draws. *)
Definition seal_secret (plaintext key aad : string) : prog (option string) :=
  if negb (String.length key =? 32)%nat then Ret None
  else
    n <- call SRandom ;;
    Ret (match n with Ok n => Encrypt plaintext key aad (Some n) | Err _ => None end).

(** A fresh unverified secret, from the draw to the answer. *)
Definition totp_enrol (h : FactorHandler) (userID : string) : prog (answer string) :=
  draw <- call SRandom ;;
  match draw with
  | Err _ => Ret (Refused 500 "internal_error")
  | Ok b =>
      let secret := b32_encode b in
      e <- seal_secret secret (masterKey h) userID ;;
      match e with
      | None => Ret (Refused 500 "internal_error")
      | Some encrypted =>
          i <- call SRandom ;;
          match i with
          | Err _ => Ret (Refused 500 "internal_error")
          | Ok id =>
              now <- call SNow ;;
              r <- call (STotpCreate (mkTOTPSecret id userID (hex_encode encrypted) false now)) ;;
              match r with
              | Err _ => Ret (Refused 500 "internal_error")
              | Ok _ =>
                  r <- revokeSessionsAfterFactorChange h userID ;;
                  Ret (match r with Err _ => Refused 500 "internal_error" | Ok _ => Replied secret end)
              end
          end
      end
  end.

Definition TOTPSetup (h : FactorHandler) (c : Caller) : prog (answer string) :=
  match c_claims c with
  | None => Ret (Refused 401 "unauthorized")
  | Some claims =>
      r <- call (STotpGet (Subject claims)) ;;
      let existing := match r with Ok x => x | Err _ => None end in
      if match existing with Some t => Verified t | None => false end
      then Ret (Refused 409 "totp_already_setup")
      else
        (match existing with Some _ => call (STotpDelete (Subject claims)) ;;; Ret tt | None => Ret tt end) ;;;
        totp_enrol h (Subject claims)
  end.

Definition totp_used_key (userID : string) (step : Z) : string :=
  "totp_used:" +:+ userID +:+ ":" +:+ FormatInt step.
Definition totp_used_ttl : Z := 90 * second.

(** After the code matched [step]: reserve the step, note the enrolment. *)
Definition totp_accept (h : FactorHandler) (c : Caller) (claims : VaultClaims) (totp : TOTPSecret) (step : Z)
  : prog (answer verified) :=
  r <- call (SSetIfNotExists (totp_used_key (Subject claims) step) "1" totp_used_ttl) ;;
  match r with
  | Ok true =>
      (if Verified totp then Ret tt
       else call (STotpMarkVerified (SID totp)) ;;; logEvent h c "2fa_setup" (Subject claims) "totp:enrolled") ;;;
      factor_verified h c claims MethodTOTP
  | _ => Ret (Refused 429 "totp_code_already_used")
  end.

Definition TOTPVerify (h : FactorHandler) (c : Caller) (body : option string) : prog (answer verified) :=
  match c_claims c with
  | None => Ret (Refused 401 "unauthorized")
  | Some claims =>
      locked <- factor_locked h (Subject claims) (c_ip c) ;;
      if locked then Ret (Refused 429 "account_locked")
      else match body with
      | None => Ret (Refused 400 "invalid_code")
      | Some presented =>
          if negb (isValidTOTPCode presented) then Ret (Refused 400 "invalid_code")
          else
            r <- call (STotpGet (Subject claims)) ;;
            match r with
            | Ok (Some totp) =>
                match hex_decode (SecretEnc totp) ≫= (λ e, Decrypt e (masterKey h) (Subject claims)) with
                | None => Ret (Refused 500 "internal_error")
                | Some secret =>
                    now <- call SNow ;;
                    let step := match ValidateTOTPCode secret presented now with Ok k => k | Err _ => -1 end in
                    if step <? 0 then
                      factor_failed h (Subject claims) (c_ip c) ;;; Ret (Refused 401 "invalid_code")
                    else totp_accept h c claims totp step
                end
            | _ => Ret (Refused 404 "totp_not_setup")
            end
      end
  end.

Definition TOTPDisable (h : FactorHandler) (c : Caller) : prog (answer unit) :=
  match c_claims c with
  | None => Ret (Refused 401 "unauthorized")
  | Some claims =>
      r <- call (STotpGet (Subject claims)) ;;
      match r with
      | Ok (Some _) =>
          d <- call (STotpDelete (Subject claims)) ;;
          match d with
          | Err _ => Ret (Refused 500 "internal_error")
          | Ok _ =>
              logEvent h c "2fa_setup" (Subject claims) "totp:removed" ;;;
              r <- revokeSessionsAfterFactorChange h (Subject claims) ;;
              Ret (match r with Err _ => Refused 500 "internal_error" | Ok _ => Replied tt end)
          end
      | _ => Ret (Refused 404 "totp_not_setup")
      end
  end.

(** ** Backup codes *)
Definition backupCodeCount : nat := 10.

(** The generating loop: each round draws a code and an id. *)
Fixpoint draw_codes (h : FactorHandler) (userID : string) (now : Z) (n : nat) : prog (option (list (string * BackupCode))) :=
  match n with
  | O => Ret (Some [])
  | S n' =>
      r <- call SRandom ;;
      match r with
      | Err _ => Ret None
      | Ok b =>
          i <- call SRandom ;;
          match i with
          | Err _ => Ret None
          | Ok id =>
              rest <- draw_codes h userID now n' ;;
              Ret (match rest with
                   | None => None
                   | Some l => Some ((hex_encode b, mkBackupCode id userID (HMACSign (hex_encode b) (hmacKey h)) false None now) :: l)
                   end)
          end
      end
  end.

Definition BackupGenerate (h : FactorHandler) (c : Caller) : prog (answer (list string)) :=
  match c_claims c with
  | None => Ret (Refused 401 "unauthorized")
  | Some claims =>
      r <- call (SCodesInvalidate (Subject claims)) ;;
      match r with
      | Err _ => Ret (Refused 500 "internal_error")
      | Ok _ =>
          now <- call SNow ;;
          d <- draw_codes h (Subject claims) now backupCodeCount ;;
          match d with
          | None => Ret (Refused 500 "internal_error")
          | Some l =>
              r <- call (SCodesCreate (snd <$> l)) ;;
              match r with
              | Err _ => Ret (Refused 500 "internal_error")
              | Ok _ =>
                  logEvent h c "2fa_setup" (Subject claims) "backup_code:enrolled" ;;;
                  r <- revokeSessionsAfterFactorChange h (Subject claims) ;;
                  Ret (match r with Err _ => Refused 500 "internal_error" | Ok _ => Replied (fst <$> l) end)
              end
          end
      end
  end.

(** Every code is compared; the last match wins. *)
Definition matched_id (h : FactorHandler) (presented : string) (codes : list BackupCode) : string :=
  fold_left (λ acc c, if HMACVerify presented (hmacKey h) (CodeHash c) then BID c else acc) codes "".

Definition BackupVerify (h : FactorHandler) (c : Caller) (body : option string) : prog (answer verified) :=
  match c_claims c with
  | None => Ret (Refused 401 "unauthorized")
  | Some claims =>
      locked <- factor_locked h (Subject claims) (c_ip c) ;;
      if locked then Ret (Refused 429 "account_locked")
      else if decide (default "" body = "") then Ret (Refused 400 "code_required")
      else
        r <- call (SCodesUnused (Subject claims)) ;;
        match r with
        | Err _ => Ret (Refused 500 "internal_error")
        | Ok codes =>
            let matchedID := matched_id h (default "" body) codes in
            if decide (matchedID = "") then
              factor_failed h (Subject claims) (c_ip c) ;;; Ret (Refused 401 "invalid_backup_code")
            else
              u <- call (SCodesMarkUsed matchedID) ;;
              match u with
              | Err _ => Ret (Refused 500 "internal_error")
              | Ok false => Ret (Refused 409 "backup_code_already_used")
              | Ok true => factor_verified h c claims MethodBackupCode
              end
        end
  end.
End handlers.
