(* ===== verification/BlobHandler.v ===== *)
(** * BlobHandler: the endpoints of the object store

    Models internal/handler/blob.go.  The body of an upload arrives read:
    [None] when it exceeded the limit or the transfer broke.  Labels and names
    are byte strings; where the code ranges over runes it is [Runes.runes]. *)
From S2P Require Import Prelude GoStd Bytes Json JsonEnc Runes Cache Crypto NetIP Aes Model TokenStore PersonalStore Effects Random TokenService Lockout Session Login SecondFactor StoreWp Blob.
From stdpp Require Import list.
From Stdlib Require Import Ascii.
Open Scope string_scope.
Open Scope Z_scope.
Open Scope prog_scope.

(** ** Names, labels and the download header *)
Definition name_char (c : ascii) : bool :=
  let n := code c in
  (97 <=? n) && (n <=? 122) || (65 <=? n) && (n <=? 90) || (48 <=? n) && (n <=? 57) || (n =? 95) || (n =? 45).
(** A rune in the set is one byte; any other fails the test at its first byte. *)
Definition validRefName (name : string) : bool := all_chars name_char name.

Definition maxDispositionFilename : nat := 128.
Definition dispositionFallbackName : string := "blob".
Definition file_char (c : ascii) : bool := name_char c || (code c =? 46).
(** [room]: what is left of the 128 bytes. *)
Fixpoint keep_chars (room : nat) (s : string) : string :=
  match room, s with
  | O, _ | _, "" => ""
  | S room', String c r => if file_char c then String c (keep_chars room' r) else keep_chars room r
  end.
Definition contentDispositionFilename (ref : string) : string :=
  let b := keep_chars maxDispositionFilename ref in
  if decide (b = "") then dispositionFallbackName else b.
Definition attachmentDisposition (ref : string) : string :=
  "attachment; filename=" +:+ String quote (contentDispositionFilename ref +:+ String quote "").

Definition control (r : string) : bool := match r with String c _ => code c <? 32 | "" => false end.
Definition sanitizeLabelForHeader (label : string) : string :=
  of_runes (filter (λ r, control r = false) (runes label)).
(** [None]: the label is refused. *)
Definition clean_label (label : string) : option string :=
  let label := TrimSpace label in
  if existsb control (runes label) then None
  else Some (if (255 <? RuneCount label)%nat then of_runes (take 255 (runes label)) else label).

(** ** Handlers *)
Record BlobHandler := mkBlobHandler { svc : BlobService; bh_auditLog : bool; minBlobSize : Z; maxBlobSize : Z }.

(** Headers and body of a download. *)
Record BlobFile := mkBlobFile {
  ContentLength : Z; XBlobChecksum : string; ContentDisposition : string; XBlobLabel : string; Body : string
}.
Inductive blobAnswer :=
| BlobUploadResponse (status : Z) (id label : string) (size stored : Z) (checksum : string) (createdAt : Z)
| BlobListResponse (l : list BlobMeta) (count : Z) (quota : Z * Z * Z * Z)
| BlobDownload (f : BlobFile)
| BlobDeleted.

Definition blob_audit (h : BlobHandler) (c : Caller) (event userID detail : string) : prog unit :=
  if bh_auditLog h then log_event event userID "" (c_ip c) detail else Ret tt.

Definition writeUploadError (e : blobErr) : answer blobAnswer :=
  match e with
  | ErrBlobTooSmall => Refused 400 "blob_too_small"
  | ErrBlobTooLarge => Refused 413 "blob_too_large"
  | ErrQuotaExceeded => Refused 409 "quota_exceeded"
  | _ => Refused 500 "internal_error"
  end.

Section handlers.
Context `{Primitives} `{AEAD} `{Deflate}.

(** The checks every upload shares before the service is called. *)
Definition check_body (h : BlobHandler) (body : option string) (k : string → prog (answer blobAnswer)) : prog (answer blobAnswer) :=
  match body with
  | None => Ret (Refused 413 "blob_too_large")
  | Some data =>
      if decide (data = "") then Ret (Refused 400 "empty_blob")
      else if (0 <? minBlobSize h) && (strlen data <? minBlobSize h) then Ret (Refused 400 "blob_too_small")
      else k data
  end.
Definition answer_upload (h : BlobHandler) (c : Caller) (userID event label : string) (status : Z) (r : res blobErr Blob)
  : prog (answer blobAnswer) :=
  match r with
  | Err e => Ret (writeUploadError e)
  | Ok b =>
      blob_audit h c event userID (BlobID b) ;;;
      Ret (Replied (BlobUploadResponse status (BlobID b) label (SizeBytes b) (StoredBytes b) (Checksum b) (BlobCreatedAt b)))
  end.

(** A multipart body that does not parse is the failed read; [None] inside it a
    form without a file. *)
Inductive upload_body := Raw (data : option string) (label : string) | Multipart (form : option (option (option string) * string)).
Definition HUpload (h : BlobHandler) (c : Caller) (body : upload_body) : prog (answer blobAnswer) :=
  match c_claims c with
  | None => Ret (Refused 401 "unauthorized")
  | Some claims =>
      let go data label :=
        check_body h data (λ data,
          match clean_label label with
          | None => Ret (Refused 400 "invalid_label")
          | Some label =>
              r <- Upload (svc h) (Subject claims) data label ;;
              answer_upload h c (Subject claims) "blob_upload" label 201 r
          end) in
      match body with
      | Raw data label => go data label
      | Multipart None => Ret (Refused 413 "blob_too_large")
      | Multipart (Some (None, _)) => Ret (Refused 400 "missing_file")
      | Multipart (Some (Some data, label)) => go data label
      end
  end.

Definition HUploadNamed (h : BlobHandler) (c : Caller) (name : string) (body : option string) : prog (answer blobAnswer) :=
  match c_claims c with
  | None => Ret (Refused 401 "unauthorized")
  | Some claims =>
      if decide (name = "") then Ret (Refused 400 "missing_name")
      else if (255 <? RuneCount name)%nat then Ret (Refused 400 "name_too_long")
      else if negb (validRefName name) then Ret (Refused 400 "invalid_name")
      else check_body h body (λ data,
        r <- UploadNamed (svc h) (Subject claims) data name ;;
        answer_upload h c (Subject claims) "blob_upload_named" name 200 r)
  end.

Definition blob_file (ref : string) (x : string * string * string) : BlobFile :=
  let '(data, label, checksum) := x in
  mkBlobFile (strlen data) checksum (attachmentDisposition ref) (if decide (label = "") then "" else sanitizeLabelForHeader label) data.
Definition answer_download (h : BlobHandler) (c : Caller) (userID event detail ref : string)
    (r : res blobErr (option (string * string * string))) : prog (answer blobAnswer) :=
  match r with
  | Err _ => Ret (Refused 500 "internal_error")
  | Ok None => Ret (Refused 404 "blob_not_found")
  | Ok (Some x) =>
      blob_audit h c event userID detail ;;; Ret (Replied (BlobDownload (blob_file ref x)))
  end.
Definition HDownloadNamed (h : BlobHandler) (c : Caller) (name : string) : prog (answer blobAnswer) :=
  match c_claims c with
  | None => Ret (Refused 401 "unauthorized")
  | Some claims =>
      if decide (name = "") then Ret (Refused 400 "missing_name")
      else r <- DownloadNamed (svc h) (Subject claims) name ;;
           answer_download h c (Subject claims) "blob_download_named" "named" name r
  end.
Definition HDownload (h : BlobHandler) (c : Caller) (blobID : string) : prog (answer blobAnswer) :=
  match c_claims c with
  | None => Ret (Refused 401 "unauthorized")
  | Some claims =>
      if decide (blobID = "") then Ret (Refused 400 "missing_id")
      else r <- Download (svc h) (Subject claims) blobID ;;
           answer_download h c (Subject claims) "blob_download" blobID blobID r
  end.

Definition answer_delete (h : BlobHandler) (c : Caller) (userID event detail : string) (r : res blobErr unit) : prog (answer blobAnswer) :=
  match r with
  | Err ErrBlobNotFound => Ret (Refused 404 "blob_not_found")
  | Err _ => Ret (Refused 500 "internal_error")
  | Ok _ => blob_audit h c event userID detail ;;; Ret (Replied BlobDeleted)
  end.
Definition HDeleteNamed (h : BlobHandler) (c : Caller) (name : string) : prog (answer blobAnswer) :=
  match c_claims c with
  | None => Ret (Refused 401 "unauthorized")
  | Some claims =>
      if decide (name = "") then Ret (Refused 400 "missing_name")
      else r <- DeleteNamed (svc h) (Subject claims) name ;; answer_delete h c (Subject claims) "blob_delete_named" "named" r
  end.
Definition HDelete (h : BlobHandler) (c : Caller) (blobID : string) : prog (answer blobAnswer) :=
  match c_claims c with
  | None => Ret (Refused 401 "unauthorized")
  | Some claims =>
      if decide (blobID = "") then Ret (Refused 400 "missing_id")
      else r <- DeleteBlob (svc h) (Subject claims) blobID ;; answer_delete h c (Subject claims) "blob_delete" blobID r
  end.

Definition HList (h : BlobHandler) (c : Caller) : prog (answer blobAnswer) :=
  match c_claims c with
  | None => Ret (Refused 401 "unauthorized")
  | Some claims =>
      r <- BlobList (svc h) (Subject claims) ;;
      Ret (match r with
           | Err _ => Refused 500 "internal_error"
           | Ok (metas, quota) => Replied (BlobListResponse metas (Z.of_nat (length metas)) quota)
           end)
  end.
End handlers.

(** ** Facts *)
Lemma keep_chars_spec room s :
  all_chars file_char (keep_chars room s) = true ∧ (String.length (keep_chars room s) ≤ room)%nat.
Proof.
  revert room. induction s as [|c s IH]; intros [|room]; cbn [keep_chars]; try (split; [done|cbn; lia]).
  destruct (file_char c) eqn:E; [|apply IH]. cbn. rewrite E. destruct (IH room) as [-> Hl]. split; [done|lia].
Qed.
Lemma keep_chars_id room s : all_chars file_char s = true → (String.length s ≤ room)%nat → keep_chars room s = s.
Proof.
  revert room. induction s as [|c s IH]; intros [|room] Hs Hl; cbn in *; try done; [lia|].
  apply andb_true_iff in Hs as [-> Hs]. by rewrite IH by (done || lia).
Qed.
Lemma valid_is_file s : validRefName s = true → all_chars file_char s = true.
Proof.
  unfold validRefName. induction s as [|c s IH]; [done|]. cbn. intros [Hc Hs]%andb_true_iff.
  unfold file_char at 1. rewrite Hc. by apply IH.
Qed.

(** Whatever reference a download was asked for, the filename of its header
    is 1 to 128 letters, digits, dots, dashes and underscores, so it can end
    neither the quoted string nor the header; a name an upload accepted and that
    fits is kept as it is. *)
Theorem disposition_is_inert ref :
  let f := contentDispositionFilename ref in
  all_chars file_char f = true ∧ (1 ≤ String.length f ≤ maxDispositionFilename)%nat ∧
  (validRefName ref = true → ref ≠ "" → (String.length ref ≤ maxDispositionFilename)%nat → f = ref).
Proof.
  unfold contentDispositionFilename. cbv zeta. destruct (keep_chars_spec maxDispositionFilename ref) as [Ha Hl].
  split_and!.
  - case_decide; [by vm_compute|done].
  - case_decide as Hd; [cbn; lia|]. destruct (keep_chars _ ref); [done|cbn in *; lia].
  - case_decide as Hd; [unfold maxDispositionFilename; cbn [dispositionFallbackName String.length]; lia|done].
  - intros Hv Hn Hf. rewrite keep_chars_id in * by (done || by apply valid_is_file). by rewrite decide_False.
Qed.
