(* ===== verification/Erasure.v ===== *)
(** * Erasure: account deletion with escrow

    Models internal/service/erasure.go ([ErasureService]: escrow, tombstone,
    then the cascade over every store) and the handlers that start it
    ([AccountHandler.Delete] of internal/handler/account.go and
    [Handler.DeleteUser] of internal/adminapi/handler.go).  The cascade is the list of its statements in
    the order the code issues them; the optional stores appear when they are
    configured. *)
From S2P Require Import Prelude GoStd Bytes GoTime Json JsonEnc Cache Crypto NetIP Aes Model TokenStore UserStore FactorStore Rbac AdminStore PersonalStore Effects Random TokenService Lockout Session Login SecondFactor.
From Stdlib Require Import Ascii.
Open Scope string_scope.
Open Scope Z_scope.
Open Scope prog_scope.

Inductive eraseErr := ErrUserNotFound | ErasureFailed (step : string).
#[export] Instance eraseErr_eq_dec : EqDecision eraseErr.
Proof. solve_decision. Defined.

Record ErasureService := mkErasureService {
  recoveryPub : option string;
  er_hmacSecret : string;
  has_svcDocs : bool;
  has_loginCountries : bool;
  has_auditLog : bool;
}.

(** [maskEmail]: the first byte of the local part, three stars, the domain. *)
Fixpoint last_at (s : string) : option nat :=
  match s with
  | "" => None
  | String c r => match last_at r with
                  | Some n => Some (S n)
                  | None => if code c =? 64 then Some O else None
                  end
  end.
Definition maskEmail (addr : string) : string :=
  match last_at addr with
  | None | Some O => "***"
  | Some at_ => take_str 1 addr +:+ "***" +:+ drop_str at_ addr
  end.

(** [CanonicalSubject]: the sentinel as it is, any other subject folded. *)
Definition GlobalSubject : string := "_global".
Definition CanonicalSubject (subject : string) : string :=
  if decide (subject = GlobalSubject) then subject else ToLower subject.

Definition recoveryPayloadVersion : Z := 2.
(** [json.Marshal(recoveryPayload{...})]; an error for a date JSON cannot hold. *)
Definition recovery_json (user : User) (created : string) : json :=
  JObj [("v", JNum (FormatInt recoveryPayloadVersion)); ("user_id", JStr (UID user)); ("email", JStr (Email user));
        ("created_at", JStr created); ("roles", JArr (JStr <$> Roles user));
        ("display_name", JStr (DisplayName (Profile user)))].
Definition recoveryPayload (user : User) : option string :=
  created ← FormatRFC3339 (UCreatedAt (Profile user)); Some (Marshal (recovery_json user created)).

Definition tombstone_of (userID : string) : string := "deleted-" +:+ userID +:+ "@deleted.invalid".

Section erasure.
Context `{Primitives} `{AEAD} `{OAEP}.

Definition identityPseudonym (s : ErasureService) (userID : string) : string := HMACSign (userID +:+ ":identity") (er_hmacSecret s).
Definition blobPseudonym (s : ErasureService) (userID : string) : string := HMACSign (userID +:+ ":objects") (er_hmacSecret s).
Definition recoveryPseudonym (s : ErasureService) (userID : string) : string := HMACSign (userID +:+ ":recovery") (er_hmacSecret s).
Definition svcDocPseudonym (s : ErasureService) (userID : string) : string :=
  HMACSign (CanonicalSubject userID +:+ ":svcdoc") (er_hmacSecret s).

(** [vaultcrypto.EncryptRecovery] with the draws it makes: the AES key, the
    nonce, the padding. *)
Definition seal_recovery (pub payload binding : string) : prog (option string) :=
  k <- RandomBytes 32 ;; n <- RandomBytes nonceSize ;; r <- call SRandom ;;
  Ret (match k, n, r with
       | Ok k, Ok n, Ok r => EncryptRecovery pub payload binding k (Some n) r
       | _, _, _ => None
       end).

Definition escrow (s : ErasureService) (pub : string) (user : User) (deletedBy reason : string) : prog (res eraseErr unit) :=
  id <- RandomUUID ;;
  match id with
  | Err _ => Ret (Err (ErasureFailed "recovery record id"))
  | Ok id =>
      let pseudonym := recoveryPseudonym s (UID user) in
      match recoveryPayload user with
      | None => Ret (Err (ErasureFailed "marshal recovery payload"))
      | Some payload =>
          enc <- seal_recovery pub payload (RecoveryBinding id pseudonym) ;;
          match enc with
          | None => Ret (Err (ErasureFailed "encrypt recovery payload"))
          | Some enc =>
              now <- call SNow ;;
              r <- call (SPersonal (λ _ _, RecoveryAppend (mkAccountRecovery id pseudonym enc now deletedBy reason))) ;;
              Ret (match r with Ok _ => Ok tt | Err _ => Err (ErasureFailed "append recovery record") end)
          end
      end
  end.

(** Statements on the tables of personal data that cannot fail by themselves. *)
Definition purge (f : PersonalDB → PersonalDB) : stmt (res repoErr unit) := SPersonal (λ _ _ d, (Ok tt, f d)).

Definition cascade (s : ErasureService) (userID : string) : list (string * stmt (res repoErr unit)) :=
  [("delete identity", purge (ProfileDelete (identityPseudonym s userID)));
   ("delete blobs", purge (DeleteAllForPseudonym (blobPseudonym s userID)))] ++
  (if has_svcDocs s then [("delete service documents", purge (DeleteAllForSubject (svcDocPseudonym s userID)))] else []) ++
  [("delete devices", SDevicesDelete userID);
   ("delete social accounts", purge (SocialDeleteAllForUser userID));
   ("delete password history", purge (HistoryDeleteAllForUser userID))] ++
  (if has_loginCountries s then [("delete login countries", SPersonal (λ _ d, EraseLoginCountries userID d))] else []) ++
  [("delete totp secret", STotpDelete userID);
   ("delete webauthn credentials", SPasskeysDelete userID);
   ("purge backup codes", SCodesPurge userID);
   ("delete tokens", STokensDelete userID)].

Fixpoint run_cascade (l : list (string * stmt (res repoErr unit))) : prog (res eraseErr unit) :=
  match l with
  | [] => Ret (Ok tt)
  | (name, st) :: l' =>
      r <- call st ;;
      match r with Err _ => Ret (Err (ErasureFailed name)) | Ok _ => run_cascade l' end
  end.

(** Escrow, when configured, then the tombstone. *)
Definition bury (s : ErasureService) (user : User) (userID deletedBy reason : string) : prog (res eraseErr unit) :=
  e <- (match recoveryPub s with None => Ret (Ok tt) | Some pub => escrow s pub user deletedBy reason end) ;;
  match e with
  | Err e => Ret (Err e)
  | Ok _ =>
      r <- call (SUsers (λ _ d, (tt, users (SoftDeleteScrub userID (tombstone_of userID) d)))) ;;
      Ret (match r with Ok _ => Ok tt | Err _ => Err (ErasureFailed "scrub user") end)
  end.

Definition DeleteAccount (s : ErasureService) (userID deletedBy reason : string) : prog (res eraseErr unit) :=
  u <- call (SGetByID userID) ;;
  match u with
  | Err _ => Ret (Err (ErasureFailed "load user"))
  | Ok None => Ret (Err ErrUserNotFound)
  | Ok (Some user) =>
      let tombstoned := negb (Deleted user) in
      b <- (if tombstoned then bury s user userID deletedBy reason else Ret (Ok tt)) ;;
      match b with
      | Err e => Ret (Err e)
      | Ok _ =>
          c <- run_cascade (cascade s userID) ;;
          match c with
          | Err e => Ret (Err e)
          | Ok _ =>
              (if has_auditLog s
               then log_event "account_erased" userID deletedBy "" (if tombstoned then maskEmail (Email user) else "retry")
               else Ret tt) ;;;
              Ret (Ok tt)
          end
      end
  end.

(** ** Handlers *)
(** DELETE /user/account: the subject of the access token and the decoded
    password, [None] for a body that does not decode. *)
Definition AccountDelete (s : ErasureService) (pepper : string) (subject : option string) (password : option string) (ip : string)
  : prog (answer unit) :=
  match subject with
  | None => Ret (Refused 401 "unauthorized")
  | Some sub =>
      match password with
      | None | Some "" => Ret (Refused 401 "password_required")
      | Some pw =>
          u <- call (SGetByID sub) ;;
          match u with
          | Err _ | Ok None => Ret (Refused 401 "unauthorized")
          | Ok (Some user) =>
              v <- call (SVerify pw (PasswordHash user) pepper) ;;
              match v with
              | Err Argon2Overloaded => Ret (Refused 503 "server_busy")
              | Ok true =>
                  r <- DeleteAccount s sub "self" "user_request" ;;
                  Ret (match r with
                       | Ok _ => Replied tt
                       | Err ErrUserNotFound => Refused 404 "not_found"
                       | Err _ => Refused 500 "internal_error"
                       end)
              | _ =>
                  (if has_auditLog s then log_event "login_failure" sub "" ip "account_delete_wrong_password" else Ret tt) ;;;
                  Ret (Refused 401 "invalid_password")
              end
          end
      end
  end.

(** DELETE /admin/users/{id}, behind the permission check of the router. *)
Definition DeleteUser (erasure : option ErasureService) (adminID id ip : string) : prog (answer unit) :=
  if decide (id = "") then Ret (Refused 400 "missing_id")
  else match erasure with
       | None => Ret (Refused 503 "erasure_unavailable")
       | Some s =>
           r <- DeleteAccount s id ("admin:" +:+ adminID) "admin_request" ;;
           match r with
           | Err ErrUserNotFound => Ret (Refused 404 "user_not_found")
           | Err _ => Ret (Refused 500 "internal_error")
           | Ok _ => log_event "admin_user_delete" adminID id ip "" ;;; Ret (Replied tt)
           end
       end.
End erasure.
