(* ===== verification/Register.v ===== *)
(** * Register: new accounts and their verification

    Models internal/service/hibp.go ([IsBreached]), [AuthService.Register] and
    the verification mail of internal/service/auth.go, and the handlers
    [Register] and [VerifyEmail] of internal/handler/auth.go.  The network of
    the breach check is a function from the prefix sent to the answer, [None]
    for a request that failed or a full semaphore. *)
From S2P Require Import Prelude GoStd Bytes Json Url JsonEnc Runes Cache Crypto NetIP Aes Model TokenStore UserStore PersonalStore Effects Random TokenService Lockout Session Login SecondFactor Erasure Sanitize StoreWp.
From stdpp Require Import list.
From Stdlib Require Import Ascii.
Open Scope string_scope.
Open Scope Z_scope.
Open Scope prog_scope.

(** ** Breached passwords *)
Class SHA1 := { sha1_hex : string → string (** [fmt.Sprintf("%X", sha1.Sum(...))] *) }.
(** [strings.Split(body, "\r\n")] *)
Fixpoint split_crlf (s : string) : list string :=
  match s with
  | "" => [""]
  | String c ((String d r) as t) =>
      if (code c =? 13) && (code d =? 10) then "" :: split_crlf r
      else match split_crlf t with x :: l => String c x :: l | [] => [String c ""] end
  | String c "" => [String c ""]
  end.
Definition range_limit : Z := 2 ^ 20.
Definition line_matches (suffix line : string) : bool :=
  match Cut 58 line with Some (h, _) => bool_decide (ToUpper h = ToUpper suffix) | None => false end.
Definition IsBreached `{SHA1} (range : string → option (Z * string)) (password : string) : bool :=
  let hash := sha1_hex password in
  match range (take_str 5 hash) with
  | None => false
  | Some (status, body) =>
      if negb (status =? 200) then false
      else
        let body := if range_limit <? Z.of_nat (String.length body) then take_str (Z.to_nat range_limit) body else body in
        existsb (line_matches (drop_str 5 hash)) (split_crlf body)
  end.

Inductive registerErr :=
| RInvalidInput | RPasswordTooShort | RPasswordBreached | REmailTaken | ROverloaded | RFailed.
#[export] Instance registerErr_eq_dec : EqDecision registerErr.
Proof. solve_decision. Defined.

Record RegisterInput := mkRegisterInput {
  RIEmail : string; RIPassword : string; RIDisplayName : string; RILocale : string; RIRedirectTo : string
}.
(** What registration reads of [AuthService] besides its common part. *)
Record Registrar := mkRegistrar {
  base : AuthService;
  minPwLength : Z;
  hibp : option (string → option (Z * string));  (** the client, when enabled *)
  rg_origin : string;
  rg_auditLog : bool;  (** consulted by the verification mail alone *)
}.

Section register.
Context `{Primitives} `{SHA1} `{MailParser}.

Definition breached (h : option (string → option (Z * string))) (password : string) : bool :=
  match h with Some range => IsBreached range password | None => false end.

Definition SendSignupVerification (s : Registrar) (to userID redirectTo : string) : prog unit :=
  if negb (has_cache (base s)) || negb (has_emailSender (base s)) then Ret tt
  else call (SEmit (Deferred (JobVerification to userID redirectTo))).

Definition auditVerificationNotSent (s : Registrar) (userID to reason : string) : prog unit :=
  if rg_auditLog s then log_event "registration" userID "" "" ("verification_email_not_sent:" +:+ reason +:+ ":" +:+ maskEmail to) else Ret tt.
(** The deferred job. *)
Definition sendVerificationEmail (s : Registrar) (to userID redirectTo : string) : prog unit :=
  token <- RandomHex 32 ;;
  match token with
  | Err _ => auditVerificationNotSent s userID to "token_generation_failed"
  | Ok token =>
      r <- call (SSet ("verify:" +:+ SHA256Hex token) userID (24 * hour)) ;;
      match r with
      | Err _ => auditVerificationNotSent s userID to "token_store_failed"
      | Ok _ =>
          let verifyURL := rg_origin s +:+ "/verify-email?token=" +:+ token in
          let verifyURL := if decide (redirectTo = "") then verifyURL else verifyURL +:+ "&redirect=" +:+ QueryEscape redirectTo in
          r <- call (SSend "verification" to verifyURL) ;;
          match r with
          | Err _ => auditVerificationNotSent s userID to "delivery_failed"
          | Ok _ => Ret tt
          end
      end
  end.

(** [&model.User{...}]: everything not given is zero. *)
Definition new_account (userID email hash displayName locale : string) (now : Z) : User :=
  mkUser userID email false hash None 0 [] false false None false false false
    (mkUserProfile displayName "" locale false "" "" "" now).

Definition Register (s : Registrar) (input : RegisterInput) (ip : string) : prog (res registerErr string) :=
  let email := ToLower (TrimSpace (RIEmail input)) in
  if negb (Email_ email) then Ret (Err RInvalidInput)
  else if Z.of_nat (RuneCount (RIPassword input)) <? minPwLength s then Ret (Err RPasswordTooShort)
  else if breached (hibp s) (RIPassword input) then Ret (Err RPasswordBreached)
  else
    existing <- call (SGetByEmail email) ;;
    match existing with
    | Err _ => Ret (Err RFailed)
    | Ok (Some _) =>
        v <- call (SVerify (RIPassword input) (dummyHash (base s)) (pepper (base s))) ;;
        Ret (Err (match v with Err Argon2Overloaded => ROverloaded | _ => REmailTaken end))
    | Ok None =>
        hash <- call (SHash (RIPassword input) (pepper (base s))) ;;
        match hash with
        | Err _ => Ret (Err ROverloaded)
        | Ok hash =>
            id <- RandomUUID ;;
            match id with
            | Err _ => Ret (Err RFailed)
            | Ok userID =>
                now <- call SNow ;;
                let user := new_account userID email hash (String_ (RIDisplayName input) 255) (Locale_ (RILocale input)) now in
                r <- call (SUsers (λ _ d, let '(r, d') := CreateUser user d in (r, users d'))) ;;
                match r with
                | Ok (Err ErrUnique) => Ret (Err REmailTaken)
                | Err _ | Ok (Err _) => Ret (Err RFailed)
                | Ok (Ok _) =>
                    histID <- RandomUUID ;;
                    (match histID with
                     | Err _ => Ret tt
                     | Ok histID =>
                         call (SPersonal (λ _ _, HistoryCreate (mkPasswordHistory histID userID hash now))) ;;; Ret tt
                     end) ;;;
                    log_event "registration" userID "" ip (maskEmail email) ;;;
                    SendSignupVerification s email userID (RedirectPath (RIRedirectTo input)) ;;;
                    Ret (Ok userID)
                end
            end
        end
    end.

Inductive registered := VerificationEmailSent.
(** [None]: the body was refused. *)
Definition HRegister (s : Registrar) (ip : string) (body : option RegisterInput) : prog (answer registered) :=
  match body with
  | None => Ret (Refused 400 "invalid_request")
  | Some input =>
      r <- Register s input ip ;;
      Ret (match r with
           | Ok _ | Err REmailTaken => Replied VerificationEmailSent
           | Err RInvalidInput => Refused 400 "invalid_input"
           | Err RPasswordTooShort => Refused 400 "password_too_short"
           | Err RPasswordBreached => Refused 400 "password_breached"
           | Err ROverloaded => Refused 503 "server_busy"
           | Err RFailed => Refused 500 "internal_error"
           end)
  end.

Inductive verified_email := EmailVerifiedStatus.
Definition HVerifyEmail (hasAudit : bool) (ip token : string) : prog (answer verified_email) :=
  if decide (token = "") then Ret (Refused 400 "missing_token")
  else
    r <- call (SGetAndDelete ("verify:" +:+ SHA256Hex token)) ;;
    match r with
    | Err _ => Ret (Refused 400 "invalid_or_expired_token")
    | Ok userID =>
        if decide (userID = "") then Ret (Refused 400 "invalid_or_expired_token")
        else
          r <- call (SUsers (λ _ d, (tt, users (VerifyEmail userID d)))) ;;
          match r with
          | Err _ => Ret (Refused 500 "internal_error")
          | Ok _ =>
              (if hasAudit then log_event "registration" userID "" ip "email_verified" else Ret tt) ;;;
              Ret (Replied EmailVerifiedStatus)
          end
    end.
End register.
