(* ===== verification/Password.v ===== *)
(** * Password: reset links and password changes

    Models internal/handler/password.go.  The handler is as the server wires it:
    the cache and the password history are present, which the code relies on
    (both are used unguarded on some path).  The body of a request arrives
    decoded, [None] when it was refused. *)
From S2P Require Import Prelude GoStd Bytes Json JsonEnc Runes Cache Crypto NetIP Aes Model TokenStore UserStore PersonalStore Effects Random TokenService Lockout Session Login SecondFactor Sanitize StoreWp Register.
From stdpp Require Import list.
From Stdlib Require Import Ascii.
Open Scope string_scope.
Open Scope Z_scope.
Open Scope prog_scope.

Record PasswordHandler := mkPasswordHandler {
  ph_tokens : bool;
  ph_sender : bool;
  ph_auditLog : bool;
  ph_origin : string;
  ph_pepper : string;
  ph_dummyHash : string;  (** [vaultcrypto.DummyHash] *)
  ph_minLength : Z;
  ph_hibp : option (string → option (Z * string));  (** the client, when enabled *)
}.

Inductive passwordErr := PwBreached | PwRecentlyUsed | PwOverloaded | PwFailed.

Definition refusedByAccountState (u : option User) : bool :=
  match u with None => true | Some u => Deleted u || Banned u || Disabled u end.

Definition reset_key (tokenHash : string) : string := "reset:" +:+ tokenHash.
Definition pending_key (userID : string) : string := "pwreset_user:" +:+ userID.

Section password.
Context `{Primitives} `{SHA1}.

Definition ph_audit (h : PasswordHandler) (kind u ip detail : string) : prog unit :=
  if ph_auditLog h then log_event kind u "" ip detail else Ret tt.

(** Delete the link the reverse mapping points at. *)
Definition retire_link (userID : string) : prog unit :=
  old <- call (SGetAndDelete (pending_key userID)) ;;
  match old with
  | Ok oldHash => if decide (oldHash = "") then Ret tt else call (SDelete (reset_key oldHash)) ;;; Ret tt
  | Err _ => Ret tt
  end.

Definition ResetRequest (h : PasswordHandler) (ip : string) (body : option string) : prog (answer string) :=
  match body with
  | None | Some "" => Ret (Refused 400 "invalid_request")
  | Some email =>
      let sent := Replied "If that email exists, a reset link has been sent." in
      call (SVerify "dummy" (ph_dummyHash h) (ph_pepper h)) ;;;
      token <- RandomHex 32 ;;
      user <- call (SGetByEmail (ToLower (TrimSpace email))) ;;
      match user, token with
      | Ok (Some user), Ok token =>
          if refusedByAccountState (Some user) then Ret sent
          else
            let tokenHash := SHA256Hex token in
            retire_link (UID user) ;;;
            call (SSet (reset_key tokenHash) (UID user) hour) ;;;
            call (SSet (pending_key (UID user)) tokenHash hour) ;;;
            (if ph_sender h
             then call (SEmit (Deferred (JobURL "password_reset" (Email user) (ph_origin h +:+ "/reset-password?token=" +:+ token))))
             else Ret tt) ;;;
            ph_audit h "password_reset" (UID user) ip "requested" ;;;
            Ret sent
      | _, _ => Ret sent
      end
  end.

(** Does the password match one of the entries?  A verification that fails
    counts as no match. *)
Fixpoint recently_used (h : PasswordHandler) (newPassword : string) (history : list PasswordHistory) : prog bool :=
  match history with
  | [] => Ret false
  | e :: l =>
      r <- call (SVerify newPassword (HPasswordHash e) (ph_pepper h)) ;;
      match r with Ok true => Ret true | _ => recently_used h newPassword l end
  end.

Definition updatePassword (h : PasswordHandler) (userID newPassword : string) : prog (res passwordErr unit) :=
  if breached (ph_hibp h) newPassword then Ret (Err PwBreached)
  else
    history <- call (reads (GetRecentByUser userID 5)) ;;
    recent <- recently_used h newPassword (match history with Ok l => l | Err _ => [] end) ;;
    if (recent : bool) then Ret (Err PwRecentlyUsed)
    else
      hash <- call (SHash newPassword (ph_pepper h)) ;;
      match hash with
      | Err Argon2Overloaded => Ret (Err PwOverloaded)
      | Err Argon2Malformed => Ret (Err PwFailed)
      | Ok hash =>
          r <- call (SUsers (λ _ d, let '(b, d') := UpdatePassword userID hash d in (b, users d'))) ;;
          match r with
          | Err _ | Ok false => Ret (Err PwFailed)
          | Ok true =>
              histID <- RandomUUID ;;
              (match histID with
               | Err _ => Ret tt
               | Ok histID =>
                   now <- call SNow ;;
                   call (SPersonal (λ _ _, HistoryCreate (mkPasswordHistory histID userID hash now))) ;;; Ret tt
               end) ;;;
              r <- (if ph_tokens h then call (SRevokeAllForUser userID) else Ret (Ok tt)) ;;
              match r with
              | Err _ => Ret (Err PwFailed)
              | Ok _ =>
                  retire_link userID ;;;
                  call (SDelete ("confirm:" +:+ userID)) ;;;
                  Ret (Ok tt)
              end
          end
      end.

Definition password_error (e : passwordErr) : answer string :=
  match e with
  | PwBreached => Refused 400 "password_breached"
  | PwRecentlyUsed => Refused 400 "password_recently_used"
  | PwOverloaded => Refused 503 "server_busy"
  | PwFailed => Refused 500 "internal_error"
  end.

(** A flag lifted only where it was set; [false] when the write failed. *)
Definition lift (set : bool) (write : string → DB → DB) (userID : string) : prog bool :=
  if set then r <- call (SUsers (λ _ d, (tt, users (write userID d)))) ;; Ret (is_ok r) else Ret true.

(** What follows a stored password: lockouts, the import claim, the forced reset. *)
Definition finish_reset (h : PasswordHandler) (ip : string) (user : User) : prog (answer string) :=
  ClearAccountLockout true (UID user) ;;;
  call (SResetFailedLogin (UID user)) ;;;
  claimed <- lift (ImportPending user) ClearImportPending (UID user) ;;
  if negb claimed then Ret (Refused 500 "import_claim_failed")
  else
    lifted <- lift (MustResetPassword user) ClearMustResetPassword (UID user) ;;
    if negb lifted then Ret (Refused 500 "forced_reset_clear_failed")
    else
      (if MustResetPassword user then ph_audit h "password_reset" (UID user) ip "forced_reset_completed" else Ret tt) ;;;
      ph_audit h "password_reset" (UID user) ip (if ImportPending user then "import_claimed" else "confirmed") ;;;
      Ret (Replied "password_reset_complete").

Definition ResetConfirm (h : PasswordHandler) (ip : string) (body : option (string * string)) : prog (answer string) :=
  match body with
  | None => Ret (Refused 400 "invalid_request")
  | Some (token, password) =>
      if decide (token = "" ∨ password = "") then Ret (Refused 400 "invalid_request")
      else if Z.of_nat (RuneCount password) <? ph_minLength h then Ret (Refused 400 "password_too_short")
      else
        r <- call (SGetAndDelete (reset_key (SHA256Hex token))) ;;
        match r with
        | Err _ => Ret (Refused 400 "invalid_or_expired_token")
        | Ok userID =>
            if decide (userID = "") then Ret (Refused 400 "invalid_or_expired_token")
            else
              r <- call (SGetByID userID) ;;
              match r with
              | Ok (Some user) =>
                  if refusedByAccountState (Some user) then Ret (Refused 400 "invalid_or_expired_token")
                  else
                    r <- updatePassword h (UID user) password ;;
                    match r with
                    | Err e => Ret (password_error e)
                    | Ok _ => finish_reset h ip user
                    end
              | _ => Ret (Refused 400 "invalid_or_expired_token")
              end
        end
  end.

Definition ChangePassword (h : PasswordHandler) (c : Caller) (body : option (string * string)) : prog (answer string) :=
  match c_claims c with
  | None => Ret (Refused 401 "unauthorized")
  | Some claims =>
      match body with
      | None => Ret (Refused 400 "invalid_request")
      | Some (current, new) =>
          if Z.of_nat (RuneCount new) <? ph_minLength h then Ret (Refused 400 "password_too_short")
          else
            r <- call (SGetByID (Subject claims)) ;;
            match r with
            | Ok (Some user) =>
                v <- call (SVerify current (PasswordHash user) (ph_pepper h)) ;;
                match v with
                | Err Argon2Overloaded => Ret (Refused 503 "server_busy")
                | Ok true =>
                    r <- updatePassword h (UID user) new ;;
                    match r with
                    | Err e => Ret (password_error e)
                    | Ok _ => ph_audit h "password_change" (UID user) (c_ip c) "" ;;; Ret (Replied "password_changed")
                    end
                | _ => Ret (Refused 401 "invalid_current_password")
                end
            | _ => Ret (Refused 401 "unauthorized")
            end
      end
  end.
End password.
