(* ===== verification/Recover.v ===== *)
(** * Recover: the offline reader of the escrow log

    Models cmd/recover/main.go: the framing chosen from the blob's own bytes and
    one decryption attempt for it ([decryptEscrowed]), the decoded profile and
    the checks a row must pass before it becomes output ([recoverRow]), and the
    loop of [run] with its exit status.  The flag parsing, the key file and the
    output file are left out; [json.Unmarshal] into the profile is
    [decode_payload], field by field in the order of the document, names folded
    in the ASCII range. *)
From S2P Require Import Prelude GoStd Cache Crypto Json Bytes GoTime JsonEnc NetIP Aes Model PersonalStore Effects Erasure.
From Stdlib Require Import Ascii.
Open Scope string_scope.
Open Scope Z_scope.

Definition boundPayloadVersion : Z := 2.

Record escrowedPayload := mkEscrowedPayload {
  ep_Version : Z; ep_UserID : string; ep_Email : string; ep_CreatedAt : option Z;
  ep_Roles : list string; ep_DisplayName : string
}.
Definition zero_payload : escrowedPayload := mkEscrowedPayload 0 "" "" None [] "".

Record recoveredRecord := mkRecoveredRecord {
  rr_UserID : string; rr_Email : string; rr_DisplayName : string; rr_Roles : list string;
  rr_CreatedAt : option Z; rr_DeletedAt : Z; rr_DeletedBy : string; rr_Reason : string; rr_Format : RecoveryFormat
}.

(** ** json.Unmarshal into the profile *)
Definition into_string (old : string) (v : json) : option string :=
  match v with JStr s => Some s | JNull => Some old | _ => None end.
Definition into_int (old : Z) (v : json) : option Z :=
  match v with
  | JNum l => match ParseInt l with (n, None) => Some n | _ => None end
  | JNull => Some old
  | _ => None
  end.
(** [None] is Go's zero time. *)
Definition into_time (old : option Z) (v : json) : option (option Z) :=
  match v with JStr s => Some <$> ParseRFC3339 s | JNull => Some old | _ => None end.
(** An element lands in the slot the slice already has, if any. *)
Fixpoint into_elems (old : list string) (l : list json) : option (list string) :=
  match l with
  | [] => Some []
  | v :: l' => x ← into_string (default "" (head old)) v; r ← into_elems (tail old) l'; Some (x :: r)
  end.
Definition into_strings (old : list string) (v : json) : option (list string) :=
  match v with JArr l => into_elems old l | JNull => Some [] | _ => None end.

Definition set_field (p : escrowedPayload) (name : string) (v : json) : option escrowedPayload :=
  let '(mkEscrowedPayload ver uid em cr ro dn) := p in
  let n := ToLower name in
  if decide (n = "v") then x ← into_int ver v; Some (mkEscrowedPayload x uid em cr ro dn)
  else if decide (n = "user_id") then x ← into_string uid v; Some (mkEscrowedPayload ver x em cr ro dn)
  else if decide (n = "email") then x ← into_string em v; Some (mkEscrowedPayload ver uid x cr ro dn)
  else if decide (n = "created_at") then x ← into_time cr v; Some (mkEscrowedPayload ver uid em x ro dn)
  else if decide (n = "roles") then x ← into_strings ro v; Some (mkEscrowedPayload ver uid em cr x dn)
  else if decide (n = "display_name") then x ← into_string dn v; Some (mkEscrowedPayload ver uid em cr ro x)
  else Some p.

(** [null] decodes to the zero profile. *)
Definition decode_payload (plain : string) : option escrowedPayload :=
  match json_parse plain with
  | Some (JObj m) => fold_left (λ acc f, p ← acc; set_field p f.1 f.2) m (Some zero_payload)
  | Some JNull => Some zero_payload
  | _ => None
  end.

Section recover.
Context `{AEAD} `{OAEP}.

Definition decryptEscrowed (priv : string) (format : RecoveryFormat) (payload recordID pseudonym : string) : option string :=
  match format with
  | RecoveryFormatBound => DecryptRecovery priv payload (RecoveryBinding recordID pseudonym)
  | RecoveryFormatLegacy => DecryptRecoveryLegacy priv payload
  | RecoveryFormatUnknown => None
  end.

(** The row is the table's own: id, pseudonym, payload, when, who, why. *)
Definition recoverRow (priv : string) (row : AccountRecovery) (allowLegacy : bool) : option recoveredRecord * RecoveryFormat :=
  let format := RecoveryBlobFormat (Payload row) in
  let refuse := (None, format) in
  if bool_decide (format = RecoveryFormatLegacy) && negb allowLegacy then refuse
  else match decryptEscrowed priv format (Payload row) (RID row) (Pseudonym row) with
  | None => refuse
  | Some plain =>
      match decode_payload plain with
      | None => refuse
      | Some p =>
          if decide (ep_Email p = "") then refuse
          else if bool_decide (format = RecoveryFormatBound) &&
                  (negb (ep_Version p =? boundPayloadVersion) || bool_decide (ep_UserID p = "")) then refuse
          else (Some (mkRecoveredRecord (ep_UserID p) (ep_Email p) (ep_DisplayName p) (ep_Roles p) (ep_CreatedAt p)
                        (DeletedAt row) (DeletedBy row) (Reason row) format), format)
      end
  end.

(** The loop of [run]: [None] is a row that failed to scan or a record that
    failed to encode, which ends the run.  The output so far, the failures, the
    legacy reads, the rows scanned. *)
Record tally := mkTally { written : list recoveredRecord; failures : Z; legacy : Z; scanned : Z }.
Fixpoint read_rows (priv : string) (allowLegacy : bool) (rows : list (option AccountRecovery)) (t : tally) : tally * bool :=
  match rows with
  | [] => (t, true)
  | None :: _ => (t, false)
  | Some row :: rest =>
      let t := match recoverRow priv row allowLegacy with
               | (None, _) => mkTally (written t) (failures t + 1) (legacy t) (scanned t + 1)
               | (Some rec, format) =>
                   mkTally (written t ++ [rec]) (failures t)
                     (legacy t + (if bool_decide (format = RecoveryFormatLegacy) then 1 else 0)) (scanned t + 1)
               end in
      read_rows priv allowLegacy rest t
  end%list.

Definition exitIncomplete : Z := 3.
(** [iterErr]: the driver reports an error after the last row.  The exit status,
    what was written, and whether the limit warning is printed. *)
Definition run_rows (priv : string) (allowLegacy : bool) (rows : list (option AccountRecovery)) (iterErr : bool) (limit : Z)
  : Z * list recoveredRecord * bool :=
  let '(t, complete) := read_rows priv allowLegacy rows (mkTally [] 0 0 0) in
  if negb complete || iterErr then (1, written t, false)
  else (if 0 <? failures t then exitIncomplete else 0, written t, (0 <? limit) && (limit <=? scanned t)).
End recover.

(** * Facts: what the escrow holds, the tool recovers

    The profile an erasure seals is the profile the offline tool prints, byte
    for byte, for the row it was sealed to, and for no other row. *)

(** ** Dates are ASCII *)
Fixpoint ascii_only (s : string) : Prop :=
  match s with "" => True | String c r => code c < 128 ∧ ascii_only r end.
Lemma ascii_only_app a b : ascii_only a → ascii_only b → ascii_only (a +:+ b).
Proof. intros Ha Hb. induction a as [|c a IH]; [done|]. rewrite string_app_cons. destruct Ha. split; auto. Qed.
Lemma ascii_lit c : (code c <? 128) = true → ascii_only (String c "").
Proof. intros Hc. bool_hyps. by split. Qed.
Lemma ascii_valid s : ascii_only s → valid_utf8 s = true.
Proof. induction s as [|c s IH]; [done|]. intros [Hc Hs]. cbn [valid_utf8]. rewrite (proj2 (Z.ltb_lt _ _)) by done. auto. Qed.
Lemma digits_ascii s : uint_digits s → ascii_only s.
Proof.
  induction s as [|c s IH]; [done|]. intros [Hc Hs]. split; [|auto]. unfold is_digit in Hc. bool_hyps. lia.
Qed.
Lemma pad_ascii n z : ascii_only (pad n z).
Proof. apply digits_ascii, zeros_digits, FormatUint_digits. Qed.
Lemma frac_ascii ns : ascii_only (frac ns).
Proof.
  unfold frac. pose proof (digits_ascii _ (zeros_digits (9 - String.length (FormatUint ns)) _ (FormatUint_digits ns))) as Hp.
  change (ascii_only (pad 9 ns)) in Hp. destruct (trim_zeros_spec (pad 9 ns)) as [k Hk].
  assert (Ht : ascii_only (trim_zeros (pad 9 ns))).
  { rewrite Hk in Hp. revert Hp. generalize (trim_zeros (pad 9 ns)). intros t. induction t as [|c t IH]; [done|].
    rewrite string_app_cons. intros [Hc Ht]. split; auto. }
  destruct (trim_zeros (pad 9 ns)); [done|]. by split.
Qed.
Lemma date_ascii t s : FormatRFC3339 t = Some s → valid_utf8 s = true.
Proof.
  intros E. apply ascii_valid. revert E. unfold FormatRFC3339. destruct (civil_of_days _) as [[y m] d].
  destruct (_ || _); [done|]. intros [= <-].
  repeat first [apply pad_ascii | apply frac_ascii | (by apply ascii_lit) | apply ascii_only_app].
Qed.

(** ** The profile *)
(** The columns hold UTF-8, as the database enforces. *)
Definition utf8_row (u : User) : Prop :=
  valid_utf8 (UID u) = true ∧ valid_utf8 (Email u) = true ∧ valid_utf8 (DisplayName (Profile u)) = true ∧
  Forall (λ r, valid_utf8 r = true) (Roles u).

Lemma recovery_json_ok u created :
  utf8_row u → valid_utf8 created = true → json_ok (recovery_json u created) = true.
Proof.
  intros (Hi & He & Hd & Hr) Hc. unfold recovery_json. cbn [json_ok forallb fst snd].
  rewrite Hi, He, Hd, Hc. replace (forallb json_ok (JStr <$> Roles u)) with true; [done|].
  symmetry. induction Hr as [|r rs Hr Hrs IH]; [done|]. cbn. by rewrite Hr, IH.
Qed.
Lemma into_elems_strings old l : into_elems old (JStr <$> l) = Some l.
Proof. revert old. induction l as [|x l IH]; intros old; [done|]. cbn. by rewrite IH. Qed.

(** Unmarshal of what the erasure marshalled. *)
Lemma decode_recoveryPayload u plain :
  utf8_row u → recoveryPayload u = Some plain →
  decode_payload plain
  = Some (mkEscrowedPayload 2 (UID u) (Email u) (Some (UCreatedAt (Profile u))) (Roles u) (DisplayName (Profile u))).
Proof.
  intros Hu. unfold recoveryPayload. destruct (FormatRFC3339 _) as [created|] eqn:Ec; [|done].
  cbn [mbind option_bind]. intros Hp. apply (inj Some) in Hp as <-. unfold decode_payload.
  rewrite json_round_trip by (apply recovery_json_ok; [done|by eapply date_ascii]).
  apply ParseRFC3339_Format in Ec. unfold recovery_json, zero_payload. cbn [fold_left mbind option_bind fst snd].
  change (set_field _ "v" _) with (Some (mkEscrowedPayload 2 "" "" None [] "")). cbn [mbind option_bind].
  change (set_field _ "user_id" _) with (Some (mkEscrowedPayload 2 (UID u) "" None [] "")). cbn [mbind option_bind].
  change (set_field _ "email" _) with (Some (mkEscrowedPayload 2 (UID u) (Email u) None [] "")). cbn [mbind option_bind].
  change (set_field _ "created_at" _) with
    (x ← (Some <$> ParseRFC3339 created); Some (mkEscrowedPayload 2 (UID u) (Email u) x [] "")).
  rewrite Ec. cbn [mbind option_bind fmap option_fmap option_map].
  change (set_field ?p "roles" _) with
    (x ← into_elems [] (JStr <$> Roles u); Some (mkEscrowedPayload 2 (UID u) (Email u) (ep_CreatedAt p) x "")).
  rewrite into_elems_strings. done.
Qed.

Section recover_facts.
Context `{AEADLaws} `{OAEPLaws}.

(** The row an erasure writes for account [u]. *)
Definition escrow_row (pub : string) (u : User) (row : AccountRecovery) : Prop :=
  ∃ plain k n r, recoveryPayload u = Some plain ∧ String.length n = nonceSize ∧ no_nul (RID row) ∧
    EncryptRecovery pub plain (RecoveryBinding (RID row) (Pseudonym row)) k (Some n) r = Some (Payload row).

Lemma EncryptRecovery_bound pub pt b k n r out :
  EncryptRecovery pub pt b k n r = Some out → RecoveryBlobFormat out = RecoveryFormatBound.
Proof. intros E. by apply EncryptRecovery_shape in E as (_ & blob & w & _ & _ & ->). Qed.

Lemma recoverRow_escrow pub priv u row allow :
  matches priv pub = true → Size pub ≤ 2 ^ 16 → utf8_row u → Email u ≠ "" → UID u ≠ "" → escrow_row pub u row →
  recoverRow priv row allow
  = (Some (mkRecoveredRecord (UID u) (Email u) (DisplayName (Profile u)) (Roles u) (Some (UCreatedAt (Profile u)))
             (DeletedAt row) (DeletedBy row) (Reason row) RecoveryFormatBound), RecoveryFormatBound).
Proof.
  intros Hm Hs Hu He Hi (plain & k & n & r & Hp & Hn & Hnul & Enc). unfold recoverRow.
  rewrite (EncryptRecovery_bound _ _ _ _ _ _ _ Enc), bool_decide_eq_false_2 by done. cbn [andb decryptEscrowed].
  rewrite (DecryptRecovery_Encrypt pub priv plain _ _ k n r) by done. rewrite decide_True by done.
  rewrite (decode_recoveryPayload u) by done. cbn [ep_Email ep_Version ep_UserID ep_DisplayName ep_Roles ep_CreatedAt].
  rewrite decide_False by done. rewrite bool_decide_eq_true_2, bool_decide_eq_false_2 by done. done.
Qed.

(** A payload moved to another row recovers nothing. *)
Lemma recoverRow_moved pub priv u row row' allow :
  matches priv pub = true → Size pub ≤ 2 ^ 16 → escrow_row pub u row → no_nul (RID row') →
  Payload row' = Payload row → ¬ (ToLower (RID row') = ToLower (RID row) ∧ Pseudonym row' = Pseudonym row) →
  recoverRow priv row' allow = (None, RecoveryFormatBound).
Proof.
  intros Hm Hs (plain & k & n & r & Hp & Hn & Hnul & Enc) Hnul' Hpay Hne. unfold recoverRow.
  rewrite Hpay, (EncryptRecovery_bound _ _ _ _ _ _ _ Enc), bool_decide_eq_false_2 by done. cbn [andb decryptEscrowed].
  rewrite (DecryptRecovery_Encrypt pub priv plain (RID row) (Pseudonym row) k n r) by done. by rewrite decide_False.
Qed.
End recover_facts.

(** ** The loop *)
Section loop_facts.
Context `{AEAD} `{OAEP}.

Definition recovers (priv : string) (allow : bool) (row : AccountRecovery) : option recoveredRecord :=
  (recoverRow priv row allow).1.

Lemma read_rows_spec priv allow rows t :
  ∃ l, read_rows priv allow (Some <$> rows) t
  = (mkTally (written t ++ omap (recovers priv allow) rows)
       (failures t + Z.of_nat (length (filter (λ r, recovers priv allow r = None) rows))) l
       (scanned t + Z.of_nat (length rows)), true).
Proof.
  revert t. induction rows as [|r rows IH]; intros [w fl lg sc]; cbn [fmap list_fmap read_rows].
  { exists lg. cbn. by rewrite app_nil_r, !Z.add_0_r. }
  assert (Hv : recovers priv allow r = (recoverRow priv r allow).1) by done.
  rewrite filter_cons. cbn [omap list_omap].
  destruct (recoverRow priv r allow) as [[rec|] fm]; cbn [fst written failures legacy scanned] in *; rewrite Hv.
  - rewrite decide_False by done.
    destruct (IH (mkTally (w ++ [rec]) fl (lg + (if bool_decide (fm = RecoveryFormatLegacy) then 1 else 0)) (sc + 1))) as [l ->].
    exists l. cbn [written failures scanned]. rewrite <-app_assoc. cbn. do 2 f_equal. lia.
  - rewrite decide_True by done. destruct (IH (mkTally w (fl + 1) lg (sc + 1))) as [l ->].
    exists l. cbn [written failures scanned length]. do 2 f_equal; lia.
Qed.

(** The tool's exit status: 0 exactly when every record of the log it read became
    output, in order; 3 when the log was read to its end and a record did not;
    and a read that filled its limit is always announced. *)
Lemma run_rows_status priv allow rows limit :
  let '(code, out, warned) := run_rows priv allow (Some <$> rows) false limit in
  out = omap (recovers priv allow) rows ∧
  (code = 0 ↔ Forall (λ r, is_Some (recovers priv allow r)) rows) ∧ (code = 0 ∨ code = exitIncomplete) ∧
  (warned = true ↔ 0 < limit ≤ Z.of_nat (length rows)).
Proof.
  unfold run_rows. destruct (read_rows_spec priv allow rows (mkTally [] 0 0 0)) as [l ->].
  cbn [negb orb written failures scanned]. split_and!; [done| | |].
  - rewrite !Z.add_0_l. split.
    + intros Hc. apply Forall_forall. intros r Hr%list_elem_of_In. destruct (recovers priv allow r) eqn:E; [done|].
      assert (Hin : r ∈ filter (λ r, recovers priv allow r = None) rows) by by apply list_elem_of_filter.
      destruct (filter _ rows); [by apply not_elem_of_nil in Hin|]. by cbn in Hc.
    + intros Hall. replace (filter (λ r, recovers priv allow r = None) rows) with (@nil AccountRecovery); [done|].
      induction Hall as [|r rows [x Hx] Hall IH]; [done|]. rewrite filter_cons, decide_False by congruence. done.
  - destruct (0 <? _); auto.
  - rewrite andb_true_iff, Z.ltb_lt, Z.leb_le. lia.
Qed.
End loop_facts.
