(* ===== verification/Identity.v ===== *)
(** * Identity: encrypted profiles and marketing consent

    Models internal/service/identity.go ([IdentityService]) and
    internal/handler/identity.go.  A profile is a JSON document sealed under its
    owner's pseudonym; [encode_identity] and [decode_identity] are
    [json.Marshal] and [json.Unmarshal] of [IdentityData].  A raw message of the
    dynamic map is the JSON value it holds. *)
From S2P Require Import Prelude GoStd Bytes GoTime Json JsonEnc Runes Cache Crypto NetIP Aes Model TokenStore PersonalStore Effects Random TokenService Lockout Session Login SecondFactor StoreWp Recover.
From stdpp Require Import list gmap sorting.
From Stdlib Require Import Ascii.
Open Scope string_scope.
Open Scope Z_scope.
Open Scope prog_scope.

(** ** Data *)
Definition ConsentSourceRegistration : string := "registration".
Definition ConsentSourceProfile : string := "profile".
Definition ConsentSourceUnsubscribe : string := "unsubscribe".
Definition ConsentSourceImport : string := "import".
Definition ConsentSourceLegacy : string := "legacy".

Definition zero_time : Z := -62135596800 * second.
Record ConsentRecord := mkConsentRecord { Granted : bool; At : Z; Source : string; Origin : string }.
Definition Affirmative (c : option ConsentRecord) : bool :=
  match c with
  | Some c => Granted c && (bool_decide (Source c = ConsentSourceRegistration) || bool_decide (Source c = ConsentSourceProfile))
  | None => false
  end.

Record BillingInfo := mkBillingInfo {
  AddressLine1 : string; AddressLine2 : string; City : string; PostalCode : string; BCountry : string; VATID : string
}.
Record IdentityData := mkIdentityData {
  GivenName : string; FamilyName : string; Username : string; Country : string; State : string; DateOfBirth : string; Sex : string;
  MarketingEmails : option bool; Billing : option BillingInfo; Dynamic : gmap string json; MarketingConsent : option ConsentRecord
}.
Definition no_identity : IdentityData := mkIdentityData "" "" "" "" "" "" "" None None ∅ None.
Definition set_consent (emails : option bool) (c : option ConsentRecord) (d : IdentityData) : IdentityData :=
  mkIdentityData (GivenName d) (FamilyName d) (Username d) (Country d) (State d) (DateOfBirth d) (Sex d) emails (Billing d) (Dynamic d) c.

(** ** Validation *)
Inductive identityErr := ErrInvalidProfile | ErrConcurrentUpdate | IdentityFailed (step : string).
#[export] Instance identityErr_eq_dec : EqDecision identityErr.
Proof. solve_decision. Defined.

Definition usernameMinLen : nat := 3.
Definition usernameMaxLen : nat := 32.
Definition stateMaxLen : nat := 3.
Definition dynamicMaxBytes : Z := 64 * 1024.
Definition dynamicMaxKeyLen : nat := 64.

Definition is_lower (c : ascii) : bool := (97 <=? code c) && (code c <=? 122).
Definition is_upper (c : ascii) : bool := (65 <=? code c) && (code c <=? 90).
(** [^[a-z0-9]+(\.[a-z0-9]+)*$] *)
Definition segment_ok (s : string) : bool := negb (bool_decide (s = "")) && all_chars (λ c, is_lower c || is_digit c) s.
Definition dynamicKeyRe (k : string) : bool := forallb segment_ok (Split 46 k).
(** [^\d{4}-\d{2}-\d{2}$] and [time.Parse("2006-01-02", s)] *)
Definition dateOnlyRe (s : string) : bool :=
  match s with
  | String a (String b (String c (String d (String e (String f (String g (String h (String i (String j ""))))))))) =>
      is_digit a && is_digit b && is_digit c && is_digit d && (code e =? 45) && is_digit f && is_digit g && (code h =? 45) &&
      is_digit i && is_digit j
  | _ => false
  end.
(** Midnight of the day. *)
Definition ParseDate (s : string) : option Z :=
  '(y, s) ← field 4 0 9999 s; s ← byte "-" s; '(m, s) ← field 2 1 12 s; s ← byte "-" s; '(d, s) ← field 2 1 (days_in m y) s;
  if decide (s = "") then Some (days_of_civil y m d * 86400 * second) else None.
Definition countryRe (p : ascii → bool) (s : string) : bool :=
  match s with String a (String b "") => p a && p b | _ => false end.

Definition key_le (a b : string * json) : Prop := String.leb a.1 b.1 = true.
#[export] Instance key_le_dec a b : Decision (key_le a b).
Proof. unfold key_le. apply _. Defined.
(** A map is written in the order of its keys. *)
Definition encode_dynamic (m : gmap string json) : json := JObj (merge_sort key_le (map_to_list m)).

Definition Validate (d : IdentityData) : bool :=
  (bool_decide (Username d = "") || ((usernameMinLen <=? RuneCount (Username d))%nat && (RuneCount (Username d) <=? usernameMaxLen)%nat)) &&
  (bool_decide (Country d = "") || countryRe (λ c, is_lower c || is_upper c) (Country d)) &&
  (RuneCount (State d) <=? stateMaxLen)%nat &&
  bool_decide (Sex d ∈ [""; "male"; "female"]) &&
  (bool_decide (DateOfBirth d = "") || (dateOnlyRe (DateOfBirth d) && match ParseDate (DateOfBirth d) with Some _ => true | None => false end)) &&
  forallb (λ p, (String.length p.1 <=? dynamicMaxKeyLen)%nat && dynamicKeyRe p.1) (map_to_list (Dynamic d)) &&
  (bool_decide (Dynamic d = ∅) || (Z.of_nat (String.length (Marshal (encode_dynamic (Dynamic d)))) <=? dynamicMaxBytes)).

(** ** JSON *)
(** [omitempty] *)
Definition str_member (k v : string) : list (string * json) := if decide (v = "") then [] else [(k, JStr v)].
Definition encode_consent (c : ConsentRecord) : option json :=
  at_ ← FormatRFC3339 (At c);
  Some (JObj ([("granted", JBool (Granted c)); ("at", JStr at_); ("source", JStr (Source c))] ++ str_member "origin" (Origin c))).
Definition encode_billing (b : BillingInfo) : json :=
  JObj (str_member "address_line_1" (AddressLine1 b) ++ str_member "address_line_2" (AddressLine2 b) ++ str_member "city" (City b) ++
        str_member "postal_code" (PostalCode b) ++ str_member "country" (BCountry b) ++ str_member "vat_id" (VATID b)).
(** An error when the date of the consent cannot be written. *)
Definition encode_identity (d : IdentityData) : option json :=
  c ← match MarketingConsent d with None => Some [] | Some c => v ← encode_consent c; Some [("marketing_consent", v)] end;
  Some (JObj (str_member "given_name" (GivenName d) ++ str_member "family_name" (FamilyName d) ++ str_member "username" (Username d) ++
    str_member "country" (Country d) ++ str_member "state" (State d) ++ str_member "date_of_birth" (DateOfBirth d) ++ str_member "sex" (Sex d) ++
    match MarketingEmails d with None => [] | Some b => [("marketing_emails", JBool b)] end ++
    match Billing d with None => [] | Some b => [("billing", encode_billing b)] end ++
    (if decide (Dynamic d = ∅) then [] else [("dynamic", encode_dynamic (Dynamic d))]) ++ c)).

(** A struct is read member by member, names folded; unknown ones are skipped. *)
Definition into_struct {A} (set : A → string → json → option A) (old : A) (m : list (string * json)) : option A :=
  fold_left (λ acc f, x ← acc; set x (ToLower f.1) f.2) m (Some old).
(** A pointer: null is nil, an object is read into what is there. *)
Definition into_pointer {A} (set : A → string → json → option A) (zero : A) (old : option A) (v : json) : option (option A) :=
  match v with JNull => Some None | JObj m => Some <$> into_struct set (default zero old) m | _ => None end.
Definition into_bool (old : bool) (v : json) : option bool := match v with JBool b => Some b | JNull => Some old | _ => None end.
Definition into_instant (old : Z) (v : json) : option Z := match v with JStr s => ParseRFC3339 s | JNull => Some old | _ => None end.
Definition into_bool_pointer (v : json) : option (option bool) := match v with JNull => Some None | JBool b => Some (Some b) | _ => None end.
Definition into_dynamic (old : gmap string json) (v : json) : option (gmap string json) :=
  match v with JNull => Some ∅ | JObj m => Some (fold_left (λ acc p, <[p.1 := p.2]> acc) m old) | _ => None end.

Definition set_record (c : ConsentRecord) (name : string) (v : json) : option ConsentRecord :=
  let '(mkConsentRecord g a s o) := c in
  if decide (name = "granted") then x ← into_bool g v; Some (mkConsentRecord x a s o)
  else if decide (name = "at") then x ← into_instant a v; Some (mkConsentRecord g x s o)
  else if decide (name = "source") then x ← into_string s v; Some (mkConsentRecord g a x o)
  else if decide (name = "origin") then x ← into_string o v; Some (mkConsentRecord g a s x)
  else Some c.
Definition set_billing (b : BillingInfo) (name : string) (v : json) : option BillingInfo :=
  let '(mkBillingInfo l1 l2 ci po co va) := b in
  if decide (name = "address_line_1") then x ← into_string l1 v; Some (mkBillingInfo x l2 ci po co va)
  else if decide (name = "address_line_2") then x ← into_string l2 v; Some (mkBillingInfo l1 x ci po co va)
  else if decide (name = "city") then x ← into_string ci v; Some (mkBillingInfo l1 l2 x po co va)
  else if decide (name = "postal_code") then x ← into_string po v; Some (mkBillingInfo l1 l2 ci x co va)
  else if decide (name = "country") then x ← into_string co v; Some (mkBillingInfo l1 l2 ci po x va)
  else if decide (name = "vat_id") then x ← into_string va v; Some (mkBillingInfo l1 l2 ci po co x)
  else Some b.
Definition zero_record : ConsentRecord := mkConsentRecord false zero_time "" "".
Definition zero_billing : BillingInfo := mkBillingInfo "" "" "" "" "" "".
Definition set_identity (d : IdentityData) (name : string) (v : json) : option IdentityData :=
  let '(mkIdentityData gn fn un co st dob sx me bi dy mc) := d in
  if decide (name = "given_name") then x ← into_string gn v; Some (mkIdentityData x fn un co st dob sx me bi dy mc)
  else if decide (name = "family_name") then x ← into_string fn v; Some (mkIdentityData gn x un co st dob sx me bi dy mc)
  else if decide (name = "username") then x ← into_string un v; Some (mkIdentityData gn fn x co st dob sx me bi dy mc)
  else if decide (name = "country") then x ← into_string co v; Some (mkIdentityData gn fn un x st dob sx me bi dy mc)
  else if decide (name = "state") then x ← into_string st v; Some (mkIdentityData gn fn un co x dob sx me bi dy mc)
  else if decide (name = "date_of_birth") then x ← into_string dob v; Some (mkIdentityData gn fn un co st x sx me bi dy mc)
  else if decide (name = "sex") then x ← into_string sx v; Some (mkIdentityData gn fn un co st dob x me bi dy mc)
  else if decide (name = "marketing_emails") then x ← into_bool_pointer v; Some (mkIdentityData gn fn un co st dob sx x bi dy mc)
  else if decide (name = "billing") then x ← into_pointer set_billing zero_billing bi v; Some (mkIdentityData gn fn un co st dob sx me x dy mc)
  else if decide (name = "dynamic") then x ← into_dynamic dy v; Some (mkIdentityData gn fn un co st dob sx me bi x mc)
  else if decide (name = "marketing_consent") then x ← into_pointer set_record zero_record mc v; Some (mkIdentityData gn fn un co st dob sx me bi dy x)
  else Some d.
Definition decode_identity (plain : string) : option IdentityData :=
  match json_parse plain with
  | Some (JObj m) => into_struct set_identity no_identity m
  | Some JNull => Some no_identity
  | _ => None
  end.

(** ** Consent *)
Definition normalizeConsent (d : IdentityData) : IdentityData :=
  match MarketingConsent d, MarketingEmails d with
  | Some c, _ => set_consent (Some (Granted c)) (Some c) d
  | None, Some b => set_consent (Some b) (Some (mkConsentRecord b zero_time ConsentSourceLegacy "")) d
  | None, None => d
  end.
Definition StampMarketingConsent (now : Z) (granted : bool) (source origin : string) (d : IdentityData) : IdentityData :=
  set_consent (Some granted) (Some (mkConsentRecord granted now source origin)) d.
(** The profile to write, and whether consent changed. *)
Definition ReconcileMarketingConsent (now : Z) (submitted : option bool) (prior : option ConsentRecord) (d : IdentityData) : IdentityData * bool :=
  match submitted, prior with
  | None, None => (set_consent (MarketingEmails d) None d, false)
  | None, Some c => (set_consent (Some (Granted c)) (Some c) d, false)
  | Some b, Some c =>
      if Bool.eqb (Granted c) b then (set_consent (Some (Granted c)) (Some c) d, false)
      else (StampMarketingConsent now b ConsentSourceProfile "" d, true)
  | Some b, None => (StampMarketingConsent now b ConsentSourceProfile "" d, true)
  end.

(** ** The service *)
Record IdentityService := mkIdentityService { id_masterKey : string; id_hmacSecret : string }.
Definition consentUpdateAttempts : nat := 3.

Section identity.
Context `{Primitives} `{AEAD}.

Definition id_Pseudonym (s : IdentityService) (userID : string) : string := HMACSign (userID +:+ ":identity") (id_hmacSecret s).

(** What a stored row holds: an error, or the profile with its consent normalised. *)
Definition open_profile (s : IdentityService) (pseudo : string) (p : IdentityProfile) : res identityErr IdentityData :=
  match Decrypt (DataEnc p) (id_masterKey s) pseudo with
  | None => Err (IdentityFailed "decrypt")
  | Some plain =>
      match decode_identity plain with
      | None => Err (IdentityFailed "unmarshal")
      | Some d => Ok (normalizeConsent d)
      end
  end.
Definition GetIdentity (s : IdentityService) (userID : string) : prog (res identityErr (option (IdentityData * Z))) :=
  let pseudo := id_Pseudonym s userID in
  r <- call (reads (GetByPseudonym pseudo)) ;;
  Ret (match r with
       | Err _ => Err (IdentityFailed "get")
       | Ok None => Ok None
       | Ok (Some p) => match open_profile s pseudo p with Ok d => Ok (Some (d, IUpdatedAt p)) | Err e => Err e end
       end).

(** Validate, normalise, encode and seal. *)
Definition seal_profile (s : IdentityService) (userID : string) (d : IdentityData) : prog (res identityErr string) :=
  if negb (Validate d) then Ret (Err ErrInvalidProfile)
  else match encode_identity (normalizeConsent d) with
       | None => Ret (Err (IdentityFailed "marshal"))
       | Some j =>
           e <- encrypt (Marshal j) (id_masterKey s) (id_Pseudonym s userID) ;;
           Ret (match e with None => Err (IdentityFailed "encrypt") | Some enc => Ok enc end)
       end.
Definition upsertCAS (s : IdentityService) (userID : string) (d : IdentityData) (expected : option Z) : prog (res identityErr bool) :=
  e <- seal_profile s userID d ;;
  match e with
  | Err e => Ret (Err e)
  | Ok enc =>
      now <- call SNow ;;
      r <- call (writes (UpsertCAS (mkIdentityProfile (id_Pseudonym s userID) enc now now) expected)) ;;
      Ret (match r with Err _ => Err (IdentityFailed "upsert") | Ok b => Ok b end)
  end.

(** The compare-and-set loop both writers share: [edit] is applied to what was
    just read, and the write is conditional on it. *)
Fixpoint cas_loop {A} (n : nat) (s : IdentityService) (userID : string)
    (edit : Z → option IdentityData → IdentityData * A) : prog (res identityErr A) :=
  match n with
  | O => Ret (Err ErrConcurrentUpdate)
  | S n' =>
      r <- GetIdentity s userID ;;
      match r with
      | Err e => Ret (Err e)
      | Ok existing =>
          now <- call SNow ;;
          let '(data, a) := edit now (fst <$> existing) in
          ok <- upsertCAS s userID data (snd <$> existing) ;;
          match ok with
          | Err e => Ret (Err e)
          | Ok true => Ret (Ok a)
          | Ok false => cas_loop n' s userID edit
          end
      end
  end.
Definition UpdateMarketingConsent (s : IdentityService) (userID : string) (granted : bool) (source origin : string) : prog (res identityErr unit) :=
  cas_loop consentUpdateAttempts s userID (λ now existing, (StampMarketingConsent now granted source origin (default no_identity existing), tt)).
(** The consent as stored, and whether it changed. *)
Definition PutProfile (s : IdentityService) (userID : string) (incoming : IdentityData) (submitted : option bool)
  : prog (res identityErr (option ConsentRecord * bool)) :=
  cas_loop consentUpdateAttempts s userID (λ now existing,
    let '(d, changed) := ReconcileMarketingConsent now submitted (existing ≫= MarketingConsent) incoming in
    (d, (MarketingConsent (normalizeConsent d), changed))).

Definition MarketingAllowed (s : IdentityService) (userID : string) : prog (res identityErr bool) :=
  r <- GetIdentity s userID ;;
  Ret (match r with Err e => Err e | Ok None => Ok false | Ok (Some (d, _)) => Ok (Affirmative (MarketingConsent d)) end).
Definition UpsertIdentity (s : IdentityService) (userID : string) (d : IdentityData) : prog (res identityErr unit) :=
  e <- seal_profile s userID d ;;
  match e with
  | Err e => Ret (Err e)
  | Ok enc =>
      now <- call SNow ;;
      r <- call (SPersonal (λ _ _ t, (Ok tt, ProfileUpsert (mkIdentityProfile (id_Pseudonym s userID) enc now now) t))) ;;
      Ret (match r with Err _ => Err (IdentityFailed "upsert") | Ok _ => Ok tt end)
  end.
Definition DeleteIdentity (s : IdentityService) (userID : string) : prog (res identityErr unit) :=
  r <- call (SPersonal (λ _ _ t, (Ok tt, ProfileDelete (id_Pseudonym s userID) t))) ;;
  Ret (match r with Err _ => Err (IdentityFailed "delete") | Ok _ => Ok tt end).

(** ** Handlers *)
Record identityInput := mkIdentityInput { in_data : IdentityData (** fields as sent, no consent *); in_MarketingEmails : option bool }.
Record IdentityHandler := mkIdentityHandler { ih_svc : IdentityService; ih_auditLog : bool }.

Definition truncate (s : string) (maxRunes : nat) : string :=
  if (RuneCount s <=? maxRunes)%nat then s else of_runes (take maxRunes (runes s)).
(** [None]: valid; [now] is the instant a birth date is held against. *)
Definition validateIdentity (now : Z) (input : IdentityData) : option string :=
  if negb (bool_decide (Country input = "")) && negb (countryRe is_upper (Country input)) then Some "invalid_country"
  else if negb (bool_decide (DateOfBirth input = "")) &&
          negb (dateOnlyRe (DateOfBirth input) && match ParseDate (DateOfBirth input) with Some dob => dob <=? now | None => false end)
  then Some "invalid_date_of_birth"
  else match Billing input with
       | Some b => if negb (bool_decide (BCountry b = "")) && negb (countryRe is_upper (BCountry b)) then Some "invalid_billing_country" else None
       | None => None
       end.
Definition truncated (d : IdentityData) : IdentityData :=
  mkIdentityData (truncate (GivenName d) 100) (truncate (FamilyName d) 100) (Username d) (Country d) (State d) (DateOfBirth d)
    (truncate (Sex d) 50) None
    ((λ b, mkBillingInfo (truncate (AddressLine1 b) 200) (truncate (AddressLine2 b) 200) (truncate (City b) 100)
             (truncate (PostalCode b) 20) (BCountry b) (truncate (VATID b) 50)) <$> Billing d)
    (Dynamic d) None.

Definition ih_audit (h : IdentityHandler) (c : Caller) (event userID detail : string) : prog unit :=
  if ih_auditLog h then log_event event userID "" (c_ip c) detail else Ret tt.
Definition logConsent (h : IdentityHandler) (c : Caller) (userID : string) (granted : bool) (source : string) : prog unit :=
  ih_audit h c (if granted then "consent_granted" else "consent_withdrawn") userID source.

Definition HGetIdentity (h : IdentityHandler) (c : Caller) : prog (answer (IdentityData * Z)) :=
  match c_claims c with
  | None => Ret (Refused 401 "unauthorized")
  | Some claims =>
      r <- GetIdentity (ih_svc h) (Subject claims) ;;
      match r with
      | Err _ => Ret (Refused 500 "internal_error")
      | Ok None => Ret (Refused 404 "identity_not_found")
      | Ok (Some x) => ih_audit h c "identity_read" (Subject claims) "" ;;; Ret (Replied x)
      end
  end.
Definition HPutIdentity (h : IdentityHandler) (c : Caller) (body : option identityInput) : prog (answer string) :=
  match c_claims c with
  | None => Ret (Refused 401 "unauthorized")
  | Some claims =>
      match body with
      | None => Ret (Refused 400 "invalid_request")
      | Some input =>
          now <- call SNow ;;
          match validateIdentity now (in_data input) with
          | Some m => Ret (Refused 400 m)
          | None =>
              r <- PutProfile (ih_svc h) (Subject claims) (truncated (in_data input)) (in_MarketingEmails input) ;;
              match r with
              | Err ErrInvalidProfile => Ret (Refused 400 "invalid_profile")
              | Err ErrConcurrentUpdate => Ret (Refused 409 "concurrent_update")
              | Err _ => Ret (Refused 500 "internal_error")
              | Ok (stored, changed) =>
                  (match stored with
                   | Some rec => if changed then logConsent h c (Subject claims) (Granted rec) ConsentSourceProfile else Ret tt
                   | None => Ret tt
                   end) ;;;
                  ih_audit h c "identity_write" (Subject claims) "" ;;;
                  Ret (Replied "updated")
              end
          end
      end
  end.
Definition HDeleteIdentity (h : IdentityHandler) (c : Caller) : prog (answer string) :=
  match c_claims c with
  | None => Ret (Refused 401 "unauthorized")
  | Some claims =>
      r <- DeleteIdentity (ih_svc h) (Subject claims) ;;
      match r with
      | Err _ => Ret (Refused 500 "internal_error")
      | Ok _ => ih_audit h c "identity_delete" (Subject claims) "" ;;; Ret (Replied "deleted")
      end
  end.
Definition Unsubscribe (h : IdentityHandler) (c : Caller) : prog (answer string) :=
  match c_claims c with
  | None => Ret (Refused 401 "unauthorized")
  | Some claims =>
      r <- UpdateMarketingConsent (ih_svc h) (Subject claims) false ConsentSourceUnsubscribe "" ;;
      match r with
      | Err ErrConcurrentUpdate => Ret (Refused 409 "concurrent_update")
      | Err _ => Ret (Refused 500 "internal_error")
      | Ok _ => logConsent h c (Subject claims) false ConsentSourceUnsubscribe ;;; Ret (Replied "unsubscribed")
      end
  end.
End identity.
