(* ===== verification/IdentityFacts.v ===== *)
(** * IdentityFacts: profiles survive their encoding, and what becomes of a consent

    [json.Unmarshal] of [json.Marshal] of an [IdentityData] is that record:
    every field, the optional ones, the dynamic map and the date of the consent. *)
From S2P Require Import Prelude GoStd Cache Crypto Json Bytes GoTime JsonEnc Runes NetIP Aes Model TokenStore PersonalStore Effects Random StoreWp Reasoning BlobFacts TokenService Lockout Session Login SecondFactor Recover Identity.
From stdpp Require Import list gmap sorting.
From Stdlib Require Import Ascii.
Open Scope string_scope.
Open Scope Z_scope.
Open Scope prog_scope.

(** ** What can be written
    Text is UTF-8 ([json.Unmarshal] yields nothing else). *)
Definition billing_ok (b : BillingInfo) : bool :=
  forallb valid_utf8 [AddressLine1 b; AddressLine2 b; City b; PostalCode b; BCountry b; VATID b].
Definition consent_ok (c : ConsentRecord) : bool := valid_utf8 (Source c) && valid_utf8 (Origin c).
Definition data_ok (d : IdentityData) : bool :=
  forallb valid_utf8 [GivenName d; FamilyName d; Username d; Country d; State d; DateOfBirth d; Sex d] &&
  from_option billing_ok true (Billing d) &&
  forallb (λ p, valid_utf8 p.1 && json_ok p.2) (map_to_list (Dynamic d)) &&
  from_option consent_ok true (MarketingConsent d).

(** ** Members *)
Lemma member_ok k v : valid_utf8 k = true → valid_utf8 v = true → json_ok (JObj (str_member k v)) = true.
Proof. intros Hk Hv. unfold str_member. case_decide; [done|]. cbn. by rewrite Hk, Hv. Qed.
Lemma members_ok a b : json_ok (JObj a) = true → json_ok (JObj b) = true → json_ok (JObj (a ++ b)) = true.
Proof. cbn. rewrite forallb_app. by intros -> ->. Qed.

Lemma single_ok k v : valid_utf8 k = true → json_ok v = true → json_ok (JObj [(k, v)]) = true.
Proof. intros Hk Hv. cbn. by rewrite Hk, Hv. Qed.

Lemma struct_step {A} (set : A → string → json → option A) (old new : A) k v rest :
  set old (ToLower k) v = Some new → into_struct set old ((k, v) :: rest) = into_struct set new rest.
Proof. unfold into_struct. cbn. by intros ->. Qed.
Lemma member_step {A} (set : A → string → json → option A) (old new : A) k v rest :
  set old (ToLower k) (JStr v) = Some new → (v = "" → old = new) →
  into_struct set old (str_member k v ++ rest) = into_struct set new rest.
Proof.
  intros Hs Hn. unfold str_member. case_decide as Hv; [by rewrite (Hn Hv)|]. by apply struct_step.
Qed.

(** ** The dynamic map *)
Lemma into_dynamic_list (m : list (string * json)) (old : gmap string json) : NoDup m.*1 →
  fold_left (λ acc p, <[p.1 := p.2]> acc) m old = list_to_map m ∪ old.
Proof.
  revert old. induction m as [|[k v] m IH]; intros old Hn; cbn; [by rewrite map_empty_union|].
  apply NoDup_cons in Hn as [Hk Hn]. rewrite IH by done. cbn. rewrite <- insert_union_l, insert_union_r; [done|].
  by apply not_elem_of_list_to_map_1.
Qed.
Lemma dynamic_round_trip m : into_dynamic ∅ (encode_dynamic m) = Some m.
Proof.
  unfold into_dynamic, encode_dynamic. pose proof (merge_sort_Permutation key_le (map_to_list m)) as Hp.
  assert (Hn : NoDup ((merge_sort key_le (map_to_list m)).*1)) by (rewrite Hp; apply NoDup_fst_map_to_list).
  rewrite into_dynamic_list by done. rewrite map_union_empty. f_equal.
  rewrite (list_to_map_proper _ _ Hn Hp). apply list_to_map_to_list.
Qed.
Lemma dynamic_json_ok m : forallb (λ p, valid_utf8 p.1 && json_ok p.2) (map_to_list m) = true → json_ok (encode_dynamic m) = true.
Proof.
  rewrite !forallb_forall. intros Hm. unfold encode_dynamic. cbn. apply forallb_forall. intros x Hx. apply Hm.
  by rewrite <- list_elem_of_In, <- (merge_sort_Permutation key_le (map_to_list m)), list_elem_of_In.
Qed.

(** ** The record *)
Lemma encode_consent_ok c v : consent_ok c = true → encode_consent c = Some v → json_ok v = true.
Proof.
  intros Hc. apply andb_true_iff in Hc as [Hs Ho]. unfold encode_consent. destruct (FormatRFC3339 (At c)) as [t|] eqn:Et; [|done].
  intros [= <-].
  apply (members_ok [("granted", _); ("at", _); ("source", _)]); [|by apply member_ok]. cbn. by rewrite (date_ascii _ _ Et), Hs.
Qed.
Lemma consent_round_trip c v : encode_consent c = Some v → into_pointer set_record zero_record None v = Some (Some c).
Proof.
  unfold encode_consent. destruct c as [g a s o]. cbn [At Granted Source Origin]. destruct (FormatRFC3339 a) as [t|] eqn:Et; [|done].
  intros [= <-]. unfold into_pointer. cbn [default zero_record app].
  rewrite (struct_step _ _ (mkConsentRecord g zero_time "" "")) by done.
  rewrite (struct_step _ _ (mkConsentRecord g a "" "")) by (cbn; by rewrite (ParseRFC3339_Format _ _ Et)).
  rewrite (struct_step _ _ (mkConsentRecord g a s "")) by done.
  rewrite <- (app_nil_r (str_member _ _)). by rewrite (member_step _ _ (mkConsentRecord g a s o)) by (done || by intros ->).
Qed.
Lemma billing_round_trip b : into_pointer set_billing zero_billing None (encode_billing b) = Some (Some b).
Proof.
  destruct b as [l1 l2 ci po co va]. unfold encode_billing, into_pointer. cbn [AddressLine1 AddressLine2 City PostalCode BCountry VATID default zero_billing].
  rewrite (member_step _ _ (mkBillingInfo l1 "" "" "" "" "")) by (done || by intros ->).
  rewrite (member_step _ _ (mkBillingInfo l1 l2 "" "" "" "")) by (done || by intros ->).
  rewrite (member_step _ _ (mkBillingInfo l1 l2 ci "" "" "")) by (done || by intros ->).
  rewrite (member_step _ _ (mkBillingInfo l1 l2 ci po "" "")) by (done || by intros ->).
  rewrite (member_step _ _ (mkBillingInfo l1 l2 ci po co "")) by (done || by intros ->).
  rewrite <- (app_nil_r (str_member _ _)). by rewrite (member_step _ _ (mkBillingInfo l1 l2 ci po co va)) by (done || by intros ->).
Qed.
Lemma billing_json_ok b : billing_ok b = true → json_ok (encode_billing b) = true.
Proof.
  unfold billing_ok, encode_billing. cbn [forallb]. rewrite !andb_true_iff. intros (H1 & H2 & H3 & H4 & H5 & H6 & _).
  repeat first [by apply member_ok | apply members_ok].
Qed.

Lemma encode_identity_ok d j : data_ok d = true → encode_identity d = Some j → json_ok j = true.
Proof.
  unfold data_ok, encode_identity. rewrite !andb_true_iff. cbn [forallb]. rewrite !andb_true_iff.
  intros [[[(H1 & H2 & H3 & H4 & H5 & H6 & H7 & _) Hb] Hd] Hc].
  destruct (match MarketingConsent d with None => _ | Some _ => _ end) as [c|] eqn:Ec; [|done].
  cbn [mbind option_bind]. intros [= <-].
  repeat first [by apply member_ok | apply members_ok].
  - by destruct (MarketingEmails d).
  - destruct (Billing d) as [b|]; [|done]. apply single_ok; [done|by apply billing_json_ok].
  - case_decide; [done|]. apply single_ok; [done|by apply dynamic_json_ok].
  - destruct (MarketingConsent d) as [r|]; [|by injection Ec as <-]. destruct (encode_consent r) as [v|] eqn:Ev; [|done].
    injection Ec as <-. apply single_ok; [done|by eapply encode_consent_ok].
Qed.
Lemma into_identity d j : encode_identity d = Some j → ∃ m, j = JObj m ∧ into_struct set_identity no_identity m = Some d.
Proof.
  unfold encode_identity. destruct d as [gn fn un co st dob sx me bi dy mc].
  cbn [GivenName FamilyName Username Country State DateOfBirth Sex MarketingEmails Billing Dynamic MarketingConsent].
  destruct (match mc with None => _ | Some _ => _ end) as [c|] eqn:Ec; [|done]. cbn [mbind option_bind]. intros [= <-].
  eexists. split; [done|]. unfold no_identity.
  rewrite (member_step _ _ (mkIdentityData gn "" "" "" "" "" "" None None ∅ None)) by (done || by intros ->).
  rewrite (member_step _ _ (mkIdentityData gn fn "" "" "" "" "" None None ∅ None)) by (done || by intros ->).
  rewrite (member_step _ _ (mkIdentityData gn fn un "" "" "" "" None None ∅ None)) by (done || by intros ->).
  rewrite (member_step _ _ (mkIdentityData gn fn un co "" "" "" None None ∅ None)) by (done || by intros ->).
  rewrite (member_step _ _ (mkIdentityData gn fn un co st "" "" None None ∅ None)) by (done || by intros ->).
  rewrite (member_step _ _ (mkIdentityData gn fn un co st dob "" None None ∅ None)) by (done || by intros ->).
  rewrite (member_step _ _ (mkIdentityData gn fn un co st dob sx None None ∅ None)) by (done || by intros ->).
  trans (into_struct set_identity (mkIdentityData gn fn un co st dob sx me None ∅ None)
    (match bi with None => [] | Some b => [("billing", encode_billing b)] end ++
     (if decide (dy = ∅) then [] else [("dynamic", encode_dynamic dy)]) ++ c)); [by destruct me|].
  trans (into_struct set_identity (mkIdentityData gn fn un co st dob sx me bi ∅ None)
    ((if decide (dy = ∅) then [] else [("dynamic", encode_dynamic dy)]) ++ c)).
  { destruct bi as [b|]; [|done]. cbn [app]. apply struct_step.
    change ((x ← into_pointer set_billing zero_billing None (encode_billing b);
            Some (mkIdentityData gn fn un co st dob sx me x ∅ None)) = Some (mkIdentityData gn fn un co st dob sx me (Some b) ∅ None)).
    by rewrite billing_round_trip. }
  trans (into_struct set_identity (mkIdentityData gn fn un co st dob sx me bi dy None) c).
  { case_decide as Hd; [by subst|]. cbn [app]. apply struct_step.
    change ((x ← into_dynamic ∅ (encode_dynamic dy);
            Some (mkIdentityData gn fn un co st dob sx me bi x None)) = Some (mkIdentityData gn fn un co st dob sx me bi dy None)).
    by rewrite dynamic_round_trip. }
  destruct mc as [r|]; [|by injection Ec as <-]. destruct (encode_consent r) as [v|] eqn:Ev; [|done]. injection Ec as <-.
  erewrite struct_step; [done|].
  change ((x ← into_pointer set_record zero_record None v;
          Some (mkIdentityData gn fn un co st dob sx me bi dy x)) = Some (mkIdentityData gn fn un co st dob sx me bi dy (Some r))).
  by rewrite (consent_round_trip _ _ Ev).
Qed.

(** What is written is read back whole. *)
Lemma identity_json_round_trip d j : data_ok d = true → encode_identity d = Some j → decode_identity (Marshal j) = Some d.
Proof.
  intros Hd Hj. unfold decode_identity. rewrite json_round_trip by (by eapply encode_identity_ok).
  by destruct (into_identity d j Hj) as (m & -> & ->).
Qed.

(** * What becomes of a consent

    Every profile write goes through one compare-and-set loop.  Whatever the
    requests of an account do side by side, and wherever their statements fail,
    the stored consent moves only as one of the writers meant it to move: a
    withdrawal is not undone by a profile form that was filled in earlier, and a
    consent keeps its date and source when a form merely repeats it.  Statements
    are a microsecond apart, what a [timestamptz] column resolves. *)

(** ** Consent, on the data alone *)
Lemma normalize_twice d : normalizeConsent (normalizeConsent d) = normalizeConsent d.
Proof. destruct d as [? ? ? ? ? ? ? me ? ? [c|]]; [done|]. by destruct me. Qed.
Lemma normalize_ok d : data_ok d = true → data_ok (normalizeConsent d) = true.
Proof.
  destruct d as [? ? ? ? ? ? ? me ? ? [c|]]; [done|]. destruct me; [|done]. unfold data_ok. cbn. rewrite !andb_true_iff. tauto.
Qed.
Lemma set_consent_ok me c d : data_ok d = true → from_option consent_ok true c = true → data_ok (set_consent me c d) = true.
Proof. unfold data_ok. cbn. rewrite !andb_true_iff. intros [[[? ?] ?] ?] ?. tauto. Qed.
Lemma data_ok_consent d : data_ok d = true → from_option consent_ok true (MarketingConsent d) = true.
Proof. unfold data_ok. rewrite !andb_true_iff. tauto. Qed.

(** Cutting text keeps it text. *)
Lemma truncate_ok x n : valid_utf8 x = true → valid_utf8 (truncate x n) = true.
Proof. intros Hx. unfold truncate. case_match; [done|]. apply of_runes_utf8, Forall_take, runes_pieces. Qed.
Lemma truncated_ok d : data_ok d = true → data_ok (truncated d) = true.
Proof.
  destruct d as [gn fn un co st dob sx me [[l1 l2 ci po bc va]|] dy mc]; unfold data_ok, billing_ok; cbn; rewrite !andb_true_iff;
    intros; destruct_and?; split_and?; auto using truncate_ok.
Qed.

(** ** The row of one account *)
Section consent.
Context {C : Type} `{CacheOps C} `{Primitives} `{AEADLaws}.
#[local] Notation "'W'" := (World C).
Implicit Types w : W.
Context (s : IdentityService) (userID : string).

Definition row w : option IdentityProfile := profiles (personal w) !! id_Pseudonym s userID.
Definition stored w : option ConsentRecord :=
  match row w with
  | Some p => match open_profile s (id_Pseudonym s userID) p with Ok d => MarketingConsent d | Err _ => None end
  | None => None
  end.
(** A row that opens, and was written in the past. *)
Definition legible w : Prop := ∀ p, row w = Some p →
  IUpdatedAt p ≤ clock w ∧ ∃ d, open_profile s (id_Pseudonym s userID) p = Ok d ∧ data_ok d = true.

(** What a request relies on: nobody garbles or deletes the row, and a row that
    changed carries a later date. *)
Definition rely w w' : Prop :=
  (legible w → legible w') ∧ clock w ≤ clock w' ∧
  (row w' = row w ∨ ∃ p', row w' = Some p' ∧ ∀ p, row w = Some p → IUpdatedAt p < IUpdatedAt p').
#[global] Instance rely_preorder : PreOrder rely.
Proof.
  split; [intros w; unfold rely; auto with lia|]. intros w1 w2 w3 (HL & Hc & Hr) (HL' & Hc' & Hr').
  split; [auto|]. split; [lia|]. destruct Hr' as [->|(p3 & E3 & L3)]; [by destruct Hr as [->|]; auto|].
  right. exists p3. split; [done|]. destruct Hr as [E|(p2 & E2 & L2)]; [by rewrite <- E|].
  intros p Hp. specialize (L2 p Hp). specialize (L3 p2 E2). lia.
Qed.
(** A microsecond passes between two statements. *)
Definition paced (c : Effects.choice) : Prop := 1000 ≤ c_tick c.

(** What it guarantees: the consent moves as [E] allows. *)
Context (E : option ConsentRecord → option ConsentRecord → Prop).
Definition guarantee w w' : Prop := rely w w' ∧ (legible w → row w' = row w ∨ E (stored w) (stored w')).

Lemma quiet_guarantee {B} (st : stmt B) c w : personal (perform c st w).2 = personal w → guarantee w (perform c st w).2.
Proof.
  intros Hp. pose proof (perform_clock c st w) as Hc. assert (Hr : row (perform c st w).2 = row w) by (unfold row; by rewrite Hp).
  split; [|auto]. split; [|auto]. intros HL p. rewrite Hr. intros Hrow. destruct (HL p Hrow) as [Ht Ho]. split; [lia|done].
Qed.
#[local] Abbreviation walks := (gwp paced rely guarantee).

Lemma walks_quiet {B A} (st : stmt B) (k : B → prog A) Q w :
  (∀ c w1, personal (perform c st w1).2 = personal w1) →
  (∀ w1 c, rely w w1 → rely w (perform c st w1).2 → paced c → row (perform c st w1).2 = row w1 →
     walks (k (perform c st w1).1) Q (perform c st w1).2) → walks (Do st k) Q w.
Proof.
  intros Hq Hk w1 c Hw Hc. pose proof (quiet_guarantee st c w1 (Hq c w1)) as HG. split; [done|].
  apply Hk; [done|etrans; [done|apply HG]|done|]. unfold row. by rewrite Hq.
Qed.
Lemma reads_quiet {B} (f : PersonalDB → B) c w : personal (perform c (reads f) w).2 = personal w.
Proof. cbn. by destruct (c_db c). Qed.
Lemma random_quiet c w : personal (perform c SRandom w).2 = personal w.
Proof. cbn. by destruct (c_dry c). Qed.

(** ** The compare-and-set *)
(** The row a write leaves, when what it read is still there. *)
Definition fresh_row (enc : string) (now : Z) (p : IdentityProfile) : Prop :=
  DataEnc p = enc ∧ IUpdatedAt p = timestamptz now.
Lemma timestamptz_bounds t : timestamptz t ≤ t < timestamptz t + 1000.
Proof. unfold timestamptz. pose proof (Z.div_mod t 1000). pose proof (Z.mod_pos_bound t 1000). lia. Qed.

Lemma UpsertCAS_row enc now w0 w1 ok t' : rely w0 w1 →
  UpsertCAS (mkIdentityProfile (id_Pseudonym s userID) enc now now) (IUpdatedAt <$> row w0) (personal w1) = (ok, t') →
  (t' = personal w1 ∧ ok = false) ∨
  (row w1 = row w0 ∧ ∃ p, fresh_row enc now p ∧ profiles t' !! id_Pseudonym s userID = Some p).
Proof.
  intros (_ & _ & Hr). unfold UpsertCAS. cbn [PseudonymID].
  change (profiles (personal w1) !! id_Pseudonym s userID) with (row w1).
  destruct (row w0) as [p0|] eqn:E0, (row w1) as [p1|] eqn:E1; cbn [fmap option_fmap option_map];
    try (intros [= <- <-]; by left).
  - destruct (Z.eqb_spec (IUpdatedAt p1) (IUpdatedAt p0)) as [Ht|]; intros [= <- <-]; [|by left].
    right. split; [destruct Hr as [Hr|(p' & [= <-] & Hp)]; [done|specialize (Hp p0 eq_refl); lia]|].
    eexists. split; [|cbn; apply lookup_insert_eq]. done.
  - intros [= <- <-]. right. split; [done|]. eexists. split; [|cbn; apply lookup_insert_eq]. done.
Qed.

(** The write of a loop that read [w0] at least a microsecond before [now]. *)
Lemma cas_guarantee enc now d w0 w1 c : legible w1 → rely w0 w1 → paced c → now ≤ clock w1 →
  (∀ p, row w0 = Some p → IUpdatedAt p + 1000 ≤ now) →
  (∀ p, fresh_row enc now p → open_profile s (id_Pseudonym s userID) p = Ok d) → data_ok d = true →
  E (stored w0) (MarketingConsent d) →
  guarantee w1 (perform c (writes (UpsertCAS (mkIdentityProfile (id_Pseudonym s userID) enc now now) (IUpdatedAt <$> row w0))) w1).2.
Proof.
  intros HL HR Hc Hnow Hp0 Hopen Hd HE. cbn.
  destruct (UpsertCAS _ _ _) as [ok t'] eqn:Eu. apply (UpsertCAS_row enc now w0 w1) in Eu; [|done].
  assert (Hidle : ∀ w', personal w' = personal w1 → clock w1 ≤ clock w' → guarantee w1 w').
  { intros w' Hp Ht. assert (Hr : row w' = row w1) by (unfold row; by rewrite Hp). split; [|auto]. split; [|auto].
    intros HL' p. rewrite Hr. intros Hrow. destruct (HL' p Hrow) as [? Ho]. split; [lia|done]. }
  assert (Hw : ∀ w', personal w' = t' → clock w1 ≤ clock w' → guarantee w1 w').
  { intros w' Hp Ht. destruct Eu as [[-> _]|(Hr & p & [Henc Hat] & Hlook)]; [by apply Hidle|].
    assert (Hrow : row w' = Some p) by (unfold row; by rewrite Hp). pose proof (timestamptz_bounds now).
    specialize (Hopen p (conj Henc Hat)). split; [split; [|split; [done|]]|].
    - intros _ p' Hp'. rewrite Hrow in Hp'. injection Hp' as <-. split; [lia|]. by exists d.
    - right. exists p. split; [done|]. rewrite Hr. intros p0 Hp0'. specialize (Hp0 p0 Hp0'). lia.
    - intros _. right. assert (stored w1 = stored w0) as -> by (unfold stored; by rewrite Hr).
      unfold stored at 2. rewrite Hrow, Hopen. done. }
  destruct (c_db c); cbn; [apply Hw|apply Hidle|apply Hw]; cbn; solve [done|lia].
Qed.

(** ** The loop *)
(** A writer reads whole records and moves the consent as [E] allows. *)
Definition sound_edit {A} (edit : Z → option IdentityData → IdentityData * A) : Prop :=
  ∀ now existing, from_option data_ok true existing = true →
    data_ok (edit now existing).1 = true ∧ E (existing ≫= MarketingConsent) (MarketingConsent (normalizeConsent (edit now existing).1)).

Lemma seal_profile_walks d (Q : res identityErr string → W → Prop) w :
  data_ok d = true → (∀ w' e, rely w w' → Q (Err e) w') →
  (∀ w' enc, rely w w' → (∀ p, DataEnc p = enc → open_profile s (id_Pseudonym s userID) p = Ok (normalizeConsent d)) → Q (Ok enc) w') →
  walks (seal_profile s userID d) Q w.
Proof.
  intros Hd He Hk. unfold seal_profile. destruct (negb (Validate d)); [by apply He; reflexivity|].
  destruct (encode_identity (normalizeConsent d)) as [j|] eqn:Ej; [|by apply He; reflexivity].
  unfold encrypt, RandomBytes. cbn [bind call]. apply walks_quiet; [apply random_quiet|]. intros w1 c _ HR _ _.
  assert (Hopen : ∀ n enc, String.length n = nonceSize → Encrypt (Marshal j) (id_masterKey s) (id_Pseudonym s userID) (Some n) = Some enc →
    ∀ p, DataEnc p = enc → open_profile s (id_Pseudonym s userID) p = Ok (normalizeConsent d)).
  { intros n enc Hn Hs p <-. unfold open_profile. rewrite (Decrypt_Encrypt _ _ _ _ _ _ Hn Hs), decide_True by done.
    rewrite (identity_json_round_trip _ _ (normalize_ok _ Hd) Ej). by rewrite normalize_twice. }
  destruct (perform c SRandom w1) as [[b|e] w2]; cbn -[nonceSize Nat.ltb take_str Encrypt] in *.
  - destruct (Nat.ltb_spec (String.length b) nonceSize) as [|Hb]; cbn -[nonceSize Nat.ltb take_str Encrypt].
    + destruct (Encrypt _ _ _ None) as [x|] eqn:Ex; [|by apply He]. unfold Encrypt in Ex. by destruct (negb _).
    + destruct (Encrypt _ _ _ (Some _)) as [x|] eqn:Ex; [|by apply He]. apply Hk; [done|]. apply (Hopen _ _ (take_str_full _ _ Hb) Ex).
  - destruct (Encrypt _ _ _ None) as [x|] eqn:Ex; [|by apply He]. unfold Encrypt in Ex. by destruct (negb _).
Qed.

(** What a loop read: the opened row and its date. *)
Definition snapshot w : option (IdentityData * Z) :=
  p ← row w; match open_profile s (id_Pseudonym s userID) p with Ok d => Some (d, IUpdatedAt p) | Err _ => None end.
Lemma snapshot_spec w : legible w →
  snd <$> snapshot w = IUpdatedAt <$> row w ∧ (fst <$> snapshot w) ≫= MarketingConsent = stored w ∧
  from_option data_ok true (fst <$> snapshot w) = true.
Proof.
  intros HL. unfold snapshot, stored. destruct (row w) as [p|] eqn:Er; [|done]. cbn. destruct (HL p Er) as (_ & d & -> & Hd). done.
Qed.
Lemma upsertCAS_walks d w0 w (Q : res identityErr bool → W → Prop) :
  data_ok d = true → E (stored w0) (MarketingConsent (normalizeConsent d)) → legible w0 → rely w0 w →
  (∀ r w', legible w' → Q r w') → walks (upsertCAS s userID d (IUpdatedAt <$> row w0)) Q w.
Proof.
  intros Hd HE HL0 HR0 HQ. unfold upsertCAS. apply gwp_bind. apply seal_profile_walks; [done| |].
  { intros w' e HR. apply HQ. apply HR, HR0, HL0. }
  intros w1 enc HR1 Hopen. cbn [bind call].
  intros w2 c HR2 Hc. split; [by apply quiet_guarantee|]. intros w3 c' HR3 Hc'.
  assert (HR13 : rely w0 w2) by (by etrans; [|etrans]). assert (HL2 : legible w2) by (by apply HR13).
  assert (HGq : guarantee w2 (perform c SNow w2).2) by (by apply quiet_guarantee).
  assert (HR03 : rely w0 w3) by (etrans; [done|]; etrans; [apply HGq|done]).
  assert (Hnow : clock w2 + 1000 ≤ (perform c SNow w2).1) by (cbn; unfold paced in Hc; lia).
  assert (HG : guarantee w3 (perform c' (writes (UpsertCAS (mkIdentityProfile (id_Pseudonym s userID) enc (perform c SNow w2).1 (perform c SNow w2).1)
                 (IUpdatedAt <$> row w0))) w3).2).
  { apply cas_guarantee with (d := normalizeConsent d) (w0 := w0); try done.
    - by apply HR03.
    - destruct HR3 as (_ & Ht & _). exact Ht.
    - intros p Hp. destruct (HL0 p Hp) as [Ht _]. destruct HR13 as (_ & Ht' & _). lia.
    - intros p [Henc _]. by apply Hopen.
    - by apply normalize_ok. }
  split; [exact HG|]. cbn [gwp]. apply HQ. apply HG. by apply HR03.
Qed.
Lemma cas_loop_walks {A} n (edit : Z → option IdentityData → IdentityData * A) w :
  sound_edit edit → legible w → walks (cas_loop n s userID edit) (λ _ w', legible w') w.
Proof.
  intros Hedit. revert w. induction n as [|n IH]; intros w HL; [done|]. cbn [cas_loop]. unfold GetIdentity. cbn [bind call].
  apply walks_quiet; [apply reads_quiet|]. intros w1 c _ HR2 _ Hrow.
  assert (Hans : (perform c (reads (GetByPseudonym (id_Pseudonym s userID))) w1).1 = Ok (row w1) ∨
                 (perform c (reads (GetByPseudonym (id_Pseudonym s userID))) w1).1 = Err ErrDB) by (cbn; destruct (c_db c); auto).
  destruct (perform c (reads _) w1) as [r w2]. cbn [fst snd] in *. assert (HL2 : legible w2) by (by apply HR2).
  destruct Hans as [-> | ->]; [|done]. rewrite <- Hrow. cbn [bind].
  assert (Hx : (match row w2 with
     | None => Ok None
     | Some p => match open_profile s (id_Pseudonym s userID) p with Ok d => Ok (Some (d, IUpdatedAt p)) | Err e => Err e end
     end : res identityErr _) = Ok (snapshot w2)).
  { unfold snapshot. destruct (row w2) as [p|] eqn:Er; [|done]. cbn. by destruct (HL2 p Er) as (_ & d & -> & _). }
  rewrite Hx. clear Hx. destruct (snapshot_spec w2 HL2) as (Hat & Hc & Hok).
  cbn [bind call]. apply walks_quiet; [done|]. intros w3 c3 _ HR3 _ _. destruct (perform c3 SNow w3) as [now w4]. cbn [fst snd] in *.
  destruct (Hedit now (fst <$> snapshot w2) Hok) as [Hd HE]. destruct (edit now _) as [d a]. cbn [fst] in Hd, HE. rewrite Hat, Hc in *.
  apply gwp_bind. apply upsertCAS_walks with (w0 := w2); [done|done|done|done|].
  intros [[]|e] w' HL'; [done|by apply IH|done].
Qed.

(** ** The requests of the account *)
#[local] Abbreviation keeps p w := (walks p (λ _ w', legible w') w).
Lemma audit_walks h c event u detail w : legible w → keeps (ih_audit h c event u detail) w.
Proof.
  intros HL. unfold ih_audit, log_event. destruct (ih_auditLog h); [|done]. apply walks_quiet; [done|]. intros w1 c1 _ HR _ _. by apply HR.
Qed.
Lemma GetIdentity_walks w : legible w → keeps (GetIdentity s userID) w.
Proof.
  intros HL. unfold GetIdentity. cbn [bind call]. apply walks_quiet; [apply reads_quiet|]. intros w1 c1 _ HR _ _. by apply HR.
Qed.
Context (h : IdentityHandler) (c : Caller) (claims : VaultClaims).
Context (Hsvc : ih_svc h = s) (Hclaims : c_claims c = Some claims) (Hsub : Subject claims = userID).

Lemma HGetIdentity_walks w : legible w → keeps (HGetIdentity h c) w.
Proof.
  intros HL. unfold HGetIdentity. rewrite Hclaims, Hsvc, Hsub. apply gwp_bind. eapply gwp_mono; [|by apply GetIdentity_walks].
  intros [[x|]|e] w' HL'; [|done|done]. apply gwp_bind. eapply gwp_mono; [|by apply audit_walks]. done.
Qed.
Lemma HPutIdentity_walks body w : legible w →
  (∀ i, body = Some i → data_ok (in_data i) = true ∧
     ∀ now prior, from_option consent_ok true prior = true → E prior (MarketingConsent (normalizeConsent
        (ReconcileMarketingConsent now (in_MarketingEmails i) prior (truncated (in_data i))).1))) →
  keeps (HPutIdentity h c body) w.
Proof.
  intros HL Hb. unfold HPutIdentity. rewrite Hclaims, Hsvc, Hsub. destruct body as [i|]; [|done].
  destruct (Hb i eq_refl) as [Hd HE]. cbn [bind call]. apply walks_quiet; [done|]. intros w1 c1 _ HR _ _.
  assert (HL' : legible (perform c1 SNow w1).2) by (by apply HR). destruct (perform c1 SNow w1) as [now w2]. cbn [fst snd] in *.
  destruct (validateIdentity _ _); [done|]. apply gwp_bind. unfold PutProfile. eapply gwp_mono; [|apply cas_loop_walks; [|done]].
  - intros [[st changed]|e] w' HLw; [|by destruct e]. apply gwp_bind.
    apply gwp_mono with (Q := λ _ w', legible w').
    { intros _ w3 HL3. apply gwp_bind. eapply gwp_mono; [|by apply audit_walks]. done. }
    destruct st as [rec|]; [|done]. destruct changed; [|done]. by apply audit_walks.
  - intros now' existing Hex.
    assert (Hprior : from_option consent_ok true (existing ≫= MarketingConsent) = true).
    { destruct existing as [d|]; [|done]. by apply data_ok_consent. }
    specialize (HE now' _ Hprior).
    pose proof (truncated_ok _ Hd) as Ht. revert HE.
    destruct (in_MarketingEmails i) as [b|], (existing ≫= MarketingConsent) as [k|]; unfold ReconcileMarketingConsent;
      try destruct (Bool.eqb _ _); cbn [fst]; intros HE; (split; [by apply set_consent_ok|exact HE]).
Qed.
Lemma Unsubscribe_walks w : legible w →
  (∀ now prior, E prior (Some (mkConsentRecord false now ConsentSourceUnsubscribe ""))) → keeps (Unsubscribe h c) w.
Proof.
  intros HL HE. unfold Unsubscribe. rewrite Hclaims, Hsvc, Hsub. apply gwp_bind. eapply gwp_mono; [|apply cas_loop_walks; [|done]].
  - intros [[]|e] w' HL'; [|by destruct e]. apply gwp_bind. eapply gwp_mono; [|by apply audit_walks]. done.
  - intros now existing Hex. split; [|apply HE]. apply set_consent_ok; [|done]. by destruct existing.
Qed.
End consent.

(** ** Side by side *)
Section together.
Context {C : Type} `{CacheOps C} `{Primitives} `{AEADLaws}.
Implicit Types w : World C.
Context (h : IdentityHandler) (userID : string).

(** A request of the account: a read, a profile form whose tick box [allowed]
    admits, or a withdrawal where [leave] is set. *)
Definition account_request (allowed : option bool → Prop) (leave : bool) (p : prog unit) : Prop :=
  ∃ c claims, c_claims c = Some claims ∧ Subject claims = userID ∧
    (p = (HGetIdentity h c ;;; Ret tt) ∨
     (∃ body, (∀ i, body = Some i → data_ok (in_data i) = true ∧ allowed (in_MarketingEmails i)) ∧ p = (HPutIdentity h c body ;;; Ret tt)) ∨
     (leave = true ∧ p = (Unsubscribe h c ;;; Ret tt))).
(** Everything else leaves the row alone. *)
Definition elsewhere w w' : Prop := row (ih_svc h) userID w' = row (ih_svc h) userID w ∧ clock w ≤ clock w'.
Lemma elsewhere_rely w w' : elsewhere w w' → rely (ih_svc h) userID w w'.
Proof.
  intros [Hr Ht]. split; [|auto]. intros HL p. rewrite Hr. intros Hp. destruct (HL p Hp) as [? Ho]. split; [lia|done].
Qed.

Lemma account_walks (E : option ConsentRecord → option ConsentRecord → Prop) allowed leave p w :
  (∀ b now prior d, allowed b → E prior (MarketingConsent (normalizeConsent (ReconcileMarketingConsent now b prior (truncated d)).1))) →
  (leave = true → ∀ now prior, E prior (Some (mkConsentRecord false now ConsentSourceUnsubscribe ""))) →
  account_request allowed leave p → legible (ih_svc h) userID w →
  gwp paced (rely (ih_svc h) userID) (guarantee (ih_svc h) userID E) p (λ _ _, True) w.
Proof.
  intros Hput Hun (c & claims & Hc & Hs & Hp) HL.
  destruct Hp as [->|[(body & Hb & ->)|[Hlv ->]]]; apply gwp_bind; (apply gwp_mono with (Q := λ _ w', legible (ih_svc h) userID w'); [done|]).
  - by apply HGetIdentity_walks with (claims := claims).
  - apply HPutIdentity_walks with (claims := claims); [done..|]. intros i Hi. destruct (Hb i Hi) as [Hd Ha]. split; [done|].
    intros now prior _. by apply Hput.
  - apply Unsubscribe_walks with (claims := claims); auto.
Qed.

(** Which moves of the consent every one of [E] keeps, the pool keeps. *)
Lemma account_pool (E : option ConsentRecord → option ConsentRecord → Prop) allowed leave (K : option ConsentRecord → Prop) w0 ps w :
  (∀ b now prior d, allowed b → E prior (MarketingConsent (normalizeConsent (ReconcileMarketingConsent now b prior (truncated d)).1))) →
  (leave = true → ∀ now prior, E prior (Some (mkConsentRecord false now ConsentSourceUnsubscribe ""))) →
  (∀ a b, E a b → K a → K b) → legible (ih_svc h) userID w0 → K (stored (ih_svc h) userID w0) →
  rtc (pool_step (account_request allowed leave) (λ c _, paced c) elsewhere) ([], w0) (ps, w) → K (stored (ih_svc h) userID w).
Proof.
  intros Hput Hun HK HL HK0 Hr.
  apply (pool_guarantee paced (rely (ih_svc h) userID) (guarantee (ih_svc h) userID E) ltac:(by intros ? ? [? _])
    (account_request allowed leave) elsewhere
    (λ w, legible (ih_svc h) userID w ∧ K (stored (ih_svc h) userID w)) w0 ps w); try done.
  - intros p w' Hp HR. eapply account_walks; eauto. by apply HR.
  - apply elsewhere_rely.
  - assert (Hsame : ∀ v v' : World C, row (ih_svc h) userID v' = row (ih_svc h) userID v → K (stored (ih_svc h) userID v) → K (stored (ih_svc h) userID v')).
    { intros v v' Hv. unfold stored. by rewrite Hv. }
    intros v v' [HLv HKv] [[HR HG]|Ho].
    + split; [by apply HR|]. destruct (HG HLv) as [Hv|HE]; [by eapply Hsame|by eapply HK].
    + split; [by apply elsewhere_rely in Ho as [? _]; auto|]. eapply Hsame; [apply Ho|done].
Qed.

(** C10.  A withdrawal stands.  Once the stored consent is a refusal, no run of
    the account's reads, withdrawals and profile forms that do not tick the box
    themselves makes it anything else, however their statements interleave and
    wherever the database fails: a form filled in before the withdrawal and
    sent after it, or one whose write races it, cannot bring the consent back. *)
Theorem withdrawal_survives w0 ps w :
  legible (ih_svc h) userID w0 → Granted <$> stored (ih_svc h) userID w0 = Some false →
  rtc (pool_step (account_request (λ b, b ≠ Some true) true) (λ c _, paced c) elsewhere) ([], w0) (ps, w) →
  Granted <$> stored (ih_svc h) userID w = Some false.
Proof.
  apply (account_pool (λ a b, Granted <$> a = Some false → Granted <$> b = Some false) _ _ (λ a, Granted <$> a = Some false)); [|done|tauto].
  intros b now [c|] d Hb; [|done]. intros [= Hc]. destruct b as [[]|]; [done| |]; cbn; rewrite Hc; cbn; by rewrite ?Hc.
Qed.

(**  A consent is not renewed by repetition.  While the account's profile
    forms tick the box or leave it out, the record of a granted consent (its date,
    its source, its origin) stays the one it was: a form that repeats the stored
    value never dates the consent anew or turns an imported or legacy tick box into
    one given in the profile. *)
Theorem consent_is_not_laundered w0 c ps w :
  legible (ih_svc h) userID w0 → stored (ih_svc h) userID w0 = Some c → Granted c = true →
  rtc (pool_step (account_request (λ b, b ≠ Some false) false) (λ c _, paced c) elsewhere) ([], w0) (ps, w) →
  stored (ih_svc h) userID w = Some c.
Proof.
  intros HL Hs Hg. apply (account_pool (λ a b, a = Some c → b = Some c) _ _ (λ a, a = Some c)); [|done|tauto|done|done].
  intros b now prior d Hb ->. destruct b as [[]|]; cbn; rewrite ?Hg; cbn; by rewrite ?Hg.
Qed.
End together.

Module IdentityDemo.
#[local] Existing Instance BlobDemo.prims.
#[local] Existing Instance ToyEscrow.aead.
#[local] Existing Instance ToyEscrow.aead_laws.
Definition svc : IdentityService := mkIdentityService ToyEscrow.key "pepper".
Definition h : IdentityHandler := mkIdentityHandler svc true.
Definition claims : VaultClaims := mkClaims "" [] "alice" None None None "" [] [] "" "" None "" "" [] 0 [] "" "".
Definition alice : Caller := mkCaller (Some claims) "ip" "" (mkCtx "" "").
Definition form (box : option bool) (name : string) : option identityInput :=
  Some (mkIdentityInput (mkIdentityData name "" "" "" "" "" "" None None ∅ None) box).
Definition after (box : bool) : World Memory.MemoryCache :=
  (run (HPutIdentity h alice (form (Some box) "Alice")) BlobDemo.oracle Toy.world).2.
(** A stale form, the withdrawal and a repetition, statement by statement in turn. *)
Definition sched : list nat := concat (replicate 40 [0; 1]%nat).
Definition racing (box : option bool) (leave : bool) : list (prog unit) :=
  [(HPutIdentity h alice (form box "Alicia") ;;; Ret tt); (if leave then Unsubscribe h alice ;;; Ret tt else HGetIdentity h alice ;;; Ret tt)].
Definition raced box leave : list (prog unit) * World Memory.MemoryCache := drive sched BlobDemo.oracle (racing box leave) (after (negb leave)).

Lemma oracle_paced n : paced (BlobDemo.oracle n).
Proof. by unfold paced. Qed.
Definition legibleb (w : World Memory.MemoryCache) : bool :=
  match row svc "alice" w with
  | None => true
  | Some p => (IUpdatedAt p <=? clock w) && match open_profile svc (id_Pseudonym svc "alice") p with Ok d => data_ok d | Err _ => false end
  end.
Lemma legibleb_ok w : legibleb w = true → legible svc "alice" w.
Proof.
  unfold legibleb. intros Hb p Hp. rewrite Hp in Hb. apply andb_true_iff in Hb as [Ht Hd]. apply Z.leb_le in Ht. split; [done|].
  destruct (open_profile _ _ p) as [d|]; [by exists d|done].
Qed.
Lemma after_legible box : legible svc "alice" (after box).
Proof. apply legibleb_ok. destruct box; by vm_compute. Qed.
Lemma racing_offered (allowed : option bool → Prop) box leave : allowed box → Forall (account_request h "alice" allowed leave) (racing box leave).
Proof.
  intros Hb. repeat constructor; exists alice, claims; (split; [done|split; [done|]]).
  - right. left. eexists. split; [|done]. by intros i [= <-].
  - destruct leave; [right; right; done|by left].
Qed.
Lemma raced_reachable (allowed : option bool → Prop) box leave : allowed box →
  rtc (pool_step (account_request h "alice" allowed leave) (λ c _, paced c) (elsewhere h "alice"))
    ([], after (negb leave)) (raced box leave).
Proof.
  intros Hb. etrans; [apply (spawn_all _ _ _ (racing box leave)); by apply racing_offered|].
  apply drive_reachable, oracle_paced.
Qed.
(** Both requests ran to their ends, and the profile was rewritten. *)
Lemma raced_ends : (raced None true).1 = [Ret tt; Ret tt] ∧ (raced (Some true) false).1 = [Ret tt; Ret tt].
Proof. split; by vm_compute. Qed.
Lemma withdrawn : Granted <$> stored svc "alice" (after false) = Some false.
Proof. by vm_compute. Qed.

Lemma withdrawal_survives_witness : Granted <$> stored svc "alice" (raced None true).2 = Some false.
Proof.
  apply (withdrawal_survives h "alice" (after false) (raced None true).1 (raced None true).2 (after_legible false) withdrawn).
  destruct (raced None true) as [ps w] eqn:E. cbn [fst snd]. rewrite <- E. apply (raced_reachable _ None true). done.
Defined.

Definition given : ConsentRecord := Eval vm_compute in default zero_record (stored svc "alice" (after true)).
Lemma given_stored : stored svc "alice" (after true) = Some given ∧ Granted given = true.
Proof. split; by vm_compute. Qed.
Lemma consent_is_not_laundered_witness : stored svc "alice" (raced (Some true) false).2 = Some given.
Proof.
  apply (consent_is_not_laundered h "alice" (after true) given (raced (Some true) false).1 (raced (Some true) false).2
    (after_legible true) (proj1 given_stored) (proj2 given_stored)).
  destruct (raced (Some true) false) as [ps w] eqn:E. cbn [fst snd]. rewrite <- E. apply (raced_reachable _ (Some true) false). done.
Defined.
End IdentityDemo.
