(* ===== verification/ServiceDoc.v ===== *)
(** * ServiceDoc: the store of service documents

    Models internal/service/servicedoc.go and internal/handler/servicedoc.go: a
    registered client files JSON documents under (itself, a subject, a key),
    sealed, within quotas, private or shared.

    The quota decision and the write it authorises run in one transaction of the
    repository ([WithSubjectWriteLock]): its reads see the committed table less
    the row the transaction itself deleted, and its writes land together when it
    commits.  [write_section] is that transaction. *)
From S2P Require Import Prelude GoStd Bytes Json JsonEnc Runes Cache Crypto NetIP Aes Model TokenStore PersonalStore Effects Random TokenService Lockout Session Login SecondFactor Erasure StoreWp Recover Identity.
From stdpp Require Import list gmap sorting.
From Stdlib Require Import Ascii.
Open Scope string_scope.
Open Scope Z_scope.
Open Scope prog_scope.

(** ** Limits, errors, configuration *)
Definition svcDocMaxDepth : nat := 32.
Definition svcDocMaxKeys : nat := 1024.
Definition svcDocMaxKeyLen : nat := 128.
Definition svcDocMaxSubjectLen : nat := 128.

Inductive docErr :=
| ErrSvcDocInvalidKey | ErrSvcDocInvalidSubject | ErrSvcDocInvalidDocument | ErrSvcDocTooLarge | ErrSvcDocQuotaExceeded
| ErrSvcDocNotFound | ErrSvcDocAmbiguous | ErrSvcDocSharedDisabled | ErrSvcDocUnknownOwner
| SvcDocFailed (step : string).
#[export] Instance docErr_eq_dec : EqDecision docErr.
Proof. solve_decision. Defined.

Record DocumentConfig := mkDocumentConfig {
  MaxDocumentBytes : Z; MaxDocsPerSubject : Z; QuotaBytesPerSubject : Z; SharedEnabled : bool
}.
Record DocumentService := mkDocumentService {
  ds_clients : bool;  (** a client repository is wired *)
  ds_masterKey : string; ds_hmacSecret : string; ds_cfg : DocumentConfig; ds_metrics : bool
}.
Definition VisibilityPrivate : Z := 0.
Definition VisibilityShared : Z := 1.
Definition VisibilityName (v : Z) : string := if v =? VisibilityShared then "shared" else "private".
Definition ParseVisibility (s : string) : option Z :=
  if bool_decide (s = "") || bool_decide (s = "private") then Some VisibilityPrivate
  else if bool_decide (s = "shared") then Some VisibilityShared else None.

(** ** Names *)
Definition alnum_low (c : ascii) : bool := is_lower c || is_digit c.
(** [^[a-z0-9]+([._-][a-z0-9]+)*$]; [sep]: a separator, or nothing, comes before. *)
Fixpoint key_from (sep : bool) (s : string) : bool :=
  match s with
  | "" => negb sep
  | String c r =>
      if alnum_low c then key_from false r
      else ((code c =? 46) || (code c =? 95) || (code c =? 45)) && negb sep && key_from true r
  end.
Definition svcDocKeyRe (s : string) : bool := key_from true s.
(** [^[A-Za-z0-9][A-Za-z0-9._@-]*$] *)
Definition subject_first (c : ascii) : bool := is_upper c || is_lower c || is_digit c.
Definition svcDocSubjectCharset (s : string) : bool :=
  match s with
  | "" => false
  | String c r => subject_first c &&
      all_chars (λ c, subject_first c || (code c =? 46) || (code c =? 95) || (code c =? 64) || (code c =? 45)) r
  end.
Definition ValidateDocKey (key : string) : bool :=
  negb (bool_decide (key = "")) && (String.length key <=? svcDocMaxKeyLen)%nat && svcDocKeyRe key.
Definition ValidateSubject (subject : string) : bool :=
  bool_decide (subject = GlobalSubject) ||
  (negb (bool_decide (subject = "")) && (String.length subject <=? svcDocMaxSubjectLen)%nat && svcDocSubjectCharset subject).

(** ** Documents *)
(** The walk over the tokens of a value that sits at [depth]; [keys] have been
    seen.  [None]: refused. *)
Fixpoint walkDocValue (v : json) (depth keys : nat) : option nat :=
  match v with
  | JObj m =>
      if (svcDocMaxDepth <? S depth)%nat then None
      else (fix members (m : list (string * json)) (seen : list string) (keys : nat) : option nat :=
              match m with
              | [] => Some keys
              | (k, x) :: m' =>
                  if decide (k ∈ seen) then None
                  else if (svcDocMaxKeys <? S keys)%nat then None
                  else keys' ← walkDocValue x (S depth) (S keys); members m' (k :: seen) keys'
              end) m [] keys
  | JArr l =>
      if (svcDocMaxDepth <? S depth)%nat then None
      else (fix elements (l : list json) (keys : nat) : option nat :=
              match l with [] => Some keys | x :: l' => keys' ← walkDocValue x (S depth) keys; elements l' keys' end) l keys
  | _ => Some keys
  end.
(** Of a well-formed text: its tokens are those of the value it denotes. *)
Definition ValidateDocumentStructure (v : json) : bool :=
  match v with JObj _ => bool_decide (is_Some (walkDocValue v 0 0)) | _ => false end.

(** [map[string]any] is written in the order of its keys, at every level. *)
Fixpoint sorted (v : json) : json :=
  match v with
  | JArr l => JArr (map sorted l)
  | JObj m => JObj (merge_sort key_le (map (λ p, (p.1, sorted p.2)) m))
  | _ => v
  end.
Definition canonicalize (cfg : DocumentConfig) (raw : string) : res docErr string :=
  if MaxDocumentBytes cfg <? Z.of_nat (String.length raw) then Err ErrSvcDocTooLarge
  else if bool_decide (TrimSpace raw = "") then Err ErrSvcDocInvalidDocument
  else if negb (valid_utf8 raw) then Err ErrSvcDocInvalidDocument
  else match json_parse raw with
       | None => Err ErrSvcDocInvalidDocument
       | Some v =>
           if negb (ValidateDocumentStructure v) then Err ErrSvcDocInvalidDocument
           else let canonical := JsonEnc.encode false (sorted v) in
                if MaxDocumentBytes cfg <? Z.of_nat (String.length canonical) then Err ErrSvcDocTooLarge else Ok canonical
       end.

(** ** The service *)
Definition docAAD (clientID subjectHash docKey : string) : string := "svcdoc:" +:+ clientID +:+ ":" +:+ subjectHash +:+ ":" +:+ docKey.
Record DocumentMeta := mkDocumentMeta {
  m_Key : string; m_Owner : string; m_OwnerID : string; m_Visibility : string; m_SizeBytes : Z; m_StoredBytes : Z;
  m_Mine : bool; m_CreatedAt : Z; m_UpdatedAt : Z
}.
Record DocumentQuota := mkDocumentQuota { q_UsedBytes : Z; q_MaxBytes : Z; q_UsedCount : Z; q_MaxCount : Z }.
Record DocumentExport := mkDocumentExport {
  e_Key : string; e_Owner : string; e_OwnerID : string; e_Visibility : string; e_SizeBytes : Z; e_Document : string;
  e_CreatedAt : Z; e_UpdatedAt : Z
}.

Section documents.
Context `{Primitives} `{AEAD}.
Implicit Types s : DocumentService.

Definition SubjectPseudonym s (userID : string) : string := HMACSign (CanonicalSubject userID +:+ ":svcdoc") (ds_hmacSecret s).
Definition subjectHash s (subject : string) : string :=
  if decide (subject = GlobalSubject) then HMACSign (GlobalSubject +:+ ":svcdoc:global") (ds_hmacSecret s)
  else SubjectPseudonym s subject.
(** The empty string: the spelling was canonical already. *)
Definition legacySubjectHash s (subject : string) : string :=
  if decide (CanonicalSubject subject = subject) then "" else HMACSign (subject +:+ ":svcdoc") (ds_hmacSecret s).

Definition doc_metric s (name : string) : prog unit := if ds_metrics s then call (SEmit (Metric name)) else Ret tt.
Definition rejected s : prog unit := doc_metric s "svcdoc_rejected".

(** A read under both spellings; [view] is the table the reader sees. *)
Definition across {A} (view : PersonalDB → PersonalDB) (f : string → PersonalDB → A) (plus : A → A → A) (subjHash legacyHash step : string)
  : prog (res docErr A) :=
  r <- call (reads (λ d, f subjHash (view d))) ;;
  match r with
  | Err _ => Ret (Err (SvcDocFailed step))
  | Ok a =>
      if decide (legacyHash = "") then Ret (Ok a)
      else r <- call (reads (λ d, f legacyHash (view d))) ;;
           Ret (match r with Err _ => Err (SvcDocFailed (step +:+ " legacy")) | Ok b => Ok (plus a b) end)
  end.
Definition countForOwner view (clientID subjHash legacyHash : string) := across view (CountForOwner clientID) Z.add subjHash legacyHash "count".
Definition sumBytes view (clientID subjHash legacyHash : string) :=
  across view (λ sh, SumBytesForSubjectAndClient sh clientID) Z.add subjHash legacyHash "quota".
Definition listByOwner (clientID subjHash legacyHash : string) :=
  across (λ d, d) (ListByOwner clientID) (@app ServiceDocument) subjHash legacyHash "list own".
Definition listSharedForSubject (clientID subjHash legacyHash : string) :=
  across (λ d, d) (λ sh, ListSharedForSubject sh clientID) (@app ServiceDocument) subjHash legacyHash "list shared".

(** [None]: within both quotas. *)
Definition checkQuota s view (clientID subjHash legacyHash : string) (existing : option ServiceDocument) (newStored : Z)
  : prog (option docErr) :=
  let bytes :=
    r <- sumBytes view clientID subjHash legacyHash ;;
    Ret (match r with
         | Err e => Some e
         | Ok used =>
             let used := match existing with Some x => used - DocStoredBytes x | None => used end in
             if QuotaBytesPerSubject (ds_cfg s) <? used + newStored then Some ErrSvcDocQuotaExceeded else None
         end) in
  match existing with
  | Some _ => bytes
  | None =>
      r <- countForOwner view clientID subjHash legacyHash ;;
      match r with
      | Err e => Ret (Some e)
      | Ok count => if MaxDocsPerSubject (ds_cfg s) <=? count then Ret (Some ErrSvcDocQuotaExceeded) else bytes
      end
  end.

(** The table a transaction sees after it deleted the caller's old row. *)
Definition less_legacy (clientID legacyHash docKey : string) (d : PersonalDB) : PersonalDB :=
  if decide (legacyHash = "") then d else (DocDelete clientID legacyHash docKey d).2.
(** The transaction: lock, legacy row, existing row, quota, id, upsert, commit. *)
Definition write_section s (clientID subjHash legacyHash docKey enc : string) (visibility size : Z)
  : prog (res docErr (bool * option ServiceDocument)) :=
  let view := less_legacy clientID legacyHash docKey in
  lock <- call (reads (λ _, tt)) ;;
  match lock with
  | Err _ => Ret (Err (SvcDocFailed "lock"))
  | Ok _ =>
      r <- (if decide (legacyHash = "") then Ret (Ok tt) else call (reads (λ _, tt))) ;;
      match r with
      | Err _ => Ret (Err (SvcDocFailed "replace legacy row"))
      | Ok _ =>
          r <- call (reads (λ d, DocGet clientID subjHash docKey (view d))) ;;
          match r with
          | Err _ => Ret (Err (SvcDocFailed "load existing"))
          | Ok existing =>
              q <- checkQuota s view clientID subjHash legacyHash existing (Z.of_nat (String.length enc)) ;;
              match q with
              | Some e => Ret (Err e)
              | None =>
                  id <- (match existing with Some x => Ret (Ok (DocID x)) | None => RandomUUID end) ;;
                  match id with
                  | Err _ => Ret (Err (SvcDocFailed "uuid"))
                  | Ok id =>
                      r <- call (SPersonal (λ now _ d,
                             match DocUpsert now (mkServiceDocument id clientID subjHash docKey visibility enc size
                                                    (Z.of_nat (String.length enc)) 1 0 0) (view d) with
                             | (Err e, _) => (Err e, d)  (** rolled back *)
                             | r => r
                             end)) ;;
                      Ret (match r with Err _ => Err (SvcDocFailed "store") | Ok created => Ok (created, existing) end)
                  end
              end
          end
      end
  end.
(** The metadata and whether the document is new. *)
Definition PutDocument s (clientID subject docKey raw : string) (visibility : Z) : prog (res docErr (DocumentMeta * bool)) :=
  let refuse e := rejected s ;;; Ret (Err e) in
  if negb (ValidateDocKey docKey) then refuse ErrSvcDocInvalidKey
  else if negb (ValidateSubject subject) then refuse ErrSvcDocInvalidSubject
  else if (visibility =? VisibilityShared) && negb (SharedEnabled (ds_cfg s)) then refuse ErrSvcDocSharedDisabled
  else match canonicalize (ds_cfg s) raw with
       | Err e => refuse e
       | Ok canonical =>
           let subjHash := subjectHash s subject in
           e <- encrypt canonical (ds_masterKey s) (docAAD clientID subjHash docKey) ;;
           match e with
           | None => Ret (Err (SvcDocFailed "encrypt"))
           | Some enc =>
               r <- write_section s clientID subjHash (legacySubjectHash s subject) docKey enc visibility (Z.of_nat (String.length canonical)) ;;
               match r with
               | Err ErrSvcDocQuotaExceeded => refuse ErrSvcDocQuotaExceeded
               | Err e => Ret (Err e)
               | Ok (created, existing) =>
                   now <- call SNow ;;
                   doc_metric s "svcdoc_write" ;;;
                   Ret (Ok (mkDocumentMeta docKey "" clientID (VisibilityName visibility) (Z.of_nat (String.length canonical))
                              (Z.of_nat (String.length enc)) true (from_option DocCreatedAt now existing) now, created))
               end
           end
       end.

(** The document a caller may read at a key. *)
Definition resolveOwnerID s (owner : string) : prog (res docErr string) :=
  if negb (ds_clients s) then Ret (Err ErrSvcDocUnknownOwner)
  else r <- call (reads (ClientGetByName owner)) ;;
       Ret (match r with
            | Err _ => Err (SvcDocFailed "resolve owner")
            | Ok None => Err ErrSvcDocUnknownOwner
            | Ok (Some c) => Ok (ClID c)
            end).
Definition resolve s (clientID subjHash docKey owner : string) : prog (res docErr ServiceDocument) :=
  if decide (owner = "") then
    r <- call (reads (DocGet clientID subjHash docKey)) ;;
    match r with
    | Err _ => Ret (Err (SvcDocFailed "get"))
    | Ok (Some own) => Ret (Ok own)
    | Ok None =>
        if negb (SharedEnabled (ds_cfg s)) then Ret (Err ErrSvcDocNotFound)
        else r <- call (reads (ListSharedByKey subjHash docKey clientID)) ;;
             Ret (match r with
                  | Err _ => Err (SvcDocFailed "get shared")
                  | Ok [] => Err ErrSvcDocNotFound
                  | Ok [x] => Ok x
                  | Ok _ => Err ErrSvcDocAmbiguous
                  end)
    end
  else
    o <- resolveOwnerID s owner ;;
    match o with
    | Err e => Ret (Err e)
    | Ok ownerID =>
        r <- call (reads (DocGet ownerID subjHash docKey)) ;;
        Ret (match r with
             | Err _ => Err (SvcDocFailed "get by owner")
             | Ok None => Err ErrSvcDocNotFound
             | Ok (Some x) =>
                 if negb (bool_decide (ClientID x = clientID)) && negb ((Visibility x =? VisibilityShared) && SharedEnabled (ds_cfg s))
                 then Err ErrSvcDocNotFound else Ok x
             end)
    end.
(** A failed lookup is an empty name. *)
Definition ownerName s (clientID : string) : prog string :=
  if negb (ds_clients s) then Ret ""
  else r <- call (reads (ClientGetByID clientID)) ;;
       Ret (match r with Ok (Some c) => ClName c | _ => "" end).
Definition metaOf s (x : ServiceDocument) (callerID : string) : prog DocumentMeta :=
  owner <- ownerName s (ClientID x) ;;
  Ret (mkDocumentMeta (DocKey x) owner (ClientID x) (VisibilityName (Visibility x)) (DocSizeBytes x) (DocStoredBytes x)
         (bool_decide (ClientID x = callerID)) (DocCreatedAt x) (DocUpdatedAt x)).
Definition GetDocument s (clientID subject docKey owner : string) : prog (res docErr (string * DocumentMeta)) :=
  if negb (ValidateDocKey docKey) then Ret (Err ErrSvcDocInvalidKey)
  else if negb (ValidateSubject subject) then Ret (Err ErrSvcDocInvalidSubject)
  else
    r <- resolve s clientID (subjectHash s subject) docKey owner ;;
    r <- (match r with
          | Err ErrSvcDocNotFound =>
              if decide (legacySubjectHash s subject = "") then Ret (Err ErrSvcDocNotFound)
              else resolve s clientID (legacySubjectHash s subject) docKey owner
          | _ => Ret r
          end) ;;
    match r with
    | Err e => Ret (Err e)
    | Ok x =>
        match Decrypt (DocDataEnc x) (ds_masterKey s) (docAAD (ClientID x) (SubjectHash x) (DocKey x)) with
        | None => Ret (Err (SvcDocFailed "decrypt"))
        | Some plain =>
            doc_metric s "svcdoc_read" ;;;
            meta <- metaOf s x clientID ;;
            Ret (Ok (plain, meta))
        end
    end.

Definition DeleteDocument s (clientID subject docKey : string) : prog (res docErr unit) :=
  if negb (ValidateDocKey docKey) then Ret (Err ErrSvcDocInvalidKey)
  else if negb (ValidateSubject subject) then Ret (Err ErrSvcDocInvalidSubject)
  else
    r <- call (writes (DocDelete clientID (subjectHash s subject) docKey)) ;;
    match r with
    | Err _ => Ret (Err (SvcDocFailed "delete"))
    | Ok true => Ret (Ok tt)
    | Ok false =>
        if decide (legacySubjectHash s subject = "") then Ret (Err ErrSvcDocNotFound)
        else r <- call (writes (DocDelete clientID (legacySubjectHash s subject) docKey)) ;;
             Ret (match r with
                  | Err _ => Err (SvcDocFailed "delete legacy")
                  | Ok true => Ok tt
                  | Ok false => Err ErrSvcDocNotFound
                  end)
    end.
Fixpoint metas s (l : list ServiceDocument) (callerID : string) : prog (list DocumentMeta) :=
  match l with
  | [] => Ret []
  | x :: l' => m <- metaOf s x callerID ;; ms <- metas s l' callerID ;; Ret (m :: ms)
  end.
Definition ListDocuments s (clientID subject : string) : prog (res docErr (list DocumentMeta * DocumentQuota)) :=
  if negb (ValidateSubject subject) then Ret (Err ErrSvcDocInvalidSubject)
  else
    let subjHash := subjectHash s subject in
    let legacyHash := legacySubjectHash s subject in
    own <- listByOwner clientID subjHash legacyHash ;;
    match own with
    | Err e => Ret (Err e)
    | Ok own =>
        shared <- (if SharedEnabled (ds_cfg s) then listSharedForSubject clientID subjHash legacyHash else Ret (Ok [])) ;;
        match shared with
        | Err e => Ret (Err e)
        | Ok shared =>
            used <- sumBytes (λ d, d) clientID subjHash legacyHash ;;
            match used with
            | Err e => Ret (Err e)
            | Ok used =>
                ms <- metas s (own ++ shared) clientID ;;
                Ret (Ok (ms, mkDocumentQuota used (QuotaBytesPerSubject (ds_cfg s)) (Z.of_nat (length own)) (MaxDocsPerSubject (ds_cfg s))))
            end
        end
    end.
Fixpoint exports s (l : list ServiceDocument) : prog (list DocumentExport) :=
  match l with
  | [] => Ret []
  | x :: l' =>
      match Decrypt (DocDataEnc x) (ds_masterKey s) (docAAD (ClientID x) (SubjectHash x) (DocKey x)) with
      | None => exports s l'
      | Some plain =>
          owner <- ownerName s (ClientID x) ;;
          es <- exports s l' ;;
          Ret (mkDocumentExport (DocKey x) owner (ClientID x) (VisibilityName (Visibility x)) (DocSizeBytes x) plain
                 (DocCreatedAt x) (DocUpdatedAt x) :: es)
      end
  end.
Definition ExportForSubject s (userID : string) : prog (res docErr (list DocumentExport)) :=
  r <- call (reads (ListAllForSubject (SubjectPseudonym s userID))) ;;
  match r with
  | Err _ => Ret (Err (SvcDocFailed "export"))
  | Ok docs => es <- exports s docs ;; Ret (Ok es)
  end.
Definition DocsDeleteAllForSubject s (userID : string) : prog (res docErr unit) :=
  r <- call (SPersonal (λ _ _ d, (Ok tt, DeleteAllForSubject (SubjectPseudonym s userID) d))) ;;
  Ret (match r with Err _ => Err (SvcDocFailed "delete all") | Ok _ => Ok tt end).

(** ** Handlers *)
Record DocumentHandler := mkDocumentHandler { dh_svc : DocumentService; dh_auditLog : bool }.
Definition ClientRateLimitKey (c : Caller) : string :=
  match c_claims c with
  | Some claims => if decide (CClientID claims = "") then "ip:" +:+ c_ip c else "client:" +:+ CClientID claims
  | None => "ip:" +:+ c_ip c
  end.
Definition requireClient {A} (c : Caller) (k : string → prog (answer A)) : prog (answer A) :=
  match c_claims c with
  | None => Ret (Refused 401 "unauthorized")
  | Some claims => if decide (CClientID claims = "") then Ret (Refused 403 "client_credentials_required") else k (CClientID claims)
  end.
Definition pathParts {A} (subject docKey : string) (k : prog (answer A)) : prog (answer A) :=
  if decide (subject = "") then Ret (Refused 400 "missing_subject")
  else if decide (docKey = "") then Ret (Refused 400 "missing_key") else k.
Definition doc_error {A} (e : docErr) : answer A :=
  match e with
  | ErrSvcDocInvalidKey => Refused 400 "invalid_key"
  | ErrSvcDocInvalidSubject => Refused 400 "invalid_subject"
  | ErrSvcDocInvalidDocument => Refused 400 "invalid_document"
  | ErrSvcDocTooLarge => Refused 413 "document_too_large"
  | ErrSvcDocQuotaExceeded => Refused 409 "quota_exceeded"
  | ErrSvcDocNotFound | ErrSvcDocUnknownOwner => Refused 404 "document_not_found"
  | ErrSvcDocAmbiguous => Refused 409 "ambiguous_document"
  | ErrSvcDocSharedDisabled => Refused 403 "shared_visibility_disabled"
  | SvcDocFailed _ => Refused 500 "internal_error"
  end.
Definition doc_audit (h : DocumentHandler) (c : Caller) (event subject clientID docKey : string) : prog unit :=
  if dh_auditLog h then log_event event (if decide (subject = GlobalSubject) then "" else subject) clientID (c_ip c) docKey else Ret tt.

(** The body is [None] when the reader's limit cut it off. *)
Definition HPutDocument (h : DocumentHandler) (c : Caller) (subject docKey visibility : string) (body : option string)
  : prog (answer (Z * DocumentMeta)) :=
  requireClient c (λ clientID, pathParts subject docKey
    (match ParseVisibility visibility with
     | None => Ret (Refused 400 "invalid_visibility")
     | Some v =>
         match body with
         | None => Ret (Refused 413 "document_too_large")
         | Some raw =>
             r <- PutDocument (dh_svc h) clientID subject docKey raw v ;;
             match r with
             | Err e => Ret (doc_error e)
             | Ok (meta, created) =>
                 doc_audit h c "svcdoc_put" subject clientID docKey ;;;
                 Ret (Replied (if created then 201 else 200, meta))
             end
         end
     end)).
Definition HGetDocument (h : DocumentHandler) (c : Caller) (subject docKey owner : string) : prog (answer (string * (string * string))) :=
  requireClient c (λ clientID, pathParts subject docKey
    (r <- GetDocument (dh_svc h) clientID subject docKey owner ;;
     match r with
     | Err e => Ret (doc_error e)
     | Ok (body, meta) =>
         doc_audit h c "svcdoc_get" subject clientID docKey ;;;
         Ret (Replied (body, (m_OwnerID meta, m_Visibility meta)))
     end)).
Definition HDeleteDocument (h : DocumentHandler) (c : Caller) (subject docKey : string) : prog (answer string) :=
  requireClient c (λ clientID, pathParts subject docKey
    (r <- DeleteDocument (dh_svc h) clientID subject docKey ;;
     match r with
     | Err e => Ret (doc_error e)
     | Ok _ => doc_audit h c "svcdoc_delete" subject clientID docKey ;;; Ret (Replied "deleted")
     end)).
Definition HListDocuments (h : DocumentHandler) (c : Caller) (subject : string) : prog (answer (list DocumentMeta * DocumentQuota)) :=
  requireClient c (λ clientID,
    if decide (subject = "") then Ret (Refused 400 "missing_subject")
    else r <- ListDocuments (dh_svc h) clientID subject ;;
         Ret (match r with Err e => doc_error e | Ok x => Replied x end)).
End documents.
