(* ===== verification/Mint.v ===== *)
(** * Mint: tokens for subjects somebody else authenticated

    Models internal/service/mint.go and internal/handler/mint.go: the policy a
    deployment may start with, the checks of a request, the claims that are
    signed, and POST /mint.  The signing key is whatever key is active when the
    request runs ([SigningKeyProvider]): its id is an argument, [None] for no
    key.  [net/mail]'s parser is the parameter of [Email_]. *)
From S2P Require Import Prelude GoStd Cache Crypto Json Bytes JsonEnc Base64 Jwt JwtFacts JwtSign NetIP Sanitize ClientIP Model Middleware Effects Random StoreWp TokenService Lockout Session Login SecondFactor Recover Identity ServiceDoc.
From stdpp Require Import list gmap strings.
From Stdlib Require Import Ascii.
Open Scope string_scope.
Open Scope Z_scope.
Open Scope prog_scope.

Definition MintedTokenType : string := "mint".
Definition mintTTLCeiling : Z := 15 * minute.
Definition mintSubjectMaxLen : nat := 128.

Inductive mintErr :=
| ErrMintSubjectInvalid | ErrMintRoleNotPermitted | ErrMintScopeNotPermitted | ErrMintTTLInvalid | ErrMintUnavailable
| ErrMintEmailNotPermitted | ErrMintEmailInvalid
| MintFailed (step : string).  (** wrapped entropy and signing errors *)
#[export] Instance mintErr_eq_dec : EqDecision mintErr.
Proof. solve_decision. Defined.

(** [seconds] is an int; a Duration is 64 bits of nanoseconds. *)
Definition MintTTLFromSeconds (seconds : Z) : res mintErr Z :=
  if (seconds <? 0) || (mintTTLCeiling / second <? seconds) then Err ErrMintTTLInvalid
  else Ok (wrap64 (seconds * second)).

Definition mintDeniedScopes : list string :=
  ["mint:token"; "kms:unwrap"; "svcdoc:read"; "svcdoc:write"; "login:status"; "admin"; "admin:read"; "admin:write"].
(** [^[A-Za-z0-9][A-Za-z0-9._@-]*$], the expression of document subjects. *)
Definition mintSubjectRe (s : string) : bool := svcDocSubjectCharset s.

Record MintConfig := mkMintConfig {
  mc_Issuer : string; mc_Audience : string; DefaultTTL : Z; MaxTTL : Z;
  AllowedRoles : list string; AllowedScopes : list string; AllowEmail : bool;
}.
Record MintService := mkMintService {
  ms_cfg : MintConfig;
  allowedRoles : list string;   (** the keys of the map *)
  allowedScopes : list string;
  ms_metrics : bool;
}.
Record MintRequest := mkMintRequest {
  mr_Subject : string; mr_Roles : list string; mr_Scopes : list string; mr_Email : string; mr_TTL : Z; mr_MintedBy : string;
}.
Record MintResult := mkMintResult {
  mt_Token : string; mt_Subject : string; mt_Roles : list string; mt_Scopes : list string; mt_Email : string;
  mt_Audience : string; mt_Issuer : string; mt_JTI : string; mt_KID : string; mt_ExpiresAt : Z; mt_ExpiresIn : Z;
}.

(** A policy that would mint dangerous tokens does not start. *)
Definition NewMintService (signer : bool) (cfg : MintConfig) (metrics : bool) : res string MintService :=
  if negb signer then Err "signing key provider is required"
  else if decide (mc_Issuer cfg = "") then Err "issuer is required"
  else if decide (mc_Audience cfg = "") then Err "audience is required"
  else if decide (mc_Audience cfg = mc_Issuer cfg) then Err "audience must differ from the vault42 issuer"
  else if (MaxTTL cfg <=? 0) || (mintTTLCeiling <? MaxTTL cfg) then Err "max ttl"
  else if (DefaultTTL cfg <=? 0) || (MaxTTL cfg <? DefaultTTL cfg) then Err "default ttl"
  else if existsb IsReservedAdminRole (AllowedRoles cfg) then Err "role is admin-tier"
  else if existsb (λ s, bool_decide (s ∈ mintDeniedScopes)) (AllowedScopes cfg) then Err "scope is a capability"
  else Ok (mkMintService cfg (AllowedRoles cfg) (AllowedScopes cfg) metrics).

Definition ValidateMintSubject (subject : string) : bool :=
  negb (bool_decide (subject = "")) && negb (mintSubjectMaxLen <? String.length subject)%nat && mintSubjectRe subject.

Section mint.
Context `{Primitives} `{MailParser}.
Implicit Types s : MintService.

Definition checkRoles s (requested : list string) : res mintErr (list string) :=
  match requested with
  | [] => Ok []
  | _ =>
      if existsb (λ r, IsReservedAdminRole r || negb (bool_decide (r ∈ allowedRoles s))) requested then Err ErrMintRoleNotPermitted
      else let filtered := FilterUserRoles requested in
           if negb (length filtered =? length requested)%nat then Err ErrMintRoleNotPermitted else Ok filtered
  end.
Definition checkScopes s (requested : list string) : res mintErr (list string) :=
  if existsb (λ sc, bool_decide (sc ∈ mintDeniedScopes) || negb (bool_decide (sc ∈ allowedScopes s))) requested
  then Err ErrMintScopeNotPermitted else Ok requested.
Definition ValidateMintEmail (email : string) : res mintErr string :=
  let normalized := ToLower (TrimSpace email) in
  if Email_ normalized then Ok normalized else Err ErrMintEmailInvalid.
Definition checkEmail s (email : string) : res mintErr string :=
  if decide (email = "") then Ok ""
  else if negb (AllowEmail (ms_cfg s)) then Err ErrMintEmailNotPermitted
  else ValidateMintEmail email.

Definition mint_metric s (name : string) : prog unit := if ms_metrics s then call (SEmit (Metric name)) else Ret tt.
Definition mint_rejected s (e : mintErr) : prog (res mintErr MintResult) := mint_metric s "mint_rejected" ;;; Ret (Err e).

(** The claims of an assertion made at [now]. *)
Definition mint_claims s (req : MintRequest) (roles scopes : list string) (email jti : string) (now ttl : Z) : VaultClaims :=
  mkClaims (mc_Issuer (ms_cfg s)) [mc_Audience (ms_cfg s)] (mr_Subject req) (Some (NewNumericDate (now + ttl)))
    (Some (NewNumericDate now)) (Some (NewNumericDate now)) jti roles scopes "" "" None MintedTokenType "" [] 0 []
    (mr_MintedBy req) email.
(** Signing, once the request is within the policy. *)
Definition mint_sign s (active : option string) (req : MintRequest) (roles scopes : list string) (email : string) (ttl : Z)
  : prog (res mintErr MintResult) :=
  match active with
  | None => Ret (Err ErrMintUnavailable)
  | Some kid =>
      if decide (kid = "") then Ret (Err ErrMintUnavailable)
      else
        j <- RandomUUID ;;
        match j with
        | Err _ => Ret (Err (MintFailed "generate jti"))
        | Ok jti =>
            now <- call SNow ;;
            t <- call (SSign (mint_claims s req roles scopes email jti now ttl) kid) ;;
            match t with
            | Err _ => Ret (Err (MintFailed "sign"))
            | Ok token =>
                mint_metric s "mint_issued" ;;;
                Ret (Ok (mkMintResult token (mr_Subject req) roles scopes email (mc_Audience (ms_cfg s)) (mc_Issuer (ms_cfg s))
                           jti kid (now + ttl) (Z.quot ttl second)))
            end
        end
  end.
Definition Mint s (active : option string) (req : MintRequest) : prog (res mintErr MintResult) :=
  if negb (ValidateMintSubject (mr_Subject req)) then mint_rejected s ErrMintSubjectInvalid
  else match checkRoles s (mr_Roles req) with
  | Err e => mint_rejected s e
  | Ok roles =>
      match checkScopes s (mr_Scopes req) with
      | Err e => mint_rejected s e
      | Ok scopes =>
          match checkEmail s (mr_Email req) with
          | Err e => mint_rejected s e
          | Ok email =>
              let ttl := if mr_TTL req =? 0 then DefaultTTL (ms_cfg s) else mr_TTL req in
              if (ttl <? 0) || (MaxTTL (ms_cfg s) <? ttl) then mint_rejected s ErrMintTTLInvalid
              else mint_sign s active req roles scopes email ttl
          end
      end
  end.

(** ** POST /mint *)
Definition MintScope : string := "mint:token".
Record MintRequestBody := mkMintRequestBody {
  mb_Subject : string; mb_Roles : list string; mb_Scopes : list string; mb_TTLSeconds : Z; mb_Email : string;
}.
Record MintHandler := mkMintHandler { mh_svc : MintService; mh_auditLog : bool }.
Definition mintErrorCode (e : mintErr) : Z * string :=
  match e with
  | ErrMintSubjectInvalid => (400, "invalid_subject")
  | ErrMintRoleNotPermitted => (403, "role_not_permitted")
  | ErrMintScopeNotPermitted => (403, "scope_not_permitted")
  | ErrMintTTLInvalid => (400, "invalid_ttl")
  | ErrMintEmailNotPermitted => (403, "email_not_permitted")
  | ErrMintEmailInvalid => (400, "invalid_email")
  | ErrMintUnavailable => (503, "server_busy")
  | MintFailed _ => (500, "internal_error")
  end.
Definition mint_audit (h : MintHandler) (c : Caller) (clientID subject reason : string) : prog unit :=
  if mh_auditLog h then log_event "token_minted" subject clientID (c_ip c) reason else Ret tt.
Definition mint_refuse (h : MintHandler) (c : Caller) (clientID subject : string) (status : Z) (code : string)
  : prog (answer MintResult) :=
  mint_audit h c clientID subject code ;;; Ret (Refused status code).
(** The body arrives decoded, [None] when it is malformed or over its limit. *)
Definition HMint (h : MintHandler) (active : option string) (c : Caller) (body : option MintRequestBody) : prog (answer MintResult) :=
  match c_claims c with
  | None => Ret (Refused 401 "unauthorized")
  | Some claims =>
      let client := CClientID claims in
      if decide (client = "") then mint_refuse h c "" "" 403 "client_credentials_required"
      else match body with
      | None => mint_refuse h c client "" 400 "invalid_request"
      | Some b =>
          let fail e := mint_refuse h c client (mb_Subject b) (mintErrorCode e).1 (mintErrorCode e).2 in
          match MintTTLFromSeconds (mb_TTLSeconds b) with
          | Err e => fail e
          | Ok ttl =>
              r <- Mint (mh_svc h) active
                     (mkMintRequest (mb_Subject b) (mb_Roles b) (mb_Scopes b) (mb_Email b) ttl client) ;;
              match r with
              | Err e => fail e
              | Ok result => mint_audit h c client (mt_Subject result) (mt_JTI result) ;;; Ret (Replied result)
              end
          end
      end
  end.
End mint.

(** * Facts: what a minted token can and cannot do

    A mint credential speaks for any subject, so everything rests on the bounds
    of what it can say: the policy the service started with, the fifteen
    minutes, and that the server's own doors stay shut to what it signed. *)

(** ** Lifetimes *)
(** A lifetime in seconds is converted exactly or refused: the product never
    leaves 64 bits, so no huge request wraps round into an ordinary one. *)
Theorem mint_ttl_exact seconds d : - 2 ^ 63 ≤ seconds < 2 ^ 63 →
  MintTTLFromSeconds seconds = Ok d ↔ 0 ≤ seconds ≤ 900 ∧ d = seconds * second.
Proof.
  intros Hs. unfold MintTTLFromSeconds. change (mintTTLCeiling / second) with 900.
  destruct (Z.ltb_spec seconds 0), (Z.ltb_spec 900 seconds); cbn [orb]; split; try (intros [=]; lia); try (intros [? ->]; lia).
  - intros [= <-]. split; [lia|]. apply wrap64_id. unfold in_int64, int64_min, int64_max, second in *. lia.
  - intros [_ ->]. f_equal. apply wrap64_id. unfold in_int64, int64_min, int64_max, second in *. lia.
Qed.
(** Why the bound is on the seconds: this many wrap to exactly five minutes. *)
Example seconds_that_wrap : wrap64 (36028797018964268 * second) = 300 * second ∧ MintTTLFromSeconds 36028797018964268 = Err ErrMintTTLInvalid.
Proof. by vm_compute. Qed.

(** ** Policies *)
Definition role_permitted (cfg : MintConfig) (r : string) : Prop := r ∈ AllowedRoles cfg ∧ IsReservedAdminRole r = false.
Definition scope_permitted (cfg : MintConfig) (sc : string) : Prop := sc ∈ AllowedScopes cfg ∧ sc ∉ mintDeniedScopes.
Definition policy (cfg : MintConfig) (s : MintService) : Prop :=
  ms_cfg s = cfg ∧ allowedRoles s = AllowedRoles cfg ∧ allowedScopes s = AllowedScopes cfg ∧
  mc_Issuer cfg ≠ "" ∧ mc_Audience cfg ≠ mc_Issuer cfg ∧ 0 < DefaultTTL cfg ≤ MaxTTL cfg ∧ MaxTTL cfg ≤ mintTTLCeiling.
Lemma NewMintService_policy signer cfg m s : NewMintService signer cfg m = Ok s → policy cfg s.
Proof.
  unfold NewMintService. destruct signer; [|done]. cbn [negb]. repeat (case_decide; [done|]).
  destruct ((MaxTTL cfg <=? 0) || _) eqn:E1; [done|]. destruct ((DefaultTTL cfg <=? 0) || _) eqn:E2; [done|].
  destruct (existsb IsReservedAdminRole _); [done|]. destruct (existsb _ _); [done|].
  apply orb_false_iff in E1 as [?%Z.leb_gt ?%Z.ltb_ge], E2 as [?%Z.leb_gt ?%Z.ltb_ge]. intros [= <-]. split_and!; done.
Qed.

Lemma existsb_Forall {A} (f : A → bool) l : existsb f l = false → Forall (λ x, f x = false) l.
Proof. induction l as [|x l IH]; cbn; [constructor|]. intros [? ?]%orb_false_iff. constructor; auto. Qed.
Lemma FilterUserRoles_id l : Forall (λ r, IsReservedAdminRole r = false) l → FilterUserRoles l = l.
Proof. intros Hl. unfold FilterUserRoles. induction Hl as [|r l Hr _ IH]; [done|]. rewrite filter_cons_True by done. by rewrite IH. Qed.
Lemma checkRoles_ok cfg s l roles : policy cfg s → checkRoles s l = Ok roles → roles = l ∧ Forall (role_permitted cfg) l.
Proof.
  intros (_ & Hr & _) Hc. unfold checkRoles in Hc. destruct l as [|x l0] eqn:El; [injection Hc as <-; by split|].
  rewrite <- El in *. clear El x l0. destruct (existsb _ l) eqn:E; [done|]. apply existsb_Forall in E.
  assert (HF : Forall (role_permitted cfg) l).
  { eapply Forall_impl; [exact E|]. intros r [H1 H2%negb_false_iff%bool_decide_eq_true]%orb_false_iff. rewrite Hr in H2. by split. }
  rewrite FilterUserRoles_id in Hc by (eapply Forall_impl; [exact HF|]; by intros r [_ ?]).
  destruct (negb _); [done|]. injection Hc as <-. done.
Qed.
Lemma checkScopes_ok cfg s l scopes : policy cfg s → checkScopes s l = Ok scopes → scopes = l ∧ Forall (scope_permitted cfg) l.
Proof.
  intros (_ & _ & Hs & _) Hc. unfold checkScopes in Hc. destruct (existsb _ l) eqn:E; [done|]. injection Hc as <-. split; [done|].
  eapply Forall_impl; [by apply existsb_Forall|]. intros sc [H1%bool_decide_eq_false H2%negb_false_iff%bool_decide_eq_true]%orb_false_iff.
  rewrite Hs in H2. by split.
Qed.

(** ** Text *)
Lemma hex_ascii s : ascii_only (hex_encode s).
Proof.
  induction s as [|c s IH]; [done|]. cbn [hex_encode ascii_only].
  assert (Hd : ∀ d, 0 ≤ d < 16 → code (hex_digit d) < 128).
  { intros d Hd. unfold hex_digit. rewrite code_chr by (destruct (Z.ltb_spec d 10); lia). destruct (Z.ltb_spec d 10); lia. }
  pose proof (code_range c). split_and!; [| |done]; apply Hd; Z.to_euclidean_division_equations; lia.
Qed.
Lemma uuid_utf8 b : valid_utf8 (uuid_of b) = true.
Proof.
  apply ascii_valid. unfold uuid_of.
  repeat first [apply ascii_only_app | apply hex_ascii | (apply ascii_lit; reflexivity)].
Qed.
Lemma subject_ascii s : mintSubjectRe s = true → ascii_only s.
Proof.
  assert (Hf : ∀ c, subject_first c = true → code c < 128).
  { intros c. unfold subject_first, is_upper, is_lower, is_digit. rewrite !orb_true_iff, !andb_true_iff, !Z.leb_le. lia. }
  unfold mintSubjectRe, svcDocSubjectCharset. destruct s as [|c r]; [done|]. intros [Hc Hr]%andb_true_iff. split; [by apply Hf|].
  revert Hr. induction r as [|d r IH]; [done|]. cbn [all_chars]. intros [Hd Hr]%andb_true_iff. split; [|by apply IH].
  rewrite !orb_true_iff, !Z.eqb_eq in Hd. destruct Hd as [[[[Hd|?]|?]|?]|?]; [by apply Hf|lia..].
Qed.

Section facts.
Context {C : Type} `{CacheOps C} `{Primitives} `{MailParser}.
#[local] Notation "'W'" := (World C).
Implicit Types w : W.

(** Only the clock, entropy and the trail moved: nothing is stored. *)
Definition quiet w w' : Prop :=
  db w' = db w ∧ cch w' = cch w ∧ enrolled w' = enrolled w ∧ admins w' = admins w ∧ personal w' = personal w ∧ clock w ≤ clock w'.
Lemma still_refl w : quiet w w.
Proof. by split_and!. Qed.
Lemma still_trans w1 w2 w3 : quiet w1 w2 → quiet w2 w3 → quiet w1 w3.
Proof. intros (?&?&?&?&?&?) (?&?&?&?&?&?). split_and!; first [congruence | lia]. Qed.
Lemma quiet_stores w w' : same_stores w w' → personal w' = personal w → quiet w w'.
Proof. intros (?&?&?&?&?&?&?&?&?&?&?) ?. by split_and!. Qed.
Lemma quiet_tick c w : quiet w (tick c w).
Proof. apply quiet_stores; [apply same_tick|done]. Qed.
Lemma quiet_emit c e w : quiet w (emit e (tick c w)).
Proof. apply (still_trans _ (tick c w)); [apply quiet_tick|by split_and!]. Qed.

Lemma mint_metric_wp P s name Q w : (∀ w', quiet w w' → Q tt w') → wp P (mint_metric s name) Q w.
Proof. intros HQ. unfold mint_metric. destruct (ms_metrics s); [intros c _; apply HQ, quiet_emit|apply HQ, still_refl]. Qed.
Lemma RandomUUID_text P Q w :
  (∀ r w', quiet w w' → (∀ i, r = Ok i → valid_utf8 i = true) → Q r w') → wp P RandomUUID Q w.
Proof.
  intros HQ. unfold RandomUUID. apply wp_bind, RandomBytes_wp. intros [b|e] w' Hs Hp _; cbn; apply HQ; auto using quiet_stores.
  - intros i [= <-]. apply uuid_utf8.
  - done.
Qed.

(** What was signed, and when. *)
Definition signed s (active : option string) (req : MintRequest) (r : MintResult) w w' : Prop :=
  ∃ kid jti now ttl email,
    active = Some kid ∧ valid_utf8 jti = true ∧ clock w ≤ now ≤ clock w' ∧ 0 ≤ ttl ≤ MaxTTL (ms_cfg s) ∧
    checkEmail s (mr_Email req) = Ok email ∧
    SignToken (mint_claims s req (mr_Roles req) (mr_Scopes req) email jti now ttl) kid = Ok (mt_Token r) ∧
    mt_Subject r = mr_Subject req ∧ mt_JTI r = jti.
Lemma mint_sign_wp P s active req email ttl w : 0 ≤ ttl ≤ MaxTTL (ms_cfg s) → checkEmail s (mr_Email req) = Ok email →
  wp P (mint_sign s active req (mr_Roles req) (mr_Scopes req) email ttl)
    (λ r w', quiet w w' ∧ match r with Ok x => signed s active req x w w' | Err _ => True end) w.
Proof.
  intros Ht He. unfold mint_sign. destruct active as [kid|]; [|by split; [apply still_refl|]].
  case_decide; [by split; [apply still_refl|]|]. rewrite wp_bind. apply RandomUUID_text. intros [jti|e] w1 Hq1 Hj; [|by split].
  rewrite wp_bind. intros c1 _. cbn [perform wp call]. rewrite wp_bind. intros c2 _. cbn [perform wp call fst snd].
  set (w2 := tick c1 w1). set (w3 := tick c2 w2). assert (Hq3 : quiet w w3) by (eauto using still_trans, quiet_tick).
  assert (Hc : clock w ≤ clock w2 ≤ clock w3).
  { assert (quiet w w2) as (?&?&?&?&?&?) by (eauto using still_trans, quiet_tick). pose proof (quiet_tick c2 w2) as (?&?&?&?&?&?). done. }
  destruct (SignToken _ kid) as [tok|] eqn:Es; [|by split]. rewrite wp_bind. apply mint_metric_wp. intros w4 Hq4. cbn.
  split; [by eapply still_trans|]. exists kid, jti, (clock w2), ttl, email. destruct Hq4 as (?&?&?&?&?&?). split_and!; try done; [auto|lia..].
Qed.

Lemma Mint_wp P cfg s active req w : policy cfg s →
  wp P (Mint s active req)
    (λ r w', quiet w w' ∧
       match r with
       | Ok x => mintSubjectRe (mr_Subject req) = true ∧ Forall (role_permitted cfg) (mr_Roles req) ∧
                 Forall (scope_permitted cfg) (mr_Scopes req) ∧ signed s active req x w w'
       | Err _ => True
       end) w.
Proof.
  intros Hp. assert (Hrej : ∀ e Q, (∀ w', quiet w w' → Q (Err e) w') → wp P (mint_rejected s e) Q w).
  { intros e Q HQ. unfold mint_rejected. rewrite wp_bind. apply mint_metric_wp. intros w' Hq. by apply HQ. }
  unfold Mint. destruct (ValidateMintSubject _) eqn:Hs; [|by apply Hrej].
  destruct (checkRoles s _) as [roles|] eqn:Hr; [|by apply Hrej].
  destruct (checkScopes s _) as [scopes|] eqn:Hc; [|by apply Hrej].
  destruct (checkEmail s _) as [email|] eqn:He; [|by apply Hrej]. cbv zeta.
  destruct (_ || _) eqn:Ht; [by apply Hrej|]. apply orb_false_iff in Ht as [Ht1%Z.ltb_ge Ht2%Z.ltb_ge].
  destruct (checkRoles_ok _ _ _ _ Hp Hr) as [-> HR]. destruct (checkScopes_ok _ _ _ _ Hp Hc) as [-> HS].
  eapply wp_mono; [|by apply mint_sign_wp]. intros [x|e] w' [Hq Hx]; [|done]. split_and!; try done.
  unfold ValidateMintSubject in Hs. rewrite !andb_true_iff in Hs. tauto.
Qed.

(** The claims of a minted token against the request, the caller and the policy. *)
Definition asserts (cfg : MintConfig) (client : string) (b : MintRequestBody) (c : VaultClaims) : Prop :=
  Subject c = mb_Subject b ∧ MintedBy c = client ∧ Issuer c = mc_Issuer cfg ∧ Audience c = [mc_Audience cfg] ∧
  TokenType c = MintedTokenType ∧ CClientID c = "" ∧ CFingerprint c = "" ∧ Confirmation c = None ∧ Factors c = [] ∧
  CRoles c = mb_Roles b ∧ Forall (role_permitted cfg) (CRoles c) ∧
  Scopes c = mb_Scopes b ∧ Forall (scope_permitted cfg) (Scopes c) ∧
  (CEmail c ≠ "" → AllowEmail cfg = true) ∧
  ∃ t e, NotBefore c = Some t ∧ CExpiresAt c = Some e ∧ t ≤ e ≤ t + 900.

Lemma mint_audit_wp P h c client subject reason Q w :
  (∀ w', quiet w w' → (mh_auditLog h = true → Audit "token_minted" subject client (c_ip c) reason ∈ trail w') → Q tt w') →
  wp P (mint_audit h c client subject reason) Q w.
Proof.
  intros HQ. unfold mint_audit. destruct (mh_auditLog h); [|apply HQ; [apply still_refl|done]].
  intros ch _. apply HQ; [apply quiet_emit|]. intros _. apply list_elem_of_here.
Qed.
Lemma checkEmail_allowed s e email : checkEmail s e = Ok email → email ≠ "" → AllowEmail (ms_cfg s) = true.
Proof. unfold checkEmail. case_decide; [by intros [= <-]|]. by destruct (AllowEmail _). Qed.
Lemma seconds_apart now ttl : 0 ≤ ttl ≤ mintTTLCeiling → NewNumericDate now ≤ NewNumericDate (now + ttl) ≤ NewNumericDate now + 900.
Proof.
  unfold NewNumericDate, mintTTLCeiling, minute, second. intros Ht. Z.to_euclidean_division_equations. lia.
Qed.
Lemma signed_asserts cfg s active b client x w w' : policy cfg s →
  Forall (role_permitted cfg) (mb_Roles b) → Forall (scope_permitted cfg) (mb_Scopes b) →
  ∀ ttl, signed s active (mkMintRequest (mb_Subject b) (mb_Roles b) (mb_Scopes b) (mb_Email b) ttl client) x w w' →
  ∃ claims kid, active = Some kid ∧ SignToken claims kid = Ok (mt_Token x) ∧ asserts cfg client b claims.
Proof.
  intros (Hcfg & _ & _ & _ & _ & _ & Hmax) HR HS ttl (kid & jti & now & t & email & -> & _ & _ & Ht & He & Hsig & _).
  do 2 eexists. split_and!; [done|exact Hsig|]. unfold mint_claims. rewrite Hcfg in *. unfold asserts.
  cbn [Subject MintedBy Issuer Audience TokenType CClientID CFingerprint Confirmation Factors CRoles Scopes CEmail NotBefore CExpiresAt
       mr_Subject mr_Roles mr_Scopes mr_MintedBy].
  split_and!; try done; [intros Hne; rewrite <- Hcfg; by eapply checkEmail_allowed|].
  do 2 eexists. split_and!; [done|done|apply seconds_apart; lia..].
Qed.

(** C16. POST /mint signs for nobody but an authenticated client, only what the
    policy of the deployment permits, for at most fifteen minutes, in that
    client's name, with no claim that carries a credential; it stores nothing,
    and every attempt of an authenticated caller is in the audit trail. *)
Theorem mint_stays_within_policy signer cfg m h active c body w :
  NewMintService signer cfg m = Ok (mh_svc h) →
  wp any (HMint h active c body)
    (λ a w', quiet w w' ∧
       (c_claims c ≠ None → mh_auditLog h = true → ∃ u client reason, Audit "token_minted" u client (c_ip c) reason ∈ trail w') ∧
       match a with
       | Refused _ _ => True
       | Replied r =>
           ∃ cl b claims kid, c_claims c = Some cl ∧ CClientID cl ≠ "" ∧ body = Some b ∧ active = Some kid ∧
             SignToken claims kid = Ok (mt_Token r) ∧ asserts cfg (CClientID cl) b claims
       end) w.
Proof.
  intros Hp%NewMintService_policy. unfold HMint. destruct (c_claims c) as [cl|] eqn:Ecl; [|by split_and!; [apply still_refl|..]].
  assert (Href : ∀ client subject st code w1, quiet w w1 →
    wp any (mint_refuse h c client subject st code)
      (λ a w', quiet w w' ∧ (Some cl ≠ None → mh_auditLog h = true →
         ∃ u client reason, Audit "token_minted" u client (c_ip c) reason ∈ trail w') ∧
       match a with Refused _ _ => True | Replied _ => False end) w1).
  { intros client subject st code w1 Hq. unfold mint_refuse. rewrite wp_bind. apply mint_audit_wp. intros w' Hq' Ha. cbn.
    split_and!; [by eapply still_trans|eauto|done]. }
  assert (Hweak : ∀ (a : answer MintResult) (R : MintResult → Prop),
    match a with Refused _ _ => True | Replied _ => False end → match a with Refused _ _ => True | Replied r => R r end) by (intros []; done).
  case_decide as Hcl; [eapply wp_mono; [|apply Href, still_refl]; naive_solver|].
  destruct body as [b|]; [|eapply wp_mono; [|apply Href, still_refl]; naive_solver].
  destruct (MintTTLFromSeconds _) as [ttl|e]; [|eapply wp_mono; [|apply Href, still_refl]; naive_solver].
  rewrite wp_bind. eapply wp_mono; [|by apply Mint_wp]. intros [x|e] w1 [Hq Hx]; [|eapply wp_mono; [|by apply Href]; naive_solver].
  destruct Hx as (_ & HR & HS & Hsig). rewrite wp_bind. apply mint_audit_wp. intros w2 Hq2 Ha. cbn.
  split_and!; [by eapply still_trans|eauto|].
  destruct (signed_asserts _ _ _ _ _ _ _ _ Hp HR HS _ Hsig) as (claims & kid & ? & ? & ?). by exists cl, b, claims, kid.
Qed.
End facts.

(** ** The server's own doors *)
Definition policy_text (cfg : MintConfig) : bool :=
  valid_utf8 (mc_Issuer cfg) && valid_utf8 (mc_Audience cfg) && forallb valid_utf8 (AllowedRoles cfg) && forallb valid_utf8 (AllowedScopes cfg).

Section doors.
Context {C : Type} `{CacheOps C} `{Primitives} `{MailParser} `{Signer} `{Verifier}.
(** The signing primitive is [SignToken] under the key of the id, and the mail
    parser refuses addresses that are not UTF-8, as [net/mail] does. *)
Context (keyring : string → privateKey)
  (signs : ∀ c kid tok, SignToken c kid = Ok tok → SignRS256 c (Some (keyring kid)) kid = Ok tok)
  (mail_text : ∀ a, Email_ a = true → valid_utf8 a = true).
Implicit Types w : World C.

Lemma Forall_utf8 (P : string → Prop) l (all : list string) :
  forallb valid_utf8 all = true → Forall P l → (∀ x, P x → x ∈ all) → forallb valid_utf8 l = true.
Proof.
  intros Ha Hl HP. apply forallb_forall. intros x Hx%list_elem_of_In. rewrite forallb_forall in Ha.
  apply Ha, list_elem_of_In, HP. by eapply Forall_forall in Hl.
Qed.
Lemma checkEmail_text s e email : checkEmail s e = Ok email → valid_utf8 email = true.
Proof.
  unfold checkEmail, ValidateMintEmail. case_decide; [by intros [= <-]|]. destruct (negb _); [done|].
  destruct (Email_ _) eqn:E; [|done]. intros [= <-]. by apply mail_text.
Qed.
Lemma date_in_range t : 0 ≤ t ≤ maxNumericDate * second → dated (Some (NewNumericDate t)) = true.
Proof.
  unfold NewNumericDate, dated, maxNumericDate, second. intros Ht. cbn. apply andb_true_iff.
  split; apply Z.leb_le; Z.to_euclidean_division_equations; lia.
Qed.
Lemma mint_claims_ok cfg s req email jti now ttl : policy cfg s → policy_text cfg = true → valid_utf8 (mr_MintedBy req) = true →
  mintSubjectRe (mr_Subject req) = true → Forall (role_permitted cfg) (mr_Roles req) → Forall (scope_permitted cfg) (mr_Scopes req) →
  checkEmail s (mr_Email req) = Ok email → valid_utf8 jti = true → 0 ≤ now → 0 ≤ ttl ≤ MaxTTL cfg →
  now + mintTTLCeiling ≤ maxNumericDate * second →
  claims_ok (mint_claims s req (mr_Roles req) (mr_Scopes req) email jti now ttl) = true.
Proof.
  intros (Hcfg & _ & _ & _ & _ & _ & Hmax) Ht Hby Hsub HR HS He Hj Hnow Httl Hlate.
  unfold policy_text in Ht. rewrite !andb_true_iff in Ht. destruct Ht as [[[Hi Ha] Hr] Hs].
  unfold claims_ok, mint_claims. cbn [Issuer Subject JTI CClientID CFingerprint TokenType MintedBy ACR CEmail Audience CRoles Scopes AMR
    Factors CExpiresAt NotBefore IssuedAt Confirmation AuthTime forallb from_option].
  rewrite Hcfg, Hi, Ha, Hj, Hby, (ascii_valid _ (subject_ascii _ Hsub)), (checkEmail_text _ _ _ He).
  rewrite (Forall_utf8 _ _ _ Hr HR) by (by intros x [? _]). rewrite (Forall_utf8 _ _ _ Hs HS) by (by intros x [? _]).
  unfold mintTTLCeiling, minute in *. rewrite !date_in_range by (unfold second in *; lia). done.
Qed.

(** C4. Two independent locks: the type of a minted token is one no route accepts,
    and its audience is not the server's.  Whatever POST /mint answers with,
    presented to any route, under any key set, at any time, it is refused; the
    type alone refuses it whatever audience a route expects, and the audience
    alone refuses it before its type is looked at. *)
Theorem minted_token_opens_no_door signer cfg m h active c body w :
  NewMintService signer cfg m = Ok (mh_svc h) → policy_text cfg = true →
  (∀ cl, c_claims c = Some cl → valid_utf8 (CClientID cl) = true) → 0 ≤ clock w →
  wp any (HMint h active c body)
    (λ a w', ∀ r, a = Replied r → clock w' + mintTTLCeiling ≤ maxNumericDate * second →
       (∀ keys issuer audience accept now rq ctx scheme,
          Cut 32 (header "Authorization" rq) = Some (scheme, mt_Token r) →
          (∃ why, Auth keys issuer audience accept now rq ctx = Refuse 401 why) ∧
          (∃ why, AuthChallenge keys issuer audience accept now rq ctx = Refuse 401 why)) ∧
       (∀ keyFunc issuer now, is_ok (ParseAndValidate now (mt_Token r) keyFunc issuer (mc_Issuer cfg)) = false)) w.
Proof.
  intros Hp%NewMintService_policy Htext Hclient Hw. unfold HMint. destruct (c_claims c) as [cl|] eqn:Ecl; [|done].
  assert (Href : ∀ client subject st code w1 (Q : MintResult → World C → Prop),
    wp any (mint_refuse h c client subject st code) (λ a w', ∀ r, a = Replied r → Q r w') w1).
  { intros. unfold mint_refuse. rewrite wp_bind. apply mint_audit_wp. by intros w' _ _. }
  case_decide as Hcl; [apply Href|]. destruct body as [b|]; [|apply Href]. destruct (MintTTLFromSeconds _) as [ttl|e]; [|apply Href].
  rewrite wp_bind. eapply wp_mono; [|by apply Mint_wp]. intros [x|e] w1 [Hq Hx]; [|apply Href].
  rewrite wp_bind. apply mint_audit_wp. intros w2 (_&_&_&_&_&Hq2) _. cbn. intros r [= <-] Hlate.
  destruct Hx as (Hsub & HR & HS & kid & jti & now & t & email & -> & Hj & Hnow & Ht & He & Hsig & _).
  pose proof (proj1 Hp) as Hcfg. rewrite Hcfg in Ht. set (claims := mint_claims _ _ _ _ _ _ _ _) in Hsig.
  assert (Hok : claims_ok claims = true) by (apply (mint_claims_ok cfg); first [done | exact (Hclient cl eq_refl) | lia]).
  assert (Hback : ∀ now keyFunc issuer audience c', ParseAndValidate now (mt_Token x) keyFunc issuer audience = Ok c' →
    c' = claims ∧ validateClaims now claims (access_config issuer audience) = []) by (intros; eapply parsed_claims_are_signed; [exact Hok|by apply signs|done]).
  split.
  - intros keys issuer audience accept now' rq ctx scheme Hcut. unfold Auth, AuthChallenge, authWithTypes. cbv zeta.
    case_decide; [by split; eexists|]. rewrite Hcut. destruct (negb _); [by split; eexists|].
    destruct (ParseAndValidate _ _ _ _ _) as [c'|] eqn:E; [|by split; eexists]. apply Hback in E as [-> _].
    cbn [claims mint_claims TokenType]. rewrite decide_False by done.
    rewrite !bool_decide_eq_false_2 by (vm_compute; intros Hin; set_unfold in Hin; naive_solver). by split; eexists.
  - intros keyFunc issuer now'. destruct (ParseAndValidate _ _ _ _ _) as [c'|] eqn:E; [|done]. exfalso.
    apply Hback in E as [_ (_ & _ & _ & _ & Haud)%validateClaims_nil]. destruct Hp as (_ & _ & _ & Hne & Hdiff & _).
    specialize (Haud Hne). cbn in Haud. rewrite Hcfg in Haud. apply list_elem_of_singleton in Haud. by symmetry in Haud.
Qed.
End doors.

(** ** A mint at work *)
Module MintDemo.
#[export] Existing Instance SignDemo.signer.
#[export] Existing Instance SignDemo.verifier.
#[export] Instance prims : Primitives := {|
  sha256_hex s := "#" +:+ s; sha256_b64url s := "~" +:+ s; hmac_hex m k := m +:+ "/" +:+ k;
  argon2_verify pw h p := Ok (bool_decide ("$" +:+ pw = h)); argon2_hash salt pw p := "$" +:+ pw;
  SignToken c k := match SignRS256 c (Some 77) k with Ok t => Ok t | Err _ => Err tt end |}.
#[export] Instance mail : MailParser := { ParseAddress a := if valid_utf8 a then Some a else None }.
Definition cfg : MintConfig := mkMintConfig "https://vault" "https://shop" (5 * minute) (10 * minute) ["buyer"] ["cart:read"] true.
Definition svc : MintService := mkMintService cfg ["buyer"] ["cart:read"] true.
Definition h : MintHandler := mkMintHandler svc true.
Definition client : VaultClaims := mkClaims "" [] "shop" None None None "" [] ["mint:token"] "shop" "" None "Bearer" "" [] 0 [] "" "".
Definition caller : Caller := mkCaller (Some client) "10.0.0.1" "" (Login.mkCtx "" "").
Definition body : MintRequestBody := mkMintRequestBody "user-17" ["buyer"] ["cart:read"] 120 " Ann@Example.org ".
Definition oracle (n : nat) : Effects.choice := mkChoice 1000 NoFault NoFault "0123456789abcdef" false false false false.
Definition mint : prog (answer MintResult) := HMint h (Some "ab12-cd") caller (Some body).

(** Granted: the trail names client and subject, the token says what was asked. *)
Lemma mint_stays_within_policy_witness :
  let '(a, w') := run mint oracle Toy.world in
  quiet Toy.world w' ∧ (∃ u client reason, Audit "token_minted" u client "10.0.0.1" reason ∈ trail w') ∧
  ∃ r claims, a = Replied r ∧ SignToken claims "ab12-cd" = Ok (mt_Token r) ∧ asserts cfg "shop" body claims.
Proof.
  pose proof (wp_run any mint _ Toy.world oracle (λ _, I)
    (mint_stays_within_policy true cfg true h (Some "ab12-cd") caller (Some body) Toy.world eq_refl)) as Hm.
  destruct (run mint oracle Toy.world) as [a w'] eqn:E. destruct Hm as (Hq & Ha & Hr). split_and!; [done|by apply Ha|].
  destruct a as [st m|r]; [by vm_compute in E|]. destruct Hr as (cl & b & claims & kid & [= <-] & _ & [= <-] & [= <-] & Hs & Hc).
  by exists r, claims.
Defined.

Lemma prims_sign c kid tok : SignToken c kid = Ok tok → SignRS256 c (Some (77 : privateKey)) kid = Ok tok.
Proof. unfold SignToken, prims. by destruct (SignRS256 _ _ _) as [t|]; [intros [= ->]|]. Qed.
Lemma mail_is_text a : Email_ a = true → valid_utf8 a = true.
Proof. unfold Email_, ParseAddress, mail. destruct (valid_utf8 a); [done|]. by destruct (_ <? _)%nat. Qed.

(** The request a holder would make with it. *)
Definition presented (token : string) : HTTPRequest :=
  mkHTTPRequest (mkRequest "10.9.9.9:1" {["Authorization" := ["Bearer " +:+ token]]}) "GET" "/user/profile".
Definition keys : gmap string (Z * Z) := {["ab12-cd" := (77, 65537)]}.
Lemma minted_token_opens_no_door_witness :
  ∃ r w', run mint oracle Toy.world = (Replied r, w') ∧
    (∃ why, Auth keys "https://vault" "https://shop" false (1060 * second) (presented (mt_Token r)) (Middleware.mkCtx None "") = Refuse 401 why) ∧
    is_ok (ParseAndValidate (1060 * second) (mt_Token r) (key_lookup keys) "https://vault" "https://vault") = false.
Proof.
  pose proof (wp_run any mint _ Toy.world oracle (λ _, I)
    (minted_token_opens_no_door (λ _, 77)
       prims_sign mail_is_text
       true cfg true h (Some "ab12-cd") caller (Some body) Toy.world eq_refl eq_refl
       ltac:(intros cl [= <-]; reflexivity) ltac:(by vm_compute))) as Hm.
  destruct (run mint oracle Toy.world) as [a w'] eqn:E. destruct a as [st m|r]; [by vm_compute in E|].
  exists r, w'. destruct (Hm r eq_refl) as [Hd Hp]; [assert (w' = (run mint oracle Toy.world).2) as -> by (by rewrite E); by vm_compute|].
  split_and!; [done| |apply Hp]. eapply Hd. vm_compute in E. injection E as <- _. by vm_compute.
Defined.
End MintDemo.

Lemma mint_ttl_exact_witness : MintTTLFromSeconds 900 = Ok (900 * second) ∧ MintTTLFromSeconds (- 2 ^ 63) ≠ Ok 0.
Proof.
  split; [apply (mint_ttl_exact 900); lia|]. intros E. apply (mint_ttl_exact (- 2 ^ 63) 0) in E; lia.
Defined.
