(* ===== verification/ClientAuth.v ===== *)
(** * ClientAuth: the client-credentials grant

    Models internal/handler/client.go: POST /client/token, the credentials it
    reads from a Basic header or the form body, and the scopes it grants. *)
From S2P Require Import Prelude GoStd Cache Crypto Json Bytes JsonEnc Base64 Jwt JwtFacts JwtSign NetIP Sanitize Argon2 ClientIP Model Middleware PersonalStore Effects Random StoreWp TokenService Lockout Session Login SecondFactor Mint.
From stdpp Require Import list gmap strings.
From Stdlib Require Import Ascii.
Open Scope string_scope.
Open Scope Z_scope.
Open Scope prog_scope.

(** ** Credentials *)
(** [base64.StdEncoding.DecodeString]: whole groups of four, the last one padded. *)
Definition strip_padding (s : string) : string :=
  match str_rev s with
  | String a (String b r) =>
      if code a =? 61 then (if code b =? 61 then str_rev r else str_rev (String b r)) else s
  | _ => s
  end.
Definition StdDecodeString (s : string) : option string :=
  let t := drop_breaks s in
  if (String.length t mod 4 =? 0)%nat then raw_decode std_dec false (strip_padding t) else None.

(** What the handler reads of the request: the header and the form of the body
    ([PostFormValue], which never answers from the URL). *)
Record TokenForm := mkTokenForm { Authorization : string; form_client_id : string; form_client_secret : string; form_scope : string }.

Definition basic_credentials (auth : string) : option (string * string) :=
  if HasPrefix auth "Basic " then StdDecodeString (drop_str 6 auth) ≫= Cut 58 else None.
Definition parseClientCredentials (r : TokenForm) : option (string * string) :=
  match basic_credentials (Authorization r) with
  | Some p => Some p
  | None =>
      if negb (bool_decide (form_client_id r = "")) && negb (bool_decide (form_client_secret r = ""))
      then Some (form_client_id r, form_client_secret r) else None
  end.

(** ** Scopes *)
Definition intersectScopes (requested allowed : list string) : list string := filter (λ s, s ∈ allowed) requested.
Definition requested_scopes (r : TokenForm) : list string :=
  if decide (form_scope r = "") then [] else Split 32 (form_scope r).

Record ClientHandler := mkClientHandler { ch_tokenSvc : TokenService; ch_auditLog : bool; ch_dummyHash : string }.
Record ClientTokenResponse := mkClientTokenResponse { ct_AccessToken : string; ct_ExpiresIn : Z; ct_Scope : string }.
Definition clientAuthFailureIDLimit : nat := 128.

Section client.
Context `{Primitives}.
Implicit Types h : ClientHandler.

Definition auditClientAuthFailure h (ip clientID reason : string) : prog unit :=
  if ch_auditLog h then log_event "client_auth" "" (take_str clientAuthFailureIDLimit clientID) ip reason else Ret tt.
(** A refusal, once the time of a password check was spent. *)
Definition refuse_client h (ip clientID reason pw hash : string) : prog (answer ClientTokenResponse) :=
  v <- call (SVerify pw hash "") ;;
  match v with
  | Err Argon2Overloaded => Ret (Refused 503 "server_busy")
  | _ => auditClientAuthFailure h ip clientID reason ;;; Ret (Refused 401 "invalid_client_credentials")
  end.
(** The grant, once the secret is verified. *)
Definition grant h (ip jkt : string) (r : TokenForm) (client : Client) : prog (answer ClientTokenResponse) :=
  let requested := requested_scopes r in
  let granted := intersectScopes requested (ClScopes client) in
  match requested, granted with
  | _ :: _, [] => Ret (Refused 400 "invalid_scope")
  | _, _ =>
      let granted := match granted with [] => ClScopes client | _ => granted end in
      p <- IssueTokenPair (ch_tokenSvc h) jkt (ClID client) [ClRole client] granted (ClID client) "" "" false ;;
      match p with
      | Err _ => Ret (Refused 500 "internal_error")
      | Ok pr =>
          (if ch_auditLog h then log_event "client_auth" (ClID client) (ClID client) ip (JoinStrings " " granted) else Ret tt) ;;;
          Ret (Replied (mkClientTokenResponse (AccessToken pr) (Z.quot (accessTokenTTL (ch_tokenSvc h)) second) (JoinStrings " " granted)))
      end
  end.
Definition Token h (ip jkt : string) (r : TokenForm) : prog (answer ClientTokenResponse) :=
  match parseClientCredentials r with
  | None => auditClientAuthFailure h ip "" "unparseable_credentials" ;;; Ret (Refused 401 "invalid_client_credentials")
  | Some (clientID, clientSecret) =>
      c <- call (reads (ClientGetByID clientID)) ;;
      match c with
      | Ok (Some client) =>
          if negb (ClActive client) then refuse_client h ip (ClID client) "inactive_client" clientSecret (SecretHash client)
          else
            v <- call (SVerify clientSecret (SecretHash client) "") ;;
            match v with
            | Err Argon2Overloaded => Ret (Refused 503 "server_busy")
            | Ok true => grant h ip jkt r client
            | _ => auditClientAuthFailure h ip (ClID client) "wrong_secret" ;;; Ret (Refused 401 "invalid_client_credentials")
            end
      | _ => refuse_client h ip clientID "unknown_client" "dummy" (ch_dummyHash h)
      end
  end.
End client.

(** * Facts: what a client token vouches for

    A token of the client-credentials grant goes to a client that proved its
    secret and carries no more than that client's registration; every failure
    looks the same from outside; and a scope checked on a route is one an
    operator granted. *)

(** ** Credentials survive their header *)
Example basic_header : parseClientCredentials (mkTokenForm "Basic c2hvcDpzM2NyZXQ6eA==" "" "" "") = Some ("shop", "s3cret:x").
Proof. by vm_compute. Qed.

Section facts.
Context {C : Type} `{CacheOps C} `{Primitives}.
Implicit Types w : World C.

(** A pair that is issued: its access token is the signature of these claims. *)
Lemma untouched_issue s jkt u roles scopes client fp family rm auth :
  untouched (C := C) (IssueTokenPairWithAuth s jkt u roles scopes client fp family rm auth).
Proof.
  assert (Hr : ∀ c w, personal (perform c SRandom w).2 = personal w) by (intros; cbn; by destruct (c_dry c)).
  split; [done|]. intros now. split; [done|]. intros [jti|e]; [|done]. split; [done|]. intros [tok|e]; [|done].
  split; [done|]. intros [rt|e]; [|done]. destruct (bool_decide _); [|done]. split; [done|]. by intros [f|e].
Qed.
Lemma issue_quiet s jkt u roles scopes client fp family rm auth w :
  wp any (IssueTokenPairWithAuth s jkt u roles scopes client fp family rm auth)
    (λ r w', quiet w w' ∧ issued s jkt u roles scopes client fp family rm auth w r w') w.
Proof.
  eapply wp_mono; [|apply wp_and; [apply issue_spec|apply untouched_wp, untouched_issue]].
  intros r w' [Hi Hp]. split; [|done]. by apply quiet_stores; [apply Hi|].
Qed.

Lemma client_audit_wp P h ip i reason Q w : (∀ w', quiet w w' → Q tt w') → wp P (auditClientAuthFailure h ip i reason) Q w.
Proof. intros HQ. unfold auditClientAuthFailure. destruct (ch_auditLog h); [intros c _; apply HQ, quiet_emit|apply HQ, still_refl]. Qed.

(** ** Tokens *)
(** The claims of a token granted to [client] for the scopes a request names. *)
Definition registered (s : TokenService) (client : Client) (requested : list string) (c : VaultClaims) : Prop :=
  Subject c = ClID client ∧ CClientID c = ClID client ∧ CRoles c = [ClRole client] ∧ TokenType c = "Bearer" ∧
  Issuer c = issuer s ∧ Audience c = [audience s] ∧
  (∀ sc, sc ∈ Scopes c ↔ sc ∈ ClScopes client ∧ (requested = [] ∨ sc ∈ requested)) ∧
  (requested ≠ [] → Scopes c ≠ []).

(** The client a request authenticates, if it does. *)
Definition authenticates (r : TokenForm) (d : PersonalDB) : option Client :=
  '(i, secret) ← parseClientCredentials r; c ← ClientGetByID i d;
  if ClActive c && bool_decide (argon2_verify secret (SecretHash c) "" = Ok true) then Some c else None.

Lemma grant_wp h ip jkt r client w :
  wp any (grant h ip jkt r client)
    (λ a w', quiet w w' ∧ match a with
       | Replied t => ∃ claims, SignToken claims (kid (ch_tokenSvc h)) = Ok (ct_AccessToken t) ∧
                                registered (ch_tokenSvc h) client (requested_scopes r) claims
       | Refused st _ => st = 400 ∨ st = 500 end) w.
Proof.
  unfold grant. cbv zeta. set (requested := requested_scopes r). set (granted := intersectScopes requested (ClScopes client)).
  assert (Hg : ∀ sc, sc ∈ granted ↔ sc ∈ requested ∧ sc ∈ ClScopes client).
  { intros sc. unfold granted, intersectScopes. rewrite list_elem_of_filter. tauto. }
  set (final := match granted with [] => ClScopes client | _ => granted end).
  assert (Hfin : requested = [] ∨ granted ≠ [] →
    (∀ sc, sc ∈ final ↔ sc ∈ ClScopes client ∧ (requested = [] ∨ sc ∈ requested)) ∧ (requested ≠ [] → final ≠ [])).
  { intros Hor. subst final. destruct granted as [|g l] eqn:Eg.
    - destruct Hor as [->|]; [|done]. split; [|done]. intros sc. tauto.
    - split; [|done]. intros sc. rewrite Hg. split; [tauto|]. intros [? [E|?]]; [|tauto]. exfalso.
      assert (Hin : g ∈ requested) by (apply Hg; left). by rewrite E in Hin; apply not_elem_of_nil in Hin. }
  assert (Hgo : requested = [] ∨ granted ≠ [] → wp any
    (p <- IssueTokenPair (ch_tokenSvc h) jkt (ClID client) [ClRole client] final (ClID client) "" "" false ;;
     match p with
     | Err _ => Ret (Refused 500 "internal_error")
     | Ok pr =>
         (if ch_auditLog h then log_event "client_auth" (ClID client) (ClID client) ip (JoinStrings " " final) else Ret tt) ;;;
         Ret (Replied (mkClientTokenResponse (AccessToken pr) (Z.quot (accessTokenTTL (ch_tokenSvc h)) second) (JoinStrings " " final)))
     end)
    (λ a w', quiet w w' ∧ match a with
       | Replied t => ∃ claims, SignToken claims (kid (ch_tokenSvc h)) = Ok (ct_AccessToken t) ∧
                                registered (ch_tokenSvc h) client requested claims
       | Refused st _ => st = 400 ∨ st = 500 end) w).
  { intros Hor. destruct (Hfin Hor) as [Hs Hn]. rewrite wp_bind. eapply wp_mono; [|apply issue_quiet].
    intros [pr|e] w1 [Hq Hi]; [|by split; [|right]]. destruct Hi as (_ & now & jti & _ & Hsig & _). rewrite wp_bind.
    assert (Hend : ∀ w2, quiet w1 w2 → quiet w w2 ∧ ∃ claims, SignToken claims (kid (ch_tokenSvc h)) = Ok (AccessToken pr) ∧
      registered (ch_tokenSvc h) client requested claims).
    { intros w2 Hq2. split; [by eapply still_trans|]. eexists. split; [exact Hsig|]. by split_and!. }
    destruct (ch_auditLog h); [intros c _; apply Hend, quiet_emit|apply Hend, still_refl]. }
  destruct requested as [|x l] eqn:Er; [apply Hgo; by left|]. destruct granted as [|g gs] eqn:Eg.
  - split; [apply still_refl|by left].
  - apply Hgo. by right.
Qed.

Definition refused_alike (a : answer ClientTokenResponse) : Prop := a = Refused 401 "invalid_client_credentials".
Lemma refuse_client_wp h ip i reason pw hash w :
  wp any (refuse_client h ip i reason pw hash)
    (λ a w', quiet w w' ∧ (refused_alike a ∨ a = Refused 503 "server_busy")) w.
Proof.
  unfold refuse_client. rewrite wp_bind. intros c _. pose proof (quiet_tick c w) as Hq. cbn [perform wp call fst snd].
  assert (Ha : wp any (auditClientAuthFailure h ip i reason ;;; Ret (Refused 401 "invalid_client_credentials"))
    (λ a w', quiet w w' ∧ (refused_alike a ∨ a = Refused 503 "server_busy")) (tick c w)).
  { rewrite wp_bind. apply client_audit_wp. intros w' Hq'. split; [by eapply still_trans|by left]. }
  destruct (c_busy c); [by split; [|right]|]. by destruct (argon2_verify _ _ _) as [[]|].
Qed.

(** C17. A token goes only to an active client that presented the secret of its
    registration, names that client, and carries its one role and exactly the
    scopes asked for that are registered (all of them when none is named);
    otherwise the answer is the same 401 for unreadable credentials, an
    unknown, an inactive client, a wrong secret or a database that fails, or a
    503 while the hashing queue is full.  Nothing is stored. *)
Theorem client_grant_within_registration h ip jkt r w :
  wp any (Token h ip jkt r)
    (λ a w', quiet w w' ∧
       match authenticates r (personal w) with
       | None => refused_alike a ∨ a = Refused 503 "server_busy"
       | Some client =>
           match a with
           | Replied t => ∃ claims, SignToken claims (kid (ch_tokenSvc h)) = Ok (ct_AccessToken t) ∧
                                    registered (ch_tokenSvc h) client (requested_scopes r) claims
           | Refused st _ => refused_alike a ∨ st = 503 ∨ st = 400 ∨ st = 500
           end
       end) w.
Proof.
  unfold Token, authenticates. destruct (parseClientCredentials r) as [[i secret]|]; cbn [mbind option_bind].
  2: { rewrite wp_bind. apply client_audit_wp. intros w' Hq. split; [done|by left]. }
  rewrite wp_bind. intros c _. cbn [perform reads wp call]. pose proof (quiet_tick c w) as Hq. set (w1 := tick c w) in *.
  assert (Hp : personal w1 = personal w) by done.
  assert (Hunknown : ∀ (o : option Client), wp any (refuse_client h ip i "unknown_client" "dummy" (ch_dummyHash h))
    (λ a w', quiet w w' ∧ match o with
       | None => refused_alike a ∨ a = Refused 503 "server_busy"
       | Some client => match a with
           | Replied t => ∃ claims, SignToken claims (kid (ch_tokenSvc h)) = Ok (ct_AccessToken t) ∧
                                    registered (ch_tokenSvc h) client (requested_scopes r) claims
           | Refused st _ => refused_alike a ∨ st = 503 ∨ st = 400 ∨ st = 500 end end) w1).
  { intros o. eapply wp_mono; [|apply refuse_client_wp]. intros a w' [Hq' Ha]. split; [by eapply still_trans|].
    destruct o; [|done]. destruct Ha as [->|[= ->]]; [by left|by right; left]. }
  destruct (c_db c); cbn [faulty fst snd]; [|apply Hunknown..]. rewrite Hp.
  destruct (ClientGetByID i (personal w)) as [client|] eqn:Ec; [|apply (Hunknown None)]. cbn [mbind option_bind].
  set (w2 := set_personal (personal w) w1). assert (Hq2 : quiet w w2) by (apply (still_trans _ w1); [done|by split_and!]).
  destruct (ClActive client); cbn [negb andb].
  2: { eapply wp_mono; [|apply refuse_client_wp]. intros a w' [Hq' Ha]. split; [by eapply still_trans|done]. }
  rewrite wp_bind. intros c2 _. cbn [perform wp call fst snd]. pose proof (quiet_tick c2 w2) as Hq3.
  set (w3 := tick c2 w2) in *. assert (Hq4 : quiet w w3) by (by eapply still_trans).
  assert (Hwrong : wp any (auditClientAuthFailure h ip (ClID client) "wrong_secret" ;;; Ret (Refused 401 "invalid_client_credentials"))
    (λ a w', quiet w w' ∧ refused_alike a) w3).
  { rewrite wp_bind. apply client_audit_wp. intros w' Hq'. split; [by eapply still_trans|done]. }
  destruct (c_busy c2); [by split; [|case_match; [right; left|right]]|].
  destruct (argon2_verify secret (SecretHash client) "") as [[]|e] eqn:Ev.
  - rewrite bool_decide_eq_true_2 by done. eapply wp_mono; [|apply grant_wp]. intros a w' [Hq' Ha]. split; [by eapply still_trans|].
    destruct a; [|done]. destruct Ha as [->| ->]; auto.
  - rewrite bool_decide_eq_false_2 by done. eapply wp_mono; [|exact Hwrong]. intros a w' [? ?]. by split; [|left].
  - rewrite bool_decide_eq_false_2 by done. eapply wp_mono; [|exact Hwrong]. intros a w' [? ?]. by split; [|left].
Qed.
End facts.

(** A grant, and a scope that is not registered. *)
Module ClientDemo.
Definition client : Client := mkClient "shop" "Shop" "$s3cret" "service" ["cart:read"; "mint:token"] [] true 0 0.
Definition world : World Memory.MemoryCache := set_personal (with_clients {["shop" := client]} no_personal) Toy.world.
Definition h : ClientHandler :=
  mkClientHandler (mkTokenService "k1" "iss" "aud" (15 * minute) (24 * hour) (720 * hour) (10 * hour) 0) true "$dummy".
Definition asks (secret scope : string) : answer ClientTokenResponse :=
  (run (H0 := Toy.prims) (Token h "ip" "" (mkTokenForm "" "shop" secret scope)) Toy.oracle world).1.
Example granted_and_refused :
  asks "s3cret" "mint:token admin" = Replied (mkClientTokenResponse "k1:shop:r3" 900 "mint:token") ∧
  asks "s3cret" "admin" = Refused 400 "invalid_scope" ∧ asks "guess" "" = Refused 401 "invalid_client_credentials".
Proof. by vm_compute. Qed.
End ClientDemo.
