(* ===== verification/DocumentForm.v ===== *)
(** * DocumentForm: what a service document may look like

    The walk over the tokens of a submitted document decides exactly three
    bounds, and the text stored for it is a canonical form: the same content in
    one spelling. *)
From S2P Require Import Prelude GoStd Bytes Json JsonEnc Runes JsonUtf8 Recover Identity ServiceDoc.
From stdpp Require Import list gmap sorting.
From Stdlib Require Import Ascii OrdersEx.
Open Scope string_scope.
Open Scope Z_scope.

(** ** Shape *)
Fixpoint nesting (v : json) : nat :=
  match v with
  | JArr l => S (foldr (λ x n, Nat.max (nesting x) n) 0%nat l)
  | JObj m => S (foldr (λ p n, Nat.max (nesting p.2) n) 0%nat m)
  | _ => 0%nat
  end.
Fixpoint names (v : json) : nat :=
  match v with
  | JArr l => foldr (λ x n, (names x + n)%nat) 0%nat l
  | JObj m => foldr (λ p n, (S (names p.2) + n)%nat) 0%nat m
  | _ => 0%nat
  end.
Fixpoint distinct (v : json) : bool :=
  match v with
  | JArr l => forallb distinct l
  | JObj m => bool_decide (NoDup m.*1) && forallb (λ p, distinct p.2) m
  | _ => true
  end.

(** The walk, a container at a time. *)
Fixpoint walk_members (depth : nat) (m : list (string * json)) (seen : list string) (keys : nat) : option nat :=
  match m with
  | [] => Some keys
  | (k, x) :: m' =>
      if decide (k ∈ seen) then None
      else if (svcDocMaxKeys <? S keys)%nat then None
      else keys' ← walkDocValue x depth (S keys); walk_members depth m' (k :: seen) keys'
  end.
Fixpoint walk_elements (depth : nat) (l : list json) (keys : nat) : option nat :=
  match l with [] => Some keys | x :: l' => keys' ← walkDocValue x depth keys; walk_elements depth l' keys' end.
Lemma walk_obj m d k : walkDocValue (JObj m) d k = if (svcDocMaxDepth <? S d)%nat then None else walk_members (S d) m [] k.
Proof.
  cbn [walkDocValue]. destruct (_ <? _)%nat; [done|]. generalize (@nil string). revert k.
  induction m as [|[n x] m IH]; intros k seen; [done|]. cbn [walk_members].
  case_decide; [done|]. destruct (_ <? _)%nat; [done|]. destruct (walkDocValue x _ _); [|done]. cbn. apply IH.
Qed.
Lemma walk_arr l d k : walkDocValue (JArr l) d k = if (svcDocMaxDepth <? S d)%nat then None else walk_elements (S d) l k.
Proof.
  cbn [walkDocValue]. destruct (_ <? _)%nat; [done|]. revert k.
  induction l as [|x l IH]; intros k; [done|]. cbn [walk_elements]. destruct (walkDocValue x _ _); [|done]. cbn. apply IH.
Qed.

Lemma names_obj n v m : names (JObj ((n, v) :: m)) = (S (names v) + names (JObj m))%nat.
Proof. done. Qed.
Lemma names_arr v l : names (JArr (v :: l)) = (names v + names (JArr l))%nat.
Proof. done. Qed.

(** What a walk that starts within the bounds accepts. *)
Definition walk_exact (v : json) : Prop := ∀ d k n, (d ≤ svcDocMaxDepth)%nat → (k ≤ svcDocMaxKeys)%nat →
  walkDocValue v d k = Some n ↔
  distinct v = true ∧ (d + nesting v ≤ svcDocMaxDepth)%nat ∧ (k + names v ≤ svcDocMaxKeys)%nat ∧ n = (k + names v)%nat.
Lemma members_exact d m : Forall (λ p, walk_exact p.2) m → (d ≤ svcDocMaxDepth)%nat → ∀ seen k n, (k ≤ svcDocMaxKeys)%nat →
  walk_members d m seen k = Some n ↔
  NoDup m.*1 ∧ (∀ x, x ∈ m.*1 → x ∉ seen) ∧ forallb (λ p, distinct p.2) m = true ∧
  (d + foldr (λ p n, Nat.max (nesting p.2) n) 0 m ≤ svcDocMaxDepth)%nat ∧
  (k + names (JObj m) ≤ svcDocMaxKeys)%nat ∧ n = (k + names (JObj m))%nat.
Proof.
  intros Hm Hd. induction Hm as [|[name v] m Hv Hm IH]; intros seen k n Hk; cbn [walk_members forallb foldr fmap list_fmap fst snd].
  { cbn [names foldr]. split; [|by intros (_ & _ & _ & _ & _ & ->); f_equal; lia]. intros [= ->]. split; [constructor|]. split; [set_solver|]. split_and!; (done || lia). }
  rewrite names_obj. cbn [snd] in Hv. rewrite NoDup_cons. case_decide as Hin.
  { split; [done|]. intros (_ & Hs & _). exfalso. apply (Hs name); set_solver. }
  destruct (Nat.ltb_spec svcDocMaxKeys (S k)) as [Hlt|Hge]; [split; [done|]; intros (_ & _ & _ & _ & ? & _); lia|].
  rewrite andb_true_iff. split.
  - destruct (walkDocValue v d (S k)) as [k'|] eqn:E; [|done]. cbn [mbind option_bind].
    apply Hv in E as (Hdv & Hnv & Hkv & ->); [|lia..]. intros Hr. apply IH in Hr as (Hn & Hs & Hdm & Hnm & Hkm & ->); [|lia].
    split_and!; try done; try lia; [|set_solver]. intros Hx. apply (Hs name Hx). set_solver.
  - intros ([Hx Hn] & Hs & [Hdv Hdm] & Hnest & Hkeys & ->).
    rewrite (proj2 (Hv d (S k) (S k + names v)%nat ltac:(lia) ltac:(lia))) by (split_and!; try done; lia).
    cbn [mbind option_bind]. apply IH; [lia|]. split_and!; try done; try lia. set_solver.
Qed.
Lemma elements_exact d l : Forall walk_exact l → (d ≤ svcDocMaxDepth)%nat → ∀ k n, (k ≤ svcDocMaxKeys)%nat →
  walk_elements d l k = Some n ↔
  forallb distinct l = true ∧ (d + foldr (λ x n, Nat.max (nesting x) n) 0 l ≤ svcDocMaxDepth)%nat ∧
  (k + names (JArr l) ≤ svcDocMaxKeys)%nat ∧ n = (k + names (JArr l))%nat.
Proof.
  intros Hl Hd. induction Hl as [|v l Hv Hl IH]; intros k n Hk; cbn [walk_elements forallb foldr].
  { cbn [names foldr]. split; [intros [= ->]; split_and!; (done || lia)|]. intros (_ & _ & _ & ->). f_equal. lia. }
  rewrite names_arr, andb_true_iff. split.
  - destruct (walkDocValue v d k) as [k'|] eqn:E; [|done]. cbn [mbind option_bind].
    apply Hv in E as (Hdv & Hnv & Hkv & ->); [|lia..]. intros Hr. apply IH in Hr as (Hdm & Hnm & Hkm & ->); [|lia].
    split_and!; (done || lia).
  - intros ([Hdv Hdm] & Hnest & Hkeys & ->).
    rewrite (proj2 (Hv d k (k + names v)%nat ltac:(lia) ltac:(lia))) by (split_and!; try done; lia).
    cbn [mbind option_bind]. apply IH; [lia|]. split_and!; (done || lia).
Qed.
Lemma walk_is_exact v : walk_exact v.
Proof.
  induction v as [| | | |l Hl|m Hm] using json_rect_list; intros d k n Hd Hk; cbn [nesting].
  1-4: cbn; split; [intros [= ->]; split_and!; (done || lia)|intros (_ & _ & _ & ->); f_equal; lia].
  - rewrite walk_arr. destruct (Nat.ltb_spec svcDocMaxDepth (S d)); [split; [done|]; intros (_ & ? & _); lia|].
    rewrite elements_exact by done. cbn [distinct]. split; intros (? & ? & ? & ?); split_and!; (done || lia).
  - rewrite walk_obj. destruct (Nat.ltb_spec svcDocMaxDepth (S d)); [split; [done|]; intros (_ & ? & _); lia|].
    rewrite members_exact by done. cbn [distinct]. rewrite andb_true_iff, bool_decide_eq_true.
    split; [intros (? & _ & ? & ? & ? & ?)|intros ([? ?] & ? & ? & ?)]; split_and!; try (done || lia). set_solver.
Qed.

Lemma document_shape v :
  ValidateDocumentStructure v = true ↔
  (∃ m, v = JObj m) ∧ distinct v = true ∧ (nesting v ≤ svcDocMaxDepth)%nat ∧ (names v ≤ svcDocMaxKeys)%nat.
Proof.
  unfold ValidateDocumentStructure. destruct v as [| | | | |m]; try (split; [done|]; by intros [[m Hm] _]).
  rewrite bool_decide_eq_true. split.
  - intros [n Hn]. apply walk_is_exact in Hn as (Hd & Hx & Hk & _); [|lia..]. split; [by exists m|]. split_and!; done.
  - intros (_ & Hd & Hx & Hk). exists (names (JObj m)). apply walk_is_exact; [lia..|]. split_and!; done.
Qed.

(**  The walk over a document's tokens decides exactly this: the document is
    an object, no object in it repeats a name, containers nest at most 32 deep
    and there are at most 1024 names in all. *)
Theorem document_walk_exact v :
  ValidateDocumentStructure v = true ↔
  (∃ m, v = JObj m) ∧ distinct v = true ∧ (nesting v ≤ 32)%nat ∧ (names v ≤ 1024)%nat.
Proof. apply document_shape. Qed.

(** ** The order of names *)
Lemma leb_cases a b : String.leb a b = true ↔ a = b ∨ String_as_OT.lt a b.
Proof.
  unfold String.leb. change (String.compare a b) with (String_as_OT.compare a b).
  destruct (String_as_OT.compare_spec a b) as [E|E|E]; split; intros H; try done; [by left|by right|].
  exfalso. destruct H as [E'|E'].
  - cbv in E'. subst. by apply (StrictOrder_Irreflexive (R := String_as_OT.lt) b).
  - apply (StrictOrder_Irreflexive (R := String_as_OT.lt) b). by etrans.
Qed.
#[export] Instance key_le_trans : Transitive key_le.
Proof.
  intros x y z. unfold key_le. rewrite !leb_cases. intros [->|Hxy]; [done|]. intros [<-|Hyz]; [by right|]. right. by etrans.
Qed.
#[export] Instance key_le_total : Total key_le.
Proof. intros x y. apply String.leb_total. Qed.
Lemma sorted_members m : StronglySorted key_le (merge_sort key_le m).
Proof. apply Sorted_StronglySorted; [apply _|]. apply Sorted_merge_sort. apply _. Qed.
(** Members with distinct names have one order. *)
Lemma sort_unique m m' : NoDup m.*1 → m ≡ₚ m' → merge_sort key_le m = merge_sort key_le m'.
Proof.
  intros Hn Hp. apply (StronglySorted_unique_strong key_le).
  - intros [k v] [k' v'] H1 H2 Hle Hge. rewrite merge_sort_Permutation in H1, H2. rewrite <- Hp in H2.
    unfold key_le in Hle, Hge. cbn in *. assert (k = k') as <- by (by apply String.leb_antisym).
    apply list_elem_of_lookup in H1 as [i Hi]. apply list_elem_of_lookup in H2 as [j Hj].
    assert (i = j) as <- by (eapply (NoDup_lookup m.*1 i j k Hn); by rewrite list_lookup_fmap, ?Hi, ?Hj). congruence.
  - apply sorted_members.
  - apply sorted_members.
  - by rewrite !merge_sort_Permutation.
Qed.

(** ** The same content *)
Inductive same_content : json → json → Prop :=
| same_atom v : same_content v v
| same_array l l' : Forall2 same_content l l' → same_content (JArr l) (JArr l')
| same_object m m' m'' :
    Forall2 (λ p q, p.1 = q.1 ∧ same_content p.2 q.2) m m' → m' ≡ₚ m'' → same_content (JObj m) (JObj m'').

Lemma map_names m : (map (λ p : string * json, (p.1, sorted p.2)) m).*1 = m.*1.
Proof. induction m as [|[k v] m IH]; [done|]. cbn in *. by rewrite IH. Qed.
Lemma forallb_perm {A} (p : A → bool) l l' : l ≡ₚ l' → forallb p l = forallb p l'.
Proof. induction 1; cbn; [done|by f_equal|by rewrite !andb_assoc, (andb_comm (p y))|by etrans]. Qed.
Lemma foldr_max_perm {A} (h : A → nat) l l' : l ≡ₚ l' → foldr (λ x n, Nat.max (h x) n) 0%nat l = foldr (λ x n, Nat.max (h x) n) 0%nat l'.
Proof. induction 1; cbn; lia. Qed.
Lemma foldr_sum_perm {A} (h : A → nat) l l' : l ≡ₚ l' → foldr (λ x n, (h x + n)%nat) 0%nat l = foldr (λ x n, (h x + n)%nat) 0%nat l'.
Proof. induction 1; cbn; lia. Qed.
Lemma forallb_map {A B} (g : A → B) (p : B → bool) l : forallb p (map g l) = forallb (λ x, p (g x)) l.
Proof. induction l as [|x l IH]; [done|]. cbn. by rewrite IH. Qed.
Lemma foldr_map {A B} (g : A → B) (f : B → nat → nat) l : foldr f 0%nat (map g l) = foldr (λ x, f (g x)) 0%nat l.
Proof. induction l as [|x l IH]; [done|]. cbn. by rewrite IH. Qed.
Lemma forallb_ext' {A} (p q : A → bool) l : Forall (λ x, p x = q x) l → forallb p l = forallb q l.
Proof. induction 1 as [|x l Hx Hl IH]; [done|]. cbn. by rewrite Hx, IH. Qed.
Lemma foldr_ext' {A} (f g : A → nat → nat) l : Forall (λ x, ∀ n, f x n = g x n) l → foldr f 0%nat l = foldr g 0%nat l.
Proof. induction 1 as [|x l Hx Hl IH]; [done|]. cbn. by rewrite IH, Hx. Qed.

(** Sorting changes no measure of a document. *)
Lemma sorted_measures v : json_ok (sorted v) = json_ok v ∧ distinct (sorted v) = distinct v ∧ nesting (sorted v) = nesting v ∧ names (sorted v) = names v.
Proof.
  induction v as [| | | |l Hl|m Hm] using json_rect_list; [done..| |].
  - cbn [sorted json_ok distinct nesting names]. rewrite !forallb_map, !foldr_map.
    split_and!; [apply forallb_ext'|apply forallb_ext'|f_equal; apply foldr_ext'|apply foldr_ext'];
      (eapply Forall_impl; [exact Hl|]); intros x (H1 & H2 & H3 & H4); cbn; intros; congruence.
  - cbn [sorted json_ok distinct nesting names]. set (m' := map _ m).
    pose proof (merge_sort_Permutation key_le m') as Hp.
    rewrite !(forallb_perm _ _ _ Hp), (foldr_max_perm _ _ _ Hp).
    rewrite (foldr_sum_perm (λ p, S (names p.2)) _ _ Hp).
    rewrite (bool_decide_ext (NoDup ((merge_sort key_le m').*1)) (NoDup m.*1)).
    2: { rewrite Hp. unfold m'. by rewrite map_names. }
    unfold m'. rewrite !forallb_map, !foldr_map. cbn [fst snd].
    split_and!; [apply forallb_ext'|f_equal; apply forallb_ext'|f_equal; apply foldr_ext'|apply foldr_ext'];
      (eapply Forall_impl; [exact Hm|]); intros x (H1 & H2 & H3 & H4); cbn; intros; congruence.
Qed.
Lemma sorted_same v : same_content v (sorted v).
Proof.
  induction v as [| | | |l Hl|m Hm] using json_rect_list; try constructor.
  - induction Hl; constructor; auto.
  - apply (same_object m (map (λ p, (p.1, sorted p.2)) m)); [|symmetry; apply merge_sort_Permutation].
    induction Hm; constructor; auto.
Qed.
Lemma same_sorted v v' : distinct v = true → same_content v v' → sorted v = sorted v'.
Proof.
  revert v'. induction v as [| | | |l Hl|m Hm] using json_rect_list; intros v' Hd Hs; inversion Hs as [|? l' Hll|? m' m'' Hmm Hp]; simplify_eq; try done; cbn [sorted].
  - f_equal. cbn in Hd. clear Hs. induction Hll as [|x y l l' Hxy Hll IH]; [done|]. cbn in Hd |- *. apply andb_true_iff in Hd as [Hx Hd].
    apply Forall_cons in Hl as [Hlx Hl]. f_equal; auto.
  - f_equal. cbn in Hd. apply andb_true_iff in Hd as [Hn Hd]. apply bool_decide_eq_true in Hn.
    assert (E : map (λ p, (p.1, sorted p.2)) m = map (λ p, (p.1, sorted p.2)) m').
    { clear Hs Hp Hn. induction Hmm as [|x y m m' [Hxy Hc] Hmm IH]; [done|]. cbn in Hd |- *. apply andb_true_iff in Hd as [Hx Hd].
      apply Forall_cons in Hm as [Hmx Hm]. f_equal; [|auto]. by rewrite Hxy, (Hmx _ Hx Hc). }
    apply sort_unique; [by rewrite map_names|]. rewrite E. by apply Permutation_map.
Qed.
Lemma sorted_twice v : distinct v = true → sorted (sorted v) = sorted v.
Proof. intros Hd. symmetry. apply same_sorted; [done|]. apply sorted_same. Qed.

(** ** The stored text *)
Lemma trim_nonblank c r : is_space c = false → TrimSpace (String c r) ≠ "".
Proof.
  intros Hc. unfold TrimSpace. cbn [TrimLeft]. rewrite Hc, str_rev_cons.
  assert (Ht : ∀ a, TrimLeft (a +:+ String c "") ≠ "").
  { induction a as [|x a IH]; [rewrite string_app_nil_l; cbn [TrimLeft]; by rewrite Hc|]. rewrite string_app_cons. cbn [TrimLeft]. by destruct (is_space x). }
  specialize (Ht (str_rev r)). destruct (TrimLeft _) as [|x y]; [done|]. rewrite str_rev_cons. by destruct (str_rev y).
Qed.
Lemma canonicalize_spec cfg raw c : canonicalize cfg raw = Ok c →
  Z.of_nat (String.length c) ≤ MaxDocumentBytes cfg ∧
  ∃ v, json_parse raw = Some v ∧ c = JsonEnc.encode false (sorted v) ∧ json_ok v = true ∧ ValidateDocumentStructure v = true.
Proof.
  unfold canonicalize. destruct (_ <? _); [done|]. case_bool_decide; [done|]. destruct (valid_utf8 raw) eqn:Hv; [|done]. cbn [negb].
  destruct (json_parse raw) as [v|] eqn:Ep; [|done]. destruct (ValidateDocumentStructure v) eqn:Es; [|done]. cbn [negb].
  destruct (Z.ltb_spec (MaxDocumentBytes cfg) (Z.of_nat (String.length (JsonEnc.encode false (sorted v))))); [done|]. intros [= <-].
  split; [done|]. exists v. split_and!; try done. by eapply json_parse_ok.
Qed.
Lemma sorted_shape v : ValidateDocumentStructure v = true → ValidateDocumentStructure (sorted v) = true.
Proof.
  rewrite !document_shape. destruct (sorted_measures v) as (_ & -> & -> & ->). intros ([m ->] & ?). split; [|done]. by eexists.
Qed.


Module DocumentDemo.
Definition cfg : DocumentConfig := mkDocumentConfig 65536 100 1000000 true.
Definition raw : string := quoted "{ 'b':[1.50, {'y':null,'x':'<\u00e9>'}], 'a' : 12345678901234567890 }".
Definition canonical : string := Eval vm_compute in match canonicalize cfg raw with Ok c => c | Err _ => "" end.
Lemma canonical_ok : canonicalize cfg raw = Ok canonical.
Proof. by vm_compute. Qed.
End DocumentDemo.
