(* ===== verification/DocumentPrivacy.v ===== *)
(** * DocumentPrivacy: nothing shows of what others keep private

    Two databases that differ only in documents a client may not read are the
    same to that client: whatever it asks, however often, it gets the same
    answers. *)
From S2P Require Import Prelude GoStd Bytes Json JsonEnc Runes Cache Crypto NetIP Aes Model TokenStore PersonalStore Effects Random TokenService Lockout Session Login SecondFactor Erasure StoreWp Recover Identity ServiceDoc Reasoning BlobFacts.
From stdpp Require Import list gmap sorting.
Open Scope string_scope.
Open Scope Z_scope.
Open Scope prog_scope.

Section privacy.
Context {C : Type} `{CacheOps C} `{Primitives} `{AEAD}.
#[local] Notation "'W'" := (World C).
Implicit Types w : W.
(** [me] asks; [foreign] are the row ids of documents it may not read. *)
Context (s : DocumentService) (me : string) (foreign : list string).

(** Its own documents, and shared ones while sharing is on. *)
Definition sees (x : ServiceDocument) : Prop := ClientID x = me ∨ (Visibility x = VisibilityShared ∧ SharedEnabled (ds_cfg s) = true).
#[local] Instance sees_dec x : Decision (sees x).
Proof. unfold sees. apply _. Defined.
Definition hidden_ids (d : PersonalDB) : Prop := ∀ x, x ∈ service_documents d → (DocID x ∈ foreign ↔ ¬ sees x).
(** The unique key of the table. *)
Definition one_per_key (d : PersonalDB) : Prop := ∀ c sh k, (length (filter (doc_at c sh k) (service_documents d)) ≤ 1)%nat.
Definition alike_db (d d' : PersonalDB) : Prop :=
  filter sees (service_documents d) = filter sees (service_documents d') ∧ clients d = clients d' ∧
  (hidden_ids d ∧ one_per_key d) ∧ (hidden_ids d' ∧ one_per_key d').
Definition alike w w' : Prop := clock w = clock w' ∧ alike_db (personal w) (personal w').
(** An identifier drawn anew is nobody's. *)
Definition fresh_ids (c : Effects.choice) : Prop := uuid_of (take_str 16 (c_rand c)) ∉ foreign.
#[local] Abbreviation twin := (twins fresh_ids alike).

(** *** Reads *)
Lemma filter_within {A} (P Q : A → Prop) `{∀ x, Decision (P x)} `{∀ x, Decision (Q x)} (l : list A) :
  (∀ x, P x → Q x) → filter P l = filter P (filter Q l).
Proof.
  intros HPQ. induction l as [|x l IH]; [done|]. rewrite !filter_cons. case_decide as Hp; case_decide as Hq; try (by exfalso; auto).
  - rewrite filter_cons, decide_True by done. by rewrite IH.
  - rewrite filter_cons, decide_False by done. done.
  - done.
Qed.
Lemma filter_comm {A} (P Q : A → Prop) `{∀ x, Decision (P x)} `{∀ x, Decision (Q x)} (l : list A) :
  filter P (filter Q l) = filter Q (filter P l).
Proof. rewrite !list_filter_filter. apply list_filter_iff. tauto. Qed.
Lemma alike_filter (P : ServiceDocument → Prop) `{∀ x, Decision (P x)} d d' :
  alike_db d d' → (∀ x, P x → sees x) → filter P (service_documents d) = filter P (service_documents d').
Proof. intros (E & _) HP. rewrite (filter_within P sees), (filter_within P sees (service_documents d')) by done. by rewrite E. Qed.
Lemma alike_tick c w w' : alike w w' → alike (tick c w) (tick c w').
Proof. intros [Ht Hd]. split; [cbn; by rewrite Ht|done]. Qed.

Lemma twin_now {A} (k k' : Z → prog A) : (∀ t, twin eq (k t) (k' t)) → twin eq (bind (call SNow) k) (bind (call SNow) k').
Proof. apply twins_same. intros c w w' _ Hw. split; [cbn; by rewrite (proj1 Hw)|by apply alike_tick]. Qed.
Lemma twin_emit {A} e (p q : prog A) : twin eq p q → twin eq (bind (call (SEmit e)) (λ _, p)) (bind (call (SEmit e)) (λ _, q)).
Proof. intros Hp. apply twins_same; [|done]. intros c w w' _ Hw. split; [done|]. exact (alike_tick c w w' Hw). Qed.
Lemma twin_reads {A B} (f : PersonalDB → B) (k k' : res repoErr B → prog A) :
  (∀ d d', alike_db d d' → f d = f d') → (∀ r, twin eq (k r) (k' r)) → twin eq (bind (call (reads f)) k) (bind (call (reads f)) k').
Proof.
  intros Hf. apply twins_same. intros c w w' _ Hw. pose proof (alike_tick c w w' Hw) as Ht. cbn. rewrite (Hf _ _ (proj2 Hw)).
  by destruct (c_db c).
Qed.
(** A read whose answers are related. *)
Lemma twin_read_rel {A B} (f : PersonalDB → B) (rel : B → B → Prop) (k k' : res repoErr B → prog A) :
  (∀ d d', alike_db d d' → rel (f d) (f d')) → (∀ b b', rel b b' → twin eq (k (Ok b)) (k' (Ok b'))) → (∀ e, twin eq (k (Err e)) (k' (Err e))) →
  twin eq (bind (call (reads f)) k) (bind (call (reads f)) k').
Proof.
  intros Hf Hk He. constructor; intros c w w' _ Hw; pose proof (alike_tick c w w' Hw) as Ht; cbn.
  - by destruct (c_db c).
  - destruct (c_db c); cbn; [apply Hk, Hf, Hw|apply He|apply He].
Qed.

Lemma DocGet_alike sh k d d' : alike_db d d' → DocGet me sh k d = DocGet me sh k d'.
Proof. intros Hd. unfold DocGet. rewrite (alike_filter (doc_at me sh k) d d'); [done|done|]. intros x (? & _). by left. Qed.
Lemma ListByOwner_alike sh d d' : alike_db d d' → ListByOwner me sh d = ListByOwner me sh d'.
Proof. intros Hd. unfold ListByOwner, select. rewrite (alike_filter (λ x, ClientID x = me ∧ SubjectHash x = sh) d d'); [done|done|]. intros x (? & _). by left. Qed.
Lemma delete_alike sh k d d' : alike_db d d' → alike_db (DocDelete me sh k d).2 (DocDelete me sh k d').2.
Proof.
  intros (E & Ec & [Hh Hu] & Hh' & Hu').
  assert (Hside : ∀ d, hidden_ids d → one_per_key d → hidden_ids (DocDelete me sh k d).2 ∧ one_per_key (DocDelete me sh k d).2).
  { intros d0 Hh0 Hu0. split.
    - intros x. cbn. rewrite list_elem_of_filter. intros [_ Hx]. by apply Hh0.
    - intros c sh' k'. etrans; [|apply (Hu0 c sh' k')]. cbn. rewrite filter_comm. apply length_filter. }
  split_and!; [|done|by apply Hside..]. cbn. rewrite (filter_comm sees), (filter_comm sees _ (service_documents d')). by rewrite E.
Qed.
Lemma less_legacy_alike lh k d d' : alike_db d d' → alike_db (less_legacy me lh k d) (less_legacy me lh k d').
Proof. intros Hd. unfold less_legacy. case_decide; [done|]. by apply delete_alike. Qed.
Lemma twin_refl_bind {A B} (p : prog A) (k k' : A → prog B) : twin eq p p → (∀ a, twin eq (k a) (k' a)) → twin eq (bind p k) (bind p k').
Proof. intros Hp Hk. eapply (twins_bind _ _ eq eq); [exact Hp|]. intros a ? <-. apply Hk. Qed.
Lemma twin_across {B} view (f : string → PersonalDB → B) plus sh lh step :
  (∀ d d', alike_db d d' → alike_db (view d) (view d')) → (∀ sh d d', alike_db d d' → f sh d = f sh d') →
  twin eq (across view f plus sh lh step) (across view f plus sh lh step).
Proof.
  intros Hv Hf. unfold across. apply twin_reads; [intros; by apply Hf, Hv|].
  intros [a|e]; [|by constructor]. case_decide; [by constructor|]. apply twin_reads; [intros; by apply Hf, Hv|]. intros r. by constructor.
Qed.
Lemma twin_sumBytes view sh lh : (∀ d d', alike_db d d' → alike_db (view d) (view d')) →
  twin eq (sumBytes view me sh lh) (sumBytes view me sh lh).
Proof.
  intros Hv. apply twin_across; [done|]. intros sh' d d' Hd. unfold SumBytesForSubjectAndClient. by rewrite (ListByOwner_alike sh' d d').
Qed.

(** *** Programs *)
Lemma twin_metric name : twin eq (doc_metric s name) (doc_metric s name).
Proof.
  unfold doc_metric. destruct (ds_metrics s); [|by constructor].
  constructor; intros c w w' _ Hw; [exact (alike_tick c w w' Hw)|by constructor].
Qed.
Lemma twin_ownerName i : twin eq (ownerName s i) (ownerName s i).
Proof.
  unfold ownerName. destruct (negb _); [by constructor|]. apply twin_reads; [|intros r; by constructor].
  intros d d' (_ & Ec & _). unfold ClientGetByID. by rewrite Ec.
Qed.
Lemma twin_metaOf x i : twin eq (metaOf s x i) (metaOf s x i).
Proof. unfold metaOf. apply twin_refl_bind; [apply twin_ownerName|]. intros o. by constructor. Qed.
Lemma twin_metas l i : twin eq (metas s l i) (metas s l i).
Proof.
  induction l as [|x l IH]; cbn [metas]; [by constructor|]. apply twin_refl_bind; [apply twin_metaOf|]. intros m.
  apply twin_refl_bind; [done|]. intros ms. by constructor.
Qed.
Lemma twin_resolveOwnerID o : twin eq (resolveOwnerID s o) (resolveOwnerID s o).
Proof.
  unfold resolveOwnerID. destruct (negb _); [by constructor|]. apply twin_reads; [|intros r; by constructor].
  intros d d' (_ & Ec & _). unfold ClientGetByName. by rewrite Ec.
Qed.
(** What is left of a row when it may not be read. *)
Definition readable (x : option ServiceDocument) : option ServiceDocument := x ≫= λ x, if decide (sees x) then Some x else None.
Lemma readable_answer x : (match x with
    | None => Err ErrSvcDocNotFound
    | Some x => if negb (bool_decide (ClientID x = me)) && negb ((Visibility x =? VisibilityShared) && SharedEnabled (ds_cfg s))
                then Err ErrSvcDocNotFound else Ok x
    end : res docErr _) = match readable x with None => Err ErrSvcDocNotFound | Some x => Ok x end.
Proof.
  destruct x as [x|]; [|done]. cbn. case_decide as Hs.
  - destruct Hs as [Hc|[Hv He]]; [by rewrite bool_decide_true|]. rewrite Hv, He. by rewrite andb_false_r.
  - unfold sees in Hs. rewrite bool_decide_false by tauto.
    destruct (Z.eqb_spec (Visibility x) VisibilityShared), (SharedEnabled (ds_cfg s)); try done. exfalso. tauto.
Qed.
Lemma readable_alike o sh k d d' : alike_db d d' → readable (DocGet o sh k d) = readable (DocGet o sh k d').
Proof.
  assert (Hone : ∀ d, one_per_key d → readable (DocGet o sh k d) = head (filter (doc_at o sh k) (filter sees (service_documents d)))).
  { intros d0 Hu. unfold DocGet. specialize (Hu o sh k). rewrite filter_comm.
    destruct (filter (doc_at o sh k) (service_documents d0)) as [|x [|y l]]; [done| |cbn in Hu; lia].
    rewrite filter_cons. cbn [head readable mbind option_bind].
    by case_decide. }
  intros (E & _ & [_ Hu] & _ & Hu'). by rewrite !Hone, E.
Qed.
Lemma twin_resolve sh k owner : twin eq (resolve s me sh k owner) (resolve s me sh k owner).
Proof.
  unfold resolve. case_decide as Ho.
  - apply twin_reads; [apply DocGet_alike|]. intros [[x|]|e]; [by constructor| |by constructor].
    destruct (SharedEnabled (ds_cfg s)) eqn:Es; cbn [negb]; [|by constructor]. apply twin_reads; [|intros r; by constructor].
    intros d d' Hd. unfold ListSharedByKey, select. f_equal. apply alike_filter; [done|]. intros x (_ & _ & Hv & _). by right.
  - apply twin_refl_bind; [apply twin_resolveOwnerID|]. intros [o|e]; [|by constructor].
    apply (twin_read_rel _ (λ a b, readable a = readable b)); [apply readable_alike| |by constructor].
    intros a b Hab. constructor. by rewrite !readable_answer, Hab.
Qed.
Lemma twin_GetDocument subject k owner : twin eq (GetDocument s me subject k owner) (GetDocument s me subject k owner).
Proof.
  unfold GetDocument. do 2 (destruct (negb _); [by constructor|]). apply twin_refl_bind; [apply twin_resolve|]. intros r.
  apply twin_refl_bind.
  { destruct r as [x|[]]; try by constructor. case_decide; [by constructor|apply twin_resolve]. }
  intros [x|e]; [|by constructor]. destruct (Decrypt _ _ _); [|by constructor].
  apply twin_refl_bind; [apply twin_metric|]. intros _. apply twin_refl_bind; [apply twin_metaOf|]. intros m. by constructor.
Qed.
Lemma twin_ListDocuments subject : twin eq (ListDocuments s me subject) (ListDocuments s me subject).
Proof.
  unfold ListDocuments. destruct (negb _); [by constructor|]. apply twin_refl_bind; [apply twin_across; [done|apply ListByOwner_alike]|].
  intros [own|e]; [|by constructor]. apply twin_refl_bind.
  { destruct (SharedEnabled (ds_cfg s)) eqn:Es; [|by constructor]. apply twin_across; [done|].
    intros sh d d' Hd. unfold ListSharedForSubject, select. f_equal. apply alike_filter; [done|]. intros x (_ & Hv & _). by right. }
  intros [shared|e]; [|by constructor]. apply twin_refl_bind; [by apply twin_sumBytes|].
  intros [used|e]; [|by constructor]. apply twin_refl_bind; [apply twin_metas|]. intros ms. by constructor.
Qed.
Lemma twin_checkQuota view sh lh existing n : (∀ d d', alike_db d d' → alike_db (view d) (view d')) →
  twin eq (checkQuota s view me sh lh existing n) (checkQuota s view me sh lh existing n).
Proof.
  intros Hv. unfold checkQuota.
  assert (Hb : ∀ k : res docErr Z → prog (option docErr), (∀ r, twin eq (k r) (k r)) →
    twin eq (bind (sumBytes view me sh lh) k) (bind (sumBytes view me sh lh) k)).
  { intros k Hk. apply twin_refl_bind; [by apply twin_sumBytes|done]. }
  destruct existing as [x|]; [apply Hb; intros r; by constructor|].
  apply twin_refl_bind.
  { apply twin_across; [done|]. intros sh' d d' Hd. unfold CountForOwner. by rewrite (ListByOwner_alike sh' d d'). }
  intros [count|e]; [|by constructor]. destruct (_ <=? _); [by constructor|]. apply Hb; intros r; by constructor.
Qed.

(** *** Writes *)
Lemma twin_writes {A B} (f : PersonalDB → B * PersonalDB) (k k' : res repoErr B → prog A) :
  (∀ d d', alike_db d d' → (f d).1 = (f d').1 ∧ alike_db (f d).2 (f d').2) → (∀ r, twin eq (k r) (k' r)) →
  twin eq (bind (call (writes f)) k) (bind (call (writes f)) k').
Proof.
  intros Hf. apply twins_same. intros c w w' _ Hw. destruct (alike_tick c w w' Hw) as [Ht Hd].
  destruct (Hf _ _ Hd) as [E Ha]. cbn in *. destruct (f (personal w)) as [b d], (f (personal w')) as [b' d']. cbn in *. subst b'.
  by destruct (c_db c).
Qed.
Lemma DocDelete_alike sh k d d' : alike_db d d' →
  (DocDelete me sh k d).1 = (DocDelete me sh k d').1 ∧ alike_db (DocDelete me sh k d).2 (DocDelete me sh k d').2.
Proof.
  intros Hd. split; [|by apply delete_alike]. unfold DocDelete. cbn [fst].
  rewrite (alike_filter (doc_at me sh k) d d'); [done|done|]. intros x (? & _). by left.
Qed.
Lemma twin_DeleteDocument subject k : twin eq (DeleteDocument s me subject k) (DeleteDocument s me subject k).
Proof.
  unfold DeleteDocument. do 2 (destruct (negb _); [by constructor|]). apply twin_writes; [apply DocDelete_alike|].
  intros [[]|e]; [by constructor| |by constructor]. case_decide; [by constructor|].
  apply twin_writes; [apply DocDelete_alike|]. intros r. by constructor.
Qed.

(** The row a client writes. *)
Definition rewrite_row (now : Z) (x y : ServiceDocument) : ServiceDocument :=
  if decide (doc_at (ClientID x) (SubjectHash x) (DocKey x) y)
  then mkServiceDocument (DocID y) (ClientID y) (SubjectHash y) (DocKey y) (Visibility x) (DocDataEnc x)
         (DocSizeBytes x) (DocStoredBytes x) (DocVersion x) (DocCreatedAt y) now
  else y.
Lemma rewrite_key now x y c sh k : doc_at c sh k (rewrite_row now x y) ↔ doc_at c sh k y.
Proof. unfold rewrite_row. by case_decide. Qed.
Lemma rewrite_sees now x y : ClientID x = me → sees (rewrite_row now x y) ↔ sees y.
Proof. intros Hx. unfold rewrite_row. case_decide as Hd; [|done]. destruct Hd as (Hc & _). unfold sees. cbn. rewrite Hc, Hx. tauto. Qed.
Lemma filter_map_iff {A} (P : A → Prop) `{∀ x, Decision (P x)} (f : A → A) (l : list A) :
  (∀ x, P (f x) ↔ P x) → filter P (f <$> l) = f <$> filter P l.
Proof.
  intros Hf. induction l as [|x l IH]; [done|]. rewrite fmap_cons, !filter_cons. destruct (decide (P x)) as [Hx|Hx].
  - rewrite decide_True by (by apply Hf). by rewrite IH.
  - rewrite decide_False by (by rewrite Hf). done.
Qed.
Lemma DocUpsert_alike now x d d' : ClientID x = me → DocID x ∉ foreign → alike_db d d' →
  (DocUpsert now x d).1 = (DocUpsert now x d').1 ∧ alike_db (DocUpsert now x d).2 (DocUpsert now x d').2.
Proof.
  intros Hx Hid Hd. unfold DocUpsert. fold (rewrite_row now x).
  assert (Hf : filter (doc_at (ClientID x) (SubjectHash x) (DocKey x)) (service_documents d)
             = filter (doc_at (ClientID x) (SubjectHash x) (DocKey x)) (service_documents d')).
  { apply alike_filter; [done|]. intros y (? & _). left. congruence. }
  pose proof Hd as (E & Ec & [Hh Hu] & Hh' & Hu').
  destruct (filter _ (service_documents d)) as [|z l] eqn:El; rewrite <- Hf.
  - assert (Hin : ∀ d, hidden_ids d → DocID x ∈ (DocID <$> service_documents d) ↔ DocID x ∈ (DocID <$> filter sees (service_documents d))).
    { intros d0 Hd0. rewrite !list_elem_of_fmap. split; intros (y & Ey & Hy).
      - exists y. split; [done|]. rewrite list_elem_of_filter. split; [|done]. destruct (decide (sees y)); [done|].
        exfalso. apply Hid. rewrite Ey. by apply Hd0.
      - exists y. rewrite list_elem_of_filter in Hy. tauto. }
    rewrite (bool_decide_ext _ _ (Hin d Hh)), (bool_decide_ext _ _ (Hin d' Hh')), E. case_bool_decide as Hc; [done|].
    cbn [fst snd]. split; [done|]. set (row := mkServiceDocument _ _ _ _ _ _ _ _ _ _ _).
    assert (Hrow : sees row) by (by left).
    assert (Hside : ∀ d, hidden_ids d → one_per_key d → filter (doc_at (ClientID x) (SubjectHash x) (DocKey x)) (service_documents d) = [] →
       hidden_ids (with_docs (row :: service_documents d) d) ∧ one_per_key (with_docs (row :: service_documents d) d)).
    { intros d0 Hh0 Hu0 Hnil. split.
      - intros y. cbn. rewrite elem_of_cons. intros [->|Hy]; [|by apply Hh0]. split; [done|]. intros Hn. by destruct Hn.
      - intros c sh k. cbn [service_documents with_docs]. rewrite filter_cons. case_decide as Hat; [|apply Hu0]. destruct Hat as (<- & <- & <-).
        change (length (row :: filter (doc_at (ClientID x) (SubjectHash x) (DocKey x)) (service_documents d0)) ≤ 1)%nat. by rewrite Hnil. }
    split_and!; [|done|by apply Hside..]. cbn [service_documents with_docs]. rewrite !filter_cons, !decide_True by done. by rewrite E.
  - cbn [fst snd]. split; [done|].
    assert (Hside : ∀ d, hidden_ids d → one_per_key d →
       hidden_ids (with_docs (rewrite_row now x <$> service_documents d) d) ∧ one_per_key (with_docs (rewrite_row now x <$> service_documents d) d)).
    { intros d0 Hh0 Hu0. split.
      - intros y. cbn. rewrite list_elem_of_fmap. intros (y0 & -> & Hy). rewrite rewrite_sees by done.
        rewrite <- (Hh0 y0 Hy). unfold rewrite_row. by case_decide.
      - intros c sh k. cbn [service_documents with_docs]. rewrite filter_map_iff by (intros; apply rewrite_key). rewrite length_fmap. apply Hu0. }
    split_and!; [|done|by apply Hside..]. cbn [service_documents with_docs]. rewrite !filter_map_iff by (intros; by apply rewrite_sees). by rewrite E.
Qed.

(** A drawn identifier is nobody's. *)
Lemma twin_RandomUUID : twins fresh_ids alike (λ a b, a = b ∧ ∀ i, a = Ok i → i ∉ foreign) RandomUUID RandomUUID.
Proof.
  unfold RandomUUID, RandomBytes. cbn [bind call]. constructor; intros c w w' Hc Hw; pose proof (alike_tick c w w' Hw) as Ht; cbn -[take_str Nat.ltb].
  - by destruct (c_dry c).
  - destruct (c_dry c); cbn -[take_str Nat.ltb]; [by constructor|]. destruct (_ <? _)%nat; cbn -[take_str]; constructor; [done|].
    split; [done|]. by intros i [= <-].
Qed.
Lemma twin_write_section sh lh k enc v size :
  twin eq (write_section s me sh lh k enc v size) (write_section s me sh lh k enc v size).
Proof.
  unfold write_section. cbv zeta. apply twin_reads; [done|]. intros [_|e]; [|by constructor].
  apply twin_refl_bind; [case_decide; [by constructor|]; constructor; intros c w w' _ Hw; pose proof (alike_tick c w w' Hw) as Ht; cbn;
    [by destruct (c_db c)|destruct (c_db c); by constructor]|].
  intros [_|e]; [|by constructor].
  pose proof (less_legacy_alike lh k) as Hview.
  apply (twin_read_rel _ (λ a b, a = b ∧ ∀ x, a = Some x → DocID x ∉ foreign)); [| |by constructor].
  { intros d d' Hd. specialize (Hview d d' Hd). rewrite (DocGet_alike sh k _ _ Hview). split; [done|].
    intros x Hx. destruct Hview as (_ & _ & _ & Hh & _). unfold DocGet in Hx.
    assert (Hin : x ∈ filter (doc_at me sh k) (service_documents (less_legacy me lh k d'))) by (destruct (filter _ _); [done|]; injection Hx as ->; left).
    rewrite list_elem_of_filter in Hin. destruct Hin as [(Hc & _) Hin]. rewrite (Hh x Hin). intros Hn. apply Hn. by left. }
  intros existing ? [<- Hex]. apply twin_refl_bind; [by apply twin_checkQuota|]. intros [e|]; [by constructor|].
  eapply (twins_bind _ _ (λ a b, a = b ∧ ∀ i, a = Ok i → i ∉ foreign)).
  { destruct existing as [x|]; [|apply twin_RandomUUID]. constructor. split; [done|]. intros i [= <-]. by apply Hex. }
  intros id ? [<- Hid]. destruct id as [id|e]; [|by constructor]. specialize (Hid id eq_refl).
  apply twins_same; [|intros r; by constructor]. intros c w w' _ Hw. destruct (alike_tick c w w' Hw) as [Ht Hd].
  destruct (DocUpsert_alike (clock (tick c w)) (mkServiceDocument id me sh k v enc size (Z.of_nat (String.length enc)) 1 0 0) _ _ eq_refl Hid (Hview _ _ Hd)) as [E Ha].
  cbn [perform]. rewrite <- Ht.
  destruct (DocUpsert _ _ (less_legacy me lh k (personal (tick c w)))) as [[b|e] d1], (DocUpsert _ _ (less_legacy me lh k (personal (tick c w')))) as [[b'|e'] d1'];
    cbn [fst snd] in E, Ha; simplify_eq; by destruct (c_db c).
Qed.
Lemma twin_PutDocument subject k raw v : twin eq (PutDocument s me subject k raw v) (PutDocument s me subject k raw v).
Proof.
  unfold PutDocument. cbv zeta.
  assert (Hr : ∀ e : docErr, twin eq (rejected s ;;; Ret (Err e : res docErr (DocumentMeta * bool))) (rejected s ;;; Ret (Err e))).
  { intros e. apply twin_refl_bind; [apply twin_metric|]. by constructor. }
  do 2 (destruct (negb _); [apply Hr|]). destruct (_ && _); [apply Hr|]. destruct (canonicalize _ _) as [c|e]; [|apply Hr].
  apply twin_refl_bind.
  { unfold encrypt, RandomBytes. cbn [bind call]. constructor; intros c0 w w' Hc Hw; pose proof (alike_tick c0 w w' Hw) as Ht; cbn -[take_str Nat.ltb Encrypt].
    - by destruct (c_dry c0).
    - destruct (c_dry c0); cbn -[take_str Nat.ltb Encrypt]; [by constructor|]. destruct (_ <? _)%nat; by constructor. }
  intros [enc|]; [|by constructor]. apply twin_refl_bind; [apply twin_write_section|]. intros [[created existing]|[]]; try by constructor; try apply Hr.
  2: apply Hr.
  apply twin_now. intros t. apply twin_refl_bind; [apply twin_metric|]. by constructor.
Qed.
End privacy.

(** ** What a client can ask *)
Inductive doc_request :=
| RPut (subject key visibility : string) (body : option string)
| RGet (subject key owner : string)
| RDelete (subject key : string)
| RList (subject : string).
Inductive doc_reply :=
| APut (a : answer (Z * DocumentMeta))
| AGet (a : answer (string * (string * string)))
| ADelete (a : answer string)
| AList (a : answer (list DocumentMeta * DocumentQuota)).

Section dialogue.
Context {C : Type} `{CacheOps C} `{Primitives} `{AEAD}.
Implicit Types w : World C.
Definition answer_doc (h : DocumentHandler) (c : Caller) (q : doc_request) : prog doc_reply :=
  match q with
  | RPut subject key visibility body => a <- HPutDocument h c subject key visibility body ;; Ret (APut a)
  | RGet subject key owner => a <- HGetDocument h c subject key owner ;; Ret (AGet a)
  | RDelete subject key => a <- HDeleteDocument h c subject key ;; Ret (ADelete a)
  | RList subject => a <- HListDocuments h c subject ;; Ret (AList a)
  end.
(** One request after the other, each with what the outside decides for it. *)
Fixpoint dialogue (h : DocumentHandler) (c : Caller) (qs : list (doc_request * (nat → Effects.choice))) w : list doc_reply :=
  match qs with
  | [] => []
  | (q, o) :: qs' => let '(a, w') := run (answer_doc h c q) o w in a :: dialogue h c qs' w'
  end.

Lemma answer_doc_twins h c foreign q :
  twins (C := C) (fresh_ids foreign) (alike (dh_svc h) (from_option CClientID "" (c_claims c)) foreign) eq (answer_doc h c q) (answer_doc h c q).
Proof.
  assert (Haudit : ∀ me event subject i k, twins (C := C) (fresh_ids foreign) (alike (dh_svc h) me foreign) eq
    (doc_audit h c event subject i k) (doc_audit h c event subject i k)).
  { intros me event subject i k. unfold doc_audit, log_event. destruct (dh_auditLog h); [|by constructor].
    constructor; intros c0 w w' _ Hw; [exact (alike_tick _ _ _ c0 w w' Hw)|by constructor]. }
  unfold answer_doc. destruct (c_claims c) as [claims|] eqn:Ec; cbn [from_option].
  2: { unfold HPutDocument, HGetDocument, HDeleteDocument, HListDocuments, requireClient. rewrite Ec. destruct q; by constructor. }
  unfold HPutDocument, HGetDocument, HDeleteDocument, HListDocuments, requireClient, pathParts. rewrite Ec.
  destruct q as [subject k v body|subject k owner|subject k|subject]; (case_decide; [by constructor|]); (case_decide; [by constructor|]);
    apply twin_refl_bind; try (intros a; by constructor); try (case_decide; [by constructor|]).
  - destruct (ParseVisibility v) as [v'|]; [|by constructor]. destruct body as [raw|]; [|by constructor].
    apply twin_refl_bind; [apply twin_PutDocument|]. intros [[m cr]|e]; [|by constructor]. apply twin_refl_bind; [apply Haudit|]. by constructor.
  - apply twin_refl_bind; [apply twin_GetDocument|]. intros [[b m]|e]; [|by constructor]. apply twin_refl_bind; [apply Haudit|]. by constructor.
  - apply twin_refl_bind; [apply twin_DeleteDocument|]. intros [[]|e]; [|by constructor]. apply twin_refl_bind; [apply Haudit|]. by constructor.
  - apply twin_refl_bind; [apply twin_ListDocuments|]. by constructor.
Qed.

(** C9.  The store is no oracle for what other services hold.  Two databases
    that agree on the clients and on the documents a caller may read (its own,
    and shared ones while sharing is on) answer every sequence of its writes,
    reads, deletions and listings alike, whatever the clock, the entropy source
    and the database do, as long as a drawn row id is not one already in use:
    bodies, metadata, quota figures and errors included. *)
Theorem private_documents_are_invisible h c foreign qs w w' :
  alike (dh_svc h) (from_option CClientID "" (c_claims c)) foreign w w' →
  Forall (λ q, ∀ n, fresh_ids foreign (q.2 n)) qs → dialogue h c qs w = dialogue h c qs w'.
Proof.
  intros Hw Hqs. revert w w' Hw. induction Hqs as [|[q o] qs Hq Hqs IH]; intros w w' Hw; [done|]. cbn.
  destruct (twins_run _ _ _ _ _ o w w' Hq (answer_doc_twins h c foreign q) Hw) as [E Ha].
  destruct (run _ o w) as [a v], (run _ o w') as [a' v']. cbn in *. subst a'. by rewrite (IH v v').
Qed.
End dialogue.

Module PrivacyDemo.
#[local] Existing Instance BlobDemo.prims.
#[local] Existing Instance ToyEscrow.aead.
Definition svc : DocumentService := mkDocumentService true ToyEscrow.key "pepper" (mkDocumentConfig 1000 3 1000 true) true.
Definition h : DocumentHandler := mkDocumentHandler svc true.
Definition caller : Caller := mkCaller (Some (mkClaims "" [] "billing" None None None "" [] [] "billing" "" None "" "" [] 0 [] "" "")) "ip" "" (mkCtx "" "").
(** Another service keeps a private record of alice, and one that is shared. *)
Definition theirs (id key : string) (v : Z) : ServiceDocument :=
  mkServiceDocument id "health" (subjectHash svc "alice") key v "sealed" 6 6 1 0 0.
Definition with_private : World Memory.MemoryCache := set_personal (with_docs [theirs "1" "diagnosis" 0; theirs "2" "theme" 1] no_personal) Toy.world.
Definition without : World Memory.MemoryCache := set_personal (with_docs [theirs "2" "theme" 1] no_personal) Toy.world.
Definition asks : list (doc_request * (nat → Effects.choice)) :=
  (λ q, (q, BlobDemo.oracle)) <$>
  [RGet "alice" "diagnosis" ""; RGet "alice" "theme" ""; RList "alice"; RPut "alice" "diagnosis" "" (Some "{}"); RGet "alice" "diagnosis" "health";
   RList "alice"; RDelete "alice" "diagnosis"].

Lemma worlds_alike : alike svc "billing" ["1"] with_private without.
Proof.
  split; [done|]. split_and!; try done.
  - intros x. cbn. rewrite !elem_of_cons, elem_of_nil. unfold sees. intros [->|[->|[]]]; cbn; set_solver.
  - intros c sh k. cbn [service_documents with_private set_personal personal with_docs]. rewrite !filter_cons.
    repeat case_decide; cbn; try lia. exfalso. unfold doc_at, theirs in *. cbn in *. naive_solver.
  - intros x. cbn. rewrite !elem_of_cons, elem_of_nil. unfold sees. intros [->|[]]; cbn; set_solver.
  - intros c sh k. cbn [service_documents without set_personal personal with_docs]. rewrite !filter_cons. repeat case_decide; cbn; lia.
Qed.
Lemma draws_fresh : Forall (λ q, ∀ n, fresh_ids ["1"] (q.2 n)) asks.
Proof.
  assert (Hn : ∀ n, fresh_ids ["1"] (BlobDemo.oracle n)).
  { intros n. unfold fresh_ids. rewrite list_elem_of_singleton. intros E. apply (f_equal String.length) in E. revert E.
    unfold uuid_of. rewrite !string_app_length. cbn [String.length]. lia. }
  unfold asks. apply Forall_fmap. apply Forall_true. intros q n. apply Hn.
Qed.
Lemma private_documents_are_invisible_witness : dialogue h caller asks with_private = dialogue h caller asks without.
Proof. exact (private_documents_are_invisible h caller ["1"] asks with_private without worlds_alike draws_fresh). Defined.
(** The dialogue is one that succeeds. *)
Example dialogue_served : ∃ m, last (dialogue h caller asks without) = Some (ADelete (Replied "deleted")) ∧
  dialogue h caller asks without !! 3%nat = Some (APut (Replied (201, m))).
Proof. eexists. split; vm_compute; reflexivity. Qed.
End PrivacyDemo.
