(* ===== verification/DocumentStore.v ===== *)
(** * DocumentStore: quotas of service documents, and what a reader gets back *)
From S2P Require Import Prelude GoStd Bytes Json JsonEnc Runes Cache Crypto NetIP Aes Model TokenStore PersonalStore Effects Random TokenService Lockout Session Login SecondFactor Erasure StoreWp Recover Identity ServiceDoc Reasoning BlobFacts DocumentPrivacy.
From stdpp Require Import list gmap sorting.
Open Scope string_scope.
Open Scope Z_scope.
Open Scope prog_scope.

(** ** Weights *)
Definition held (c sh : string) (d : PersonalDB) : list ServiceDocument := filter (λ x, ClientID x = c ∧ SubjectHash x = sh) (service_documents d).
Definition bytes_of (l : list ServiceDocument) : Z := sumZ (DocStoredBytes <$> l).
Definition docs_nonneg (d : PersonalDB) : Prop := Forall (λ x, 0 ≤ DocStoredBytes x) (service_documents d).
(** The quota, per client and subject. *)
Definition quota_kept (cfg : DocumentConfig) (d : PersonalDB) : Prop :=
  docs_nonneg d ∧ one_per_key d ∧
  ∀ c sh, Z.of_nat (length (held c sh d)) ≤ MaxDocsPerSubject cfg ∧ bytes_of (held c sh d) ≤ QuotaBytesPerSubject cfg.

Lemma nonneg_filter (Q : ServiceDocument → Prop) `{∀ x, Decision (Q x)} l :
  Forall (λ x, 0 ≤ DocStoredBytes x) l → Forall (λ x, 0 ≤ DocStoredBytes x) (filter Q l).
Proof. induction 1; rewrite ?filter_cons; [constructor|]. case_decide; [by constructor|done]. Qed.
Lemma CountForOwner_held c sh d : CountForOwner c sh d = Z.of_nat (length (held c sh d)).
Proof. unfold CountForOwner, ListByOwner, select. by rewrite merge_sort_Permutation. Qed.
Lemma bytes_of_cons x l : bytes_of (x :: l) = DocStoredBytes x + bytes_of l.
Proof. done. Qed.
Lemma bytes_of_perm l l' : l ≡ₚ l' → bytes_of l = bytes_of l'.
Proof. induction 1; rewrite ?bytes_of_cons; lia. Qed.
Lemma Sum_held c sh d : SumBytesForSubjectAndClient sh c d = bytes_of (held c sh d).
Proof. unfold SumBytesForSubjectAndClient. apply bytes_of_perm. apply merge_sort_Permutation. Qed.
Lemma bytes_of_nonneg l : Forall (λ x, 0 ≤ DocStoredBytes x) l → 0 ≤ bytes_of l.
Proof. induction 1; [done|]. rewrite bytes_of_cons. lia. Qed.
Lemma held_nonneg c sh d : docs_nonneg d → 0 ≤ bytes_of (held c sh d).
Proof. intros Hd. apply bytes_of_nonneg. by apply nonneg_filter. Qed.
(** Dropping rows drops weight. *)
Lemma bytes_of_filter (P : ServiceDocument → Prop) `{∀ x, Decision (P x)} l : Forall (λ x, 0 ≤ DocStoredBytes x) l → bytes_of (filter P l) ≤ bytes_of l.
Proof. induction 1 as [|x l Hx Hl IH]; [done|]. rewrite filter_cons. case_decide; rewrite ?bytes_of_cons; lia. Qed.
Lemma kept_filter cfg (P : ServiceDocument → Prop) `{∀ x, Decision (P x)} d :
  quota_kept cfg d → quota_kept cfg (with_docs (filter P (service_documents d)) d).
Proof.
  intros (Hn & Hu & Hq). split_and!.
  - by apply nonneg_filter.
  - intros c sh k. etrans; [|apply (Hu c sh k)]. cbn [service_documents with_docs]. rewrite filter_comm. apply length_filter.
  - intros c sh. destruct (Hq c sh) as [Hc Hb]. unfold held in *. cbn [service_documents with_docs]. rewrite filter_comm.
    split; [pose proof (length_filter P (filter (λ x, ClientID x = c ∧ SubjectHash x = sh) (service_documents d))); lia|].
    etrans; [apply bytes_of_filter|done]. by apply nonneg_filter.
Qed.

(** ** The upsert *)
Lemma held_rewrite now x c sh d :
  held c sh (with_docs (rewrite_row now x <$> service_documents d) d) = rewrite_row now x <$> held c sh d.
Proof.
  unfold held. cbn [service_documents with_docs]. apply filter_map_iff. intros y. unfold rewrite_row. by case_decide.
Qed.
Lemma bytes_rewrite now x l e : filter (doc_at (ClientID x) (SubjectHash x) (DocKey x)) l = [e] →
  bytes_of (rewrite_row now x <$> l) = bytes_of l - DocStoredBytes e + DocStoredBytes x.
Proof.
  assert (Hnone : ∀ l, filter (doc_at (ClientID x) (SubjectHash x) (DocKey x)) l = [] → bytes_of (rewrite_row now x <$> l) = bytes_of l).
  { induction l0 as [|y l0 IH]; [done|]. rewrite filter_cons. case_decide as Hy; [done|]. intros Hl.
    rewrite fmap_cons, !bytes_of_cons, IH by done. unfold rewrite_row at 1. by rewrite decide_False. }
  induction l as [|y l IH]; [done|]. rewrite filter_cons, fmap_cons, !bytes_of_cons. case_decide as Hy.
  - intros [= -> Hl]. rewrite Hnone by done. unfold rewrite_row at 1. rewrite decide_True by done. cbn. lia.
  - intros Hl. rewrite IH by done. unfold rewrite_row at 1. rewrite decide_False by done. lia.
Qed.
(** Nothing of another owner or subject changes. *)
Lemma bytes_rewrite_other now x l : Forall (λ y, ¬ doc_at (ClientID x) (SubjectHash x) (DocKey x) y) l → rewrite_row now x <$> l = l.
Proof. induction 1 as [|y l Hy Hl IH]; [done|]. rewrite fmap_cons, IH. unfold rewrite_row. by rewrite decide_False. Qed.

Definition admitted (cfg : DocumentConfig) (x : ServiceDocument) (d : PersonalDB) : Prop :=
  match DocGet (ClientID x) (SubjectHash x) (DocKey x) d with
  | None => Z.of_nat (length (held (ClientID x) (SubjectHash x) d)) < MaxDocsPerSubject cfg ∧
            bytes_of (held (ClientID x) (SubjectHash x) d) + DocStoredBytes x ≤ QuotaBytesPerSubject cfg
  | Some e => bytes_of (held (ClientID x) (SubjectHash x) d) - DocStoredBytes e + DocStoredBytes x ≤ QuotaBytesPerSubject cfg
  end.
Lemma upsert_quota cfg now x d b d' : 0 ≤ DocStoredBytes x → quota_kept cfg d → admitted cfg x d →
  DocUpsert now x d = (Ok b, d') → quota_kept cfg d'.
Proof.
  intros Hx (Hn & Hu & Hq). unfold admitted, DocGet, DocUpsert. fold (rewrite_row now x).
  pose proof (Hu (ClientID x) (SubjectHash x) (DocKey x)) as Hone.
  destruct (filter (doc_at _ _ _) (service_documents d)) as [|e l] eqn:El; cbn [head].
  - intros [Hc Hb]. case_bool_decide; [done|]. intros [= <- <-]. set (row := mkServiceDocument _ _ _ _ _ _ _ _ _ _ _).
    split_and!; [by constructor| |].
    + intros c sh k. cbn [service_documents with_docs]. rewrite filter_cons. case_decide as Hat; [|apply Hu].
      destruct Hat as (<- & <- & <-). change (length (row :: filter (doc_at (ClientID x) (SubjectHash x) (DocKey x)) (service_documents d)) ≤ 1)%nat.
      by rewrite El.
    + intros c sh. unfold held in *. cbn [service_documents with_docs]. rewrite filter_cons. case_decide as Hat; [|apply Hq].
      destruct Hat as [<- <-]. cbn [length]. rewrite bytes_of_cons. cbn [ClientID SubjectHash DocStoredBytes row]. lia.
  - destruct l as [|y l]; [|cbn in Hone; lia]. intros Hb. intros [= <- <-]. split_and!.
    + apply Forall_fmap. eapply Forall_impl; [exact Hn|]. intros y Hy. unfold rewrite_row. cbn. by case_decide.
    + intros c sh k. cbn [service_documents with_docs]. rewrite filter_map_iff by (intros; apply rewrite_key). rewrite length_fmap. apply Hu.
    + intros c sh. rewrite held_rewrite, length_fmap. destruct (Hq c sh) as [Hc Hbytes]. split; [done|].
      destruct (decide (c = ClientID x ∧ sh = SubjectHash x)) as [[-> ->]|Hne].
      * rewrite (bytes_rewrite _ _ _ e); [done|]. unfold held. rewrite <- El. symmetry. apply filter_within. by intros z (? & ? & _).
      * rewrite bytes_rewrite_other; [done|]. apply Forall_forall. intros z. unfold held. rewrite list_elem_of_filter.
        intros [[<- <-] _] (? & ? & _). by apply Hne.
Qed.

(** ** Programs *)
Section store.
Context {C : Type} `{CacheOps C} `{Primitives} `{AEAD}.
#[local] Notation "'W'" := (World C).
Implicit Types w : W.
Implicit Types s : DocumentService.

Definition total_of {A} (f : string → PersonalDB → A) (plus : A → A → A) (sh lh : string) (d : PersonalDB) : A :=
  if decide (lh = "") then f sh d else plus (f sh d) (f lh d).
Lemma across_wp P {A B} view (f : string → PersonalDB → B) plus sh lh step (k : res docErr B → prog A) Q w :
  (∀ w1, idle w w1 → wp P (k (Ok (total_of f plus sh lh (view (personal w))))) Q w1) →
  (∀ e w1, idle w w1 → wp P (k (Err e)) Q w1) → wp P (bind (across view f plus sh lh step) k) Q w.
Proof.
  intros Hk He. rewrite wp_bind. unfold across, total_of in *. apply wp_reads. intros w1 Hw1. split; [|by apply He].
  destruct (decide (lh = "")); [by apply Hk|]. apply wp_reads. intros w2 Hw2. rewrite (idle_personal _ _ Hw1).
  assert (Hw : idle w w2) by (by eapply idle_trans). split; [by apply Hk|by apply He].
Qed.
Lemma checkQuota_wp P {A} s view c sh lh existing n (k : option docErr → prog A) Q w :
  (∀ e w1, idle w w1 → wp P (k (Some e)) Q w1) →
  (∀ w1, idle w w1 →
     let d := view (personal w) in
     total_of (λ sh, SumBytesForSubjectAndClient sh c) Z.add sh lh d - from_option DocStoredBytes 0 existing + n ≤ QuotaBytesPerSubject (ds_cfg s) →
     (existing = None → total_of (CountForOwner c) Z.add sh lh d < MaxDocsPerSubject (ds_cfg s)) →
     wp P (k None) Q w1) →
  wp P (bind (checkQuota s view c sh lh existing n) k) Q w.
Proof.
  intros He Hk. rewrite wp_bind. unfold checkQuota.
  assert (Hbytes : ∀ w0, idle w w0 → (existing = None → total_of (CountForOwner c) Z.add sh lh (view (personal w)) < MaxDocsPerSubject (ds_cfg s)) →
    wp P (r <- sumBytes view c sh lh ;; Ret (match r with
         | Err e => Some e
         | Ok used =>
             let used := match existing with Some x => used - DocStoredBytes x | None => used end in
             if QuotaBytesPerSubject (ds_cfg s) <? used + n then Some ErrSvcDocQuotaExceeded else None
         end)) (λ a w', wp P (k a) Q w') w0).
  { intros w0 Hw0 Hcount. apply across_wp.
    - intros w1 Hw1. assert (Hw : idle w w1) by (by eapply idle_trans). rewrite (idle_personal _ _ Hw0). cbn [wp]. cbv zeta.
      set (used := total_of _ _ _ _ _). destruct existing as [x|];
        (match goal with |- context [?a <? ?b] => destruct (Z.ltb_spec a b) end; [by apply He|]);
        (apply Hk; [done|fold used; cbn; lia|done]).
    - intros e w1 Hw1. apply He. by eapply idle_trans. }
  destruct existing as [x|]; [apply Hbytes; [apply idle_refl|done]|]. apply across_wp; [|by intros; apply He].
  intros w1 Hw1. destruct (Z.leb_spec (MaxDocsPerSubject (ds_cfg s)) (total_of (CountForOwner c) Z.add sh lh (view (personal w)))).
  - by apply He.
  - apply Hbytes; [done|]. intros _. lia.
Qed.
Lemma less_legacy_quota cfg c lh k d : quota_kept cfg d → quota_kept cfg (less_legacy c lh k d).
Proof. intros Hd. unfold less_legacy. case_decide; [done|]. by apply kept_filter. Qed.
Lemma total_sum c sh lh d : docs_nonneg d → bytes_of (held c sh d) ≤ total_of (λ sh, SumBytesForSubjectAndClient sh c) Z.add sh lh d.
Proof. intros Hd. unfold total_of. rewrite !Sum_held. case_decide; [done|]. pose proof (held_nonneg c lh d Hd). lia. Qed.
Lemma total_count c sh lh d : Z.of_nat (length (held c sh d)) ≤ total_of (CountForOwner c) Z.add sh lh d.
Proof. unfold total_of. rewrite !CountForOwner_held. case_decide; lia. Qed.

(** What every run of the transaction leaves: the table as it was, or one
    upsert that fits the quota. *)
Definition section_post s c sh lh k enc v size (d : PersonalDB) (r : res docErr (bool * option ServiceDocument)) w' : Prop :=
  let x id := mkServiceDocument id c sh k v enc size (Z.of_nat (String.length enc)) 1 0 0 in
  let dv := less_legacy c lh k d in
  (personal w' = d ∧ (∀ a, r ≠ Ok a)) ∨
  ∃ now id b, admitted (ds_cfg s) (x id) dv ∧ DocUpsert now (x id) dv = (Ok b, personal w') ∧ (∀ a, r = Ok a → a = (b, DocGet c sh k dv)).
Lemma write_section_wp P s c sh lh k enc v size w : docs_nonneg (personal w) →
  wp P (write_section s c sh lh k enc v size) (section_post s c sh lh k enc v size (personal w)) w.
Proof.
  intros Hn. unfold write_section. cbv zeta.
  assert (Hstop : ∀ e w1, idle w w1 → section_post s c sh lh k enc v size (personal w) (Err e) w1).
  { intros e w1 Hw. left. split; [by apply idle_personal|done]. }
  apply wp_reads. intros w1 Hw1. split; [|by apply Hstop]. rewrite wp_bind.
  apply wp_mono with (Q := λ r w2, idle w w2).
  2: { case_decide; [done|]. intros cc _. eapply idle_trans; [exact Hw1|]. cbn. destruct (c_db cc); exact (idle_tick cc w1). }
  intros [_|e] w2 Hw2; [|by apply Hstop]. apply wp_reads. rewrite (idle_personal _ _ Hw2). intros w3 Hw3.
  assert (Hi3 : idle w w3) by (by eapply idle_trans). split; [|by apply Hstop].
  set (dv := less_legacy c lh k (personal w)). set (existing := DocGet c sh k dv).
  apply checkQuota_wp.
  { intros e w4 Hw4. apply Hstop. by eapply idle_trans. }
  intros w4 Hw4. rewrite (idle_personal _ _ Hi3). cbv zeta. fold dv. intros Hbytes Hcount.
  assert (Hi4 : idle w w4) by (by eapply idle_trans).
  assert (Hadm : ∀ id, admitted (ds_cfg s) (mkServiceDocument id c sh k v enc size (Z.of_nat (String.length enc)) 1 0 0) dv).
  { intros id. unfold admitted. cbn [ClientID SubjectHash DocKey DocStoredBytes]. fold existing.
    assert (Hdn : docs_nonneg dv) by (unfold dv, less_legacy; case_decide; [done|]; by apply nonneg_filter).
    pose proof (total_sum c sh lh dv Hdn). pose proof (total_count c sh lh dv).
    destruct existing as [e|]; cbn in Hbytes; [lia|]. specialize (Hcount eq_refl). lia. }
  rewrite wp_bind. apply wp_mono with (Q := λ r w5, idle w w5).
  2: { destruct existing as [e|]; [done|]. apply RandomUUID_wp. intros r w5 Hs Hp _. eapply idle_trans; [done|]. by split. }
  intros [id|e] w5 Hw5; [|by apply Hstop]. apply wp_personal. intros w6 Hw6. assert (Hi6 : idle w w6) by (by eapply idle_trans).
  rewrite (idle_personal _ _ Hi6). fold dv.
  destruct (DocUpsert (clock w6) _ dv) as [[b|e] d'] eqn:Eu; cbn [fst snd wp].
  - split_and!; [|by apply Hstop|]; right; exists (clock w6), id, b; (split; [apply Hadm|split; [exact Eu|]]); [|done]. by intros a [= <-].
  - split_and!; left; (split; [by rewrite ?(idle_personal _ _ Hi6)|done]).
Qed.

(** A document that was stored, or nothing. *)
Definition put_post s c subject k raw v (d : PersonalDB) (r : res docErr (DocumentMeta * bool)) w' : Prop :=
  (personal w' = d ∧ ∀ a, r ≠ Ok a) ∨
  ∃ canonical n enc r0 w0, ValidateDocKey k = true ∧ ValidateSubject subject = true ∧
    canonicalize (ds_cfg s) raw = Ok canonical ∧ String.length n = nonceSize ∧
    Encrypt canonical (ds_masterKey s) (docAAD c (subjectHash s subject) k) (Some n) = Some enc ∧
    section_post s c (subjectHash s subject) (legacySubjectHash s subject) k enc v (Z.of_nat (String.length canonical)) d r0 w0 ∧
    personal w' = personal w0 ∧ (∀ a, r = Ok a → ∃ x, r0 = Ok x).
Lemma metric_wp P s name (Q : unit → W → Prop) w : (∀ w', personal w' = personal w → Q tt w') → wp P (doc_metric s name) Q w.
Proof. intros HQ. unfold doc_metric. destruct (ds_metrics s); [|by apply HQ]. intros c _. by apply HQ. Qed.
Lemma PutDocument_wp P s c subject k raw v w : docs_nonneg (personal w) →
  wp P (PutDocument s c subject k raw v) (put_post s c subject k raw v (personal w)) w.
Proof.
  intros Hn. unfold PutDocument. cbv zeta.
  assert (Hrefuse : ∀ e w1, idle w w1 → wp P (rejected s ;;; Ret (Err e)) (put_post s c subject k raw v (personal w)) w1).
  { intros e w1 Hw1. rewrite wp_bind. apply metric_wp. intros w2 Hp. left. split; [by rewrite Hp, (idle_personal _ _ Hw1)|done]. }
  destruct (ValidateDocKey k) eqn:Ek; [|by apply Hrefuse, idle_refl]. destruct (ValidateSubject subject) eqn:Es; [|by apply Hrefuse, idle_refl].
  cbn [negb]. destruct (_ && _); [by apply Hrefuse, idle_refl|]. destruct (canonicalize _ _) as [canonical|e] eqn:Ec; [|by apply Hrefuse, idle_refl].
  apply wp_encrypt; [|intros w1 Hw1; left; split; [by apply idle_personal|done]].
  intros w1 n Hw1 Hlen. destruct (Encrypt _ _ _ _) as [enc|] eqn:Ee; [|left; split; [by apply idle_personal|done]].
  rewrite wp_bind. eapply wp_mono; [|apply write_section_wp; by rewrite (idle_personal _ _ Hw1)].
  rewrite (idle_personal _ _ Hw1). intros r0 w2 Hpost.
  assert (Hfail : ∀ e w3, personal w3 = personal w2 → put_post s c subject k raw v (personal w) (Err e) w3).
  { intros e w3 Hp. right. exists canonical, n, enc, r0, w2. by split_and!. }
  destruct r0 as [[created existing]|e].
  - apply wp_time. intros w3 Hw3. rewrite wp_bind. apply metric_wp. intros w4 Hp4. right. exists canonical, n, enc, (Ok (created, existing)), w2.
    split_and!; try done; [by rewrite Hp4, (idle_personal _ _ Hw3)|]. by eexists.
  - destruct e; try (by apply Hfail). rewrite wp_bind. apply metric_wp. intros w3 Hp. by apply Hfail.
Qed.
Lemma PutDocument_size P s c subject k raw v w :
  wp P (PutDocument s c subject k raw v) (λ r _, ∀ m cr canonical, r = Ok (m, cr) → canonicalize (ds_cfg s) raw = Ok canonical →
    m_SizeBytes m = Z.of_nat (String.length canonical)) w.
Proof.
  unfold PutDocument. cbv zeta.
  assert (Hrefuse : ∀ (e : docErr) w1, wp P (rejected s ;;; Ret (Err e)) (λ (r : res docErr (DocumentMeta * bool)) _, ∀ m cr canonical, r = Ok (m, cr) → canonicalize (ds_cfg s) raw = Ok canonical →
    m_SizeBytes m = Z.of_nat (String.length canonical)) w1).
  { intros e w1. rewrite wp_bind. by apply wp_always. }
  do 2 (destruct (negb _); [apply Hrefuse|]). destruct (_ && _); [apply Hrefuse|]. destruct (canonicalize _ _) as [canonical|e]; [|apply Hrefuse].
  rewrite wp_bind. apply wp_always. intros [enc|] w1; [|done]. rewrite wp_bind. apply wp_always. intros [[cr ex]|e] w2; [|destruct e; first [done|apply Hrefuse]].
  rewrite wp_bind. apply wp_always. intros t w3. rewrite wp_bind. apply wp_always. intros _ w4 m cr' canonical' [= <- <-] [= <-]. done.
Qed.
Lemma put_quota s c subject k raw v d r w' : quota_kept (ds_cfg s) d → put_post s c subject k raw v d r w' → quota_kept (ds_cfg s) (personal w').
Proof.
  intros Hd [[-> _]|(canonical & n & enc & r0 & w0 & _ & _ & _ & _ & _ & [[Hp _]|(now & id & b & Ha & Hu & _)] & Hp' & _)]; [done|by rewrite Hp', Hp|].
  rewrite Hp'. eapply upsert_quota; [|by apply less_legacy_quota|exact Ha|exact Hu]. cbn. lia.
Qed.
(** Any statement of a deletion drops rows. *)
Lemma delete_document_wp P s c subject k w : quota_kept (ds_cfg s) (personal w) →
  wp P (DeleteDocument s c subject k) (λ _ w', quota_kept (ds_cfg s) (personal w')) w.
Proof.
  intros Hq. unfold DeleteDocument. do 2 (destruct (negb _); [done|]).
  assert (Hdel : ∀ sh w (K : res repoErr bool → prog (res docErr unit)), quota_kept (ds_cfg s) (personal w) →
    (∀ r w', quota_kept (ds_cfg s) (personal w') → wp P (K r) (λ _ w', quota_kept (ds_cfg s) (personal w')) w') →
    wp P (bind (call (writes (DocDelete c sh k))) K) (λ _ w', quota_kept (ds_cfg s) (personal w')) w).
  { intros sh w0 K Hq0 HK. apply wp_personal. intros w1 Hw1. rewrite (idle_personal _ _ Hw1).
    assert (Hq' : quota_kept (ds_cfg s) (with_docs (filter (λ x, ¬ doc_at c sh k x) (service_documents (personal w0))) (personal w0))) by (by apply kept_filter).
    split_and!; apply HK; cbn; try done. by rewrite (idle_personal _ _ Hw1). }
  apply Hdel; [done|]. intros [[]|e] w1 Hq1; [done| |done]. case_decide; [done|]. apply Hdel; [done|]. by intros.
Qed.

(** *** Requests that read *)
Lemma untouched_across {A} view (f : string → PersonalDB → A) plus sh lh step : untouched (across view f plus sh lh step).
Proof. apply untouched_reads. intros [a|e]; [|done]. case_decide; [done|]. by apply untouched_reads. Qed.
Lemma untouched_metric s name : untouched (doc_metric s name).
Proof. unfold doc_metric. by destruct (ds_metrics s). Qed.
Lemma untouched_meta s x i : untouched (metaOf s x i).
Proof. apply untouched_bind; [|done]. unfold ownerName. destruct (negb _); [done|]. by apply untouched_reads. Qed.
Lemma untouched_resolve s i sh k o : untouched (resolve s i sh k o).
Proof.
  unfold resolve. case_decide.
  - apply untouched_reads. intros [[x|]|e]; [done| |done]. destruct (negb _); [done|]. by apply untouched_reads.
  - apply untouched_bind; [|intros [j|e]; [by apply untouched_reads|done]]. unfold resolveOwnerID. destruct (negb _); [done|]. by apply untouched_reads.
Qed.
Lemma untouched_GetDocument s i subject k o : untouched (GetDocument s i subject k o).
Proof.
  unfold GetDocument. do 2 (destruct (negb _); [done|]). apply untouched_bind; [apply untouched_resolve|]. intros r.
  apply untouched_bind; [destruct r as [|[]]; try done; case_decide; [done|apply untouched_resolve]|].
  intros [x|e]; [|done]. destruct (Decrypt _ _ _); [|done]. apply untouched_bind; [apply untouched_metric|]. intros _.
  by apply untouched_bind; [apply untouched_meta|].
Qed.
Lemma untouched_ListDocuments s i subject : untouched (ListDocuments s i subject).
Proof.
  unfold ListDocuments. destruct (negb _); [done|]. apply untouched_bind; [apply untouched_across|]. intros [own|e]; [|done].
  apply untouched_bind; [destruct (SharedEnabled _); [apply untouched_across|done]|]. intros [sh|e]; [|done].
  apply untouched_bind; [apply untouched_across|]. intros [used|e]; [|done]. apply untouched_bind; [|done].
  induction (own ++ sh)%list as [|x l IH]; [done|]. cbn [metas]. apply untouched_bind; [apply untouched_meta|]. intros m. by apply untouched_bind.
Qed.
Lemma untouched_audit h c event subject i k : untouched (doc_audit h c event subject i k).
Proof. unfold doc_audit. by destruct (dh_auditLog h). Qed.

Lemma answer_doc_quota P h c q w : quota_kept (ds_cfg (dh_svc h)) (personal w) →
  wp P (answer_doc h c q) (λ _ w', quota_kept (ds_cfg (dh_svc h)) (personal w')) w.
Proof.
  intros Hq.
  assert (Hread : ∀ A (p : prog A) w0, untouched p → quota_kept (ds_cfg (dh_svc h)) (personal w0) →
    wp P p (λ _ w', quota_kept (ds_cfg (dh_svc h)) (personal w')) w0).
  { intros A p w0 Hp Hq0. eapply wp_mono; [|by apply untouched_wp]. by intros a w' ->. }
  destruct q as [subject k v body|subject k o|subject k|subject]; unfold answer_doc, HPutDocument, HGetDocument, HDeleteDocument, HListDocuments, requireClient, pathParts;
    rewrite wp_bind; (destruct (c_claims c) as [claims|]; [|done]); (case_decide; [done|]); (case_decide; [done|]); try (case_decide; [done|]).
  - destruct (ParseVisibility v) as [v'|]; [|done]. destruct body as [raw|]; [|done]. rewrite wp_bind.
    eapply wp_mono; [|apply PutDocument_wp, Hq]. intros r w1 Hpost. apply put_quota in Hpost; [|done]. destruct r as [[m cr]|e]; [|done].
    rewrite wp_bind. eapply wp_mono; [|apply Hread; [apply untouched_audit|done]]. done.
  - eapply wp_mono; [|apply Hread; [|exact Hq]]; [done|]. apply untouched_bind; [apply untouched_GetDocument|].
    intros [[b m]|e]; [|done]. by apply untouched_bind; [apply untouched_audit|].
  - rewrite wp_bind. eapply wp_mono; [|by apply delete_document_wp]. intros [[]|e] w1 Hq1; [|done].
    rewrite wp_bind. eapply wp_mono; [|apply Hread; [apply untouched_audit|done]]. done.
  - eapply wp_mono; [|apply Hread; [|exact Hq]]; [done|]. by apply untouched_bind; [apply untouched_ListDocuments|].
Qed.

(** ** Histories *)
(** Requests of any clients one after the other, and erasures in between. *)
Inductive doc_event := Asked (c : Caller) (q : doc_request) | Erased (userID : string).
Definition happens (h : DocumentHandler) (e : doc_event) : prog unit :=
  match e with
  | Asked c q => answer_doc h c q ;;; Ret tt
  | Erased u => DocsDeleteAllForSubject (dh_svc h) u ;;; Ret tt
  end.
Fixpoint doc_history (h : DocumentHandler) (l : list (doc_event * (nat → Effects.choice))) w : W :=
  match l with [] => w | (e, o) :: l' => doc_history h l' (run (happens h e) o w).2 end.

(**  Through any sequence of writes, replacements, deletions and erasures,
    whatever spelling of a subject they use and wherever the database fails, no
    client holds more documents or more stored bytes for a subject than its
    quota. *)
Theorem document_quota_holds h l w :
  quota_kept (ds_cfg (dh_svc h)) (personal w) → quota_kept (ds_cfg (dh_svc h)) (personal (doc_history h l w)).
Proof.
  revert w. induction l as [|[e o] l IH]; intros w Hq; [done|]. cbn. apply IH.
  apply (wp_run any _ (λ _ w', quota_kept (ds_cfg (dh_svc h)) (personal w')) w o); [done|].
  destruct e as [c q|u]; cbn [happens]; rewrite wp_bind.
  - eapply wp_mono; [|by apply answer_doc_quota]. done.
  - unfold DocsDeleteAllForSubject. rewrite wp_bind. apply wp_personal. intros w1 Hw1. rewrite (idle_personal _ _ Hw1).
    assert (Hd : quota_kept (ds_cfg (dh_svc h)) (DeleteAllForSubject (SubjectPseudonym (dh_svc h) u) (personal w))) by (by apply kept_filter).
    split_and!; cbn; try done. by rewrite (idle_personal _ _ Hw1).
Qed.

(** ** Reading back *)
Lemma upsert_get now x d b d' : one_per_key d → DocUpsert now x d = (Ok b, d') →
  ∃ y, DocGet (ClientID x) (SubjectHash x) (DocKey x) d' = Some y ∧ doc_at (ClientID x) (SubjectHash x) (DocKey x) y ∧
       DocDataEnc y = DocDataEnc x ∧ Visibility y = Visibility x ∧ DocSizeBytes y = DocSizeBytes x.
Proof.
  intros Hu. unfold DocUpsert, DocGet. fold (rewrite_row now x). pose proof (Hu (ClientID x) (SubjectHash x) (DocKey x)) as Hone.
  destruct (filter (doc_at _ _ _) (service_documents d)) as [|e l] eqn:El.
  - case_bool_decide; [done|]. intros [= <- <-]. eexists. cbn [service_documents with_docs]. rewrite filter_cons, decide_True by done. done.
  - intros [= <- <-]. cbn [service_documents with_docs]. rewrite filter_map_iff by (intros; apply rewrite_key). rewrite El. cbn [fmap list_fmap head].
    eexists. split; [done|].
    assert (He : doc_at (ClientID x) (SubjectHash x) (DocKey x) e).
    { assert (Hin : e ∈ filter (doc_at (ClientID x) (SubjectHash x) (DocKey x)) (service_documents d)) by (rewrite El; left).
      by apply list_elem_of_filter in Hin as [? _]. }
    unfold rewrite_row. rewrite decide_True by done. done.
Qed.
Lemma one_per_key_legacy c lh k d : one_per_key d → one_per_key (less_legacy c lh k d).
Proof.
  intros Hu. unfold less_legacy. case_decide; [done|]. intros c' sh' k'. etrans; [|apply (Hu c' sh' k')].
  cbn [DocDelete snd service_documents with_docs]. rewrite filter_comm. apply length_filter.
Qed.
Context `{!AEADLaws}.
Lemma GetDocument_own s c subject k w y plain : ValidateDocKey k = true → ValidateSubject subject = true →
  DocGet c (subjectHash s subject) k (personal w) = Some y → Decrypt (DocDataEnc y) (ds_masterKey s) (docAAD (ClientID y) (SubjectHash y) (DocKey y)) = Some plain →
  wp healthy (GetDocument s c subject k "") (λ r _, ∃ owner, r = Ok (plain, mkDocumentMeta (DocKey y) owner (ClientID y)
    (VisibilityName (Visibility y)) (DocSizeBytes y) (DocStoredBytes y) (bool_decide (ClientID y = c)) (DocCreatedAt y) (DocUpdatedAt y))) w.
Proof.
  intros Hk Hs Hy Hp. unfold GetDocument. rewrite Hk, Hs. cbn [negb]. rewrite wp_bind. unfold resolve. rewrite decide_True by done.
  apply wp_personal_ok; [by intros cc (_ & ? & _)|]. intros w1 Hw1. cbn [fst snd]. rewrite (idle_personal _ _ Hw1), Hy. cbn [wp bind].
  rewrite Hp. rewrite wp_bind. apply metric_wp. intros w2 _. rewrite wp_bind. unfold metaOf. rewrite wp_bind.
  apply wp_always. intros owner w3. cbn. by exists owner.
Qed.

(**  What a client stored it reads back: after a write that was answered,
    with a database that answers, the same client gets the canonical text of the
    document at that subject and key, marked as its own and with the visibility
    it asked for. *)
Theorem document_round_trip s c subject k raw v o o' w m created w1 :
  quota_kept (ds_cfg s) (personal w) → run (PutDocument s c subject k raw v) o w = (Ok (m, created), w1) → (∀ n, healthy (o' n)) →
  ∃ canonical meta, canonicalize (ds_cfg s) raw = Ok canonical ∧
    (run (GetDocument s c subject k "") o' w1).1 = Ok (canonical, meta) ∧
    m_Key meta = k ∧ m_OwnerID meta = c ∧ m_Mine meta = true ∧ m_Visibility meta = VisibilityName v ∧ m_SizeBytes meta = m_SizeBytes m.
Proof.
  intros Hq E Ho'. pose proof Hq as (Hn & Hu & _).
  pose proof (wp_run any _ _ w o ltac:(done) (wp_and _ _ _ _ _ (PutDocument_wp any s c subject k raw v w Hn) (PutDocument_size any s c subject k raw v w))) as [Hpost Hsize].
  rewrite E in Hpost, Hsize. cbn [fst snd] in Hpost, Hsize.
  destruct Hpost as [[_ Hno]|(canonical & n & enc & r0 & w0 & Hk & Hs & Hc & Hlen & He & Hsec & Hp & Hok)]; [by destruct (Hno _ eq_refl)|].
  destruct (Hok _ eq_refl) as [x ->]. destruct Hsec as [[_ Hno]|(now & id & b & _ & Hup & _)]; [by destruct (Hno _ eq_refl)|].
  destruct (upsert_get _ _ _ _ _ (one_per_key_legacy _ _ _ _ Hu) Hup) as (y & Hy & (Hyc & Hys & Hyk) & Hye & Hyv & Hyz).
  cbn [ClientID SubjectHash DocKey DocDataEnc Visibility DocSizeBytes] in *. rewrite <- Hp in Hy.
  assert (Hplain : Decrypt (DocDataEnc y) (ds_masterKey s) (docAAD (ClientID y) (SubjectHash y) (DocKey y)) = Some canonical).
  { rewrite Hye, Hyc, Hys, Hyk. rewrite (Decrypt_Encrypt _ _ _ _ _ _ Hlen He). by rewrite decide_True. }
  destruct (wp_run healthy _ _ w1 o' Ho' (GetDocument_own s c subject k w1 y canonical Hk Hs Hy Hplain)) as [owner Hr].
  eexists canonical, _. split; [done|]. split; [exact Hr|]. cbn. rewrite Hyk, Hyc, Hyv, Hyz. split_and!; try done.
  - by rewrite bool_decide_true.
  - by rewrite (Hsize _ _ _ eq_refl Hc).
Qed.
End store.

(**  A sealed document opens only where it was filed: moved to another
    client, subject or key (names free of colons, as identifiers and digests
    are), its text does not decrypt. *)
Theorem document_opens_only_in_place `{Primitives} `{AEADLaws} (s : DocumentService) text n enc c sh k c' sh' k' :
  String.length n = nonceSize → Encrypt text (ds_masterKey s) (docAAD c sh k) (Some n) = Some enc →
  Forall (λ x, Blob.contains_colon x = false) [c; sh; c'; sh'] →
  Decrypt enc (ds_masterKey s) (docAAD c' sh' k') = if decide ((c', sh', k') = (c, sh, k)) then Some text else None.
Proof.
  intros Hn He Hc. rewrite !Forall_cons in Hc. destruct Hc as (Hc & Hs & Hc' & Hs' & _).
  rewrite (Decrypt_Encrypt _ _ _ _ _ _ Hn He). destruct (decide ((c', sh', k') = (c, sh, k))) as [[= -> -> ->]|Hne].
  - by rewrite decide_True.
  - rewrite decide_False; [done|]. intros E. apply Hne. unfold docAAD in E.
    apply (string_app_len_inj "svcdoc:" _ "svcdoc:" _) in E as [_ E]; [|done].
    apply colon_apart in E as [-> E]; [|done|done]. apply colon_apart in E as [-> ->]; done.
Qed.

Module DocDemo.
#[local] Existing Instance BlobDemo.prims.
Definition small : DocumentService := mkDocumentService true ToyEscrow.key "pepper" (mkDocumentConfig 1000 3 110 true) true.
Definition h : DocumentHandler := mkDocumentHandler small true.
Definition caller : Caller := PrivacyDemo.caller.
Fixpoint filler (n : nat) : string := match n with O => "" | S n' => "x" +:+ filler n' end.
Definition doc (n : nat) : string := quoted "{'k':'" +:+ filler n +:+ quoted "'}".
Definition oracle_later (n : nat) : Effects.choice := BlobDemo.later 3 n.
Definition filed : list (doc_event * (nat → Effects.choice)) :=
  [(Asked caller (RPut "alice" "a" "" (Some (doc 40))), BlobDemo.oracle); (Asked caller (RPut "alice" "b" "" (Some "{}")), BlobDemo.later 1)].
Lemma empty_kept : quota_kept (ds_cfg small) (personal Toy.world).
Proof. split_and!; [constructor|intros c sh k; cbn; lia|]. intros c sh. cbn. lia. Qed.

Lemma document_quota_holds_witness :
  quota_kept (ds_cfg small) (personal (doc_history (H1 := BlobDemo.gcm) h filed Toy.world)) ∧
  length (service_documents (personal (doc_history (H1 := BlobDemo.gcm) h filed Toy.world))) = 2%nat.
Proof. split; [|by vm_compute]. apply (document_quota_holds (H1 := BlobDemo.gcm)). apply empty_kept. Defined.

(** The replacement of a document, and its deletion by another request of the
    same client: the transaction discounts a row that is no longer counted. *)
Definition before : World Memory.MemoryCache := doc_history (H1 := BlobDemo.gcm) h filed Toy.world.
Definition racing : list (prog unit) :=
  [(answer_doc (H1 := BlobDemo.gcm) h caller (RPut "alice" "a" "" (Some (doc 110))) ;;; Ret tt);
   (answer_doc (H1 := BlobDemo.gcm) h caller (RDelete "alice" "a") ;;; Ret tt)].
(** A deletion between the read of the old document and the sum of the stored
    bytes lets a replacement through that does not fit: the deletion takes no lock. *)
Theorem delete_race_exceeds_document_quota :
  ∃ sched, let '(ps, w') := drive sched oracle_later racing before in
  quota_kept (ds_cfg small) (personal before) ∧ ps = [Ret tt; Ret tt] ∧ ¬ quota_kept (ds_cfg small) (personal w').
Proof.
  exists [0; 0; 0; 1; 0; 0; 0; 0; 0; 0; 1; 1]%nat. destruct (drive _ _ _ _) as [ps w'] eqn:E. split_and!.
  - apply (document_quota_holds (H1 := BlobDemo.gcm)). apply empty_kept.
  - apply (f_equal fst) in E. vm_compute in E. done.
  - intros (_ & _ & Hq). destruct (Hq "billing" (subjectHash small "alice")) as [_ Hb].
    apply (f_equal (λ r, bytes_of (held "billing" (subjectHash small "alice") (personal r.2)))) in E. cbn [snd] in E.
    rewrite <- E in Hb. vm_compute in Hb. by apply Hb.
Qed.

#[local] Existing Instance ToyEscrow.aead.
#[local] Existing Instance ToyEscrow.aead_laws.
Definition wide : DocumentService := PrivacyDemo.svc.
Definition raw : string := quoted "{ 'b': 1, 'a': [true] }".
Definition put : prog (res docErr (DocumentMeta * bool)) := PutDocument wide "billing" "Alice" "theme" raw VisibilityShared.
Definition put_meta : DocumentMeta :=
  Eval vm_compute in match (run put BlobDemo.oracle Toy.world).1 with Ok (m, _) => m | Err _ => mkDocumentMeta "" "" "" "" 0 0 false 0 0 end.
Lemma put_ok : (run put BlobDemo.oracle Toy.world).1 = Ok (put_meta, true).
Proof. by vm_compute. Qed.
Lemma wide_kept : quota_kept (ds_cfg wide) (personal Toy.world).
Proof. split_and!; [constructor|intros c sh k; cbn; lia|]. intros c sh. cbn. lia. Qed.
Lemma document_round_trip_witness : ∃ w1, run put BlobDemo.oracle Toy.world = (Ok (put_meta, true), w1) ∧
  ∃ canonical meta, canonicalize (ds_cfg wide) raw = Ok canonical ∧
    (run (GetDocument wide "billing" "Alice" "theme" "") BlobDemo.oracle w1).1 = Ok (canonical, meta) ∧
    m_Key meta = "theme" ∧ m_OwnerID meta = "billing" ∧ m_Mine meta = true ∧ m_Visibility meta = VisibilityName VisibilityShared ∧
    m_SizeBytes meta = m_SizeBytes put_meta.
Proof.
  pose proof put_ok as Ho. destruct (run put BlobDemo.oracle Toy.world) as [r w1] eqn:E. cbn [fst] in Ho. subst r. exists w1. split; [reflexivity|].
  exact (document_round_trip wide "billing" "Alice" "theme" raw VisibilityShared BlobDemo.oracle BlobDemo.oracle Toy.world put_meta true w1
    wide_kept E BlobDemo.blob_oracle_healthy).
Defined.

Definition sealed : string := Eval vm_compute in default "" (Encrypt "{}" ToyEscrow.key (docAAD "billing" "ab" "theme") (Some "123456789012")).
Lemma sealed_ok : Encrypt "{}" (ds_masterKey wide) (docAAD "billing" "ab" "theme") (Some "123456789012") = Some sealed.
Proof. by vm_compute. Qed.
Lemma document_opens_only_in_place_witness :
  Decrypt sealed (ds_masterKey wide) (docAAD "billing" "ab" "other") = None.
Proof.
  apply (document_opens_only_in_place wide "{}" "123456789012" sealed "billing" "ab" "theme" "billing" "ab" "other" eq_refl sealed_ok).
  repeat constructor.
Defined.
End DocDemo.
