(* ===== verification/ErasureFacts.v ===== *)
(** * ErasureFacts: erasure is complete, fails closed, and can be finished

    [DeleteAccount] under every choice: which side of a failure the account is
    left on, what a success leaves behind, and that running it again finishes
    an interrupted erasure without a second escrow record. *)
From S2P Require Import Prelude GoStd Bytes GoTime Json JsonEnc Cache Crypto NetIP Aes Model TokenStore UserStore FactorStore AdminStore PersonalStore Effects Random Lockout Session Login SecondFactor Erasure Recover.
From stdpp Require Import list.
Open Scope string_scope.
Open Scope Z_scope.

(** ** Filters *)
Lemma filter_none {A} (P : A → Prop) `{∀ x, Decision (P x)} l : filter P (filter (λ x, ¬ P x) l) = [].
Proof.
  induction l as [|x l IH]; [done|]. rewrite filter_cons. case_decide; [|done].
  rewrite filter_cons, decide_False by done. done.
Qed.
Lemma filter_sub_none {A} (P Q : A → Prop) `{∀ x, Decision (P x)} `{∀ x, Decision (Q x)} l :
  filter P l = [] → filter P (filter Q l) = [].
Proof.
  induction l as [|x l IH]; [done|]. rewrite !filter_cons. intros E. destruct (decide (P x)); [done|].
  case_decide; [|auto]. rewrite filter_cons, decide_False by done. auto.
Qed.

Section facts.
Context {C : Type} `{CacheOps C} `{Primitives} `{AEADLaws} `{OAEPLaws}.
#[local] Notation "'W'" := (World C).
Implicit Types (w : W) (s : ErasureService).

(** ** What each step of the cascade leaves behind *)
Definition gone_profile s u w : Prop := profiles (personal w) !! identityPseudonym s u = None.
Definition gone_blobs s u w : Prop := owned (blobPseudonym s u) (personal w) = [].
Definition gone_docs s u w : Prop := filter (λ x, SubjectHash x = svcDocPseudonym s u) (service_documents (personal w)) = [].
Definition gone_devices (u : string) w : Prop := filter (λ d, DUserID d = u) (devices w) = [].
Definition gone_social (u : string) w : Prop := filter (λ a, SAUserID a = u) (social_accounts (personal w)) = [].
Definition gone_history (u : string) w : Prop := filter (λ e, HUserID e = u) (password_history (personal w)) = [].
Definition gone_countries (u : string) w : Prop := filter (λ r, r.1 = u) (login_countries (personal w)) = [].
Definition gone_totp (u : string) w : Prop := totp_secrets (enrolled w) !! u = None.
Definition gone_passkeys (u : string) w : Prop := passkeys (enrolled w) !! u = None.
Definition gone_codes (u : string) w : Prop := filter (λ c, BUserID c = u) (backup_codes (enrolled w)) = [].
Definition gone_tokens (u : string) w : Prop := filter (λ r, user_id r = u) (tokens (db w)) = [].

Definition no_trace s (u : string) w : Prop :=
  gone_profile s u w ∧ gone_blobs s u w ∧ (has_svcDocs s = true → gone_docs s u w) ∧
  gone_devices u w ∧ gone_social u w ∧ gone_history u w ∧ (has_loginCountries s = true → gone_countries u w) ∧
  gone_totp u w ∧ gone_passkeys u w ∧ gone_codes u w ∧ gone_tokens u w.

(** Everything [u] has outside the account row only shrinks. *)
Definition shrinks s (u : string) w w' : Prop :=
  (gone_profile s u w → gone_profile s u w') ∧ (gone_blobs s u w → gone_blobs s u w') ∧
  (gone_docs s u w → gone_docs s u w') ∧ (gone_devices u w → gone_devices u w') ∧
  (gone_social u w → gone_social u w') ∧ (gone_history u w → gone_history u w') ∧
  (gone_countries u w → gone_countries u w') ∧ (gone_totp u w → gone_totp u w') ∧
  (gone_passkeys u w → gone_passkeys u w') ∧ (gone_codes u w → gone_codes u w') ∧
  (gone_tokens u w → gone_tokens u w') ∧
  users (db w') = users (db w) ∧ account_recovery (personal w') = account_recovery (personal w).

Lemma shrinks_id s u w : shrinks s u w w.
Proof. by split_and!. Qed.
Lemma shrinks_then s u w1 w2 w3 : shrinks s u w1 w2 → shrinks s u w2 w3 → shrinks s u w1 w3.
Proof.
  intros (?&?&?&?&?&?&?&?&?&?&?&?&?) (?&?&?&?&?&?&?&?&?&?&?&?&?).
  split_and!; first [congruence | by auto].
Qed.

(** The statements of the cascade, each with what its success means. *)
Definition steps s (u : string) : list (stmt (res repoErr unit) * (W → Prop)) :=
  [(purge (ProfileDelete (identityPseudonym s u)), gone_profile s u);
   (purge (DeleteAllForPseudonym (blobPseudonym s u)), gone_blobs s u)] ++
  (if has_svcDocs s then [(purge (DeleteAllForSubject (svcDocPseudonym s u)), gone_docs s u)] else []) ++
  [(SDevicesDelete u, gone_devices u); (purge (SocialDeleteAllForUser u), gone_social u);
   (purge (HistoryDeleteAllForUser u), gone_history u)] ++
  (if has_loginCountries s then [(SPersonal (λ _ d, EraseLoginCountries u d), gone_countries u)] else []) ++
  [(STotpDelete u, gone_totp u); (SPasskeysDelete u, gone_passkeys u);
   (SCodesPurge u, gone_codes u); (STokensDelete u, gone_tokens u)].
Lemma cascade_steps s u : (cascade s u).*2 = (steps s u).*1.
Proof. unfold cascade, steps. by destruct (has_svcDocs s), (has_loginCountries s). Qed.

Lemma tokens_deleted (u : string) (d : DB) : filter (λ r, user_id r = u) (tokens (DeleteAllForUser u d)) = [].
Proof.
  cbn. induction (tokens d) as [|r l IH]; [done|]. rewrite filter_cons. case_decide as Hd; [|done].
  rewrite filter_cons, decide_False; [done|]. intros E. by rewrite bool_decide_eq_true_2 in Hd.
Qed.

(** Close a goal about one table: it is another table, or a filtered one. *)
Ltac gone := unfold gone_profile, gone_blobs, gone_docs, gone_devices, gone_social, gone_history, gone_countries,
  gone_totp, gone_passkeys, gone_codes, gone_tokens, owned; cbn;
  first [ done | by apply tokens_deleted | by apply filter_none | by apply lookup_delete_eq | by intros; apply filter_sub_none
        | by intros; rewrite lookup_delete_None; auto ].

Definition step_ok s (u : string) (e : stmt (res repoErr unit) * (W → Prop)) : Prop :=
  (∀ c w, shrinks s u w (perform c e.1 w).2) ∧
  (∀ c w, (perform c e.1 w).1 = Ok tt → e.2 (perform c e.1 w).2) ∧
  (∀ w w', shrinks s u w w' → e.2 w → e.2 w').

(** A statement that always has its effect, unless the database fails. *)
Lemma step_pure s u (st : stmt (res repoErr unit)) (f : W → W) (g : W → Prop) :
  (∀ c w, perform c st w = faulty (c_db c) ErrDB (tick c w) (Ok tt, f (tick c w))) →
  (∀ w, shrinks s u w (f w)) → (∀ w, g (f w)) → (∀ w w', shrinks s u w w' → g w → g w') → step_ok s u (st, g).
Proof.
  intros Hp Hs Hg Hst. split_and!; [| |done]; intros c w; cbn [fst snd]; rewrite Hp.
  - destruct (c_db c); [exact (Hs (tick c w))|exact (shrinks_id s u (tick c w))|exact (Hs (tick c w))].
  - destruct (c_db c); [intros _; apply Hg|done..].
Qed.
Lemma step_countries s u : step_ok s u (SPersonal (λ _ d, EraseLoginCountries u d), gone_countries u).
Proof.
  split_and!; [| |by intros w w' (?&?&?&?&?&?&?&_)]; intros c w; cbn; unfold EraseLoginCountries.
  - destruct (c_db c); repeat case_match; simplify_eq/=; split_and!; gone.
  - destruct (c_db c); repeat case_match; simplify_eq/=; try done; intros _; gone.
Qed.
Ltac step f := eapply (step_pure _ _ _ f);
  [reflexivity | intros w; split_and!; gone | intros w; gone | intros w w' (?&?&?&?&?&?&?&?&?&?&?&?&?); assumption].

Lemma steps_ok s u : Forall (step_ok s u) (steps s u).
Proof.
  unfold steps. rewrite !Forall_app. split_and!.
  - repeat apply Forall_cons_2; try apply Forall_nil_2; [step (λ w : W, set_personal (ProfileDelete (identityPseudonym s u) (personal w)) w)
      |step (λ w : W, set_personal (DeleteAllForPseudonym (blobPseudonym s u) (personal w)) w)].
  - destruct (has_svcDocs s); repeat apply Forall_cons_2; try apply Forall_nil_2.
    step (λ w : W, set_personal (DeleteAllForSubject (svcDocPseudonym s u) (personal w)) w).
  - repeat apply Forall_cons_2; try apply Forall_nil_2; [step (λ w : W, set_devices (filter (λ d, DUserID d ≠ u) (devices w)) w)
      |step (λ w : W, set_personal (SocialDeleteAllForUser u (personal w)) w)
      |step (λ w : W, set_personal (HistoryDeleteAllForUser u (personal w)) w)].
  - destruct (has_loginCountries s); repeat apply Forall_cons_2; try apply Forall_nil_2; apply step_countries.
  - repeat apply Forall_cons_2; try apply Forall_nil_2; [step (λ w : W, set_enrolled (TOTPDeleteByUserID u (enrolled w)) w)
      |step (λ w : W, set_enrolled (PasskeysDeleteAllForUser u (enrolled w)) w)
      |step (λ w : W, set_enrolled (PurgeAllForUser u (enrolled w)) w)
      |step (λ w : W, set_db (DeleteAllForUser u (db w)) w)].
Qed.

(** ** The cascade *)
Lemma run_cascade_wp P s u (l : list (string * stmt (res repoErr unit))) (es : list (stmt (res repoErr unit) * (W → Prop))) w :
  l.*2 = es.*1 → Forall (step_ok s u) es →
  wp P (run_cascade l) (λ r w', shrinks s u w w' ∧ (r = Ok tt → Forall (λ e, e.2 w') es)) w.
Proof.
  intros El Hes. revert l w El.
  induction Hes as [|[st g] es Hst' Hes IH]; intros [|[name st'] l] w El; try discriminate El.
  - cbn. split; [apply shrinks_id|by constructor].
  - destruct Hst' as (Hsh & Hok & Hst). injection El as -> El. cbn [run_cascade]. apply wp_bind. intros c _. cbn [wp fst snd] in *.
    destruct (perform c st w) as [[[]|e] w1] eqn:Ep; specialize (Hsh c w); specialize (Hok c w); rewrite Ep in *; cbn [fst snd] in *.
    + eapply wp_mono; [|by apply (IH l)]. intros r w' [Hs Hr]. split; [by eapply shrinks_then|].
      intros Hrr. apply Forall_cons_2; [by eapply Hst, Hok|by apply Hr].
    + cbn. split; [done|by intros].
Qed.
Lemma cascade_wp P s u w :
  wp P (run_cascade (cascade s u)) (λ r w', shrinks s u w w' ∧ (r = Ok tt → no_trace s u w')) w.
Proof.
  eapply wp_mono; [|apply run_cascade_wp; [apply cascade_steps|apply steps_ok]].
  intros r w' [Hs Hr]. split; [done|]. intros Hk. specialize (Hr Hk). revert Hr. unfold steps, no_trace.
  rewrite !Forall_app. intros (H1' & H2' & H3' & H4' & H5').
  repeat match goal with H : Forall _ (_ :: _) |- _ => apply Forall_cons in H as [? ?] end.
  split_and!; try done.
  - intros Hd. rewrite Hd in H2'. by apply Forall_cons in H2' as [? _].
  - intros Hd. rewrite Hd in H4'. by apply Forall_cons in H4' as [? _].
Qed.

(** ** Before the tombstone *)
(** No table changed but the escrow log, which grew. *)
Definition untouched w w' : Prop :=
  db w' = db w ∧ devices w' = devices w ∧ enrolled w' = enrolled w ∧
  with_recovery [] (personal w') = with_recovery [] (personal w) ∧
  (∀ row, row ∈ account_recovery (personal w) → row ∈ account_recovery (personal w')).
Lemma untouched_same w w' : same_stores w w' → personal w' = personal w → untouched w w'.
Proof. intros (?&?&?&?&?&_) Hp. unfold untouched. by rewrite Hp. Qed.
Lemma untouched_then w1 w2 w3 : untouched w1 w2 → untouched w2 w3 → untouched w1 w3.
Proof. intros (?&?&?&?&?) (?&?&?&?&?). split_and!; first [congruence|by auto]. Qed.

Definition escrowed s (user : User) (by_ why : string) w : Prop :=
  ∀ pub, recoveryPub s = Some pub →
    ∃ row, row ∈ account_recovery (personal w) ∧ escrow_row pub user row ∧
           Pseudonym row = recoveryPseudonym s (UID user) ∧ DeletedBy row = by_ ∧ Reason row = why.

Lemma seal_recovery_wp P pub payload b w Q :
  (∀ o w', same_stores w w' → personal w' = personal w →
     (∀ enc, o = Some enc → ∃ k n r, String.length n = nonceSize ∧ EncryptRecovery pub payload b k (Some n) r = Some enc) → Q o w') →
  wp P (seal_recovery pub payload b) Q w.
Proof.
  intros HQ. unfold seal_recovery. apply wp_bind, RandomBytes_wp. intros k w1 Hs1 Hp1 _.
  apply wp_bind, RandomBytes_wp. intros n w2 Hs2 Hp2 Hn. apply wp_bind. intros c _.
  assert (Hp3 : personal (perform c SRandom w2).2 = personal w2) by (cbn; by destruct (c_dry c)).
  apply HQ; [eapply same_trans; [done|eapply same_trans; [done|apply same_random]]|congruence|].
  intros enc. destruct k as [k|], n as [n|], (perform c SRandom w2).1 as [r|]; try done. eauto.
Qed.

Lemma escrow_wp P s pub user by_ why w :
  recoveryPub s = Some pub →
  wp P (escrow s pub user by_ why) (λ r w', untouched w w' ∧ (r = Ok tt → escrowed s user by_ why w')) w.
Proof.
  intros Hpub. unfold escrow. apply wp_bind, RandomUUID_wp. intros [id|e] w1 Hs1 Hp1 Hid.
  2: { cbn. split; [by apply untouched_same|done]. }
  destruct (recoveryPayload user) as [payload|] eqn:Epl; [|cbn; split; [by apply untouched_same|done]].
  apply wp_bind, seal_recovery_wp. intros [enc|] w2 Hs2 Hp2 Henc.
  2: { cbn. split; [eapply untouched_then; by apply untouched_same|done]. }
  destruct (Henc enc eq_refl) as (k & n & r & Hn & Ee).
  assert (Hu2 : untouched w w2) by (eapply untouched_then; by apply untouched_same).
  apply wp_bind. intros c1 _. apply wp_bind. intros c2 _. cbn [wp call].
  set (w3 := (perform c1 SNow w2).2). assert (Hu3 : untouched w w3) by exact Hu2.
  set (row := mkAccountRecovery id _ enc _ by_ why).
  assert (Hrow : escrow_row pub user row) by (exists payload, k, n, r; done).
  cbn [perform]. unfold RecoveryAppend. case_bool_decide; cbn.
  { destruct (c_db c2); cbn; split; done. }
  assert (Hgrow : untouched w (set_personal (with_recovery (row :: account_recovery (personal w3)) (personal w3)) (tick c2 w3))).
  { destruct Hu3 as (?&?&?&?&Hin). split_and!; try done. intros x Hx. apply elem_of_cons. right. by apply Hin. }
  destruct (c_db c2); cbn; (split; [done|]); try done.
  intros _ pub' Hp'. assert (pub' = pub) as -> by congruence. exists row. split; [apply elem_of_cons; by left|done].
Qed.

(** The account row becomes exactly its tombstone, nothing else moves. *)
Definition buried (u : string) w w' : Prop :=
  db w' = SoftDeleteScrub u (tombstone_of u) (db w) ∧ devices w' = devices w ∧ enrolled w' = enrolled w ∧
  with_recovery [] (personal w') = with_recovery [] (personal w).

Lemma bury_wp P s user u by_ why w :
  wp P (bury s user u by_ why)
    (λ r w', r ≠ Ok tt ∧ untouched w w' ∨ buried u w w' ∧ escrowed s user by_ why w') w.
Proof.
  unfold bury. apply wp_bind.
  assert (He : wp P (match recoveryPub s with None => Ret (Ok tt) | Some pub => escrow s pub user by_ why end)
                 (λ r w', untouched w w' ∧ (r = Ok tt → escrowed s user by_ why w')) w).
  { destruct (recoveryPub s) eqn:Ep; [by apply escrow_wp|]. cbn. split; [by split_and!|]. intros _ pub. congruence. }
  eapply wp_mono; [|exact He]. intros [[]|e] w1 [Hu Hesc].
  2: { by left. }
  apply wp_bind. intros c _. cbn. unfold on_db. specialize (Hesc eq_refl). destruct Hu as (Hdb & Hdev & Henr & Hper & Hin).
  assert (Hb : buried u w (set_db (with_users (users (SoftDeleteScrub u (tombstone_of u) (db (tick c w1)))) (db (tick c w1))) (tick c w1))).
  { split_and!; try done. cbn. rewrite Hdb. done. }
  destruct (c_db c); cbn; [right; split; [exact Hb|exact Hesc]|left; split; [done|by split_and!]|right; split; [exact Hb|exact Hesc]].
Qed.

(** A cascade after the tombstone keeps it, and keeps the escrow. *)
Lemma shrinks_escrowed s u user by_ why w w' : shrinks s u w w' → escrowed s user by_ why w → escrowed s user by_ why w'.
Proof. intros (_&_&_&_&_&_&_&_&_&_&_&_&Hr) He pub Hp. destruct (He pub Hp) as (row & Hin & ?). exists row. by rewrite Hr. Qed.

(** The account is loaded, or the database failed. *)
Lemma load_user c u w old :
  users (db w) !! u = Some old →
  ((perform c (SGetByID u) w).1 = Err ErrDB ∧ c_db c ≠ NoFault ∨ (perform c (SGetByID u) w).1 = Ok (Some old)) ∧
  untouched w (perform c (SGetByID u) w).2 ∧
  db (perform c (SGetByID u) w).2 = db w ∧ personal (perform c (SGetByID u) w).2 = personal w.
Proof.
  intros Hold. cbn. unfold on_db, GetByID. cbn. rewrite Hold. destruct (c_db c); cbn; split_and!; auto; by split_and!.
Qed.

(** Every outcome of an erasure of a live account. *)
Lemma DeleteAccount_live P s u by_ why w old :
  users (db w) !! u = Some old → Deleted old = false →
  wp P (DeleteAccount s u by_ why)
    (λ r w', r ≠ Ok tt ∧ untouched w w' ∨
             users (db w') = users (SoftDeleteScrub u (tombstone_of u) (db w)) ∧ escrowed s old by_ why w' ∧
             (r = Ok tt → no_trace s u w')) w.
Proof.
  intros Hold Hdel. unfold DeleteAccount. apply wp_bind. intros c _. cbn [wp call].
  destruct (load_user c u w old Hold) as (Hr & Hu0 & _).
  destruct (perform c (SGetByID u) w) as [ru w0]. cbn [fst snd] in *. destruct Hr as [[-> _]| ->]; [by left|].
  rewrite Hdel. cbn [negb]. apply wp_bind.
  eapply wp_mono; [|apply bury_wp]. intros rb w1 Hb. destruct rb as [[]|e].
  2: { cbn. destruct Hb as [[_ Hu]|[(Hdb&_) Hesc]]; [left; split; [done|by eapply untouched_then]|].
       right. split_and!; [|done|done]. rewrite Hdb. by destruct Hu0 as [-> _]. }
  destruct Hb as [[Hn _]|[(Hdb&_) Hesc]]; [done|].
  apply wp_bind. eapply wp_mono; [|apply cascade_wp]. intros rc w2 [Hsh Hnt].
  assert (Hus : users (db w2) = users (SoftDeleteScrub u (tombstone_of u) (db w))).
  { destruct Hsh as (_&_&_&_&_&_&_&_&_&_&_&-> & _). rewrite Hdb. by destruct Hu0 as [-> _]. }
  assert (Hes : escrowed s old by_ why w2) by by eapply shrinks_escrowed.
  destruct rc as [[]|e]; [|cbn; right; split_and!; [done..|by intros]].
  specialize (Hnt eq_refl). apply wp_bind. destruct (has_auditLog s); [intros c' _|]; cbn; right; split_and!; done.
Qed.

(** An erasure of a tombstone only continues the cascade. *)
Lemma DeleteAccount_again P s u by_ why w old :
  users (db w) !! u = Some old → Deleted old = true →
  wp P (DeleteAccount s u by_ why)
    (λ r w', users (db w') = users (db w) ∧ account_recovery (personal w') = account_recovery (personal w) ∧
             (r = Ok tt → no_trace s u w')) w.
Proof.
  intros Hold Hdel. unfold DeleteAccount. apply wp_bind. intros c _. cbn [wp call].
  destruct (load_user c u w old Hold) as (Hr & _ & Hd0 & Hp0).
  destruct (perform c (SGetByID u) w) as [ru w0]. cbn [fst snd] in *.
  destruct Hr as [[-> _]| ->]; [cbn; by rewrite Hd0, Hp0|].
  rewrite Hdel. cbn [negb bind]. apply wp_bind. eapply wp_mono; [|apply cascade_wp]. intros rc w2 [Hsh Hnt].
  assert (Hk : users (db w2) = users (db w) ∧ account_recovery (personal w2) = account_recovery (personal w)).
  { destruct Hsh as (_&_&_&_&_&_&_&_&_&_&_&-> & ->). by rewrite Hd0, Hp0. }
  destruct rc as [[]|e]; [|cbn; split_and!; [apply Hk..|by intros]].
  specialize (Hnt eq_refl). apply wp_bind. destruct (has_auditLog s); [intros c' _|]; cbn; split_and!; try done; apply Hk.
Qed.

(** ** Properties *)
Lemma DeleteAccount_absent P s u by_ why w :
  users (db w) !! u = None → wp P (DeleteAccount s u by_ why) (λ r w', r ≠ Ok tt ∧ untouched w w') w.
Proof.
  intros Hn. unfold DeleteAccount. apply wp_bind. intros c _. cbn. unfold on_db, GetByID. cbn. rewrite Hn.
  destruct (c_db c); cbn; by split_and!.
Qed.


(** The profile the tool prints for an escrow row of [old]. *)
Definition restored (old : User) (row : AccountRecovery) : recoveredRecord :=
  mkRecoveredRecord (UID old) (Email old) (DisplayName (Profile old)) (Roles old) (Some (UCreatedAt (Profile old)))
    (DeletedAt row) (DeletedBy row) (Reason row) RecoveryFormatBound.

(** C32. Erasure fails closed and is recoverable: with a recovery key configured, every
    outcome of erasing a live account, under any pattern of failures, either
    reports an error and has touched nothing but the escrow log, or leaves a
    tombstone together with an escrow row from which the offline tool, holding
    the private key, restores the account's id, address, name, roles and date
    of creation exactly. *)
Theorem erasure_fails_closed s u by_ why w old pub priv allow :
  users (db w) !! u = Some old → Deleted old = false → utf8_row old → Email old ≠ "" → UID old ≠ "" →
  recoveryPub s = Some pub → Aes.matches priv pub = true → Aes.Size pub ≤ 2 ^ 16 →
  wp any (DeleteAccount s u by_ why)
    (λ r w', r ≠ Ok tt ∧ untouched w w' ∨
             users (db w') !! u = Some (scrub (tombstone_of u) old) ∧
             ∃ row, row ∈ account_recovery (personal w') ∧ DeletedBy row = by_ ∧ Reason row = why ∧
                    recoverRow priv row allow = (Some (restored old row), RecoveryFormatBound)) w.
Proof.
  intros Hold Hdel Hutf He Hi Hpub Hm Hsz. eapply wp_mono; [|by eapply DeleteAccount_live].
  intros r w' [?|(Hus & Hesc & _)]; [by left|]. right. split.
  - rewrite Hus. cbn. by rewrite lookup_alter_eq, Hold.
  - destruct (Hesc pub Hpub) as (row & Hin & Hrow & _ & ? & ?). exists row. split_and!; try done.
    by eapply recoverRow_escrow.
Qed.

Lemma cascade_healthy s u old : Deleted old = true →
  ∀ w, users (db w) !! u = Some old → wp healthy (run_cascade (cascade s u)) (λ r _, r = Ok tt) w.
Proof.
  intros Hdel.
  assert (Hall : Forall (λ e : string * stmt (res repoErr unit), ∀ c w, healthy c → users (db w) !! u = Some old →
    (perform c e.2 w).1 = Ok tt ∧ users (db (perform c e.2 w).2) = users (db w)) (cascade s u)).
  { unfold cascade. destruct (has_svcDocs s), (has_loginCountries s); repeat apply Forall_cons_2; try apply Forall_nil_2;
      intros c w (_ & Hd & _) Hu; cbn; unfold on_factors, on_db; rewrite Hd; cbn; unfold EraseLoginCountries;
      cbn; rewrite ?Hu, ?Hdel; done. }
  induction Hall as [|[name st] l Hst Hl IH]; intros w Hu; [done|]. cbn [run_cascade]. apply wp_bind. intros c Hc.
  cbn [wp call snd] in *. destruct (Hst c w Hc Hu) as [-> E]. apply IH. by rewrite E.
Qed.

(** An interrupted erasure is finished by running it again: on an account that
    is already a tombstone, with every store answering, the call succeeds,
    leaves no trace, keeps the tombstone as it is and writes no second escrow
    record. *)
Theorem erasure_can_be_finished s u by_ why w old :
  users (db w) !! u = Some old → Deleted old = true →
  wp healthy (DeleteAccount s u by_ why)
    (λ r w', r = Ok tt ∧ no_trace s u w' ∧ users (db w') = users (db w) ∧
             account_recovery (personal w') = account_recovery (personal w)) w.
Proof.
  intros Hold Hdel.
  assert (Hok : wp healthy (DeleteAccount s u by_ why) (λ r _, r = Ok tt) w).
  { unfold DeleteAccount. apply wp_bind. intros c Hc. cbn [wp call].
    destruct (load_user c u w old Hold) as ([[_ Hn]| ->] & _ & Hd0 & _); [by destruct Hc as (_ & ? & _)|].
    rewrite Hdel. cbn [negb bind]. apply wp_bind. eapply wp_mono; [|eapply (cascade_healthy s u old Hdel); by rewrite Hd0].
    intros rc w2 ->. apply wp_bind. by destruct (has_auditLog s); [intros c' _|]. }
  eapply wp_mono; [|apply wp_and; [exact Hok|by eapply DeleteAccount_again]].
  intros r w' [-> (Hus & Hrec & Hnt)]. auto.
Qed.

(** A stolen access token does not erase: the handler touches nothing unless the
    password of the account verified. *)
Lemma AccountDelete_needs_password s pepper sub pw ip w :
  (∀ old p, users (db w) !! sub = Some old → pw = Some p → argon2_verify p (PasswordHash old) pepper ≠ Ok true) →
  wp any (AccountDelete s pepper (Some sub) pw ip) (λ r w', r ≠ Replied tt ∧ untouched w w') w.
Proof.
  intros Hno. unfold AccountDelete.
  assert (Hw : untouched w w) by by split_and!.
  destruct pw as [p|]; [|by cbn]. destruct p as [|a p]; [by cbn|]. set (pw := String a p) in *.
  apply wp_bind. intros c _. cbn [wp call].
  destruct (users (db w) !! sub) as [old|] eqn:Hold.
  2: { cbn. unfold on_db, GetByID. cbn. rewrite Hold. destruct (c_db c); cbn; by split_and!. }
  destruct (load_user c sub w old Hold) as (Hr & Hu0 & _).
  destruct (perform c (SGetByID sub) w) as [ru w0]. cbn [fst snd] in *. destruct Hr as [[-> _]| ->]; [by cbn|].
  apply wp_bind. intros c' _. cbn [wp call perform fst snd]. specialize (Hno old pw eq_refl eq_refl).
  destruct (c_busy c'); [by cbn|]. destruct (argon2_verify pw (PasswordHash old) pepper) as [[]|]; [done|..];
    apply wp_bind; destruct (has_auditLog s); [intros c2 _| |intros c2 _|]; by cbn.
Qed.
End facts.

(** ** A concrete erasure *)
Module ErasureDemo.
#[local] Existing Instance Toy.prims.
#[local] Existing Instance ToyEscrow.aead.
#[local] Existing Instance ToyEscrow.aead_laws.
#[local] Existing Instance ToyEscrow.oaep.
#[local] Existing Instance ToyEscrow.oaep_laws.

Definition service : ErasureService := mkErasureService (Some "pub") "secret" true true true.
Definition world : World Memory.MemoryCache :=
  set_personal (mkPersonalDB [mkPasswordHistory "h" "alice" "$old" 1] ∅ [] [] [mkSocialAccount "s" "alice" "idp" "7" "a@x" 1]
                  [("alice", "CH"); ("bob", "DE")] [] ∅) Toy.world.
Definition tombstoned : World Memory.MemoryCache :=
  set_db (SoftDeleteScrub "alice" (tombstone_of "alice") (db world)) world.
(** Forty bytes a draw. *)
Definition oracle (n : nat) : choice :=
  mkChoice 1000 NoFault NoFault (FormatInt (Z.of_nat n) +:+ zeros 40) false false false false.

Example erases :
  let '(r, w) := run (DeleteAccount service "alice" "self" "user_request") oracle world in
  r = Ok tt ∧ password_history (personal w) = [] ∧ login_countries (personal w) = [("bob", "DE")] ∧
  ((λ row, recoverRow "priv" row false) <$> account_recovery (personal w))
  = [(Some (mkRecoveredRecord "alice" "alice@example.org" "" ["user"] (Some 0) 1000000006000 "self" "user_request" RecoveryFormatBound),
      RecoveryFormatBound)].
Proof. by vm_compute. Qed.

Lemma erasure_fails_closed_witness :
  wp any (DeleteAccount service "alice" "self" "user_request")
    (λ r w', r ≠ Ok tt ∧ untouched world w' ∨
             users (db w') !! "alice" = Some (scrub (tombstone_of "alice") Toy.alice) ∧
             ∃ row, row ∈ account_recovery (personal w') ∧ DeletedBy row = "self" ∧ Reason row = "user_request" ∧
                    recoverRow "priv" row true = (Some (restored Toy.alice row), RecoveryFormatBound)) world.
Proof.
  apply (erasure_fails_closed service "alice" "self" "user_request" world Toy.alice "pub" "priv" true);
    try reflexivity; try discriminate; try (cbn; lia).
  split_and!; try reflexivity. repeat constructor.
Defined.

Lemma erasure_can_be_finished_witness :
  wp healthy (DeleteAccount service "alice" "admin:1" "admin_request")
    (λ r w', r = Ok tt ∧ no_trace service "alice" w' ∧ users (db w') = users (db tombstoned) ∧
             account_recovery (personal w') = account_recovery (personal tombstoned)) tombstoned.
Proof.
  apply (erasure_can_be_finished service "alice" "admin:1" "admin_request" tombstoned (scrub (tombstone_of "alice") Toy.alice));
    reflexivity.
Defined.
End ErasureDemo.
