(* ===== verification/Admin.v ===== *)
(** * Admin: the administrators' gateway

    Models internal/adminapi: the fences and the session check of
    middleware.go, [withPerm] of router.go, login, logout and TOTP of auth.go
    with the first-boot account, and the handlers of handler.go, ban.go,
    forced_reset.go and user_roles.go that change accounts, sessions and
    administrators.  Requests arrive decoded; listing handlers and views are
    left out. *)
From S2P Require Import Prelude GoStd Bytes Base64 Cache Crypto Aes Totp Argon2 NetIP ClientIP Model TokenStore UserStore FactorStore Rbac AdminStore Effects TokenService Lockout Session Login SecondFactor.
From stdpp Require Import list.
From Stdlib Require Import Ascii.
Open Scope string_scope.
Open Scope Z_scope.
Open Scope prog_scope.

(** ** Fences in front of every route *)
Definition IsLoopback (ip : Z) : bool := if is4 ip then ip mod 2 ^ 32 / 2 ^ 24 =? 127 else ip =? 1.

Inductive outcome := Passes | Denied (status : Z) (reason : string) | Crashes.

Definition LocalOnly (killswitch : bool) (r : Request) : outcome :=
  if match ParseIP (stripPort (RemoteAddr r)) with Some ip => IsLoopback ip | None => false end then Passes
  else if killswitch then Crashes else Denied 403 "local_only".

Definition proxyHeaders : list string :=
  ["X-Forwarded-For"; "X-Forwarded-Host"; "X-Forwarded-Proto"; "Via"; "Forwarded"; "X-Real-IP"].
Definition RejectProxyHeaders (r : Request) : outcome :=
  if existsb (λ h, negb (bool_decide (HeaderGet h r = ""))) proxyHeaders then Denied 403 "proxy_not_allowed" else Passes.

(** The order of [NewRouter]; development mode skips both. *)
Definition gateway_fence (devMode killswitch : bool) (r : Request) : outcome :=
  if devMode then Passes
  else match LocalOnly killswitch r with Passes => RejectProxyHeaders r | o => o end.

(** *** The limiter of the login route *)
Record loginAttempt := mkLoginAttempt { count : Z; windowAt : Z }.
Record LoginRateLimit := mkLoginRateLimit { attempts : gmap string loginAttempt; maxAttempts : Z; window : Z }.
(** [true]: the attempt goes on to the handler. *)
Definition Wrap (now : Z) (host : string) (rl : LoginRateLimit) : bool * LoginRateLimit :=
  let a := match attempts rl !! host with
           | Some a => if windowAt a <? now then mkLoginAttempt 0 (now + window rl) else a
           | None => mkLoginAttempt 0 (now + window rl)
           end in
  let a := mkLoginAttempt (count a + 1) (windowAt a) in
  (count a <=? maxAttempts rl, mkLoginRateLimit (<[host := a]> (attempts rl)) (maxAttempts rl) (window rl)).

Section admin.
Context `{Primitives} `{PasswordPrims} `{AEAD} `{HMACSHA1}.

(** ** Sessions *)
Record AdminRequest := mkAdminRequest { Authorization : string; APath : string; ARemoteAddr : string }.

Definition hashSessionToken (token : string) : string := SHA256Hex token.
Definition isTOTPSetupPath (path : string) : bool :=
  bool_decide (path = "/admin/admins/me/totp/setup") || bool_decide (path = "/admin/admins/me/totp/verify") ||
  bool_decide (path = "/admin/ui/totp-setup").

Definition reject {A} (r : AdminRequest) (reason actorID : string) : prog (answer A) :=
  log_event "admin_session_rejected" actorID "" (ARemoteAddr r) reason ;;; Ret (Refused 401 reason).

Definition SessionAuth (r : AdminRequest) : prog (answer (AdminUser * AdminSession)) :=
  if decide (Authorization r = "") then reject r "missing_authorization" ""
  else match Cut 32 (Authorization r) with
  | None => reject r "invalid_authorization" ""
  | Some (scheme, token) =>
      if negb (bool_decide (scheme = "Bearer")) then reject r "invalid_authorization" ""
      else if (String.length token =? 0)%nat || (256 <? String.length token)%nat then reject r "invalid_token" ""
      else
        s <- call (SAdmin (λ _ d, (Ok (SessGetByTokenHash (hashSessionToken token) d), d))) ;;
        match s with
        | Ok (Some session) =>
            if ASRevoked session then reject r "session_revoked" (AdminID session)
            else
              now <- call SNow ;;
              if ASExpiresAt session <? now then reject r "session_expired" (AdminID session)
              else
                a <- call (SAdmin (λ _ d, (Ok (AdminGetByID (AdminID session) d), d))) ;;
                match a with
                | Ok (Some admin) =>
                    now <- call SNow ;;
                    if match ALockedUntil admin with Some t => now <? t | None => false end
                    then Ret (Refused 403 "account_locked")
                    else if negb (TOTPVerified admin) && negb (isTOTPSetupPath (APath r))
                    then Ret (Refused 403 "2fa_required")
                    else Ret (Replied (admin, session))
                | _ => reject r "admin_not_found" (AdminID session)
                end
        | _ => reject r "invalid_session" ""
        end
  end.

Definition RBACCheck (perm : Permission) (r : AdminRequest) (admin : AdminUser) : prog (answer unit) :=
  if HasPermission (ARole admin) perm then Ret (Replied tt)
  else
    log_event "admin_authz_denied" (AID admin) "" (ARemoteAddr r) perm ;;;
    Ret (Refused 403 "insufficient_permissions").

Definition withPerm {A} (perm : Permission) (r : AdminRequest) (h : AdminUser → prog (answer A)) : prog (answer A) :=
  a <- SessionAuth r ;;
  match a with
  | Refused st m => Ret (Refused st m)
  | Replied (admin, _) =>
      ok <- RBACCheck perm r admin ;;
      match ok with Refused st m => Ret (Refused st m) | Replied _ => h admin end
  end.

(** ** Signing in *)
Record AuthHandler := mkAuthHandler {
  a_masterKey : string; a_pepper : string; sessionTTL : Z; maxFailed : Z; lockoutDur : Z; a_dummyHash : string
}.

Definition handleFailedLogin (h : AuthHandler) (admin : AdminUser) (ip : string) : prog unit :=
  r <- call (SAdmin (λ _, AdminIncrementFailedLogin (AID admin))) ;;
  let newCount := match r with Ok n => n | Err _ => AFailedLoginCount admin + 1 end in
  (if maxFailed h <=? newCount then
     now <- call SNow ;;
     call (SAdmin (λ _ d, (Ok tt, AdminLockUntil (AID admin) (now + lockoutDur h) d))) ;;;
     log_event "admin_lockout" (AID admin) "" ip ""
   else Ret tt) ;;;
  log_event "admin_login_failure" (AID admin) "" ip "wrong_password".

Definition decryptTOTPSecret (encHex masterKey adminID : string) : option string :=
  e ← hex_decode encHex; Decrypt e masterKey adminID.

(** The TOTP half of a login: [None] goes on, [Some] answers. *)
Definition login_totp (h : AuthHandler) (admin : AdminUser) (totpCode ip : string) : prog (option (Z * string)) :=
  let failed := handleFailedLogin h admin ip ;;; Ret (Some (401, "invalid_credentials")) in
  if negb (TOTPVerified admin && negb (bool_decide (TOTPSecretEnc admin = ""))) then Ret None
  else if decide (totpCode = "") then failed
  else match decryptTOTPSecret (TOTPSecretEnc admin) (a_masterKey h) (AID admin) with
  | None => Ret (Some (500, "internal_error"))
  | Some secret =>
      now <- call SNow ;;
      let counter := match ValidateTOTPCode secret totpCode now with Ok k => k | Err _ => -1 end in
      if counter <? 0 then failed
      else if counter <=? LastTOTPCounter admin then failed
      else
        r <- call (SAdmin (λ _, UpdateLastTOTPCounter (AID admin) counter)) ;;
        match r with Err _ => failed | Ok _ => Ret None end
  end.

(** The session a login ends in; the token is what the client gets. *)
Definition open_session (h : AuthHandler) (admin : AdminUser) (ip : string) : prog (answer string) :=
  b <- call SRandom ;;
  match b with
  | Err _ => Ret (Refused 500 "internal_error")
  | Ok b =>
      let token := hex_encode b in
      i <- call SRandom ;;
      match i with
      | Err _ => Ret (Refused 500 "internal_error")
      | Ok sessionID =>
          now <- call SNow ;;
          r <- call (SAdmin (λ _, SessCreate (mkAdminSession sessionID (AID admin) (hashSessionToken token) ip now
                                                 (now + sessionTTL h) false))) ;;
          match r with
          | Err _ => Ret (Refused 500 "internal_error")
          | Ok _ =>
              call (SAdmin (λ t d, (Ok tt, UpdateLastLogin t (AID admin) d))) ;;;
              log_event "admin_login" (AID admin) "" ip "" ;;;
              Ret (Replied token)
          end
      end
  end.

Definition AdminLogin (h : AuthHandler) (username password totpCode ip : string) : prog (answer string) :=
  if bool_decide (username = "") || bool_decide (password = "") then Ret (Refused 400 "missing_credentials")
  else
    r <- call (SAdmin (λ _ d, (Ok (AdminGetByUsername username d), d))) ;;
    match r with
    | Err _ => Ret (Refused 500 "internal_error")
    | Ok None =>
        call (SVerify password (a_dummyHash h) (a_pepper h)) ;;;
        log_event "admin_login_failure" "" "" ip "user_not_found" ;;;
        Ret (Refused 401 "invalid_credentials")
    | Ok (Some admin) =>
        now <- call SNow ;;
        if match ALockedUntil admin with Some t => now <? t | None => false end then
          log_event "admin_login_failure" (AID admin) "" ip "account_locked" ;;;
          Ret (Refused 401 "invalid_credentials")
        else
          v <- call (SVerify password (APasswordHash admin) (a_pepper h)) ;;
          match v with
          | Err Argon2Overloaded => Ret (Refused 503 "server_busy")
          | Ok true =>
              t <- login_totp h admin totpCode ip ;;
              match t with
              | Some (st, m) => Ret (Refused st m)
              | None => open_session h admin ip
              end
          | _ => handleFailedLogin h admin ip ;;; Ret (Refused 401 "invalid_credentials")
          end
    end.

Definition AdminLogout (admin : AdminUser) (session : AdminSession) (ip : string) : prog (answer unit) :=
  r <- call (SAdmin (λ _ d, (Ok tt, SessRevoke (ASID session) d))) ;;
  match r with
  | Err _ => Ret (Refused 500 "internal_error")
  | Ok _ => log_event "admin_logout" (AID admin) "" ip "" ;;; Ret (Replied tt)
  end.

Definition with_totp_state (enc : string) (v : bool) (a : AdminUser) : AdminUser :=
  mkAdminUser (AID a) (Username a) (APasswordHash a) (ARole a) enc v (ALockedUntil a) (AFailedLoginCount a)
    (LastTOTPCounter a) (ALastLoginAt a) (CreatedBy a).

Definition AdminTOTPSetup (h : AuthHandler) (admin : AdminUser) : prog (answer string) :=
  if TOTPVerified admin then Ret (Refused 409 "totp_already_configured")
  else
    b <- call SRandom ;;
    match b with
    | Err _ => Ret (Refused 500 "internal_error")
    | Ok b =>
        let secret := b32_encode b in
        e <- seal_secret secret (a_masterKey h) (AID admin) ;;
        match e with
        | None => Ret (Refused 500 "internal_error")
        | Some enc =>
            r <- call (SAdmin (λ _, AdminUpdate (with_totp_state (hex_encode enc) false admin))) ;;
            Ret (match r with Err _ => Refused 500 "internal_error" | Ok _ => Replied secret end)
        end
    end.

Definition AdminTOTPVerify (h : AuthHandler) (admin : AdminUser) (body : option string) (ip : string)
  : prog (answer unit) :=
  if TOTPVerified admin then Ret (Refused 409 "totp_already_verified")
  else if decide (default "" body = "") then Ret (Refused 400 "invalid_request")
  else if decide (TOTPSecretEnc admin = "") then Ret (Refused 400 "totp_not_setup")
  else match decryptTOTPSecret (TOTPSecretEnc admin) (a_masterKey h) (AID admin) with
  | None => Ret (Refused 500 "internal_error")
  | Some secret =>
      now <- call SNow ;;
      let counter := match ValidateTOTPCode secret (default "" body) now with Ok k => k | Err _ => -1 end in
      if counter <? 0 then Ret (Refused 401 "invalid_code")
      else if counter <=? LastTOTPCounter admin then Ret (Refused 401 "invalid_code")
      else
        r <- call (SAdmin (λ _, UpdateLastTOTPCounter (AID admin) counter)) ;;
        match r with
        | Err _ => Ret (Refused 401 "invalid_code")
        | Ok _ =>
            r <- call (SAdmin (λ _, AdminUpdate (with_totp_state (TOTPSecretEnc admin) true admin))) ;;
            match r with
            | Err _ => Ret (Refused 500 "internal_error")
            | Ok _ => log_event "admin_2fa_setup" (AID admin) "" ip "totp" ;;; Ret (Replied tt)
            end
        end
  end.
(** ** The first administrator *)
Definition firstAdminMarkerKey : string := "first_admin_bootstrapped_at".

Inductive bootErr := BootStore | BootRefused | BootEntropy | BootDelivery.

(** [HashPassword] with the salt it draws; a refusal of the password semaphore
    surfaces as the failed draw does. *)
Definition hash_password (password pepper : string) : prog (option string) :=
  s <- call SRandom ;; Ret (match s with Ok salt => Some (hash_with salt password pepper) | Err _ => None end).

(** [marker.Set(..., now.Format(time.RFC3339))]: some non-empty text of the instant. *)
Definition set_marker (now : Z) : prog (res bootErr unit) :=
  r <- call (SAdmin (λ _ d, (Ok tt, ConfigSet firstAdminMarkerKey (FormatInt now) d))) ;;
  Ret (match r with Ok _ => Ok tt | Err _ => Err BootStore end).

Definition first_admin (pepper : string) : prog (res bootErr unit) :=
  i <- call SRandom ;;
  match i with
  | Err _ => Ret (Err BootEntropy)
  | Ok id =>
      b <- call SRandom ;;
      match b with
      | Err _ => Ret (Err BootEntropy)
      | Ok b =>
          let password := hex_encode b in
          hh <- hash_password password pepper ;;
          match hh with
          | None => Ret (Err BootEntropy)
          | Some hash =>
              now <- call SNow ;;
              d <- call (SSend "VAULT_FIRST_BOOT_SUPER_ADMIN_PASSWORD" "sink" password) ;;
              match d with
              | Err _ => Ret (Err BootDelivery)
              | Ok _ =>
                  r <- call (SAdmin (λ _, AdminCreate (mkAdminUser id "admin" hash RoleSuperAdmin "" false None 0 0 None None))) ;;
                  match r with
                  | Err _ => Ret (Err BootStore)
                  | Ok _ => set_marker now
                  end
              end
          end
      end
  end.

Definition EnsureFirstAdmin (pepper : string) : prog (res bootErr unit) :=
  m <- call (SAdmin (λ _ d, (Ok (ConfigGet firstAdminMarkerKey d), d))) ;;
  match m with
  | Err _ => Ret (Err BootStore)
  | Ok bootstrapped =>
      n <- call (SAdmin (λ _ d, (Ok (AdminCount d), d))) ;;
      if negb (bool_decide (bootstrapped = "")) then
        Ret (match n with Ok (S _) => Ok tt | _ => Err BootRefused end)
      else match n with
      | Err _ => Ret (Err BootStore)
      | Ok (S _) => now <- call SNow ;; set_marker now
      | Ok O => first_admin pepper
      end
  end.

(** ** Administrators *)
Definition CreateAdmin (pepper : string) (creator : AdminUser) (username password role ip : string) : prog (answer string) :=
  if bool_decide (username = "") || bool_decide (password = "") || bool_decide (role = "") then Ret (Refused 400 "missing_fields")
  else if negb (IsValidRole role) then Ret (Refused 400 "invalid_role")
  else if (String.length password <? 20)%nat then Ret (Refused 400 "password_too_short")
  else
    e <- call (SAdmin (λ _ d, (Ok (AdminGetByUsername username d), d))) ;;
    match e with
    | Err _ => Ret (Refused 500 "internal_error")
    | Ok (Some _) => Ret (Refused 409 "username_exists")
    | Ok None =>
        i <- call SRandom ;;
        match i with
        | Err _ => Ret (Refused 500 "internal_error")
        | Ok id =>
            hh <- hash_password password pepper ;;
            match hh with
            | None => Ret (Refused 500 "internal_error")
            | Some hash =>
                r <- call (SAdmin (λ _, AdminCreate (mkAdminUser id username hash role "" false None 0 0 None (Some (AID creator))))) ;;
                match r with
                | Err _ => Ret (Refused 500 "internal_error")
                | Ok _ => log_event "admin_account_create" (AID creator) id ip role ;;; Ret (Replied id)
                end
            end
        end
    end.

Definition RevokeAdmin (actor : AdminUser) (id ip : string) : prog (answer unit) :=
  if decide (id = "") then Ret (Refused 400 "missing_id")
  else if decide (AID actor = id) then Ret (Refused 400 "cannot_revoke_self")
  else
    call (SAdmin (λ _ d, (Ok (AdminGetByID id d), d))) ;;;
    r <- call (SAdmin (λ _ d, (Ok tt, AdminRevoke id d))) ;;
    match r with
    | Err _ => log_event "admin_account_revoke" (AID actor) id ip "failed" ;;; Ret (Refused 500 "internal_error")
    | Ok _ => log_event "admin_account_revoke" (AID actor) id ip "revoked" ;;; Ret (Replied tt)
    end.

(** ** Accounts.  [hasTokens]: a refresh-token repository is configured. *)
Definition maxLockDuration : Z := 30 * 24 * hour.
(** [parsed] is the outcome of [time.ParseDuration]. *)
Definition clampLockDuration (parsed : option Z) : Z :=
  match parsed with
  | Some d => if (d <=? 0) || (maxLockDuration <? d) then 24 * hour else d
  | None => 24 * hour
  end.

(** [sessions_revoked] of the answer and of the audit row. *)
Definition revoke_sessions (hasTokens : bool) (id : string) : prog bool :=
  if hasTokens then r <- call (SRevokeAllForUser id) ;; Ret (is_ok r) else Ret false.

Definition LockUser (hasTokens : bool) (admin : AdminUser) (id : string) (duration : option Z) (ip : string)
  : prog (answer (Z * bool)) :=
  if decide (id = "") then Ret (Refused 400 "missing_id")
  else
    now <- call SNow ;;
    let until := now + clampLockDuration duration in
    r <- call (SUsers (λ _ d, (tt, users (LockUntil id until d)))) ;;
    match r with
    | Err _ => Ret (Refused 500 "internal_error")
    | Ok _ =>
        revoked <- revoke_sessions hasTokens id ;;
        log_event "admin_user_lock" (AID admin) id ip (if revoked then "sessions_revoked" else "") ;;;
        Ret (Replied (until, revoked))
    end.

Definition UnlockUser (admin : AdminUser) (id ip : string) : prog (answer unit) :=
  if decide (id = "") then Ret (Refused 400 "missing_id")
  else
    r <- call (SUsers (λ _ d, (tt, users (Unlock id d)))) ;;
    match r with
    | Err _ => Ret (Refused 500 "internal_error")
    | Ok _ => log_event "admin_user_unlock" (AID admin) id ip "" ;;; Ret (Replied tt)
    end.

Definition liveUser (id : string) : prog (answer User) :=
  if decide (id = "") then Ret (Refused 400 "missing_id")
  else
    r <- call (SGetByID id) ;;
    Ret (match r with
         | Err _ => Refused 500 "internal_error"
         | Ok None => Refused 404 "user_not_found"
         | Ok (Some u) => if Deleted u then Refused 404 "user_not_found" else Replied u
         end).

(** A flag of a live account is moved; imposing it also ends its sessions. *)
Definition move_flag (hasTokens ends : bool) (write : string → DB → DB) (event : string) (admin : AdminUser)
    (id ip : string) : prog (answer bool) :=
  u <- liveUser id ;;
  match u with
  | Refused st m => Ret (Refused st m)
  | Replied user =>
      r <- call (SUsers (λ _ d, (tt, users (write (UID user) d)))) ;;
      match r with
      | Err _ => Ret (Refused 500 "internal_error")
      | Ok _ =>
          revoked <- (if ends then revoke_sessions hasTokens (UID user) else Ret false) ;;
          log_event event (AID admin) (UID user) ip (if revoked then "sessions_revoked" else "") ;;;
          Ret (Replied revoked)
      end
  end.
Definition BanUser hasTokens := move_flag hasTokens true (λ i, SetBanned i true) "admin_user_ban".
Definition UnbanUser := move_flag false false (λ i, SetBanned i false) "admin_user_unban".
Definition RequirePasswordReset hasTokens := move_flag hasTokens true (λ i, SetMustResetPassword i true) "admin_user_reset_required".
Definition ClearPasswordReset := move_flag false false (λ i, SetMustResetPassword i false) "admin_user_reset_cleared".

Definition RevokeAllSessions (hasTokens : bool) (admin : AdminUser) (ip : string) : prog (answer unit) :=
  if negb hasTokens then Ret (Refused 503 "token_repository_not_configured")
  else
    r <- call SRevokeAllTokens ;;
    match r with
    | Err _ => Ret (Refused 500 "internal_error")
    | Ok _ => log_event "admin_session_revoke" (AID admin) "" ip "all" ;;; Ret (Replied tt)
    end.

(** *** Roles of an account *)
Definition maxRolesPerUser : nat := 32.
(** [^[a-z][a-z0-9_]{1,63}$] *)
Definition roleName (s : string) : bool :=
  (2 <=? String.length s)%nat && (String.length s <=? 64)%nat &&
  match s with
  | String c r => ((97 <=? code c) && (code c <=? 122)) &&
      all_chars (λ x, ((97 <=? code x) && (code x <=? 122)) || ((48 <=? code x) && (code x <=? 57)) || (code x =? 95)) r
  | "" => false
  end.
(** The loop over the requested names: what is kept, or why it is refused. *)
Fixpoint check_roles (known : list string) (seen : list string) (names : list string) : sum string (list string) :=
  match names with
  | [] => inr []
  | n :: rest =>
      if negb (roleName n) then inl "invalid_role_name"
      else if IsReservedAdminRole n then inl "reserved_role_name"
      else if negb (bool_decide (n ∈ known)) then inl "unknown_role"
      else if bool_decide (n ∈ seen) then check_roles known seen rest
      else match check_roles known (n :: seen) rest with inl e => inl e | inr l => inr (n :: l) end
  end.
Definition SetUserRoles (hasCatalog : bool) (admin : AdminUser) (id : string) (body : option (list string)) (ip : string)
  : prog (answer (list string)) :=
  if negb hasCatalog then Ret (Refused 503 "roles_catalog_unavailable")
  else
    u <- liveUser id ;;
    match u, body with
    | Refused st m, _ => Ret (Refused st m)
    | Replied _, None => Ret (Refused 400 "invalid_request")
    | Replied user, Some names =>
        if (maxRolesPerUser <? length names)%nat then Ret (Refused 400 "too_many_roles")
        else
          c <- call SListNames ;;
          match c with
          | Err _ => Ret (Refused 500 "internal_error")
          | Ok known =>
              match check_roles known [] names with
              | inl e => Ret (Refused 400 e)
              | inr roles =>
                  r <- call (SUsers (λ _ d, (tt, users (SetRoles (UID user) roles d)))) ;;
                  match r with
                  | Err _ => Ret (Refused 500 "internal_error")
                  | Ok _ => log_event "admin_user_roles_set" (AID admin) (UID user) ip "" ;;; Ret (Replied roles)
                  end
              end
          end
    end.

(** ** Configuration *)
(** [^[a-zA-Z][a-zA-Z0-9_.]{0,63}$] *)
Definition configKeyPattern (s : string) : bool :=
  (String.length s <=? 64)%nat &&
  match s with
  | String c r => (((97 <=? code c) && (code c <=? 122)) || ((65 <=? code c) && (code c <=? 90))) &&
      all_chars (λ x, ((97 <=? code x) && (code x <=? 122)) || ((65 <=? code x) && (code x <=? 90)) ||
                      ((48 <=? code x) && (code x <=? 57)) || (code x =? 95) || (code x =? 46)) r
  | "" => false
  end.
Definition UpdateConfig (admin : AdminUser) (key : string) (body : option string) (ip : string) : prog (answer unit) :=
  if decide (key = "") then Ret (Refused 400 "missing_key")
  else if negb (configKeyPattern key) then Ret (Refused 400 "invalid_key_format")
  else match body with
  | None => Ret (Refused 400 "invalid_request")
  | Some v =>
      r <- call (SAdmin (λ _ d, (Ok tt, ConfigSet key v d))) ;;
      match r with
      | Err _ => Ret (Refused 500 "internal_error")
      | Ok _ => log_event "admin_config_change" (AID admin) "" ip key ;;; Ret (Replied tt)
      end
  end.
Definition DeleteConfig (admin : AdminUser) (key ip : string) : prog (answer unit) :=
  if decide (key = "") then Ret (Refused 400 "missing_key")
  else
    r <- call (SAdmin (λ _ d, (Ok tt, ConfigDelete key d))) ;;
    match r with
    | Err _ => Ret (Refused 500 "internal_error")
    | Ok _ => log_event "admin_config_change" (AID admin) "" ip key ;;; Ret (Replied tt)
    end.
End admin.
