(* ===== verification/Race.v ===== *)
(** * Race: rotation under any interleaving

    Requests run concurrently: each statement of [Effects] is atomic, the
    bodies are not.  This file proves that no schedule of refreshes, logins,
    second-factor completions and logouts, with any faults, any reaping and any
    operator action in between, leaves a family with two live refresh tokens.

    The argument is the classical one for a compare-and-set: a thread that wins
    [MarkUsed] holds the family's ticket until it inserts the successor.
    [safe] checks a program against that discipline, statement by statement;
    the invariant counts live rows and outstanding tickets together.  Entropy
    is assumed not to repeat a value it already returned ([unrepeated]). *)
From S2P Require Import Prelude GoStd Cache Crypto Model TokenStore TokenStoreFacts UserStore Effects TokenService Lockout Session Login.
From stdpp Require Import gmap.
From Stdlib Require Import Ascii.
Open Scope string_scope.
Open Scope Z_scope.
Open Scope prog_scope.

(** ** Live rows *)
Definition live_row (f : string) (r : row) : bool :=
  of_family f r && negb (used r) && negb (revoked r).
Definition live (f : string) (d : DB) : nat := length (filter (λ r, live_row f r = true) (tokens d)).

(** A store step that adds no row and revives none. *)
Definition quiet (d d' : DB) : Prop :=
  store_inv d' ∧ (∀ f, live f d' ≤ live f d)%nat ∧
  ∀ r', r' ∈ tokens d' → ∃ r, r ∈ tokens d ∧ id r' = id r ∧ family_id r' = family_id r.

Lemma filter_map_count (p q : row → bool) (g : row → row) (l : list row) :
  (∀ r, r ∈ l → p (g r) = true → p r = true ∧ q r = false) →
  (∀ r, r ∈ l → q r = true → p r = true) →
  (length (filter (λ r, p r = true) (g <$> l)) + length (filter (λ r, q r = true) l)
   ≤ length (filter (λ r, p r = true) l))%nat.
Proof.
  induction l as [|r l IH]; intros H1 H2; [done|].
  assert (IH' := IH ltac:(intros; apply H1; [by right|done]) ltac:(intros; apply H2; [by right|done])).
  specialize (H1 r (list_elem_of_here _ _)). specialize (H2 r (list_elem_of_here _ _)).
  rewrite fmap_cons, !filter_cons.
  destruct (p (g r)) eqn:E1; [destruct (H1 eq_refl) as [E2 E3]; rewrite E2, E3|destruct (q r) eqn:E3;
    [rewrite (H2 eq_refl)|destruct (p r)]];
    repeat first [rewrite decide_True by done | rewrite decide_False by done]; cbn; lia.
Qed.

Lemma live_update p g d f :
  (∀ r, live_row f (g r) = true → live_row f r = true) →
  (live f (update p g d) ≤ live f d)%nat.
Proof.
  intros Hg. unfold live. cbn [update with_tokens tokens].
  pose proof (filter_map_count (live_row f) (λ _, false) (λ r, if p r then g r else r) (tokens d)) as Hc.
  etrans; [apply Nat.le_add_r|apply Hc; [|done]].
  intros r _ Hr. split; [|done]. destruct (p r); auto.
Qed.

Lemma live_set_used f r : live_row f (set_used r) = false.
Proof. unfold live_row. cbn. by rewrite andb_false_r. Qed.
Lemma live_set_revoked f r : live_row f (set_revoked r) = false.
Proof. unfold live_row. cbn. by rewrite andb_false_r. Qed.

Lemma live_delete p d f : (live f (delete_where p d) ≤ live f d)%nat.
Proof.
  unfold live. cbn. apply sublist_length. induction (tokens d) as [|r l IH]; [done|].
  rewrite (filter_cons _ r l). case_decide; rewrite ?filter_cons; repeat case_decide;
    try done; by constructor.
Qed.

Lemma live_reap n batch victim total d f :
  (live f (reap_loop n batch victim total d).2 ≤ live f d)%nat.
Proof.
  revert total d. induction n as [|n IH]; intros total d; [done|]. cbn [reap_loop]. unfold reap_batch.
  case_match; [apply live_delete|]. etrans; [apply IH|apply live_delete].
Qed.

(** Every store operation but an insert is quiet. *)
Lemma store_exec_quiet now o d :
  tokens_of_op o = None → store_inv d → quiet d (store_exec now o d).
Proof.
  intros Ho Hi. split_and!; [by apply store_exec_inv| |].
  - intros f. destruct o; cbn [store_exec]; try done;
      try (apply live_update; intros r; rewrite ?live_set_used, ?live_set_revoked; done);
      first [apply live_delete | apply live_reap].
  - intros r' Hr'. destruct (store_exec_rows _ _ _ _ Hr') as [(r & Hr & Ha)|(t & Ht & _)]; [|congruence].
    exists r. split; [done|]. by destruct Ha as [->|[->| ->]].
Qed.

Lemma quiet_refl d : store_inv d → quiet d d.
Proof. intros Hi. split_and!; [done|done|]. intros r Hr. by exists r. Qed.

Lemma quiet_tokens d d' : tokens d' = tokens d → store_inv d → quiet d d'.
Proof.
  intros E Hi. unfold quiet, store_inv, live in *. rewrite E. split_and!; [apply Hi..|done|].
  intros r Hr. by exists r.
Qed.

(** Winning the compare-and-set takes a live row out of its family. *)
Lemma markused_takes i f d :
  (∀ r, r ∈ tokens d → id r = i → family_id r = f) → (MarkUsed i d).1 = true →
  (S (live f (MarkUsed i d).2) ≤ live f d)%nat.
Proof.
  intros Hf. unfold MarkUsed. cbn [fst snd]. intros Hn%Nat.eqb_eq. unfold affected in Hn.
  unfold live. cbn [update with_tokens tokens].
  set (q := λ r, bool_decide (id r = i) && negb (used r) && negb (revoked r)) in *.
  pose proof (filter_map_count (live_row f) q (λ r, if q r then set_used r else r) (tokens d)) as Hc.
  change (length (filter (λ r, q r = true) (tokens d)) = 1%nat) in Hn.
  rewrite Hn, Nat.add_1_r in Hc. apply Hc.
  - intros r _ Hr. destruct (q r) eqn:Eq; [|done]. by rewrite live_set_used in Hr.
  - intros r Hr Hq. unfold q in Hq. bool_hyps. unfold live_row, of_family.
    rewrite bool_decide_true by (by apply Hf). by apply andb_true_iff; split; apply negb_true_iff.
Qed.

(** An insert adds at most one live row, in its own family. *)
Lemma create_live t d f :
  (live f (Create t d).2 ≤ live f d + (if decide (FamilyID t = f) then 1 else 0))%nat.
Proof.
  destruct (create_cases t d) as [->|(_ & -> & _)]; [lia|]. unfold live. cbn [with_tokens tokens].
  rewrite filter_app, length_app. apply Nat.add_le_mono_l. rewrite filter_cons, filter_nil.
  unfold live_row, of_family, insert_row at 1. cbn.
  destruct (decide (FamilyID t = f)) as [E|E].
  - destruct (decide _); cbn; lia.
  - rewrite (bool_decide_false _ E). cbn. rewrite decide_False by done. done.
Qed.

Lemma create_rows t d r' :
  r' ∈ tokens (Create t d).2 → r' ∈ tokens d ∨ (id r' = TID t ∧ family_id r' = FamilyID t).
Proof.
  destruct (create_cases t d) as [->|(_ & -> & _)]; [by left|].
  cbn. intros [?| ->%list_elem_of_singleton]%elem_of_app; [by left|by right].
Qed.

Lemma create_inv t d : store_inv d → store_inv (Create t d).2.
Proof. apply (store_exec_inv 0 (OpCreate t)). Qed.

Lemma live_no_rows f d : (∀ r, r ∈ tokens d → family_id r ≠ f) → live f d = 0%nat.
Proof.
  intros Hn. unfold live. apply length_zero_iff_nil.
  destruct (filter (λ r, live_row f r = true) (tokens d)) as [|r l] eqn:E; [done|].
  assert (r ∈ filter (λ r, live_row f r = true) (tokens d)) as Hr by (rewrite E; by left).
  apply list_elem_of_filter in Hr as [Hl Hr]. unfold live_row, of_family in Hl.
  bool_hyps. by destruct (Hn r Hr).
Qed.

(** ** The ticket discipline *)
(** What a thread has established: families of token ids it looked up, the
    ticket it holds, the names it drew and has not used. *)
Record ghost := mkGhost {
  known : list (string * string);
  ticket : option string;
  names : gset string;
}.

(** The strings a thread's knowledge speaks of. *)
Definition spoken (g : ghost) : gset string :=
  list_to_set ((known g).*1) ∪ list_to_set ((known g).*2) ∪
  match ticket g with Some f => {[f]} | None => ∅ end.

Definition learn (t : RefreshToken) (g : ghost) : ghost :=
  mkGhost ((TID t, FamilyID t) :: known g) (ticket g) (names g).
Definition take_ticket (f : string) (g : ghost) : ghost := mkGhost (known g) (Some f) (names g).
Definition draw (x : string) (g : ghost) : ghost := mkGhost (known g) (ticket g) ({[x]} ∪ names g).
Definition spend_ticket (i : string) (g : ghost) : ghost := mkGhost (known g) None (names g ∖ {[i]}).
Definition use_names (i f : string) (g : ghost) : ghost :=
  mkGhost (known g) (ticket g) (names g ∖ {[i; f]}).

(** The conditions one statement puts on its thread, and what each answer
    leaves; only the five token statements and entropy matter. *)
Fixpoint safe {A} (g : ghost) (p : prog A) : Prop :=
  match p with
  | Ret _ => True
  | Do s k =>
      match s in stmt B return (B → prog A) → Prop with
      | SRandom => λ k, (∀ e, safe g (k (Err e))) ∧ ∀ x, safe (draw x g) (k (Ok x))
      | SGetByTokenHash h => λ k,
          (∀ e, safe g (k (Err e))) ∧ safe g (k (Ok None)) ∧
          ∀ t, safe (learn t g) (k (Ok (Some t)))
      | SMarkUsed i => λ k,
          (∀ e, safe g (k (Err e))) ∧ safe g (k (Ok false)) ∧
          ticket g = None ∧ ∃ f, (i, f) ∈ known g ∧ safe (take_ticket f g) (k (Ok true))
      | SCreate t => λ k,
          ticket g = Some (FamilyID t) ∧ TID t ∈ names g ∧ ∀ a, safe (spend_ticket (TID t) g) (k a)
      | SCreateWithinCap t cap => λ k,
          TID t ∈ names g ∧ FamilyID t ∈ names g ∧
          ∀ a, safe (use_names (TID t) (FamilyID t) g) (k a)
      | _ => λ k, ∀ a, safe g (k a)
      end k
  end.

(** ** The invariant *)
Definition tickets (f : string) (gs : list ghost) : nat :=
  length (filter (λ g, ticket g = Some f) gs).

Record consistent (gs : list ghost) (d : DB) (dr : gset string) : Prop := {
  cs_store : store_inv d;
  cs_count f : (live f d + tickets f gs ≤ 1)%nat;
  cs_rows r : r ∈ tokens d → id r ∈ dr ∧ family_id r ∈ dr;
  cs_spoken g : g ∈ gs → spoken g ⊆ dr ∧ names g ⊆ dr;
  cs_known g i f r : g ∈ gs → (i, f) ∈ known g → r ∈ tokens d → id r = i → family_id r = f;
  cs_unused g r : g ∈ gs → r ∈ tokens d → (id r ∉ names g) ∧ (family_id r ∉ names g);
  cs_apart g g' : g ∈ gs → g' ∈ gs → spoken g ## names g';
  cs_disjoint i j g g' : gs !! i = Some g → gs !! j = Some g' → i ≠ j → names g ## names g';
}.

(** Losing knowledge, tickets or names costs nothing. *)
Definition weaker (g g' : ghost) : Prop :=
  (∀ x, x ∈ known g' → x ∈ known g) ∧ (ticket g' = None ∨ ticket g' = ticket g) ∧ names g' ⊆ names g.

Lemma weaker_refl g : weaker g g.
Proof. split_and!; auto. Qed.

Lemma weaker_spoken g g' : weaker g g' → spoken g' ⊆ spoken g.
Proof.
  intros (Hk & Ht & _) x. unfold spoken. rewrite !elem_of_union, !elem_of_list_to_set, !list_elem_of_fmap.
  intros [[(y & -> & Hy)|(y & -> & Hy)]|Hx].
  - left. left. eauto.
  - left. right. eauto.
  - right. destruct Ht as [E|E]; rewrite E in Hx; [set_solver|done].
Qed.

Lemma tickets_weaker f gs j g g' :
  gs !! j = Some g → (ticket g' = None ∨ ticket g' = ticket g) →
  (tickets f (<[j := g']> gs) ≤ tickets f gs)%nat.
Proof.
  intros Hj Ht. unfold tickets. rewrite (insert_take_drop gs j g') by (by eapply lookup_lt_Some).
  rewrite <- (take_drop_middle gs j g Hj) at 3. rewrite !filter_app, !length_app, !filter_cons.
  destruct Ht as [->| ->]; repeat case_decide; cbn; try lia; done.
Qed.

Lemma apart_mono (A A' B B' : gset string) : A' ⊆ A → B' ⊆ B → A ## B → A' ## B'.
Proof. intros HA HB Hd x Hx Hy. apply (Hd x); [by apply HA|by apply HB]. Qed.

Lemma notin_mono (A A' : gset string) x : A' ⊆ A → x ∉ A → x ∉ A'.
Proof. intros HA Hx Hin. by apply Hx, HA. Qed.

Lemma consistent_quiet gs d d' dr dr' :
  consistent gs d dr → quiet d d' → dr ⊆ dr' → consistent gs d' dr'.
Proof.
  intros [Hs Hc Hr Hsp Hk Hu Ha Hd] (Hs' & Hl & Hrows) Hdr. split; try done.
  - intros f. specialize (Hl f). specialize (Hc f). lia.
  - intros r' Hr'. destruct (Hrows r' Hr') as (r & Hin & -> & ->). destruct (Hr r Hin). split; by apply Hdr.
  - intros g Hg. destruct (Hsp g Hg). split; by etrans.
  - intros g i f r' Hg Hin Hr' E. destruct (Hrows r' Hr') as (r & Hin' & E1 & ->).
    eapply Hk; eauto. congruence.
  - intros g r' Hg Hr'. destruct (Hrows r' Hr') as (r & Hin & -> & ->). by apply Hu.
Qed.

Lemma elem_of_replace {A} (gs : list A) j g' x : x ∈ <[j := g']> gs → x = g' ∨ x ∈ gs.
Proof.
  intros (i & Hi)%list_elem_of_lookup. apply list_lookup_insert_Some in Hi as [(_ & <- & _)|[_ Hi]];
    [by left|right]. by eapply list_elem_of_lookup_2.
Qed.

(** Replacing one thread's ghost: what must be known of the new one. *)
Lemma consistent_replace gs d dr j g g' :
  consistent gs d dr → gs !! j = Some g →
  (∀ f, (live f d + tickets f (<[j := g']> gs) ≤ 1)%nat) →
  spoken g' ⊆ dr → names g' ⊆ dr →
  (∀ i f r, (i, f) ∈ known g' → r ∈ tokens d → id r = i → family_id r = f) →
  (∀ r, r ∈ tokens d → (id r ∉ names g') ∧ (family_id r ∉ names g')) →
  spoken g' ## names g' →
  (∀ h, h ∈ gs → spoken g' ## names h ∧ spoken h ## names g') →
  (∀ i h, gs !! i = Some h → i ≠ j → names g' ## names h) →
  consistent (<[j := g']> gs) d dr.
Proof.
  intros [Hs Hc Hr Hsp Hk Hu Ha Hd] Hj Hcnt H1 H2 H3 H4 H5 H6 H7. split; try done.
  - intros h [->|Hh]%elem_of_replace; auto.
  - intros h i f r [->|Hh]%elem_of_replace; eauto.
  - intros h r [->|Hh]%elem_of_replace; eauto.
  - intros h h' [->|Hh]%elem_of_replace [->|Hh']%elem_of_replace; [done|by apply H6..|by apply Ha].
  - intros i1 i2 h h' Hi Hi' Hne.
    apply list_lookup_insert_Some in Hi. apply list_lookup_insert_Some in Hi'.
    destruct Hi as [(E1 & <- & _)|[Hn1 Hi]], Hi' as [(E2 & <- & _)|[Hn2 Hi']]; [congruence| | |by eapply Hd].
    + eapply H7; [done|congruence].
    + symmetry. eapply H7; [done|congruence].
Qed.

Lemma consistent_weaker gs d dr j g g' :
  consistent gs d dr → gs !! j = Some g → weaker g g' → consistent (<[j := g']> gs) d dr.
Proof.
  intros Hcs Hj Hw. pose proof (weaker_spoken _ _ Hw) as Hsp. destruct Hw as (Hk & Ht & Hn).
  pose proof (list_elem_of_lookup_2 _ _ _ Hj) as Hg.
  pose proof Hcs as [Hs Hc Hr Hsd Hkn Hu Ha Hd].
  eapply consistent_replace; [done|done|..].
  - intros f. pose proof (tickets_weaker f gs j g g' Hj Ht). specialize (Hc f). lia.
  - destruct (Hsd g Hg). by etrans.
  - destruct (Hsd g Hg). by etrans.
  - intros i f r Hi. by apply (Hkn g); auto.
  - intros r Hr'. destruct (Hu g r Hg Hr'). split; by eapply notin_mono.
  - by eapply apart_mono, (Ha g g Hg Hg).
  - intros h Hh. split; [eapply apart_mono, (Ha g h Hg Hh)|eapply apart_mono, (Ha h g Hh Hg)]; done.
  - intros i h Hi Hne. by eapply apart_mono, (Hd j i g h Hj Hi (not_eq_sym Hne)).
Qed.

Lemma tickets_same f gs j g g' :
  gs !! j = Some g → ticket g' = ticket g → tickets f (<[j := g']> gs) = tickets f gs.
Proof.
  intros Hj Ht. apply Nat.le_antisymm; [by eapply tickets_weaker; [|right]|].
  assert (Hj' : <[j := g']> gs !! j = Some g') by (apply list_lookup_insert_eq; by eapply lookup_lt_Some).
  rewrite <- (list_insert_id gs j g Hj) at 1. rewrite <- (list_insert_insert_eq gs j g g').
  eapply tickets_weaker; [done|by right].
Qed.

Lemma consistent_draw gs d dr j g x :
  consistent gs d dr → gs !! j = Some g → x ∉ dr →
  consistent (<[j := draw x g]> gs) d ({[x]} ∪ dr).
Proof.
  intros Hcs Hj Hx. pose proof (list_elem_of_lookup_2 _ _ _ Hj) as Hg.
  pose proof Hcs as [Hs Hc Hr Hsd Hkn Hu Ha Hd].
  assert (Hspk : ∀ h, h ∈ gs → x ∉ spoken h)
    by (intros h Hh; destruct (Hsd h Hh); by eapply notin_mono).
  assert (Hgrow : dr ⊆ {[x]} ∪ dr) by apply union_subseteq_r.
  eapply consistent_replace; [eapply consistent_quiet; [done|by apply quiet_refl|done]|done|..];
    cbn [names draw]; change (spoken (draw x g)) with (spoken g).
  - intros f. rewrite (tickets_same f gs j g) by done. apply Hc.
  - destruct (Hsd g Hg). by etrans.
  - destruct (Hsd g Hg). by apply union_mono_l.
  - intros i f r Hi. by apply (Hkn g).
  - intros r Hr'. destruct (Hu g r Hg Hr'), (Hr r Hr').
    rewrite !not_elem_of_union, !not_elem_of_singleton. split_and!; try done; congruence.
  - apply disjoint_union_r. split; [by apply disjoint_singleton_r, Hspk|by apply Ha].
  - intros h Hh. split; [by apply Ha|].
    apply disjoint_union_r. split; [by apply disjoint_singleton_r, Hspk|by apply Ha].
  - intros i h Hi Hne. apply disjoint_union_l. split; [|by apply (Hd j i g h)].
    apply disjoint_singleton_l. destruct (Hsd h (list_elem_of_lookup_2 _ _ _ Hi)). by eapply notin_mono.
Qed.

Lemma consistent_learn gs d dr j g t r :
  consistent gs d dr → gs !! j = Some g → r ∈ tokens d → id r = TID t → family_id r = FamilyID t →
  consistent (<[j := learn t g]> gs) d dr.
Proof.
  intros Hcs Hj Hrow Ei Ef. pose proof (list_elem_of_lookup_2 _ _ _ Hj) as Hg.
  pose proof Hcs as [Hs Hc Hr Hsd Hkn Hu Ha Hd].
  assert (Esp : spoken (learn t g) = {[TID t]} ∪ {[FamilyID t]} ∪ spoken g).
  { apply set_eq. intros x. unfold spoken. cbn.
    rewrite !elem_of_union, !elem_of_singleton. tauto. }
  destruct (Hr r Hrow) as [Hr1 Hr2]. rewrite Ei in Hr1. rewrite Ef in Hr2.
  assert (Hfree : ∀ h, h ∈ gs → (TID t ∉ names h) ∧ (FamilyID t ∉ names h)).
  { intros h Hh. rewrite <- Ei, <- Ef. by apply Hu. }
  assert (Hnew : ∀ h, h ∈ gs → {[TID t]} ∪ {[FamilyID t]} ∪ spoken g ## names h).
  { intros h Hh. destruct (Hfree h Hh). rewrite !disjoint_union_l, !disjoint_singleton_l.
    split_and!; [done|done|by apply Ha]. }
  eapply consistent_replace; [done|done|..]; rewrite ?Esp; cbn [names learn].
  - intros f. rewrite (tickets_same f gs j g) by done. apply Hc.
  - destruct (Hsd g Hg). apply union_least; [|done].
    apply union_least; by apply singleton_subseteq_l.
  - by destruct (Hsd g Hg).
  - intros i f r' [[= -> ->]|Hin]%elem_of_cons Hr' E; [|by apply (Hkn g i)].
    destruct Hs as [Hnd _]. rewrite <- Ef. f_equal. eapply fmap_id_inj; eauto. congruence.
  - intros r' Hr'. by apply Hu.
  - by apply Hnew.
  - intros h Hh. split; [by apply Hnew|by apply Ha].
  - intros i h Hi Hne. by apply (Hd j i g h).
Qed.

Lemma tickets_take f gs j g :
  gs !! j = Some g → ticket g = None → tickets f (<[j := take_ticket f g]> gs) = S (tickets f gs).
Proof.
  intros Hj Ht. unfold tickets. rewrite (insert_take_drop gs j _) by (by eapply lookup_lt_Some).
  rewrite <- (take_drop_middle gs j g Hj) at 3. rewrite !filter_app, !length_app, !filter_cons.
  rewrite decide_True by done. rewrite decide_False by (rewrite Ht; done). cbn. lia.
Qed.

Lemma tickets_take_ne f f' gs j g :
  gs !! j = Some g → f ≠ f' → (tickets f' (<[j := take_ticket f g]> gs) ≤ tickets f' gs)%nat.
Proof.
  intros Hj Hne. unfold tickets. rewrite (insert_take_drop gs j _) by (by eapply lookup_lt_Some).
  rewrite <- (take_drop_middle gs j g Hj) at 3. rewrite !filter_app, !length_app, !filter_cons.
  rewrite (decide_False (P := ticket (take_ticket f g) = Some f')) by (cbn; congruence).
  case_decide; cbn; lia.
Qed.

Lemma consistent_take gs d dr j g i f :
  consistent gs d dr → gs !! j = Some g → ticket g = None → (i, f) ∈ known g →
  (live f d + tickets f gs)%nat = 0%nat → consistent (<[j := take_ticket f g]> gs) d dr.
Proof.
  intros Hcs Hj Ht Hin Hz. pose proof (list_elem_of_lookup_2 _ _ _ Hj) as Hg.
  pose proof Hcs as [Hs Hc Hr Hsd Hkn Hu Ha Hd].
  assert (Hf : f ∈ spoken g).
  { unfold spoken. apply elem_of_union_l, elem_of_union_r, elem_of_list_to_set.
    apply list_elem_of_fmap. by exists (i, f). }
  assert (Esp : spoken (take_ticket f g) ⊆ spoken g).
  { unfold spoken at 1. cbn. apply union_least; [apply union_subseteq_l|]. by apply singleton_subseteq_l. }
  eapply consistent_replace; [done|done|..]; cbn [names take_ticket].
  - intros f'. destruct (decide (f = f')) as [<-|Hne]; [rewrite tickets_take by done; lia|].
    pose proof (tickets_take_ne f f' gs j g Hj Hne). specialize (Hc f'). lia.
  - destruct (Hsd g Hg). by etrans.
  - by destruct (Hsd g Hg).
  - intros i' f' r Hi. by apply (Hkn g).
  - intros r Hr'. by apply Hu.
  - by eapply apart_mono, (Ha g g Hg Hg).
  - intros h Hh. split; [by eapply apart_mono, (Ha g h Hg Hh)|by apply Ha].
  - intros i' h Hi Hne. by apply (Hd j i' g h).
Qed.

Lemma consistent_insert gs d dr t :
  consistent gs d dr → TID t ∈ dr → FamilyID t ∈ dr →
  (∀ g, g ∈ gs → (TID t ∉ names g) ∧ (FamilyID t ∉ names g) ∧ (TID t ∉ spoken g)) →
  (live (FamilyID t) d + tickets (FamilyID t) gs)%nat = 0%nat →
  consistent gs (Create t d).2 dr.
Proof.
  intros Hcs Hi Hf Hfree Hz. pose proof Hcs as [Hs Hc Hr Hsd Hkn Hu Ha Hd]. split; try done.
  - by apply create_inv.
  - intros f. pose proof (create_live t d f) as Hl. specialize (Hc f). case_decide; [subst|]; lia.
  - intros r' [Hr'|[-> ->]]%create_rows; [by apply Hr|done].
  - intros g i f r' Hg Hin [Hr'|[-> ->]]%create_rows E; [by apply (Hkn g i)|]. subst i.
    destruct (Hfree g Hg) as (_ & _ & Hn). exfalso. apply Hn. unfold spoken.
    apply elem_of_union_l, elem_of_union_l, elem_of_list_to_set, list_elem_of_fmap. by exists (TID t, f).
  - intros g r' Hg [Hr'|[-> ->]]%create_rows; [by apply Hu|]. destruct (Hfree g Hg) as (? & ? & _). done.
Qed.

(** A drawn name belongs to one thread and to nothing else. *)
Lemma name_private gs d dr j g x g' :
  consistent gs d dr → gs !! j = Some g → weaker g g' → x ∈ names g → x ∉ names g' →
  ∀ h, h ∈ <[j := g']> gs → (x ∉ names h) ∧ (x ∉ spoken h).
Proof.
  intros [Hs Hc Hr Hsd Hkn Hu Ha Hd] Hj Hw Hx Hx' h (i & Hi)%list_elem_of_lookup.
  pose proof (list_elem_of_lookup_2 _ _ _ Hj) as Hg.
  apply list_lookup_insert_Some in Hi as [(_ & <- & _)|[Hne Hi]].
  - split; [done|]. intros Hin%(weaker_spoken _ _ Hw). by apply (Ha g g Hg Hg x).
  - pose proof (list_elem_of_lookup_2 _ _ _ Hi) as Hh. split.
    + intros Hin. by apply (Hd j i g h Hj Hi Hne x).
    + intros Hin. by apply (Ha h g Hh Hg x).
Qed.

Lemma tickets_none f gs : (∀ g, g ∈ gs → f ∉ spoken g) → tickets f gs = 0%nat.
Proof.
  intros Hn. unfold tickets. apply length_zero_iff_nil.
  destruct (filter (λ g, ticket g = Some f) gs) as [|g l] eqn:E; [done|].
  assert (g ∈ filter (λ g, ticket g = Some f) gs) as Hg by (rewrite E; by left).
  apply list_elem_of_filter in Hg as [Ht Hg]. destruct (Hn g Hg).
  unfold spoken. rewrite Ht. apply elem_of_union_r. by apply elem_of_singleton.
Qed.

Lemma tickets_hold f gs j g : gs !! j = Some g → ticket g = Some f → (1 ≤ tickets f gs)%nat.
Proof.
  intros Hj Ht. unfold tickets.
  assert (g ∈ filter (λ g, ticket g = Some f) gs) as Hg
    by (apply list_elem_of_filter; split; [done|by eapply list_elem_of_lookup_2]).
  destruct (filter _ gs); [by apply elem_of_nil in Hg|cbn; lia].
Qed.

Lemma tickets_spend f gs j g g' :
  gs !! j = Some g → ticket g = Some f → ticket g' = None →
  S (tickets f (<[j := g']> gs)) = tickets f gs.
Proof.
  intros Hj Ht Ht'. unfold tickets. rewrite (insert_take_drop gs j _) by (by eapply lookup_lt_Some).
  rewrite <- (take_drop_middle gs j g Hj) at 3. rewrite !filter_app, !length_app, !filter_cons.
  rewrite (decide_False (P := ticket g' = Some f)) by (rewrite Ht'; done).
  rewrite (decide_True (P := ticket g = Some f)) by done. cbn. lia.
Qed.

(** ** Statements against the invariant *)
Section steps.
Context {C : Type} `{CacheOps C} `{Primitives}.
Implicit Types w : World C.

(** The statements that neither insert, nor win, nor draw. *)
Definition neutral {B} (s : stmt B) : bool :=
  match s with
  | SRandom | SMarkUsed _ | SCreate _ | SCreateWithinCap _ _ => false
  | _ => true
  end.

Lemma on_db_quiet {A} c (f : DB → res repoErr A * DB) w :
  store_inv (db w) → quiet (db w) (f (db w)).2 → quiet (db w) (db (on_db c f w).2).
Proof.
  intros Hi Hq. unfold on_db. destruct (f (db w)) as [r d]. cbn in Hq.
  destruct (c_db c); cbn; [done|by apply quiet_refl|done].
Qed.

Lemma on_cache_db {A} c (f : Z → C → res cacheErr A * C) w :
  db (on_cache c f w).2 = db w ∧ drawn (on_cache c f w).2 = drawn w.
Proof. unfold on_cache. destruct (f _ _). by destruct (c_cache c). Qed.

Lemma on_db_drawn {A} c (f : DB → res repoErr A * DB) w : drawn (on_db c f w).2 = drawn w.
Proof. unfold on_db. destruct (f _). by destruct (c_db c). Qed.

Lemma on_factors_db {A} c (f : FactorStore.Factors → res repoErr A * FactorStore.Factors) w :
  db (on_factors c f w).2 = db w ∧ drawn (on_factors c f w).2 = drawn w.
Proof. unfold on_factors. destruct (f _). by destruct (c_db c). Qed.

Lemma faulty_keeps {E A} f (e : E) w (r : res E A * World C) :
  db r.2 = db w → drawn r.2 = drawn w → db (faulty f e w r).2 = db w ∧ drawn (faulty f e w r).2 = drawn w.
Proof. by destruct f. Qed.

Lemma perform_neutral c {B} (s : stmt B) w :
  neutral s = true → store_inv (db w) →
  quiet (db w) (db (perform c s w).2) ∧ drawn (perform c s w).2 = drawn w.
Proof.
  intros Hn Hi. assert (Hi' : store_inv (db (tick c w))) by done.
  destruct s; cbn in Hn; try discriminate Hn; cbn [perform]; unfold rate_increment;
    try (rewrite on_db_drawn; split; [|done];
         match goal with |- quiet _ (db (on_db _ ?f _).2) =>
           apply (on_db_quiet c f (tick c w)); [done|] end;
         first [by apply quiet_refl | by apply quiet_tokens
               | by apply (store_exec_quiet 0 (OpRevokeFamily _))
               | by apply (store_exec_quiet 0 (OpRevokeUser _))
               | by apply (store_exec_quiet 0 OpRevokeAll)
               | by apply (store_exec_quiet 0 (OpDeleteUser _))
               | case_match; by apply quiet_tokens]);
    match goal with
    | |- context [on_cache ?c ?f ?w] => destruct (on_cache_db c f w) as [-> ->]
    | |- context [on_factors ?c ?f ?w] => destruct (on_factors_db c f w) as [-> ->]
    | _ => idtac
    end;
    match goal with
    | |- context [faulty ?f ?e ?w ?r] =>
        destruct (faulty_keeps f e w r) as [-> ->];
        [repeat case_match; simplify_eq/=; done|repeat case_match; simplify_eq/=; done|]
    | _ => idtac
    end; try (split; [by apply quiet_refl|done]).
  all: repeat case_match; (split; [by apply quiet_refl|done]).
Qed.

(** A ghost that performed a statement: its program goes on safely and the
    whole stays consistent. *)
Definition goes_on {A} (gs : list ghost) (j : nat) (p : prog A) (w' : World C) : Prop :=
  ∃ g', safe g' p ∧ consistent (<[j := g']> gs) (db w') (drawn w').

Lemma goes_on_same {A} gs j g (p : prog A) w' :
  gs !! j = Some g → safe g p → consistent gs (db w') (drawn w') → goes_on gs j p w'.
Proof. intros Hj Hs Hc. exists g. by rewrite list_insert_id. Qed.

Lemma step_neutral {A B} gs j g c (s : stmt B) (k : B → prog A) w :
  consistent gs (db w) (drawn w) → gs !! j = Some g → neutral s = true →
  safe g (k (perform c s w).1) → goes_on gs j (k (perform c s w).1) (perform c s w).2.
Proof.
  intros Hcs Hj Hn Hs. destruct (perform_neutral c s w Hn (cs_store _ _ _ Hcs)) as [Hq Hd].
  eapply goes_on_same; [done|done|]. rewrite Hd. by eapply consistent_quiet.
Qed.

Lemma step_random {A} gs j g c (k : res authErr string → prog A) w :
  consistent gs (db w) (drawn w) → gs !! j = Some g → c_rand c ∉ drawn w →
  safe g (Do SRandom k) → goes_on gs j (k (perform c SRandom w).1) (perform c SRandom w).2.
Proof.
  intros Hcs Hj Hx [Herr Hok]. cbn. destruct (c_dry c); cbn.
  - by eapply goes_on_same.
  - exists (draw (c_rand c) g). split; [done|]. by apply consistent_draw.
Qed.

Lemma step_lookup {A} gs j g c h (k : res repoErr (option RefreshToken) → prog A) w :
  consistent gs (db w) (drawn w) → gs !! j = Some g →
  safe g (Do (SGetByTokenHash h) k) →
  goes_on gs j (k (perform c (SGetByTokenHash h) w).1) (perform c (SGetByTokenHash h) w).2.
Proof.
  intros Hcs Hj (Herr & Hnone & Hsome). cbn [perform]. unfold on_db.
  destruct (c_db c); cbn [faulty fst snd]; [|by eapply goes_on_same..].
  destruct (GetByTokenHash h (db (tick c w))) as [t|] eqn:E; [|by eapply goes_on_same].
  exists (learn t g). split; [done|]. unfold GetByTokenHash in E.
  destruct (filter _ (tokens (db (tick c w)))) as [|r l] eqn:Ef; [done|]. cbn in E. simplify_eq.
  assert (r ∈ filter (λ r, token_hash r = h) (tokens (db w))) as Hr.
  { change (db w) with (db (tick c w)). rewrite Ef. by left. }
  apply list_elem_of_filter in Hr as [_ Hr]. by eapply (consistent_learn _ _ _ _ _ _ r).
Qed.

Lemma step_markused {A} gs j g c i (k : res repoErr bool → prog A) w :
  consistent gs (db w) (drawn w) → gs !! j = Some g → safe g (Do (SMarkUsed i) k) →
  goes_on gs j (k (perform c (SMarkUsed i) w).1) (perform c (SMarkUsed i) w).2.
Proof.
  intros Hcs Hj (Herr & Hfalse & Ht & f & Hin & Htrue).
  pose proof (store_exec_quiet 0 (OpMarkUsed i) (db w) eq_refl (cs_store _ _ _ Hcs)) as Hq.
  cbn [store_exec] in Hq. cbn [perform]. unfold on_db. change (db (tick c w)) with (db w).
  destruct (MarkUsed i (db w)) as [b d] eqn:E. cbn [snd] in Hq.
  assert (Hcs' : consistent gs d (drawn w)) by (by eapply consistent_quiet).
  destruct (c_db c); cbn [faulty fst snd]; [|by eapply goes_on_same..].
  destruct b; [|by eapply goes_on_same].
  exists (take_ticket f g). split; [done|]. eapply consistent_take; try done.
  assert (Hl : (S (live f d) ≤ live f (db w))%nat).
  { change d with (true, d).2. rewrite <- E. apply markused_takes; [|by rewrite E].
    intros r Hr Hid. eapply (cs_known _ _ _ Hcs); [|done|done|done]. by eapply list_elem_of_lookup_2. }
  pose proof (cs_count _ _ _ Hcs f). cbn. lia.
Qed.

(** An insert by a thread that gave up what entitled it. *)
Lemma step_insert {A} gs j g g' c t (f : DB → res repoErr unit * DB) (p : res repoErr unit → prog A) w :
  consistent gs (db w) (drawn w) → gs !! j = Some g → weaker g g' →
  TID t ∈ names g → TID t ∉ names g' → FamilyID t ∈ drawn w →
  (∀ h, h ∈ <[j := g']> gs → FamilyID t ∉ names h) →
  (live (FamilyID t) (db w) + tickets (FamilyID t) (<[j := g']> gs))%nat = 0%nat →
  ((f (db w)).2 = db w ∨ (f (db w)).2 = (Create t (db w)).2) → (∀ a, safe g' (p a)) →
  goes_on gs j (p (on_db c f w).1) (on_db c f w).2.
Proof.
  intros Hcs Hj Hw Hi Hi' Hf Hfam Hz Hcase Hp. exists g'. split; [done|]. rewrite on_db_drawn.
  assert (Hcs' : consistent (<[j := g']> gs) (db w) (drawn w)) by (by eapply consistent_weaker).
  assert (Hdr : TID t ∈ drawn w).
  { destruct (cs_spoken _ _ _ Hcs g) as [_ Hn]; [by eapply list_elem_of_lookup_2|]. by apply Hn. }
  assert (Hins : consistent (<[j := g']> gs) (f (db w)).2 (drawn w)).
  { destruct Hcase as [->| ->]; [done|]. apply consistent_insert; try done.
    intros h Hh. destruct (name_private gs (db w) (drawn w) j g (TID t) g' Hcs Hj Hw Hi Hi' h Hh).
    split_and!; [done|by apply Hfam|done]. }
  unfold on_db. destruct (f (db w)) as [r d]. by destruct (c_db c).
Qed.

Lemma step_create {A} gs j g c t (k : res repoErr unit → prog A) w :
  consistent gs (db w) (drawn w) → gs !! j = Some g → safe g (Do (SCreate t) k) →
  goes_on gs j (k (perform c (SCreate t) w).1) (perform c (SCreate t) w).2.
Proof.
  intros Hcs Hj (Ht & Hn & Hk).
  assert (Hw : weaker g (spend_ticket (TID t) g)).
  { split_and!; [done|by left|]. apply subseteq_difference_l. done. }
  pose proof (list_elem_of_lookup_2 _ _ _ Hj) as Hg.
  assert (Hsp : FamilyID t ∈ spoken g).
  { unfold spoken. rewrite Ht. apply elem_of_union_r. by apply elem_of_singleton. }
  apply (step_insert gs j g (spend_ticket (TID t) g) c t (Create t) k (tick c w)); try done.
  - cbn. apply not_elem_of_difference. right. by apply elem_of_singleton.
  - destruct (cs_spoken _ _ _ Hcs g Hg) as [Hs _]. by apply Hs.
  - intros h Hh Hin. assert (Hh' : h = spend_ticket (TID t) g ∨ h ∈ gs) by (by eapply elem_of_replace).
    destruct Hh' as [->|Hh'].
    + apply (cs_apart _ _ _ Hcs g g Hg Hg (FamilyID t)); [done|]. by destruct Hw as (_ & _ & Hsub); apply Hsub.
    + by apply (cs_apart _ _ _ Hcs g h Hg Hh' (FamilyID t)).
  - pose proof (tickets_spend (FamilyID t) gs j g (spend_ticket (TID t) g) Hj Ht eq_refl).
    pose proof (cs_count _ _ _ Hcs (FamilyID t)). cbn. lia.
  - by right.
Qed.

Lemma step_create_cap {A} gs j g c t cap (k : res repoErr unit → prog A) w :
  consistent gs (db w) (drawn w) → gs !! j = Some g → safe g (Do (SCreateWithinCap t cap) k) →
  goes_on gs j (k (perform c (SCreateWithinCap t cap) w).1) (perform c (SCreateWithinCap t cap) w).2.
Proof.
  intros Hcs Hj (Hi & Hf & Hk). pose proof (list_elem_of_lookup_2 _ _ _ Hj) as Hg.
  set (g' := use_names (TID t) (FamilyID t) g).
  assert (Hw : weaker g g'). { split_and!; [done|by right|]. by apply subseteq_difference_l. }
  assert (Hgone : ∀ x, x = TID t ∨ x = FamilyID t → x ∉ names g').
  { intros x Hx. cbn. apply not_elem_of_difference. right. rewrite elem_of_union, !elem_of_singleton. tauto. }
  pose proof (name_private gs (db w) (drawn w) j g (FamilyID t) g' Hcs Hj Hw Hf
    (Hgone _ (or_intror eq_refl))) as Hpriv.
  apply (step_insert gs j g g' c t (CreateWithinCap (clock (tick c w)) t cap) k (tick c w)); try done.
  - apply Hgone. by left.
  - destruct (cs_spoken _ _ _ Hcs g Hg) as [_ Hs]. by apply Hs.
  - intros h Hh. by apply Hpriv.
  - change (db (tick c w)) with (db w). rewrite live_no_rows.
    + rewrite tickets_none; [done|]. intros h Hh. by apply Hpriv.
    + intros r Hr E. destruct (cs_unused _ _ _ Hcs g r Hg Hr) as [_ Hu]. apply Hu. by rewrite E.
  - destruct (createcap_cases (clock (tick c w)) t cap (db (tick c w))) as [->| ->]; auto.
Qed.

Lemma step_safe {A B} gs j g c (s : stmt B) (k : B → prog A) w :
  consistent gs (db w) (drawn w) → gs !! j = Some g → c_rand c ∉ drawn w →
  safe g (Do s k) → goes_on gs j (k (perform c s w).1) (perform c s w).2.
Proof.
  intros Hcs Hj Hx Hs.
  destruct s; try (eapply step_neutral; [done|done|reflexivity|apply Hs]).
  - by apply (step_random gs j g).
  - by apply (step_create gs j g).
  - by apply (step_create_cap gs j g).
  - by apply (step_lookup gs j g).
  - by apply (step_markused gs j g).
Qed.
End steps.

(** ** The service's programs keep the discipline *)
(** Statements that need no entitlement. *)
Definition plain_stmt {B} (s : stmt B) : bool :=
  match s with
  | SMarkUsed _ | SCreate _ | SCreateWithinCap _ _ | SGetByTokenHash _ => false
  | _ => true
  end.

Fixpoint plain {A} (p : prog A) : Prop :=
  match p with Ret _ => True | Do s k => plain_stmt s = true ∧ ∀ a, plain (k a) end.

(** A thread that only drew names since. *)
Definition grown (g g' : ghost) : Prop :=
  known g' = known g ∧ ticket g' = ticket g ∧ names g ⊆ names g'.

Lemma grown_refl g : grown g g.
Proof. by split_and!. Qed.
Lemma grown_trans g1 g2 g3 : grown g1 g2 → grown g2 g3 → grown g1 g3.
Proof. intros (?&?&?) (?&?&?). split_and!; [congruence|congruence|by etrans]. Qed.
Lemma grown_draw x g : grown g (draw x g).
Proof. split_and!; [done|done|apply union_subseteq_r]. Qed.
#[local] Hint Resolve grown_refl grown_draw : vault.

Lemma safe_bind_plain {A B} g (p : prog A) (f : A → prog B) :
  plain p → (∀ a g', grown g g' → safe g' (f a)) → safe g (bind p f).
Proof.
  revert g. induction p as [a|B' s k IH]; intros g Hp Hf; cbn [bind].
  { apply Hf, grown_refl. }
  destruct Hp as [Hs Hk].
  assert (Hrec : ∀ a g', grown g g' → safe g' (bind (k a) f)).
  { intros a g' Hg. apply IH; [done|]. intros a' g'' Hg'. eapply Hf, grown_trans; eauto. }
  destruct s; cbn in Hs; try discriminate Hs; cbn [safe]; intros; try (apply Hrec, grown_refl).
  split; intros; apply Hrec; auto with vault.
Qed.

Lemma plain_safe {A} g (p : prog A) : plain p → safe g p.
Proof.
  revert g. induction p as [a|B' s k IH]; intros g; [done|]. intros [Hs Hk].
  destruct s; cbn in Hs; try discriminate Hs; cbn [safe]; auto.
Qed.

Lemma plain_bind {A B} (p : prog A) (f : A → prog B) :
  plain p → (∀ a, plain (f a)) → plain (bind p f).
Proof. intros Hp Hf. induction p as [a|B' s k IH]; cbn; [done|]. destruct Hp. split; auto. Qed.

Lemma plain_call {B} (s : stmt B) : plain_stmt s = true → plain (call s).
Proof. intros Hs. by split. Qed.

Create HintDb plain.

(** Walk a program: binds, calls, branches. *)
Ltac plain_step :=
  match goal with
  | |- plain (Ret _) => exact I
  | |- plain (call _) => by apply plain_call
  | |- plain (Do _ _) => split; [done|intros ?]
  | |- plain (bind _ _) => apply plain_bind; [|intros ?]
  | |- plain (match ?x with _ => _ end) => destruct x
  | |- plain (let _ := _ in _) => cbn zeta
  | |- _ => solve [auto 2 with plain nocore]
  end.
Ltac plain_prog := intros; repeat plain_step.

Section programs.
Context `{Primitives}.
Implicit Types s : AuthService.

Lemma plain_log k u c ip r : plain (log_event k u c ip r).
Proof. by split. Qed.
Lemma plain_metric s n : plain (metric s n).
Proof. unfold metric. plain_prog. Qed.
#[local] Hint Resolve plain_log plain_metric : plain.

Lemma plain_count k : plain (cachedCount k).
Proof. unfold cachedCount. plain_prog. Qed.
#[local] Hint Resolve plain_count : plain.
Lemma plain_stored u : plain (lockedByStoredCount u).
Proof. unfold lockedByStoredCount. plain_prog. Qed.
Lemma plain_unwritable : plain lockoutCountersUnwritable.
Proof. unfold lockoutCountersUnwritable. plain_prog. Qed.
Lemma plain_generation u : plain (lockoutGeneration u).
Proof. unfold lockoutGeneration. plain_prog. Qed.
Lemma plain_note : plain noteLockoutCounterRefused.
Proof. unfold noteLockoutCounterRefused. plain_prog. Qed.
#[local] Hint Resolve plain_stored plain_unwritable plain_generation plain_note : plain.
Lemma plain_locked s u ip : plain (isAccountLocked s u ip).
Proof. unfold isAccountLocked. plain_prog. Qed.
Lemma plain_record s u ip : plain (recordFailedAttempt s u ip).
Proof. unfold recordFailedAttempt. plain_prog. Qed.
Lemma plain_clear s u ip : plain (clearLockout s u ip).
Proof. unfold clearLockout. plain_prog. Qed.
Lemma plain_throttle s e : plain (throttleLogin s e).
Proof. unfold throttleLogin. plain_prog. Qed.
Lemma plain_idfail s e : plain (recordIdentityFailure s e).
Proof. unfold recordIdentityFailure. plain_prog. Qed.
Lemma plain_idclear s e : plain (clearIdentityFailures s e).
Proof. unfold clearIdentityFailures. plain_prog. Qed.
Lemma plain_iplocked s ip : plain (isIPLocked s ip).
Proof. unfold isIPLocked. plain_prog. Qed.
Lemma plain_ipfail s ip : plain (recordFailedIP s ip).
Proof. unfold recordFailedIP. plain_prog. Qed.
#[local] Hint Resolve plain_locked plain_record plain_clear plain_throttle plain_idfail plain_idclear
  plain_iplocked plain_ipfail : plain.
Lemma plain_loginfail s u ip app r : plain (recordLoginFailure s u ip app r).
Proof. unfold recordLoginFailure. plain_prog. Qed.
Lemma plain_status u : plain (GetStatus u).
Proof. unfold GetStatus. plain_prog. Qed.
Lemma plain_cached s : plain (catalog_cached s).
Proof. unfold catalog_cached. plain_prog. Qed.
#[local] Hint Resolve plain_loginfail plain_status plain_cached : plain.
Lemma plain_current s : plain (catalog_current s).
Proof. unfold catalog_current. plain_prog. Qed.
#[local] Hint Resolve plain_current : plain.
Lemma plain_filter s rs : plain (catalog_Filter s rs).
Proof. unfold catalog_Filter. plain_prog. Qed.
#[local] Hint Resolve plain_filter : plain.
Lemma plain_roles s rs : plain (effectiveRoles s rs).
Proof. unfold effectiveRoles. plain_prog. Qed.
Lemma plain_contain s t ip r : plain (containRefreshReuse s t ip r).
Proof. unfold containRefreshReuse. plain_prog. Qed.
Lemma plain_account t : plain (accountStillHoldsSessions t).
Proof. unfold accountStillHoldsSessions. plain_prog. Qed.
Lemma plain_binding t j ip : plain (enforceDPoPBinding t j ip).
Proof. unfold enforceDPoPBinding. plain_prog. Qed.
Lemma plain_lifetime s t ip : plain (enforceSessionLifetime s t ip).
Proof. unfold enforceSessionLifetime. plain_prog. Qed.
Lemma plain_inactivity s t ip : plain (enforceSessionInactivity s t ip).
Proof. unfold enforceSessionInactivity. plain_prog. Qed.
Lemma plain_limit s u : plain (checkSessionLimit s u).
Proof. unfold checkSessionLimit. plain_prog. Qed.
Lemma plain_device u fp ip : plain (findOrCreateDevice u fp ip).
Proof. unfold findOrCreateDevice. plain_prog. Qed.
Lemma plain_issue ts j u rs sc c fp f rm a : plain (IssueTokenPairWithAuth ts j u rs sc c fp f rm a).
Proof. unfold IssueTokenPairWithAuth. plain_prog. Qed.
#[local] Hint Resolve plain_roles plain_contain plain_account plain_binding plain_lifetime
  plain_inactivity plain_limit plain_device plain_issue : plain.
Lemma plain_rotated ts j u rs sc c fp f o : plain (IssueRotatedPair ts j u rs sc c fp f o).
Proof. unfold IssueRotatedPair. plain_prog. Qed.
Lemma plain_challenge ts j u fp fs : plain (IssueChallengeToken ts j u fp fs).
Proof. unfold IssueChallengeToken. plain_prog. Qed.
Lemma plain_burn s pw : plain (burn s pw).
Proof. unfold burn. plain_prog. Qed.
Lemma plain_fakejwt t i c fp : plain (GenerateFakeJWTForIdentity t i c fp).
Proof. unfold GenerateFakeJWTForIdentity. plain_prog. Qed.
#[local] Hint Resolve plain_rotated plain_challenge plain_burn plain_fakejwt : plain.
Lemma plain_trap s t c i e ip ua : plain (trapLogin s t c i e ip ua).
Proof. unfold trapLogin. plain_prog. Qed.
Lemma plain_done s u c e ip r pr : plain (login_done s u c e ip r pr).
Proof. unfold login_done. plain_prog. Qed.
Lemma plain_owed s u : plain (login_challenge s u).
Proof. unfold login_challenge. plain_prog. Qed.
Lemma plain_consume s j : plain (consume_challenge s j).
Proof. unfold consume_challenge. plain_prog. Qed.
Lemma plain_repo {B} (q : stmt (res repoErr B)) : plain_stmt q = true → plain (repo q).
Proof. intros Hq. unfold repo. apply plain_bind; [by apply plain_call|done]. Qed.
Lemma plain_logout u ip : plain (Logout u ip).
Proof. unfold Logout. apply plain_bind; [by apply plain_repo|]. plain_prog. Qed.
Lemma plain_locked_out s i u ip src : plain (login_locked s i u ip src).
Proof. unfold login_locked. plain_prog. Qed.
Lemma plain_deleted s i u ip : plain (login_deleted s i u ip).
Proof. unfold login_deleted. plain_prog. Qed.
Lemma plain_link s c i u ip k r e : plain (login_link s c i u ip k r e).
Proof. unfold login_link. plain_prog. Qed.
Lemma plain_unknown s i ip : plain (login_unknown s i ip).
Proof. unfold login_unknown. plain_prog. Qed.
End programs.
#[export] Hint Resolve plain_log plain_metric plain_count plain_stored plain_unwritable
  plain_generation plain_note plain_locked plain_record plain_clear plain_throttle plain_idfail
  plain_idclear plain_iplocked plain_ipfail plain_loginfail plain_status plain_cached plain_current
  plain_filter plain_roles plain_contain plain_account plain_binding plain_lifetime plain_inactivity
  plain_limit plain_device plain_issue plain_rotated plain_challenge plain_burn plain_fakejwt
  plain_trap plain_done plain_owed plain_consume plain_logout plain_locked_out plain_deleted
  plain_link plain_unknown : plain.

Section entitled.
Context `{Primitives}.
Implicit Types s : AuthService.

Lemma safe_assoc {X Y B} (p : prog X) (h : X → prog Y) (f : Y → prog B) g :
  safe g (bind p (λ x, bind (h x) f)) → safe g (bind (bind p h) f).
Proof.
  revert g. induction p as [x|B' st k IH]; intros g; cbn [bind]; [done|].
  destruct st; cbn [safe]; try (intros Hs a; by apply IH, Hs).
  - intros [? ?]. split; auto.
  - intros (? & ? & ?). split_and!; auto.
  - intros (? & ? & ?). split_and!; auto.
  - intros (? & ? & ?). split_and!; auto.
  - intros (? & ? & ? & fm & ? & ?). split_and!; auto. exists fm. auto.
Qed.

(** A ticket holder may insert one successor. *)
Lemma safe_rotated {B} s g t roles fp o ip (f : res authErr TokenPair → prog B) :
  ticket g = Some (FamilyID t) → (∀ a g', safe g' (f a)) →
  safe g (bind (issueRotatedPair s t roles fp o ip) f).
Proof.
  intros Ht Hf. unfold issueRotatedPair.
  assert (Hb : ∀ (p : prog (res authErr TokenPair)) g', plain p → safe g' (bind p f)).
  { intros p g' Hp. apply safe_bind_plain; auto. }
  apply safe_assoc. apply safe_bind_plain; [auto with plain nocore|]. intros [pr|e] g1 (Hk1 & Ht1 & _); [|apply Hf].
  cbn [bind]. apply safe_assoc. cbn [bind call safe]. split; [intros; apply Hf|]. intros newID a. cbn [bind safe].
  split; [cbn; congruence|]. split; [cbn; apply elem_of_union_l; by apply elem_of_singleton|].
  intros [[]|[]]; try (apply Hb); plain_prog.
Qed.

Lemma refresh_safe s rt jkt ip ua fp :
  safe (mkGhost [] None ∅) (Refresh s rt jkt ip ua fp).
Proof.
  unfold Refresh, repo. cbn [bind call safe]. split_and!; [done|done|]. intros t.
  set (g := learn t (mkGhost [] None ∅)).
  assert (Hg : (TID t, FamilyID t) ∈ known g ∧ ticket g = None) by (split; [left|done]).
  clearbody g. cbn [bind].
  destruct (TRevoked t); [done|]. destruct (TUsed t); [apply plain_safe; plain_prog|].
  cbn [safe]. intros now. destruct (ExpiresAt t <? now); [done|].
  apply safe_bind_plain; [auto with plain nocore|]. intros [o|e] g2 (Hk2 & Ht2 & _); [|done].
  apply safe_bind_plain; [auto with plain nocore|]. intros [x|e] g3 (Hk3 & Ht3 & _); [|done].
  cbn zeta. destruct (negb _ && negb _); [apply plain_safe; plain_prog|].
  apply safe_bind_plain; [auto with plain nocore|]. intros [y|e] g4 (Hk4 & Ht4 & _); [|done].
  cbn [bind call safe]. split_and!; [done| |destruct Hg; congruence|].
  { cbn [bind negb]. apply plain_safe. plain_prog. }
  exists (FamilyID t). split; [rewrite Hk4, Hk3, Hk2; apply Hg|].
  cbn [bind negb]. apply safe_bind_plain; [auto with plain nocore|].
  intros [u|e] g5 (_ & Ht5 & _); [|done].
  apply safe_bind_plain; [auto with plain nocore|]. intros rs g6 (_ & Ht6 & _).
  apply safe_rotated; [rewrite Ht6, Ht5; done|].
  intros [pr|e] g7; [|done]. apply plain_safe. plain_prog.
Qed.

(** A new family under names of its own. *)
Lemma safe_start {B} s c u roles client dev fp rm ms uv g (f : res authErr TokenPair → prog B) :
  (∀ a g', safe g' (f a)) → safe g (bind (start_session s c u roles client dev fp rm ms uv) f).
Proof.
  intros Hf. unfold start_session, IssueTokenPairWithAuth, storeRefreshToken.
  rewrite bool_decide_true by done. cbn [bind call safe]. intros _ now. split; [intros; apply Hf|].
  intros jti. cbn [bind call safe]. intros [tok|e]; [|apply Hf]. cbn [bind call safe].
  split; [intros; apply Hf|]. intros rt. cbn [bind call safe]. split; [intros; apply Hf|].
  intros fam. cbn [bind call safe]. split; [intros; apply Hf|]. intros rtid. cbn [bind call safe].
  intros at_. cbn [TID FamilyID PFamilyID names draw]. split_and!.
  - apply elem_of_union_l. by apply elem_of_singleton.
  - apply elem_of_union_r, elem_of_union_l. by apply elem_of_singleton.
  - intros [[]|[]]; apply Hf.
Qed.

Lemma proven_safe {B} s c i u e ip ua g (f : res authErr LoginResult → prog B) :
  (∀ a g', safe g' (f a)) → safe g (bind (login_proven s c i u e ip ua) f).
Proof.
  intros Hf.
  assert (Hb : ∀ (p : prog (res authErr LoginResult)) g', plain p → safe g' (bind p f)).
  { intros p g' Hp. apply safe_bind_plain; auto. }
  unfold login_proven. apply safe_assoc. apply safe_bind_plain; [plain_prog|]. intros _ g1 _. cbn zeta.
  apply safe_assoc, safe_bind_plain; [auto with plain nocore|]. intros [[ms|]|er] g2 _; [apply Hb; plain_prog| |apply Hf].
  do 2 (apply safe_assoc, safe_bind_plain; [auto with plain nocore|]; intros _ ? _).
  apply safe_assoc, safe_bind_plain; [auto with plain nocore|]. intros [?|er] ? _; [|apply Hf].
  do 2 (apply safe_assoc, safe_bind_plain; [auto with plain nocore|]; intros ? ? _).
  apply safe_assoc, safe_start. intros [pr|er] ?; [|apply Hf]. apply Hb. auto with plain nocore.
Qed.

Lemma login_body_safe {B} s tr c i e ip ua g (f : res authErr LoginResult → prog B) :
  (∀ a g', safe g' (f a)) → safe g (bind (login_body s tr c i e ip ua) f).
Proof.
  intros Hf.
  assert (Hb : ∀ (p : prog (res authErr LoginResult)) g', plain p → safe g' (bind p f)).
  { intros p g' Hp. apply safe_bind_plain; auto. }
  unfold login_body. apply safe_assoc, safe_bind_plain; [auto with plain nocore|]. intros _ g1 _.
  apply safe_assoc, safe_bind_plain; [auto with plain nocore|]. intros [] g2 _; [apply Hb; plain_prog|].
  apply safe_assoc, safe_bind_plain; [by apply plain_repo|]. intros [u|er] g3 _; [|apply Hf].
  destruct (IsTrapUser s e); [apply Hb; auto with plain nocore|].
  destruct u as [u|]; [|apply Hb; auto with plain nocore]. unfold login_known.
  apply safe_assoc, safe_bind_plain; [plain_prog|]. intros now g4 _.
  destruct (is_locked_at now u); [apply Hb; auto with plain nocore|].
  apply safe_assoc, safe_bind_plain; [auto with plain nocore|]. intros [] g5 _; [apply Hb; auto with plain nocore|].
  destruct (Deleted u); [apply Hb; auto with plain nocore|].
  destruct (ImportPending u); [apply Hb; auto with plain nocore|].
  destruct (MustResetPassword u); [apply Hb; auto with plain nocore|].
  unfold login_password. apply safe_assoc, safe_bind_plain; [plain_prog|].
  intros [[]|[]] g6 _; [|apply Hb; plain_prog..].
  destruct (Banned u); [apply Hb; plain_prog|]. destruct (Disabled u); [apply Hb; plain_prog|].
  destruct (negb (EmailVerified u)); [apply Hb; plain_prog|]. by apply proven_safe.
Qed.

Lemma login_safe s tr c i ip ua : safe (mkGhost [] None ∅) (Login s tr c i ip ua).
Proof.
  unfold Login. apply safe_bind_plain; [auto with plain nocore|]. intros _ g1 _. cbn zeta.
  apply login_body_safe. intros r g'. apply plain_safe. plain_prog.
Qed.

Lemma complete_safe s c u fp ip j m : safe (mkGhost [] None ∅) (CompleteMFALogin s c u fp ip j m).
Proof.
  unfold CompleteMFALogin. apply safe_bind_plain; [auto with plain nocore|]. intros [?|e] g1 _; [|done].
  apply safe_bind_plain; [auto with plain nocore|]. intros _ g2 _.
  apply safe_bind_plain; [auto with plain nocore|]. intros [?|e] g3 _; [|done].
  apply safe_bind_plain; [auto with plain nocore|]. intros dev g4 _.
  apply safe_bind_plain; [plain_prog|]. intros [[usr|]|e] g5 _; [|done..].
  apply safe_bind_plain; [plain_prog|]. intros now g6 _.
  destruct (mfa_refusal now usr); [done|].
  apply safe_bind_plain; [auto with plain nocore|]. intros roles g7 _.
  apply safe_start. intros [pr|e] g8; [|done]. apply plain_safe. auto with plain nocore.
Qed.
End entitled.

(** ** The theorem *)
Section race.
Context {C : Type} `{CacheOps C} `{Primitives}.
Context (s : AuthService) (tr : Trap).

(** The requests in flight, with their results forgotten. *)
Definition forget {A} (p : prog A) : prog unit := bind p (λ _, Ret tt).

Inductive request : prog unit → Prop :=
| rq_refresh rt jkt ip ua fp : request (forget (Refresh s rt jkt ip ua fp))
| rq_login c i ip ua : request (forget (Login s tr c i ip ua))
| rq_mfa c u fp ip j m : request (forget (CompleteMFALogin s c u fp ip j m))
| rq_logout u ip : request (forget (Logout u ip)).

(** Entropy does not repeat what it returned. *)
Definition unrepeated (c : Effects.choice) (w : World C) : Prop := c_rand c ∉ drawn w.

(** Everything else: operators, reapers and other handlers change any store in
    any way, except that they insert no refresh token of their own. *)
Definition operator (w w' : World C) : Prop :=
  ∃ now o, tokens_of_op o = None ∧ tokens (db w') = tokens (store_exec now o (db w)) ∧
    drawn w ⊆ drawn w'.

Definition system : list (prog unit) * World C → list (prog unit) * World C → Prop :=
  pool_step request unrepeated operator.

(** Every row's names were drawn, and each family starts with one live token at most. *)
Definition sound_store (w : World C) : Prop :=
  store_inv (db w) ∧ (∀ f, (live f (db w) ≤ 1)%nat) ∧
  ∀ r, r ∈ tokens (db w) → id r ∈ drawn w ∧ family_id r ∈ drawn w.

Definition pool_ok (x : list (prog unit) * World C) : Prop :=
  ∃ gs, Forall2 safe gs x.1 ∧ consistent gs (db x.2) (drawn x.2).

Lemma safe_forget {A} g (p : prog A) : safe g p → safe g (forget p).
Proof.
  unfold forget. revert g. induction p as [a|B st k IH]; intros g; [done|]. cbn [bind].
  destruct st; cbn [safe]; try (intros Hs a; by apply IH, Hs).
  - intros [? ?]. split; auto.
  - intros (? & ? & ?). split_and!; auto.
  - intros (? & ? & ?). split_and!; auto.
  - intros (? & ? & ?). split_and!; auto.
  - intros (? & ? & ? & fm & ? & ?). split_and!; auto. exists fm. auto.
Qed.

Lemma request_safe p : request p → safe (mkGhost [] None ∅) p.
Proof.
  intros [| | |]; apply safe_forget;
    [apply refresh_safe|apply login_safe|apply complete_safe|apply plain_safe; auto with plain nocore].
Qed.

Lemma consistent_spawn gs d dr :
  consistent gs d dr → consistent (gs ++ [mkGhost [] None ∅])%list d dr.
Proof.
  intros [Hs Hc Hr Hsd Hkn Hu Ha Hd]. set (g0 := mkGhost [] None ∅).
  assert (Hin : ∀ g, g ∈ (gs ++ [g0])%list → g ∈ gs ∨ g = g0).
  { intros g [?|?%list_elem_of_singleton]%elem_of_app; auto. }
  assert (Hsp0 : spoken g0 = ∅) by reflexivity.
  split; try done.
  - intros f. unfold tickets. rewrite filter_app, length_app. cbn. rewrite Nat.add_0_r. apply Hc.
  - intros g [Hg| ->]%Hin; [by apply Hsd|]. rewrite Hsp0. split; apply empty_subseteq.
  - intros g i f r [Hg| ->]%Hin Hk; [by apply (Hkn g i)|by apply elem_of_nil in Hk].
  - intros g r [Hg| ->]%Hin Hr'; [by apply Hu|]. split; apply not_elem_of_empty.
  - intros g g' [Hg| ->]%Hin [Hg'| ->]%Hin; [by apply Ha|apply disjoint_empty_r|rewrite Hsp0; apply disjoint_empty_l..].
  - intros i j g g' Hi Hj Hne.
    assert (Hl : ∀ k h, (gs ++ [g0])%list !! k = Some h → gs !! k = Some h ∨ (k = length gs ∧ h = g0)).
    { intros k h Hk. apply lookup_app_Some in Hk as [?|[Hle Hk]]; [by left|right].
      apply list_lookup_singleton_Some in Hk as [? <-]. split; [lia|done]. }
    destruct (Hl _ _ Hi) as [Hi'|[-> ->]]; [|apply disjoint_empty_l].
    destruct (Hl _ _ Hj) as [Hj'|[-> ->]]; [by apply (Hd i j)|apply disjoint_empty_r].
Qed.

Lemma system_ok x y : pool_ok x → system x y → pool_ok y.
Proof.
  intros (gs & Hs & Hcs) Hstep. destruct Hstep as [ps p w Hp|ps i p c w Hi Hx|ps w w' (now & o & Ho & Ht & Hd)].
  - exists (gs ++ [mkGhost [] None ∅])%list. split; [|by apply consistent_spawn].
    apply Forall2_app; [done|]. apply Forall2_cons. split; [by apply request_safe|by apply Forall2_nil].
  - destruct (Forall2_lookup_r _ _ _ _ _ Hs Hi) as (g & Hg & Hsafe). cbn [fst snd] in *.
    destruct p as [a|B st k]; cbn [thread_step].
    + exists gs. cbn. rewrite list_insert_id by done. done.
    + destruct (step_safe gs i g c st k w Hcs Hg Hx Hsafe) as (g' & Hsafe' & Hcs').
      exists (<[i := g']> gs). destruct (perform c st w) as [b w']. cbn. split; [|done].
      by apply Forall2_insert.
  - exists gs. split; [done|]. cbn [fst snd] in *.
    eapply consistent_quiet; [done| |done].
    pose proof (store_exec_quiet now o (db w) Ho (cs_store _ _ _ Hcs)) as (Hq1 & Hq2 & Hq3).
    unfold quiet, store_inv, live in *. rewrite Ht. done.
Qed.

(** C1. No interleaving forks a session: start from any sound store, let any
    number of refreshes, logins, second-factor completions and logouts run
    concurrently, one statement at a time in any order, with any call failing
    before or after its effect, any clock, any operator action and any reaping
    in between; in every state reached, every family has at most one refresh
    token that is neither spent nor revoked. *)
Theorem no_interleaving_forks_a_session w0 ps w f :
  sound_store w0 → star system ([], w0) (ps, w) → (live f (db w) ≤ 1)%nat.
Proof.
  intros (Hi & Hl & Hr) Hstar.
  assert (Hok : pool_ok ([], w0)).
  { exists []. split; [by apply Forall2_nil|]. split; try done;
      try (intros g; intros Hg; by apply elem_of_nil in Hg).
    - intros f'. unfold tickets. cbn. rewrite Nat.add_0_r. apply Hl.
    - intros g i f' r Hg. by apply elem_of_nil in Hg.
    - intros g r Hg. by apply elem_of_nil in Hg.
    - intros g g' Hg. by apply elem_of_nil in Hg. }
  pose proof (star_invariant system pool_ok _ _ system_ok Hstar Hok) as (gs & _ & Hcs).
  pose proof (cs_count _ _ _ Hcs f). cbn in *. lia.
Qed.
End race.

(** ** A schedule, executed *)
Module RaceDemo.
#[local] Existing Instance Toy.prims.
Definition svc : AuthService :=
  mkAuthService (mkTokenService "k1" "iss" "aud" (15 * minute) (24 * hour) (720 * hour) (10 * hour) 0)
    true true true true false false false 60 true [] 0 false "pepper" "hmac" "$dummy".
Definition trap : Trap := mkTrap "salt" "kt" "iss" "aud" (15 * minute).
Definition stolen : RefreshToken :=
  mkRefreshToken "t1" "alice" "" "#cookie" "fam" "" "" "" (2000 * second) false false (Some (999 * second)).
Definition start : World Memory.MemoryCache :=
  set_drawn {["t1"; "fam"]} (set_db (Create stolen (db Toy.world)).2 Toy.world).
Definition attack : prog unit :=
  forget (Refresh svc "cookie" "" "10.0.0.1" "ua" (mkFingerprintInput "" "" "" "")).

(** Run thread [i] one statement for each [i] of the schedule, drawing a fresh
    name each time; an inadmissible draw ends the schedule. *)
Fixpoint play (sched : list nat) (n : nat) (x : list (prog unit) * World Memory.MemoryCache)
  : list (prog unit) * World Memory.MemoryCache :=
  match sched with
  | [] => x
  | i :: sched' =>
      let c := Toy.oracle n in
      match x.1 !! i with
      | Some p =>
          if decide (c_rand c ∈ drawn x.2) then x
          else play sched' (S n) (<[i := (thread_step p c x.2).1]> x.1, (thread_step p c x.2).2)
      | None => x
      end
  end.

Lemma play_star sched n x y : star (system svc trap) y x → star (system svc trap) y (play sched n x).
Proof.
  revert n x. induction sched as [|i sched IH]; intros n [ps w] Hy; [done|]. cbn [play fst snd].
  destruct (ps !! i) as [p|] eqn:Ei; [|done]. case_decide as Hd; [done|]. apply IH.
  eapply star_trans; [exact Hy|]. apply star_one. by apply pool_thread.
Qed.

(** Two holders of one cookie, their statements alternating. *)
Definition outcome : list (prog unit) * World Memory.MemoryCache :=
  play [0; 1; 0; 1; 0; 1; 0; 1; 0; 1; 0; 1; 0; 1; 0; 1; 0; 0; 0; 0; 0; 0; 0; 0]%nat 0 ([attack; attack], start).

Lemma outcome_reached : star (system svc trap) ([], start) outcome.
Proof.
  apply play_star. eapply star_step; [apply pool_spawn|eapply star_step; [apply pool_spawn|apply star_refl]];
    apply rq_refresh.
Qed.

Lemma start_sound : sound_store start.
Proof.
  split_and!.
  - apply create_inv. split; [apply NoDup_nil_2|]. intros x y Hx. by apply elem_of_nil in Hx.
  - intros f. unfold live. etrans; [apply length_filter|]. done.
  - intros r Hr. apply list_elem_of_singleton in Hr. subst r. by vm_compute.
Qed.
End RaceDemo.

Lemma no_interleaving_forks_a_session_witness :
  (live "fam" (db RaceDemo.outcome.2) ≤ 1)%nat ∧
  length (filter (λ r, revoked r = true) (tokens (db RaceDemo.outcome.2))) = 1%nat.
Proof.
  split; [|by vm_compute].
  apply (no_interleaving_forks_a_session (H0 := Toy.prims) RaceDemo.svc RaceDemo.trap RaceDemo.start
    RaceDemo.outcome.1 RaceDemo.outcome.2).
  - apply RaceDemo.start_sound.
  - rewrite <- surjective_pairing. apply RaceDemo.outcome_reached.
Defined.
