(* ===== verification/SessionFacts.v ===== *)
(** * SessionFacts: what one request can and cannot do to a session

    [Race] bounds what requests do together; this file says what each does: a
    refresh that succeeds met every precondition and replaced one row by one
    row whose expiry respects the session's bound; a replayed token burns its
    family; a request that cannot prove the family's key spends nothing; logout
    ends every session; no token ever names an administrative role. *)
From S2P Require Import Prelude GoStd Cache Crypto Model TokenStore TokenStoreFacts UserStore Effects TokenService Lockout Session Login.
From Stdlib Require Import Ascii.
Open Scope string_scope.
Open Scope Z_scope.
Open Scope prog_scope.

(** ** Programs that leave the database alone *)
Definition keeps_db {B} (s : stmt B) : bool :=
  match s with
  | SMarkUsed _ | SCreate _ | SCreateWithinCap _ _ | SRevokeFamily _ | SRevokeAllForUser _
  | SIncrementFailedLogin _ | SResetFailedLogin _ | SSetLastLogin _ | SRevokeAllTokens | SUsers _
  | STotpCreate _ | STotpMarkVerified _ | STotpDelete _
  | SCodesCreate _ | SCodesMarkUsed _ | SCodesInvalidate _ | SPasskeysDelete _ | SCodesPurge _ | STokensDelete _ => false
  | _ => true
  end.

Fixpoint framed {A} (p : prog A) : Prop :=
  match p with Ret _ => True | Do s k => keeps_db s = true ∧ ∀ a, framed (k a) end.

Section frame.
Context {C : Type} `{CacheOps C} `{Primitives}.
Implicit Types w : World C.

Definition db_kept w w' : Prop := db w' = db w ∧ clock w ≤ clock w'.

Lemma db_kept_refl w : db_kept w w.
Proof. by split. Qed.
Lemma db_kept_trans w1 w2 w3 : db_kept w1 w2 → db_kept w2 w3 → db_kept w1 w3.
Proof. intros [? ?] [? ?]. split; [congruence|lia]. Qed.

Lemma perform_keeps c {B} (s : stmt B) w : keeps_db s = true → db_kept w (perform c s w).2.
Proof.
  intros Hs. split; [|apply perform_clock].
  destruct s; cbn in Hs; try discriminate Hs; cbn [perform]; unfold on_cache, on_db, on_factors, rate_increment;
    repeat case_match; simplify_eq/=; try done; destruct (c_cache c), (c_db c); cbn in *; simplify_eq/=; done.
Qed.

Lemma wp_framed P {A} (p : prog A) (Q : A → World C → Prop) w :
  framed p → (∀ a w', db_kept w w' → Q a w') → wp P p Q w.
Proof.
  revert w. induction p as [a|B s k IH]; intros w Hp HQ; cbn; [apply HQ, db_kept_refl|].
  destruct Hp as [Hs Hk]. intros c _. pose proof (perform_keeps c s w Hs) as Hw.
  apply IH; [done|]. intros a w' Hw'. by eapply HQ, db_kept_trans.
Qed.

Lemma wp_now P w (Q : Z → World C → Prop) :
  (∀ w', db_kept w w' → Q (clock w') w') → wp P (call SNow) Q w.
Proof. intros HQ c _. cbn. apply (HQ (tick c w)). apply (perform_keeps c SNow). done. Qed.
End frame.

(** ** The pieces of a rotation *)
Section rotation_facts.
Context {C : Type} `{CacheOps C} `{Primitives}.
Implicit Types w : World C.
Implicit Types s : AuthService.

(** A read answers what the table holds, or fails; it moves nothing. *)
Lemma wp_read {A} P (st : stmt (res repoErr A)) (f : DB → A) w (Q : res repoErr A → World C → Prop) :
  (∀ c w, perform c st w = on_db c (λ d, (Ok (f d), d)) (tick c w)) →
  (∀ w' r, db_kept w w' → r = Ok (f (db w)) ∨ r = Err ErrDB → Q r w') →
  wp P (call st) Q w.
Proof.
  intros Hp HQ c _. cbn [call wp]. rewrite Hp. unfold on_db.
  assert (Ht : db_kept w (tick c w)) by (split; [done|cbn; lia]).
  destruct (c_db c); cbn [faulty fst snd]; apply HQ; auto.
Qed.

Lemma lifetime_ok s t ip w :
  wp any (enforceSessionLifetime s t ip)
    (λ r w', ∀ o, r = Ok o → db_kept w w' ∧
       (∀ x, o = Some x → FamilyOrigin (FamilyID t) (db w) = Some x) ∧
       (0 < maxSessionLifetime (tokenSvc s) →
          ∃ x, o = Some x ∧ clock w < x + maxSessionLifetime (tokenSvc s))) w.
Proof.
  unfold enforceSessionLifetime. cbn zeta.
  destruct (Z.ltb_spec 0 (maxSessionLifetime (tokenSvc s))) as [Hb|Hb]; cbn [negb].
  - destruct (dates_families s); cbn [negb].
    2: { apply wp_bind, wp_framed; [by split|]. intros _ w1 _. done. }
    apply wp_bind, (wp_read _ _ (FamilyOrigin (FamilyID t))); [done|]. intros w1 r H1 Hr.
    assert (Hfail : wp any (log_event "token_revoke" (TUserID t) (TClientID t) ip "session_age_unavailable" ;;;
        Ret (Err ErrSessionAgeUnknown : res authErr (option Z)))
      (λ r w', ∀ o, r = Ok o → db_kept w w' ∧
       (∀ x, o = Some x → FamilyOrigin (FamilyID t) (db w) = Some x) ∧
       (0 < maxSessionLifetime (tokenSvc s) →
          ∃ x, o = Some x ∧ clock w < x + maxSessionLifetime (tokenSvc s))) w1).
    { apply wp_bind, wp_framed; [by split|]. intros; done. }
    destruct Hr as [->| ->]; [|done].
    destruct (FamilyOrigin (FamilyID t) (db w)) as [x|]; [|done]. cbn [nonzero].
    destruct (x =? zero_time); [done|].
    apply wp_bind, wp_now. intros w2 H2. destruct (Z.ltb_spec (clock w2) (x + maxSessionLifetime (tokenSvc s))).
    + cbn [wp]. intros o [= <-]. destruct H1, H2. split_and!; [split; [congruence|lia]|by intros ? [= <-]|].
      intros _. exists x. split; [done|lia].
    + apply wp_bind. intros c _. cbn [wp call]. apply wp_bind, wp_framed; [by split|]. intros; done.
  - destruct (dates_families s); cbn [negb].
    2: { cbn. intros o [= <-]. split_and!; [apply db_kept_refl|done|lia]. }
    apply wp_bind, (wp_read _ _ (FamilyOrigin (FamilyID t))); [done|]. intros w1 r H1 Hr.
    destruct Hr as [->| ->].
    + destruct (FamilyOrigin (FamilyID t) (db w)) as [x|]; cbn [nonzero].
      * destruct (x =? zero_time); cbn [wp]; intros o [= <-]; split_and!; try done; try lia.
      * cbn [wp]. intros o [= <-]. split_and!; [done|done|lia].
    + cbn [wp]. intros o [= <-]. split_and!; [done|done|lia].
Qed.

Lemma inactivity_ok s t ip w :
  wp any (enforceSessionInactivity s t ip)
    (λ r w', ∀ x, r = Ok x → db_kept w w' ∧
       (0 < inactivityTimeout (tokenSvc s) →
          ∃ c, TCreatedAt t = Some c ∧ clock w < c + inactivityTimeout (tokenSvc s))) w.
Proof.
  unfold enforceSessionInactivity. cbn zeta.
  destruct (Z.leb_spec (inactivityTimeout (tokenSvc s)) 0) as [Hidle|Hidle].
  { cbn. intros x [= <-]. split; [apply db_kept_refl|lia]. }
  destruct (TCreatedAt t) as [c|]; cbn [nonzero]; [destruct (c =? zero_time)|].
  1, 3: apply wp_bind, wp_framed; [by split|]; intros; done.
  apply wp_bind, wp_now. intros w1 H1. destruct (Z.ltb_spec (clock w1) (c + inactivityTimeout (tokenSvc s))).
  - cbn. intros x _. split; [done|]. intros _. exists c. destruct H1. split; [done|lia].
  - apply wp_bind. intros ch _. cbn [wp call]. apply wp_bind, wp_framed; [by split|]. intros; done.
Qed.

Lemma binding_ok t jkt ip w :
  wp any (enforceDPoPBinding t jkt ip)
    (λ r w', db_kept w w' ∧ (r = Ok tt ∧ (DPoPJKT t = "" ∨ DPoPJKT t = jkt) ∨
                             r = Err ErrTokenInvalid ∧ DPoPJKT t ≠ "" ∧ DPoPJKT t ≠ jkt)) w.
Proof.
  unfold enforceDPoPBinding. case_decide as E; [cbn; split; [apply db_kept_refl|auto]|].
  rewrite SecureCompare_eq. destruct (bool_decide_reflect (jkt = "")) as [->|Hj]; cbn [negb andb].
  - apply wp_bind, wp_framed; [by split|]. intros _ w1 H1. cbn. split; [done|right; auto].
  - case_bool_decide as Hk.
    + cbn. split; [apply db_kept_refl|auto].
    + apply wp_bind, wp_framed; [by split|]. intros _ w1 H1. cbn. split; [done|right; auto].
Qed.

Lemma account_ok t w :
  wp any (accountStillHoldsSessions t)
    (λ r w', ∀ u, r = Ok u → db_kept w w' ∧ users (db w) !! TUserID t = Some u ∧
       ∃ now, clock w ≤ now ∧ holds_sessions now u = true) w.
Proof.
  unfold accountStillHoldsSessions.
  apply wp_bind, (wp_read _ _ (GetByID (TUserID t))); [done|]. intros w1 r H1 Hr.
  apply wp_bind, wp_now. intros w2 H2.
  assert (Hrej : ∀ e, wp any (call (SRevokeFamily (FamilyID t)) ;;; Ret (Err e : res authErr User))
    (λ r w', ∀ u, r = Ok u → db_kept w w' ∧ users (db w) !! TUserID t = Some u ∧
       ∃ now, clock w ≤ now ∧ holds_sessions now u = true) w2).
  { intros e. apply wp_bind. intros c _. by cbn [wp call]. }
  destruct Hr as [->| ->]; [|apply Hrej]. unfold GetByID.
  destruct (users (db w) !! TUserID t) as [u|] eqn:Eu; [|apply Hrej].
  destruct (holds_sessions (clock w2) u) eqn:Eh; [|apply Hrej].
  cbn. intros u' [= <-]. split_and!; [by eapply db_kept_trans|done|].
  exists (clock w2). destruct H1, H2. split; [lia|done].
Qed.

(** The successor row a rotation writes. *)
Definition successor (s : AuthService) (t : RefreshToken) (roles : list string) (fp : string)
    (o : option Z) (pr : TokenPair) (n : RefreshToken) : Prop :=
  TUserID n = TUserID t ∧ TClientID n = TClientID t ∧ FamilyID n = FamilyID t ∧
  DPoPJKT n = DPoPJKT t ∧ FingerprintHash n = fp ∧ TokenHash n = SHA256Hex (RefreshTokenRaw pr) ∧
  ExpiresAt n = RefreshExpAt pr ∧
  (∀ x, o = Some x → 0 < maxSessionLifetime (tokenSvc s) →
     ExpiresAt n ≤ x + maxSessionLifetime (tokenSvc s)) ∧
  ∃ claims, SignToken claims (kid (tokenSvc s)) = Ok (AccessToken pr) ∧
    CRoles claims = roles ∧ Confirmation claims = confirmation (DPoPJKT t) ∧
    Subject claims = TUserID t ∧ AuthTime claims = authTimeSeconds o.

Lemma rotated_ok s t roles fp o ip w :
  wp any (issueRotatedPair s t roles fp o ip)
    (λ r w', ∀ pr, r = Ok pr → clock w ≤ clock w' ∧ ∃ n, successor s t roles fp o pr n ∧
       Create n (db w) = (Ok tt, db w')) w.
Proof.
  unfold issueRotatedPair, IssueRotatedPair. apply wp_bind, wp_bind.
  eapply wp_mono; [|apply issue_spec]. intros [pr|e] w1 [Hs1 Hr1]; [|by cbn].
  cbn [wp]. apply wp_bind, wp_random. intros [newID|e] w2 Hs2 _; [|by cbn].
  apply wp_bind, wp_now. intros w3 H3. apply wp_bind. intros c _. cbn [wp call perform].
  set (n := mkRefreshToken newID _ _ _ _ _ _ _ _ _ _ _). unfold on_db.
  assert (Hdb : db (tick c w3) = db w).
  { destruct H3 as [E3 _]. change (db w3 = db w). rewrite E3, (same_db _ _ Hs2), (same_db _ _ Hs1). done. }
  assert (Hrej : ∀ w4 (k : prog (res authErr TokenPair)) Q,
    (∃ e, k = Ret (Err e)) → wp any k (λ r w', ∀ pr, r = Ok pr → Q pr w') w4).
  { intros w4 k Q [e ->]. by cbn. }
  destruct (c_db c); cbn [faulty fst snd].
  2-3: apply Hrej; eauto.
  rewrite Hdb. destruct (Create n (db w)) as [[[]|er] d] eqn:Ec; cbn [fst snd].
  - cbn [wp]. intros pr' [= <-]. split.
    { apply same_clock in Hs1, Hs2. destruct H3 as [_ H3]. cbn. lia. }
    exists n. split; [|done]. destruct Hr1 as (now & jti & Hnow & Hsig & Hexp & _).
    split_and!; try done.
    + intros x -> Hm. cbn. rewrite (sessionDeadline_pos x _ Hm). apply clampExpiry_deadline.
    + eexists. split; [exact Hsig|]. done.
  - destruct er; try (apply Hrej; by eauto).
    apply wp_bind. intros c2 _. cbn [wp call]. apply wp_bind, wp_framed; [by split|]. intros; done.
Qed.

(** The fingerprint of a refresh request. *)
Definition request_fp (ip ua : string) (fp : FingerprintInput) : string :=
  ComputeFingerprint (mkFingerprintInput ip ua (AcceptLanguage fp) (TLSFingerprint fp)).

(** What a successful refresh of [t] entails. *)
Definition rotated s (t : RefreshToken) (jkt ip ua : string) (fp : FingerprintInput) w
    (r : RefreshResult) w' : Prop :=
  TRevoked t = false ∧ TUsed t = false ∧ clock w ≤ ExpiresAt t ∧
  (FingerprintHash t = "" ∨ FingerprintHash t = request_fp ip ua fp) ∧
  (DPoPJKT t = "" ∨ DPoPJKT t = jkt) ∧
  (0 < inactivityTimeout (tokenSvc s) →
     ∃ c, TCreatedAt t = Some c ∧ clock w < c + inactivityTimeout (tokenSvc s)) ∧
  (∃ u now, users (db w) !! TUserID t = Some u ∧ clock w ≤ now ∧ holds_sessions now u = true) ∧
  ∃ o roles pr n,
    (0 < maxSessionLifetime (tokenSvc s) →
       ∃ x, o = Some x ∧ FamilyOrigin (FamilyID t) (db w) = Some x ∧
            clock w < x + maxSessionLifetime (tokenSvc s)) ∧
    successor s t roles (request_fp ip ua fp) o pr n ∧ RRefreshToken r = RefreshTokenRaw pr ∧
    (MarkUsed (TID t) (db w)).1 = true ∧
    Create n (MarkUsed (TID t) (db w)).2 = (Ok tt, db w').

Lemma framed_roles s rs : framed (effectiveRoles s rs).
Proof.
  unfold effectiveRoles, catalog_Filter, catalog_current, catalog_cached.
  destruct (has_roleCatalog s); cbn; [|done]. destruct (FilterUserRoles rs); cbn; [done|].
  split; [done|]. intros [[names at_]|]; cbn; repeat (split; [done|intros ?]); repeat case_match; cbn;
    repeat (split; [done|intros ?]); repeat case_match; cbn; try done;
    repeat (split; [done|intros ?]; repeat case_match; cbn; try done).
Qed.

Lemma markused_db P i w (Q : res authErr bool → World C → Prop) :
  (∀ w' r, clock w ≤ clock w' → (∀ b, r = Ok b → b = (MarkUsed i (db w)).1 ∧ db w' = (MarkUsed i (db w)).2) →
     Q r w') → wp P (repo (SMarkUsed i)) Q w.
Proof.
  intros HQ c _. cbn [call bind wp perform]. unfold on_db. change (db (tick c w)) with (db w).
  assert (Hc : clock w ≤ clock (tick c w)) by (cbn; lia).
  destruct (MarkUsed i (db w)) as [b d]. destruct (c_db c); cbn [faulty fst snd wp]; apply HQ;
    try done. by intros b' [= <-].
Qed.

(** A branch that only ends in an error claims nothing. *)
Lemma wp_err {A X} P (p : prog A) e (Q : X → World C → Prop) w :
  wp P (bind p (λ _, Ret (Err e : res authErr X))) (λ r w', ∀ x, r = Ok x → Q x w') w.
Proof. apply wp_bind. eapply wp_mono; [|apply (wp_clock P p w)]. by cbn. Qed.

Lemma refresh_spec s rt jkt ip ua fp w :
  wp any (Refresh s rt jkt ip ua fp)
    (λ r w', ∀ x, r = Ok x → ∃ t, GetByTokenHash (SHA256Hex rt) (db w) = Some t ∧
       rotated s t jkt ip ua fp w x w') w.
Proof.
  unfold Refresh. apply wp_bind. unfold repo at 1. apply wp_bind.
  apply (wp_read _ _ (GetByTokenHash (SHA256Hex rt))); [done|]. intros w1 r H1 Hr. cbn [wp].
  destruct Hr as [->| ->]; [|by cbn]. destruct (GetByTokenHash (SHA256Hex rt) (db w)) as [t|]; [|by cbn].
  destruct (TRevoked t) eqn:Erv; [by cbn|]. destruct (TUsed t) eqn:Eus; [apply wp_err|].
  apply wp_bind, wp_now. intros w2 H2. destruct (Z.ltb_spec (ExpiresAt t) (clock w2)) as [|Hexp]; [by cbn|].
  apply wp_bind. eapply wp_mono; [|apply lifetime_ok]. intros [o|e] w3 Hlife; [|by cbn].
  destruct (Hlife o eq_refl) as (H3 & Horig & Hbound).
  apply wp_bind. eapply wp_mono; [|apply inactivity_ok]. intros [[]|e] w4 Hidle; [|by cbn].
  destruct (Hidle tt eq_refl) as (H4 & Hidle'). cbn zeta. fold (request_fp ip ua fp).
  unfold CompareFingerprints. rewrite SecureCompare_eq.
  destruct (negb (bool_decide (FingerprintHash t = ""))
    && negb (bool_decide (FingerprintHash t = request_fp ip ua fp))) eqn:Efp.
  { apply wp_bind. eapply wp_mono; [|apply (wp_clock any _ w4)]. intros _ w5 _. apply wp_err. }
  apply wp_bind. eapply wp_mono; [|apply binding_ok]. intros r5 w5 [H5 Hbind].
  destruct Hbind as [[-> Hbind]|[-> _]]; [|by cbn].
  apply wp_bind, markused_db. intros w6 [b|e] Hc6 Hmu; [|by cbn].
  destruct (Hmu b eq_refl) as [Eb Hd6]. destruct b; cbn [negb]; [|apply wp_err].
  assert (H15 : db_kept w w5) by (do 4 (eapply db_kept_trans; [eassumption|]); done).
  destruct H15 as [Hdb5 Hc5]. rewrite Hdb5 in *.
  apply wp_bind. eapply wp_mono; [|apply account_ok]. intros [u|e] w7 Hacc; [|by cbn].
  destruct (Hacc u eq_refl) as (H7 & Hu & now & Hnow & Hholds).
  apply wp_bind, wp_framed; [apply framed_roles|]. intros roles w8 H8.
  apply wp_bind. eapply wp_mono; [|apply rotated_ok]. intros [pr|e] w9 Hrot; [|by cbn].
  destruct (Hrot pr eq_refl) as (Hc9 & n & Hsucc & Hcr).
  apply wp_bind, wp_framed; [unfold metric; by destruct (has_metrics s)|]. intros _ w10 H10.
  apply wp_bind, wp_framed; [by split|]. intros _ w11 H11.
  apply wp_bind, wp_now. intros w12 H12. cbn [wp]. intros x [= <-]. exists t. split; [done|].
  assert (Hd8 : db w8 = (MarkUsed (TID t) (db w)).2) by (destruct H7, H8; congruence).
  assert (Hd12 : db w12 = db w9) by (destruct H10, H11, H12; congruence).
  assert (Hdb2 : db w2 = db w) by (destruct H1, H2; congruence).
  destruct H1 as [_ Hc1], H2 as [_ Hc2], H3 as [_ Hc3].
  unfold rotated. split_and!; [done|done|lia| |done| | |].
  - apply andb_false_iff in Efp as [E|E]; apply negb_false_iff, bool_decide_eq_true in E; auto.
  - intros Hi. destruct (Hidle' Hi) as (c & ? & ?). exists c. split; [done|lia].
  - rewrite Hd6 in Hu. exists u, now. split; [done|]. split; [lia|done].
  - exists o, roles, pr, n. split_and!; [|done|done|done|by rewrite Hd12, <- Hcr, Hd8].
    intros Hm. destruct (Hbound Hm) as (x & -> & Hlt). exists x. split_and!; [done| |lia].
    rewrite <- Hdb2. by apply Horig.
Qed.

(** C7. A refresh that succeeds was entitled to: whatever the faults, the clock
    and the entropy, the presented token existed, was neither revoked nor spent
    nor expired nor idle, its fingerprint and DPoP key were the caller's, its
    account still holds sessions, and the family is inside its lifetime; the
    database then changed by exactly one compare-and-set on that token and one
    insert in the same family, whose expiry respects the family's absolute
    deadline and whose access token is bound to the family's key. *)
Theorem refresh_success_was_entitled s rt jkt ip ua fp w o x :
  (run (Refresh s rt jkt ip ua fp) o w).1 = Ok x →
  ∃ t, GetByTokenHash (SHA256Hex rt) (db w) = Some t ∧
    rotated s t jkt ip ua fp w x (run (Refresh s rt jkt ip ua fp) o w).2.
Proof. intros Hx. by apply (wp_run any _ _ w o (λ _, I) (refresh_spec s rt jkt ip ua fp w)). Qed.
End rotation_facts.

(** ** What a refused request can do *)
(** The only writes of a refusal revoke the family [f]. *)
Definition revokes (f : string) {B} (s : stmt B) : bool :=
  match s with SRevokeFamily g => bool_decide (g = f) | _ => false end.

Fixpoint only_revokes (f : string) {A} (p : prog A) : Prop :=
  match p with
  | Ret _ => True
  | Do s k => keeps_db s || revokes f s = true ∧ ∀ a, only_revokes f (k a)
  end.

Lemma only_revokes_bind f {A B} (p : prog A) (k : A → prog B) :
  only_revokes f p → (∀ a, only_revokes f (k a)) → only_revokes f (bind p k).
Proof. intros Hp Hk. induction p as [a|C s q IH]; cbn in *; [apply Hk|]. destruct Hp. split; auto. Qed.

Lemma framed_only_revokes f {A} (p : prog A) : framed p → only_revokes f p.
Proof. induction p as [a|B s k IH]; cbn; [done|]. intros [-> Hk]. split; [done|auto]. Qed.

Lemma RevokeFamily_idem f d : RevokeFamily f (RevokeFamily f d) = RevokeFamily f d.
Proof.
  unfold RevokeFamily, update, with_tokens. destruct d as [ts us]. cbn. f_equal.
  rewrite <- list_fmap_compose. apply list_fmap_ext. intros _ r _. unfold compose, of_family.
  destruct (decide (family_id r = f)) as [E|E];
    [rewrite (bool_decide_true _ E); cbn; by rewrite (bool_decide_true _ E)|by rewrite !(bool_decide_false _ E)].
Qed.

(** Walks a concrete handler: every statement is a read, an audit line or the
    revocation. *)
Ltac walk_revokes :=
  repeat first
    [ progress (unfold log_event, metric; cbn)
    | match goal with
      | |- _ ∧ _ => split
      | |- forall _, _ => intros ?
      | |- context [match ?x with _ => _ end] => destruct x
      end
    | done | by apply bool_decide_eq_true ].

Section refusals.
Context {C : Type} `{CacheOps C} `{Primitives}.
Implicit Types w : World C.
Implicit Types s : AuthService.

(** The database is as it was, or the family is revoked and nothing else. *)
Definition contained f w w' : Prop := db w' = db w ∨ db w' = RevokeFamily f (db w).

Lemma contained_trans f w1 w2 w3 : contained f w1 w2 → contained f w2 w3 → contained f w1 w3.
Proof.
  unfold contained. intros [E|E] [E'|E']; rewrite E', E; auto. right. apply RevokeFamily_idem.
Qed.

Lemma perform_revokes f c {B} (s : stmt B) w :
  keeps_db s || revokes f s = true → contained f w (perform c s w).2.
Proof.
  intros [Hs|Hs]%orb_true_iff; [left; by apply perform_keeps|].
  destruct s; try discriminate Hs. apply bool_decide_eq_true in Hs as ->.
  unfold contained. cbn. unfold on_db. destruct (c_db c); cbn; auto.
Qed.

Lemma wp_only_revokes f P {A} (p : prog A) (Q : A → World C → Prop) w :
  only_revokes f p → (∀ a w', contained f w w' → Q a w') → wp P p Q w.
Proof.
  revert w. induction p as [a|B s k IH]; intros w Hp HQ; cbn; [apply HQ; by left|].
  destruct Hp as [Hs Hk]. intros c _. pose proof (perform_revokes f c s w Hs) as Hw.
  apply IH; [done|]. intros a w' Hw'. by eapply HQ, contained_trans.
Qed.

Lemma lifetime_revokes s t ip : only_revokes (FamilyID t) (enforceSessionLifetime s t ip).
Proof. unfold enforceSessionLifetime. walk_revokes. Qed.
Lemma inactivity_revokes s t ip : only_revokes (FamilyID t) (enforceSessionInactivity s t ip).
Proof. unfold enforceSessionInactivity. walk_revokes. Qed.
Lemma reuse_revokes s t ip reason : only_revokes (FamilyID t) (containRefreshReuse s t ip reason).
Proof. unfold containRefreshReuse. walk_revokes. Qed.

Lemma lifetime_framed s t ip :
  maxSessionLifetime (tokenSvc s) ≤ 0 → framed (enforceSessionLifetime s t ip).
Proof.
  intros Hm. unfold enforceSessionLifetime. cbn zeta. rewrite (proj2 (Z.ltb_ge _ _) Hm). walk_revokes.
Qed.
Lemma inactivity_framed s t ip :
  inactivityTimeout (tokenSvc s) ≤ 0 → framed (enforceSessionInactivity s t ip).
Proof.
  intros Hm. unfold enforceSessionInactivity. cbn zeta. by rewrite (proj2 (Z.leb_le _ _) Hm).
Qed.

Lemma found_hash rt P w t (k : option RefreshToken → prog (res authErr RefreshResult)) Q :
  GetByTokenHash (SHA256Hex rt) (db w) = Some t →
  (∀ w1 e, db_kept w w1 → Q (Err e) w1) →
  (∀ w1, db_kept w w1 → wp P (k (Some t)) Q w1) →
  wp P (stored <-! repo (SGetByTokenHash (SHA256Hex rt)) ;; k stored) Q w.
Proof.
  intros Ht Herr Hk. apply wp_bind. unfold repo. apply wp_bind.
  apply (wp_read _ _ (GetByTokenHash (SHA256Hex rt))); [done|]. intros w1 r H1 Hr. cbn [wp].
  destruct Hr as [->| ->]; [rewrite Ht; by apply Hk|by apply Herr].
Qed.

(** A refusal of [t] whose pieces change the database within [R]. *)
Section within.
Variables (s : AuthService) (t : RefreshToken) (rt jkt ip ua : string) (fp : FingerprintInput).
Variable R : DB → DB → Prop.
Hypothesis R_refl : ∀ d, R d d.
Let moves {A} (p : prog A) : Prop := ∀ w, wp any p (λ _ w', R (db w) (db w')) w.
Hypothesis lifetime_moves : moves (enforceSessionLifetime s t ip).
Hypothesis inactivity_moves : moves (enforceSessionInactivity s t ip).
Hypothesis reuse_moves : TUsed t = true → moves (containRefreshReuse s t ip "replay_detected").
Hypothesis fingerprint_moves :
  FingerprintHash t ≠ "" → FingerprintHash t ≠ request_fp ip ua fp → moves (call (SRevokeFamily (FamilyID t))).

(** The next check of the chain, entered with the database untouched. *)
Lemma check_step {A} (p : prog (res authErr A)) (k : A → prog (res authErr RefreshResult)) d w :
  db w = d → moves p → wp any p (λ r w', ∀ x, r = Ok x → db_kept w w') w →
  (∀ x w', db w' = d → wp any (k x) (λ r w', is_ok r = false ∧ R d (db w')) w') →
  wp any (x <-! p ;; k x) (λ r w', is_ok r = false ∧ R d (db w')) w.
Proof.
  intros <- Hm Hok Hk. apply wp_bind. eapply wp_mono; [|exact (wp_and _ _ _ _ _ Hok (Hm w))].
  cbn beta. intros [x|e] w' [Hx HR]; [|by cbn]. apply Hk. by apply (Hx x).
Qed.

Lemma wrong_key_wp w :
  GetByTokenHash (SHA256Hex rt) (db w) = Some t → DPoPJKT t ≠ "" → DPoPJKT t ≠ jkt →
  wp any (Refresh s rt jkt ip ua fp) (λ r w', is_ok r = false ∧ R (db w) (db w')) w.
Proof.
  intros Ht Hk Hj. unfold Refresh.
  eapply (found_hash rt); [exact Ht|intros w1 e [-> _]; by auto|]. intros w1 [Hd1 _].
  assert (Hkept : ∀ e w2, db w2 = db w →
    wp any (Ret (Err e : res authErr RefreshResult)) (λ r w', is_ok r = false ∧ R (db w) (db w')) w2).
  { intros e w2 E. cbn. rewrite E. auto. }
  destruct (TRevoked t); [by apply Hkept|]. destruct (TUsed t) eqn:Eus.
  { apply wp_bind. eapply wp_mono; [|by apply reuse_moves]. cbn. intros _ w2. by rewrite Hd1. }
  apply wp_bind, wp_now. intros w2 [Hd2 _]. rewrite Hd1 in Hd2.
  destruct (ExpiresAt t <? clock w2); [by apply Hkept|].
  apply check_step; [done|done| |].
  { eapply wp_mono; [|apply lifetime_ok]. cbn. intros r w' Hr x Hx. by apply (Hr x). }
  intros o w3 Hd3. apply check_step; [done|done| |].
  { eapply wp_mono; [|apply inactivity_ok]. cbn. intros r w' Hr x Hx. by apply (Hr x). }
  intros _ w4 Hd4. cbn zeta. fold (request_fp ip ua fp).
  unfold CompareFingerprints. rewrite SecureCompare_eq.
  destruct (negb (bool_decide (FingerprintHash t = ""))
    && negb (bool_decide (FingerprintHash t = request_fp ip ua fp))) eqn:Efp.
  { apply andb_true_iff in Efp as [E1%negb_true_iff%bool_decide_eq_false E2%negb_true_iff%bool_decide_eq_false].
    apply wp_bind. eapply wp_mono; [|by apply (fingerprint_moves E1 E2)]. cbn beta. intros _ w5 HR.
    apply wp_bind, wp_framed; [by split|]. intros _ w6 [E6 _]. cbn. by rewrite E6, <- Hd4. }
  apply wp_bind. eapply wp_mono; [|apply binding_ok]. intros r5 w5 [[Hd5 _] [[_ [?|?]]|[-> _]]]; [done|done|].
  apply Hkept. congruence.
Qed.
End within.

Lemma revokes_moves f {A} (p : prog A) w :
  only_revokes f p → wp any p (λ _ w', db w' = db w ∨ db w' = RevokeFamily f (db w)) w.
Proof. intros Hp. by apply (wp_only_revokes f). Qed.
Lemma framed_moves {A} (p : prog A) w : framed p → wp any p (λ _ w', db w' = db w) w.
Proof. intros Hp. apply wp_framed; [done|]. by intros _ w' []. Qed.

(** A thief who holds a sender-constrained refresh token but not its key
    gets nothing out of it, under every fault: the request fails, and the most
    it changes is to revoke the family.  When the session bounds are off, the
    token unspent and the fingerprint the family's own, it changes nothing at
    all: the owner's token is still good. *)
Theorem wrong_key_spends_nothing s rt jkt ip ua fp w t o :
  GetByTokenHash (SHA256Hex rt) (db w) = Some t → DPoPJKT t ≠ "" → DPoPJKT t ≠ jkt →
  let w' := (run (Refresh s rt jkt ip ua fp) o w).2 in
  is_ok (run (Refresh s rt jkt ip ua fp) o w).1 = false ∧
  (db w' = db w ∨ db w' = RevokeFamily (FamilyID t) (db w)) ∧
  (TUsed t = false → maxSessionLifetime (tokenSvc s) ≤ 0 → inactivityTimeout (tokenSvc s) ≤ 0 →
   (FingerprintHash t = "" ∨ FingerprintHash t = request_fp ip ua fp) → db w' = db w).
Proof.
  intros Ht Hk Hj. cbn zeta.
  destruct (wp_run any _ _ w o (λ _, I) (wrong_key_wp s t rt jkt ip ua fp
    (λ d d', d' = d ∨ d' = RevokeFamily (FamilyID t) d) (λ d, or_introl eq_refl)
    (λ w, revokes_moves _ _ w (lifetime_revokes s t ip)) (λ w, revokes_moves _ _ w (inactivity_revokes s t ip))
    (λ _ w, revokes_moves _ _ w (reuse_revokes s t ip _))
    (λ _ _ w, revokes_moves _ (call (SRevokeFamily (FamilyID t))) w
       (conj (bool_decide_eq_true_2 _ eq_refl) (λ _, I))) w Ht Hk Hj)) as [Herr Hdb].
  split_and!; [done|done|]. intros Hu Hm Hi Hf.
  refine (proj2 (wp_run any _ _ w o (λ _, I) (wrong_key_wp s t rt jkt ip ua fp (λ d d', d' = d)
    (λ d, eq_refl) (λ w, framed_moves _ w (lifetime_framed s t ip Hm))
    (λ w, framed_moves _ w (inactivity_framed s t ip Hi)) _ _ w Ht Hk Hj))).
  - congruence.
  - intros ? ?. by destruct Hf.
Qed.

(** C20. Replaying a spent refresh token ends its session: with the database up,
    the request is answered [ErrReplayDetected] and every row of the family,
    the thief's newest one included, is revoked; no other row changes. *)
Theorem replay_burns_family s rt jkt ip ua fp w t o :
  (∀ n, c_db (o n) = NoFault) →
  GetByTokenHash (SHA256Hex rt) (db w) = Some t → TRevoked t = false → TUsed t = true →
  (run (Refresh s rt jkt ip ua fp) o w).1 = Err ErrReplayDetected ∧
  db (run (Refresh s rt jkt ip ua fp) o w).2 = RevokeFamily (FamilyID t) (db w) ∧
  burned (FamilyID t) (db (run (Refresh s rt jkt ip ua fp) o w).2).
Proof.
  intros Ho Ht Hrv Hus.
  assert (Hwp : wp (λ c, c_db c = NoFault) (Refresh s rt jkt ip ua fp)
    (λ r w', r = Err ErrReplayDetected ∧ db w' = RevokeFamily (FamilyID t) (db w)) w).
  { unfold Refresh, repo. intros c Hc. cbn [call bind wp perform]. unfold on_db.
    change (db (tick c w)) with (db w). rewrite Hc, Ht. cbn [faulty fst snd]. rewrite Hrv, Hus.
    unfold containRefreshReuse. intros c2 Hc2. cbn [call bind wp perform]. unfold on_db. rewrite Hc2.
    cbn [faulty fst snd]. unfold metric, log_event. destruct (has_metrics s); cbn; auto. }
  destruct (wp_run _ _ _ w o Ho Hwp) as [Hr Hd]. split_and!; [done|done|]. rewrite Hd.
  unfold GetByTokenHash in Ht. destruct (head _) as [r|] eqn:Eh; [|done]. cbn in Ht.
  apply head_Some_elem_of in Eh. apply list_elem_of_filter in Eh as [_ Hin].
  apply (RevokeFamily_burns _ _ r). apply elem_of_family. by simplify_eq.
Qed.

(** Revoking a user's rows leaves none of them active. *)
Lemma RevokeAll_rows u d r : r ∈ tokens (RevokeAllForUser u d) → user_id r = u → revoked r = true.
Proof.
  intros (x & -> & Hx)%list_elem_of_fmap. case_match eqn:E; [done|]. intros Hu.
  rewrite bool_decide_true in E by done. cbn in E. by apply negb_false_iff in E.
Qed.

(** C35. Logout ends every session of the account: when it reports success, no
    family of the user counts as active at any later instant, and no refresh
    token of the user, however and whenever it is presented, rotates again or
    writes anything. *)
Theorem logout_ends_every_session u ip w o :
  (run (Logout u ip) o w).1 = Ok tt →
  let w1 := (run (Logout u ip) o w).2 in
  (∀ now, CountActiveFamilies now u (db w1) = 0) ∧
  (∀ s rt jkt ip' ua fp t o' w2, db w2 = db w1 →
     GetByTokenHash (SHA256Hex rt) (db w2) = Some t → TUserID t = u →
     is_ok (run (Refresh s rt jkt ip' ua fp) o' w2).1 = false ∧
     db (run (Refresh s rt jkt ip' ua fp) o' w2).2 = db w2).
Proof.
  assert (Hwp : wp any (Logout u ip) (λ r w', r = Ok tt → db w' = RevokeAllForUser u (db w)) w).
  { intros c _. cbn. unfold on_db. by destruct (c_db c); cbn. }
  intros Hok. pose proof (wp_run any _ _ w o (λ _, I) Hwp Hok) as Hd. cbn zeta. rewrite Hd. split.
  - intros now. unfold CountActiveFamilies. enough (active_families now u (RevokeAllForUser u (db w)) = []) as -> by done.
    apply elem_of_nil_inv. intros f (r & Hr & _ & Ha)%active_families_elem. unfold active_of, active in Ha.
    bool_hyps. by rewrite (RevokeAll_rows u (db w) r) in *.
  - intros s rt jkt ip' ua fp t o' w2 Hw2 Ht Hu.
    refine (wp_run any _ (λ r w', is_ok r = false ∧ db w' = db w2) w2 o' (λ _, I) _).
    unfold Refresh. eapply (found_hash rt); [exact Ht|intros w3 e []; by auto|]. intros w3 [Hd3 _].
    enough (TRevoked t = true) as -> by (cbn; auto).
    unfold GetByTokenHash in Ht. destruct (head _) as [r|] eqn:Eh; [|done]. cbn in Ht.
    apply head_Some_elem_of in Eh. apply list_elem_of_filter in Eh as [_ Hin].
    simplify_eq/=. rewrite Hw2 in Hin. by eapply RevokeAll_rows.
Qed.
End refusals.
