(* ===== verification/SessionLive.v ===== *)
(** * SessionLive: roles in tokens, and a refresh that must succeed

    Two halves of what a client relies on: the roles a session's tokens carry
    are never administrative and always current within the catalogue's TTL, and
    a refresh that is entitled to succeed does succeed when its dependencies
    answer. *)
From S2P Require Import Prelude GoStd Cache Crypto Model TokenStore TokenStoreFacts UserStore Effects TokenService Lockout Session Login SessionFacts Race.
From stdpp Require Import list.
From Stdlib Require Import Ascii.
Open Scope string_scope.
Open Scope Z_scope.
Open Scope prog_scope.

Section roles.
Context {C : Type} `{CacheOps C} `{Primitives}.
Implicit Types w : World C.

(** A name the catalogue vouches for: in the table now, or in a copy of it
    younger than the TTL. *)
Definition catalogued (s : AuthService) w (r : string) : Prop :=
  r ∈ app_roles w ∨ ∃ names at_, catalog w = Some (names, at_) ∧ r ∈ names ∧ clock w - at_ < catalogTTL s.

Definition db_up (c : Effects.choice) : Prop := c_db c = NoFault.

Lemma cached_spec P s w :
  wp P (catalog_cached s)
    (λ x w', catalog w' = catalog w ∧ app_roles w' = app_roles w ∧ clock w ≤ clock w' ∧
       x.1 = fst <$> catalog w ∧
       (x.2 = true → ∃ names at_, catalog w = Some (names, at_) ∧ clock w - at_ < catalogTTL s)) w.
Proof.
  unfold catalog_cached. intros c _. cbn. destruct (catalog w) as [[names at_]|] eqn:E; cbn.
  - intros c2 _. cbn. split_and!; [done|done|lia|done|]. intros Hf%Z.ltb_lt.
    exists names, at_. split; [done|]. lia.
  - split_and!; [done|done|lia|done|done].
Qed.

(** Against a database that answers, the current set is vouched for. *)
Lemma current_spec s w :
  wp db_up (catalog_current s) (λ x w', ∃ names, x = Some names ∧ ∀ r, r ∈ names → catalogued s w r) w.
Proof.
  unfold catalog_current. apply wp_bind. eapply wp_mono; [|apply cached_spec].
  intros [x1 f1] w1 (Hc1 & Ha1 & Ht1 & Hx1 & Hf1). cbn in Hx1, Hf1. subst x1. destruct f1.
  { destruct (Hf1 eq_refl) as (names & at_ & E & Hlt). rewrite E. exists names. split; [done|].
    intros r Hr. right. by exists names, at_. }
  apply wp_bind. eapply wp_mono; [|apply cached_spec].
  intros [x2 f2] w2 (Hc2 & Ha2 & Ht2 & Hx2 & Hf2). cbn in Hx2, Hf2. subst x2. destruct f2.
  { destruct (Hf2 eq_refl) as (names & at_ & E & Hlt). rewrite E. exists names. split; [done|].
    intros r Hr. right. exists names, at_. rewrite <- Hc1. split_and!; [done|done|lia]. }
  intros c Hc. cbn. unfold db_up in Hc. rewrite Hc. cbn. intros c2 _ c3 _. cbn.
  exists (app_roles w2). split; [done|]. intros r Hr. left. congruence.
Qed.

Lemma FilterUserRoles_spec rs r : r ∈ FilterUserRoles rs ↔ IsReservedAdminRole r = false ∧ r ∈ rs.
Proof. unfold FilterUserRoles. by rewrite list_elem_of_filter. Qed.

(** What [effectiveRoles] answers, given what its filter does. *)
Definition role_ok (s : AuthService) (rs : list string) (known : string → Prop) (out : list string) : Prop :=
  out ≠ [] ∧ ∀ r, r ∈ out →
    IsReservedAdminRole r = false ∧ (r = "user" ∨ r ∈ rs ∧ (has_roleCatalog s = true → known r)).

Lemma default_role s rs known out :
  (∀ r, r ∈ out → IsReservedAdminRole r = false ∧ r ∈ rs ∧ (has_roleCatalog s = true → known r)) →
  role_ok s rs known (match out with [] => ["user"] | _ => out end).
Proof.
  intros Hout. destruct out as [|x out].
  - split; [done|]. intros r ->%list_elem_of_singleton. split; [done|by left].
  - split; [done|]. intros r Hr. destruct (Hout r Hr) as (? & ? & ?). auto.
Qed.

Lemma effective_wp P s rs w (known : string → Prop) :
  wp P (catalog_current s) (λ x _, ∀ r, r ∈ FilterUserRoles rs → match x with Some names => r ∈ names → known r | None => known r end) w →
  wp P (effectiveRoles s rs) (λ out _, role_ok s rs known out) w.
Proof.
  intros Hcur. unfold effectiveRoles. cbn zeta. apply wp_bind.
  destruct (has_roleCatalog s) eqn:Ecat.
  - unfold catalog_Filter. destruct (FilterUserRoles rs) as [|x l] eqn:El.
    { cbn. apply (default_role s rs known []). intros r Hr. by apply elem_of_nil in Hr. }
    apply wp_bind. eapply wp_mono; [|exact Hcur]. cbn beta. intros cat w' Hk. cbn [wp].
    apply default_role. intros r Hr.
    assert (Hin : r ∈ FilterUserRoles rs ∧ known r).
    { rewrite El. destruct cat as [names|]; [|by split; [|apply Hk]].
      apply list_elem_of_filter in Hr as [Hn Hr]. split; [done|]. by apply Hk. }
    destruct Hin as [[? ?]%FilterUserRoles_spec ?]. by split_and!.
  - cbn. apply default_role. intros r [? ?]%FilterUserRoles_spec. split_and!; [done|done|by rewrite Ecat].
Qed.

(** The roles a session's tokens carry are safe whatever the stores do:
    never empty, never an administrative tier in any spelling, and each either
    the default or a role the account holds.  With the role catalogue on and
    the database answering, each is also in the catalogue: a role removed from
    it leaves every token within the TTL. *)
Theorem session_roles_are_safe s rs w o :
  let out := (run (effectiveRoles s rs) o w).1 in
  out ≠ [] ∧
  (∀ r, r ∈ out → IsReservedAdminRole r = false ∧ (r = "user" ∨ r ∈ rs)) ∧
  (has_roleCatalog s = true → (∀ n, c_db (o n) = NoFault) → ∀ r, r ∈ out → r = "user" ∨ catalogued s w r).
Proof.
  assert (Hany : wp any (effectiveRoles s rs) (λ out _, role_ok s rs (λ _, True) out) w).
  { apply effective_wp. eapply wp_mono; [|apply (wp_clock any _ w)]. cbn. by intros [] *. }
  assert (Hup : wp db_up (effectiveRoles s rs) (λ out _, role_ok s rs (catalogued s w) out) w).
  { apply effective_wp. eapply wp_mono; [|apply current_spec]. cbn. intros x w' (names & -> & Hn) r _. apply Hn. }
  cbn zeta. destruct (wp_run any _ _ w o (λ _, I) Hany) as [Hne Hr]. split_and!; [done| |].
  - intros r Hin. destruct (Hr r Hin) as [? [?|[? _]]]; auto.
  - intros Hcat Ho r Hin. destruct (wp_run db_up _ _ w o Ho Hup) as [_ Hr'].
    destruct (Hr' r Hin) as [_ [?|[_ Hk]]]; auto.
Qed.
End roles.

(** ** A refresh that must succeed *)
Section live.
Context {C : Type} `{CacheOps C} `{Primitives}.
Implicit Types w : World C.
Variables (s : AuthService) (t : RefreshToken) (jkt ip ua : string) (fp : FingerprintInput) (d : DB) (u : User) (D : Z).

(** The session is one the server means to continue until [D]. *)
Record entitled (rt : string) (now : Z) : Prop := mkEntitled {
  en_inv : store_inv d;
  en_found : GetByTokenHash (SHA256Hex rt) d = Some t;
  en_unspent : TUsed t = false;
  en_unrevoked : Forall (λ r, revoked r = false) (family (FamilyID t) d);
  en_expiry : D ≤ ExpiresAt t;
  en_fingerprint : FingerprintHash t = "" ∨ FingerprintHash t = request_fp ip ua fp;
  en_key : DPoPJKT t = "" ∨ DPoPJKT t = jkt;
  en_user : users d !! TUserID t = Some u;
  en_holds : ∀ now', now ≤ now' → holds_sessions now' u = true;
  en_lifetime : 0 < maxSessionLifetime (tokenSvc s) → dates_families s = true ∧
    ∃ x, FamilyOrigin (FamilyID t) d = Some x ∧ x ≠ zero_time ∧ D ≤ x + maxSessionLifetime (tokenSvc s);
  en_idle : 0 < inactivityTimeout (tokenSvc s) →
    ∃ x, TCreatedAt t = Some x ∧ x ≠ zero_time ∧ D ≤ x + inactivityTimeout (tokenSvc s)
}.

(** Dependencies answer, and the entropy source does not repeat a stored name. *)
Definition fresh_draw (x : string) : Prop :=
  Forall (λ r, id r ≠ x ∧ token_hash r ≠ SHA256Hex x) (tokens d).
Definition smooth (c : Effects.choice) : Prop := healthy c ∧ fresh_draw (c_rand c).

Definition done_by {A} (r : res authErr A) w' : Prop := is_ok r = true ∨ D ≤ clock w'.

Lemma late P {A} (p : prog (res authErr A)) w : D ≤ clock w → wp P p done_by w.
Proof. intros HD. eapply wp_mono; [|apply (wp_clock P p w)]. cbn. right. lia. Qed.

(** Passing one check of the chain. *)
Lemma pass {A B} (p : prog (res authErr A)) (k : A → prog (res authErr B)) w (I : World C → World C → Prop) :
  wp smooth p done_by w → wp any p (λ r w', ∀ x, r = Ok x → I w w') w →
  (∀ x w', I w w' → wp smooth (k x) done_by w') →
  wp smooth (x <-! p ;; k x) done_by w.
Proof.
  intros Hl Ho Hk. apply wp_bind.
  eapply wp_mono; [|exact (wp_and _ _ _ _ _ Hl (wp_weaken any smooth _ _ _ (λ _ _, Logic.I) Ho))].
  cbn beta. intros [x|e] w' [Hd HI]; [by eapply Hk, HI|].
  cbn. right. by destruct Hd.
Qed.

Lemma read_live {A} (st : stmt (res repoErr A)) (f : DB → A) w (Q : res repoErr A → World C → Prop) :
  (∀ c w, perform c st w = on_db c (λ d, (Ok (f d), d)) (tick c w)) →
  (∀ w', db_kept w w' → Q (Ok (f (db w))) w') → wp smooth (call st) Q w.
Proof.
  intros Hp HQ c [(_ & Hdb & _) _]. cbn [call wp]. rewrite Hp. unfold on_db. rewrite Hdb. apply HQ.
  split; [done|cbn; lia].
Qed.

Lemma random_live w (Q : res authErr string → World C → Prop) :
  (∀ x w', fresh_draw x → db_kept w w' → Q (Ok x) w') → wp smooth (call SRandom) Q w.
Proof.
  intros HQ c [(_ & _ & Hdry & _) Hf]. cbn. rewrite Hdry. apply HQ; [done|]. split; [done|cbn; lia].
Qed.

Variables (rt : string) (now0 : Z).
Hypothesis en : entitled rt now0.
Hypothesis signs : ∀ cl k, is_ok (SignToken cl k) = true.

Lemma lifetime_live w : db w = d → wp smooth (enforceSessionLifetime s t ip) done_by w.
Proof.
  intros Hd. unfold enforceSessionLifetime. cbn zeta.
  destruct (Z.ltb_spec 0 (maxSessionLifetime (tokenSvc s))) as [Hb|Hb]; cbn [negb].
  - destruct (en_lifetime _ _ en Hb) as (-> & x & Hx & Hz & HD). cbn [negb].
    apply wp_bind, (read_live _ (FamilyOrigin (FamilyID t))); [done|]. intros w1 H1. rewrite Hd, Hx. cbn [nonzero].
    rewrite (proj2 (Z.eqb_neq _ _) Hz). apply wp_bind, wp_now. intros w2 H2.
    destruct (Z.ltb_spec (clock w2) (x + maxSessionLifetime (tokenSvc s))); [by left|apply late; lia].
  - destruct (dates_families s); cbn [negb]; [|by left].
    apply wp_bind, (read_live _ (FamilyOrigin (FamilyID t))); [done|]. intros w1 H1. case_match; by left.
Qed.

Lemma inactivity_live w : wp smooth (enforceSessionInactivity s t ip) done_by w.
Proof.
  unfold enforceSessionInactivity. cbn zeta.
  destruct (Z.leb_spec (inactivityTimeout (tokenSvc s)) 0) as [Hb|Hb]; [by left|].
  destruct (en_idle _ _ en Hb) as (x & -> & Hz & HD). cbn [nonzero]. rewrite (proj2 (Z.eqb_neq _ _) Hz).
  apply wp_bind, wp_now. intros w2 H2.
  destruct (Z.ltb_spec (clock w2) (x + inactivityTimeout (tokenSvc s))); [by left|apply late; lia].
Qed.

(** The stored row behind [t]. *)
Lemma stored_row : ∃ r, r ∈ tokens d ∧ t = to_token r ∧ used r = false ∧ revoked r = false.
Proof.
  pose proof (en_found _ _ en) as Hf. unfold GetByTokenHash in Hf.
  destruct (head _) as [r|] eqn:Eh; [|done]. cbn in Hf. injection Hf as Hf.
  apply head_Some_elem_of, list_elem_of_filter in Eh as [_ Hin]. exists r. split_and!; [done|done| |].
  - pose proof (en_unspent _ _ en) as Hu. by rewrite <- Hf in Hu.
  - pose proof (en_unrevoked _ _ en) as Hu. rewrite Forall_forall, <- Hf in Hu. apply Hu. by apply elem_of_family.
Qed.

Lemma mark_succeeds : (MarkUsed (TID t) d).1 = true.
Proof.
  destruct stored_row as (r & Hr & Ht & Hus & Hrv). destruct (en_inv _ _ en) as [Hnd _]. rewrite Ht.
  unfold MarkUsed, affected. cbn. apply Nat.eqb_eq. induction (tokens d) as [|x l IH]; [by apply elem_of_nil in Hr|].
  rewrite fmap_cons, NoDup_cons in Hnd. destruct Hnd as [Hx Hnd]. rewrite filter_cons.
  apply elem_of_cons in Hr as [<-|Hr].
  - rewrite decide_True by (by rewrite bool_decide_true, Hus, Hrv). cbn. f_equal.
    enough (filter (λ x, bool_decide (id x = id r) && negb (used x) && negb (revoked x) = true) l = []) as -> by done.
    apply elem_of_nil_inv. intros y [Hy Hin]%list_elem_of_filter. bool_hyps. apply Hx.
    apply list_elem_of_fmap. exists y. split; [|done]. congruence.
  - rewrite decide_False; [by apply IH|]. intros Hb. bool_hyps. apply Hx. apply list_elem_of_fmap.
    exists r. split; [|done]. congruence.
Qed.
Lemma mark_row_rows r' : r' ∈ tokens (MarkUsed (TID t) d).2 →
  ∃ r, r ∈ tokens d ∧ id r' = id r ∧ token_hash r' = token_hash r ∧ family_id r' = family_id r ∧ revoked r' = revoked r.
Proof. cbn. intros (r & -> & Hr)%list_elem_of_fmap. exists r. split; [done|]. by case_match. Qed.

Lemma create_succeeds n x y :
  FamilyID n = FamilyID t → TUserID n = TUserID t → TID n = x → TokenHash n = SHA256Hex y →
  fresh_draw x → fresh_draw y → (Create n (MarkUsed (TID t) d).2).1 = Ok tt.
Proof.
  unfold fresh_draw. rewrite !Forall_forall. intros Ef Eu Ei Eh Hx Hy. unfold Create.
  assert (Hg : insert_guard n (MarkUsed (TID t) d).2 = true).
  { unfold insert_guard. apply andb_true_iff. split.
    - apply negb_true_iff, not_true_iff_false. intros (r' & Hr'%list_elem_of_In & Hv)%existsb_exists.
      apply elem_of_family in Hr' as [Hin Hf]. destruct (mark_row_rows r' Hin) as (r & Hr & _ & _ & Hfr & Hrr).
      pose proof (en_unrevoked _ _ en) as Hall. rewrite Forall_forall in Hall.
      specialize (Hall r). rewrite elem_of_family in Hall. rewrite Hall in Hrr; [congruence|].
      split; [done|congruence].
    - pose proof (en_holds _ _ en now0 (Z.le_refl _)) as Hh. unfold holds_sessions in Hh. bool_hyps.
      unfold live_user. cbn. rewrite Eu, (en_user _ _ en). by rewrite negb_true_iff. }
  rewrite Hg. case_match eqn:Ee; [|done]. exfalso.
  apply existsb_exists in Ee as (r' & Hr'%list_elem_of_In & Hb).
  destruct (mark_row_rows r' Hr') as (r & Hr & Hid & Hh & _).
  apply orb_true_iff in Hb as [Hb|Hb]; apply bool_decide_eq_true in Hb.
  - destruct (Hx r Hr) as [Hne _]. congruence.
  - destruct (Hy r Hr) as [_ Hne]. congruence.
Qed.

Lemma account_live w : db w = (MarkUsed (TID t) d).2 → now0 ≤ clock w →
  wp smooth (accountStillHoldsSessions t) (λ r w', r = Ok u ∧ db_kept w w') w.
Proof.
  intros Hd Hc. unfold accountStillHoldsSessions.
  apply wp_bind, (read_live _ (GetByID (TUserID t))); [done|]. intros w1 H1.
  apply wp_bind, wp_now. intros w2 H2. rewrite Hd. unfold GetByID. cbn. rewrite (en_user _ _ en).
  rewrite (en_holds _ _ en (clock w2)) by (destruct H1, H2; lia). split; [done|]. by eapply db_kept_trans.
Qed.

Lemma sign_live cl k w (Q : res authErr string → World C → Prop) :
  (∀ tok w', db_kept w w' → Q (Ok tok) w') → wp smooth (call (SSign cl k)) Q w.
Proof.
  intros HQ c _. cbn. pose proof (signs cl k) as Hs. destruct (SignToken cl k); [|done].
  apply HQ. split; [done|cbn; lia].
Qed.

Lemma issue_live ts roles o f w :
  wp smooth (IssueRotatedPair ts (DPoPJKT t) (TUserID t) roles ["read"; "write"] (TClientID t) f (FamilyID t) o)
    (λ r w', ∃ pr, r = Ok pr ∧ fresh_draw (RefreshTokenRaw pr) ∧ db_kept w w') w.
Proof.
  unfold IssueRotatedPair, IssueTokenPairWithAuth. apply wp_bind, wp_bind, wp_now. intros w1 H1.
  apply wp_bind, random_live. intros jti w2 _ H2. apply wp_bind, sign_live. intros tok w3 H3.
  apply wp_bind, random_live. intros x w4 Hx H4.
  assert (H14 : db_kept w w4) by (do 3 (eapply db_kept_trans; [eassumption|]); done).
  case_bool_decide; cbn [wp bind].
  - intros c [(_ & _ & Hdry & _) _]. cbn. rewrite Hdry. cbn. eexists. split_and!; [done|done|].
    destruct H14. split; [done|cbn; lia].
  - eexists. by split_and!.
Qed.

Lemma rotated_live roles f o w : db w = (MarkUsed (TID t) d).2 →
  wp smooth (issueRotatedPair s t roles f o ip) (λ r _, is_ok r = true) w.
Proof.
  intros Hd. unfold issueRotatedPair. apply wp_bind. eapply wp_mono; [|apply issue_live].
  intros _ w1 (pr & -> & Hf & H1). apply wp_bind, random_live. intros x w2 Hx H2.
  apply wp_bind, wp_now. intros w3 H3. apply wp_bind. intros c [(_ & Hdb & _) _]. cbn [call wp perform].
  unfold on_db. rewrite Hdb. cbn [faulty]. change (db (tick c w3)) with (db w3).
  assert (E : db w3 = (MarkUsed (TID t) d).2) by (destruct H1, H2, H3; congruence). rewrite E.
  set (n := mkRefreshToken _ _ _ _ _ _ _ _ _ _ _ _).
  pose proof (create_succeeds n x (RefreshTokenRaw pr) eq_refl eq_refl eq_refl eq_refl Hx Hf) as Hc.
  destruct (Create n _) as [r d']. cbn in Hc |- *. by rewrite Hc.
Qed.

Lemma refresh_live w : db w = d → now0 = clock w → wp smooth (Refresh s rt jkt ip ua fp) done_by w.
Proof.
  intros Hd Hc0. unfold Refresh, repo at 1. apply wp_bind, wp_bind.
  apply (read_live _ (GetByTokenHash (SHA256Hex rt))); [done|]. intros w1 H1.
  rewrite Hd, (en_found _ _ en). cbn [wp]. destruct stored_row as (r & _ & Ht & Hus & Hrv).
  rewrite (en_unspent _ _ en). replace (TRevoked t) with false by (by rewrite Ht).
  apply wp_bind, wp_now. intros w2 H2.
  destruct (Z.ltb_spec (ExpiresAt t) (clock w2)) as [Hl|_]; [apply late; pose proof (en_expiry _ _ en); lia|].
  assert (Hd2 : db w2 = d ∧ now0 ≤ clock w2) by (destruct H1, H2; split; [congruence|lia]).
  eapply (pass _ _ _ db_kept); [apply lifetime_live; by destruct Hd2| |].
  { eapply wp_mono; [|apply lifetime_ok]. intros ? ? Hx x Hr. by apply (Hx x). }
  intros o w3 H3. eapply (pass _ _ _ db_kept); [apply inactivity_live| |].
  { eapply wp_mono; [|apply inactivity_ok]. intros ? ? Hx x Hr. by apply (Hx x). }
  intros _ w4 H4. cbn zeta. fold (request_fp ip ua fp). unfold CompareFingerprints. rewrite SecureCompare_eq.
  replace (negb _ && negb _) with false
    by (destruct (en_fingerprint _ _ en) as [->|E]; [done|rewrite (bool_decide_true _ E); by rewrite andb_false_r]).
  apply wp_bind. eapply wp_mono; [|apply (wp_weaken any); [done|apply binding_ok]].
  intros r5 w5 [H5 Hb]. destruct Hb as [[-> _]|(_ & ? & ?)]; [|by destruct (en_key _ _ en)].
  assert (Hd5 : db w5 = d ∧ now0 ≤ clock w5) by (destruct Hd2, H3, H4, H5; split; [congruence|lia]).
  destruct Hd5 as [Hd5 Hc5]. apply wp_bind. intros c [(_ & Hdb & _) _]. cbn [repo call bind wp perform].
  unfold on_db. rewrite Hdb. change (db (tick c w5)) with (db w5). rewrite Hd5.
  pose proof mark_succeeds as Hm. destruct (MarkUsed (TID t) d) as [b d6] eqn:Em. cbn in Hm. subst b.
  cbn [faulty fst snd negb]. set (w6 := set_db d6 (tick c w5)).
  apply wp_bind. eapply wp_mono; [|apply account_live; [by rewrite Em|cbn; lia]].
  intros _ w7 [-> H7]. apply wp_bind, wp_framed; [apply framed_roles|]. intros roles w8 H8.
  apply wp_bind. eapply wp_mono; [|apply rotated_live; rewrite Em; destruct H7, H8; cbn in *; congruence].
  intros [pr|e] w9 Hok; [|done]. unfold metric, log_event. destruct (has_metrics s); cbn; by left.
Qed.

(** C36. A session the server means to continue does continue: for an entitled
    request, with the dependencies answering, a signer that signs and an
    entropy source that does not repeat a stored name, [Refresh] returns a new
    pair unless the clock passes one of the session's own deadlines while it
    runs. *)
Theorem entitled_refresh_succeeds w o :
  db w = d → now0 = clock w → (∀ n, smooth (o n)) →
  clock (run (Refresh s rt jkt ip ua fp) o w).2 < D →
  is_ok (run (Refresh s rt jkt ip ua fp) o w).1 = true.
Proof.
  intros Hd Hc Ho Hlt. destruct (wp_run smooth _ _ w o Ho (refresh_live w Hd Hc)) as [?|?]; [done|lia].
Qed.
End live.

(** ** Concrete sessions *)
Module SessionDemo.
#[local] Existing Instance Toy.prims.
Definition svc := RaceDemo.svc.
Definition noprint : FingerprintInput := mkFingerprintInput "" "" "" "".
Definition refresh (rt jkt : string) : prog (res authErr RefreshResult) := Refresh svc rt jkt "10.0.0.1" "ua" noprint.
Definition once := run (refresh "cookie" "") Toy.oracle RaceDemo.start.
(** The same session bound to a key, with no session bounds. *)
Definition loose : AuthService :=
  mkAuthService (mkTokenService "k1" "iss" "aud" (15 * minute) (24 * hour) (720 * hour) 0 0)
    true true true true false false false 60 true [] 0 false "pepper" "hmac" "$dummy".
Definition bound_token : RefreshToken :=
  mkRefreshToken "t1" "alice" "" "#cookie" "fam" "" "" "thumb" (2000 * second) false false (Some (999 * second)).
Definition bound : World Memory.MemoryCache := set_db (Create bound_token (db Toy.world)).2 Toy.world.
End SessionDemo.
#[local] Existing Instance Toy.prims.

Lemma refresh_success_was_entitled_witness :
  ∃ t, GetByTokenHash (SHA256Hex (H := Toy.prims) "cookie") (db RaceDemo.start) = Some t ∧
    rotated (H0 := Toy.prims) SessionDemo.svc t "" "10.0.0.1" "ua" SessionDemo.noprint RaceDemo.start
      (mkRefreshResult "k1:alice:r8" 900 "r10" 35998) SessionDemo.once.2.
Proof. apply (refresh_success_was_entitled (H0 := Toy.prims)). vm_compute. reflexivity. Defined.

Lemma wrong_key_spends_nothing_witness :
  is_ok (run (Refresh (H := Toy.prims) SessionDemo.loose "cookie" "other" "10.0.0.1" "ua" SessionDemo.noprint)
           Toy.oracle SessionDemo.bound).1 = false ∧
  db (run (Refresh (H := Toy.prims) SessionDemo.loose "cookie" "other" "10.0.0.1" "ua" SessionDemo.noprint)
        Toy.oracle SessionDemo.bound).2 = db SessionDemo.bound.
Proof.
  destruct (wrong_key_spends_nothing (H0 := Toy.prims) SessionDemo.loose "cookie" "other" "10.0.0.1" "ua"
    SessionDemo.noprint SessionDemo.bound SessionDemo.bound_token Toy.oracle) as (Hr & _ & Hd); [done|done|done|].
  split; [exact Hr|]. apply Hd; [done|cbn; lia|cbn; lia|by left].
Defined.

(** The cookie, rotated once, presented again. *)
Lemma replay_burns_family_witness :
  (run (SessionDemo.refresh "cookie" "") Toy.oracle SessionDemo.once.2).1 = Err ErrReplayDetected ∧
  burned "fam" (db (run (SessionDemo.refresh "cookie" "") Toy.oracle SessionDemo.once.2).2) ∧
  length (tokens (db SessionDemo.once.2)) = 2%nat.
Proof.
  destruct (replay_burns_family (H0 := Toy.prims) SessionDemo.svc "cookie" "" "10.0.0.1" "ua"
    SessionDemo.noprint SessionDemo.once.2
    (mkRefreshToken "t1" "alice" "" "#cookie" "fam" "" "" "" (2000 * second) true false (Some (999 * second)))
    Toy.oracle) as (Hr & _ & Hb); [done|by vm_compute|done|done|].
  split_and!; [exact Hr|exact Hb|by vm_compute].
Defined.

Lemma logout_ends_every_session_witness :
  CountActiveFamilies (1001 * second) "alice" (db SessionDemo.once.2) = 1 ∧
  CountActiveFamilies (1001 * second) "alice" (db (run (H0 := Toy.prims) (Logout "alice" "ip") Toy.oracle SessionDemo.once.2).2) = 0.
Proof.
  split; [by vm_compute|].
  destruct (logout_ends_every_session (H0 := Toy.prims) "alice" "ip" SessionDemo.once.2 Toy.oracle) as [Hc _];
    [by vm_compute|apply Hc].
Defined.

Lemma entitled_refresh_succeeds_witness : is_ok SessionDemo.once.1 = true.
Proof.
  apply (entitled_refresh_succeeds (H0 := Toy.prims) SessionDemo.svc RaceDemo.stolen "" "10.0.0.1" "ua"
    SessionDemo.noprint (db RaceDemo.start) Toy.alice (1999 * second) "cookie" (clock RaceDemo.start)); try done.
  - split; try done.
    + apply RaceDemo.start_sound.
    + by repeat constructor.
    + by left.
    + by left.
    + intros _. split; [done|]. exists (999 * second). by split_and!.
  - intros n. split; [done|]. repeat constructor; cbn; [|]; destruct n; cbn; done.
Defined.
