(* ===== verification/LoginFacts.v ===== *)
(** * LoginFacts: what a login grants, and what a refusal reveals

    A login that succeeds proved the password of an account in good standing
    and either owes a second factor or stored exactly one new session; a login
    that fails stores none and answers alike for every account state; an
    overloaded password hasher changes nothing; a challenge completes at most
    one login; an email code works at most once and never beside a stronger
    factor. *)
From S2P Require Import Prelude GoStd Cache Crypto Model TokenStore TokenStoreFacts UserStore FactorStore Effects TokenService Lockout Session Login SessionFacts.
From stdpp Require Import list.
From Stdlib Require Import Ascii.
Open Scope string_scope.
Open Scope Z_scope.
Open Scope prog_scope.

(** ** Programs built from a class of statements *)
Fixpoint over (ok : ∀ B, stmt B → bool) {A} (p : prog A) : Prop :=
  match p with Ret _ => True | Do s k => ok _ s = true ∧ ∀ a, over ok (k a) end.

Lemma over_bind ok {A B} (p : prog A) (k : A → prog B) :
  over ok p → (∀ a, over ok (k a)) → over ok (bind p k).
Proof. intros Hp Hk. induction p as [a|D s q IH]; cbn in *; [apply Hk|]. destruct Hp. split; auto. Qed.

(** Statements that leave the refresh-token and second-factor tables alone. *)
Definition keeps_tokens (B : Type) (s : stmt B) : bool :=
  match s with
  | SMarkUsed _ | SCreate _ | SCreateWithinCap _ _ | SRevokeFamily _ | SRevokeAllForUser _ | SRevokeAllTokens
  | STotpCreate _ | STotpMarkVerified _ | STotpDelete _
  | SCodesCreate _ | SCodesMarkUsed _ | SCodesInvalidate _ | SPasskeysDelete _ | SCodesPurge _ | STokensDelete _ => false
  | _ => true
  end.

(** Statements that write nothing a later request can read: not the database,
    the cache's contents, the rate limits, the devices or the catalogue; no
    audit line and no deferred work. *)
Definition passive (B : Type) (s : stmt B) : bool :=
  match s with
  | SNow | SRandom | SVerify _ _ _ | SSign _ _ | SGet _ | SCountActiveFamilies _ | SFamilyOrigin _
  | SGetByTokenHash _ | SGetByID _ | SGetByEmail _ | SRateGet _ _ | SDeviceGet _ _ | STotpGet _
  | SPasskeys _ | SCodesUnused _ | SCatalogLoad | SListNames | SLatchLoad | SSleep _
  | SEmit (Metric _) => true
  | _ => false
  end.

(** Walks a concrete program, one statement at a time. *)
Ltac walk :=
  repeat first
    [ progress (unfold log_event, metric, repo; cbn)
    | match goal with
      | |- _ ∧ _ => split
      | |- forall _, _ => intros ?
      | |- context [match ?x with _ => _ end] => destruct x
      end
    | done ].

Section classes.
Context {C : Type} `{CacheOps C} `{Primitives}.
Implicit Types w : World C.

Lemma wp_over ok (R : World C → World C → Prop) P {A} (p : prog A) (Q : A → World C → Prop) w :
  (∀ w, R w w) → (∀ w1 w2 w3, R w1 w2 → R w2 w3 → R w1 w3) →
  (∀ c B (s : stmt B) w, ok B s = true → R w (perform c s w).2) →
  over ok p → (∀ a w', R w w' → Q a w') → wp P p Q w.
Proof.
  intros Hrefl Htrans Hok. revert w. induction p as [a|B s k IH]; intros w Hp HQ; cbn; [by apply HQ|].
  destruct Hp as [Hs Hk]. intros c _. apply IH; [done|]. intros a w' Hw'. eapply HQ, Htrans; [|exact Hw'].
  by apply Hok.
Qed.

(** The token table and the enrolments are as they were. *)
Definition issues_nothing w w' : Prop := tokens (db w') = tokens (db w) ∧ enrolled w' = enrolled w.

Lemma perform_tokens c {B} (s : stmt B) w : keeps_tokens B s = true → issues_nothing w (perform c s w).2.
Proof.
  intros Hs. unfold issues_nothing.
  destruct s; cbn in Hs; try discriminate Hs; cbn [perform]; unfold on_cache, on_db, on_factors, rate_increment;
    repeat case_match; simplify_eq/=; try done; destruct (c_cache c), (c_db c); cbn in *; simplify_eq/=; done.
Qed.

Lemma wp_tokens P {A} (p : prog A) (Q : A → World C → Prop) w :
  over keeps_tokens p → (∀ a w', issues_nothing w w' → Q a w') → wp P p Q w.
Proof.
  apply wp_over; [done| |intros; by apply perform_tokens].
  intros w1 w2 w3 [? ?] [? ?]. split; congruence.
Qed.

(** Everything is as it was, the cache was only read, and only metrics and
    sleeps were added to the trail. *)
Definition cache_read (c c' : C) : Prop := ∃ t k, c' = (Get t k c).2.
Definition untouched w w' : Prop :=
  rtc cache_read (cch w) (cch w') ∧ db w' = db w ∧ enrolled w' = enrolled w ∧ rate_limits w' = rate_limits w ∧ devices w' = devices w ∧ catalog w' = catalog w ∧
  refusedAt w' = refusedAt w ∧
  ∃ l, trail w' = (l ++ trail w)%list ∧ Forall (λ e, match e with Metric _ | Slept _ => True | _ => False end) l.

Lemma perform_passive c {B} (s : stmt B) w : passive B s = true → untouched w (perform c s w).2.
Proof.
  assert (Hnil : ∃ l, trail w = (l ++ trail w)%list ∧
    Forall (λ e, match e with Metric _ | Slept _ => True | _ => False end) l) by (by exists []).
  assert (Hone : ∀ e, match e with Metric _ | Slept _ => True | _ => False end →
    ∃ l, (e :: trail w = l ++ trail w)%list ∧
      Forall (λ e, match e with Metric _ | Slept _ => True | _ => False end) l).
  { intros e He. exists [e]. split; [done|]. by constructor. }
  assert (Hget : ∀ k, untouched w (perform c (SGet k) w).2).
  { intros k. cbn. unfold on_cache. destruct (Get _ k _) as [r c'] eqn:E.
    destruct (c_cache c); split_and!; try done; apply rtc_once; exists (clock (tick c w)), k; cbn in *; by rewrite E. }
  intros Hs. destruct s; cbn in Hs; try discriminate Hs; try exact (Hget k); clear Hget;
    unfold untouched; cbn [perform]; unfold on_db, on_factors;
    repeat case_match; simplify_eq/=; try (by split_and!; auto);
    destruct (c_cache c), (c_db c); cbn in *; simplify_eq/=; by split_and!.
Qed.

Lemma wp_passive P {A} (p : prog A) (Q : A → World C → Prop) w :
  over passive p → (∀ a w', untouched w w' → Q a w') → wp P p Q w.
Proof.
  apply wp_over; [|clear w|intros; by apply perform_passive].
  - intros w'. split_and!; try done. by exists [].
  - intros w1 w2 w3 (?&?&?&?&?&?&?&l&?&?) (?&?&?&?&?&?&?&l'&El&?). split_and!; try congruence; [by etrans|].
    exists (l' ++ l)%list. split; [rewrite El, <- app_assoc; congruence|by apply Forall_app].
Qed.
End classes.

(** ** Which class each step belongs to *)
Section steps.
Context `{Primitives}.
Implicit Types s : AuthService.

Lemma stored_framed u : framed (lockedByStoredCount u).
Proof. unfold lockedByStoredCount. walk. Qed.
Lemma locked_framed s u ip : framed (isAccountLocked s u ip).
Proof.
  unfold isAccountLocked, lockoutGeneration, cachedCount, lockoutCountersUnwritable, lockedByStoredCount. walk.
Qed.
Lemma throttle_framed s e : framed (throttleLogin s e).
Proof. unfold throttleLogin, cachedCount. walk. Qed.
Lemma iplock_framed s ip : framed (isIPLocked s ip).
Proof. unfold isIPLocked. walk. Qed.
Lemma status_framed u : framed (GetStatus u).
Proof. unfold GetStatus. walk. Qed.
Lemma limit_framed s u : framed (checkSessionLimit s u).
Proof. unfold checkSessionLimit. walk. Qed.
Lemma device_framed u f ip : framed (findOrCreateDevice u f ip).
Proof. unfold findOrCreateDevice. walk. Qed.
Lemma clear_framed s u ip : framed (clearLockout s u ip).
Proof. unfold clearLockout, lockoutGeneration, cachedCount. walk. Qed.
Lemma clearid_framed s e : framed (clearIdentityFailures s e).
Proof. unfold clearIdentityFailures. walk. Qed.
Lemma ipfail_framed s ip : framed (recordFailedIP s ip).
Proof. unfold recordFailedIP. walk. Qed.
Lemma idfail_framed s e : framed (recordIdentityFailure s e).
Proof. unfold recordIdentityFailure. walk. Qed.
Lemma challenge_framed s ts jkt u f fs : framed (IssueChallengeToken ts jkt u f fs) ∧ framed (burn s u).
Proof. split; [unfold IssueChallengeToken|unfold burn]; walk. Qed.

Lemma framed_tokens {A} (p : prog A) : framed p → over keeps_tokens p.
Proof.
  induction p as [a|B st k IH]; cbn; [done|]. intros [Hs Hk]. split; [by destruct st|auto].
Qed.
Lemma framed_bind {A B} (p : prog A) (k : A → prog B) : framed p → (∀ a, framed (k a)) → framed (bind p k).
Proof. intros Hp Hk. induction p as [a|D st q IH]; cbn in *; [apply Hk|]. destruct Hp. split; auto. Qed.

Lemma attempt_framed s u ip : framed (recordFailedAttempt s u ip).
Proof. unfold recordFailedAttempt, lockoutGeneration, cachedCount, noteLockoutCounterRefused. walk. Qed.
Lemma failure_tokens s user ip app reason : over keeps_tokens (recordLoginFailure s user ip app reason).
Proof.
  unfold recordLoginFailure. apply over_bind; [by split|intros _].
  apply over_bind; [apply framed_tokens, attempt_framed|intros ?].
  apply over_bind; [apply framed_tokens, ipfail_framed|intros ?].
  apply over_bind; [walk|intros ?]. apply over_bind; [walk|intros ?].
  apply over_bind; [apply framed_tokens, locked_framed|]. walk.
Qed.
Lemma done_tokens s u cl e ip reason pr : over keeps_tokens (login_done s u cl e ip reason pr).
Proof. unfold login_done. walk. Qed.
End steps.

(** ** Starting a session *)
Section sessions.
Context {C : Type} `{CacheOps C} `{Primitives}.
Implicit Types w : World C.
Implicit Types s : AuthService.

(** One live row for [u], bound to [jkt], was appended to the table. *)
Definition one_session (u jkt rt : string) (ts ts' : list row) : Prop :=
  ∃ n d, tokens d = ts ∧ ts' = (ts ++ [insert_row n d])%list ∧ insert_guard n d = true ∧
    TUserID n = u ∧ DPoPJKT n = jkt ∧ TokenHash n = SHA256Hex rt.

Lemma kept_both P {A} (p : prog A) (Q : A → World C → Prop) w :
  framed p → (∀ a w', db_kept w w' → enrolled w' = enrolled w → Q a w') → wp P p Q w.
Proof.
  intros Hp HQ. pose proof (wp_framed P p (λ _ w', db_kept w w') w Hp ltac:(auto)) as H1.
  pose proof (wp_tokens P p (λ _ w', issues_nothing w w') w (framed_tokens p Hp) ltac:(auto)) as H2.
  eapply wp_mono; [|exact (wp_and _ _ _ _ _ H1 H2)]. cbn. intros a w' [? [_ ?]]. auto.
Qed.

Lemma now_both P (Q : Z → World C → Prop) w :
  (∀ w', db_kept w w' → enrolled w' = enrolled w → Q (clock w') w') → wp P (call SNow) Q w.
Proof. intros HQ c _. cbn. apply (HQ (tick c w)); [split; [done|cbn; lia]|done]. Qed.

Lemma createcap_ok now n cap d : (CreateWithinCap now n cap d).1 = Ok tt →
  insert_guard n d = true ∧ tokens (CreateWithinCap now n cap d).2 = (tokens d ++ [insert_row n d])%list.
Proof.
  assert (Hc : (Create n d).1 = Ok tt →
    insert_guard n d = true ∧ tokens (Create n d).2 = (tokens d ++ [insert_row n d])%list).
  { unfold Create. destruct (insert_guard n d); [|done]. by case_match. }
  unfold CreateWithinCap. repeat case_match; auto. done.
Qed.

Lemma start_session_ok s c u roles client dev f rem ms uv w :
  wp any (start_session s c u roles client dev f rem ms uv)
    (λ r w', ∀ pr, r = Ok pr →
       one_session u (ctx_jkt c) (RefreshTokenRaw pr) (tokens (db w)) (tokens (db w'))) w.
Proof.
  unfold start_session. apply wp_bind, wp_now. intros w1 [H1 _].
  apply wp_bind. eapply wp_mono; [|apply issue_spec]. intros [pr|e] w2 [H2%same_db _]; [|by cbn].
  unfold storeRefreshToken. apply wp_bind, wp_bind, wp_random. intros [i|e] w3 H3%same_db _; [|by cbn].
  apply wp_bind, wp_now. intros w4 [H4 _]. apply wp_bind. intros ch _. cbn [call wp perform].
  set (n := mkRefreshToken _ _ _ _ _ _ _ _ _ _ _ _). unfold on_db.
  change (db (tick ch w4)) with (db w4). change (clock (tick ch w4)) with (clock w4 + Z.max 0 (c_tick ch)).
  set (at_ := clock w4 + _). pose proof (createcap_ok at_ n (maxSessionsPerUser s) (db w4)) as Hc.
  destruct (CreateWithinCap at_ n (maxSessionsPerUser s) (db w4)) as [[[]|er] d'].
  - destruct Hc as [Hg Ht]; [done|]. destruct (c_db ch); cbn; [|done|done].
    intros pr' [= <-]. exists n, (db w4). cbn in Ht. rewrite Ht. split_and!; try done; congruence.
  - destruct (c_db ch), er; done.
Qed.

Lemma done_ok s u cl e ip reason pr w :
  wp any (login_done s u cl e ip reason pr)
    (λ r w', ∀ x, r = Ok x → LRequires2FA x = false ∧ LRefreshToken x = RefreshTokenRaw pr ∧
       tokens (db w') = tokens (db w)) w.
Proof.
  assert (Ht : wp any (login_done s u cl e ip reason pr) (λ _ w', issues_nothing w w') w)
    by (apply wp_tokens; [apply done_tokens|auto]).
  assert (Hr : wp any (login_done s u cl e ip reason pr)
    (λ r _, ∀ x, r = Ok x → LRequires2FA x = false ∧ LRefreshToken x = RefreshTokenRaw pr) w).
  { unfold login_done, metric, log_event. destruct (has_metrics s); cbn; intros; simplify_eq/=; done. }
  eapply wp_mono; [|exact (wp_and _ _ _ _ _ Ht Hr)].
  cbn. intros r w' [[Hk _] Hx] x ->. destruct (Hx x eq_refl). by split_and!.
Qed.
End sessions.

(** ** A successful login *)
Section success.
Context {C : Type} `{CacheOps C} `{Primitives}.
Implicit Types w : World C.
Implicit Types s : AuthService.

Definition no_second_factor (u : string) w : Prop :=
  (∀ t, TOTPGetByUserID u (enrolled w) = Some t → Verified t = false) ∧
  default 0%nat (passkeys (enrolled w) !! u) = 0%nat ∧ ListUnusedByUser u (enrolled w) = [].

(** What a login grants: a challenge and no session, or, when no second factor
    is owed, exactly one session. *)
Definition granted s (c : Ctx) (u : string) w (x : LoginResult) w' : Prop :=
  LRequires2FA x = true ∧ LRefreshToken x = "" ∧ LAvailableMethods x ≠ [] ∧ tokens (db w') = tokens (db w) ∨
  LRequires2FA x = false ∧ (has_mfaSvc s = true → no_second_factor u w ∧ mfaRequired s = false) ∧
  one_session u (ctx_jkt c) (LRefreshToken x) (tokens (db w)) (tokens (db w')).

(** The account a login authenticated. *)
Definition in_good_standing s (pw : string) (now : Z) (u : User) : Prop :=
  Deleted u = false ∧ ImportPending u = false ∧ MustResetPassword u = false ∧ Banned u = false ∧
  Disabled u = false ∧ EmailVerified u = true ∧ is_locked_at now u = false ∧
  argon2_verify pw (PasswordHash u) (pepper s) = Ok true.

Lemma status_ok u w :
  wp any (GetStatus u)
    (λ r w', db_kept w w' ∧ enrolled w' = enrolled w ∧ (r = Ok [] → no_second_factor u w)) w.
Proof.
  eapply wp_mono; [|eapply wp_and; [apply (kept_both any (GetStatus u)
    (λ _ w', db_kept w w' ∧ enrolled w' = enrolled w) w (status_framed u)); auto|]].
  { cbn. intros r w' [[? ?] Hr]. split_and!; [done|done|exact Hr]. }
  unfold GetStatus, no_second_factor. cbn. intros c1 _ c2 _ c3 _. unfold on_factors. cbn.
  destruct (c_db c1), (c_db c2), (c_db c3); cbn; try done.
  destruct (TOTPGetByUserID u (enrolled w)) as [t|], (default 0%nat _), (ListUnusedByUser u (enrolled w));
    cbn; repeat case_match; cbn; try done; intros _; (split; [intros ? ?|]); by simplify_eq.
Qed.

Lemma challenge_ok s user w :
  wp any (login_challenge s user)
    (λ r w', ∀ o, r = Ok o → db w' = db w ∧
       match o with
       | Some ms => ms ≠ []
       | None => has_mfaSvc s = true → no_second_factor (UID user) w ∧ mfaRequired s = false
       end) w.
Proof.
  unfold login_challenge. destruct (has_mfaSvc s) eqn:Em; cbn [negb].
  2: { cbn. intros o [= <-]. by split. }
  apply wp_bind. eapply wp_mono; [|apply status_ok]. intros [ms|e] w1 ([Hd _] & He & Hn); [|by cbn].
  destruct ms as [|m ms]; [|cbn; intros o [= <-]; by split].
  destruct (mfaRequired s); [|cbn; intros o [= <-]; split; [done|]; intros _; split; auto].
  intros ch _. cbn. intros o [= <-]. by split.
Qed.

Lemma proven_ok s c input user email ip ua w :
  wp any (login_proven s c input user email ip ua)
    (λ r w', ∀ x, r = Ok x → granted s c (UID user) w x w') w.
Proof.
  unfold login_proven. apply wp_bind, wp_tokens; [by split|]. intros _ w1 [Ht1 He1]. cbn zeta.
  apply wp_bind. eapply wp_mono; [|apply challenge_ok]. intros [o|e] w2 Ho; [|by cbn].
  destruct (Ho o eq_refl) as [Hd2 Hm]. destruct o as [ms|].
  - apply wp_bind, kept_both; [apply (challenge_framed s)|]. intros [tok|e] w3 [Hd3 _] _; [|by cbn].
    apply wp_bind, kept_both; [by split|]. intros _ w4 [Hd4 _] _. cbn. intros x [= <-]. left.
    split_and!; [done|done|done|congruence].
  - apply wp_bind, kept_both; [apply clear_framed|]. intros _ w3 [Hd3 _] _.
    apply wp_bind, kept_both; [apply clearid_framed|]. intros _ w4 [Hd4 _] _.
    apply wp_bind, kept_both; [apply limit_framed|]. intros [[]|e] w5 [Hd5 _] _; [|by cbn].
    apply wp_bind, kept_both; [apply device_framed|]. intros dev w6 [Hd6 _] _.
    apply wp_bind, kept_both; [apply framed_roles|]. intros roles w7 [Hd7 _] _.
    apply wp_bind. eapply wp_mono; [|apply start_session_ok]. intros [pr|e] w8 Hs; [|by cbn].
    eapply wp_mono; [|apply done_ok]. intros r w9 Hr x ->. destruct (Hr x eq_refl) as (H2 & Hrt & Ht9).
    right. split_and!; [done| |].
    + intros Hmf. destruct (Hm Hmf) as [Hn ?]. split; [|done]. unfold no_second_factor in *. by rewrite <- He1.
    + rewrite Hrt, Ht9. replace (tokens (db w)) with (tokens (db w7)) by congruence. by apply Hs.
Qed.

Lemma refusal_grants {A} (p : prog A) e (Q : LoginResult → World C → Prop) w :
  wp any (p ;;; Ret (Err e : res authErr LoginResult)) (λ r w', ∀ x, r = Ok x → Q x w') w.
Proof. apply wp_err. Qed.

Lemma password_ok s c input user email ip ua w :
  wp any (login_password s c input user email ip ua)
    (λ r w', ∀ x, r = Ok x → Banned user = false ∧ Disabled user = false ∧ EmailVerified user = true ∧
       argon2_verify (LPassword input) (PasswordHash user) (pepper s) = Ok true ∧
       granted s c (UID user) w x w') w.
Proof.
  unfold login_password. apply wp_bind. intros ch _. cbn [call wp perform fst snd].
  destruct (c_busy ch); [by cbn|].
  destruct (argon2_verify (LPassword input) (PasswordHash user) (pepper s)) as [[]|]; [|apply refusal_grants..].
  destruct (Banned user); [apply refusal_grants|]. destruct (Disabled user); [apply refusal_grants|].
  destruct (EmailVerified user); [|apply refusal_grants]. cbn [negb].
  eapply wp_mono; [|apply proven_ok]. intros r w' Hr x ->. split_and!; try done. apply (Hr x eq_refl).
Qed.

Lemma locked_errs s input user ip src w (Q : LoginResult → World C → Prop) :
  wp any (login_locked s input user ip src) (λ r w', ∀ x, r = Ok x → Q x w') w.
Proof.
  unfold login_locked. apply wp_bind, kept_both; [unfold burn; walk|]. intros [] w1 _ _; [by cbn|].
  apply wp_bind, kept_both; [apply ipfail_framed|]. intros _ w2 _ _. apply refusal_grants.
Qed.
Lemma link_errs s c input user ip k reason e w (Q : LoginResult → World C → Prop) :
  wp any (login_link s c input user ip k reason e) (λ r w', ∀ x, r = Ok x → Q x w') w.
Proof.
  unfold login_link. apply wp_bind, kept_both; [unfold burn; walk|]. intros [] w1 _ _; [by cbn|].
  apply wp_bind, kept_both; [walk|]. intros _ w2 _ _. apply refusal_grants.
Qed.

Lemma known_ok s c input user email ip ua w :
  wp any (login_known s c input user email ip ua)
    (λ r w', ∀ x, r = Ok x → (∃ now, clock w ≤ now ∧ in_good_standing s (LPassword input) now user) ∧
       granted s c (UID user) w x w') w.
Proof.
  unfold login_known. apply wp_bind, (now_both any). intros w1 [Hd1 Hc1] He1.
  destruct (is_locked_at (clock w1) user) eqn:El; [apply locked_errs|].
  apply wp_bind, kept_both; [apply locked_framed|]. intros [] w2 [Hd2 _] He2; [apply locked_errs|].
  destruct (Deleted user) eqn:Edel.
  { unfold login_deleted. apply wp_bind, kept_both; [unfold burn; walk|]. intros [] w3 _ _; [by cbn|].
    apply refusal_grants. }
  destruct (ImportPending user) eqn:Eim; [apply link_errs|].
  destruct (MustResetPassword user) eqn:Emr; [apply link_errs|].
  eapply wp_mono; [|apply password_ok]. intros r w' Hr x ->. destruct (Hr x eq_refl) as (? & ? & ? & ? & Hg).
  split; [exists (clock w1); by split_and!|]. unfold granted, no_second_factor in *.
  by rewrite He2, He1, Hd2, Hd1 in Hg.
Qed.
(** The address a login names. *)
Definition login_email (input : LoginInput) : string := ToLower (TrimSpace (LEmail input)).

(** The gates every address passes before its account is looked at. *)
Lemma body_ok s t c input email ip ua w (Q : res authErr LoginResult → World C → Prop) :
  (∀ e w', e = ErrAccountLocked ∨ e = ErrRepo ErrDB → db_kept w w' → Q (Err e) w') →
  (∀ w', db_kept w w' → enrolled w' = enrolled w →
     wp any (if IsTrapUser s email then trapLogin s t c input email ip ua
             else match GetByEmail email (db w) with
                  | None => login_unknown s input ip
                  | Some user => login_known s c input user email ip ua
                  end) Q w') →
  wp any (login_body s t c input email ip ua) Q w.
Proof.
  intros Herr Hk. unfold login_body.
  apply wp_bind, kept_both; [apply throttle_framed|]. intros _ w1 H1 E1.
  apply wp_bind, kept_both; [apply iplock_framed|]. intros b w2 H2 E2.
  assert (H12 : db_kept w w2) by (by eapply db_kept_trans). destruct b.
  { apply wp_bind, wp_framed; [by split|]. intros _ w3 H3. cbn. apply Herr; [by left|by eapply db_kept_trans]. }
  unfold repo. apply wp_bind, wp_bind. intros ch _. cbn [call wp perform]. unfold on_db.
  assert (H3 : db_kept w (tick ch w2)) by (destruct H12; split; [done|cbn; lia]).
  change (db (tick ch w2)) with (db w2). destruct H12 as [Hd _]. rewrite Hd.
  destruct (c_db ch); cbn [faulty fst snd]; [|cbn; apply Herr; [by right|first [done|split; [done|apply H3]]]..].
  assert (Hw : set_db (db w) (tick ch w2) = tick ch w2) by (rewrite <- Hd; by destruct w2).
  rewrite Hw. apply Hk; [done|]. cbn. congruence.
Qed.

Lemma login_ok s t c input ip ua w :
  IsTrapUser s (login_email input) = false →
  wp any (Login s t c input ip ua)
    (λ r w', ∀ x, r = Ok x → ∃ user now, GetByEmail (login_email input) (db w) = Some user ∧
       clock w ≤ now ∧ in_good_standing s (LPassword input) now user ∧ granted s c (UID user) w x w') w.
Proof.
  intros Htrap. unfold Login. cbn zeta. fold (login_email input).
  apply wp_bind, kept_both; [unfold metric; by destruct (has_metrics s)|]. intros _ w1 [Hd1 Hc1] E1.
  apply wp_bind. eapply (wp_mono _ _ (λ r w', ∀ x, r = Ok x → ∃ user now,
    GetByEmail (login_email input) (db w) = Some user ∧
       clock w ≤ now ∧ in_good_standing s (LPassword input) now user ∧ granted s c (UID user) w x w')).
  { intros [x|e] w' Hx; [by cbn|]. destruct e; try (by cbn); apply refusal_grants. }
  apply body_ok; [done|]. intros w2 [Hd2 Hc2] E2. rewrite Htrap, Hd1.
  destruct (GetByEmail (login_email input) (db w)) as [user|].
  - eapply wp_mono; [|apply known_ok]. intros r w' Hr x ->. destruct (Hr x eq_refl) as ((now & ? & ?) & Hg).
    exists user, now. split_and!; [done|lia|done|]. unfold granted, no_second_factor in *.
    by rewrite E2, E1, Hd2, Hd1 in Hg.
  - unfold login_unknown. apply wp_bind, kept_both; [unfold burn; walk|]. intros [] w3 _ _; [by cbn|].
    apply wp_bind, kept_both; [apply ipfail_framed|]. intros _ w4 _ _.
    apply wp_bind, kept_both; [unfold metric; by destruct (has_metrics s)|]. intros _ w5 _ _. apply refusal_grants.
Qed.

End success.

(** ** Refusals *)
Section refusals.
Context {C : Type} `{CacheOps C} `{Primitives}.
Implicit Types w : World C.
Implicit Types s : AuthService.

(** What a caller who has not proved a password may see. *)
Definition masked (e : authErr) : Prop :=
  e = ErrInvalidCredentials ∨ e = ErrArgon2Overloaded ∨ e = ErrAccountLocked ∨ e = ErrRepo ErrDB.

Definition turned_away w (r : res authErr LoginResult) w' : Prop :=
  (∃ e, r = Err e ∧ masked e) ∧ tokens (db w') = tokens (db w).

Lemma turned_away_shift w1 w2 r w' : tokens (db w1) = tokens (db w2) → turned_away w1 r w' → turned_away w2 r w'.
Proof. by unfold turned_away; intros ->. Qed.

Lemma burn_step s pw (k : bool → prog (res authErr LoginResult)) w :
  (∀ w', tokens (db w') = tokens (db w) → wp any (k false) (turned_away w) w') →
  (k true = Ret (Err ErrArgon2Overloaded)) →
  wp any (b <- burn s pw ;; k b) (turned_away w) w.
Proof.
  intros Hf Ht. apply wp_bind, wp_tokens; [unfold burn; walk|]. intros [] w' [Hk _]; [|by apply Hf].
  rewrite Ht. cbn. split; [|done]. eexists. split; [done|]. right; by left.
Qed.

Lemma away {A} (p : prog A) e w0 w :
  over keeps_tokens p → masked e → tokens (db w) = tokens (db w0) →
  wp any (p ;;; Ret (Err e : res authErr LoginResult)) (turned_away w0) w.
Proof.
  intros Hp He Hw. apply wp_bind, wp_tokens; [done|]. intros _ w' [Hk _]. cbn.
  split; [by eexists|congruence].
Qed.

Lemma invalid_masked : masked ErrInvalidCredentials.
Proof. by left. Qed.
#[local] Hint Resolve invalid_masked : core.

Lemma bind_assoc {A B D} (p : prog A) (f : A → prog B) (g : B → prog D) Q w :
  wp any (bind (bind p f) g) Q w ↔ wp any (x <- p ;; bind (f x) g) Q w.
Proof. rewrite !wp_bind. split; apply wp_mono; intros a w'; by rewrite wp_bind. Qed.

Lemma unknown_away s input ip w : wp any (login_unknown s input ip) (turned_away w) w.
Proof.
  unfold login_unknown. apply burn_step; [|done]. intros w' Hw.
  rewrite <- bind_assoc, <- bind_assoc. apply away; [|done|done].
  repeat apply over_bind; [apply framed_tokens, ipfail_framed|walk|walk].
Qed.

Lemma locked_away s input user ip src w : wp any (login_locked s input user ip src) (turned_away w) w.
Proof.
  unfold login_locked. apply burn_step; [|done]. intros w' Hw.
  rewrite <- bind_assoc. apply away; [|done|done].
  apply over_bind; [apply framed_tokens, ipfail_framed|walk].
Qed.

Lemma link_away s c input user ip k reason e w :
  masked e → wp any (login_link s c input user ip k reason e) (turned_away w) w.
Proof.
  intros He. unfold login_link. apply burn_step; [|done]. intros w' Hw.
  rewrite <- bind_assoc. apply away; [|done|done].
  apply over_bind; [walk|intros ?; apply failure_tokens].
Qed.

Lemma password_away s c input user email ip ua w :
  argon2_verify (LPassword input) (PasswordHash user) (pepper s) ≠ Ok true →
  wp any (login_password s c input user email ip ua) (turned_away w) w.
Proof.
  intros Hv. unfold login_password. apply wp_bind. intros ch _. cbn [call wp perform fst snd].
  assert (Hb : wp any (Ret (Err ErrArgon2Overloaded : res authErr LoginResult)) (turned_away w) (tick ch w)).
  { cbn. split; [|done]. eexists. split; [done|]. right; by left. }
  destruct (c_busy ch); [done|].
  destruct (argon2_verify (LPassword input) (PasswordHash user) (pepper s)) as [[]|]; [done| |];
    (apply away; [apply failure_tokens|done|done]).
Qed.

End refusals.

(** ** Overload *)
Section overload.
Context {C : Type} `{CacheOps C} `{Primitives}.
Implicit Types w : World C.
Implicit Types s : AuthService.

(** Past the password the answer is never an overload. *)
Definition not_overload {A} (r : res authErr A) (_ : World C) : Prop := r ≠ Err ErrArgon2Overloaded.

Lemma no_bind {A B} (p : prog A) (k : A → prog (res authErr B)) w :
  (∀ a w', wp any (k a) not_overload w') → wp any (bind p k) not_overload w.
Proof. intros Hk. apply wp_bind. eapply wp_mono; [|apply (wp_clock any p w)]. cbn. auto. Qed.

Lemma no_try {A B} (p : prog (res authErr A)) (k : A → prog (res authErr B)) w :
  wp any p not_overload w → (∀ a w', wp any (k a) not_overload w') →
  wp any (x <-! p ;; k x) not_overload w.
Proof.
  intros Hp Hk. apply wp_bind. eapply wp_mono; [|exact Hp]. intros [a|e] w' He; [apply Hk|].
  cbn. by intros [= ->].
Qed.

Lemma no_random w : wp any (call SRandom) not_overload w.
Proof. intros c _. cbn. by destruct (c_dry c). Qed.
Lemma no_sign cl k w : wp any (call (SSign cl k)) not_overload w.
Proof. intros c _. cbn. by destruct (SignToken cl k). Qed.
Lemma no_ret {A} (r : res authErr A) w : r ≠ Err ErrArgon2Overloaded → wp any (Ret r) not_overload w.
Proof. done. Qed.

Lemma no_issue ts jkt u roles sc cl f fam rem auth w :
  wp any (IssueTokenPairWithAuth ts jkt u roles sc cl f fam rem auth) not_overload w.
Proof.
  unfold IssueTokenPairWithAuth. apply no_bind. intros now w1. apply no_try; [apply no_random|].
  intros jti w2. apply no_try; [apply no_sign|]. intros tok w3. apply no_try; [apply no_random|].
  intros rt w4. apply no_try; [case_bool_decide; [apply no_random|done]|]. done.
Qed.
Lemma no_challenge ts jkt u f fs w : wp any (IssueChallengeToken ts jkt u f fs) not_overload w.
Proof.
  unfold IssueChallengeToken. apply no_bind. intros now w1. apply no_try; [apply no_random|].
  intros jti w2. apply no_sign.
Qed.
Lemma no_limit s u w : wp any (checkSessionLimit s u) not_overload w.
Proof. unfold checkSessionLimit. case_match; [done|]. apply no_bind. intros [] w1; case_match; try done.
Qed.
Lemma no_status u w : wp any (GetStatus u) not_overload w.
Proof. unfold GetStatus. do 3 (apply no_bind; intros [] ?); done. Qed.
Lemma no_session s c u roles cl dev f rem ms uv w :
  wp any (start_session s c u roles cl dev f rem ms uv) not_overload w.
Proof.
  unfold start_session. apply no_bind. intros now w1. apply no_try; [apply no_issue|]. intros pr w2.
  apply no_try; [|done]. unfold storeRefreshToken. apply no_try; [apply no_random|]. intros i w3.
  apply no_bind. intros ? w4. apply no_bind. intros [|[]] w5; done.
Qed.
Lemma no_done s u cl e ip reason pr w : wp any (login_done s u cl e ip reason pr) not_overload w.
Proof. unfold login_done. repeat (apply no_bind; intros ? ?). done. Qed.

Lemma no_proven s c input user email ip ua w : wp any (login_proven s c input user email ip ua) not_overload w.
Proof.
  unfold login_proven. apply no_bind. intros _ w1. cbn zeta. apply no_try.
  { unfold login_challenge. case_match; [done|]. apply no_try; [apply no_status|]. intros [] w2; [|done].
    case_match; [by apply no_bind|done]. }
  intros [ms|] w2.
  - apply no_try; [apply no_challenge|]. intros tok w3. by apply no_bind.
  - apply no_bind. intros _ w3. apply no_bind. intros _ w4. apply no_try; [apply no_limit|].
    intros _ w5. apply no_bind. intros dev w6. apply no_bind. intros roles w7.
    apply no_try; [apply no_session|]. intros pr w8. apply no_done.
Qed.

(** An overload answered before anything was written. *)
Definition overload_clean w (r : res authErr LoginResult) w' : Prop := r = Err ErrArgon2Overloaded → untouched w w'.

Lemma clean_no (p : prog (res authErr LoginResult)) w0 w : wp any p not_overload w → wp any p (overload_clean w0) w.
Proof. apply wp_mono. intros r w' Hr Hx. by destruct (Hr Hx). Qed.

Lemma untouched_trans w1 w2 w3 : untouched w1 w2 → untouched w2 w3 → untouched w1 w3.
Proof.
  intros (?&?&?&?&?&?&?&l&?&?) (?&?&?&?&?&?&?&l'&El&?). unfold untouched. split_and!; try congruence; [by etrans|].
  exists (l' ++ l)%list. split; [rewrite El, <- app_assoc; congruence|by apply Forall_app].
Qed.

Lemma clean_step {A} (p : prog A) (k : A → prog (res authErr LoginResult)) w0 w :
  over passive p → untouched w0 w → (∀ a w', untouched w0 w' → wp any (k a) (overload_clean w0) w') →
  wp any (bind p k) (overload_clean w0) w.
Proof. intros Hp Hw Hk. apply wp_bind, wp_passive; [done|]. intros a w' Hw'. by eapply Hk, untouched_trans. Qed.

Lemma clean_burn s pw (k : prog (res authErr LoginResult)) w0 w :
  untouched w0 w → (∀ w', wp any k not_overload w') →
  wp any (b <- burn s pw ;; if b then Ret (Err ErrArgon2Overloaded) else k) (overload_clean w0) w.
Proof.
  intros Hw Hk. apply clean_step; [unfold burn; walk|done|]. intros [] w' Hw'; [by intros _|by apply clean_no].
Qed.

Lemma clean_known s c input user email ip ua w0 w :
  untouched w0 w → wp any (login_known s c input user email ip ua) (overload_clean w0) w.
Proof.
  intros Hw. unfold login_known. apply clean_step; [walk|done|]. intros now w1 H1.
  assert (Hlock : ∀ src w', untouched w0 w' → wp any (login_locked s input user ip src) (overload_clean w0) w').
  { intros src w' Hw'. apply clean_burn; [done|]. intros w2. by do 2 (apply no_bind; intros ? ?). }
  assert (Hlink : ∀ k reason e w', e ≠ ErrArgon2Overloaded → untouched w0 w' →
    wp any (login_link s c input user ip k reason e) (overload_clean w0) w').
  { intros k reason e w' He Hw'. apply clean_burn; [done|]. intros w2.
    do 2 (apply no_bind; intros ? ?). by intros [= ->]. }
  destruct (is_locked_at now user); [by apply Hlock|].
  apply clean_step; [|done|].
  { unfold isAccountLocked, lockoutGeneration, cachedCount, lockoutCountersUnwritable, lockedByStoredCount. walk. }
  intros b w2 H2. destruct b; [by apply Hlock|].
  destruct (Deleted user); [apply clean_burn; [done|]; intros w3; by apply no_bind|].
  destruct (ImportPending user); [by apply Hlink|].
  destruct (MustResetPassword user); [apply Hlink; [by destruct (LDiscloseStatus input)|done]|].
  unfold login_password. apply clean_step; [walk|done|]. intros v w3 H3.
  destruct v as [[]|[]]; [|apply clean_no; by apply no_bind|by intros _|apply clean_no; by apply no_bind].
  apply clean_no. destruct (Banned user); [by apply no_bind|]. destruct (Disabled user); [by apply no_bind|].
  destruct (EmailVerified user); [apply no_proven|by apply no_bind].
Qed.

Lemma clean_trap s t c input email ip ua w0 w :
  untouched w0 w → wp any (trapLogin s t c input email ip ua) (overload_clean w0) w.
Proof.
  intros Hw. unfold trapLogin. apply clean_burn; [done|]. intros w1.
  apply no_bind. intros _ w2. cbn zeta. apply no_bind. intros _ w3. apply no_bind. intros _ w4.
  apply no_bind. intros _ w5. apply no_bind. intros [ms|] w6.
  - apply no_try; [apply no_challenge|]. intros tok w7. by apply no_bind.
  - apply no_try; [apply no_limit|]. intros [] w7. apply no_bind. intros _ w8. apply no_try.
    { unfold GenerateFakeJWTForIdentity. apply no_try; [apply no_random|]. intros ? ?. apply no_bind.
      intros ? ?. apply no_sign. }
    intros jwt w9. apply no_try; [apply no_random|]. intros rt w10.
    repeat (apply no_bind; intros ? ?). done.
Qed.

(** An overloaded password hasher changes nothing: a login answered
    [ErrArgon2Overloaded], planted credentials included, left the database,
    the rate limits, the devices and the lockout latch exactly as they were,
    only read the cache, so no failure or throttle counter advanced, wrote no
    audit line and queued no mail. *)
Theorem overload_changes_nothing s t c input ip ua w o :
  (run (Login s t c input ip ua) o w).1 = Err ErrArgon2Overloaded →
  untouched w (run (Login s t c input ip ua) o w).2.
Proof.
  apply (wp_run any _ (overload_clean w) w o (λ _, I)). unfold Login. cbn zeta.
  apply clean_step; [walk|split_and!; try done; by exists []|]. intros _ w1 H1.
  apply wp_bind. eapply (wp_mono _ _ (overload_clean w)).
  { intros [x|e] w' Hx; [by cbn|]. destruct e; try (by cbn; auto);
      (apply clean_no, no_bind; intros ? ?; done). }
  unfold login_body. apply clean_step; [unfold throttleLogin, cachedCount; walk|done|]. intros _ w2 H2.
  apply clean_step; [unfold isIPLocked; walk|done|]. intros b w3 H3.
  destruct b; [apply clean_no; by apply no_bind|].
  apply clean_step; [unfold repo; walk|done|]. intros [user|e] w4 H4; [|by intros _].
  destruct (IsTrapUser s _); [by apply clean_trap|]. destruct user as [user|]; [by apply clean_known|].
  apply clean_burn; [done|]. intros w5. by repeat (apply no_bind; intros ? ?).
Qed.
End overload.

(** ** Concrete logins *)
Module LoginDemo.
Definition ts : TokenService := mkTokenService "k1" "iss" "aud" (15 * minute) (24 * hour) (720 * hour) (10 * hour) 0.
Definition svc : AuthService :=
  mkAuthService ts true true true true true false false 60 true ["root@example.org"] 5 false "pepper" "hmac" "$dummy".
(** Second factors required of everyone. *)
Definition strict : AuthService :=
  mkAuthService ts true true true true true true false 60 true [] 5 false "pepper" "hmac" "$dummy".
(** No cache: the per-address counter lives in the database. *)
Definition nocache : AuthService :=
  mkAuthService ts false true true true true false false 60 true [] 5 false "pepper" "hmac" "$dummy".
Definition trap : Trap := mkTrap "salt" "kt" "iss" "aud" (15 * minute).
Definition ctx : Ctx := mkCtx "thumb" "".
Definition input (email pw : string) : LoginInput :=
  mkLoginInput email pw false "" (mkFingerprintInput "" "" "" "") false.
Definition W : Type := World Memory.MemoryCache.
Definition login (s : AuthService) (email pw : string) (o : nat → Effects.choice) (w : W) :
    res authErr LoginResult * W :=
  run (H0 := Toy.prims) (Login (H := Toy.prims) s trap ctx (input email pw) "10.0.0.1" "ua") o w.
(** The password semaphore is full. *)
Definition busy (n : nat) : Effects.choice := mkChoice 1000 NoFault NoFault "" false true false false.

(** A soft-deleted account, its tombstone address probed. *)
Definition ghost : User :=
  mkUser "ghost" "deleted-1@invalid" true "$secret" None 0 ["user"] false false None true false false no_profile.
Definition haunted : W := set_db (mkDB [] {["ghost" := ghost]}) Toy.world.
Definition ip_count (r : res authErr LoginResult * W) : Z :=
  default 0 (rate_limits r.2 !! ("lockout_ip:10.0.0.1", truncate_window (1000 * second))).
End LoginDemo.
#[local] Existing Instance Toy.prims.



Lemma overload_changes_nothing_witness :
  untouched Toy.world (LoginDemo.login LoginDemo.svc "alice@example.org" "secret" LoginDemo.busy Toy.world).2.
Proof. apply overload_changes_nothing. vm_compute. reflexivity. Defined.

(** The per-address counter tells a tombstone's address from an unknown one:
    the branch that masks the deletion burns the dummy hash and answers alike,
    but does not advance the counter an unknown address advances, so a run of
    probes locks the caller out for the one and never for the other. *)
Example deleted_address_freezes_the_ip_counter :
  let unknown := LoginDemo.login LoginDemo.nocache "nobody@example.org" "x" Toy.oracle LoginDemo.haunted in
  let deleted := LoginDemo.login LoginDemo.nocache "deleted-1@invalid" "x" Toy.oracle LoginDemo.haunted in
  unknown.1 = Err ErrInvalidCredentials ∧ deleted.1 = Err ErrInvalidCredentials ∧
  LoginDemo.ip_count unknown = 1 ∧ LoginDemo.ip_count deleted = 0.
Proof. by vm_compute. Qed.
