(* ===== verification/OAuth.v ===== *)
(** * OAuth: signing in through an identity provider

    Models internal/handler/oauth.go: the start of a flow with its signed state,
    the callback that resolves, creates or links an account and opens a
    session, and the exchange of the one-time code for the access token.  A
    provider is what its calls answer during the request ([Oidc] models the
    providers themselves). *)
From stdpp Require Import list gmap strings.
From Stdlib Require Import Ascii.
From S2P Require Import Prelude GoStd Cache CacheFacts Crypto Json Bytes JsonEnc Base64 Jwt JwtSign NetIP Url Sanitize IPAccess Outbound Oidc Model TokenStore UserStore FactorStore PersonalStore Effects Random StoreWp TokenService Lockout Session Login SecondFactor SessionFacts LoginFacts.
Open Scope string_scope.
Open Scope Z_scope.
Open Scope prog_scope.

(** ** Providers as the handler sees them *)
Record IdP := mkIdP {
  pv_AuthURL : string → string → string → string;       (** state, nonce, challenge *)
  pv_Exchange : string → string → option TokenResponse;  (** code, verifier *)
  pv_UserInfo : string → option UserInfo;                (** access token *)
  pv_VerifyID : option (Z → string → string → option UserInfo);  (** an OIDC provider: instant, ID token, nonce *)
}.
Record OAuthHandler := mkOAuthHandler {
  oh_providers : gmap string IdP;
  oh_hmacSecret : string;
  oh_origin : string;
  oh_social : bool;     (** is there a store of identities *)
  oh_tokens : bool;     (** is there a store of refresh tokens *)
  oh_hasAuth : bool;
  oh_auth : AuthService;
  oh_hasMFA : bool;
  oh_tokenSvc : TokenService;
  oh_auditLog : bool;
}.
Implicit Types h : OAuthHandler.

(** ** Starting *)
Inductive oauth_reply :=
| ToProvider (url cookie : string)
| VerificationRequired
| ChallengeRedirect (challenge : string)
| CodeRedirect (code refresh : string) (maxAge : Z).  (** the refresh cookie beside the code *)
(** The [Location] of a redirect back to the front end. *)
Definition location h (r : oauth_reply) : string :=
  match r with
  | ToProvider url _ => url
  | VerificationRequired => oh_origin h +:+ "/oauth/callback#" +:+ Encode [("error", "verification_required")]
  | ChallengeRedirect c => oh_origin h +:+ "/oauth/callback#" +:+ Encode [("challenge_token", c); ("requires_2fa", "true")]
  | CodeRedirect c _ _ => oh_origin h +:+ "/oauth/callback#" +:+ Encode [("code", c)]
  end.
Definition isSafeAuthorizeRedirect `{URLParser} (raw : string) : bool :=
  match url_Parse raw with Some u => bool_decide (Scheme u = "https") && negb (bool_decide (Host u = "")) | None => false end.
Definition oauth_ttl : Z := 10 * minute.
Definition state_payload (provider nonce : string) (expiry : Z) (csrfHash : string) : string :=
  provider +:+ "." +:+ nonce +:+ "." +:+ FormatInt expiry +:+ "." +:+ csrfHash.
(** The state of a flow started at [now], with its signature. *)
Definition signed_state `{Primitives} h (provider nonce : string) (now : Z) (csrfToken : string) : string :=
  let payload := state_payload provider nonce ((now + oauth_ttl) / second) (SHA256Hex csrfToken) in
  payload +:+ "." +:+ HMACSign payload (oh_hmacSecret h).
Definition oauth_log h (kind userID ip provider : string) : prog unit :=
  if oh_auditLog h then log_event kind userID "" ip provider else Ret tt.

Section oauth.
Context `{Primitives} `{MailParser} `{URLParser}.

Definition Authorize h (ip providerName : string) : prog (answer oauth_reply) :=
  match oh_providers h !! providerName with
  | None => Ret (Refused 400 "unknown_provider")
  | Some provider =>
      verifier <- RandomHex 32 ;;
      match verifier with
      | Err _ => Ret (Refused 500 "internal_error")
      | Ok verifier =>
          nonce <- RandomHex 32 ;;
          match nonce with
          | Err _ => Ret (Refused 500 "internal_error")
          | Ok nonce =>
              now <- call SNow ;;
              csrfToken <- RandomHex 32 ;;
              match csrfToken with
              | Err _ => Ret (Refused 500 "internal_error")
              | Ok csrfToken =>
                  let state := signed_state h providerName nonce now csrfToken in
                  r <- call (SSet ("oauth_state:" +:+ nonce) verifier oauth_ttl) ;;
                  match r with
                  | Err _ => Ret (Refused 500 "internal_error")
                  | Ok _ =>
                      oauth_log h "oauth2_authorize" "" ip providerName ;;;
                      let authURL := pv_AuthURL provider state nonce (SHA256Base64URL verifier) in
                      Ret (if isSafeAuthorizeRedirect authURL then Replied (ToProvider authURL csrfToken)
                           else Refused 500 "internal_error")
                  end
              end
          end
      end
  end.

(** ** The callback *)
Record CallbackRequest := mkCallback {
  cb_path : string; cb_query : string;  (** the provider, in the path or the query *)
  cb_error : string; cb_state : string; cb_code : string;
  cb_cookie : option string;
  cb_ip : string; cb_fp : string; cb_jkt : string;
}.
(** [strings.LastIndex(state, ".")] and the two sides. *)
Definition split_signature (state : string) : option (string * string) :=
  i ← last_index_of 46 state; Some (take_str i state, drop_str (S i) state).
(** [strings.SplitN(payload, ".", 4)], of length four. *)
Definition split_payload (payload : string) : option (string * string * string * string) :=
  '(p, r) ← Cut 46 payload; '(n, r) ← Cut 46 r; '(e, c) ← Cut 46 r; Some (p, n, e, c).
(** The nonce of a state this server signed for this provider and browser. *)
Definition check_state h (providerName : string) (cookie : option string) (now : Z) (state : string) : res (Z * string) string :=
  if decide (state = "") then Err (400, "missing_state")
  else match split_signature state with
       | None => Err (400, "invalid_state")
       | Some (payload, sig) =>
           if negb (HMACVerify payload (oh_hmacSecret h) sig) then Err (400, "invalid_state")
           else match split_payload payload with
                | None => Err (400, "invalid_state")
                | Some (p, nonce, expiry, csrfHash) =>
                    if negb (bool_decide (p = providerName)) then Err (400, "invalid_state")
                    else if match cookie with
                            | Some c => bool_decide (c = "") || negb (SecureCompare csrfHash (SHA256Hex c))
                            | None => true
                            end then Err (400, "invalid_state")
                    else match ParseInt expiry with
                         | (e, None) => if e <? now / second then Err (400, "state_expired") else Ok nonce
                         | (_, Some _) => Err (400, "state_expired")
                         end
                end
       end.

Definition linkableToExistingAccount (ui : UserInfo) (existing : User) : bool := uiEmailVerified ui && EmailVerified existing.
Definition normalizedProviderEmail (raw : string) : string := default "" (TrustedEmail raw).
Definition with_email (e : string) (ui : UserInfo) : UserInfo :=
  mkUserInfo (uiID ui) e (uiEmailVerified ui) (uiName ui) (uiAvatarURL ui) (uiProvider ui) (uiAuthTime ui).
(** The profile with its address normalised, or dropped when malformed. *)
Definition trusted_profile (ui : UserInfo) : UserInfo :=
  if decide (uiEmail ui = "") then ui else with_email (normalizedProviderEmail (uiEmail ui)) ui.
(** The profile behind a code: the ID token when there is one, else userinfo. *)
Definition profile_at (provider : IdP) (now : Z) (nonce code verifier : string) : option UserInfo :=
  tok ← pv_Exchange provider code verifier;
  match pv_VerifyID provider with
  | Some verify => if decide (trIDToken tok = "") then pv_UserInfo provider (trAccessToken tok) else verify now (trIDToken tok) nonce
  | None => pv_UserInfo provider (trAccessToken tok)
  end.
Definition fetch_profile (provider : IdP) (nonce code verifier : string) : prog (option UserInfo) :=
  now <- call SNow ;; Ret (profile_at provider now nonce code verifier).

(** The account a provider creates: no usable password. *)
Definition provider_account (userID : string) (ui : UserInfo) (now : Z) : User :=
  mkUser userID (uiEmail ui) (uiEmailVerified ui) "!oauth" None 0 [] false false None false false false
    (mkUserProfile (String_ (uiName ui) 100) (AvatarURL_ (uiAvatarURL ui)) "" false "" "" "" now).
Definition create_account (ui : UserInfo) : prog (res (Z * string) string) :=
  id <- RandomUUID ;;
  match id with
  | Err _ => Ret (Err (500, "internal_error"))
  | Ok newID =>
      now <- call SNow ;;
      r <- call (SUsers (λ _ d, let '(r, d') := CreateUser (provider_account newID ui now) d in (r, users d'))) ;;
      match r with
      | Ok (Ok _) => Ret (Ok newID)
      | Ok (Err ErrUnique) =>
          r <- call (SGetByEmail (uiEmail ui)) ;;
          Ret (match r with
               | Ok (Some raceUser) =>
                   if linkableToExistingAccount ui raceUser then Ok (UID raceUser) else Err (409, "email_already_registered")
               | _ => Err (500, "internal_error")
               end)
      | _ => Ret (Err (500, "internal_error"))
      end
  end.

Inductive resolution := Linked (userID : string) | ToLink (userID : string) | Unverified | Nobody | Failed (status : Z) (reason : string).
(** Whose account this is: by a linked identity, else by a verified address. *)
Definition resolve_user h (providerName : string) (ui : UserInfo) : prog resolution :=
  linked <- (if oh_social h then call (reads (GetByProviderAndID providerName (uiID ui))) else Ret (Ok None)) ;;
  match linked with
  | Err _ => Ret (Failed 500 "internal_error")
  | Ok linked =>
      let userID := match linked with Some a => SAUserID a | None => "" end in
      if negb (bool_decide (userID = "")) then Ret (Linked userID)
      else if decide (uiEmail ui = "") then Ret Nobody
      else if negb (uiEmailVerified ui) then Ret Unverified
      else
        existing <- call (SGetByEmail (uiEmail ui)) ;;
        match existing with
        | Err _ => Ret (Failed 500 "internal_error")
        | Ok (Some user) =>
            Ret (if linkableToExistingAccount ui user then (if decide (UID user = "") then Nobody else ToLink (UID user))
                 else Failed 409 "email_already_registered")
        | Ok None =>
            r <- create_account ui ;;
            Ret (match r with Ok u => if decide (u = "") then Nobody else ToLink u | Err (s, e) => Failed s e end)
        end
  end.

(** The account-state gate. *)
Definition account_gate h (ip userID : string) : prog (res (Z * string) User) :=
  r <- call (SGetByID userID) ;;
  match r with
  | Ok (Some acct) =>
      if Deleted acct then Ret (Err (403, "account_unavailable"))
      else if Banned acct then Ret (Err (403, "account_banned"))
      else if Disabled acct then Ret (Err (403, "account_disabled"))
      else
        locked <- (match LockedUntil acct with
                   | Some t => now <- call SNow ;; Ret (now <? t)
                   | None => Ret false
                   end) ;;
        if locked : bool then Ret (Err (403, "account_locked"))
        else
          locked <- (if oh_hasAuth h then MFAVerifyLocked (oh_auth h) (UID acct) ip else Ret false) ;;
          if locked : bool then Ret (Err (403, "account_locked")) else Ret (Ok acct)
  | _ => Ret (Err (403, "account_unavailable"))
  end.

Definition link_identity h (providerName userID : string) (ui : UserInfo) : prog (res (Z * string) unit) :=
  id <- RandomUUID ;;
  match id with
  | Err _ => Ret (Err (500, "internal_error"))
  | Ok saID =>
      now <- call SNow ;;
      r <- call (SPersonal (λ _ _, SocialCreate (mkSocialAccount saID userID providerName (uiID ui) (uiEmail ui) now))) ;;
      Ret (match r with Ok _ => Ok tt | Err _ => Err (500, "internal_error") end)
  end.

Definition exchange_key (code fp : string) : string := "oauth_code:" +:+ SHA256Hex code +:+ ":" +:+ fp.
Definition exchange_data (accessToken : string) (expiresIn : Z) : string :=
  encode true (JObj [("access_token", JStr accessToken); ("token_type", JStr "Bearer"); ("expires_in", JNum (FormatInt expiresIn))]).
(** Storing the session: [None] when it is refused. *)
Definition store_session h (rq : CallbackRequest) (userID : string) (pr : TokenPair) : prog (res (Z * string) unit) :=
  if negb (oh_tokens h) then Ret (Ok tt)
  else
    limit <- (if oh_hasAuth h then checkSessionLimit (oh_auth h) userID else Ret (Ok tt)) ;;
    match limit with
    | Err _ => Ret (Err (429, "session_limit_reached"))
    | Ok _ =>
        deviceID <- (if oh_hasAuth h then findOrCreateDevice userID (cb_fp rq) (cb_ip rq) else Ret "") ;;
        let sessionCap := if oh_hasAuth h then maxSessionsPerUser (oh_auth h) else 0 in
        rtID <- RandomUUID ;;
        match rtID with
        | Err _ => Ret (Err (500, "internal_error"))
        | Ok rtID =>
            now <- call SNow ;;
            r <- call (SCreateWithinCap (mkRefreshToken rtID userID "" (SHA256Hex (RefreshTokenRaw pr)) (PFamilyID pr) deviceID
                         (cb_fp rq) (cb_jkt rq) (RefreshExpAt pr) false false (Some now)) sessionCap) ;;
            Ret (match r with
                 | Ok _ => Ok tt
                 | Err ErrSessionLimitReached => Err (429, "session_limit_reached")
                 | Err _ => Err (500, "internal_error")
                 end)
        end
    end.
Definition open_oauth_session h (rq : CallbackRequest) (providerName userID : string) (ui : UserInfo) : prog (answer oauth_reply) :=
  authTime <- (match uiAuthTime ui with Some t => Ret (t * second) | None => call SNow end) ;;
  pair <- IssueTokenPairWithAuth (oh_tokenSvc h) (cb_jkt rq) userID ["user"] ["read"; "write"] "" (cb_fp rq) "" false
            (NewAuthContext authTime [MethodFederated] false) ;;
  match pair with
  | Err _ => Ret (Refused 500 "internal_error")
  | Ok pr =>
      r <- store_session h rq userID pr ;;
      match r with
      | Err (s, e) => Ret (Refused s e)
      | Ok _ =>
          now <- call SNow ;;
          oauth_log h "oauth2_callback" userID (cb_ip rq) providerName ;;;
          exchangeCode <- RandomHex 32 ;;
          match exchangeCode with
          | Err _ => Ret (Refused 500 "internal_error")
          | Ok exchangeCode =>
              call (SSet (exchange_key exchangeCode (cb_fp rq))
                     (exchange_data (AccessToken pr) (whole_seconds (accessTokenTTL (oh_tokenSvc h)))) (60 * second)) ;;;
              Ret (Replied (CodeRedirect exchangeCode (RefreshTokenRaw pr) (whole_seconds (RefreshExpAt pr - now))))
          end
      end
  end.
Definition challenge_or_session h (rq : CallbackRequest) (providerName userID : string) (ui : UserInfo) : prog (answer oauth_reply) :=
  requires <- (if oh_hasMFA h then r <- RequiresMFA (oh_auth h) userID false ;; Ret (match r with Ok b => b | Err _ => true end) else Ret false) ;;
  if requires : bool then
    tok <- IssueChallengeToken (oh_tokenSvc h) (cb_jkt rq) userID (cb_fp rq) [MethodFederated] ;;
    match tok with
    | Err _ => Ret (Refused 500 "internal_error")
    | Ok tok => oauth_log h "oauth2_callback" userID (cb_ip rq) providerName ;;; Ret (Replied (ChallengeRedirect tok))
    end
  else open_oauth_session h rq providerName userID ui.

(** From a profile to a session. *)
Definition sign_in h (rq : CallbackRequest) (providerName : string) (ui : UserInfo) : prog (answer oauth_reply) :=
  who <- resolve_user h providerName ui ;;
  match who with
  | Failed s e => Ret (Refused s e)
  | Unverified => Ret (Replied VerificationRequired)
  | Nobody => Ret (Refused 400 "unable_to_identify_user")
  | Linked userID | ToLink userID =>
      acct <- account_gate h (cb_ip rq) userID ;;
      match acct with
      | Err (s, e) => Ret (Refused s e)
      | Ok acct =>
          linked <- (match who with
                     | ToLink _ => if oh_social h then link_identity h providerName userID ui else Ret (Ok tt)
                     | _ => Ret (Ok tt)
                     end) ;;
          match linked with
          | Err (s, e) => Ret (Refused s e)
          | Ok _ =>
              claimed <- (if ImportPending acct then call (SUsers (λ _ d, (tt, users (ClearImportPending (UID acct) d)))) else Ret (Ok tt)) ;;
              match claimed with
              | Err _ => Ret (Refused 500 "internal_error")
              | Ok _ => challenge_or_session h rq providerName userID ui
              end
          end
      end
  end.

Definition Callback h (rq : CallbackRequest) : prog (answer oauth_reply) :=
  let providerName := if decide (cb_path rq = "") then cb_query rq else cb_path rq in
  match oh_providers h !! providerName with
  | None => Ret (Refused 400 "unknown_provider")
  | Some provider =>
      if negb (bool_decide (cb_error rq = "")) then Ret (Refused 400 "provider_denied")
      else
        now <- call SNow ;;
        match check_state h providerName (cb_cookie rq) now (cb_state rq) with
        | Err (s, e) => Ret (Refused s e)
        | Ok nonce =>
            v <- call (SGetAndDelete ("oauth_state:" +:+ nonce)) ;;
            match v with
            | Err _ => Ret (Refused 400 "invalid_or_reused_state")
            | Ok verifier =>
                if decide (verifier = "") then Ret (Refused 400 "invalid_or_reused_state")
                else if decide (cb_code rq = "") then Ret (Refused 400 "missing_code")
                else
                  profile <- fetch_profile provider nonce (cb_code rq) verifier ;;
                  match profile with
                  | None => Ret (Refused 502 "provider_error")
                  | Some ui =>
                      if decide (TrimSpace (uiID ui) = "") then Ret (Refused 502 "provider_error")
                      else sign_in h rq providerName (trusted_profile ui)
                  end
            end
        end
  end.

(** ** The one-time code *)
Record OAuthExchangeData := mkExchangeData { xd_AccessToken : string; xd_TokenType : string; xd_ExpiresIn : Z }.
Definition exchange_of (data : string) : option OAuthExchangeData :=
  m ← unmarshal_struct data; a ← str_field "access_token" m; t ← str_field "token_type" m; e ← int_field "expires_in" m;
  Some (mkExchangeData a t e).
Definition ExchangeCode (fp : string) (body : option string) : prog (answer OAuthExchangeData) :=
  match body with
  | None => Ret (Refused 400 "invalid_request")
  | Some code =>
      if decide (code = "") then Ret (Refused 400 "invalid_request")
      else
        r <- call (SGetAndDelete (exchange_key code fp)) ;;
        match r with
        | Err _ => Ret (Refused 400 "invalid_or_expired_code")
        | Ok data =>
            if decide (data = "") then Ret (Refused 400 "invalid_or_expired_code")
            else Ret (match exchange_of data with Some d => Replied d | None => Refused 500 "internal_error" end)
        end
  end.
End oauth.

(** * Facts: who a provider can sign in, and as whom

    Under any faults, a callback opens a session only for a flow this server
    started in this browser, for an identity the provider vouched for, on an
    account in good standing, and never past a second factor; a refused one
    leaves no identity behind; and an address a provider does not vouch for
    reveals nothing. *)

(** ** Statements that write no table *)
Definition calmly (B : Type) (s : stmt B) : bool :=
  keeps_db s && match s with SPersonal _ | SAdmin _ => false | _ => true end.
Section calm.
Context {C : Type} `{CacheOps C} `{Primitives}.
Implicit Types w : World C.
Definition calm w w' : Prop := db w' = db w ∧ personal w' = personal w ∧ enrolled w' = enrolled w ∧ clock w ≤ clock w'.
Lemma calm_refl w : calm w w.
Proof. by split_and!. Qed.
Lemma calm_trans w1 w2 w3 : calm w1 w2 → calm w2 w3 → calm w1 w3.
Proof. intros (?&?&?&?) (?&?&?&?). split_and!; [congruence..|lia]. Qed.
Lemma calm_same w w' : same_stores w w' → personal w' = personal w → calm w w'.
Proof. intros (?&?&?&?&?&?&?&?&?&?&?) ?. by split_and!. Qed.
Lemma perform_calm c {B} (s : stmt B) w : calmly B s = true → calm w (perform c s w).2.
Proof.
  intros [Hk Hs]%andb_true_iff. destruct (perform_keeps c s w Hk) as [Hd Hc]. split_and!; [done| | |done].
  - clear Hd Hc. destruct s; cbn in Hk, Hs; try discriminate Hk; try discriminate Hs; cbn [perform]; unfold on_cache, on_db, on_factors, rate_increment;
      repeat case_match; simplify_eq/=; try done; destruct (c_cache c), (c_db c); cbn in *; simplify_eq/=; done.
  - apply perform_tokens. by destruct s.
Qed.
Lemma wp_calm P {A} (p : prog A) (Q : A → World C → Prop) w :
  over calmly p → (∀ a w', calm w w' → Q a w') → wp P p Q w.
Proof. apply wp_over; [apply calm_refl|apply calm_trans|intros; by apply perform_calm]. Qed.
End calm.

Section classes.
Context `{Primitives}.
Lemma locked_calm s u ip : over calmly (MFAVerifyLocked s u ip).
Proof. unfold MFAVerifyLocked, isAccountLocked, lockoutGeneration, cachedCount, lockoutCountersUnwritable, lockedByStoredCount. walk. Qed.
Lemma limit_calm s u : over calmly (checkSessionLimit s u).
Proof. unfold checkSessionLimit. walk. Qed.
Lemma device_calm u f ip : over calmly (findOrCreateDevice u f ip).
Proof. unfold findOrCreateDevice. walk. Qed.
Lemma status_calm u : over calmly (GetStatus u).
Proof. unfold GetStatus. walk. Qed.
Lemma challenge_calm ts jkt u f fs : over calmly (IssueChallengeToken ts jkt u f fs).
Proof. unfold IssueChallengeToken. walk. Qed.
Lemma issue_calm ts jkt u rs sc c f fam rm a : over calmly (IssueTokenPairWithAuth ts jkt u rs sc c f fam rm a).
Proof. unfold IssueTokenPairWithAuth. walk. Qed.
Lemma log_calm h k u ip p : over calmly (oauth_log h k u ip p).
Proof. unfold oauth_log. walk. Qed.
Lemma hex_calm n : over calmly (RandomHex n).
Proof. unfold RandomHex, RandomBytes. walk. Qed.
Lemma uuid_calm : over calmly RandomUUID.
Proof. unfold RandomUUID, RandomBytes. walk. Qed.
End classes.

(** ** Who it is *)
Section resolve.
Context {C : Type} `{CacheOps C} `{Primitives} `{MailParser} `{URLParser}.
Implicit Types w : World C.

(** Only the accounts table moved. *)
Definition accounts_only w w' : Prop :=
  tokens (db w') = tokens (db w) ∧ personal w' = personal w ∧ enrolled w' = enrolled w ∧ clock w ≤ clock w'.
Lemma calm_accounts w w' : calm w w' → accounts_only w w'.
Proof. intros (Hd & ? & ? & ?). split_and!; [by rewrite Hd|done..]. Qed.
Lemma accounts_trans w1 w2 w3 : accounts_only w1 w2 → accounts_only w2 w3 → accounts_only w1 w3.
Proof. intros (?&?&?&?) (?&?&?&?). split_and!; [congruence..|lia]. Qed.

(** The account a new address gets. *)
Definition created (ui : UserInfo) (u : string) w w' : Prop :=
  GetByEmail (uiEmail ui) (db w) = None ∧ users (db w) !! u = None ∧
  ∃ now, db w' = with_users (<[u := fresh_row (provider_account u ui now)]> (users (db w))) (db w).
Definition resolved (providerName : string) (ui : UserInfo) w (who : resolution) w' : Prop :=
  accounts_only w w' ∧
  match who with
  | Linked u => calm w w' ∧ u ≠ "" ∧ ∃ a, GetByProviderAndID providerName (uiID ui) (personal w) = Some a ∧ SAUserID a = u
  | ToLink u => u ≠ "" ∧ uiEmail ui ≠ "" ∧ uiEmailVerified ui = true ∧
      (calm w w' ∧ (∃ user, GetByEmail (uiEmail ui) (db w) = Some user ∧ EmailVerified user = true ∧ UID user = u) ∨ created ui u w w')
  | Unverified => calm w w' ∧ uiEmailVerified ui = false
  | Nobody => True
  | Failed s _ => s = 500 ∨ s = 409
  end.

Lemma wp_getbyemail P {B} e (k : res repoErr (option User) → prog B) Q w :
  (∀ w1, calm w w1 → wp P (k (Ok (GetByEmail e (db w)))) Q w1 ∧ wp P (k (Err ErrDB)) Q w1) → wp P (bind (call (SGetByEmail e)) k) Q w.
Proof.
  intros Hk c _. cbn [perform]. unfold on_db. change (db (tick c w)) with (db w).
  assert (Hq : calm w (tick c w)) by (split_and!; [done..|cbn; lia]). assert (E : set_db (db w) (tick c w) = tick c w) by (by destruct w).
  rewrite E. destruct (Hk _ Hq). by destruct (c_db c).
Qed.
Lemma wp_getbyid P {B} i (k : res repoErr (option User) → prog B) Q w :
  (∀ w1, calm w w1 → wp P (k (Ok (users (db w) !! i))) Q w1 ∧ wp P (k (Err ErrDB)) Q w1) → wp P (bind (call (SGetByID i)) k) Q w.
Proof.
  intros Hk c _. cbn [perform]. unfold on_db. change (db (tick c w)) with (db w).
  assert (Hq : calm w (tick c w)) by (split_and!; [done..|cbn; lia]). assert (E : set_db (db w) (tick c w) = tick c w) by (by destruct w).
  rewrite E. destruct (Hk _ Hq). by destruct (c_db c).
Qed.
(** A statement on the accounts table: done, lost, or done and reported lost. *)
Lemma wp_user_rows P {A B} (q : Z → DB → A * gmap string User) (k : res repoErr A → prog B) Q w :
  (∀ w1, calm w w1 → wp P (k (Ok (q (clock w1) (db w)).1)) Q (set_db (with_users (q (clock w1) (db w)).2 (db w)) w1)) →
  (∀ w1, accounts_only w w1 → wp P (k (Err ErrDB)) Q w1) →
  wp P (bind (call (SUsers q)) k) Q w.
Proof.
  intros Hk He c _. cbn [perform]. unfold on_db. change (db (tick c w)) with (db w).
  assert (Hq : calm w (tick c w)) by (split_and!; [done..|cbn; lia]). specialize (Hk _ Hq).
  destruct (q _ _) as [a us]. destruct (c_db c); cbn in *; [exact Hk|apply He; by apply calm_accounts|apply He].
  split_and!; [done..|cbn; lia].
Qed.

Lemma create_ok ui w : GetByEmail (uiEmail ui) (db w) = None →
  wp any (create_account ui) (λ r w', accounts_only w w' ∧ match r with Ok u => created ui u w w' | Err (s, _) => s = 500 ∨ s = 409 end) w.
Proof.
  intros Hnone. unfold create_account. apply wp_bind, wp_calm; [apply uuid_calm|]. intros [newID|e] w1 Hq1; [|cbn; split; [by apply calm_accounts|by left]].
  apply wp_bind, wp_calm; [by split|]. intros now w2 Hq2. pose proof (calm_trans _ _ _ Hq1 Hq2) as Hq. destruct Hq as (Hd & _).
  apply wp_user_rows.
  - intros w3 Hq3. pose proof (calm_trans _ _ _ Hq1 (calm_trans _ _ _ Hq2 Hq3)) as (Hd3 & Hp3 & He3 & Hc3). rewrite Hd.
    unfold CreateUser. cbn [UID Email provider_account]. unfold email_taken. rewrite Hnone. case_decide as Hu; cbn [fst snd].
    + assert (Hw3 : set_db (with_users (users (db w)) (db w)) w3 = w3) by (rewrite <- Hd3; by destruct w3 as [? []]).
      rewrite Hw3. apply wp_getbyemail. rewrite Hd3, Hnone. intros w4 Hq4.
      assert (Ha : accounts_only w w4) by (apply calm_accounts; eapply calm_trans; [|exact Hq4]; by split_and!).
      split; cbn; (split; [done|by left]).
    + cbn. split; [by split_and!|]. split_and!; [done|by apply eq_None_not_Some|]. by exists now.
  - intros w3 Ha. cbn. split; [|by left]. eapply accounts_trans; [|exact Ha]. apply calm_accounts. by eapply calm_trans.
Qed.
Lemma resolve_ok h providerName ui w : wp any (resolve_user h providerName ui) (resolved providerName ui w) w.
Proof.
  unfold resolve_user. apply wp_bind.
  eapply (wp_mono _ _ (λ r w', calm w w' ∧ match r with Ok (Some a) => GetByProviderAndID providerName (uiID ui) (personal w) = Some a | Ok None => True | Err _ => True end)).
  2: { destruct (oh_social h); [|by split; [apply calm_refl|]]. apply (wp_reads any (GetByProviderAndID providerName (uiID ui)) (λ r, Ret r)). intros w1 Hi.
       assert (Hq : calm w w1) by (destruct Hi; by apply calm_same). split; cbn; split; try done. by destruct (GetByProviderAndID _ _ _). }
  intros [linked|e] w1 [Hq Hl]; [|cbn; split; [by apply calm_accounts|by left]]. cbv zeta.
  destruct (bool_decide _) eqn:Eb; cbn [negb].
  2: { cbn. split; [by apply calm_accounts|]. apply bool_decide_eq_false in Eb. split_and!; [done|done|]. destruct linked as [a|]; [by exists a|done]. }
  destruct (decide (uiEmail ui = "")); [cbn; by split; [apply calm_accounts|]|]. destruct (uiEmailVerified ui) eqn:Ev; cbn [negb]; [|cbn; by split; [apply calm_accounts|]].
  apply wp_getbyemail. destruct Hq as (Hd & Hp & He & Hc). rewrite Hd. intros w2 Hq2.
  assert (Hq' : calm w w2) by (eapply calm_trans; [|exact Hq2]; by split_and!).
  split; [|cbn; split; [by apply calm_accounts|by left]]. destruct (GetByEmail (uiEmail ui) (db w)) as [user|] eqn:Eg.
  - cbn. split; [by apply calm_accounts|]. unfold linkableToExistingAccount. rewrite Ev. cbn. destruct (EmailVerified user) eqn:Eu; [|by right].
    destruct (decide (UID user = "")); [done|]. split_and!; [done|done|done|]. left. split; [done|]. by exists user.
  - apply wp_bind. destruct Hq' as (Hd2 & Hp2 & He2 & Hc2). eapply wp_mono; [|apply create_ok; by rewrite Hd2].
    intros [u|[s e]] w3 [Ha Hr]; cbn; (split; [eapply accounts_trans; [|exact Ha]; by apply calm_accounts|]); [|done].
    destruct (decide (u = "")); [done|]. split_and!; [done|done|done|]. right. unfold created in *. rewrite Hd2 in Hr. destruct Hr as (? & ? & now & ?). split_and!; [done|done|by exists now].
Qed.
End resolve.

(** ** From an account to a session *)
Section session.
Context {C : Type} `{CacheOps C} `{Primitives} `{MailParser} `{URLParser}.
Implicit Types w : World C.

Lemma gate_ok h ip u w :
  wp any (account_gate h ip u)
    (λ r w', calm w w' ∧ match r with
                          | Ok acct => users (db w) !! u = Some acct ∧ ∃ now, clock w ≤ now ∧ holds_sessions now acct = true
                          | Err (s, _) => s = 403
                          end) w.
Proof.
  unfold account_gate. apply wp_getbyid. intros w1 Hq1. split; [|by cbn]. destruct (users (db w) !! u) as [acct|]; [|by cbn].
  destruct (Deleted acct) eqn:Ed; [by cbn|]. destruct (Banned acct) eqn:Eb; [by cbn|]. destruct (Disabled acct) eqn:Es; [by cbn|].
  apply wp_bind. eapply (wp_mono _ _ (λ b w', calm w w' ∧ (b = false → ∃ now, clock w ≤ now ∧ holds_sessions now acct = true))).
  - intros b w2 [Hq2 Hb]. destruct b; [by cbn|]. destruct (Hb eq_refl) as (now & Hn & Ha).
    apply wp_bind, wp_calm; [destruct (oh_hasAuth h); [apply locked_calm|done]|]. intros b w3 Hq3.
    assert (calm w w3) by (by eapply calm_trans). destruct b; cbn; (split; [done|]); [done|]. split; [done|]. by exists now.
  - destruct (LockedUntil acct) as [t|] eqn:El.
    + apply wp_time. intros w2 [Hs2 Hp2]. cbn. split; [eapply calm_trans; [exact Hq1|by apply calm_same]|].
      intros Hlt%Z.ltb_ge. exists (clock w2). split; [destruct Hq1 as (_&_&_&?); apply same_clock in Hs2; lia|].
      unfold holds_sessions, is_locked_at. rewrite Ed, Eb, Es, El, (proj2 (Z.ltb_ge _ _) Hlt). done.
    + cbn. split; [done|]. intros _. exists (clock w). split; [lia|]. unfold holds_sessions, is_locked_at. by rewrite Ed, Eb, Es, El.
Qed.
(** Linking touches the identities alone, and fails closed. *)
Definition keeps_accounts w w' : Prop := db w' = db w ∧ enrolled w' = enrolled w ∧ clock w ≤ clock w'.
Lemma calm_keeps w w' : calm w w' → keeps_accounts w w'.
Proof. by intros (?&?&?&?). Qed.
Lemma keeps_trans w1 w2 w3 : keeps_accounts w1 w2 → keeps_accounts w2 w3 → keeps_accounts w1 w3.
Proof. intros (?&?&?) (?&?&?). split_and!; [congruence..|lia]. Qed.
Lemma link_ok h p u ui w :
  wp any (link_identity h p u ui) (λ r w', keeps_accounts w w' ∧ match r with Ok _ => True | Err (s, _) => s = 500 end) w.
Proof.
  unfold link_identity. apply wp_bind, wp_calm; [apply uuid_calm|]. intros [saID|e] w1 Hq1; [|cbn; split; [by apply calm_keeps|done]].
  apply wp_bind, wp_calm; [by split|]. intros now w2 Hq2. apply wp_personal. intros w3 [Hs3 Hp3].
  assert (Hk : keeps_accounts w w3) by (apply calm_keeps; eapply calm_trans; [exact Hq1|eapply calm_trans; [exact Hq2|by apply calm_same]]).
  split_and!; cbn; try done. by destruct (SocialCreate _ _).1.
Qed.

(** What a finished callback may answer, and what it owes. *)
Definition opens (r : answer oauth_reply) : bool :=
  match r with Replied (ChallengeRedirect _) | Replied (CodeRedirect _ _ _) => true | _ => false end.
Definition late_refusal (r : answer oauth_reply) : Prop :=
  match r with Refused s _ => s = 500 ∨ s = 429 | Replied (ChallengeRedirect _) | Replied (CodeRedirect _ _ _) => True | _ => False end.
Lemma store_session_refusal h rq u pr w : wp any (store_session h rq u pr) (λ r _, match r with Ok _ => True | Err (s, _) => s = 500 ∨ s = 429 end) w.
Proof.
  unfold store_session. destruct (oh_tokens h); cbn [negb]; [|done]. apply wp_bind, wp_always. intros [[]|e] w1; [|cbn; by right].
  apply wp_bind, wp_always. intros dev w2. apply wp_bind, wp_always. intros [id|e] w3; [|cbn; by left].
  apply wp_bind, wp_always. intros now w4. apply wp_bind, wp_always. intros [[]|e] w5; cbn; [done|]. by destruct e; auto.
Qed.
Lemma open_late h rq p u ui w : wp any (open_oauth_session h rq p u ui) (λ r _, late_refusal r ∧ ∀ c, r ≠ Replied (ChallengeRedirect c)) w.
Proof.
  unfold open_oauth_session. apply wp_bind, wp_always. intros at_ w1. apply wp_bind, wp_always. intros [pr|e] w2; [|cbn; by split; [left|]].
  apply wp_bind. eapply wp_mono; [|apply store_session_refusal]. intros [[]|[s e]] w3 Hs; [|by cbn].
  apply wp_bind, wp_always. intros now w4. apply wp_bind, wp_always. intros _ w5. apply wp_bind, wp_always. intros [code|e] w6; [|cbn; by split; [left|]].
  apply wp_bind, wp_always. by cbn.
Qed.
(** A challenge and no session, or a session where no second factor is owed. *)
Definition second_factor_kept h (u : string) w (r : answer oauth_reply) w' : Prop :=
  match r with
  | Replied (ChallengeRedirect _) => tokens (db w') = tokens (db w)
  | Replied (CodeRedirect _ _ _) => oh_hasMFA h = true → no_second_factor u w ∧ mfaRequired (oh_auth h) = false
  | _ => True
  end.
Lemma oauth_session_ok h rq p u ui w :
  wp any (challenge_or_session h rq p u ui) (λ r w', late_refusal r ∧ second_factor_kept h u w r w') w.
Proof.
  unfold challenge_or_session. apply wp_bind.
  eapply (wp_mono _ _ (λ b w', calm w w' ∧ (b = false → oh_hasMFA h = true → no_second_factor u w ∧ mfaRequired (oh_auth h) = false))).
  - intros b w1 [Hq Hb]. destruct b.
    + apply wp_bind, wp_calm; [apply challenge_calm|]. intros [tok|e] w2 Hq2; [|cbn; by split; [left|]].
      apply wp_bind, wp_calm; [apply log_calm|]. intros _ w3 Hq3. cbn. split; [done|].
      destruct (calm_trans _ _ _ Hq (calm_trans _ _ _ Hq2 Hq3)) as (Hd & _). by rewrite Hd.
    + eapply wp_mono; [|apply open_late]. intros r w2 [Hl Hn]. split; [done|]. destruct r as [|[| |c|]]; cbn; try done; [by destruct (Hn c)|]. intros Hm. by apply Hb.
  - destruct (oh_hasMFA h); [|by cbn; split; [apply calm_refl|]]. apply wp_bind. unfold RequiresMFA. apply wp_bind.
    eapply wp_mono; [|apply (wp_and any (GetStatus u) _ _ w (status_ok u w) (wp_calm any (GetStatus u) (λ _ w', calm w w') w (status_calm u) ltac:(auto)))].
    intros r w1 [(_ & _ & Hn) Hq]. destruct r as [ms|e]; cbn; [|by split]. split; [done|]. destruct ms; [|done]. intros Hm _. split; [by apply Hn|done].
Qed.
End session.

(** ** The signed state *)
Section state.
Context `{Primitives}.
(** Digests are written in hexadecimal: no separator in them. *)
Definition plain_digests : Prop := (∀ s, Cut 46 (sha256_hex s) = None) ∧ (∀ m k, contains 46 (hmac_hex m k) = false).

Lemma contains_cons b c s : contains b (String c s) = (code c =? b) || contains b s.
Proof. unfold contains. cbn. destruct (code c =? b); cbn; [done|]. by destruct (index_of b s). Qed.
Lemma contains_snoc b c s : contains b (s +:+ String c "") = (code c =? b) || contains b s.
Proof.
  induction s as [|d s IH]; [rewrite string_app_nil_l, contains_cons; by destruct (code c =? b)|].
  rewrite string_app_cons, !contains_cons, IH. by destruct (code c =? b), (code d =? b).
Qed.
Lemma contains_rev b s : contains b (str_rev s) = contains b s.
Proof. induction s as [|c s IH]; [done|]. by rewrite str_rev_cons, contains_snoc, contains_cons, IH. Qed.
Lemma str_rev_length s : String.length (str_rev s) = String.length s.
Proof. induction s as [|c s IH]; [done|]. rewrite str_rev_cons, string_app_length, IH. cbn. lia. Qed.

Lemma split_signature_app payload sig : contains 46 sig = false → split_signature (payload +:+ "." +:+ sig) = Some (payload, sig).
Proof.
  intros Hs. unfold split_signature, last_index_of. rewrite !str_rev_append. change (str_rev ".") with (String (chr 46) "").
  assert (Er : (str_rev sig +:+ String (chr 46) "") +:+ str_rev payload = str_rev sig +:+ String (chr 46) (str_rev payload)) by
    (by rewrite string_app_assoc, string_app_cons, string_app_nil_l).
  rewrite Er.
  destruct (index_of_app 46 (str_rev sig) (str_rev payload)) as [E|E]; [by rewrite contains_rev|..|lia].
  rewrite E. cbn [fmap option_fmap option_map mbind option_bind]. rewrite str_rev_length, !string_app_length. cbn [String.length].
  replace (_ - 1 - _)%nat with (String.length payload) by lia.
  destruct (take_drop_app payload ("." +:+ sig) (String.length payload) eq_refl) as [Ht _].
  destruct (take_drop_app (payload +:+ ".") sig (S (String.length payload))) as [_ Hd]; [rewrite string_app_length; cbn; lia|].
  rewrite string_app_assoc in Hd. by rewrite Ht, Hd.
Qed.
Lemma split_payload_app p n e c : Cut 46 p = None → Cut 46 n = None → Cut 46 e = None →
  split_payload (p +:+ "." +:+ n +:+ "." +:+ e +:+ "." +:+ c) = Some (p, n, e, c).
Proof.
  intros Hp Hn He. unfold split_payload. change ("." +:+ n +:+ "." +:+ e +:+ "." +:+ c) with (String (chr 46) (n +:+ String (chr 46) (e +:+ String (chr 46) c))).
  rewrite Cut_app by done. cbn [mbind option_bind]. rewrite Cut_app by done. cbn [mbind option_bind]. by rewrite Cut_app.
Qed.
Lemma digits_uncut s : uint_digits s → Cut 46 s = None.
Proof.
  induction s as [|c s IH]; [done|]. intros [Hc Hs]. cbn. rewrite (IH Hs). unfold is_digit in Hc. bool_hyps.
  destruct (Z.eqb_spec (code c) 46); [lia|done].
Qed.
(** What a state must be, whoever made it. *)
Lemma check_state_ok h p cookie now state nonce :
  check_state h p cookie now state = Ok nonce →
  ∃ csrf expiry e, cookie = Some csrf ∧ csrf ≠ "" ∧ ParseInt expiry = (e, None) ∧ now / second ≤ e ∧
    ∃ payload, split_signature state = Some (payload, HMACSign payload (oh_hmacSecret h)) ∧
      split_payload payload = Some (p, nonce, expiry, SHA256Hex csrf).
Proof.
  unfold check_state. case_decide; [done|]. destruct (split_signature state) as [[payload sig]|] eqn:Es; [|done].
  destruct (HMACVerify _ _ _) eqn:Eh; [|done]. cbn [negb]. destruct (split_payload payload) as [[[[q n] expiry] hash]|] eqn:Ep; [|done].
  destruct (bool_decide (q = p)) eqn:Eq; [|done]. apply bool_decide_eq_true in Eq as ->. cbn [negb].
  destruct cookie as [csrf|]; [|done]. destruct (bool_decide (csrf = "")) eqn:Ec; [done|]. apply bool_decide_eq_false in Ec. cbn [orb].
  destruct (SecureCompare _ _) eqn:Ecmp; [|done]. cbn [negb]. rewrite SecureCompare_eq in Ecmp. apply bool_decide_eq_true in Ecmp as ->.
  destruct (ParseInt expiry) as [e [er|]] eqn:Ei; [done|]. destruct (Z.ltb_spec e (now / second)); [done|]. intros [= ->].
  unfold HMACVerify in Eh. rewrite SecureCompare_eq in Eh. apply bool_decide_eq_true in Eh as <-.
  exists csrf, expiry, e. split_and!; try done. exists payload. by split.
Qed.

(** C18. A state opens the flow it was made for and no other: for its provider, in
    the browser that holds its token, until ten minutes are over. *)
Theorem oauth_state_opens_its_flow h p p' nonce csrf csrf' made now :
  plain_digests → Cut 46 p = None → Cut 46 nonce = None → csrf' ≠ "" → 0 ≤ made → (made + oauth_ttl) / second ≤ int64_max →
  check_state h p' (Some csrf') now (signed_state h p nonce made csrf) = Ok nonce ↔
  p' = p ∧ SHA256Hex csrf' = SHA256Hex csrf ∧ now / second ≤ (made + oauth_ttl) / second.
Proof.
  intros [Hd Hm] Hp Hn Hc H0 Hmax. assert (Hr : 0 ≤ (made + oauth_ttl) / second ≤ int64_max) by (split; [unfold oauth_ttl, minute, second; divmod|done]).
  assert (Hf : Cut 46 (FormatInt ((made + oauth_ttl) / second)) = None) by (unfold FormatInt; destruct (Z.ltb_spec ((made + oauth_ttl) / second) 0); [lia|apply digits_uncut, FormatUint_digits]).
  unfold check_state, signed_state, state_payload. set (payload := p +:+ _). rewrite decide_False by (unfold payload; by destruct p).
  rewrite (split_signature_app payload) by apply Hm. unfold HMACVerify. rewrite SecureCompare_eq, bool_decide_eq_true_2 by done. cbn [negb].
  unfold payload. rewrite split_payload_app by done. rewrite (bool_decide_eq_false_2 (csrf' = "")) by done. rewrite SecureCompare_eq, ParseInt_FormatInt by done. cbn [orb].
  destruct (decide (p = p')) as [->|Hpp]; [rewrite bool_decide_eq_true_2 by done|rewrite bool_decide_eq_false_2 by done]; cbn [negb]; [|by split; [done|intros [? _]]].
  destruct (decide (SHA256Hex csrf = SHA256Hex csrf')) as [E|E]; [rewrite bool_decide_eq_true_2 by done|rewrite bool_decide_eq_false_2 by done]; cbn [negb]; [|by split; [done|intros (_ & ? & _)]].
  destruct (Z.ltb_spec ((made + oauth_ttl) / second) (now / second)); split; try done; intros; lia.
Qed.
End state.

(** ** The whole callback *)
Section callback.
Context {C : Type} `{CacheOps C} `{Primitives} `{MailParser} `{URLParser}.
Implicit Types w : World C.

(** The account [acct] of [u] a profile may sign in as: the one its identity is
    linked to, the one that proved the same address, or a new one. *)
Definition may_sign_in_as (providerName : string) (ui : UserInfo) (u : string) (acct : User) w : Prop :=
  u ≠ "" ∧
  ((∃ a, GetByProviderAndID providerName (uiID ui) (personal w) = Some a ∧ SAUserID a = u) ∧ users (db w) !! u = Some acct ∨
   uiEmail ui ≠ "" ∧ uiEmailVerified ui = true ∧
   ((∃ user, GetByEmail (uiEmail ui) (db w) = Some user ∧ EmailVerified user = true ∧ UID user = u) ∧ users (db w) !! u = Some acct ∨
    GetByEmail (uiEmail ui) (db w) = None ∧ users (db w) !! u = None ∧ ∃ t, acct = fresh_row (provider_account u ui t))).
(** No identity and no session appeared. *)
Definition nothing_granted w w' : Prop := tokens (db w') = tokens (db w) ∧ personal w' = personal w.
Definition signed_in h providerName ui w (r : answer oauth_reply) w' : Prop :=
  (opens r = true → ∃ u acct now, may_sign_in_as providerName ui u acct w ∧ clock w ≤ now ∧ holds_sessions now acct = true ∧ second_factor_kept h u w r w') ∧
  (late_refusal r ∨ nothing_granted w w').

Lemma resolved_account p ui w who w1 u acct :
  resolved p ui w who w1 → (who = Linked u ∨ who = ToLink u) → users (db w1) !! u = Some acct → may_sign_in_as p ui u acct w.
Proof.
  intros [_ Hr] [->| ->] Hu.
  - destruct Hr as ((Hd & _) & Hne & Hl). split; [done|]. left. rewrite Hd in Hu. by split.
  - destruct Hr as (Hne & He & Hv & Hr). split; [done|]. right. split_and!; [done..|]. destruct Hr as [[(Hd & _) Hx]|(Hn & Hf & t & Hd)].
    + left. rewrite Hd in Hu. by split.
    + right. split_and!; [done..|]. exists t. rewrite Hd in Hu. cbn in Hu. rewrite lookup_insert_eq in Hu. by injection Hu.
Qed.
Lemma wp_claim acct {B} (k : res repoErr unit → prog B) Q w :
  (∀ r w1, accounts_only w w1 → wp any (k r) Q w1) →
  wp any (bind (if ImportPending acct then call (SUsers (λ _ d, (tt, users (ClearImportPending (UID acct) d)))) else Ret (Ok tt)) k) Q w.
Proof.
  intros Hk. destruct (ImportPending acct); [|apply Hk; apply calm_accounts, calm_refl].
  apply wp_user_rows; [|intros; by apply Hk]. intros w1 (Hd & Hp & He & Hc). apply Hk. by split_and!.
Qed.
Lemma late_session h rq p u ui w0 w acct now :
  may_sign_in_as p ui u acct w0 → clock w0 ≤ now → holds_sessions now acct = true → tokens (db w) = tokens (db w0) → enrolled w = enrolled w0 →
  wp any (challenge_or_session h rq p u ui) (signed_in h p ui w0) w.
Proof.
  intros Hm Hn Ha Ht He. eapply wp_mono; [|apply oauth_session_ok]. intros r w' [Hl Hk]. split; [|by left]. intros _. exists u, acct, now. split_and!; try done.
  revert Hk. unfold second_factor_kept, no_second_factor. rewrite Ht, He. done.
Qed.
Lemma refused_early h p ui w w' s e : nothing_granted w w' → signed_in h p ui w (Refused s e) w'.
Proof. intros Hn. split; [done|by right]. Qed.
Lemma sign_in_ok h rq p ui w : wp any (sign_in h rq p ui) (signed_in h p ui w) w.
Proof.
  unfold sign_in. apply wp_bind. eapply wp_mono; [|apply resolve_ok]. intros who w1 Hres. pose proof Hres as [(Ht1 & Hp1 & He1 & Hc1) _].
  assert (Hgo : ∀ u, who = Linked u ∨ who = ToLink u → ∀ k,
    (∀ acct w2, may_sign_in_as p ui u acct w → (∃ now, clock w ≤ now ∧ holds_sessions now acct = true) → calm w1 w2 → wp any (k (Ok acct)) (signed_in h p ui w) w2) →
    (∀ s e w2, nothing_granted w w2 → wp any (k (Err (s, e))) (signed_in h p ui w) w2) →
    wp any (bind (account_gate h (cb_ip rq) u) k) (signed_in h p ui w) w1).
  { intros u Hw k Hok Herr. apply wp_bind. eapply wp_mono; [|apply gate_ok]. intros [acct|[s e]] w2 [Hq Hr].
    - destruct Hr as (Hu & now & Hn & Ha). apply Hok; [by eapply resolved_account| |done]. exists now. split; [lia|done].
    - apply Herr. destruct Hq as (Hd & Hp & _). split; [by rewrite Hd|by rewrite Hp]. }
  destruct who as [u|u| | |s e]; try (cbn; first [apply refused_early|split; [done|right]]; by split).
  - apply (Hgo u (or_introl eq_refl)); [|intros; by apply refused_early]. intros acct w2 Hm (now & Hn & Ha) (Hd & Hp & He & Hc).
    cbn [bind]. apply wp_claim. intros [[]|e] w3 (Ht3 & Hp3 & He3 & Hc3); [|cbn; split; [done|left; by left]].
    eapply late_session; try done; congruence.
  - apply (Hgo u (or_intror eq_refl)); [|intros; by apply refused_early]. intros acct w2 Hm (now & Hn & Ha) (Hd & Hp & He & Hc).
    apply wp_bind. eapply (wp_mono _ _ (λ r w', keeps_accounts w2 w' ∧ match r with Ok _ => True | Err (s, _) => s = 500 end));
      [|destruct (oh_social h); [apply link_ok|cbn; by split_and!]].
    intros [[]|[s e]] w3 [(Hd3 & He3 & Hc3) Hs]; [|cbn; split; [done|left; by left]].
    apply wp_claim. intros [[]|e] w4 (Ht4 & Hp4 & He4 & Hc4); [|cbn; split; [done|left; by left]].
    eapply late_session; try done; congruence.
Qed.

(** The flow behind a callback: a registered provider, a state it was started
    with in this browser, its verifier taken from the cache, the provider's profile. *)
Definition flow h (rq : CallbackRequest) w (providerName : string) (ui : UserInfo) : Prop :=
  ∃ provider t nonce verifier raw,
    oh_providers h !! providerName = Some provider ∧ clock w ≤ t ∧ check_state h providerName (cb_cookie rq) t (cb_state rq) = Ok nonce ∧
    (∃ t', t ≤ t' ∧ (GetAndDelete t' ("oauth_state:" +:+ nonce) (cch w)).1 = Ok verifier) ∧ verifier ≠ "" ∧ cb_code rq ≠ "" ∧
    (∃ t', t ≤ t' ∧ profile_at provider t' nonce (cb_code rq) verifier = Some raw) ∧ TrimSpace (uiID raw) ≠ "" ∧ ui = trusted_profile raw.
Definition answered h rq w (r : answer oauth_reply) w' : Prop :=
  (opens r = true → ∃ providerName ui u acct now, flow h rq w providerName ui ∧ may_sign_in_as providerName ui u acct w ∧
     clock w ≤ now ∧ holds_sessions now acct = true ∧ second_factor_kept h u w r w') ∧
  (late_refusal r ∨ nothing_granted w w').
Lemma wp_take {B} k (f : res cacheErr string → prog B) Q w :
  (∀ r w1, calm w w1 → (∀ v, r = Ok v → ∃ t, clock w ≤ t ∧ (GetAndDelete t k (cch w)).1 = Ok v) → wp any (f r) Q w1) →
  wp any (bind (call (SGetAndDelete k)) f) Q w.
Proof.
  intros Hf c _. apply Hf; [by apply perform_calm|]. intros v Hv. exists (clock (tick c w)). split; [cbn; lia|].
  revert Hv. cbn [perform]. unfold on_cache. change (cch (tick c w)) with (cch w). destruct (GetAndDelete _ _ _). by destruct (c_cache c).
Qed.
Lemma early h rq w w' s e : nothing_granted w w' → wp any (Ret (Refused s e)) (answered h rq w) w'.
Proof. intros Hn. split; [done|by right]. Qed.
Lemma callback_ok h rq w : wp any (Callback h rq) (answered h rq w) w.
Proof.
  unfold Callback. set (p := if decide _ then _ else _). destruct (oh_providers h !! p) as [provider|] eqn:Ep; [|by apply early].
  destruct (negb _); [by apply early|]. apply wp_time. intros w1 [Hs1 Hp1]. pose proof Hs1 as (Hd1 & Hc1 & Hx).
  assert (Hn1 : nothing_granted w w1) by (split; [by rewrite Hd1|done]).
  destruct (check_state _ _ _ _ _) as [nonce|[s e]] eqn:Ec; [|by apply early].
  apply wp_take. intros r w2 Hq2 Hv. pose proof (calm_trans _ _ _ (calm_same _ _ Hs1 Hp1) Hq2) as Hq'.
  assert (Hn2 : nothing_granted w w2) by (destruct Hq' as (Hd & Hp & _); split; [by rewrite Hd|done]).
  destruct r as [verifier|e]; [|by apply early]. destruct (Hv _ eq_refl) as (t' & Ht' & Hg). rewrite Hc1 in Hg.
  destruct (decide (verifier = "")); [by apply early|]. destruct (decide (cb_code rq = "")); [by apply early|].
  unfold fetch_profile. apply wp_bind, wp_time. intros w3 [Hs3 Hp3]. pose proof Hs3 as (Hd3 & _). cbn [wp].
  assert (Hq : calm w w3) by (eapply calm_trans; [exact Hq'|by apply calm_same]).
  assert (Hn3 : nothing_granted w w3) by (destruct Hq as (Hd & Hp & _); split; [by rewrite Hd|done]).
  destruct (profile_at _ _ _ _ _) as [raw|] eqn:Ef; [|by apply early].
  destruct (decide (TrimSpace _ = "")); [by apply early|].
  eapply wp_mono; [|apply sign_in_ok]. intros rr w4 [Ho Hl]. destruct Hq as (Hd & Hp & He & Hc).
  split; [|destruct Hl as [|[Ht Hpp]]; [by left|right; split; congruence]].
  intros Hop. destruct (Ho Hop) as (u & acct & now & Hm & Hn & Ha & Hk). exists p, (trusted_profile raw), u, acct, now.
  split; [|split_and!; [|lia|done|]].
  - exists provider, (clock w1), nonce, verifier, raw. split_and!; try done; [by apply same_clock in Hs1|by exists t'|].
    exists (clock w3). split; [|done]. apply same_clock in Hs3. destruct Hq2 as (_&_&_&?). lia.
  - revert Hm. unfold may_sign_in_as. by rewrite Hd, Hp.
  - revert Hk. unfold second_factor_kept, no_second_factor. by rewrite Hd, He.
Qed.

(** A refused callback leaves nothing behind: no identity is linked and no
    session stored, unless it was refused for a failure of ours (500) or for
    too many sessions (429). *)
Theorem refused_callback_links_nothing h rq o w s e :
  (run (Callback h rq) o w).1 = Refused s e → s ≠ 500 → s ≠ 429 →
  tokens (db (run (Callback h rq) o w).2) = tokens (db w) ∧ personal (run (Callback h rq) o w).2 = personal w.
Proof.
  intros Hr H5 H4. destruct (wp_run any (Callback h rq) (answered h rq w) w o ltac:(done) (callback_ok h rq w)) as [_ [Hl|Hn]]; [|exact Hn].
  rewrite Hr in Hl. by destruct Hl.
Qed.

(** An address the provider does not vouch for reveals nothing: the answer is
    the same whatever accounts exist, and none is touched. *)
Theorem unverified_address_reveals_nothing h rq providerName ui o w d :
  GetByProviderAndID providerName (uiID ui) (personal w) = None → uiEmail ui ≠ "" → uiEmailVerified ui = false →
  let r := run (sign_in h rq providerName ui) o in
  (r (set_db d w)).1 = (r w).1 ∧ (opens (r w).1 = false) ∧ db (r w).2 = db w ∧ personal (r w).2 = personal w.
Proof.
  intros Hn He Hv r. unfold r, sign_in, resolve_user. destruct (oh_social h); cbn [bind call reads run perform fst snd negb].
  - cbn [set_db personal tick set_clock]. rewrite Hn. destruct (c_db (o 0%nat)); cbn [faulty fst snd run bind];
      rewrite ?(bool_decide_eq_true_2 ("" = "")) by done; cbn [negb]; rewrite ?decide_False by done; rewrite ?Hv; cbn; by split_and!.
  - rewrite decide_False by done. rewrite Hv. cbn. by split_and!.
Qed.
End callback.

(** ** The one-time code *)
Section exchange.
Context `{Primitives}.
#[local] Abbreviation entry k w := (Memory.data (cch w) !! k).
Implicit Types w : World Memory.MemoryCache.
Lemma exchange_of_data a e : valid_utf8 a = true → 0 ≤ e ≤ int64_max → exchange_of (exchange_data a e) = Some (mkExchangeData a "Bearer" e).
Proof.
  intros Ha He. unfold exchange_of, exchange_data, unmarshal_struct. rewrite encode_round_trip.
  - cbn. unfold str_field, int_field. cbn. rewrite ParseInt_FormatInt by done. done.
  - cbn. rewrite Ha, num_ok_FormatInt by lia. done.
Qed.
Lemma spent_code fp code w : entry (exchange_key code fp) w = None →
  wp any (ExchangeCode fp (Some code)) (λ r _, ∃ s e, r = Refused s e ∧ s = 400) w.
Proof.
  intros He. unfold ExchangeCode. case_decide; [cbn; eauto|]. intros c _. cbn [perform bind call]. unfold on_cache. cbn [Cache.GetAndDelete memory_cache].
  unfold Memory.MGetAndDelete. change (cch (tick c w)) with (cch w). rewrite He. destruct (c_cache c); cbn; eauto.
Qed.
(** The code in the redirect is worth the access token once: to the browser
    that got it, within its minute, and never again. *)
Theorem exchange_code_works_once fp code a e t o w :
  code ≠ "" → valid_utf8 a = true → 0 ≤ e ≤ int64_max → (∀ n, healthy (o n)) →
  entry (exchange_key code fp) w = Some (Memory.mkMemEntry (exchange_data a e) (Some t)) →
  let r := run (ExchangeCode fp (Some code)) o w in
  clock r.2 ≤ t →
  r.1 = Replied (mkExchangeData a "Bearer" e) ∧
  ∀ o' w2, entry (exchange_key code fp) w2 = entry (exchange_key code fp) r.2 →
    ∃ why, (run (ExchangeCode fp (Some code)) o' w2).1 = Refused 400 why.
Proof.
  intros Hc Ha He Ho Hent r Ht.
  assert (Hr : r.1 = Replied (mkExchangeData a "Bearer" e) ∧ entry (exchange_key code fp) r.2 = None).
  { revert Ht. unfold r, ExchangeCode. rewrite decide_False by done. cbn [bind call run perform]. unfold on_cache. destruct (Ho 0%nat) as (-> & _).
    cbn [Cache.GetAndDelete memory_cache faulty]. unfold Memory.MGetAndDelete. change (cch (tick (o 0%nat) w)) with (cch w). rewrite Hent. unfold Memory.expired. cbn [Memory.expiresAt Memory.value].
    destruct (Z.ltb_spec t (clock (tick (o 0%nat) w))); [cbn in *; intros; lia|]. intros _. cbn [fst snd].
    rewrite decide_False by (by vm_compute). cbn [run fst snd]. rewrite exchange_of_data by done. split; [done|apply lookup_delete_eq]. }
  destruct Hr as [Hr Hgone]. split; [done|]. intros o' w2 E. rewrite Hgone in E.
  destruct (wp_run any _ _ w2 o' ltac:(done) (spent_code fp code w2 E)) as (s & why & Hx & ->). by exists why.
Qed.
End exchange.

(** ** A concrete flow *)
Module OAuthDemo.
Lemma hex_uncut s : Cut 46 (hex_encode s) = None ∧ contains 46 (hex_encode s) = false.
Proof.
  induction s as [|c s [IH1 IH2]]; [done|]. pose proof (code_range c).
  assert (H1 : 48 ≤ code (hex_digit (code c / 16))) by (apply hex_digit_code; Z.to_euclidean_division_equations; lia).
  assert (H2 : 48 ≤ code (hex_digit (code c mod 16))) by (apply hex_digit_code; Z.to_euclidean_division_equations; lia).
  cbn [hex_encode]. rewrite !contains_cons, IH2. cbn [Cut]. rewrite IH1.
  by destruct (Z.eqb_spec (code (hex_digit (code c / 16))) 46), (Z.eqb_spec (code (hex_digit (code c mod 16))) 46); try lia.
Qed.
#[export] Instance prims : Primitives := {|
  sha256_hex s := hex_encode s;
  sha256_b64url s := "~" +:+ s;
  hmac_hex m k := hex_encode (m +:+ k);
  argon2_verify pw hash p := Ok (bool_decide ("$" +:+ pw = hash));
  argon2_hash salt pw p := "$" +:+ pw;
  SignToken c k := Ok (k +:+ ":" +:+ Subject c +:+ ":" +:+ JTI c)
|}.
#[export] Instance mail : MailParser := {| ParseAddress s := if contains 64 s then Some s else None |}.
#[export] Instance parser : URLParser := {|
  url_Parse s := if bool_decide (take_str 13 s = "https://idp/?") then Some (mkURL "https" "idp" "idp" "idp:443") else None;
  set_query u q := u
|}.
(** A provider that hands out one profile for the code "c1". *)
Definition idp (verified : bool) : IdP := mkIdP (λ state _ _, "https://idp/?" +:+ state)
  (λ code _, if decide (code = "c1") then Some (mkTokenResponse "at" "" "" "Bearer" 60) else None)
  (λ at_, Some (mkUserInfo "sub-1" "Alice@example.org" verified "Alice" "" "idp" None)) None.
Definition handler : OAuthHandler :=
  mkOAuthHandler {["idp" := idp true; "loose" := idp false]} "hmac" "https://app" true true true LoginDemo.svc true LoginDemo.ts true.
Definition entropy (n : nat) : Effects.choice :=
  mkChoice 1000 NoFault NoFault (FormatInt (100 + Z.of_nat n) +:+ "-0123456789-0123456789-0123456789") false false false false.
Definition W : Type := World Memory.MemoryCache.
Definition started (p : string) : answer oauth_reply * W := run (Authorize handler "10.0.0.1" p) entropy Toy.world.
Definition request (p : string) : CallbackRequest :=
  match (started p).1 with
  | Replied (ToProvider url cookie) => mkCallback p "" "" (drop_str 13 url) "c1" (Some cookie) "10.0.0.1" "fp" "thumb"
  | _ => mkCallback "" "" "" "" "" None "" "" ""
  end.
Definition returned (p : string) : answer oauth_reply * W := run (Callback handler (request p)) entropy (started p).2.
(** The same state a second time. *)
Definition replayed (p : string) : answer oauth_reply * W := run (Callback handler (request p)) entropy (returned p).2.

Definition is_code (r : answer oauth_reply) : bool := match r with Replied (CodeRedirect _ _ _) => true | _ => false end.
Example flow_completes :
  is_code (returned "idp").1 = true ∧ length (tokens (db (returned "idp").2)) = 1%nat ∧
  (SAUserID <$> social_accounts (personal (returned "idp").2)) = ["alice"] ∧
  (replayed "idp").1 = Refused 400 "invalid_or_reused_state".
Proof. by vm_compute. Qed.
Example unverified_needs_verification : (returned "loose").1 = Replied VerificationRequired.
Proof. by vm_compute. Qed.

Lemma refused_callback_links_nothing_witness :
  (replayed "idp").1 = Refused 400 "invalid_or_reused_state" ∧
  tokens (db (replayed "idp").2) = tokens (db (returned "idp").2) ∧ personal (replayed "idp").2 = personal (returned "idp").2.
Proof.
  assert (E : (run (Callback handler (request "idp")) entropy (returned "idp").2).1 = Refused 400 "invalid_or_reused_state") by (vm_compute; reflexivity).
  split; [exact E|]. unfold replayed. apply (refused_callback_links_nothing handler (request "idp") entropy (returned "idp").2 400 "invalid_or_reused_state"); [exact E|lia..].
Defined.
Lemma oauth_state_opens_its_flow_witness :
  check_state handler "idp" (Some "tok") (1500 * second) (signed_state handler "idp" "n1" (1000 * second) "tok") = Ok "n1".
Proof.
  apply (oauth_state_opens_its_flow handler "idp" "idp" "n1" "tok" "tok" (1000 * second) (1500 * second));
    [split; intros; apply hex_uncut|done|done|done|vm_compute; done|vm_compute; done|]. by vm_compute.
Defined.
Lemma unverified_address_reveals_nothing_witness : ∀ d, let ui := mkUserInfo "sub-1" "alice@example.org" false "" "" "loose" None in
  let r := run (sign_in handler (request "loose") "loose" ui) entropy in
  (r (set_db d Toy.world)).1 = (r Toy.world).1 ∧ opens (r Toy.world).1 = false ∧ db (r Toy.world).2 = db Toy.world ∧ personal (r Toy.world).2 = personal Toy.world.
Proof. intros d ui. apply (unverified_address_reveals_nothing handler (request "loose") "loose" ui entropy Toy.world d); by vm_compute. Defined.
Lemma exchange_code_works_once_witness :
  let w := set_cch (Memory.mkMemoryCache {[exchange_key "code" "fp" := Memory.mkMemEntry (exchange_data "at" 900) (Some (2000 * second))]} 10 false false) Toy.world in
  (run (ExchangeCode "fp" (Some "code")) entropy w).1 = Replied (mkExchangeData "at" "Bearer" 900).
Proof.
  apply (exchange_code_works_once "fp" "code" "at" 900 (2000 * second) entropy); [done|done|vm_compute; by split|by intros n|by vm_compute|by vm_compute].
Defined.
End OAuthDemo.
