(* ===== verification/RegisterFacts.v ===== *)
(** * RegisterFacts: registration adds one account and says nothing

    Whatever fails, a registration adds at most one unverified account, for an
    address nobody had, and changes no other; and what the public forms answer
    depends on the request alone. *)
From S2P Require Import Prelude GoStd Bytes Json JsonEnc Runes Cache Crypto NetIP Aes Model TokenStore TokenStoreFacts UserStore PersonalStore Effects Random TokenService Lockout Session Login SecondFactor Erasure Sanitize StoreWp Register Password SessionFacts LoginFacts.
From stdpp Require Import list.
From Stdlib Require Import Ascii.
Open Scope string_scope.
Open Scope Z_scope.
Open Scope prog_scope.

Section facts.
Context {C : Type} `{CacheOps C} `{Primitives} `{SHA1} `{MailParser}.
#[local] Notation "'W'" := (World C).
Implicit Types w : W.

(** The one row a registration may add. *)
Definition registered_row (s : Registrar) (input : RegisterInput) (d : DB) (u : User) : Prop :=
  users d !! UID u = None ∧ GetByEmail (Email u) d = None ∧ Email u = ToLower (TrimSpace (RIEmail input)) ∧ Email_ (Email u) = true ∧
  EmailVerified u = false ∧ Roles u = [] ∧ Disabled u = false ∧ Banned u = false ∧ Deleted u = false ∧
  (∃ salt, PasswordHash u = argon2_hash salt (RIPassword input) (pepper (base s))) ∧
  minPwLength s ≤ Z.of_nat (RuneCount (RIPassword input)) ∧ breached (hibp s) (RIPassword input) = false ∧
  DisplayName (Profile u) = String_ (RIDisplayName input) 255.
Definition adds_at_most_one s input (d d' : DB) : Prop :=
  tokens d' = tokens d ∧ (users d' = users d ∨ ∃ u, registered_row s input d u ∧ users d' = <[UID u := u]> (users d)).

Lemma Register_ok s input ip w :
  wp any (Register s input ip) (λ _ w', adds_at_most_one s input (db w) (db w')) w.
Proof.
  unfold Register. set (email := ToLower (TrimSpace (RIEmail input))).
  assert (Hid : ∀ w', db w' = db w → adds_at_most_one s input (db w) (db w')) by (intros w' ->; split; [done|by left]).
  destruct (Email_ email) eqn:Ee; cbn [negb]; [|by apply Hid]. destruct (Z.ltb_spec (Z.of_nat (RuneCount (RIPassword input))) (minPwLength s)); [by apply Hid|].
  destruct (breached _ _) eqn:Eb; [by apply Hid|].
  apply wp_bind, (wp_read _ _ (GetByEmail email)); [done|]. intros w1 r [E1 _] Hr. destruct Hr as [->| ->]; [|by apply Hid].
  destruct (GetByEmail email (db w)) as [ex|] eqn:Ex; [apply wp_bind, wp_framed; [by split|]; intros v w2 [E2 _]; apply Hid; congruence|].
  apply wp_bind. intros c _. cbn [wp call perform]. destruct (c_busy c); [by apply Hid|]. cbn [fst snd]. set (hash := argon2_hash _ _ _).
  apply wp_bind, wp_framed; [unfold RandomUUID, RandomBytes; walk|]. intros [id|e] w3 [E3 _]; [|apply Hid; by rewrite E3].
  apply wp_bind, wp_now. intros w4 [E4 _]. set (user := new_account _ _ _ _ _ _).
  assert (E14 : db w4 = db w) by (rewrite E4, E3; exact E1).
  assert (Hcreate : adds_at_most_one s input (db w) (with_users (users (CreateUser user (db w)).2) (db w)) ).
  { split; [done|]. unfold CreateUser, email_taken. case_decide as Hs; [by left|]. change (Email user) with email. rewrite Ex. right. cbn.
    exists user. split; [|done]. unfold registered_row. cbn. split_and!; try done; [by apply eq_None_not_Some|by exists (c_rand c)]. }
  assert (Hfr : ∀ x, framed (histID <- RandomUUID ;;
      (match histID with Err _ => Ret tt | Ok histID => call (SPersonal (λ _ _, HistoryCreate (mkPasswordHistory histID id hash (clock w4)))) ;;; Ret tt end) ;;;
      log_event "registration" id "" ip (maskEmail email) ;;;
      SendSignupVerification s email id (RedirectPath (RIRedirectTo input)) ;;; Ret (Ok x : res registerErr string))).
  { intros x. unfold SendSignupVerification, RandomUUID, RandomBytes. walk. }
  apply wp_bind. intros c' _. cbn [wp call perform]. unfold on_db. change (db (tick c' w4)) with (db w4). rewrite E14.
  destruct (CreateUser user (db w)) as [r d'] eqn:Ec. cbn [fst snd] in Hcreate.
  destruct (c_db c'); cbn [faulty fst snd]; [|by apply Hid|done].
  destruct r as [[]|[]]; [|done..]. apply wp_framed; [apply Hfr|]. intros a w' [-> _]. done.
Qed.

(** A registration adds at most one account, and only for a well-formed
    address no account has: unverified, without roles, with a hash of the
    password, a password long enough and not known to be breached, and a display
    name made inert.  Every other account and every session is as it was,
    whatever fails in between. *)
Theorem registration_adds_one_unverified_account s input ip o w :
  let '(_, w') := run (HRegister s ip (Some input)) o w in adds_at_most_one s input (db w) (db w').
Proof.
  assert (Hwp : wp any (HRegister s ip (Some input)) (λ _ w', adds_at_most_one s input (db w) (db w')) w).
  { unfold HRegister. apply wp_bind. eapply wp_mono; [|apply Register_ok]. done. }
  pose proof (wp_run any _ _ w o (λ _, I) Hwp) as Hr. by destruct (run _ _ _) as [a w'].
Qed.

(** ** What the answers reveal *)
(** The stores answer, the hasher is free, and entropy comes in full. *)
Definition supplied (c : choice) : Prop := healthy c ∧ (16 ≤ String.length (c_rand c))%nat.
Definition register_answer (s : Registrar) (body : option RegisterInput) : answer registered :=
  match body with
  | None => Refused 400 "invalid_request"
  | Some input =>
      if negb (Email_ (ToLower (TrimSpace (RIEmail input)))) then Refused 400 "invalid_input"
      else if Z.of_nat (RuneCount (RIPassword input)) <? minPwLength s then Refused 400 "password_too_short"
      else if breached (hibp s) (RIPassword input) then Refused 400 "password_breached"
      else Replied VerificationEmailSent
  end.
Definition reset_answer (body : option string) : answer string :=
  match body with
  | None | Some "" => Refused 400 "invalid_request"
  | Some _ => Replied "If that email exists, a reset link has been sent."
  end.

Lemma uuid_supplied w : wp supplied RandomUUID (λ r _, is_ok r = true) w.
Proof.
  intros c [(_ & _ & Hd & _) Hl]. cbn [perform]. rewrite Hd. cbn -[Nat.ltb]. by rewrite (proj2 (Nat.ltb_ge _ _)).
Qed.
Lemma HRegister_answer s ip body w : wp supplied (HRegister s ip body) (λ a _, a = register_answer s body) w.
Proof.
  destruct body as [input|]; [|done]. unfold HRegister, register_answer. apply wp_bind. unfold Register.
  destruct (negb _); [done|]. destruct (_ <? _); [done|]. destruct (breached _ _); [done|].
  intros c [(_ & Hdb & _) _]. cbn [perform]. unfold on_db. rewrite Hdb. cbn [faulty fst snd bind].
  destruct (GetByEmail _ _) as [ex|].
  - intros c1 [(_ & _ & _ & Hb) _]. cbn [perform]. rewrite Hb. cbn. by destruct (argon2_verify _ _ _).
  - intros c1 [(_ & _ & _ & Hb) _]. cbn [perform]. rewrite Hb. cbn [fst snd bind].
    apply wp_bind. eapply wp_mono; [|apply uuid_supplied]. intros [id|e] w2 Hid; [|done]. intros c2 _. cbn [fst snd bind].
    intros c3 [(_ & Hdb3 & _) _]. cbn [perform]. unfold on_db. rewrite Hdb3.
    destruct (CreateUser _ _) as [r d'] eqn:Ec. assert (Hr : r = Ok tt ∨ r = Err ErrUnique).
    { unfold CreateUser in Ec. case_decide; [|destruct (email_taken _ _)]; injection Ec as <- _; auto. }
    cbn [faulty fst snd]. destruct Hr as [->| ->]; [|done]. cbn [bind].
    apply wp_bind, wp_always. intros h w3. apply wp_bind, wp_always. intros _ w4. apply wp_bind, wp_always. intros _ w5.
    by apply wp_bind, wp_always.
Qed.
Lemma ResetRequest_answer h ip body w : wp any (ResetRequest h ip body) (λ a _, a = reset_answer body) w.
Proof.
  destruct body as [[|c r]|]; [done| |done]. unfold ResetRequest, reset_answer. apply wp_bind, wp_always. intros _ w1.
  apply wp_bind, wp_always. intros t w2. apply wp_bind, wp_always. intros u w3.
  destruct u as [[user|]|]; [|by destruct t..]. destruct t as [t|]; [|done]. destruct (refusedByAccountState _); [done|].
  repeat (apply wp_bind, wp_always; intros). done.
Qed.

(** C25. The public forms are no oracle: what registration answers is a function
    of the request while the service works, and what a reset request answers is
    one even when it does not, so neither says whether an account exists. *)
Theorem public_forms_reveal_nothing s h ip input email w1 w2 o1 o2 :
  ((∀ n, supplied (o1 n)) → (∀ n, supplied (o2 n)) →
   (run (HRegister s ip input) o1 w1).1 = (run (HRegister s ip input) o2 w2).1) ∧
  (run (ResetRequest h ip email) o1 w1).1 = (run (ResetRequest h ip email) o2 w2).1.
Proof.
  split.
  - intros H1' H2'. rewrite (wp_run supplied _ _ w1 o1 H1' (HRegister_answer s ip input w1)).
    by rewrite (wp_run supplied _ _ w2 o2 H2' (HRegister_answer s ip input w2)).
  - rewrite (wp_run any _ _ w1 o1 (λ _, I) (ResetRequest_answer h ip email w1)).
    by rewrite (wp_run any _ _ w2 o2 (λ _, I) (ResetRequest_answer h ip email w2)).
Qed.
End facts.

Module RegisterDemo.
#[local] Existing Instance Toy.prims.
#[local] Instance sha1 : SHA1 := {| sha1_hex s := s |}.
#[local] Instance mail : MailParser := {| ParseAddress s := if has_byte 64 s then Some s else None |}.
Definition tokens_svc : TokenService := mkTokenService "kid" "iss" "aud" hour hour hour 0 0.
Definition auth : AuthService := mkAuthService tokens_svc true false false true false false false 0 false [] 0 false "pepper" "secret" "$dummy".
Definition registrar : Registrar :=
  mkRegistrar auth 8 (Some (λ p, if decide (p = "hunte") then Some (200, "r2x:17") else None)) "https://vault" true.
Definition oracle (n : nat) : choice := mkChoice 1000 NoFault NoFault "0123456789abcdef" false false false false.

(** A new address and a taken one get the same answer; one gets an account. *)
Example register_twice :
  let r1 := run (HRegister registrar "ip" (Some (mkRegisterInput " Bob@Example.org" "long enough" "<b>Bob</b>" "de" "/app"))) oracle Toy.world in
  let r2 := run (HRegister registrar "ip" (Some (mkRegisterInput "ALICE@example.org" "long enough" "" "" ""))) oracle Toy.world in
  r1.1 = Replied VerificationEmailSent ∧ r2.1 = r1.1 ∧
  (Email ∘ snd <$> map_to_list (users (db r1.2))) ≡ₚ ["alice@example.org"; "bob@example.org"] ∧
  (Email ∘ snd <$> map_to_list (users (db r2.2))) = ["alice@example.org"].
Proof. cbv zeta. split_and!; [by vm_compute..| |by vm_compute]. by vm_compute; constructor. Qed.
Example breached_is_refused :
  (run (HRegister registrar "ip" (Some (mkRegisterInput "bob@example.org" "hunter2x" "" "" ""))) oracle Toy.world).1
  = Refused 400 "password_breached".
Proof. by vm_compute. Qed.
End RegisterDemo.
