(* ===== verification/MfaFacts.v ===== *)
(** * MfaFacts: the second step of a login

    Completing a challenge re-reads the account and stores one session; a
    challenge completes at most once while it is valid; an email code is six
    digits, reaches only the mailbox, is accepted once within its five minutes,
    and is never accepted for an account that holds a stronger factor. *)
From S2P Require Import Prelude GoStd Bytes Cache CacheFacts Crypto Model TokenStore TokenStoreFacts UserStore FactorStore Effects TokenService Lockout Session Login SessionFacts LoginFacts.
From stdpp Require Import list.
From Stdlib Require Import Ascii.
Open Scope string_scope.
Open Scope Z_scope.
Open Scope prog_scope.

(** ** The code itself *)
Lemma otp_code_spec b : six_digits (otp_code b) ∧ digits_value (otp_code b) 0 = be32 b mod 1000000.
Proof. apply Sprintf06d_spec, Z.mod_pos_bound. lia. Qed.

(** ** Keys other programs leave alone *)
Definition spares (k : string) (B : Type) (s : stmt B) : bool :=
  match s with
  | SSet k' _ _ | SDelete k' | SGetAndDelete k' | SSetIfNotExists k' _ _ | SIncrement k' _ =>
      negb (bool_decide (k' = k))
  | _ => true
  end.

Section memory.
Context `{Primitives}.
#[local] Abbreviation W := (World Memory.MemoryCache).
#[local] Abbreviation entry k w := (Memory.data (cch w) !! k).
Implicit Types w : W.

Lemma perform_spares k c {B} (s : stmt B) w :
  spares k B s = true → entry k (perform c s w).2 = entry k w.
Proof.
  intros Hs.
  destruct s;
    cbn in Hs; bool_hyps; cbn [perform];
    try (unfold on_db, on_factors, rate_increment; repeat case_match; simplify_eq/=; try done;
         destruct (c_db c); cbn in *; simplify_eq/=; done).
  all: unfold on_cache; cbn [Cache.Get Cache.Set_ Cache.Delete Cache.GetAndDelete Cache.SetIfNotExists Cache.Increment memory_cache].
  all: unfold Memory.MGet, Memory.MSet, Memory.MDelete, Memory.MGetAndDelete, Memory.MSetIfNotExists, Memory.MIncrement.
  all: repeat case_match; simplify_eq/=; try done; destruct (c_cache c); cbn in *; simplify_eq/=; try done;
    repeat match goal with H : Memory.may_admit _ _ = (_, _) |- _ => apply admit_data in H; cbn in H end;
    try (rewrite lookup_insert_ne by done); try (rewrite lookup_delete_ne by done); congruence.
Qed.

Lemma wp_spares k P {A} (p : prog A) (Q : A → W → Prop) w :
  over (spares k) p → (∀ a w', entry k w' = entry k w → Q a w') → wp P p Q w.
Proof.
  apply (wp_over (spares k) (λ w w', entry k w' = entry k w)); [done|congruence|].
  intros; by apply perform_spares.
Qed.

(** ** Completing a challenge *)
Definition challenge_key (jti : string) : string := "challenge_used:" +:+ jti.

(** The second half of [CompleteMFALogin], after the challenge is consumed. *)
Lemma clear_spares s u ip jti : over (spares (challenge_key jti)) (clearLockout s u ip).
Proof.
  unfold clearLockout, lockoutGeneration, cachedCount, sourceLockoutKey, challenge_key. walk;
    apply negb_true_iff, bool_decide_eq_false; by case_match.
Qed.
Lemma session_spares k s c u roles cl dev f rem ms uv :
  over (spares k) (start_session s c u roles cl dev f rem ms uv).
Proof. unfold start_session, IssueTokenPairWithAuth, storeRefreshToken. walk. Qed.
Lemma roles_spares k s rs : over (spares k) (effectiveRoles s rs).
Proof.
  unfold effectiveRoles, catalog_Filter, catalog_current, catalog_cached. walk.
Qed.
Lemma done_spares k s u cl e ip reason pr : over (spares k) (login_done s u cl e ip reason pr).
Proof. unfold login_done. walk. Qed.
Lemma device_spares k u f ip : over (spares k) (findOrCreateDevice u f ip).
Proof. unfold findOrCreateDevice. walk. Qed.
Lemma limit_spares k s u : over (spares k) (checkSessionLimit s u).
Proof. unfold checkSessionLimit. walk. Qed.
End memory.

Section completion.
Context {C : Type} `{CacheOps C} `{Primitives}.
Implicit Types w : World C.

Lemma consume_framed s jti : framed (consume_challenge s jti).
Proof. unfold consume_challenge. walk. Qed.

Lemma completion_ok s c u f ip jti m w :
  wp any (CompleteMFALogin s c u f ip jti m)
    (λ r w', ∀ x, r = Ok x → ∃ user now, users (db w) !! u = Some user ∧ clock w ≤ now ∧
       mfa_refusal now user = None ∧ LRequires2FA x = false ∧
       one_session u (ctx_jkt c) (LRefreshToken x) (tokens (db w)) (tokens (db w'))) w.
Proof.
  unfold CompleteMFALogin. apply wp_bind, wp_framed; [apply consume_framed|]. intros [[]|e] w1 [H1 C1]; [|by cbn].
  apply wp_bind, wp_framed; [apply clear_framed|]. intros _ w2 [H2 C2].
  apply wp_bind, wp_framed; [apply limit_framed|]. intros [[]|e] w3 [H3 C3]; [|by cbn].
  apply wp_bind, wp_framed; [apply device_framed|]. intros dev w4 [H4 C4].
  apply wp_bind, (wp_read _ _ (GetByID u)); [done|]. intros w5 r [H5 C5] Hr.
  destruct Hr as [->| ->]; [|by cbn]. unfold GetByID.
  assert (E4 : db w4 = db w) by congruence. rewrite E4.
  destruct (users (db w) !! u) as [user|]; [|by cbn].
  apply wp_bind, wp_now. intros w6 [H6 C6]. destruct (mfa_refusal (clock w6) user) eqn:Er; [by cbn|].
  apply wp_bind, wp_framed; [apply framed_roles|]. intros roles w7 [H7 _].
  apply wp_bind. eapply wp_mono; [|apply start_session_ok]. intros [pr|e] w8 Hs; [|by cbn].
  eapply wp_mono; [|apply done_ok]. intros r w9 Hr x ->. destruct (Hr x eq_refl) as (H2fa & Hrt & Ht9).
  exists user, (clock w6). split_and!; [done|lia|done|done|].
  rewrite Hrt, Ht9. replace (tokens (db w)) with (tokens (db w7)) by congruence. by apply Hs.
Qed.

(** A second factor never opens a session the platform has cut off: a
    completed challenge re-read its account, which is present and at that
    moment neither deleted, banned, disabled, locked, unclaimed nor under a
    forced reset; one session was stored for it, bound to the request's key. *)
Theorem completion_rereads_the_account s c u f ip jti m w o x :
  (run (CompleteMFALogin s c u f ip jti m) o w).1 = Ok x →
  ∃ user now, users (db w) !! u = Some user ∧ clock w ≤ now ∧ mfa_refusal now user = None ∧
    LRequires2FA x = false ∧
    one_session u (ctx_jkt c) (LRefreshToken x) (tokens (db w))
      (tokens (db (run (CompleteMFALogin s c u f ip jti m) o w).2)).
Proof. intros Hx. by apply (wp_run any _ _ w o (λ _, I) (completion_ok s c u f ip jti m w)). Qed.
End completion.

Section single_use.
Context `{Primitives}.
#[local] Abbreviation W := (World Memory.MemoryCache).
#[local] Abbreviation entry k w := (Memory.data (cch w) !! k).
Implicit Types w : W.

(** [k] is marked until at least [t]. *)
Definition marked_until (k : string) (t : Z) w : Prop :=
  ∃ e t', entry k w = Some e ∧ Memory.expiresAt e = Some t' ∧ t ≤ t'.

Lemma consume_marks s jti w :
  has_cache s = true → jti ≠ "" →
  wp any (consume_challenge s jti)
    (λ r w', r = Ok tt → marked_until (challenge_key jti) (clock w + 5 * minute) w') w.
Proof.
  intros Hc Hj. unfold consume_challenge. rewrite Hc, (bool_decide_false _ Hj). cbn [negb andb].
  apply wp_bind. intros ch _. cbn [call wp perform]. unfold on_cache. cbn [Cache.SetIfNotExists memory_cache].
  unfold Memory.MSetIfNotExists. fold (challenge_key jti).
  set (w1 := tick ch w). assert (Hc1 : clock w ≤ clock w1) by (cbn; lia).
  destruct (match entry (challenge_key jti) w1 with Some e => _ | None => _ end).
  { by destruct (c_cache ch). }
  destruct (Memory.may_admit _ _) as [[] m'] eqn:Ea; [|by destruct (c_cache ch)].
  destruct (c_cache ch); cbn; [|done|done]. intros _. eexists _, _. split_and!; [apply lookup_insert_eq|done|].
  unfold clock in Hc1. cbn in *. lia.
Qed.

Lemma consume_refuses s jti t w :
  has_cache s = true → jti ≠ "" → marked_until (challenge_key jti) t w →
  wp any (consume_challenge s jti) (λ r w', clock w' < t → is_ok r = false) w.
Proof.
  intros Hc Hj (e & t' & He & Ht & Hle). unfold consume_challenge.
  rewrite Hc, (bool_decide_false _ Hj). cbn [negb andb].
  apply wp_bind. intros ch _. cbn [call wp perform]. unfold on_cache. cbn [Cache.SetIfNotExists memory_cache].
  unfold Memory.MSetIfNotExists. fold (challenge_key jti). set (w1 := tick ch w).
  change (cch w1) with (cch w). rewrite He. unfold Memory.fresh. rewrite Ht.
  destruct (Z.ltb_spec (clock w1) t') as [Hlt|Hge]; cbn [fst snd].
  - by destruct (c_cache ch).
  - subst w1. destruct (Memory.may_admit _ _) as [[] m']; destruct (c_cache ch); cbn in *; intros; try done; lia.
Qed.

Lemma completion_marks s c u f ip jti m w :
  has_cache s = true → jti ≠ "" →
  wp any (CompleteMFALogin s c u f ip jti m)
    (λ r w', is_ok r = true → marked_until (challenge_key jti) (clock w + 5 * minute) w') w.
Proof.
  intros Hc Hj. unfold CompleteMFALogin. apply wp_bind.
  eapply wp_mono; [|by apply consume_marks]. intros [[]|e] w1 Hm; [|by cbn]. specialize (Hm eq_refl).
  apply (wp_spares (challenge_key jti)).
  { apply over_bind; [apply clear_spares|intros _]. apply over_bind; [apply limit_spares|intros [[]|]; [|done]].
    apply over_bind; [apply device_spares|intros dev]. apply over_bind; [by split|intros [[user|]|]; try done].
    apply over_bind; [by split|intros now]. case_match; [done|].
    apply over_bind; [apply roles_spares|intros roles]. apply over_bind; [apply session_spares|intros [pr|]; [|done]].
    apply done_spares. }
  intros r w' Hk _. unfold marked_until in *. by rewrite Hk.
Qed.

(** A challenge completes at most one login: after a completion succeeded,
    the same challenge presented again within its five minutes, by anyone, with
    any factor and under any fault, is refused and writes nothing, whatever
    other keys of the cache changed in between. *)
Theorem challenge_completes_once s c u f ip jti m w o s' c' u' f' ip' m' w2 o' :
  has_cache s = true → has_cache s' = true → jti ≠ "" →
  is_ok (run (CompleteMFALogin s c u f ip jti m) o w).1 = true →
  let w1 := (run (CompleteMFALogin s c u f ip jti m) o w).2 in
  entry (challenge_key jti) w2 = entry (challenge_key jti) w1 →
  let again := run (CompleteMFALogin s' c' u' f' ip' jti m') o' w2 in
  clock again.2 < clock w + 5 * minute →
  is_ok again.1 = false ∧ db again.2 = db w2.
Proof.
  intros Hc Hc' Hj Hok w1 Hk again Hlt.
  pose proof (wp_run any _ _ w o (λ _, I) (completion_marks s c u f ip jti m w Hc Hj) Hok) as Hm.
  fold w1 in Hm. unfold marked_until in Hm. rewrite <- Hk in Hm.
  refine (wp_run any _ (λ r w', clock w' < clock w + 5 * minute → is_ok r = false ∧ db w' = db w2) w2 o'
    (λ _, I) _ Hlt).
  unfold CompleteMFALogin. apply wp_bind.
  pose proof (consume_refuses s' jti _ w2 Hc' Hj Hm) as H1.
  pose proof (wp_framed any _ (λ _ w', db_kept w2 w') w2 (consume_framed s' jti) ltac:(auto)) as H2.
  eapply wp_mono; [|exact (wp_and _ _ _ _ _ H1 H2)]. cbn beta. intros [[]|e] w3 [Hr [Hd _]].
  - eapply wp_mono; [|apply (wp_clock any _ w3)]. cbn beta. intros r w4 Hc4 Hlt4. specialize (Hr ltac:(lia)). done.
  - by cbn.
Qed.
End single_use.

(** ** Email codes *)
Section email_codes.
Context `{Primitives}.
#[local] Abbreviation W := (World Memory.MemoryCache).
#[local] Abbreviation entry k w := (Memory.data (cch w) !! k).
Implicit Types w : W.

Definition otp_key (u : string) : string := "email_otp:" +:+ u.

(** Email codes are the fallback of an account with nothing stronger. *)
Definition fallback_only (s : AuthService) (u : string) w : Prop :=
  has_mfaSvc s = true ∧ mfaRequired s = true ∧ no_second_factor u w.

(** The reads of the gate move the clock and nothing else. *)
Definition only_later w w' : Prop :=
  cch w' = cch w ∧ trail w' = trail w ∧ enrolled w' = enrolled w ∧ db w' = db w ∧ clock w ≤ clock w'.

Lemma allowed_ok P s u w :
  wp P (emailOTPAllowed s u)
    (λ b w', only_later w w' ∧ (b = true → fallback_only s u w)) w.
Proof.
  unfold emailOTPAllowed, GetStatus, only_later, fallback_only, no_second_factor.
  destruct (has_mfaSvc s); cbn [negb]; [|cbn; split_and!; done || lia].
  cbn. intros c1 _ c2 _ c3 _. unfold on_factors.
  destruct (c_db c1), (c_db c2), (c_db c3); cbn; (split; [split_and!; done || lia|]); try done.
  destruct (TOTPGetByUserID u (enrolled w)) as [t|], (default 0%nat _), (ListUnusedByUser u (enrolled w));
    cbn; repeat case_match; cbn; try done; intros ?; split_and!; try done; intros ? ?; by simplify_eq.
Qed.

Lemma allowed_live s u w :
  fallback_only s u w → wp healthy (emailOTPAllowed s u) (λ b w', b = true ∧ only_later w w') w.
Proof.
  intros (Hm & Hr & Hn). unfold emailOTPAllowed, GetStatus, only_later. unfold no_second_factor in Hn.
  rewrite Hm. cbn. intros c1 (_ & E1 & _) c2 (_ & E2 & _) c3 (_ & E3 & _). unfold on_factors.
  rewrite E1, E2, E3. cbn. destruct Hn as (Ht & -> & ->).
  destruct (TOTPGetByUserID u (enrolled w)) as [t|]; [rewrite (Ht t eq_refl)|]; cbn; split_and!; done || lia.
Qed.

(** What the cache must have held for a code to be accepted. *)
Definition holds_code (s : AuthService) (u code : string) w : Prop :=
  ∃ e, entry (otp_key u) w = Some e ∧ Memory.value e = HMACSign code (hmacSecret s) ∧
    Memory.expired (clock w) e = false.

Lemma verify_ok s u code w :
  wp any (VerifyEmailOTP s u code)
    (λ r w', r = Ok tt → fallback_only s u w ∧ holds_code s u code w ∧ entry (otp_key u) w' = None) w.
Proof.
  unfold VerifyEmailOTP. apply wp_bind. eapply wp_mono; [|apply allowed_ok].
  intros [] w1 [(Hc & _ & _ & _ & Hclk) Hg]; [|by cbn]. specialize (Hg eq_refl). cbn [negb].
  destruct (has_cache s); [|by cbn]. cbn [negb]. apply wp_bind. intros ch _. cbn [call wp perform].
  unfold on_cache. cbn [Cache.GetAndDelete memory_cache]. unfold Memory.MGetAndDelete. fold (otp_key u).
  change (cch (tick ch w1)) with (cch w1). rewrite Hc.
  destruct (entry (otp_key u) w) as [e|] eqn:Ee; [|by destruct (c_cache ch)].
  destruct (Memory.expired _ e) eqn:Ex; [by destruct (c_cache ch)|].
  destruct (c_cache ch); cbn [faulty fst snd wp]; try done.
  unfold HMACVerify. rewrite SecureCompare_eq. destruct (_ && _) eqn:Eb; [|done]. intros _. bool_hyps.
  split; [done|]. split; [|apply lookup_delete_eq]. exists e. split_and!; [done|done|].
  destruct (Memory.expired (clock w) e) eqn:Ew; [|done].
  rewrite (expired_mono (clock w) (clock (tick ch w1)) e) in Ex; [done|cbn; lia|done].
Qed.

(** An email code is the last resort and works once: when it is accepted,
    under any fault, second factors are required, the account holds no
    authenticator, passkey or backup code, the cache held an unexpired
    signature of exactly this code, and that signature is gone; until another
    code is sent, every further attempt, with the same code or another, is
    refused. *)
Theorem email_code_accepted_once s u code w o :
  (run (VerifyEmailOTP s u code) o w).1 = Ok tt →
  fallback_only s u w ∧ holds_code s u code w ∧
  ∀ s' code' w2 o', entry (otp_key u) w2 = entry (otp_key u) (run (VerifyEmailOTP s u code) o w).2 →
    is_ok (run (VerifyEmailOTP s' u code') o' w2).1 = false.
Proof.
  intros Hok. destruct (wp_run any _ _ w o (λ _, I) (verify_ok s u code w) Hok) as (Hg & Hh & Hn).
  split_and!; [done|done|]. intros s' code' w2 o' Hk.
  pose proof (wp_run any _ _ w2 o' (λ _, I) (verify_ok s' u code' w2)) as Hv.
  destruct (run (VerifyEmailOTP s' u code') o' w2).1 as [[]|e]; [|done].
  destruct (Hv eq_refl) as (_ & (e & He & _) & _). congruence.
Qed.

Lemma send_ok s u addr w :
  wp any (doSendEmailOTP s u addr)
    (λ r w', r = Ok tt → fallback_only s u w ∧ has_cache s = true ∧ enrolled w' = enrolled w ∧
       ∃ b e t, trail w' = Mail "email_otp" addr (otp_code b) :: trail w ∧
         entry (otp_key u) w' = Some e ∧ Memory.value e = HMACSign (otp_code b) (hmacSecret s) ∧
         Memory.expiresAt e = Some t ∧ clock w + 5 * minute ≤ t) w.
Proof.
  unfold doSendEmailOTP. apply wp_bind. eapply wp_mono; [|apply allowed_ok].
  intros [] w1 [(Hc & Ht & He & _ & Hclk) Hg]; [|by cbn]. specialize (Hg eq_refl). cbn [negb].
  destruct (has_cache s), (has_emailSender s); cbn [negb orb]; try by cbn.
  apply wp_bind, wp_random. intros [b|e] w2 Hs2 _; [|by cbn]. cbn zeta.
  destruct Hs2 as (_ & Hc2 & _ & _ & He2 & _ & _ & _ & Ht2 & Hk2).
  apply wp_bind. intros ch _. cbn [call wp perform]. unfold on_cache. cbn [Cache.Set_ memory_cache].
  unfold Memory.MSet. fold (otp_key u). destruct (Memory.may_admit _ _) as [[] m'] eqn:Ea;
    [|by destruct (c_cache ch)].
  destruct (c_cache ch); cbn [faulty fst snd wp]; try done. intros c3 _. cbn [perform].
  destruct (c_mail c3); cbn [fst snd wp]; [done|]. intros _.
  split_and!; [done|done|cbn; congruence|]. exists b, (Memory.mkMemEntry (HMACSign (otp_code b) (hmacSecret s))
    (Some (clock w2 + Z.max 0 (c_tick ch) + 5 * minute))), (clock w2 + Z.max 0 (c_tick ch) + 5 * minute).
  split_and!; [cbn; congruence|apply lookup_insert_eq|done|done|lia].
Qed.

Lemma verify_live s u code w e t :
  fallback_only s u w → has_cache s = true → entry (otp_key u) w = Some e →
  Memory.value e = HMACSign code (hmacSecret s) → Memory.value e ≠ "" → Memory.expiresAt e = Some t →
  wp healthy (VerifyEmailOTP s u code) (λ r w', clock w' ≤ t → r = Ok tt) w.
Proof.
  intros Hg Hc He Hv Hne Ht. unfold VerifyEmailOTP. apply wp_bind.
  eapply wp_mono; [|by apply allowed_live]. intros _ w1 [-> (Hc1 & _ & _ & _ & Hclk)]. rewrite Hc. cbn [negb].
  apply wp_bind. intros ch (Hch & _). cbn [call wp perform]. unfold on_cache. rewrite Hch.
  cbn [Cache.GetAndDelete memory_cache]. unfold Memory.MGetAndDelete. fold (otp_key u).
  change (cch (tick ch w1)) with (cch w1). rewrite Hc1, He. unfold Memory.expired. rewrite Ht.
  destruct (Z.ltb_spec t (clock (tick ch w1))); [cbn in *; intros; lia|].
  cbn [faulty fst snd wp]. intros _. unfold HMACVerify. rewrite SecureCompare_eq.
  rewrite (bool_decide_false _ Hne), (bool_decide_true (_ = _)) by done. done.
Qed.

(** An email code round-trips: a send that succeeded mailed the holder a
    code of exactly six digits and nothing else, and within five minutes,
    against stores that answer, verifying that code succeeds. *)
Theorem email_code_round_trip s u addr w o :
  (∀ m, HMACSign m (hmacSecret s) ≠ "") →
  (run (doSendEmailOTP s u addr) o w).1 = Ok tt →
  let w1 := (run (doSendEmailOTP s u addr) o w).2 in
  ∃ code, trail w1 = Mail "email_otp" addr code :: trail w ∧ six_digits code ∧
    ∀ o', (∀ n, healthy (o' n)) →
      clock (run (VerifyEmailOTP s u code) o' w1).2 ≤ clock w + 5 * minute →
      (run (VerifyEmailOTP s u code) o' w1).1 = Ok tt.
Proof.
  intros Hne Hok w1.
  destruct (wp_run any _ _ w o (λ _, I) (send_ok s u addr w) Hok)
    as (Hg & Hc & Hen & b & e & t & Htr & He & Hv & Ht & Hle). fold w1 in Hen, Htr, He.
  exists (otp_code b). split_and!; [done|apply otp_code_spec..|]. intros o' Ho Hlt.
  assert (Hg1 : fallback_only s u w1).
  { destruct Hg as (? & ? & Hn). split_and!; [done|done|]. unfold no_second_factor in *. by rewrite Hen. }
  apply (wp_run healthy _ _ w1 o' Ho (verify_live s u (otp_code b) w1 e t Hg1 Hc He Hv
    ltac:(rewrite Hv; apply Hne) Ht)). lia.
Qed.
End email_codes.

(** ** Concrete completions *)
Module MfaDemo.
#[local] Existing Instance Toy.prims.
Import LoginDemo.
Definition how : MFACompletion := mkMFACompletion MethodTOTP false [MethodPassword].
Definition complete (w : W) : res authErr LoginResult * W :=
  run (CompleteMFALogin svc ctx "alice" "fp" "10.0.0.1" "jti1" how) Toy.oracle w.
(** Four bytes of entropy at every draw. *)
Definition bytes (n : nat) : Effects.choice :=
  mkChoice 1000 NoFault NoFault (String (ascii_of_nat 0) (String (ascii_of_nat 0) (String (ascii_of_nat 4) (String (ascii_of_nat 210) ""))))
    false false false false.
Definition sent : res authErr unit * W := run (doSendEmailOTP strict "alice" "alice@example.org") bytes Toy.world.
Definition verified : res authErr unit * W := run (VerifyEmailOTP strict "alice" "001234") bytes sent.2.
End MfaDemo.
#[local] Existing Instance Toy.prims.

Lemma completion_rereads_the_account_witness :
  ∃ x, (MfaDemo.complete Toy.world).1 = Ok x ∧
  ∃ user now, users (db Toy.world) !! "alice" = Some user ∧ clock Toy.world ≤ now ∧ mfa_refusal now user = None ∧
    LRequires2FA x = false ∧
    one_session "alice" "thumb" (LRefreshToken x) [] (tokens (db (MfaDemo.complete Toy.world).2)).
Proof.
  eexists. split; [vm_compute; reflexivity|].
  apply (completion_rereads_the_account LoginDemo.svc LoginDemo.ctx "alice" "fp" "10.0.0.1" "jti1" MfaDemo.how
    Toy.world Toy.oracle). vm_compute. reflexivity.
Defined.

Lemma challenge_completes_once_witness :
  is_ok (MfaDemo.complete (MfaDemo.complete Toy.world).2).1 = false ∧
  db (MfaDemo.complete (MfaDemo.complete Toy.world).2).2 = db (MfaDemo.complete Toy.world).2.
Proof.
  apply (challenge_completes_once LoginDemo.svc LoginDemo.ctx "alice" "fp" "10.0.0.1" "jti1" MfaDemo.how
    Toy.world Toy.oracle); try reflexivity; [done|vm_compute; reflexivity..].
Defined.

Lemma email_code_accepted_once_witness :
  fallback_only LoginDemo.strict "alice" MfaDemo.sent.2 ∧
  is_ok (run (VerifyEmailOTP LoginDemo.strict "alice" "001234") MfaDemo.bytes MfaDemo.verified.2).1 = false.
Proof.
  destruct (email_code_accepted_once LoginDemo.strict "alice" "001234" MfaDemo.sent.2 MfaDemo.bytes)
    as (Hg & _ & Hn); [vm_compute; reflexivity|]. split; [exact Hg|]. by apply Hn.
Defined.

Lemma email_code_round_trip_witness :
  ∃ code, trail MfaDemo.sent.2 = [Mail "email_otp" "alice@example.org" code] ∧ six_digits code ∧
    (run (VerifyEmailOTP LoginDemo.strict "alice" code) MfaDemo.bytes MfaDemo.sent.2).1 = Ok tt.
Proof.
  destruct (email_code_round_trip LoginDemo.strict "alice" "alice@example.org" Toy.world MfaDemo.bytes)
    as (code & Ht & Hs & Hv).
  - intros m. unfold HMACSign. cbn. destruct m; done.
  - vm_compute. reflexivity.
  - exists code. split; [exact Ht|]. split; [exact Hs|]. apply Hv; [done|].
    assert (E : code = "001234") by (cut (trail MfaDemo.sent.2 = [Mail "email_otp" "alice@example.org" "001234"]);
      [intros E'; change (trail MfaDemo.sent.2 = [Mail "email_otp" "alice@example.org" code]) in Ht; rewrite E' in Ht; congruence|vm_compute; reflexivity]).
    rewrite E. by vm_compute.
Defined.
