(* ===== verification/PasswordFacts.v ===== *)
(** * PasswordFacts: links work once, resets are complete, answers say nothing

    Under every failure of the stores: a reset that reports success stored the
    password, ended every session and lifted the flags; a refused one changed no
    account.  Under any interleaving a link is redeemed once.  The answers of
    registration and of a reset request depend on the request alone. *)
From S2P Require Import Prelude GoStd Bytes Json JsonEnc Runes Cache CacheFacts Crypto NetIP Aes Model TokenStore TokenStoreFacts UserStore PersonalStore Effects Random TokenService Lockout Session Login SecondFactor Sanitize StoreWp Register Password SessionFacts LoginFacts MfaFacts.
From stdpp Require Import list.
From Stdlib Require Import Ascii.
Open Scope string_scope.
Open Scope Z_scope.
Open Scope prog_scope.

(** ** A link under interleaving *)
(** Statements that cannot bring the key [k] into being. *)
Definition never_sets (k : string) (B : Type) (s : stmt B) : bool :=
  match s with SSet k' _ _ | SSetIfNotExists k' _ _ | SIncrement k' _ => negb (bool_decide (k' = k)) | _ => true end.
(** A request that touches no account and reports no success unless it takes [k]. *)
Fixpoint hopeless {A} (k : string) (p : prog (answer A)) : Prop :=
  match p with
  | Ret a => ∀ x, a ≠ Replied x
  | Do s q =>
      match s in stmt B return (B → prog (answer A)) → Prop with
      | SGetAndDelete k' => λ q, if decide (k' = k) then ∀ e, hopeless k (q (Err e)) else ∀ a, hopeless k (q a)
      | SUsers _ | SRevokeAllForUser _ => λ q, False
      | _ => λ q, ∀ a, hopeless k (q a)
      end q
  end.

Section links.
Context `{Primitives} `{SHA1}.
#[local] Abbreviation W := (World Memory.MemoryCache).
#[local] Abbreviation entry k w := (Memory.data (cch w) !! k).
Implicit Types w : W.

Lemma absent_stays k c {B} (s : stmt B) w : never_sets k B s = true → entry k w = None → entry k (perform c s w).2 = None.
Proof.
  intros Hs He. destruct (spares k B s) eqn:Esp; [by rewrite perform_spares|].
  destruct s; cbn in Hs, Esp; try discriminate Esp; bool_hyps; try congruence;
    subst; cbn [perform]; unfold on_cache;
    cbn [Cache.Delete Cache.GetAndDelete memory_cache]; unfold Memory.MDelete, Memory.MGetAndDelete; change (cch (tick c w)) with (cch w).
  - destruct (c_cache c); cbn; rewrite ?lookup_delete_eq; done.
  - rewrite He. by destruct (c_cache c).
Qed.
(** Taking [k] leaves it absent; when it was absent the answer is an error. *)
Lemma take_absent k c w :
  let r := perform c (SGetAndDelete k) w in
  (entry k w = None → is_ok r.1 = false) ∧ (is_ok r.1 = true → entry k r.2 = None).
Proof.
  cbn [perform]. unfold on_cache. cbn [Cache.GetAndDelete memory_cache]. unfold Memory.MGetAndDelete. change (cch (tick c w)) with (cch w).
  split.
  - intros ->. by destruct (c_cache c).
  - destruct (entry k w) as [e|] eqn:E; [|by destruct (c_cache c)].
    destruct (Memory.expired (clock (tick c w)) e); destruct (c_cache c); cbn; rewrite ?lookup_delete_eq; done.
Qed.

(** One step of a hopeless thread: it stays so, or it has just taken the key. *)
Lemma hopeless_step {A} k (p : prog (answer A)) c w :
  hopeless k p → hopeless k (thread_step p c w).1 ∨ (entry k w ≠ None ∧ entry k (thread_step p c w).2 = None).
Proof.
  intros Hp. destruct p as [a|B s q]; [by left|]. cbn [thread_step].
  destruct s; try (left; cbn [hopeless] in Hp; destruct (perform c _ w) as [b w'] eqn:E; cbn; first [apply Hp | done]; done).
  cbn [hopeless] in Hp. rename k0 into k'. destruct (decide (k' = k)) as [->|Hk].
  - destruct (take_absent k c w) as [H1' H2']. destruct (perform c (SGetAndDelete k) w) as [[v|e] w']; cbn in *; [|left; apply Hp].
    right. split; [|by apply H2']. intros He. by specialize (H1' He).
  - left. destruct (perform c (SGetAndDelete k') w) as [b w']. apply Hp.
Qed.

Definition offers (token : string) (p : prog (answer string)) : Prop := ∃ h ip pw, p = ResetConfirm h ip (Some (token, pw)).
(** Whatever else happens, it does not issue this token again. *)
Definition no_reissue (k : string) w w' : Prop := entry k w = None → entry k w' = None.

Lemma recently_sets k h pw l : over (never_sets k) (recently_used h pw l).
Proof. induction l as [|e l IH]; [done|]. split; [done|]. intros [[]|]; cbn; auto. Qed.
Lemma confirm_sets token p : offers token p → over (never_sets (reset_key (SHA256Hex token))) p.
Proof.
  intros (h & ip & pw & ->). unfold ResetConfirm. case_decide; [done|]. destruct (_ <? _); [done|].
  split; [done|]. intros [u|]; [|done]. cbn [bind]. case_decide; [done|]. split; [done|]. intros [[user|]|]; try done. cbn [bind].
  destruct (refusedByAccountState _); [done|]. apply over_bind.
  - unfold updatePassword. destruct (breached _ _); [done|]. apply over_bind; [by split|intros hist].
    apply over_bind; [apply recently_sets|intros []; [done|]]. unfold retire_link, RandomUUID, RandomBytes. walk.
  - intros [[]|]; [|done]. unfold finish_reset, ClearAccountLockout, lift, ph_audit. walk;
      apply negb_true_iff, bool_decide_eq_false; unfold lockoutGenerationKey, reset_key; done.
Qed.
Lemma confirm_hopeless token p : offers token p → hopeless (reset_key (SHA256Hex token)) p.
Proof.
  intros (h & ip & pw & ->). unfold ResetConfirm. case_decide; [done|]. destruct (_ <? _); [done|].
  cbn [bind call hopeless]. rewrite decide_True by done. intros e. done.
Qed.

Definition one_taker (k : string) (ps : list (prog (answer string))) w : Prop :=
  Forall (over (never_sets k)) ps ∧
  (Forall (hopeless k) ps ∨ entry k w = None ∧ ∃ i, ∀ j p, ps !! j = Some p → j ≠ i → hopeless k p).

Lemma one_taker_step token ps w ps' w' :
  let k := reset_key (SHA256Hex token) in
  pool_step (offers token) (λ _ _, True) (no_reissue k) (ps, w) (ps', w') → one_taker k ps w → one_taker k ps' w'.
Proof.
  intros k Hst [Hs Hh]. inversion Hst as [ps0 p w0 Ho|ps0 i p c w0 Hi _|ps0 w0 w1 Ho]; simplify_eq.
  - split; [apply Forall_app; split; [done|]; apply Forall_singleton; by apply confirm_sets|].
    destruct Hh as [Hh|[He (i & Hi)]].
    + left. apply Forall_app. split; [done|]. apply Forall_singleton. by apply confirm_hopeless.
    + right. split; [done|]. exists i. intros j q Hj Hne. apply lookup_app_Some in Hj as [Hj|[_ Hj]]; [by eapply Hi|].
      apply list_lookup_singleton_Some in Hj as [_ <-]. by apply confirm_hopeless.
  - assert (Hover : over (never_sets k) (thread_step p c w).1).
    { eapply Forall_lookup_1 in Hs; [|done]. destruct p as [a|B s q]; [done|]. cbn in *. destruct (perform c s w). apply Hs. }
    assert (Habs : entry k w = None → entry k (thread_step p c w).2 = None).
    { intros He. eapply Forall_lookup_1 in Hs; [|done]. destruct p as [a|B s q]; [done|]. cbn in *.
      pose proof (absent_stays k c s w (proj1 Hs) He) as Ha. by destruct (perform c s w). }
    split; [by apply Forall_insert|].
    assert (Hins : ∀ P : prog (answer string) → Prop, (∀ j q, ps !! j = Some q → j ≠ i → P q) → P (thread_step p c w).1 →
      ∀ j q, <[i := (thread_step p c w).1]> ps !! j = Some q → P q).
    { intros P HP Hp j q Hj. destruct (decide (j = i)) as [->|Hne].
      - rewrite list_lookup_insert_eq in Hj by (by eapply lookup_lt_Some). by injection Hj as <-.
      - rewrite list_lookup_insert_ne in Hj by done. by eapply HP. }
    destruct Hh as [Hh|[He (n & Hn)]].
    + destruct (hopeless_step k p c w) as [Hp|[_ Hp]]; [by eapply Forall_lookup_1 in Hh| |].
      * left. apply Forall_lookup. intros j q Hj. eapply Hins; [|exact Hp|exact Hj].
        intros j' q' Hj' _. by eapply Forall_lookup_1 in Hh.
      * right. split; [done|]. exists i. intros j q Hj Hne. rewrite list_lookup_insert_ne in Hj by done. by eapply Forall_lookup_1 in Hh.
    + right. split; [auto|]. exists n. intros j q Hj Hne. destruct (decide (j = i)) as [->|Hji].
      * rewrite list_lookup_insert_eq in Hj by (by eapply lookup_lt_Some). injection Hj as <-.
        destruct (hopeless_step k p c w) as [Hp|[Hw _]]; [by eapply Hn|done|done].
      * rewrite list_lookup_insert_ne in Hj by done. by eapply Hn.
  - split; [done|]. destruct Hh as [Hh|[He Hh]]; [by left|right]. split; [by apply Ho|done].
Qed.

Lemma one_taker_reach token a b :
  let k := reset_key (SHA256Hex token) in
  rtc (pool_step (offers token) (λ _ _, True) (no_reissue k)) a b → one_taker k a.1 a.2 → one_taker k b.1 b.2.
Proof.
  intros k Hr. induction Hr as [a|[ps1 w1] [ps2 w2] c Hst Hr IH]; [done|]. intros Ha. apply IH. by eapply one_taker_step.
Qed.

End links.

(** ** A reset that succeeds *)
Section complete.
Context {C : Type} `{CacheOps C} `{Primitives} `{SHA1}.
#[local] Notation "'W'" := (World C).
Implicit Types w : W.

Definition ended (u : string) (d : DB) : Prop := ∀ r, r ∈ tokens d → user_id r = u → revoked r = true.
(** Every account row sits under its own id. *)
Definition ids_ok (d : DB) : Prop := ∀ i u, users d !! i = Some u → UID u = i.

Lemma wp_accounts P {B} (q : Z → DB → B * gmap string User) (Q : res repoErr B → W → Prop) w :
  (∀ w1, db w1 = with_users (q (clock w1) (db w)).2 (db w) → Q (Ok (q (clock w1) (db w)).1) w1) →
  (∀ w1, Q (Err ErrDB) w1) → wp P (call (SUsers q)) Q w.
Proof.
  intros Hok Hbad c _. cbn [wp call perform]. unfold on_db. set (w0 := tick c w). change (db w0) with (db w).
  destruct (q (clock w0) (db w)) as [b us] eqn:E. destruct (c_db c); cbn [faulty fst snd]; [|apply Hbad..].
  specialize (Hok (set_db (with_users us (db w)) w0)). change (clock (set_db _ w0)) with (clock w0) in Hok. rewrite E in Hok. by apply Hok.
Qed.

Lemma recently_framed h pw l : framed (recently_used h pw l).
Proof. induction l as [|e l IH]; [done|]. split; [done|]. intros [[]|]; cbn; auto. Qed.
Lemma uuid_framed : framed RandomUUID.
Proof. unfold RandomUUID, RandomBytes. walk. Qed.
Lemma retire_framed u : framed (retire_link u).
Proof. unfold retire_link. walk. Qed.
Lemma audit_framed h kind u ip d : framed (ph_audit h kind u ip d).
Proof. unfold ph_audit. walk. Qed.

Definition stored_password (h : PasswordHandler) (u pw : string) (d d' : DB) : Prop :=
  ∃ salt old, users d !! u = Some old ∧ Deleted old = false ∧
    users d' = <[u := set_password (argon2_hash salt pw (ph_pepper h)) old]> (users d) ∧
    (if ph_tokens h then ended u d' else tokens d' = tokens d).

(** A branch that refuses. *)
Ltac refusal := cbn; split; [done | intros; simplify_eq; first [done | congruence]].

Lemma updatePassword_ok h u pw w :
  wp any (updatePassword h u pw) (λ r w',
    (r = Ok tt → stored_password h u pw (db w) (db w')) ∧ (∀ e, r = Err e → e ≠ PwFailed → db w' = db w)) w.
Proof.
  unfold updatePassword. destruct (breached _ _); [refusal|].
  apply wp_bind, wp_framed; [by split|]. intros hist w1 [E1 _].
  apply wp_bind, wp_framed; [apply recently_framed|]. intros [] w2 [E2 _]; [refusal|].
  apply wp_bind. intros c _. cbn [wp call perform]. set (w3 := tick c w2).
  assert (E3 : db w3 = db w) by (change (db w3) with (db w2); congruence).
  destruct (c_busy c); [by cbn|]. cbn [fst snd]. set (hash := argon2_hash _ _ _).
  apply wp_bind, wp_accounts; [|intros; refusal]. intros w4 E4. rewrite E3 in *.
  destruct (UpdatePassword u hash (db w)) as [b d'] eqn:Eu. cbn [fst snd] in *. destruct b; [|refusal].
  unfold UpdatePassword in Eu. destruct (users (db w) !! u) as [old|] eqn:Eo; [|done]. destruct (Deleted old) eqn:Ed; [done|].
  injection Eu as <-. cbn in E4.
  assert (Hu4 : users (db w4) = <[u := set_password hash old]> (users (db w))).
  { rewrite E4. cbn. apply map_eq. intros i. destruct (decide (i = u)) as [->|Hne];
      [by rewrite lookup_alter_eq, lookup_insert_eq, Eo|by rewrite lookup_alter_ne, lookup_insert_ne]. }
  assert (Ht4 : tokens (db w4) = tokens (db w)) by (by rewrite E4).
  apply wp_bind, wp_framed; [apply uuid_framed|]. intros id w5 [E5 _].
  apply wp_bind, wp_framed; [destruct id; walk|]. intros _ w6 [E6 _].
  apply wp_bind. apply (wp_mono any _ (λ r w7, r = Ok tt → users (db w7) = users (db w6) ∧
    (if ph_tokens h then ended u (db w7) else tokens (db w7) = tokens (db w)))).
  - intros [[]|e] w7 H7; [|refusal]. destruct (H7 eq_refl) as [Hu7 Ht7].
    apply wp_bind, wp_framed; [apply retire_framed|]. intros _ w8 [E8 _].
    apply wp_bind, wp_framed; [by split|]. intros _ w9 [E9 _]. cbn. split; [|done]. intros _.
    exists (c_rand c), old. rewrite E9, E8, Hu7, E6, E5. by split_and!.
  - destruct (ph_tokens h).
    + intros c' _. cbn [perform]. unfold on_db. destruct (c_db c'); cbn; [|done..]. intros _. split; [done|].
      intros r Hr Hur. exact (RevokeAll_rows u (db w6) r Hr Hur).
    + cbn. intros _. split; [done|congruence].
Qed.

(** The account after the flags are lifted. *)
Definition same_login (r0 r' : User) : Prop :=
  PasswordHash r' = PasswordHash r0 ∧ Deleted r' = Deleted r0 ∧ Banned r' = Banned r0 ∧ Disabled r' = Disabled r0.
Definition lifted (u : string) (r0 : User) (imp must : bool) w : Prop :=
  ∃ r', users (db w) !! u = Some r' ∧ same_login r0 r' ∧ ImportPending r' = imp ∧ MustResetPassword r' = must.

Lemma lift_ok set write u (P P' : User → Prop) w :
  (set = true → ∃ f, (∀ d, write u d = update_user u f d) ∧ ∀ r, P r → P' (f r)) → (set = false → ∀ r, P r → P' r) →
  (∃ r, users (db w) !! u = Some r ∧ P r) →
  wp any (lift set write u) (λ b w', b = true → tokens (db w') = tokens (db w) ∧ ∃ r, users (db w') !! u = Some r ∧ P' r) w.
Proof.
  intros Hset Hun (r & Hr & HP). unfold lift. destruct set.
  - destruct (Hset eq_refl) as (f & Hw & Hf). apply wp_bind, wp_accounts; [|by cbn]. intros w1 E1. cbn. intros _. rewrite E1. cbn.
    split; [done|]. rewrite Hw. cbn. rewrite lookup_alter_eq, Hr. cbn. eauto.
  - cbn. eauto.
Qed.

Lemma finish_reset_ok h ip user r0 w :
  users (db w) !! UID user = Some r0 → ImportPending r0 = ImportPending user → MustResetPassword r0 = MustResetPassword user →
  wp any (finish_reset h ip user) (λ a w',
    (∀ x, a = Replied x → tokens (db w') = tokens (db w) ∧ lifted (UID user) r0 false false w') ∧
    (∀ st m, a = Refused st m → st = 500)) w.
Proof.
  intros Hr Hi Hm. unfold finish_reset.
  apply wp_bind, wp_framed; [unfold ClearAccountLockout; walk|]. intros _ w1 [E1 _].
  apply wp_bind. apply (wp_mono any _ (λ _ w2, tokens (db w2) = tokens (db w) ∧
    lifted (UID user) r0 (ImportPending user) (MustResetPassword user) w2)).
  2: { intros c _. cbn [perform]. unfold on_db. change (db (tick c w1)) with (db w1).
    assert (Hsame : lifted (UID user) r0 (ImportPending user) (MustResetPassword user) w1) by (exists r0; rewrite E1; by split_and!).
    assert (Hres : lifted (UID user) r0 (ImportPending user) (MustResetPassword user) (set_db (ResetFailedLogin (UID user) (db w1)) w1)).
    { exists (set_failed 0 r0). cbn. rewrite lookup_alter_eq, E1, Hr. by split_and!. }
    destruct (c_db c); cbn; split; try congruence; done. }
  intros _ w2 [T2 (r2 & Hr2 & Hs2 & Hi2 & Hm2)].
  apply wp_bind. eapply wp_mono; [|apply (lift_ok (ImportPending user) _ _
    (λ r, same_login r0 r ∧ ImportPending r = ImportPending user ∧ MustResetPassword r = MustResetPassword user)
    (λ r, same_login r0 r ∧ ImportPending r = false ∧ MustResetPassword r = MustResetPassword user))].
  2: { intros _. exists (set_import_pending false). split; [done|]. by intros r ((?&?&?&?) & ? & ?). }
  2: { intros E r (? & ? & ?). split_and!; [done|congruence|done]. }
  2: { by exists r2. }
  intros [] w3 H3; cbn [negb]; [|cbn; split; [done|by intros ?? [= <- _]]]. destruct (H3 eq_refl) as [T3 (r3 & Hr3 & Hs3 & Hi3 & Hm3)].
  apply wp_bind. eapply wp_mono; [|apply (lift_ok (MustResetPassword user) _ _
    (λ r, same_login r0 r ∧ ImportPending r = false ∧ MustResetPassword r = MustResetPassword user)
    (λ r, same_login r0 r ∧ ImportPending r = false ∧ MustResetPassword r = false))].
  2: { intros _. exists (set_must_reset false). split; [done|]. by intros r ((?&?&?&?) & ? & ?). }
  2: { intros E r (? & ? & ?). split_and!; [done|done|congruence]. }
  2: { by exists r3. }
  intros [] w4 H4; cbn [negb]; [|cbn; split; [done|by intros ?? [= <- _]]]. destruct (H4 eq_refl) as [T4 (r4 & Hr4 & Hs4 & Hi4 & Hm4)].
  apply wp_bind, wp_framed; [destruct (MustResetPassword user); [apply audit_framed|done]|]. intros _ w5 [E5 _].
  apply wp_bind, wp_framed; [apply audit_framed|]. intros _ w6 [E6 _]. cbn. split; [|done]. intros x _.
  split; [congruence|]. exists r4. rewrite E6, E5. done.
Qed.

(** What a successful reset leaves of the account and its sessions. *)
Definition reset_done (h : PasswordHandler) (u pw : string) (d d' : DB) : Prop :=
  ∃ salt old new, users d !! u = Some old ∧ users d' !! u = Some new ∧ refusedByAccountState (Some old) = false ∧
    PasswordHash new = argon2_hash salt pw (ph_pepper h) ∧ ImportPending new = false ∧ MustResetPassword new = false ∧
    (ph_tokens h = true → ended u d').

Lemma ResetConfirm_ok h ip token pw w :
  ids_ok (db w) →
  wp any (ResetConfirm h ip (Some (token, pw))) (λ a w',
    (∀ x, a = Replied x → ∃ u, reset_done h u pw (db w) (db w')) ∧
    (∀ st m, a = Refused st m → st ≠ 500 → db w' = db w)) w.
Proof.
  intros Hids. unfold ResetConfirm. case_decide; [refusal|]. destruct (_ <? _); [refusal|].
  apply wp_bind, wp_framed; [by split|]. intros [u|e] w1 [E1 _]; [|refusal]. case_decide; [refusal|].
  apply wp_bind, (wp_read _ _ (GetByID u)); [done|]. intros w2 r [E2 _] Hr. assert (E12 : db w2 = db w) by congruence.
  destruct Hr as [->| ->]; [|refusal]. unfold GetByID. rewrite E1.
  destruct (users (db w) !! u) as [user|] eqn:Eu; [|refusal].
  destruct (refusedByAccountState (Some user)) eqn:Est; [refusal|].
  pose proof (Hids u user Eu) as Hid. apply wp_bind. eapply wp_mono; [|apply updatePassword_ok]. rewrite E12, Hid.
  intros [[]|e] w3 [Hok Herr].
  - destruct (Hok eq_refl) as (salt & old & Ho & Hdel & Hus & Htok). rewrite Eu in Ho. injection Ho as <-.
    eapply wp_mono; [|apply (finish_reset_ok h ip user (set_password (argon2_hash salt pw (ph_pepper h)) user))].
    + intros a w4 [Hf Hst]. split.
      * intros x ->. destruct (Hf x eq_refl) as [Ht4 (r' & Hr' & (Hp & _) & Hi & Hm)]. exists u, salt, user, r'. rewrite Hid in Hr'.
        split_and!; try done. intros Etk. rewrite Etk in Htok. unfold ended. by rewrite Ht4.
      * intros st m -> Hne. by destruct Hne; eapply Hst.
    + rewrite Hid, Hus. by rewrite lookup_insert_eq.
    + done.
    + done.
  - cbn. split; [by destruct e|]. intros st m Ee Hst. apply (Herr e eq_refl). intros ->. cbn in Ee. congruence.
Qed.


Lemma ChangePassword_ok h c current new w :
  ids_ok (db w) →
  wp any (ChangePassword h c (Some (current, new))) (λ a w',
    (∀ x, a = Replied x → ∃ claims old, c_claims c = Some claims ∧ users (db w) !! Subject claims = Some old ∧
       argon2_verify current (PasswordHash old) (ph_pepper h) = Ok true ∧ stored_password h (Subject claims) new (db w) (db w')) ∧
    (∀ st m, a = Refused st m → st ≠ 500 → db w' = db w)) w.
Proof.
  intros Hids. unfold ChangePassword. destruct (c_claims c) as [claims|]; [|refusal]. destruct (_ <? _); [refusal|].
  apply wp_bind, (wp_read _ _ (GetByID (Subject claims))); [done|]. intros w1 r [E1 _] Hr. destruct Hr as [->| ->]; [|refusal].
  unfold GetByID. destruct (users (db w) !! Subject claims) as [old|] eqn:Eo; [|refusal]. pose proof (Hids _ _ Eo) as Hid.
  apply wp_bind. intros ch _. cbn [wp call perform]. set (w2 := tick ch w1). assert (E2 : db w2 = db w) by done.
  destruct (c_busy ch); [refusal|]. destruct (argon2_verify current (PasswordHash old) (ph_pepper h)) as [[]|] eqn:Ev; [|refusal..].
  cbn [fst snd]. apply wp_bind. eapply wp_mono; [|apply updatePassword_ok]. rewrite E2, Hid. intros [[]|e] w3 [Hok Herr].
  - apply wp_bind, wp_framed; [apply audit_framed|]. intros _ w4 [E4 _]. cbn. split; [|done]. intros x _.
    exists claims, old. rewrite E4. split_and!; [done|done|done|by apply Hok].
  - cbn. split; [by destruct e|]. intros st m Ee Hst. apply (Herr e eq_refl). intros ->. cbn in Ee. congruence.
Qed.

(** A logged-in caller changes a password only by presenting the current one;
    success stores the new hash in that account's row alone and ends all its
    sessions, and a refusal other than a server error changes nothing. *)
Theorem password_change_needs_the_password h c current new o w :
  ids_ok (db w) →
  let '(a, w') := run (ChangePassword h c (Some (current, new))) o w in
  (∀ x, a = Replied x → ∃ claims old, c_claims c = Some claims ∧ users (db w) !! Subject claims = Some old ∧
     argon2_verify current (PasswordHash old) (ph_pepper h) = Ok true ∧ stored_password h (Subject claims) new (db w) (db w')) ∧
  (∀ st m, a = Refused st m → st ≠ 500 → db w' = db w).
Proof.
  intros Hids. pose proof (wp_run any _ _ w o (λ _, I) (ChangePassword_ok h c current new w Hids)) as Hr.
  by destruct (run _ _ _) as [a w'].
Qed.

(** ** The last five passwords *)
Definition reuses (h : PasswordHandler) (pw : string) (e : PasswordHistory) : Prop :=
  argon2_verify pw (HPasswordHash e) (ph_pepper h) = Ok true.
Lemma recently_used_wp h pw l w :
  wp healthy (recently_used h pw l) (λ b _, b = false → Forall (λ e, ¬ reuses h pw e) l) w.
Proof.
  revert w. induction l as [|e l IH]; intros w; [by constructor|]. cbn [recently_used]. intros c (_ & _ & _ & Hb). cbn [perform]. rewrite Hb.
  unfold reuses at 1. destruct (argon2_verify pw (HPasswordHash e) (ph_pepper h)) as [[]|] eqn:Ev; cbn; [done|..];
    (eapply wp_mono; [|apply IH]; intros b w' Hl Eb; apply Forall_cons_2; [congruence|by apply Hl]).
Qed.
(** While the stores answer and the hasher is not overloaded, a password that
    verifies against one of the account's last five hashes is never stored. *)
Theorem recent_passwords_are_refused h u pw o w :
  (∀ n, healthy (o n)) → (run (updatePassword h u pw) o w).1 = Ok tt →
  Forall (λ e, ¬ reuses h pw e) (GetRecentByUser u 5 (personal w)).
Proof.
  intros Ho. set (l := GetRecentByUser u 5 (personal w)).
  assert (Hwp : wp healthy (updatePassword h u pw) (λ r _, r = Ok tt → Forall (λ e, ¬ reuses h pw e) l) w).
  { unfold updatePassword. destruct (breached _ _); [done|]. intros c (_ & Hdb & _). cbn [perform reads]. rewrite Hdb. cbn -[GetRecentByUser].
    fold l. apply wp_bind. eapply wp_mono; [|apply recently_used_wp]. intros [] w1 Hb; [done|]. specialize (Hb eq_refl).
    by apply wp_always. }
  intros Hr. by apply (wp_run healthy _ _ w o Ho Hwp).
Qed.
End complete.

(** ** Examples *)
Module PasswordDemo.
#[local] Existing Instance Toy.prims.
#[local] Instance sha1 : SHA1 := {| sha1_hex s := s |}.
Definition handler : PasswordHandler := mkPasswordHandler true true true "https://vault" "pepper" "$dummy" 8 None.
Definition bytes (n : nat) : string := "0123456789abcdef0123456789abcde" +:+ FormatInt (Z.of_nat (n mod 10)).
Definition oracle (n : nat) : choice := mkChoice 1000 NoFault NoFault (bytes n) false false false false.
Lemma oracle_healthy n : healthy (oracle n).
Proof. done. Qed.
(** The link of the request's mail, as it was drawn. *)
Definition requested : World Memory.MemoryCache := (run (ResetRequest handler "ip" (Some " Alice@example.org ")) oracle Toy.world).2.
Definition token : string := Base64.hex_encode (bytes 1).
Lemma world_ids : ids_ok (db requested).
Proof.
  intros i u. assert (E : users (db requested) = {["alice" := Toy.alice]}) by (by vm_compute). rewrite E.
  intros (<- & <-)%lookup_singleton_Some. done.
Qed.


Definition alice_calls : Caller :=
  mkCaller (Some (mkClaims "" [] "alice" None None None "" [] [] "" "" None "" "" [] 0 [] "" "")) "ip" "" (mkCtx "" "").
Lemma password_change_needs_the_password_witness :
  let r := run (ChangePassword handler alice_calls (Some ("secret", "a new password"))) oracle requested in
  r.1 = Replied "password_changed" ∧ stored_password handler "alice" "a new password" (db requested) (db r.2).
Proof.
  pose proof (password_change_needs_the_password handler alice_calls "secret" "a new password" oracle requested world_ids) as Hr.
  assert (E : (run (ChangePassword handler alice_calls (Some ("secret", "a new password"))) oracle requested).1 = Replied "password_changed")
    by (by vm_compute).
  cbv zeta. destruct (run _ _ _) as [a w']. cbn [fst snd] in *. split; [done|]. destruct Hr as [Hr _].
  destruct (Hr _ E) as (claims & old & [= <-] & _ & _ & Hs). exact Hs.
Defined.

Lemma recent_passwords_are_refused_witness :
  (run (updatePassword handler "alice" "a new password") oracle requested).1 = Ok tt ∧
  Forall (λ e, ¬ reuses handler "a new password" e) (GetRecentByUser "alice" 5 (personal requested)).
Proof.
  split; [by vm_compute|]. apply (recent_passwords_are_refused _ _ _ oracle); [apply oracle_healthy|by vm_compute].
Defined.

Definition overloaded_at (k n : nat) : choice := mkChoice 1000 NoFault NoFault (bytes n) false (bool_decide (n = k)) false false.
Definition changed : World Memory.MemoryCache := (run (updatePassword handler "alice" "a new password") oracle requested).2.
(** A full password semaphore disables the history check: the current
    password of the account is accepted as its new one. *)
Theorem overload_skips_the_history :
  (run (updatePassword handler "alice" "a new password") oracle changed).1 = Err PwRecentlyUsed ∧
  (run (updatePassword handler "alice" "a new password") (overloaded_at 1) changed).1 = Ok tt.
Proof. by vm_compute. Qed.

(** One request of two with the same link wins. *)
Definition pair_of : list (prog (answer string)) :=
  [ResetConfirm handler "ip" (Some (token, "a new password")); ResetConfirm handler "ip2" (Some (token, "another password"))].
Lemma drive_reaches {A} offered outside (sched : list nat) o (ps : list (prog A)) (w : World Memory.MemoryCache) :
  rtc (pool_step offered (λ _ _, True) outside) (ps, w) (drive sched o ps w).
Proof.
  revert o ps w. induction sched as [|i l IH]; intros o ps w; [constructor|]. cbn [drive]. destruct (ps !! i) as [p|] eqn:E; [|apply IH].
  destruct (thread_step p (o 0%nat) w) as [p' w'] eqn:Ep. eapply rtc_l; [|apply IH].
  pose proof (pool_thread offered (λ _ _, True) outside ps i p (o 0%nat) w E I) as Hp. by rewrite Ep in Hp.
Qed.
End PasswordDemo.
