(* ===== verification/SecondFactorFacts.v ===== *)
(** * SecondFactorFacts: second factors are spent once and name their owner

    Theorems about the handlers of SecondFactor under any faults: what an
    accepted code proves, that it is not accepted again, and what a
    regeneration leaves usable. *)
From S2P Require Import Prelude GoStd Bytes Base64 Cache CacheFacts Crypto Aes Totp Model TokenStore TokenStoreFacts UserStore FactorStore Effects TokenService Lockout Session Login SecondFactor SessionFacts LoginFacts MfaFacts.
From stdpp Require Import list.
From Stdlib Require Import Ascii.
Open Scope string_scope.
Open Scope Z_scope.
Open Scope prog_scope.

(** ** The table of backup codes *)
Inductive factor_op :=
| FCreateBatch (cs : list BackupCode) | FMarkUsed (now : Z) (i : string)
| FInvalidate (now : Z) (u : string) | FPurge (u : string)
| FTotpCreate (t : TOTPSecret) | FTotpMarkVerified (i : string) | FTotpDelete (u : string).

(** The new tables, and whether a [BackupMarkUsed] won. *)
Definition factor_exec (o : factor_op) (f : Factors) : bool * Factors :=
  match o with
  | FCreateBatch cs => (false, (CreateBatch cs f).2)
  | FMarkUsed now i => BackupMarkUsed now i f
  | FInvalidate now u => (false, InvalidateAllForUser now u f)
  | FPurge u => (false, PurgeAllForUser u f)
  | FTotpCreate t => (false, (TOTPCreate t f).2)
  | FTotpMarkVerified i => (false, TOTPMarkVerified i f)
  | FTotpDelete u => (false, TOTPDeleteByUserID u f)
  end.
Fixpoint wins (i : string) (ops : list factor_op) (f : Factors) : nat :=
  match ops with
  | [] => 0
  | o :: ops' =>
      let '(b, f') := factor_exec o f in
      (match o with FMarkUsed _ j => if bool_decide (j = i) && b then 1 else 0 | _ => 0 end + wins i ops' f')%nat
  end.
Definition reissues (i : string) (o : factor_op) : bool :=
  match o with FCreateBatch cs => bool_decide (i ∈ (BID <$> cs)) | _ => false end.

(** No row of that id is unspent. *)
Definition spent (i : string) (f : Factors) : Prop := filter (unspent i) (backup_codes f) = [].

Lemma spent_alt i f : spent i f ↔ ∀ c, c ∈ backup_codes f → ¬ unspent i c.
Proof.
  unfold spent. split.
  - intros E c Hc Hu. assert (Hin : c ∈ filter (unspent i) (backup_codes f)) by (by apply list_elem_of_filter).
    rewrite E in Hin. by apply elem_of_nil in Hin.
  - intros Hall. apply elem_of_nil_inv. intros c [Hu Hc]%list_elem_of_filter. by apply (Hall c).
Qed.

Lemma spent_map i f g : (∀ c, unspent i (g c) → unspent i c) → spent i f → spent i (with_codes (g <$> backup_codes f) f).
Proof.
  intros Hg. rewrite !spent_alt. cbn. intros Hs c (d & -> & Hd)%list_elem_of_fmap Hu. by eapply Hs, Hg.
Qed.
Lemma spent_after now i f : spent i (BackupMarkUsed now i f).2.
Proof.
  apply spent_alt. cbn. intros c (d & -> & Hd)%list_elem_of_fmap. destruct (decide (unspent i d)) as [|Hn]; [|done].
  by intros [_ ?].
Qed.

Lemma spent_exec i o f : reissues i o = false → spent i f → spent i (factor_exec o f).2.
Proof.
  intros Hr Hs. destruct o as [cs|now j|now u|u|t|j|u]; cbn [factor_exec snd] in *.
  - unfold CreateBatch. destruct (insert_codes cs (backup_codes f)) as [rows|] eqn:E; [|done].
    apply insert_codes_rows in E as ->. apply spent_alt. cbn. rewrite spent_alt in Hs.
    intros c [Hc|(d & -> & Hd)%list_elem_of_fmap]%elem_of_app; [by apply Hs|].
    intros [Hi _]. cbn in *. apply bool_decide_eq_false in Hr. apply Hr. rewrite <-Hi. by apply list_elem_of_fmap_2.
  - apply spent_map; [|done]. intros c. by destruct (decide _) as [|]; [intros [_ ?]|].
  - apply spent_map; [|done]. intros c. by destruct (decide _) as [|]; [intros [_ ?]|].
  - apply spent_alt. cbn. rewrite spent_alt in Hs. intros c [_ Hc]%list_elem_of_filter. by apply Hs.
  - unfold TOTPCreate. by case_match.
  - done.
  - done.
Qed.
Lemma spent_never_wins i ops f : Forall (λ o, reissues i o = false) ops → spent i f → wins i ops f = 0%nat.
Proof.
  intros Hops. revert f. induction Hops as [|o ops Ho Hops IH]; intros f Hs; [done|]. cbn [wins].
  destruct (factor_exec o f) as [b f'] eqn:E. pose proof (spent_exec i o f Ho Hs) as Hs'. rewrite E in Hs'. cbn [snd] in Hs'.
  rewrite (IH _ Hs'). destruct o as [|now j| | | | |]; try done. case_bool_decide as Hj; [subst j|done].
  cbn in E. injection E as Eb _. rewrite <-Eb, Hs. done.
Qed.

(** A backup code is spent at most once: through any sequence of inserts,
    spends, regenerations, purges and TOTP operations that does not issue its
    id again, at most one MarkUsed of it reports success. *)
Theorem backup_code_spent_once i ops f :
  Forall (λ o, reissues i o = false) ops → (wins i ops f ≤ 1)%nat.
Proof.
  intros Hops. revert f. induction Hops as [|o ops Ho Hops IH]; intros f; [cbn; lia|]. cbn [wins].
  destruct (factor_exec o f) as [b f'] eqn:E. pose proof (IH f').
  destruct o as [|now j| | | | |]; try lia. case_bool_decide as Hj; [subst j|cbn; lia].
  replace f' with ((BackupMarkUsed now i f).2) by (cbn in E; by injection E).
  rewrite (spent_never_wins i ops _ Hops (spent_after now i f)). destruct b; cbn; lia.
Qed.

(** ** Statements that leave the second factors alone *)
Definition keeps_factors (B : Type) (s : stmt B) : bool :=
  match s with
  | STotpCreate _ | STotpMarkVerified _ | STotpDelete _
  | SCodesCreate _ | SCodesMarkUsed _ | SCodesInvalidate _ | SPasskeysDelete _ | SCodesPurge _ => false
  | _ => true
  end.

Section factors.
Context {C : Type} `{CacheOps C} `{Primitives} `{AEAD} `{HMACSHA1}.
Implicit Types w : World C.

Definition factors_kept w w' : Prop := enrolled w' = enrolled w ∧ clock w ≤ clock w'.

Lemma perform_factors c {B} (s : stmt B) w : keeps_factors B s = true → factors_kept w (perform c s w).2.
Proof.
  intros Hs. split; [|apply perform_clock].
  destruct s; cbn in Hs; try discriminate Hs; cbn [perform]; unfold on_cache, on_db, on_factors, rate_increment;
    repeat case_match; simplify_eq/=; try done; destruct (c_cache c), (c_db c); cbn in *; simplify_eq/=; done.
Qed.
Lemma wp_factors P {A} (p : prog A) (Q : A → World C → Prop) w :
  over keeps_factors p → (∀ a w', factors_kept w w' → Q a w') → wp P p Q w.
Proof.
  apply (wp_over keeps_factors factors_kept); [done| |intros; by apply perform_factors].
  intros w1 w2 w3 [? ?] [? ?]. split; [congruence|lia].
Qed.

Lemma locked_over h u ip : over keeps_factors (factor_locked h u ip).
Proof.
  unfold factor_locked, MFAVerifyLocked, isAccountLocked, lockedByStoredCount, lockoutCountersUnwritable,
    lockoutGeneration, cachedCount. walk.
Qed.
Lemma completion_over s c u f ip jti m : over keeps_factors (CompleteMFALogin s c u f ip jti m).
Proof.
  unfold CompleteMFALogin. apply over_bind; [unfold consume_challenge; walk|intros [[]|]; [|done]].
  apply over_bind; [unfold clearLockout, lockoutGeneration, cachedCount; walk|intros _].
  apply over_bind; [unfold checkSessionLimit; walk|intros [[]|]; [|done]].
  apply over_bind; [unfold findOrCreateDevice; walk|intros dev]. apply over_bind; [by split|intros [[user|]|]; try done].
  apply over_bind; [by split|intros now]. case_match; [done|].
  apply over_bind; [unfold effectiveRoles, catalog_Filter, catalog_current, catalog_cached; walk|intros roles].
  apply over_bind; [unfold start_session, IssueTokenPairWithAuth, storeRefreshToken; walk|intros [pr|]; [|done]].
  unfold login_done. walk.
Qed.
Lemma verified_over h c claims m : over keeps_factors (factor_verified h c claims m).
Proof.
  unfold factor_verified, completeMFAIfChallenge, ChallengeFingerprintMatches, logEvent.
  apply over_bind; [walk|intros _]. apply over_bind; [|by intros [?|]].
  destruct (negb _); [done|]. destruct (authSvc h) as [s|]; [|done].
  apply over_bind; [walk|intros ok]. destruct (negb ok); [done|].
  apply over_bind; [apply completion_over|]. intros r. repeat case_match; done.
Qed.

(** ** Backup codes *)
Lemma matched_id_spec h presented codes :
  matched_id h presented codes = "" ∨
  ∃ r, r ∈ codes ∧ BID r = matched_id h presented codes ∧ HMACVerify presented (hmacKey h) (CodeHash r) = true.
Proof.
  unfold matched_id. set (f := λ acc c, _). generalize "" as acc.
  induction codes as [|c codes IH]; intros acc; [by left|]. cbn [fold_left].
  destruct (IH (f acc c)) as [E|(r & Hr & Ei & Ev)]; [|right; exists r; split_and!; [by right|done..]].
  rewrite E. unfold f. destruct (HMACVerify _ _ _) eqn:Ev; [right|by left]. exists c. split_and!; [by left|done..].
Qed.

(** What an accepted backup code proves: a row of the account, unused until
    then, holds its digest, and that row was spent; nothing else changed. *)
Definition spends_code (h : FactorHandler) (c : Caller) (body : option string) w w' : Prop :=
  ∃ claims presented r t, c_claims c = Some claims ∧ body = Some presented ∧
    r ∈ backup_codes (enrolled w) ∧ BUserID r = Subject claims ∧ BUsed r = false ∧
    CodeHash r = HMACSign presented (hmacKey h) ∧ clock w ≤ t ∧
    BackupMarkUsed t (BID r) (enrolled w) = (true, enrolled w').

Lemma backup_verify_ok h c body w :
  wp any (BackupVerify h c body) (λ a w', ∀ x, a = Replied x → spends_code h c body w w') w.
Proof.
  unfold BackupVerify. destruct (c_claims c) as [claims|] eqn:Ecl; [|by cbn].
  apply wp_bind, wp_factors; [apply locked_over|]. intros [] w1 [E1 C1]; [by cbn|].
  case_decide as Hb; [by cbn|]. destruct body as [presented|]; [|done].
  change (default "" (Some presented)) with presented in *.
  apply wp_bind. intros ch _. cbn [wp call perform]. unfold on_factors.
  destruct (c_db ch); cbn [faulty fst snd]; [|by cbn..].
  set (w2 := set_enrolled _ _). assert (E2 : enrolled w2 = enrolled w) by (by rewrite <-E1).
  assert (C2 : clock w ≤ clock w2) by (cbn; lia).
  change (enrolled (tick ch w1)) with (enrolled w1). rewrite E1.
  case_decide as Hm.
  { apply wp_bind. eapply wp_mono; [|apply (wp_clock any _ w2)]. by cbn. }
  destruct (matched_id_spec h presented (ListUnusedByUser (Subject claims) (enrolled w))) as [?|(r & Hr & Hi & Hv)]; [done|].
  apply unused_listed in Hr as (Hr & Hu & Hf). rewrite <-Hi.
  apply wp_bind. intros ch2 _. cbn [wp call perform]. unfold on_factors.
  destruct (BackupMarkUsed (clock (tick ch2 w2)) (BID r) (enrolled (tick ch2 w2))) as [b f'] eqn:Eb.
  change (enrolled (tick ch2 w2)) with (enrolled w2) in Eb. rewrite E2 in Eb.
  destruct (c_db ch2); cbn [faulty fst snd]; [|by cbn..]. destruct b; [|by cbn].
  apply wp_factors; [apply verified_over|]. intros a w' [E3 C3] x ->. unfold spends_code. rewrite E3.
  exists claims, presented, r, (clock (tick ch2 w2)). split_and!; try done.
  - unfold HMACVerify in Hv. rewrite SecureCompare_eq in Hv. symmetry. by apply bool_decide_eq_true in Hv.
  - cbn in *. lia.
Qed.

(** A backup code is accepted only where it was issued, and once: when
    Verify accepts a code, under any faults, an unused row of the caller's own
    account held its digest and exactly that row was marked used; presenting
    the code again is accepted only if another unused row of the account holds
    the same digest. *)
Theorem backup_code_accepted_once h c body w o x :
  let first := run (BackupVerify h c body) o w in
  first.1 = Replied x →
  spends_code h c body w first.2 ∧
  ∀ c' w2 o' y, c_claims c' = c_claims c → enrolled w2 = enrolled first.2 →
    (run (BackupVerify h c' body) o' w2).1 = Replied y →
    ∃ r r', r ∈ backup_codes (enrolled w) ∧ r' ∈ backup_codes (enrolled w) ∧ BID r ≠ BID r' ∧
      CodeHash r = CodeHash r' ∧ BUserID r = BUserID r' ∧ BUsed r = false ∧ BUsed r' = false.
Proof.
  intros first Hx. pose proof (wp_run any _ _ w o (λ _, I) (backup_verify_ok h c body w) x Hx) as Hs.
  split; [exact Hs|]. intros c' w2 o' y Hc E2 Hy.
  pose proof (wp_run any _ _ w2 o' (λ _, I) (backup_verify_ok h c' body w2) y Hy) as Hs'.
  destruct Hs as (cl & p & r & t & Hcl & -> & Hr & Hu & Hf & Hh & _ & Em).
  destruct Hs' as (cl' & p' & r' & t' & Hcl' & [= <-] & Hr' & Hu' & Hf' & Hh' & _ & Em').
  fold first in Em. rewrite E2 in Hr'. injection Em as _ Em. rewrite <-Em in Hr'. cbn in Hr'.
  apply list_elem_of_fmap in Hr' as (r0 & E0 & Hr0).
  destruct (decide (unspent (BID r) r0)) as [Hs|Hs]; [subst r'; done|]. subst r0.
  exists r, r'. split_and!; try done; [|congruence..]. intros E. apply Hs. by split.
Qed.
(** ** Regeneration *)
Lemma draw_codes_ok h u now n w :
  wp any (draw_codes h u now n)
    (λ r w', ∀ l, r = Some l → length l = n ∧
       Forall (λ p, BUserID p.2 = u ∧ CodeHash p.2 = HMACSign p.1 (hmacKey h)) l) w.
Proof.
  revert w. induction n as [|n IH]; intros w; cbn [draw_codes]; [intros l [= <-]; by split|].
  apply wp_bind. intros ch _. cbn [wp call]. destruct (perform ch SRandom w).1 as [b|e]; [|by cbn].
  apply wp_bind. intros ch2 _. cbn [wp call]. destruct (perform ch2 SRandom _).1 as [id|e]; [|by cbn].
  apply wp_bind. eapply wp_mono; [|apply IH]. intros [l|] w' Hl; cbn; [|done]. intros l' [= <-].
  destruct (Hl l eq_refl) as [Hn Hf]. split; [by cbn; rewrite Hn|]. constructor; [done|exact Hf].
Qed.
Lemma draw_codes_over h u now n : over keeps_factors (draw_codes h u now n).
Proof.
  induction n as [|n IH]; [done|]. cbn [draw_codes]. apply over_bind; [by split|intros [b|]; [|done]].
  apply over_bind; [by split|intros [i|]; [|done]]. apply over_bind; [exact IH|by intros [?|]].
Qed.

(** The account's usable codes, right after [codes] were issued. *)
Definition only_codes (h : FactorHandler) (u : string) (codes : list string) (f : Factors) : Prop :=
  (∀ r, r ∈ ListUnusedByUser u f → ∃ p, p ∈ codes ∧ CodeHash r = HMACSign p (hmacKey h)) ∧
  (∀ p, p ∈ codes → ∃ r, r ∈ ListUnusedByUser u f ∧ CodeHash r = HMACSign p (hmacKey h)).

Lemma issued_only h u now l f f' :
  Forall (λ p, BUserID p.2 = u ∧ CodeHash p.2 = HMACSign p.1 (hmacKey h)) l →
  CreateBatch (snd <$> l) (InvalidateAllForUser now u f) = (Ok tt, f') → only_codes h u (fst <$> l) f'.
Proof.
  intros Hl. unfold CreateBatch. destruct (insert_codes _ _) as [rows|] eqn:E; [|done]. intros [= <-].
  apply insert_codes_rows in E as ->. rewrite Forall_forall in Hl. split.
  - intros r (Hr & Hu & Hf)%unused_listed. cbn in Hr. apply elem_of_app in Hr as [Hr|Hr].
    + exfalso. apply list_elem_of_fmap in Hr as (r0 & -> & _). destruct (decide _) as [|Hn]; [done|]. by apply Hn.
    + apply list_elem_of_fmap in Hr as (d & -> & Hd). apply list_elem_of_fmap in Hd as (p & -> & Hp).
      exists p.1. split; [by apply list_elem_of_fmap_2|]. cbn. by apply Hl.
  - intros p (q & -> & Hq)%list_elem_of_fmap. destruct (Hl q Hq) as [Hu Hh].
    exists (mkBackupCode (BID q.2) (BUserID q.2) (CodeHash q.2) false None (BCreatedAt q.2)).
    split; [|done]. apply unused_listed. split_and!; [cbn|done|done]. apply elem_of_app. right.
    apply list_elem_of_fmap. exists q.2. split; [done|]. by apply list_elem_of_fmap_2.
Qed.

(** Every refresh token of the account is revoked. *)
Definition all_revoked (u : string) w : Prop := ∀ r, r ∈ tokens (db w) → user_id r = u → revoked r = true.

Lemma revoke_ok h u w :
  wp any (revokeSessionsAfterFactorChange h u)
    (λ r w', enrolled w' = enrolled w ∧ (r = Ok tt → is_Some (authSvc h) → all_revoked u w')) w.
Proof.
  unfold revokeSessionsAfterFactorChange. destruct (authSvc h); [|cbn; split; [done|]; intros _ [? ?]; done].
  cbn. intros ch _. unfold on_db. destruct (c_db ch); cbn; split; try done.
  intros _ _ r Hr Hu. exact (RevokeAll_rows u (db w) r Hr Hu).
Qed.
(** The last two steps of the handlers that change a factor. *)
Lemma revoke_reply {A} h u (x : A) w :
  wp any (bind (revokeSessionsAfterFactorChange h u)
            (λ r, Ret (match r with Err _ => Refused 500 "internal_error" | Ok _ => Replied x end)))
    (λ a w', ∀ y, a = Replied y → y = x ∧ enrolled w' = enrolled w ∧ (is_Some (authSvc h) → all_revoked u w')) w.
Proof.
  apply wp_bind. eapply wp_mono; [|apply revoke_ok]. intros [[]|e] w' [He Hr]; cbn; [|done].
  intros y [= <-]. split_and!; auto.
Qed.
Lemma log_over h c ev u d : over keeps_factors (logEvent h c ev u d).
Proof. unfold logEvent. walk. Qed.

Lemma generate_ok h c w :
  wp any (BackupGenerate h c)
    (λ a w', ∀ codes, a = Replied codes → ∃ claims, c_claims c = Some claims ∧
       length codes = backupCodeCount ∧ only_codes h (Subject claims) codes (enrolled w') ∧
       (is_Some (authSvc h) → all_revoked (Subject claims) w')) w.
Proof.
  unfold BackupGenerate. destruct (c_claims c) as [claims|] eqn:Ecl; [|by cbn].
  apply wp_bind. intros ch _. cbn [wp call perform]. unfold on_factors.
  destruct (c_db ch); cbn [faulty fst snd]; [|by cbn..]. set (w1 := set_enrolled _ _).
  apply wp_bind, wp_factors; [by split|]. intros now w2 [E2 _].
  apply wp_bind. pose proof (draw_codes_ok h (Subject claims) now backupCodeCount w2) as Hd1.
  pose proof (wp_factors any _ (λ _ w', factors_kept w2 w') w2 (draw_codes_over h (Subject claims) now backupCodeCount)
    ltac:(auto)) as Hd2.
  eapply wp_mono; [|exact (wp_and _ _ _ _ _ Hd1 Hd2)]. cbn beta. intros [l|] w3 [Hl [E3 _]]; [|by cbn].
  destruct (Hl l eq_refl) as [Hn Hf]. apply wp_bind. intros ch2 _. cbn [wp call perform]. unfold on_factors.
  change (enrolled (tick ch2 w3)) with (enrolled w3). rewrite E3, E2.
  destruct (CreateBatch (snd <$> l) (enrolled w1)) as [[[]|e] f'] eqn:Eb;
    destruct (c_db ch2); cbn [faulty fst snd]; [|by cbn..].
  apply wp_bind, wp_factors; [apply log_over|]. intros _ w4 [E4 _].
  eapply wp_mono; [|apply revoke_reply]. intros a w5 Ha codes ->. destruct (Ha codes eq_refl) as (-> & E5 & Hr).
  exists claims. split; [done|]. split; [rewrite length_fmap; exact Hn|]. split; [|exact Hr].
  rewrite E5, E4. exact (issued_only h _ (clock (tick ch w)) l (enrolled w) f' Hf Eb).
Qed.

(** Regenerating backup codes replaces the whole set: when Generate
    answers, under any faults, it hands out ten codes, every unused row of the
    account holds the digest of one of them and each of them has such a row
    (every code issued before is dead), and all sessions of the account are
    revoked. *)
Theorem regeneration_replaces_codes h c o w codes :
  (run (BackupGenerate h c) o w).1 = Replied codes →
  let w' := (run (BackupGenerate h c) o w).2 in
  ∃ claims, c_claims c = Some claims ∧ length codes = backupCodeCount ∧
    only_codes h (Subject claims) codes (enrolled w') ∧
    (is_Some (authSvc h) → all_revoked (Subject claims) w').
Proof. intros Hx w'. exact (wp_run any _ _ w o (λ _, I) (generate_ok h c w) codes Hx). Qed.

End factors.

(** ** TOTP codes *)
Section totp_single_use.
Context `{Primitives} `{AEAD} `{HMACSHA1}.
#[local] Abbreviation W := (World Memory.MemoryCache).
#[local] Abbreviation entry k w := (Memory.data (cch w) !! k).
Implicit Types w : W.

Lemma locked_spares k h u ip : over (spares k) (factor_locked h u ip).
Proof.
  unfold factor_locked, MFAVerifyLocked, isAccountLocked, lockedByStoredCount, lockoutCountersUnwritable,
    lockoutGeneration, cachedCount. walk.
Qed.
Lemma completion_spares k s c u f ip jti m :
  k ≠ challenge_key jti → (∀ g, k ≠ sourceLockoutKey u ip g) →
  over (spares k) (CompleteMFALogin s c u f ip jti m).
Proof.
  intros Hk Hl. unfold CompleteMFALogin.
  apply over_bind; [unfold consume_challenge; walk; by apply negb_true_iff, bool_decide_eq_false|intros [[]|]; [|done]].
  apply over_bind; [unfold clearLockout, lockoutGeneration, cachedCount; walk; apply negb_true_iff, bool_decide_eq_false; by intros <-; eapply Hl|intros _].
  apply over_bind; [apply limit_spares|intros [[]|]; [|done]].
  apply over_bind; [apply device_spares|intros dev]. apply over_bind; [by split|intros [[user|]|]; try done].
  apply over_bind; [by split|intros now]. case_match; [done|].
  apply over_bind; [apply roles_spares|intros roles]. apply over_bind; [apply session_spares|intros [pr|]; [|done]].
  apply done_spares.
Qed.
Lemma used_key_apart u step u' ip g jti :
  totp_used_key u step ≠ challenge_key jti ∧ totp_used_key u step ≠ sourceLockoutKey u' ip g.
Proof.
  unfold totp_used_key, challenge_key, sourceLockoutKey. split; [done|]. by case_match.
Qed.
Lemma verified_spares u step h c claims m : over (spares (totp_used_key u step)) (factor_verified h c claims m).
Proof.
  unfold factor_verified, completeMFAIfChallenge, ChallengeFingerprintMatches, logEvent.
  apply over_bind; [walk|intros _]. apply over_bind; [|by intros [?|]].
  destruct (negb _); [done|]. destruct (authSvc h) as [s|]; [|done].
  apply over_bind; [walk|intros ok]. destruct (negb ok); [done|].
  apply over_bind; [|intros r; repeat case_match; done].
  apply completion_spares; [eapply (used_key_apart u step "" "" 0)|intros g; eapply (used_key_apart u step _ _ _ "")].
Qed.

(** The secret of an account, as the handler opens it. *)
Definition totp_secret (h : FactorHandler) (u : string) (f : Factors) : option string :=
  t ← TOTPGetByUserID u f; e ← hex_decode (SecretEnc t); Decrypt e (masterKey h) u.

(** An accepted code: valid at [t] for [step] of the account's own secret,
    reserved at [n], by nobody before, for ninety seconds from then. *)
Definition redeems (h : FactorHandler) (claims : VaultClaims) (presented : string) (step t n : Z) w w' : Prop :=
  (∃ secret, totp_secret h (Subject claims) (enrolled w) = Some secret ∧
     ValidateTOTPCode secret presented t = Ok step) ∧ 0 ≤ step ∧
  clock w ≤ t ≤ n ∧ n ≤ clock w' ∧
  marked_until (totp_used_key (Subject claims) step) (n + totp_used_ttl) w' ∧
  (∀ T, marked_until (totp_used_key (Subject claims) step) T w → T ≤ n).

Lemma reserve_marks k w ch :
  let r := perform ch (SSetIfNotExists k "1" totp_used_ttl) w in
  r.1 = Ok true → marked_until k (clock r.2 + totp_used_ttl) r.2 ∧ ∀ T, marked_until k T w → T ≤ clock r.2.
Proof.
  cbn [perform]. unfold on_cache. cbn [Cache.SetIfNotExists memory_cache]. unfold Memory.MSetIfNotExists.
  set (w1 := tick ch w). change (cch w1) with (cch w).
  assert (Hold : ∀ T, (match entry k w with Some e => Memory.fresh (clock w1) e | None => false end) = false →
    marked_until k T w → T ≤ clock w1).
  { intros T Hf (e & t' & He & Ht & Hle). rewrite He in Hf. unfold Memory.fresh in Hf. rewrite Ht in Hf.
    apply Z.ltb_ge in Hf. lia. }
  destruct (match entry k w with Some e => _ | None => _ end) eqn:Ef; [by destruct (c_cache ch)|].
  destruct (Memory.may_admit _ _) as [[] m'] eqn:Ea; [|by destruct (c_cache ch)].
  destruct (c_cache ch); cbn [faulty fst snd]; [|done|done]. intros _. split; [|by intros T; apply Hold].
  eexists _, _. split_and!; [apply lookup_insert_eq|done|]. cbn. lia.
Qed.

Lemma totp_accept_ok h c claims totp step w :
  wp any (totp_accept h c claims totp step)
    (λ a w', ∀ x, a = Replied x → ∃ n, clock w ≤ n ≤ clock w' ∧
       marked_until (totp_used_key (Subject claims) step) (n + totp_used_ttl) w' ∧
       (∀ T, marked_until (totp_used_key (Subject claims) step) T w → T ≤ n)) w.
Proof.
  unfold totp_accept. apply wp_bind. intros ch _. cbn [wp call].
  set (k := totp_used_key (Subject claims) step).
  pose proof (reserve_marks k w ch) as Hm. cbn zeta in Hm.
  pose proof (perform_clock ch (SSetIfNotExists k "1" totp_used_ttl) w) as Hc.
  destruct (perform ch (SSetIfNotExists k "1" totp_used_ttl) w) as [r w1]. cbn [fst snd] in *.
  destruct r as [[]|]; [|by cbn..]. destruct (Hm eq_refl) as [Hk Hold].
  assert (Hover : over (spares k) (bind (if Verified totp then Ret tt
       else call (STotpMarkVerified (SID totp)) ;;; logEvent h c "2fa_setup" (Subject claims) "totp:enrolled")
      (λ _, factor_verified h c claims MethodTOTP))).
  { apply over_bind; [unfold logEvent; walk|intros _; apply verified_spares]. }
  pose proof (wp_spares k any _ (λ (_ : answer verified) (w' : W), entry k w' = entry k w1) w1 Hover (λ _ _ Hx, Hx)) as Hs.
  eapply wp_mono; [|exact (wp_and _ _ _ _ _ Hs (wp_clock any _ w1))]. cbn beta.
  intros a w' [He Hle] x ->. exists (clock w1). split_and!; [lia|lia| |done]. unfold marked_until in *. by rewrite He.
Qed.

Lemma wp_forall {I} P {A} (p : prog A) (Q : I → A → W → Prop) w :
  (∀ i, wp P p (Q i) w) → wp P p (λ a w', ∀ i, Q i a w') w.
Proof. revert w. induction p as [a|B s k IH]; intros w Hq; cbn in *; [done|]. intros ch Hch. apply IH. intros i. by apply Hq. Qed.

Lemma marked_same k T w w' : entry k w' = entry k w → marked_until k T w → marked_until k T w'.
Proof. unfold marked_until. by intros ->. Qed.

Lemma totp_verify_ok h c body w :
  wp any (TOTPVerify h c body)
    (λ a w', ∀ x, a = Replied x → ∃ claims presented step t n, c_claims c = Some claims ∧ body = Some presented ∧
       redeems h claims presented step t n w w') w.
Proof.
  unfold TOTPVerify. destruct (c_claims c) as [claims|] eqn:Ecl; [|by cbn]. apply wp_bind.
  pose proof (wp_factors any _ (λ _ w', factors_kept w w') w (locked_over h (Subject claims) (c_ip c)) (λ _ _ Hx, Hx)) as Hf.
  pose proof (wp_forall any _ (λ k _ w', entry k w' = entry k w) w
    (λ k, wp_spares k any _ _ w (locked_spares k h (Subject claims) (c_ip c)) (λ _ _ Hx, Hx))) as Hs.
  eapply wp_mono; [|exact (wp_and _ _ _ _ _ Hf Hs)]. cbn beta. clear Hf Hs.
  intros [] w1 [[E1 C1] K1]; [by cbn|]. destruct body as [presented|]; [|by cbn].
  destruct (negb _); [by cbn|]. apply wp_bind. intros ch _. cbn [wp call perform]. unfold on_factors.
  destruct (c_db ch); cbn [faulty fst snd]; [|by cbn..]. set (w2 := set_enrolled _ _).
  change (enrolled (tick ch w1)) with (enrolled w1). rewrite E1.
  destruct (TOTPGetByUserID (Subject claims) (enrolled w)) as [totp|] eqn:Et; [|by cbn].
  destruct (hex_decode (SecretEnc totp) ≫= _) as [secret|] eqn:Ee; [|by cbn].
  apply wp_bind. intros ch2 _. cbn [wp call perform]. set (w3 := tick ch2 w2).
  assert (C3 : clock w ≤ clock w3) by (cbn; lia).
  cbv beta zeta. cbn [fst snd].
  set (step := match ValidateTOTPCode secret presented (clock w3) with Ok k => k | Err _ => -1 end).
  destruct (step <? 0) eqn:E0; [apply wp_bind; eapply wp_mono; [|apply (wp_clock any _ w3)]; by cbn|].
  apply Z.ltb_ge in E0. assert (Ev : ValidateTOTPCode secret presented (clock w3) = Ok step).
  { unfold step in *. by destruct (ValidateTOTPCode _ _ _). }
  eapply wp_mono; [|apply totp_accept_ok]. intros a w' Ha x ->. destruct (Ha x eq_refl) as (n & Hn & Hm & Hold).
  exists claims, presented, step, (clock w3), n. split_and!; [done|done|].
  split_and!; [|done|done|lia|lia|done|].
  - exists secret. split; [|done]. unfold totp_secret. rewrite Et. exact Ee.
  - intros T HT. apply Hold. eapply marked_same; [|exact HT]. apply K1.
Qed.

(** C19. A TOTP code is redeemed once.  A code Verify accepts is the HOTP value,
    under the caller's own secret, of a 30-second step within one of the clock,
    and reserves that step.  If the same code is accepted again later, then it
    is also the value of a different step, or the second request stalled
    between checking the code and reserving it, for longer than the first
    reservation was made after its step became acceptable: with the
    reservation lasting exactly as long as the window, no slack is left. *)
Theorem totp_step_redeemed_once h c c' presented w o x w2 o' y claims :
  c_claims c = Some claims → c_claims c' = Some claims → 0 ≤ clock w →
  let first := run (TOTPVerify h c (Some presented)) o w in
  first.1 = Replied x →
  (∀ k, entry k w2 = entry k first.2) → clock first.2 ≤ clock w2 →
  let again := run (TOTPVerify h c' (Some presented)) o' w2 in
  again.1 = Replied y →
  ∃ s1 t1 n1 s2 t2 n2,
    redeems h claims presented s1 t1 n1 w first.2 ∧ Z.abs (s1 - Unix t1 / totpPeriod) ≤ totpSkew ∧
    redeems h claims presented s2 t2 n2 w2 again.2 ∧ Z.abs (s2 - Unix t2 / totpPeriod) ≤ totpSkew ∧
    (s1 = s2 → n1 - (s1 - 1) * totpPeriod * second < n2 - t2 ∧ 0 ≤ n1 - (s1 - 1) * totpPeriod * second).
Proof.
  intros Hc Hc' H0w first Hx Hent Hclk again Hy.
  destruct (wp_run any _ _ w o (λ _, I) (totp_verify_ok h c _ w) x Hx) as (cl1 & p1 & s1 & t1 & n1 & Ec1 & Ep1 & R1).
  destruct (wp_run any _ _ w2 o' (λ _, I) (totp_verify_ok h c' _ w2) y Hy) as (cl2 & p2 & s2 & t2 & n2 & Ec2 & Ep2 & R2).
  rewrite Hc in Ec1. rewrite Hc' in Ec2. simplify_eq. fold first in R1. fold again in R2.
  pose proof R1 as ((sec1 & _ & Ev1) & Hs1 & Hn1 & Hw1 & Hm1 & _).
  pose proof R2 as ((sec2 & _ & Ev2) & Hs2 & Hn2 & _ & _ & Hold).
  pose proof (validate_window sec1 _ t1 s1 ltac:(lia) Ev1 Hs1) as W1.
  pose proof (validate_window sec2 _ t2 s2 ltac:(lia) Ev2 Hs2) as W2.
  exists s1, t1, n1, s2, t2, n2. do 4 (split; [done|]). intros <-.
  specialize (Hold (n1 + totp_used_ttl) (marked_same _ _ _ _ (Hent _) Hm1)).
  apply window_instants in W1, W2. unfold totp_used_ttl, totpPeriod, second in *. lia.
Qed.
End totp_single_use.

(** ** Enrolling and removing *)
Section enrolment.
Context {C : Type} `{CacheOps C} `{Primitives} `{AEAD} `{HMACSHA1}.
Implicit Types w : World C.

Lemma seal_over pt key aad : over keeps_factors (seal_secret pt key aad).
Proof. unfold seal_secret. walk. Qed.

(** A secret the account already verified. *)
Definition guards (u : string) (f : Factors) : Prop := ∃ t, TOTPGetByUserID u f = Some t ∧ Verified t = true.

Lemma create_taken t f : is_Some (totp_secrets f !! SUserID t) → TOTPCreate t f = (Err ErrUnique, f).
Proof. intros Ht. unfold TOTPCreate. by rewrite bool_decide_eq_true_2. Qed.

Lemma enrol_ok h u w :
  wp any (totp_enrol h u)
    (λ a w', (guards u (enrolled w) → enrolled w' = enrolled w ∧ ∀ x, a ≠ Replied x) ∧
       (∀ x, a = Replied x → is_Some (authSvc h) → all_revoked u w')) w.
Proof.
  unfold totp_enrol. apply wp_bind, wp_factors; [by split|]. intros [b|e] w1 [E1 _]; [|by cbn; split].
  cbv zeta. apply wp_bind, wp_factors; [apply seal_over|]. intros [enc|] w2 [E2 _]; [|cbn; split; [|done]; intros _; split; [congruence|done]].
  apply wp_bind, wp_factors; [by split|]. intros [i|e] w3 [E3 _]; [|cbn; split; [|done]; intros _; split; [congruence|done]].
  apply wp_bind, wp_factors; [by split|]. intros now w4 [E4 _].
  apply wp_bind. intros ch _. cbn [wp call perform]. unfold on_factors.
  change (enrolled (tick ch w4)) with (enrolled w4). replace (enrolled w4) with (enrolled w) by congruence.
  destruct (TOTPCreate _ (enrolled w)) as [r f'] eqn:Ec.
  assert (Hg : guards u (enrolled w) → r = Err ErrUnique ∧ f' = enrolled w).
  { intros (t & Ht & _). rewrite create_taken in Ec; [by simplify_eq|]. by exists t. }
  assert (Hw4 : enrolled (tick ch w4) = enrolled w) by (cbn; congruence).
  destruct (c_db ch); cbn [faulty fst snd].
  - destruct r as [[]|e]; [|cbn; split; [|done]; intros [_ ->]%Hg; done].
    eapply wp_mono; [|apply revoke_reply]. intros a w5 Ha. split; [intros [? _]%Hg; done|].
    intros x ->. by apply (Ha x).
  - cbn [wp]. split; [|done]. intros _. by split.
  - cbn [wp]. split; [|done]. intros [_ ->]%Hg. by split.
Qed.

Lemma setup_ok h c w claims : c_claims c = Some claims →
  wp any (TOTPSetup h c)
    (λ a w', (guards (Subject claims) (enrolled w) → enrolled w' = enrolled w ∧ ∀ x, a ≠ Replied x) ∧
       (∀ x, a = Replied x → is_Some (authSvc h) → all_revoked (Subject claims) w')) w.
Proof.
  intros Hc. unfold TOTPSetup. rewrite Hc. apply wp_bind. intros ch _. cbn [wp call perform]. unfold on_factors.
  set (w1 := (faulty _ _ _ _).2).
  assert (E1 : enrolled w1 = enrolled w) by (unfold w1; by destruct (c_db ch)).
  assert (Hnone : wp any (Ret tt ;;; totp_enrol h (Subject claims))
    (λ a w', (guards (Subject claims) (enrolled w) → enrolled w' = enrolled w ∧ ∀ x, a ≠ Replied x) ∧
       (∀ x, a = Replied x → is_Some (authSvc h) → all_revoked (Subject claims) w')) w1).
  { cbn [bind]. rewrite <-E1. apply enrol_ok. }
  destruct (c_db ch); cbn [faulty fst snd]; [|exact Hnone..].
  change (enrolled (tick ch w)) with (enrolled w). cbv zeta.
  destruct (TOTPGetByUserID (Subject claims) (enrolled w)) as [t|] eqn:Et; [|exact Hnone].
  destruct (Verified t) eqn:Ev; [cbn; by split|].
  assert (Hn : ¬ guards (Subject claims) (enrolled w)) by (intros (t' & ? & ?); congruence).
  apply wp_bind. eapply wp_mono; [|apply (wp_clock any _ w1)]. intros _ w2 _.
  eapply wp_mono; [|apply enrol_ok]. intros a w3 [_ Ha]. by split.
Qed.

Lemma disable_ok h c w claims : c_claims c = Some claims →
  wp any (TOTPDisable h c)
    (λ a w', ∀ x, a = Replied x → TOTPGetByUserID (Subject claims) (enrolled w') = None ∧
       (is_Some (authSvc h) → all_revoked (Subject claims) w')) w.
Proof.
  intros Hc. unfold TOTPDisable. rewrite Hc. apply wp_bind. intros ch _. cbn [wp call perform]. unfold on_factors.
  destruct (c_db ch); cbn [faulty fst snd]; [|by cbn..].
  destruct (TOTPGetByUserID _ _); [|by cbn]. apply wp_bind. intros ch2 _. cbn [wp call perform]. unfold on_factors.
  destruct (c_db ch2); cbn [faulty fst snd]; [|by cbn..]. set (w1 := set_enrolled _ _).
  apply wp_bind, wp_factors; [apply log_over|]. intros _ w2 [E2 _].
  eapply wp_mono; [|apply revoke_reply]. intros a w3 Ha x ->. destruct (Ha x eq_refl) as (_ & E3 & Hr).
  split; [|done]. rewrite E3, E2. apply lookup_delete_eq.
Qed.

(** Changing a factor is guarded and ends every session: whatever fails, a
    setup leaves a verified TOTP secret in place and is refused; a setup or a
    removal that answers has revoked every refresh token of the account, and a
    removal has deleted the secret. *)
Theorem factor_change_ends_sessions h c claims :
  c_claims c = Some claims → is_Some (authSvc h) →
  (∀ w o, guards (Subject claims) (enrolled w) →
     enrolled (run (TOTPSetup h c) o w).2 = enrolled w ∧ ∀ x, (run (TOTPSetup h c) o w).1 ≠ Replied x) ∧
  (∀ w o x, (run (TOTPSetup h c) o w).1 = Replied x → all_revoked (Subject claims) (run (TOTPSetup h c) o w).2) ∧
  (∀ w o x, (run (TOTPDisable h c) o w).1 = Replied x →
     TOTPGetByUserID (Subject claims) (enrolled (run (TOTPDisable h c) o w).2) = None ∧
     all_revoked (Subject claims) (run (TOTPDisable h c) o w).2).
Proof.
  intros Hc Hs. split_and!.
  - intros w o. apply (wp_run any _ _ w o (λ _, I) (setup_ok h c w claims Hc)).
  - intros w o x Hx. by apply (wp_run any _ _ w o (λ _, I) (setup_ok h c w claims Hc)) in Hx.
  - intros w o x Hx. destruct (wp_run any _ _ w o (λ _, I) (disable_ok h c w claims Hc) x Hx). auto.
Qed.
End enrolment.

(** ** Instances *)
Module FactorDemo.
#[local] Existing Instance Toy.prims.
#[local] Instance aead : AEAD := ToyEscrow.aead.
(** Every step has the same code. *)
#[local] Instance hmac : HMACSHA1 := { hmac_sha1 _ _ := zeros 20 }.

Definition mk : string := "0123456789abcdef0123456789abcdef".
Definition h : FactorHandler := mkFactorHandler (Some LoginDemo.svc) true mk "hk".
Definition claims : VaultClaims :=
  mkClaims "" [] "alice" None None None "j" [] [] "" "" None "Bearer" "" [] 0 [] "" "".
Definition alice : Caller := mkCaller (Some claims) "10.0.0.1" "fp" (mkCtx "" "").
Definition row (i : string) : BackupCode := mkBackupCode i "alice" (HMACSign i "hk") false None 0.
Definition secret : TOTPSecret :=
  mkTOTPSecret "s1" "alice" (hex_encode ("nonce0123456" +:+ ToyEscrow.wrap "alice" (b32_encode "12345678901234567890"))) true 0.
Definition tables : Factors := mkFactors {["alice" := secret]} ∅ [row "a"; row "b"].
Definition world : World Memory.MemoryCache := set_enrolled tables Toy.world.
Definition fresh : World Memory.MemoryCache := set_enrolled (with_totp ∅ tables) Toy.world.

Lemma backup_code_spent_once_witness :
  wins "a" [FMarkUsed 1 "a"; FInvalidate 2 "bob"; FMarkUsed 3 "a"] tables = 1%nat ∧
  (wins "a" [FMarkUsed 1 "a"; FInvalidate 2 "bob"; FMarkUsed 3 "a"] tables ≤ 1)%nat.
Proof. split; [by vm_compute|]. apply backup_code_spent_once. by repeat constructor. Defined.

Lemma backup_code_accepted_once_witness :
  let first := run (BackupVerify h alice (Some "a")) Toy.oracle world in
  first.1 = Replied VerifiedResponse ∧ spends_code h alice (Some "a") world first.2.
Proof.
  cbv zeta. assert (E : (run (BackupVerify h alice (Some "a")) Toy.oracle world).1 = Replied VerifiedResponse) by by vm_compute.
  split; [exact E|]. exact (proj1 (backup_code_accepted_once h alice (Some "a") world Toy.oracle VerifiedResponse E)).
Defined.

Lemma regeneration_replaces_codes_witness : ∃ codes,
  (run (BackupGenerate h alice) Toy.oracle world).1 = Replied codes ∧
  only_codes h "alice" codes (enrolled (run (BackupGenerate h alice) Toy.oracle world).2) ∧ length codes = 10%nat.
Proof.
  destruct (run (BackupGenerate h alice) Toy.oracle world).1 as [st m|codes] eqn:E; [by vm_compute in E|].
  exists codes. split; [done|].
  destruct (regeneration_replaces_codes h alice Toy.oracle world codes E) as (cl & Hc & Hn & Ho & _).
  change (c_claims alice) with (Some claims) in Hc. injection Hc as <-. by split.
Defined.

Lemma factor_change_ends_sessions_witness :
  (∀ x, (run (TOTPSetup h alice) Toy.oracle world).1 ≠ Replied x) ∧
  (∃ x, (run (TOTPSetup h alice) Toy.oracle fresh).1 = Replied x) ∧
  all_revoked "alice" (run (TOTPDisable h alice) Toy.oracle world).2.
Proof.
  destruct (factor_change_ends_sessions (C := Memory.MemoryCache) h alice claims eq_refl) as (H1 & _ & H3); [by eexists|]. split_and!.
  - apply (H1 world Toy.oracle). by exists secret.
  - destruct (run (TOTPSetup h alice) Toy.oracle fresh).1 as [st m|x] eqn:E; [by vm_compute in E|by exists x].
  - apply (H3 world Toy.oracle tt). by vm_compute.
Defined.

Definition wait (d : Z) (w : World Memory.MemoryCache) : World Memory.MemoryCache := set_clock (clock w + d) w.
Lemma wait_entry d w k : Memory.data (cch (wait d w)) !! k = Memory.data (cch w) !! k.
Proof. done. Qed.
Lemma wait_clock d w : 0 ≤ d → clock w ≤ clock (wait d w).
Proof. cbn. lia. Qed.
Definition later : World Memory.MemoryCache :=
  wait (200 * second) (run (TOTPVerify h alice (Some "464432")) Toy.oracle world).2.
Lemma totp_step_redeemed_once_witness : ∃ s1 s2 t1 t2 n1 n2,
  redeems h claims "464432" s1 t1 n1 world (run (TOTPVerify h alice (Some "464432")) Toy.oracle world).2 ∧
  redeems h claims "464432" s2 t2 n2 later (run (TOTPVerify h alice (Some "464432")) Toy.oracle later).2 ∧
  Z.abs (s1 - Unix t1 / totpPeriod) ≤ totpSkew.
Proof.
  assert (E1 : (run (TOTPVerify h alice (Some "464432")) Toy.oracle world).1 = Replied VerifiedResponse) by by vm_compute.
  assert (E2 : (run (TOTPVerify h alice (Some "464432")) Toy.oracle later).1 = Replied VerifiedResponse) by by vm_compute.
  assert (Hk : ∀ k, Memory.data (cch later) !! k
    = Memory.data (cch (run (TOTPVerify h alice (Some "464432")) Toy.oracle world).2) !! k)
    by (intros k; apply wait_entry).
  assert (Hc : clock (run (TOTPVerify h alice (Some "464432")) Toy.oracle world).2 ≤ clock later)
    by (apply wait_clock; by vm_compute).
  assert (H0 : 0 ≤ clock world) by by vm_compute.
  generalize dependent later. intros w2 E2 Hk Hc.
  destruct (totp_step_redeemed_once h alice alice "464432" world Toy.oracle VerifiedResponse w2 Toy.oracle VerifiedResponse
              claims eq_refl eq_refl H0 E1 Hk Hc E2)
    as (s1 & t1 & n1 & s2 & t2 & n2 & R1 & W1 & R2 & _).
  exists s1, s2, t1, t2, n1, n2. exact (conj R1 (conj R2 W1)).
Defined.

(** Between the read of an unverified secret and its deletion, the user may
    verify it: the setup then deletes the verified secret. *)
Example setup_race_drops_verified_factor :
  let pending := set_enrolled (TOTPMarkVerified "s0" (mkFactors {["alice" := mkTOTPSecret "s1" "alice" (SecretEnc secret) false 0]} ∅ [])) Toy.world in
  let '(rest, w1) := thread_step (TOTPSetup h alice) (Toy.oracle 0) pending in
  let w2 := (perform (Toy.oracle 1) (STotpMarkVerified "s1") w1).2 in
  guards "alice" (enrolled w2) ∧ Verified <$> TOTPGetByUserID "alice" (enrolled (run rest Toy.oracle w2).2) = Some false.
Proof. vm_compute. split; [by eexists|done]. Qed.
End FactorDemo.
