(* ===== verification/AdminFacts.v ===== *)
(** * AdminFacts: what the administrators' gateway guarantees

    Every request a permission guards was made by a live session of an
    entitled administrator; a TOTP step is accepted once; containment reaches
    the account and its sessions; the first account is created once. *)
From S2P Require Import Prelude GoStd Bytes Base64 Cache Crypto Aes Totp Argon2 NetIP ClientIP Model TokenStore TokenStoreFacts UserStore FactorStore Rbac AdminStore Effects TokenService Lockout Session Login SecondFactor Admin SessionFacts LoginFacts SecondFactorFacts.
From stdpp Require Import list.
From Stdlib Require Import Ascii Sorted.
Open Scope string_scope.
Open Scope Z_scope.
Open Scope prog_scope.

(** ** Statements that leave the accounts and the administrators alone *)
Definition keeps_tables (B : Type) (s : stmt B) : bool :=
  match s with
  | SAdmin _ | SCreate _ | SCreateWithinCap _ _ | SMarkUsed _ | SRevokeFamily _ | SRevokeAllForUser _ | SRevokeAllTokens
  | SIncrementFailedLogin _ | SResetFailedLogin _ | SSetLastLogin _ | SUsers _ | STokensDelete _ => false
  | _ => true
  end.

Section admin_facts.
Context {C : Type} `{CacheOps C} `{Primitives} `{PasswordPrims} `{AEAD} `{HMACSHA1}.
Implicit Types w : World C.

(** Neither the accounts nor the administrators' tables moved. *)
Definition unmoved w w' : Prop := admins w' = admins w ∧ db w' = db w ∧ clock w ≤ clock w'.
Lemma unmoved_refl w : unmoved w w.
Proof. by split_and!. Qed.
Lemma unmoved_trans w1 w2 w3 : unmoved w1 w2 → unmoved w2 w3 → unmoved w1 w3.
Proof. intros (?&?&?) (?&?&?). split_and!; [congruence|congruence|lia]. Qed.
Lemma same_unmoved w w' : same_stores w w' → unmoved w w'.
Proof. by intros (?&?&?&?&?&?&?&?&?&?&?). Qed.

Lemma perform_unmoved c {B} (s : stmt B) w : keeps_tables B s = true → unmoved w (perform c s w).2.
Proof.
  intros Hs. split_and!; [| |apply perform_clock];
    destruct s; cbn in Hs; try discriminate Hs; cbn [perform]; unfold on_cache, on_db, on_factors, rate_increment;
    repeat case_match; simplify_eq/=; try done; destruct (c_cache c), (c_db c); cbn in *; simplify_eq/=; done.
Qed.
Lemma wp_unmoved P {A} (p : prog A) (Q : A → World C → Prop) w :
  over keeps_tables p → (∀ a w', unmoved w w' → Q a w') → wp P p Q w.
Proof. apply (wp_over keeps_tables unmoved); [apply unmoved_refl|apply unmoved_trans|intros; by apply perform_unmoved]. Qed.

(** A statement on the tables: it is answered from them, or fails. *)
Lemma wp_admin P {B} (q : Z → AdminDB → res repoErr B * AdminDB) (Q : res repoErr B → World C → Prop) w :
  (∀ w1 t, clock w ≤ t → clock w1 = t → admins w1 = (q t (admins w)).2 →
     db w1 = db w → Q (q t (admins w)).1 w1) →
  (∀ w1, clock w ≤ clock w1 → admins w1 = admins w ∨ (∃ t, admins w1 = (q t (admins w)).2) → db w1 = db w → Q (Err ErrDB) w1) →
  wp P (call (SAdmin q)) Q w.
Proof.
  intros Hok Hbad c _. cbn [wp call perform]. set (w0 := tick c w). assert (Hc : clock w ≤ clock w0) by (cbn; lia).
  change (admins w0) with (admins w). destruct (q (clock w0) (admins w)) as [r a] eqn:E.
  destruct (c_db c); cbn [faulty fst snd].
  - specialize (Hok (set_admins a w0) (clock w0) Hc eq_refl). rewrite E in Hok. by apply Hok.
  - apply Hbad; [done|by left|done].
  - apply Hbad; [done| |done]. right. exists (clock w0). by rewrite E.
Qed.
Lemma wp_admin_read P {B} (f : AdminDB → B) (Q : res repoErr B → World C → Prop) w :
  (∀ w1 r, unmoved w w1 → r = Ok (f (admins w)) ∨ r = Err ErrDB → Q r w1) →
  wp P (call (SAdmin (λ _ d, (Ok (f d), d)))) Q w.
Proof.
  intros HQ. apply wp_admin.
  - intros w1 t Ht <- Ha Hd. apply HQ; [by split_and!|by left].
  - intros w1 Ht Ha Hd. apply HQ; [split_and!; try done; by destruct Ha as [|[]]|by right].
Qed.

(** ** Guarded routes *)
(** The session a request presented, and the administrator behind it, as the
    gate found them. *)
Definition signed_in (r : AdminRequest) w (admin : AdminUser) (session : AdminSession) : Prop :=
  ∃ token t1 t2, Authorization r = "Bearer " +:+ token ∧
    SessGetByTokenHash (hashSessionToken token) (admins w) = Some session ∧ ASRevoked session = false ∧
    clock w ≤ t1 ≤ t2 ∧ t1 ≤ ASExpiresAt session ∧
    AdminGetByID (AdminID session) (admins w) = Some admin ∧
    (∀ t, ALockedUntil admin = Some t → t ≤ t2) ∧
    (TOTPVerified admin = true ∨ isTOTPSetupPath (APath r) = true).

Lemma reject_refuses {A} r m u w (Q : answer A → World C → Prop) :
  (∀ st m w', unmoved w w' → Q (Refused st m) w') → wp any (reject r m u) Q w.
Proof. intros HQ. unfold reject, log_event. cbn. intros c _. apply HQ. split_and!; [done|done|cbn; lia]. Qed.

Lemma session_ok r (Q : answer (AdminUser * AdminSession) → World C → Prop) w :
  (∀ st m w', unmoved w w' → Q (Refused st m) w') →
  (∀ admin session w', unmoved w w' → signed_in r w admin session → Q (Replied (admin, session)) w') →
  wp any (SessionAuth r) Q w.
Proof.
  intros Href Hok. unfold SessionAuth.
  assert (Hrej : ∀ m u w', unmoved w w' → wp any (reject r m u) Q w').
  { intros m u w' Hu. apply reject_refuses. intros st m' w2 Hu2. eapply Href, unmoved_trans; [exact Hu|exact Hu2]. }
  destruct (decide _); [by apply Hrej|]. destruct (Cut 32 _) as [[scheme token]|] eqn:Ec; [|by apply Hrej].
  apply Cut_some in Ec as [Ec _]. case_bool_decide as Es; [|by apply Hrej]. subst scheme. cbn [negb].
  destruct (_ || _); [by apply Hrej|]. apply wp_bind, wp_admin_read. intros w1 s U1 [->| ->]; [|by apply Hrej].
  destruct (SessGetByTokenHash _ _) as [session|] eqn:E1; [|by apply Hrej].
  destruct (ASRevoked session) eqn:E2; [by apply Hrej|]. apply wp_bind. intros c1 _.
  destruct (same_now c1 w1) as [-> Hs%same_unmoved]. revert Hs. generalize (perform c1 SNow w1).2. intros w2 U2.
  cbn [wp call]. apply (unmoved_trans _ _ _ U1) in U2.
  destruct (Z.ltb_spec (ASExpiresAt session) (clock w2)) as [|E3]; [by apply Hrej|].
  apply wp_bind, wp_admin_read. intros w3 a U3 Ha. pose proof (unmoved_trans _ _ _ U2 U3) as U03.
  destruct Ha as [->| ->]; [|by apply Hrej]. destruct (AdminGetByID _ _) as [admin|] eqn:E4; [|by apply Hrej].
  apply wp_bind. intros c2 _.
  destruct (same_now c2 w3) as [-> Hs%same_unmoved]. revert Hs. generalize (perform c2 SNow w3).2. intros w4 U4.
  cbn [wp call]. pose proof (unmoved_trans _ _ _ U03 U4) as U04.
  destruct (match ALockedUntil admin with Some t => clock w4 <? t | None => false end) eqn:E5; [by apply Href|].
  destruct (negb (TOTPVerified admin) && _) eqn:E6; [by apply Href|]. cbn [wp].
  apply Hok; [done|]. destruct U2 as (A2&D2&C2), U3 as (A3&D3&C3), U4 as (A4&D4&C4).
  exists token, (clock w2), (clock w4). split_and!; try done; try lia.
  - by rewrite <-E4, A2.
  - intros t Ht. rewrite Ht in E5. by apply Z.ltb_ge in E5.
  - destruct (TOTPVerified admin), (isTOTPSetupPath (APath r)); cbn in E6; auto; discriminate.
Qed.

(** C12. Every guarded admin route is fenced, whatever its handler does and
    whatever fails: either the request carried the token of a stored session,
    neither revoked nor expired, of an existing administrator who is not locked,
    has a verified second factor (the two enrolment paths apart) and whose role
    carries the route's permission; or the answer is a refusal and no account,
    token, administrator, session or setting has changed. *)
Theorem admin_request_is_entitled {A} perm r (h : AdminUser → prog (answer A)) w o :
  let done := run (withPerm perm r h) o w in
  (∃ admin session, signed_in r w admin session ∧ HasPermission (ARole admin) perm = true) ∨
  ((∃ st m, done.1 = Refused st m) ∧ admins done.2 = admins w ∧ db done.2 = db w).
Proof.
  cbv zeta. apply (wp_run any _ (λ a w', (∃ admin session, signed_in r w admin session ∧ HasPermission (ARole admin) perm = true) ∨
    ((∃ st m, a = Refused st m) ∧ admins w' = admins w ∧ db w' = db w)) w o (λ _, I)).
  unfold withPerm. apply wp_bind, session_ok.
  - intros st m w' (Ha & Hd & _). right. eauto.
  - intros admin session w1 (Ha & Hd & _) Hs. apply wp_bind. unfold RBACCheck.
    destruct (HasPermission _ perm) eqn:Ep; [|by intros c _; cbn; right; eauto].
    cbn [wp]. eapply wp_mono; [|apply (wp_clock any _ w1)]. intros a w2 _. left. eauto.
Qed.

(** ** Signing in *)
Definition two_factor (admin : AdminUser) : bool :=
  TOTPVerified admin && negb (bool_decide (TOTPSecretEnc admin = "")).

(** The code names a step, within the window at [t], that the stored counter
    has not reached; the counter then holds it. *)
Definition steps_on (h : AuthHandler) (admin : AdminUser) (code : string) (t : Z) (d d' : AdminDB) : Prop :=
  ∃ secret k, decryptTOTPSecret (TOTPSecretEnc admin) (a_masterKey h) (AID admin) = Some secret ∧
    ValidateTOTPCode secret code t = Ok k ∧ 0 ≤ k ∧ UpdateLastTOTPCounter (AID admin) k d = (Ok tt, d').

Lemma login_totp_ok h admin code ip w :
  wp any (login_totp h admin code ip)
    (λ a w', a = None → clock w ≤ clock w' ∧
       (if two_factor admin then ∃ t, clock w ≤ t ≤ clock w' ∧ steps_on h admin code t (admins w) (admins w')
        else admins w' = admins w)) w.
Proof.
  assert (Hfail : ∀ w1, wp any (handleFailedLogin h admin ip ;;; Ret (Some (401, "invalid_credentials")))
    (λ a w', a = None → clock w ≤ clock w' ∧
       (if two_factor admin then ∃ t, clock w ≤ t ≤ clock w' ∧ steps_on h admin code t (admins w) (admins w')
        else admins w' = admins w)) w1).
  { intros w1. apply wp_bind. eapply wp_mono; [|apply (wp_clock any _ w1)]. by cbn. }
  unfold login_totp. cbv zeta. fold (two_factor admin). destruct (two_factor admin) eqn:Etwo; cbn [negb]; [|by cbn].
  destruct (decide _); [apply Hfail|]. destruct (decryptTOTPSecret _ _ _) as [secret|] eqn:Es; [|by cbn].
  apply wp_bind. intros c1 _. destruct (same_now c1 w) as [-> Hs%same_unmoved]. revert Hs.
  generalize (perform c1 SNow w).2. intros w1 (A1 & D1 & C1). cbn [wp call].
  set (k := match ValidateTOTPCode secret code (clock w1) with Ok k => k | Err _ => -1 end).
  destruct (Z.ltb_spec k 0) as [|Hk]; [apply Hfail|]. destruct (k <=? _); [apply Hfail|].
  assert (Hv : ValidateTOTPCode secret code (clock w1) = Ok k) by (unfold k in *; by destruct (ValidateTOTPCode _ _ _)).
  apply wp_bind, wp_admin; [|intros; apply Hfail].
  intros w2 t Ht Hc Ha Hd. destruct (UpdateLastTOTPCounter (AID admin) k (admins w1)) as [r d'] eqn:Eu.
  cbn [fst snd] in *. destruct r as [[]|]; [|apply Hfail]. cbn. intros _. split; [lia|].
  exists (clock w1). split; [lia|]. exists secret, k. by rewrite Ha, <-A1.
Qed.

Lemma open_session_ok h admin ip w :
  wp any (open_session h admin ip)
    (λ a w', ∀ token, a = Replied token →
       ∃ s, s ∈ admin_sessions (admins w') ∧ AdminID s = AID admin ∧ ASTokenHash s = hashSessionToken token ∧
         ASRevoked s = false ∧ ASExpiresAt s = ASCreatedAt s + sessionTTL h ∧ clock w ≤ ASCreatedAt s ≤ clock w') w.
Proof.
  unfold open_session. apply wp_bind, wp_unmoved; [by split|]. intros [b|] w1 (_&_&C1); [|by cbn].
  apply wp_bind, wp_unmoved; [by split|]. intros [i|] w2 (_&_&C2); [|by cbn].
  apply wp_bind. intros c1 _. destruct (same_now c1 w2) as [-> Hs%same_unmoved]. revert Hs.
  generalize (perform c1 SNow w2).2. intros w3 (_&_&C3). cbn [wp call].
  apply wp_bind, wp_admin; [|by cbn]. intros w4 t Ht Hc Ha _.
  set (s := mkAdminSession _ _ _ _ _ _ _) in *. unfold SessCreate in *. destruct (_ || _); [by cbn|]. cbn [fst snd] in *.
  assert (Hin : s ∈ admin_sessions (admins w4)) by (rewrite Ha; cbn; set_solver).
  apply wp_bind. intros c2 _. cbn [wp call perform].
  set (w5 := (faulty _ _ _ _).2). assert (H5 : admin_sessions (admins w5) = admin_sessions (admins w4) ∧ clock w4 ≤ clock w5).
  { unfold w5. destruct (c_db c2); cbn; split; try done; lia. }
  apply wp_bind, wp_unmoved; [unfold log_event; walk|]. intros _ w6 (A6&_&C6). cbn. intros token [= <-].
  exists s. split_and!; try done; cbn; [|lia..]. by rewrite A6, (proj1 H5).
Qed.

(** What a login that answered [token] found and left. *)
Definition logged_in (h : AuthHandler) (username password code token : string) w w' : Prop :=
  ∃ admin t, AdminGetByUsername username (admins w) = Some admin ∧ clock w ≤ t ≤ clock w' ∧
    (∀ l, ALockedUntil admin = Some l → l ≤ t) ∧
    argon2_verify password (APasswordHash admin) (a_pepper h) = Ok true ∧
    (two_factor admin = true → ∃ t' d', t ≤ t' ≤ clock w' ∧ steps_on h admin code t' (admins w) d') ∧
    ∃ s, s ∈ admin_sessions (admins w') ∧ AdminID s = AID admin ∧ ASTokenHash s = hashSessionToken token ∧
      ASRevoked s = false ∧ ASExpiresAt s = ASCreatedAt s + sessionTTL h ∧ t ≤ ASCreatedAt s ≤ clock w'.


(** ** Containment *)
(** The account [i], when it exists, satisfies [P]. *)
Definition account (i : string) (P : User → Prop) w : Prop := ∀ u, users (db w) !! i = Some u → P u.

Lemma wp_users P {B} (q : Z → DB → B * gmap string User) (Q : res repoErr B → World C → Prop) w :
  (∀ w1 t, clock w ≤ t → admins w1 = admins w → clock w1 = t → db w1 = with_users (q t (db w)).2 (db w) → Q (Ok (q t (db w)).1) w1) →
  (∀ w1, Q (Err ErrDB) w1) → wp P (call (SUsers q)) Q w.
Proof.
  intros Hok Hbad c _. cbn [wp call perform]. unfold on_db. set (w0 := tick c w). assert (Hc : clock w ≤ clock w0) by (cbn; lia).
  change (db w0) with (db w). destruct (q (clock w0) (db w)) as [b us] eqn:E.
  destruct (c_db c); cbn [faulty fst snd]; [|apply Hbad..].
  specialize (Hok (set_db (with_users us (db w)) w0) (clock w0) Hc eq_refl eq_refl). rewrite E in Hok. by apply Hok.
Qed.

Lemma revoke_sessions_ok has id w :
  wp any (revoke_sessions has id)
    (λ b w', users (db w') = users (db w) ∧ clock w ≤ clock w' ∧ (b = true → all_revoked id w') ∧ (b = true → has = true)) w.
Proof.
  unfold revoke_sessions. destruct has; [|by cbn]. apply wp_bind. intros c _. cbn [wp call perform]. unfold on_db.
  destruct (c_db c); cbn; split_and!; try done; try lia.
  intros _ r Hr Hu. exact (RevokeAll_rows id (db w) r Hr Hu).
Qed.

Lemma clamp_bounds d : 0 < clampLockDuration d ≤ maxLockDuration.
Proof.
  unfold clampLockDuration. destruct d as [d|]; [|done]. destruct (_ || _) eqn:E; [done|]. bool_hyps. lia.
Qed.

Lemma lock_ok has admin id d ip w :
  wp any (LockUser has admin id d ip)
    (λ a w', ∀ until b, a = Replied (until, b) →
       account id (λ u, ∀ t, t < until → holds_sessions t u = false) w' ∧
       clock w < until ≤ clock w' + maxLockDuration ∧ (b = true → all_revoked id w')) w.
Proof.
  unfold LockUser. destruct (decide _); [by cbn|]. apply wp_bind. intros c _.
  destruct (same_now c w) as [-> Hs%same_unmoved]. revert Hs. generalize (perform c SNow w).2. intros w1 (_&D1&C1). cbn [wp call].
  apply wp_bind, wp_users; [|by cbn]. intros w2 t Ht _ Hc Hd.
  apply wp_bind. eapply wp_mono; [|apply revoke_sessions_ok]. cbn beta. intros b w3 (Hu & C3 & Hb & _).
  apply wp_bind, wp_unmoved; [unfold log_event; walk|]. intros _ w4 (_ & D4 & C4). cbn. intros till b' [= <- <-].
  pose proof (clamp_bounds d). split_and!; [|lia|lia|by unfold all_revoked; rewrite D4].
  unfold account. rewrite D4, Hu, Hd. cbn. rewrite lookup_alter_eq. intros u Hv t' Ht'.
  apply fmap_Some in Hv as (v & _ & ->).
  unfold holds_sessions, is_locked_at. cbn. destruct (Z.ltb_spec t' (clock w1 + clampLockDuration d)); [|lia].
  by rewrite andb_false_r.
Qed.

Lemma move_flag_ok has (g : User → User) event admin id ip w :
  (∀ u, users (db w) !! id = Some u → UID u = id) →
  wp any (move_flag has true (λ i, update_user i g) event admin id ip)
    (λ a w', ∀ b, a = Replied b →
       (∃ u, users (db w) !! id = Some u ∧ Deleted u = false ∧ users (db w') !! id = Some (g u)) ∧
       (b = true → all_revoked id w')) w.
Proof.
  intros Hk. unfold move_flag. apply wp_bind. unfold liveUser. destruct (decide _); [by cbn|].
  apply wp_bind. intros c _. cbn [wp call perform]. unfold on_db. destruct (c_db c); cbn [faulty fst snd]; [|by cbn..].
  set (w1 := set_db _ _). assert (D1 : db w1 = db w) by done. change (db (tick c w)) with (db w). clearbody w1. unfold GetByID.
  destruct (users (db w) !! id) as [u|] eqn:Eu; [|by cbn]. destruct (Deleted u) eqn:Edel; [by cbn|]. cbn [wp].
  rewrite (Hk u eq_refl). apply wp_bind, wp_users; [|by cbn]. intros w2 t Ht _ Hc Hd.
  apply wp_bind. eapply wp_mono; [|apply revoke_sessions_ok]. cbn beta. intros b w3 (Hu & C3 & Hb & _).
  apply wp_bind, wp_unmoved; [unfold log_event; walk|]. intros _ w4 (_ & D4 & _). cbn. intros b' [= <-].
  split; [|by unfold all_revoked; rewrite D4]. exists u. split_and!; try done.
  rewrite D4, Hu, Hd. cbn. by rewrite lookup_alter_eq, D1, Eu.
Qed.

(** Containment lands.  A lock that answers has locked the account for at
    most thirty days and for as long no session of it is renewed; a ban, of a
    live account only, holds until it is lifted; a required reset is recorded.
    Each answers that sessions were revoked only when every refresh token of the
    account is revoked, and the restriction stands even when that step failed. *)
Theorem containment_lands has admin id duration ip w o :
  (∀ u, users (db w) !! id = Some u → UID u = id) →
  (∀ until b, (run (LockUser has admin id duration ip) o w).1 = Replied (until, b) →
     let w' := (run (LockUser has admin id duration ip) o w).2 in
     account id (λ u, ∀ t, t < until → holds_sessions t u = false) w' ∧
     clock w < until ≤ clock w' + maxLockDuration ∧ (b = true → all_revoked id w')) ∧
  (∀ b, (run (BanUser has admin id ip) o w).1 = Replied b →
     let w' := (run (BanUser has admin id ip) o w).2 in
     (∃ u, users (db w') !! id = Some u ∧ ∀ t, holds_sessions t u = false) ∧ (b = true → all_revoked id w')) ∧
  (∀ b, (run (RequirePasswordReset has admin id ip) o w).1 = Replied b →
     let w' := (run (RequirePasswordReset has admin id ip) o w).2 in
     (∃ u, users (db w') !! id = Some u ∧ MustResetPassword u = true) ∧ (b = true → all_revoked id w')).
Proof.
  intros Hk. split_and!.
  - intros till b Hr. by apply (wp_run any _ _ w o (λ _, I) (lock_ok has admin id duration ip w)) in Hr.
  - intros b Hr. apply (wp_run any _ _ w o (λ _, I) (move_flag_ok has (set_banned true) _ admin id ip w Hk)) in Hr
      as [(u & _ & _ & Hu) Hb]. split; [|done]. exists (set_banned true u). split; [done|]. intros t.
    unfold holds_sessions. cbn. by rewrite andb_false_r.
  - intros b Hr. apply (wp_run any _ _ w o (λ _, I) (move_flag_ok has (set_must_reset true) _ admin id ip w Hk)) in Hr
      as [(u & _ & _ & Hu) Hb]. split; [|done]. by exists (set_must_reset true u).
Qed.

(** ** The first administrator *)
Definition settled (d : AdminDB) : Prop := ConfigGet firstAdminMarkerKey d ≠ "".

Lemma set_marker_ok now w :
  wp any (set_marker now)
    (λ r w', admin_users (admins w') = admin_users (admins w) ∧ (settled (admins w) → settled (admins w')) ∧
       (r = Ok tt → settled (admins w'))) w.
Proof.
  assert (Hs : settled (ConfigSet firstAdminMarkerKey (FormatInt now) (admins w))).
  { unfold settled, ConfigGet, ConfigSet. cbn. rewrite lookup_insert_eq. apply FormatInt_nonempty. }
  unfold set_marker. apply wp_bind, wp_admin.
  - intros w1 t _ _ A _. cbn [fst snd] in *. cbn [wp]. by rewrite A.
  - intros w1 _ [A|[t A]] _; cbn [wp]; by rewrite A.
Qed.

(** No administrator changed, or the table was empty and now holds one. *)
Definition bootstraps (d d' : AdminDB) : Prop :=
  admin_users d' = admin_users d ∨
  (admin_users d = ∅ ∧ ¬ settled d ∧
   ∃ a, admin_users d' = {[AID a := a]} ∧ Username a = "admin" ∧ ARole a = RoleSuperAdmin ∧ TOTPVerified a = false).

Lemma first_admin_ok pepper w :
  ¬ settled (admins w) → admin_users (admins w) = ∅ →
  wp any (first_admin pepper)
    (λ r w', bootstraps (admins w) (admins w') ∧ (r = Ok tt → settled (admins w') ∧ AdminCount (admins w') = 1%nat)) w.
Proof.
  intros Hs He. assert (Hkeep : ∀ e w1, unmoved w w1 → wp any (Ret (@Err bootErr unit e))
    (λ r w', bootstraps (admins w) (admins w') ∧ (r = Ok tt → settled (admins w') ∧ AdminCount (admins w') = 1%nat)) w1).
  { intros e w1 (A & _ & _). cbn [wp]. rewrite A. split; [by left|done]. }
  unfold first_admin. apply wp_bind, wp_unmoved; [by split|]. intros [id|] w1 U1; [|by apply Hkeep].
  apply wp_bind, wp_unmoved; [by split|]. intros [b|] w2 U2; [|eapply Hkeep, unmoved_trans; eassumption].
  apply (unmoved_trans _ _ _ U1) in U2. cbv zeta.
  apply wp_bind, wp_unmoved; [unfold hash_password; walk|]. intros [hash|] w3 U3; [|eapply Hkeep, unmoved_trans; eassumption].
  apply (unmoved_trans _ _ _ U2) in U3.
  apply wp_bind, wp_unmoved; [by split|]. intros now w4 U4. apply (unmoved_trans _ _ _ U3) in U4.
  apply wp_bind, wp_unmoved; [by split|]. intros [[]|] w5 U5; [|eapply Hkeep, unmoved_trans; eassumption].
  apply (unmoved_trans _ _ _ U4) in U5. destruct U5 as (A5 & _ & _).
  set (a := mkAdminUser id "admin" hash RoleSuperAdmin "" false None 0 0 None None).
  assert (Ec : AdminCreate a (admins w5) = (Ok tt, with_admins {[id := a]} (admins w5))).
  { rewrite A5. unfold AdminCreate, AdminGetByID, AdminGetByUsername, insert_allowed. cbn. rewrite He, lookup_empty.
    rewrite map_to_list_empty, map_size_empty. by vm_compute. }
  assert (Hone : ∀ d, admin_users d = {[id := a]} → bootstraps (admins w) d).
  { intros d Hd. right. split_and!; try done. by exists a. }
  apply wp_bind, wp_admin.
  - intros w6 t _ _ A6 _. rewrite Ec in A6 |- *. cbn [fst snd] in A6 |- *.
    eapply wp_mono; [|apply set_marker_ok]. cbn beta. intros r w7 (U7 & _ & Hok). split; [by apply Hone; rewrite U7, A6|].
    intros ->. split; [by apply Hok|]. unfold AdminCount. rewrite U7, A6. cbn. apply map_size_singleton.
  - intros w6 _ HA _. cbn [wp]. split; [|done]. destruct HA as [HA|[t HA]]; rewrite HA; [left; by rewrite A5|]. rewrite Ec. by apply Hone.
Qed.

(** The first administrator is created once.  Whatever fails, a start either
    leaves the administrators as they were or fills an empty table, never marked
    before, with one super administrator that still has to enrol a second
    factor; a start that succeeds leaves the mark set and somebody to sign in,
    and once the mark is set an emptied table is refused, not refilled. *)
Theorem first_admin_created_once pepper w o :
  let boot := run (EnsureFirstAdmin pepper) o w in
  bootstraps (admins w) (admins boot.2) ∧
  (settled (admins w) → settled (admins boot.2)) ∧
  (boot.1 = Ok tt → settled (admins boot.2) ∧ AdminCount (admins boot.2) ≠ 0%nat).
Proof.
  cbv zeta. apply (wp_run any _ (λ r w', bootstraps (admins w) (admins w') ∧ (settled (admins w) → settled (admins w')) ∧
    (r = Ok tt → settled (admins w') ∧ AdminCount (admins w') ≠ 0%nat)) w o (λ _, I)).
  assert (Hkeep : ∀ e w1, unmoved w w1 → wp any (Ret (@Err bootErr unit e))
    (λ r w', bootstraps (admins w) (admins w') ∧ (settled (admins w) → settled (admins w')) ∧
    (r = Ok tt → settled (admins w') ∧ AdminCount (admins w') ≠ 0%nat)) w1).
  { intros e w1 (A & _ & _). cbn [wp]. rewrite A. split_and!; [by left|done|done]. }
  unfold EnsureFirstAdmin. apply wp_bind, wp_admin_read. intros w1 m U1 [->| ->]; [|by apply Hkeep].
  apply wp_bind, wp_admin_read. intros w2 n U2 Hn. apply (unmoved_trans _ _ _ U1) in U2.
  rewrite (proj1 U1) in Hn. case_bool_decide as Hm; cbn [negb].
  2: { destruct Hn as [->| ->]; [|by apply Hkeep]. destruct (AdminCount (admins w)) eqn:En; [by apply Hkeep|].
       destruct U2 as (A2 & _ & _). cbn. rewrite A2. split_and!; [by left|done|]. intros _. split; [done|congruence]. }
  assert (Hns : ¬ settled (admins w)) by (intros Hs; by apply Hs).
  destruct Hn as [->| ->]; [|by apply Hkeep]. destruct (AdminCount (admins w)) as [|k] eqn:En.
  - destruct U2 as (A2 & _ & _). apply map_size_empty_inv in En. eapply wp_mono; [|apply first_admin_ok].
    + cbn beta. rewrite A2. intros r w3 [Hb Hok]. split_and!; [done|done|]. intros ->. destruct (Hok eq_refl) as [? Hc].
      by rewrite Hc.
    + by rewrite A2.
    + by rewrite A2.
  - apply wp_bind, wp_unmoved; [by split|]. intros now w3 U3. apply (unmoved_trans _ _ _ U2) in U3.
    destruct U3 as (A3 & _ & _). eapply wp_mono; [|apply set_marker_ok]. cbn beta. rewrite A3. intros r w4 (U4 & Hs & Hok).
    split_and!; [by left|done|]. intros ->. split; [by apply Hok|]. unfold AdminCount in *. rewrite U4. congruence.
Qed.
End admin_facts.

(** ** The tables under every statement of the repository *)
Inductive admin_op :=
| ACreate (u : AdminUser) | AUpdate (u : AdminUser) | AFail (i : string) | AReset (i : string) | ALock (i : string) (t : Z)
| ACounter (i : string) (n : Z) | ALogin (i : string) (now : Z) | ARevoke (i : string)
| ASession (s : AdminSession) | ASessRevoke (i : string) | ASessRevokeAllFor (i : string) | ASessRevokeAll
| ASessExpire (now : Z) | ASet (k v : string) | AUnset (k : string) | AClaim (k v : string).

(** The new tables, and whether the statement reported success. *)
Definition admin_exec (o : admin_op) (d : AdminDB) : bool * AdminDB :=
  match o with
  | ACreate u => let '(r, d') := AdminCreate u d in (is_ok r, d')
  | AUpdate u => let '(r, d') := AdminUpdate u d in (is_ok r, d')
  | AFail i => let '(r, d') := AdminIncrementFailedLogin i d in (is_ok r, d')
  | AReset i => (true, AdminResetFailedLogin i d)
  | ALock i t => (true, AdminLockUntil i t d)
  | ACounter i n => let '(r, d') := UpdateLastTOTPCounter i n d in (is_ok r, d')
  | ALogin i now => (true, UpdateLastLogin now i d)
  | ARevoke i => (true, AdminRevoke i d)
  | ASession s => let '(r, d') := SessCreate s d in (is_ok r, d')
  | ASessRevoke i => (true, SessRevoke i d)
  | ASessRevokeAllFor i => (true, SessRevokeAllForAdmin i d)
  | ASessRevokeAll => (true, SessRevokeAll d)
  | ASessExpire now => (true, (SessDeleteExpired now d).2)
  | ASet k v => (true, ConfigSet k v d)
  | AUnset k => (true, ConfigDelete k d)
  | AClaim k v => (true, (ClaimIfAbsent k v d).2)
  end.

(** The TOTP steps accepted for [i], in order. *)
Fixpoint accepted_steps (i : string) (ops : list admin_op) (d : AdminDB) : list Z :=
  match ops with
  | [] => []
  | o :: ops' =>
      let '(b, d') := admin_exec o d in
      match o with
      | ACounter j n => if bool_decide (j = i) && b then n :: accepted_steps i ops' d' else accepted_steps i ops' d'
      | _ => accepted_steps i ops' d'
      end
  end.
Definition removes (i : string) (o : admin_op) : bool := match o with ARevoke j => bool_decide (j = i) | _ => false end.

(** The administrator's counter is at least [k]. *)
Definition counted (i : string) (k : Z) (d : AdminDB) : Prop := ∃ a, admin_users d !! i = Some a ∧ k ≤ LastTOTPCounter a.

Lemma counted_alter i j k f d : (∀ a, LastTOTPCounter a ≤ LastTOTPCounter (f a)) → counted i k d →
  counted i k (with_admins (alter f j (admin_users d)) d).
Proof.
  intros Hf (a & Ha & Hk). unfold counted. cbn. destruct (decide (i = j)) as [<-|].
  - rewrite lookup_alter_eq, Ha. exists (f a). split; [done|]. specialize (Hf a). lia.
  - rewrite lookup_alter_ne by done. by exists a.
Qed.
Lemma counted_insert i j k b d : (∀ a, admin_users d !! j = Some a → LastTOTPCounter a ≤ LastTOTPCounter b) →
  (admin_users d !! j = None → j ≠ i) → counted i k d → counted i k (with_admins (<[j := b]> (admin_users d)) d).
Proof.
  intros Hb Hn (a & Ha & Hk). unfold counted. cbn. destruct (decide (i = j)) as [<-|].
  - rewrite lookup_insert_eq. exists b. split; [done|]. specialize (Hb a Ha). lia.
  - rewrite lookup_insert_ne by done. by exists a.
Qed.

Lemma counted_exec i k o d : removes i o = false → counted i k d → counted i k (admin_exec o d).2.
Proof.
  intros Hr Hc. destruct o as [u|u|j|j|j t|j n|j now|j|s|j|j| |now|k' v|k'|k' v]; cbn [admin_exec]; try done.
  - unfold AdminCreate. destruct (_ || _ || _) eqn:E; [done|]. cbn. bool_hyps. unfold AdminGetByID in *.
    destruct Hc as (a & Ha & Hk). exists a. split; [|done]. cbn. rewrite lookup_insert_ne; [done|].
    intros <-. by match goal with Hn : ¬ is_Some (admin_users _ !! _) |- _ => apply Hn end.
  - unfold AdminUpdate. destruct (admin_users d !! AID u) as [a|] eqn:Ea; [|done].
    set (promoted := match rank (ARole a), rank (ARole u) with Some o, Some n => o <? n | _, None => true | None, _ => false end).
    destruct promoted; [done|]. destruct (match AdminGetByUsername (Username u) d with Some b => _ | None => _ end); [done|]. cbn. apply counted_insert; [|congruence|done].
    intros a' Ha'. by simplify_eq.
  - unfold AdminIncrementFailedLogin. destruct (admin_users d !! j) as [a|] eqn:Ea; [|done]. cbn.
    apply counted_insert; [|congruence|done]. intros a' Ha'. by simplify_eq.
  - by apply counted_alter.
  - by apply counted_alter.
  - unfold UpdateLastTOTPCounter. destruct (admin_users d !! j) as [a|] eqn:Ea; [|done].
    destruct (Z.ltb_spec (LastTOTPCounter a) n); [|done]. cbn. apply counted_insert; [|congruence|done].
    intros a' Ha'. simplify_eq. cbn. lia.
  - by apply counted_alter.
  - destruct Hc as (a & Ha & Hk). cbn in Hr. apply bool_decide_eq_false in Hr. exists (orphan j a). cbn.
    rewrite lookup_fmap, lookup_delete_ne, Ha by done. split; [done|]. unfold orphan. by case_match.
  - unfold SessCreate. by destruct (_ || _).
  - unfold ClaimIfAbsent. by case_match.
Qed.

Lemma accepted_above i k ops d : Forall (λ o, removes i o = false) ops → counted i k d → Forall (λ n, k < n) (accepted_steps i ops d).
Proof.
  intros Hops. revert d k. induction Hops as [|o ops Ho Hops IH]; intros d k Hc; [constructor|].
  cbn [accepted_steps]. pose proof (counted_exec i k o d Ho Hc) as Hc'. destruct (admin_exec o d) as [b d'] eqn:E. cbn in Hc'.
  destruct o; try by apply IH. destruct (bool_decide _ && b) eqn:Eb; [|by apply IH]. bool_hyps. subst.
  constructor; [|by apply IH]. cbn in E. unfold UpdateLastTOTPCounter in E. destruct Hc as (a & Ha & Hk). rewrite Ha in E.
  destruct (Z.ltb_spec (LastTOTPCounter a) n); simplify_eq/=. lia.
Qed.

(** An administrator's TOTP step is accepted once: through any sequence of
    statements of the admin repositories that does not delete the account, the
    steps its counter accepts strictly increase, so no code is accepted twice
    and none older than the last. *)
Theorem admin_totp_steps_increase i ops d :
  Forall (λ o, removes i o = false) ops → StronglySorted Z.lt (accepted_steps i ops d).
Proof.
  intros Hops. revert d. induction Hops as [|o ops Ho Hops IH]; intros d; [constructor|]. cbn [accepted_steps].
  destruct (admin_exec o d) as [b d'] eqn:E. destruct o; try apply IH. destruct (bool_decide _ && b) eqn:Eb; [|apply IH].
  bool_hyps. subst. constructor; [apply IH|]. apply accepted_above; [done|].
  cbn in E. unfold UpdateLastTOTPCounter in E. destruct (admin_users d !! i) as [a|] eqn:Ea; simplify_eq/=.
  destruct (Z.ltb_spec (LastTOTPCounter a) n); simplify_eq/=. exists (set_counter n a). cbn. by rewrite lookup_insert_eq.
Qed.

(** What the schema holds true of the tables. *)
Record admin_wf (d : AdminDB) : Prop := {
  wf_ids : ∀ i a, admin_users d !! i = Some a → AID a = i;
  wf_roles : ∀ i a, admin_users d !! i = Some a → is_Some (rank (ARole a));
  wf_names : ∀ i j a b, admin_users d !! i = Some a → admin_users d !! j = Some b → Username a = Username b → i = j;
  wf_owner : ∀ s, s ∈ admin_sessions d → is_Some (admin_users d !! AdminID s);
  wf_sessions : NoDup (ASID <$> admin_sessions d);
}.

Lemma by_username n d : match AdminGetByUsername n d with
  | Some a => Username a = n ∧ ∃ i, admin_users d !! i = Some a
  | None => ∀ i a, admin_users d !! i = Some a → Username a ≠ n
  end.
Proof.
  unfold AdminGetByUsername. destruct (head _) as [a|] eqn:E.
  - apply head_Some_elem_of, list_elem_of_filter in E as [Hn (x & -> & Hx)%list_elem_of_fmap]. split; [done|].
    destruct x as [i a]. exists i. by apply elem_of_map_to_list.
  - intros i a Ha Hn. apply head_None in E. assert (Hin : a ∈ filter (λ a, Username a = n) (snd <$> map_to_list (admin_users d))).
    { apply list_elem_of_filter. split; [done|]. apply list_elem_of_fmap. exists (i, a). split; [done|].
      by apply elem_of_map_to_list. }
    rewrite E in Hin. by apply elem_of_nil in Hin.
Qed.

(** Rewriting a row without its id, name or role is invisible to the schema. *)
Lemma wf_alter f i d : (∀ a, AID (f a) = AID a ∧ Username (f a) = Username a ∧ ARole (f a) = ARole a) →
  admin_wf d → admin_wf (with_admins (alter f i (admin_users d)) d).
Proof.
  intros Hf [Hi Hr Hn Ho Hs].
  assert (Hback : ∀ j b, alter f i (admin_users d) !! j = Some b →
    ∃ a, admin_users d !! j = Some a ∧ AID b = AID a ∧ Username b = Username a ∧ ARole b = ARole a).
  { intros j b Hb. destruct (decide (i = j)) as [<-|Hne].
    - rewrite lookup_alter_eq in Hb. apply fmap_Some in Hb as (a & Ha & ->). exists a. split; [done|apply Hf].
    - rewrite lookup_alter_ne in Hb by done. by exists b. }
  split; cbn.
  - intros j b (a & Ha & -> & _)%Hback. by apply Hi.
  - intros j b (a & Ha & _ & _ & ->)%Hback. by eapply Hr.
  - intros j k b c (a & Ha & _ & Eb & _)%Hback (a' & Ha' & _ & Ec & _)%Hback He. eapply Hn; [done..|]. congruence.
  - intros s Hin. apply lookup_alter_is_Some. by apply Ho.
  - done.
Qed.
Lemma insert_alter {A} (m : gmap string A) f i a : m !! i = Some a → <[i := f a]> m = alter f i m.
Proof.
  intros Ha. apply map_eq. intros j. destruct (decide (i = j)) as [<-|].
  - by rewrite lookup_insert_eq, lookup_alter_eq, Ha.
  - by rewrite lookup_insert_ne, lookup_alter_ne.
Qed.

(** A new or rewritten row keeps the schema when its name is its own. *)
Lemma wf_insert u d : is_Some (rank (ARole u)) → (∀ j b, admin_users d !! j = Some b → Username b = Username u → j = AID u) →
  admin_wf d → admin_wf (with_admins (<[AID u := u]> (admin_users d)) d).
Proof.
  intros Hrank Hname [Hi Hr Hn Ho Hs]. split; cbn.
  - intros j b [[<- <-]|[_ Hb]]%lookup_insert_Some; [done|by apply Hi].
  - intros j b [[<- <-]|[_ Hb]]%lookup_insert_Some; [done|by eapply Hr].
  - intros j k b c [[<- <-]|[_ Hb]]%lookup_insert_Some [[<- <-]|[_ Hc]]%lookup_insert_Some He; [done| | |by eapply Hn].
    + symmetry. by eapply Hname.
    + by eapply Hname.
  - intros s Hin. apply lookup_insert_is_Some'. right. by apply Ho.
  - done.
Qed.

(** Sessions only lose rows or are rewritten in place. *)
Lemma wf_with_sessions l d : (∀ s, s ∈ l → ∃ s', s' ∈ admin_sessions d ∧ AdminID s = AdminID s') → NoDup (ASID <$> l) →
  admin_wf d → admin_wf (with_sessions l d).
Proof. intros Hl Hnd [Hi Hr Hn Ho Hs]. split; try done. cbn. intros s (s' & Hin & ->)%Hl. by apply Ho. Qed.
Lemma wf_map_sessions f d : (∀ s, ASID (f s) = ASID s ∧ AdminID (f s) = AdminID s) →
  admin_wf d → admin_wf (with_sessions (f <$> admin_sessions d) d).
Proof.
  intros Hf Hw. apply wf_with_sessions; [| |done].
  - intros s (s' & -> & Hin)%list_elem_of_fmap. exists s'. split; [done|apply Hf].
  - rewrite <-list_fmap_compose. rewrite (list_fmap_ext _ ASID); [apply Hw|]. intros i s _. apply Hf.
Qed.

Lemma filter_ids (P : AdminSession → Prop) `{∀ s, Decision (P s)} l : NoDup (ASID <$> l) → NoDup (ASID <$> filter P l).
Proof. intros Hl. eapply sublist_NoDup; [exact Hl|]. apply fmap_sublist, sublist_filter. Qed.
Lemma wf_filter_sessions (P : AdminSession → Prop) `{∀ s, Decision (P s)} d : admin_wf d → admin_wf (with_sessions (filter P (admin_sessions d)) d).
Proof.
  intros Hw. apply wf_with_sessions; [|apply filter_ids, Hw|done]. intros s [_ Hin]%list_elem_of_filter. by exists s.
Qed.
(** A deleted administrator takes its sessions along. *)
Lemma wf_revoke i d : admin_wf d → admin_wf (AdminRevoke i d).
Proof.
  intros [Hi Hr Hn Ho Hs].
  assert (Hback : ∀ j b, (orphan i <$> delete i (admin_users d)) !! j = Some b →
    ∃ a, admin_users d !! j = Some a ∧ AID b = AID a ∧ Username b = Username a ∧ ARole b = ARole a).
  { intros j b Hb. rewrite lookup_fmap in Hb. apply fmap_Some in Hb as (a & [_ Ha]%lookup_delete_Some & ->).
    exists a. split; [done|]. unfold orphan. by case_decide. }
  split; cbn.
  - intros j b (a & Ha & -> & _)%Hback. by apply Hi.
  - intros j b (a & Ha & _ & _ & ->)%Hback. by eapply Hr.
  - intros j k b c (a & Ha & _ & Eb & _)%Hback (a' & Ha' & _ & Ec & _)%Hback He. eapply Hn; [done..|]. congruence.
  - intros s [Hne Hin]%list_elem_of_filter. rewrite lookup_fmap, lookup_delete_ne by done. by apply fmap_is_Some, Ho.
  - by apply filter_ids.
Qed.

Lemma wf_exec o d : admin_wf d → admin_wf (admin_exec o d).2.
Proof.
  intros Hw. destruct o as [u|u|j|j|j t|j n|j now|j|s|j|j| |now|k v|k|k v]; cbn [admin_exec].
  - unfold AdminCreate. destruct (_ || _ || _) eqn:E; [done|]. cbn. bool_hyps.
    set (u' := mkAdminUser _ _ _ _ _ _ _ _ _ _ _). apply (wf_insert u'); [| |done].
    + unfold insert_allowed in *. change (ARole u') with (ARole u). destruct (rank (ARole u)); [done|discriminate].
    + intros i b Hb Hn. pose proof (by_username (Username u) d) as Hu. destruct (AdminGetByUsername (Username u) d); [by exfalso; eauto|].
      by apply Hu in Hb.
  - unfold AdminUpdate. destruct (admin_users d !! AID u) as [a|] eqn:Ea; [|done].
    destruct (rank (ARole u)) as [r|] eqn:Er; [|by destruct (rank (ARole a))].
    destruct (match rank (ARole a) with Some o => o <? r | None => false end); [done|].
    pose proof (by_username (Username u) d) as Hu.
    destruct (AdminGetByUsername (Username u) d) as [b|] eqn:Eb.
    + destruct Hu as (Hbn & i & Hb). pose proof (wf_ids _ Hw _ _ Hb) as Hbi. case_bool_decide as Hbu; [|done].
      cbn. set (u' := mkAdminUser _ _ _ _ _ _ _ _ _ _ _).
      assert (Hu' : AID u' = AID u) by (cbn; apply (wf_ids _ Hw _ _ Ea)). rewrite <-Hu'. apply wf_insert; [by exists r| |done].
      intros j c Hc Hn. rewrite Hu', <-Hbu, Hbi. eapply (wf_names _ Hw); [exact Hc|exact Hb|]. by rewrite Hbn.
    + cbn. set (u' := mkAdminUser _ _ _ _ _ _ _ _ _ _ _).
      assert (Hu' : AID u' = AID u) by (cbn; apply (wf_ids _ Hw _ _ Ea)). rewrite <-Hu'. apply wf_insert; [by exists r| |done].
      intros j c Hc Hn. by apply Hu in Hc.
  - unfold AdminIncrementFailedLogin. destruct (admin_users d !! j) as [a|] eqn:Ea; [|done]. cbn.
    rewrite (insert_alter (admin_users d) (λ a, set_afailed (AFailedLoginCount a + 1) a) j a Ea). by apply wf_alter.
  - by apply wf_alter.
  - by apply wf_alter.
  - unfold UpdateLastTOTPCounter. destruct (admin_users d !! j) as [a|] eqn:Ea; [|done]. destruct (_ <? _); [|done]. cbn.
    rewrite (insert_alter (admin_users d) (set_counter n) j a Ea). by apply wf_alter.
  - by apply wf_alter.
  - by apply wf_revoke.
  - unfold SessCreate. destruct (_ || _) eqn:E; [done|]. cbn. bool_hyps. destruct Hw as [Hi Hr Hn Ho Hs]. split; try done; cbn.
    + intros s' [Hin| ->%list_elem_of_singleton]%elem_of_app; [by apply Ho|].
      destruct (admin_users d !! AdminID s) eqn:Es; [by eexists|done].
    + rewrite fmap_app. apply NoDup_app. split_and!; [done| |repeat constructor; apply not_elem_of_nil].
      intros x Hx ->%list_elem_of_singleton. done.
  - apply wf_map_sessions; [|done]. intros s. by case_decide.
  - apply wf_map_sessions; [|done]. intros s. by case_decide.
  - by apply wf_map_sessions.
  - by apply (wf_filter_sessions (λ s, ¬ ASExpiresAt s < now)).
  - by destruct Hw.
  - by destruct Hw.
  - unfold ClaimIfAbsent. case_match; [done|]. by destruct Hw.
Qed.


(** ** Instances *)
Module AdminDemo.
#[local] Existing Instance Toy.prims.
#[local] Instance aead : AEAD := ToyEscrow.aead.
#[local] Instance hmac : HMACSHA1 := { hmac_sha1 _ _ := zeros 20 }.

Definition mk : string := "0123456789abcdef0123456789abcdef".
Definition h : AuthHandler := mkAuthHandler mk "pepper" hour 5 (15 * minute) "$dummy".
Definition sealed (i : string) : string :=
  hex_encode ("nonce0123456" +:+ ToyEscrow.wrap i (b32_encode "12345678901234567890")).
Definition root : AdminUser := mkAdminUser "root" "root" "$long enough password" RoleSuperAdmin (sealed "root") true None 0 0 None None.
Definition world : World Memory.MemoryCache := set_admins (mkAdminDB {["root" := root]} [] ∅) Toy.world.
Definition login : prog (answer string) := AdminLogin h "root" "long enough password" "464432" "127.0.0.1".


Lemma admin_totp_steps_increase_witness :
  accepted_steps "root" [ACounter "root" 7; ACounter "root" 7; ALogin "root" 3; ACounter "root" 9; ACounter "root" 8] (admins world) = [7; 9] ∧
  StronglySorted Z.lt (accepted_steps "root" [ACounter "root" 7; ACounter "root" 7; ALogin "root" 3; ACounter "root" 9; ACounter "root" 8] (admins world)).
Proof. split; [by vm_compute|]. apply admin_totp_steps_increase. by repeat constructor. Defined.


Lemma containment_lands_witness :
  (run (BanUser true root "alice" "127.0.0.1") Toy.oracle world).1 = Replied true ∧
  all_revoked "alice" (run (BanUser true root "alice" "127.0.0.1") Toy.oracle world).2 ∧
  account "alice" (λ u, ∀ t, t < 2000 * second → holds_sessions t u = false)
    (run (LockUser true root "alice" (Some hour) "127.0.0.1") Toy.oracle world).2.
Proof.
  assert (Hk : ∀ u, users (db world) !! "alice" = Some u → UID u = "alice") by (intros u [= <-]; done).
  destruct (containment_lands true root "alice" (Some hour) "127.0.0.1" world Toy.oracle Hk) as (HL & HB & _).
  assert (E : (run (BanUser true root "alice" "127.0.0.1") Toy.oracle world).1 = Replied true) by by vm_compute.
  split; [exact E|]. split; [by apply (proj2 (HB true E))|].
  destruct (run (LockUser true root "alice" (Some hour) "127.0.0.1") Toy.oracle world).1 as [st m|[until b]] eqn:EL; [by vm_compute in EL|].
  destruct (HL until b eq_refl) as [Ha _]. intros u Hu t Ht. apply (Ha u Hu). etrans; [exact Ht|].
  vm_compute in EL. injection EL as <- _. by vm_compute.
Defined.
End AdminDemo.
